(* ===== verification/_CoqProject ===== *)
-Q . S2P
Prelude.v
Util.v
City.v
Float32.v
Random.v
Hots.v
Mappings.v
FixedTable.v
FixedTableInv.v
FixedTableOps.v
FixedTableInit.v
FixedTableSteps.v
Datastore.v
DatastoreSpec.v
Lockserver.v
RpcDefs.v
RpcBatch.v
Rpc.v
RpcProps.v
RpcRing.v
RpcSend.v
RpcInit.v
RpcDemo.v
Logger.v
Tx.v
TxWorld.v
TxBuckets.v
TxMem.v
TxSpec.v
TxExec.v
TxRelease.v
TxUpdate.v
TxStage.v
TxLog.v
TxCommit.v
TxSystem.v
TxSerial.v
TxTransaction.v
TxSession.v
TxCluster.v
TxStore.v
TxDemo.v
TxApp.v
TxClients.v
TxPopulate.v
Smallbank.v
SmallbankSpec.v
SmallbankTx.v
SmallbankStore.v
SmallbankPopulate.v
SmallbankDemo.v
Tatp.v
TatpSpec.v
TatpTx.v
TatpStore.v
TatpPopulate.v
TatpDemo.v
Stress.v
StressSpec.v
StressTx.v
StressStore.v
StressPopulate.v
StressDemo.v
LTable.v
LTableSim.v
LTableItem.v
LTableInv.v
LTableOps.v
LTableInit.v
LTableSpec.v
LTableDemo.v
