(* ===== verification/Prelude.v ===== *)
(** * A verification development for FaSST (the "HoTS" code base)

    FaSST runs distributed transactions over remote procedure calls on RDMA
    datagrams.  A machine runs worker threads; a worker runs coroutines, one master that
    polls the network and slaves that each execute transactions.  A transaction
    ([src/tx/]) reads and locks its keys at their primary machines, validates
    its reads, logs, updates the backups and then the primaries.  Keys live in MICA
    tables ([src/mica2/], [src/datastore/]); [src/mappings/] decides where; all
    messages go through the RPC endpoint of the worker ([src/rpc/]), which coalesces the
    requests of a batch by machine.  The logger ([src/logger/]) and the lock server
    ([src/lockserver/]) are further RPC services.  SmallBank, TATP and a
    stress test ([src/app/]) are applications: they populate their tables and run
    transactions of random types on them.

    ** Files

    - [Prelude] (this file): faults and the error monad, machine words, byte encodings
      and buffers, tactics, hint databases and list lemmas.
    - [Util], [City], [Hots]: integer utilities ([mica/util/roundup.h],
      [mica/alloc/hrd_alloc.h], [libhrd/hrd.h]), CityHash64 ([city_mod.cc]), and the
      limits, object layouts and message buffers of [hots.h].
    - [Mappings]: the class of [mappings/mappings.h].
    - [FixedTable]: every operation of the table of [mica/table/fixedtable.h] and
      [fixedtable_impl/] on an array of buckets.  [FixedTableInv] is its invariant
      and its abstraction to one finite map per bucket, [FixedTableOps] the proofs of the
      operations, [FixedTableInit] the constructor and [reset], [FixedTableSteps] the
      interleaving of callers and optimistic reads.
    - [LTable]: the table with items of any size of [mica/table/ltable.h] and
      [ltable_impl/], in the instance without eviction, and the copies by words of
      [mica/util/memcpy.h].  [LTableSim] shows that its index behaves as that of [FixedTable],
      [LTableItem] is on items in memory and on the laws of the pool, [LTableInv] is the
      invariant with the map that a table represents, [LTableOps] and [LTableInit] are the
      proofs of the operations, the constructor and [reset], [LTableSpec] the sequences of
      calls, [LTableDemo] a pool that satisfies the laws and tables on it.
    - [Datastore], [DatastoreSpec]: requests and responses as bytes, the RPC handler and
      the population of [datastore/ds.h] and [datastore/fixedtable/]; the abstract
      service that the handler implements.
    - [Lockserver]: [lockserver/lockserver.h].
    - [RpcDefs], [Rpc]: batches, coalesced messages and the endpoint of [rpc/].
      [RpcBatch], [RpcProps], [RpcRing], [RpcSend], [RpcInit] hold the proofs (coalescing,
      service and delivery, the ring of coroutines and the RECVs, the send queues, the
      constructor), [RpcDemo] instances.
    - [Logger]: [logger/logger.h].
    - [Tx]: the class of [tx/tx.h] with [tx_execute.h], [tx_commit.h], [tx_logger.h] and
      [tx_lockserver.h].  Its methods are programs over two events, the start of a request
      and the switch to other coroutines.
    - [TxWorld] gives programs a meaning in a world of buckets that other callers operate
      on, with a weakest precondition; [TxBuckets], [TxMem], [TxSpec], [TxExec],
      [TxRelease], [TxUpdate], [TxStage], [TxLog] and [TxCommit] specify the methods;
      [TxSystem] runs coroutines in parallel; [TxSerial] derives a serial order;
      [TxTransaction] puts a transaction together; [TxCluster] connects it to [Mappings]
      and to the constructors; [TxStore] replaces the buckets by the tables and loggers of
      [FixedTable] and [Logger]; [TxDemo] runs two transactions on a cluster of two
      machines.
    - [TxSession], [TxApp], [TxClients] and [TxPopulate] are what the applications share:
      coroutines that run one transaction after another, some on tables that
      nobody writes; lemmas on the calls of a transaction body; clients that are deployed
      on a cluster, and what follows for them from the theorems on systems; the
      interleaving of the workers that populate the tables.  [Random] is on the
      random generator of [libhrd/hrd.h] and on loops that draw until they are lucky,
      [Float32] is the arithmetic of [float].
    - [Smallbank]: [app/smallbank/]; [SmallbankSpec] is the bank that it implements,
      [SmallbankTx] the transactions, [SmallbankStore] the coroutines on a cluster,
      [SmallbankPopulate] the population, [SmallbankDemo] a run.
    - [Tatp]: [app/tatp/]; [TatpSpec] is the database of five tables that it implements,
      [TatpTx], [TatpStore], [TatpPopulate] and [TatpDemo] are as for SmallBank.
    - [Stress]: [app/stress/]; [StressSpec] is the table of rows, in which neighbours are
      equal, that it implements, [StressTx], [StressStore], [StressPopulate] and
      [StressDemo] are as for SmallBank.

    ** Correspondence to the code

    State is passed explicitly: a class is a [Record] with the members of the class, a
    method a function on it.  A live [assert] or an [exit] is a fault, as is an access out
    of bounds; assertions that the build compiles out ([rpc_dassert], [ds_dassert],
    [tx_dassert], [ls_dassert], see [hots.h]) are not part of the model.  Integers are
    [Z] with explicit wrap-around, structures that are sent are bytes, bit-fields are
    packed words.  Memory is a list of bytes and a pointer an offset.  Build options have
    the values of the sources; [TX_ENABLE_LOCK_SERVER] is a parameter of [Tx], off in the
    theorems on systems.  The functions of the RDMA library are inputs and outputs of [Rpc];
    the memory allocators are parameters, and so is the pool of [LTable] ([PoolOps]), whose
    sources are not in the repository; [PoolLaws] is what the table relies on: allocated
    items are aligned, do not overlap and stay as they are until they are released.

    ** What is shown

    - Transactions ([TxStore], [TxCluster]): transactions on MICA tables are
      serializable whatever the interleaving of their requests; they fail no
      assertion, leave no buffer, keep the tables well formed and the backups of unlocked
      keys equal to the primaries; every run ends.  Transactions that are built by the
      constructor and [add_to_read_set] and [add_to_write_set] meet what this needs.
    - Applications ([SmallbankStore], [TatpStore], [StressStore]): the transactions that
      the coroutines count as committed are, in some order, transactions of a bank, of a
      database with five tables or of a table of rows, and the MICA tables hold the state
      that results; no assertion of the applications fails; every run ends; and the stress
      test, which looks for errors of the transactions, finds none.  Population by all
      workers in parallel ([SmallbankPopulate], [TatpPopulate], [StressPopulate]) leads to
      a state from which they may begin; the generators of accounts, subscribers,
      facilities and rows end and are in range; the two routines for subscriber numbers
      agree.
    - Tables ([FixedTableInit], [FixedTableSteps]): every operation terminates, keeps the
      invariant and acts on the abstract maps as its name says; versions identify
      contents; an optimistic [get] that runs while others write is atomic.
    - The table with items of any size ([LTableSpec]): any sequence of calls of its
      operations runs to the end and gives the results of a finite map from hashes and keys
      to values; a [set] that does not store the value says why; the constructor builds the
      empty map.
    - Datastore ([Datastore], [DatastoreSpec]): requests survive encoding; the handler
      refines the abstract service; population stores exactly the keys of a replica.
    - RPC ([RpcProps], [RpcRing], [RpcSend], [RpcInit]): coalescing, service and
      delivery are correct; the coroutine ring is well formed; RECVs suffice; the send
      queue never overflows; the constructor lays buffers out disjointly.
    - Mappings, lock server, logger, CityHash64, rounding: replicas on distinct machines
      and unique owners; mutual exclusion and atomicity of lock requests; the log holds the
      last record of every coordinator; the hash reads in bounds; equivalence of two
      roundings.
    - Some theorems state that the code does what it should not: deposits that rounding
      absorbs, a log record without the
      values, a [reset] that leaves a stale chain, a lock server that makes a backup
      coincide with its primary, packet sizes and a request type that pass the checks and
      fail later.

    ** Assumptions, bounds and fuel

    - A request is served atomically.  The tables are shared by the threads of a machine;
      [FixedTableSteps] treats the one operation that takes no lock, [get], at the
      granularity of its reads.
    - The theorems on systems assume that no 60-bit version runs over ([in_range]) and that
      coroutines have distinct identifiers; a packet has 16 bytes more than
      [Tx::max_pkt_size] asks for, because a PUT request copies that many bytes more than
      its length.
    - The theorems on [LTable] are about calls that run one at a time, with aligned pointers
      and lengths that are multiples of eight, which [memcpy<8>] asserts.
    - Loops over a chain of buckets have the number of buckets as fuel, which
      [FixedTableInv] and [LTableSim] show to be enough; the loops of the constructors that
      compute a logarithm or a shift have as many steps as the word has bits; the padding loop has one step per byte of a
      2 MB block; the loop that computes a receive step has as many steps as the packet has
      bytes.  Programs of [Tx] are trees and need no fuel.  Loops of the applications that
      draw random numbers until they are lucky have 2^64 steps: [Random] shows that the
      generator has that period, so that every number of 32 bits is drawn by then.
    - A coroutine of an application runs any finite number of transactions, each in a
      frame: the seed that the threads' generator has by then, the addresses of its local
      objects and what the code leaves uninitialised are arbitrary.  A coroutine of the
      stress test that ends the process is one that ends early in the model, while others
      may go on.  In the population of TATP the uninitialised bytes of a row are the same
      for all workers.
    - [functional_extensionality] is used once, to identify the buckets of updated tables.

    ** Not modelled

    Of the three applications the parsing of the configuration, the start of threads, the
    barrier between population and transactions, and statistics.  The other applications
    and benchmarks ([src/app/], [src/other/], [src/loss_study/]), the
    datastore on [LTable] ([src/datastore/ltable/]: its initialisation ends the process,
    and it uses macros that are not defined), the instance of [LTable] on a circular log
    (eviction, [move_to_head], [cleanup_bucket]), the drivers under [src/drivers/] (patched
    copies of vendor libraries), the third-party utilities of MICA (rapidjson, SafeInt,
    philox, pcg, [rte_memcpy]), its allocators on huge pages and configuration files, and
    the connection setup of [src/libhrd/], which only calls the RDMA library, memcached and
    the operating system. *)

From Stdlib Require Import ZArith Lia Bool.
From stdpp Require Import base numbers list gmap.

#[local] Open Scope Z_scope.

(** ** Faults and the error monad

    An [assert] or [exit(-1)] that is compiled into the program ends the
    process; the model returns the fault as a value.  [OutOfBounds],
    [DivByZero] and [IntOverflow] are the undefined behaviours of C++ that the
    model makes explicit where the source can reach them; [Diverge] is a loop
    that never ends (a spin on a lock nobody releases, or fuel that a cyclic
    structure exhausts). *)

Inductive fault : Type :=
| AssertFail
| ExitFail
| OutOfBounds
| DivByZero
| IntOverflow
| Diverge.

Inductive res (A : Type) : Type :=
| Ok (a : A)
| Err (e : fault).
Arguments Ok {A} a.
Arguments Err {A} e.

#[global] Instance fault_eq_dec : EqDecision fault.
Proof. solve_decision. Defined.
#[global] Instance res_eq_dec {A} `{EqDecision A} : EqDecision (res A).
Proof. solve_decision. Defined.

#[global] Instance res_ret : MRet res := fun A a => Ok a.
#[global] Instance res_bind : MBind res := fun A B f m =>
  match m with Ok a => f a | Err e => Err e end.
#[global] Instance res_fmap : FMap res := fun A B f m =>
  match m with Ok a => Ok (f a) | Err e => Err e end.

(** [assert(b)] of the source. *)
Definition assert_ (b : bool) : res unit :=
  if b then Ok tt else Err AssertFail.

(** A C [int] result: arithmetic that leaves the 32-bit range is undefined. *)
Definition chk_int (z : Z) : res Z :=
  if (- 2 ^ 31 <=? z) && (z <? 2 ^ 31) then Ok z else Err IntOverflow.

Definition of_option {A} (e : fault) (o : option A) : res A :=
  match o with Some a => Ok a | None => Err e end.

Definition is_ok {A} (r : res A) : bool :=
  match r with Ok _ => true | Err _ => false end.

(** ** Machine words *)

Declare Scope hots_scope.
Delimit Scope hots_scope with hots.

(** [u w x]: [x] is the value of a [w]-bit unsigned integer. *)
Definition u (w x : Z) : Prop := 0 <= x < 2 ^ w.
Notation "x ∈u w" := (u w x) (at level 70) : hots_scope.
#[global] Open Scope hots_scope.

(** The value of [x] after it is stored in a [w]-bit unsigned integer. *)
Definition wrap (w x : Z) : Z := x mod 2 ^ w.

#[global] Instance u_dec w x : Decision (u w x).
Proof. unfold u. apply _. Defined.

(** ** Bit fields

    A C++ bit-field structure is laid out from the least significant bit; a
    layout is the list of its (width, value) pairs. *)

Fixpoint pack (fs : list (Z * Z)) : Z :=
  match fs with
  | [] => 0
  | (w, v) :: fs' => wrap w v + 2 ^ w * pack fs'
  end.

Fixpoint unpack (ws : list Z) (x : Z) : list Z :=
  match ws with
  | [] => []
  | w :: ws' => wrap w x :: unpack ws' (x / 2 ^ w)
  end.

Definition sumZ (l : list Z) : Z := foldr Z.add 0 l.

(** ** Bytes *)

Definition byte := Z.

(** Little-endian encoding of [x] in [n] bytes, and the value of a byte list. *)
Definition le_bytes (n : nat) (x : Z) : list byte := unpack (replicate n 8) x.
Definition le_val (bs : list byte) : Z := pack (map (fun b => (8, b)) bs).

(** [memcpy(dst + off, src, |src|)] on a byte buffer: a write that does not fit
    the buffer is out of bounds. *)
Definition write_at {A} (off : nat) (src dst : list A) : res (list A) :=
  if (off + length src <=? length dst)%nat
  then Ok (take off dst ++ src ++ drop (off + length src) dst)
  else Err OutOfBounds.

Definition read_at {A} (off n : nat) (src : list A) : res (list A) :=
  if (off + n <=? length src)%nat
  then Ok (take n (drop off src))
  else Err OutOfBounds.

(** A number of [n] bytes at an address of memory. *)
Definition load_le (n : nat) (a : Z) (m : list byte) : res Z :=
  bs ← read_at (Z.to_nat a) n m; Ok (le_val bs).
Definition store_le (n : nat) (a v : Z) (m : list byte) : res (list byte) :=
  write_at (Z.to_nat a) (le_bytes n v) m.

(** ** Tactics *)

(** Case analysis on the scrutinee of a [match] or [if] of the goal, or of a
    hypothesis. *)
Ltac case_goal :=
  match goal with
  | |- context [match ?x with _ => _ end] =>
      lazymatch x with
      | context [match _ with _ => _ end] => fail
      | _ => let E := fresh "E" in destruct x eqn:E
      end
  end.

Ltac case_in H :=
  match type of H with
  | context [match ?x with _ => _ end] =>
      lazymatch x with
      | context [match _ with _ => _ end] => fail
      | _ => let E := fresh "E" in destruct x eqn:E
      end
  end.

(** Turns the boolean comparisons of the source's guards into propositions. *)
Ltac bool_prop :=
  repeat match goal with
  | H : (_ && _)%bool = true |- _ => apply andb_true_iff in H; destruct H
  | H : (_ && _)%bool = false |- _ => apply andb_false_iff in H
  | H : (_ || _)%bool = true |- _ => apply orb_true_iff in H
  | H : (_ || _)%bool = false |- _ => apply orb_false_iff in H; destruct H
  | H : negb _ = true |- _ => apply negb_true_iff in H
  | H : negb _ = false |- _ => apply negb_false_iff in H
  | H : (_ <=? _) = true |- _ => apply Z.leb_le in H
  | H : (_ <=? _) = false |- _ => apply Z.leb_gt in H
  | H : (_ <? _) = true |- _ => apply Z.ltb_lt in H
  | H : (_ <? _) = false |- _ => apply Z.ltb_ge in H
  | H : (_ >=? _) = _ |- _ => rewrite Z.geb_leb in H
  | H : (_ >? _) = _ |- _ => rewrite Z.gtb_ltb in H
  | H : (_ =? _) = true |- _ => apply Z.eqb_eq in H
  | H : (_ =? _) = false |- _ => apply Z.eqb_neq in H
  | H : (_ <=? _)%nat = true |- _ => apply Nat.leb_le in H
  | H : (_ <=? _)%nat = false |- _ => apply Nat.leb_gt in H
  | H : (_ <? _)%nat = true |- _ => apply Nat.ltb_lt in H
  | H : (_ <? _)%nat = false |- _ => apply Nat.ltb_ge in H
  | H : (_ =? _)%nat = true |- _ => apply Nat.eqb_eq in H
  | H : (_ =? _)%nat = false |- _ => apply Nat.eqb_neq in H
  | H : bool_decide _ = true |- _ => apply bool_decide_eq_true in H
  | H : bool_decide _ = false |- _ => apply bool_decide_eq_false in H
  end.

(** Runs a successful computation of the error monad backwards: every [assert_]
    on the way held and every sub-computation returned. *)
Ltac run_ok H :=
  repeat (unfold mbind, res_bind, assert_, chk_int, of_option in H; cbn beta iota in H;
          case_in H; try discriminate H);
  simplify_eq; bool_prop.

(** Discharges the boolean guards that hold by linear arithmetic. *)
Ltac guards :=
  repeat (match goal with
  | |- context [?a <=? ?b] => rewrite (proj2 (Z.leb_le a b)) by lia
  | |- context [?a <? ?b] => rewrite (proj2 (Z.ltb_lt a b)) by lia
  | |- context [?a =? ?b] => rewrite (proj2 (Z.eqb_eq a b)) by lia
  | |- context [?a =? ?b] => rewrite (proj2 (Z.eqb_neq a b)) by lia
  end; simpl).

(** Side conditions of the bit-field lemmas on a concrete layout. *)
Ltac fields :=
  repeat first [apply Forall_nil_2 | apply Forall_cons_2]; simpl;
  try lazymatch goal with |- _ /\ _ => split end; try assumption; try lia; try (vm_compute; discriminate).

(** ** Lemmas *)

Create HintDb hots.
Create Rewrite HintDb hots.

Section Res.
Context {A B : Type}.

Lemma bind_Ok (f : A -> res B) x : (Ok x ≫= f) = f x.
Proof. done. Qed.

Lemma bind_ok (m : res A) (f : A -> res B) b :
  (m ≫= f) = Ok b <-> exists a, m = Ok a /\ f a = Ok b.
Proof. destruct m; simpl; naive_solver. Qed.

Lemma bind_err (m : res A) (f : A -> res B) e :
  (m ≫= f) = Err e <-> m = Err e \/ exists a, m = Ok a /\ f a = Err e.
Proof. destruct m; simpl; naive_solver. Qed.

Lemma assert_ok b x : assert_ b = Ok x <-> b = true.
Proof. destruct b, x; naive_solver. Qed.

Lemma assert_then (b : bool) (m : res A) x :
  (_ ← assert_ b; m) = Ok x <-> b = true /\ m = Ok x.
Proof. destruct b; simpl; naive_solver. Qed.

Lemma chk_int_ok z z' : chk_int z = Ok z' <-> z' = z /\ - 2 ^ 31 <= z < 2 ^ 31.
Proof. unfold chk_int. case_goal; bool_prop; naive_solver lia. Qed.
End Res.

Section Words.

Lemma pow2_pos w : 0 <= w -> 0 < 2 ^ w.
Proof. intros. apply Z.pow_pos_nonneg; lia. Qed.

Lemma wrap_u w x : 0 <= w -> u w (wrap w x).
Proof. intros. apply Z.mod_pos_bound, pow2_pos, H. Qed.

Lemma wrap_id w x : u w x -> wrap w x = x.
Proof. apply Z.mod_small. Qed.

Lemma wrap_wrap w x : wrap w (wrap w x) = wrap w x.
Proof. apply Z.mod_mod_divide, Z.divide_refl. Qed.

Lemma u_nonneg w x : u w x -> 0 <= x.
Proof. unfold u. lia. Qed.

Lemma u_mono w w' x : w <= w' -> u w x -> u w' x.
Proof. intros H [? ?]. split; [done|]. assert (2 ^ w <= 2 ^ w') by (apply Z.pow_le_mono_r; lia). lia. Qed.

Lemma sumZ_nonneg ws : Forall (Z.le 0) ws -> 0 <= sumZ ws.
Proof. induction 1; simpl; lia. Qed.

Lemma pack_u fs :
  Forall (fun '(w, _) => 0 <= w) fs -> u (sumZ (map fst fs)) (pack fs).
Proof.
  induction 1 as [|[w v] fs Hw Hf IH]; simpl; [done|].
  assert (0 <= sumZ (map fst fs)) as Hs.
  { apply sumZ_nonneg, Forall_map. eapply Forall_impl; [exact Hf|]. by intros []. }
  pose proof (wrap_u w v Hw) as [? ?].
  unfold u in *. rewrite Z.pow_add_r by lia. nia.
Qed.

(** Reading the fields of a packed word gives back the fields. *)
Lemma unpack_pack fs :
  Forall (fun '(w, v) => 0 <= w /\ u w v) fs ->
  unpack (map fst fs) (pack fs) = map snd fs.
Proof.
  induction 1 as [|[w v] fs [Hw Hv] Hf IH]; simpl; [done|].
  pose proof (pow2_pos w Hw). rewrite (wrap_id w v) by done.
  assert (pack ((w, v) :: fs) = v + pack fs * 2 ^ w) as Hp
    by (simpl; rewrite (wrap_id w v) by done; lia).
  f_equal.
  - unfold wrap. rewrite (Z.mul_comm (2 ^ w)), Z.mod_add by lia. by apply Z.mod_small.
  - rewrite (Z.mul_comm (2 ^ w)), Z.div_add by lia. by rewrite (Z.div_small v) by done.
Qed.

(** Words of one layout are equal only when their fields are. *)
Lemma pack_inj fs gs :
  map fst fs = map fst gs ->
  Forall (fun '(w, v) => 0 <= w /\ u w v) fs ->
  Forall (fun '(w, v) => 0 <= w /\ u w v) gs ->
  pack fs = pack gs -> map snd fs = map snd gs.
Proof.
  intros Hw Hf Hg E. rewrite <- (unpack_pack fs Hf), <- (unpack_pack gs Hg). by rewrite Hw, E.
Qed.

(** Packing the fields of a word gives back the word. *)
Lemma pack_unpack ws x :
  Forall (Z.le 0) ws -> u (sumZ ws) x -> pack (zip ws (unpack ws x)) = x.
Proof.
  intros Hws. revert x. induction Hws as [|w ws Hw Hws IH]; intros x; simpl.
  { unfold u; simpl. lia. }
  intros [H0 H1]. pose proof (pow2_pos w Hw). pose proof (sumZ_nonneg ws Hws).
  rewrite Z.pow_add_r in H1 by lia.
  rewrite wrap_wrap, IH.
  - unfold wrap. rewrite (Z.div_mod x (2 ^ w)) at 3 by lia. lia.
  - split; [apply Z.div_pos; lia|]. apply Z.div_lt_upper_bound; lia.
Qed.

Lemma length_unpack ws x : length (unpack ws x) = length ws.
Proof. revert x. induction ws; simpl; auto. Qed.

Lemma length_le_bytes n x : length (le_bytes n x) = n.
Proof. unfold le_bytes. by rewrite length_unpack, length_replicate. Qed.

Lemma zip_replicate_map n (l : list Z) :
  length l = n -> zip (replicate n 8) l = map (fun b => (8, b)) l.
Proof. revert n. induction l as [|b l IH]; intros [|n] Hn; simpl in *; try lia; auto. f_equal. apply IH. lia. Qed.

Lemma sumZ_replicate n w : sumZ (replicate n w) = Z.of_nat n * w.
Proof. unfold sumZ. induction n as [|n IH]; [done|]. cbn [replicate foldr]. rewrite IH. lia. Qed.

Lemma le_val_bytes n x : u (8 * Z.of_nat n) x -> le_val (le_bytes n x) = x.
Proof.
  intros Hx. unfold le_val. rewrite <- (zip_replicate_map n) by apply length_le_bytes.
  apply pack_unpack; [by apply Forall_replicate|]. by rewrite sumZ_replicate, Z.mul_comm.
Qed.

Lemma le_bytes_val bs : Forall (u 8) bs -> le_bytes (length bs) (le_val bs) = bs.
Proof.
  intros Hb. unfold le_bytes, le_val.
  replace (replicate (length bs) 8) with (map fst (map (fun b => (8, b)) bs))
    by (clear Hb; induction bs; simpl; congruence).
  rewrite unpack_pack.
  - rewrite map_map. apply map_id.
  - apply Forall_map. eapply Forall_impl; [exact Hb|]. intros b ?; simpl. split; [lia|done].
Qed.

End Words.

Section Buffers.
Context {A : Type}.
Implicit Types (l src dst : list A).

Lemma write_at_length off src dst dst' :
  write_at off src dst = Ok dst' -> length dst' = length dst.
Proof.
  unfold write_at. case_goal; [|done]. intros [= <-]. bool_prop.
  rewrite !length_app, length_take, length_drop. lia.
Qed.

(** What [memcpy] wrote is what a later read of the same bytes returns. *)
Lemma read_write_at off src dst dst' :
  write_at off src dst = Ok dst' -> read_at off (length src) dst' = Ok src.
Proof.
  intros H. pose proof (write_at_length _ _ _ _ H) as Hl.
  unfold write_at in H. case_in H; [|done]. injection H as <-. bool_prop.
  unfold read_at. rewrite (proj2 (Nat.leb_le _ _)) by lia. f_equal.
  rewrite drop_app_length' by (rewrite length_take; lia). by rewrite take_app_length.
Qed.

Lemma write_at_ok off src dst :
  (off + length src <= length dst)%nat ->
  write_at off src dst = Ok (take off dst ++ src ++ drop (off + length src) dst).
Proof. intros H. unfold write_at. by rewrite (proj2 (Nat.leb_le _ _)). Qed.

Lemma write_at_some off src dst :
  (off + length src <= length dst)%nat ->
  exists dst', write_at off src dst = Ok dst' /\ length dst' = length dst.
Proof.
  intros H. rewrite write_at_ok by done. eexists. split; [done|].
  rewrite !length_app, length_take, length_drop. lia.
Qed.

Lemma read_at_ok off n src :
  (off + n <= length src)%nat -> read_at off n src = Ok (take n (drop off src)).
Proof. intros H. unfold read_at. by rewrite (proj2 (Nat.leb_le _ _)). Qed.

Lemma read_at_take off n k src :
  (off + n <= k <= length src)%nat -> read_at off n (take k src) = read_at off n src.
Proof.
  intros H. rewrite !read_at_ok by (rewrite ?length_take; lia).
  by rewrite skipn_firstn_comm, take_take, Nat.min_l by lia.
Qed.

Lemma read_at_bound off n src bs : read_at off n src = Ok bs -> (off + n <= length src)%nat.
Proof. unfold read_at. intros H. case_in H; [|done]. by bool_prop. Qed.

(** A part of what has been read. *)
Lemma read_at_sub off n src bs k j :
  read_at off n src = Ok bs -> (k + j <= n)%nat -> read_at (off + k) j src = Ok (take j (drop k bs)).
Proof.
  intros H Hk. unfold read_at in H. case_in H; [|done]. injection H as <-. bool_prop.
  rewrite read_at_ok, skipn_firstn_comm, drop_drop, take_take, Nat.min_l by lia. done.
Qed.

(** A write inside the range of a read. *)
Lemma read_write_at_in off k src dst dst' n v :
  read_at off n dst = Ok v -> write_at (off + k) src dst = Ok dst' -> (k + length src <= n)%nat ->
  read_at off n dst' = Ok (take k v ++ src ++ drop (k + length src) v).
Proof.
  intros Hv Hw Hk. unfold read_at in Hv. case_in Hv; [|done]. injection Hv as <-. bool_prop.
  pose proof (write_at_length _ _ _ _ Hw) as Hl. rewrite read_at_ok by lia. f_equal. rewrite write_at_ok in Hw by lia. injection Hw as <-.
  rewrite drop_app_le by (rewrite length_take; lia). rewrite skipn_firstn_comm. replace (off + k - off)%nat with k by lia.
  rewrite take_app_ge by (rewrite length_take, length_drop; lia). rewrite length_take, length_drop.
  replace (k `min` (length dst - off))%nat with k by lia. rewrite take_app_ge by lia.
  rewrite take_take, Nat.min_l by lia. f_equal. f_equal. rewrite skipn_firstn_comm, drop_drop. f_equal; [lia|f_equal; lia].
Qed.

(** A read outside the written range is not affected by the write. *)
Lemma read_write_at_ne off src dst dst' off' n :
  write_at off src dst = Ok dst' ->
  (off' + n <= off \/ off + length src <= off')%nat ->
  read_at off' n dst' = read_at off' n dst.
Proof.
  intros H Hd. pose proof (write_at_length _ _ _ _ H) as Hl.
  unfold write_at in H. case_in H; [|done]. injection H as <-. bool_prop.
  unfold read_at. rewrite Hl. case_goal; [|done]. bool_prop. f_equal. destruct Hd as [Hd|Hd].
  - rewrite drop_app_le by (rewrite length_take; lia).
    rewrite take_app_le by (rewrite length_drop, length_take; lia).
    rewrite skipn_firstn_comm, take_take. f_equal. lia.
  - rewrite drop_app_ge by (rewrite length_take; lia). rewrite length_take.
    rewrite drop_app_ge by lia. rewrite drop_drop. do 2 f_equal. lia.
Qed.

Lemma write_at_drop off src dst dst' n :
  write_at off src dst = Ok dst' -> (off + length src <= n)%nat -> drop n dst' = drop n dst.
Proof.
  unfold write_at. case_goal; [|done]. intros [= <-] Hn. bool_prop.
  rewrite drop_app_ge by (rewrite length_take; lia). rewrite length_take.
  rewrite drop_app_ge by lia. rewrite drop_drop. f_equal. lia.
Qed.

Lemma write_at_before off src dst dst' n :
  write_at off src dst = Ok dst' -> (n <= off)%nat -> take n dst' = take n dst.
Proof.
  unfold write_at. case_goal; [|done]. intros [= <-] Hn. bool_prop.
  rewrite take_app_le by (rewrite length_take; lia). rewrite take_take. f_equal. lia.
Qed.

Lemma write_at_take off src dst dst' n :
  write_at off src dst = Ok dst' -> n = (off + length src)%nat ->
  take n dst' = take off dst ++ src.
Proof.
  unfold write_at. case_goal; [|done]. intros [= <-] ->. bool_prop.
  rewrite app_assoc. apply take_app_length'. rewrite length_app, length_take. lia.
Qed.
End Buffers.

Section Lists.
Context {A B : Type}.
Implicit Types (xs : list A).

Lemma insert_middle xs i x y :
  xs !! i = Some x ->
  xs = take i xs ++ x :: drop (S i) xs /\ <[i := y]> xs = take i xs ++ y :: drop (S i) xs.
Proof.
  intros H. split; [symmetry; by apply take_drop_middle|].
  rewrite insert_take_drop; [done|]. by eapply lookup_lt_Some.
Qed.

(** Replacing one element of a list changes what [f] collects from that element
    only. *)
Lemma bind_insert_focus (f : A -> list B) xs i x :
  xs !! i = Some x ->
  exists R, (xs ≫= f) ≡ₚ f x ++ R /\ forall y, (<[i := y]> xs ≫= f) ≡ₚ f y ++ R.
Proof.
  intros H. exists ((take i xs ≫= f) ++ (drop (S i) xs ≫= f)).
  split; [|intros y].
  - rewrite (proj1 (insert_middle xs i x x H)) at 1.
    rewrite bind_app, bind_cons, !app_assoc. by rewrite (Permutation_app_comm (_ ≫= f) (f x)).
  - rewrite (proj2 (insert_middle xs i x y H)).
    rewrite bind_app, bind_cons, !app_assoc. by rewrite (Permutation_app_comm (_ ≫= f) (f y)).
Qed.
End Lists.

#[export] Hint Resolve wrap_u u_nonneg pow2_pos : hots.
#[export] Hint Rewrite length_le_bytes length_unpack wrap_wrap : hots.
