(* ===== verification/Util.v ===== *)
(** * Integer utilities ([src/mica2/src/mica/util/roundup.h],
    [src/mica2/src/mica/alloc/hrd_alloc.h], [src/libhrd/hrd.h])

    Rounding to a power of two, tests for powers of two, modular increments and
    the linear congruential generator the benchmarks use. *)

From S2P Require Import Prelude.
From Stdlib Require Import ZArith Lia Bool.
From stdpp Require Import base numbers list.
#[local] Open Scope Z_scope.

(** All of these are instantiated at [size_t] or [uint64_t] in the program. *)
Definition is_power_of_two (x : Z) : bool :=
  negb (x =? 0) && (Z.land x (wrap 64 (x - 1)) =? 0).

Definition roundup (PowerOfTwoNumber x : Z) : Z :=
  Z.land (wrap 64 (x + wrap 64 (PowerOfTwoNumber - 1)))
         (wrap 64 (Z.lnot (wrap 64 (PowerOfTwoNumber - 1)))).

(** The shift count reaches 64 only for arguments above [2 ^ 63]. *)
Fixpoint next_power_of_two_recursive (fuel : nat) (x s : Z) : res Z :=
  match fuel with
  | O => Err Diverge
  | S fuel =>
      if wrap 64 (Z.shiftl 1 s) <? x then next_power_of_two_recursive fuel x (s + 1)
      else Ok (wrap 64 (Z.shiftl 1 s))
  end.

Definition next_power_of_two (x : Z) : res Z := next_power_of_two_recursive 65 x 0.

(** [HrdAlloc::roundup]: to a multiple of the 2 MB huge page. *)
Definition alloc_roundup (size : Z) : Z := roundup (2 * 1048576) size.

(** [while(reqd_size % M_2 != 0) reqd_size++;] on a [size_t], as several
    constructors compute the size of a buffer of huge pages. *)
Definition M_2 : Z := 2 * 1048576.
Fixpoint pad_loop (fuel : nat) (size : Z) : res Z :=
  if size mod M_2 =? 0 then Ok size
  else match fuel with O => Err Diverge | S fuel => pad_loop fuel (wrap 64 (size + 1)) end.
Definition pad (size : Z) : res Z := pad_loop (Z.to_nat M_2) size.

(** [HRD_MOD_ADD]: the increment of an index modulo [mod], by comparison. *)
Definition HRD_MOD_ADD (x md : Z) : Z :=
  let x := x + 1 in if x =? md then 0 else x.

(** [hrd_fastrand]: the seed is advanced and its upper half returned. *)
Definition hrd_fastrand (seed : Z) : Z * Z :=
  let seed' := wrap 64 (seed * 1103515245 + 12345) in
  (wrap 32 (Z.shiftr seed' 32), seed').

Definition hrd_is_power_of_2 (n : Z) : bool :=
  negb (n =? 0) && (Z.land n (wrap 64 (n - 1)) =? 0).

(** ** Lemmas *)

Lemma wrap_land w x : 0 <= w -> wrap w x = Z.land x (Z.ones w).
Proof. intros. unfold wrap. by rewrite Z.land_ones. Qed.

Lemma land_wrap w a x : 0 <= w -> u w a -> Z.land a (wrap w x) = Z.land a x.
Proof.
  intros Hw Ha. rewrite wrap_land, (Z.land_comm x), Z.land_assoc by done.
  rewrite Z.land_ones by done. by rewrite (Z.mod_small a) by done.
Qed.

Lemma roundup_div k x :
  0 <= k <= 63 -> 0 <= x -> x + (2 ^ k - 1) < 2 ^ 64 ->
  roundup (2 ^ k) x = (x + (2 ^ k - 1)) / 2 ^ k * 2 ^ k.
Proof.
  intros Hk Hx Hb. pose proof (pow2_pos k ltac:(lia)).
  assert (2 ^ k <= 2 ^ 63) by (apply Z.pow_le_mono_r; lia).
  unfold roundup. rewrite (wrap_id 64 (2 ^ k - 1)) by (unfold u; lia).
  rewrite (wrap_id 64 (x + _)) by (unfold u; lia).
  rewrite land_wrap by (unfold u; lia).
  replace (2 ^ k - 1) with (Z.ones k) by (rewrite Z.ones_equiv; lia).
  rewrite <- Z.ldiff_land, Z.ldiff_ones_r by lia.
  by rewrite Z.shiftr_div_pow2, Z.shiftl_mul_pow2 by lia.
Qed.

(** A number has no bit in common with its predecessor exactly when it is a
    power of two. *)
Lemma land_pred_pow2 x : 0 < x -> Z.land x (x - 1) = 0 <-> x = 2 ^ Z.log2 x.
Proof.
  intros Hx. pose proof (Z.log2_spec x Hx) as [Hlo Hhi]. pose proof (Z.log2_nonneg x).
  split.
  - intros Hz. destruct (Z.eq_dec x (2 ^ Z.log2 x)) as [|Hne]; [done|exfalso].
    assert (Z.testbit (Z.land x (x - 1)) (Z.log2 x) = true) as Ht.
    { rewrite Z.land_spec, Z.bit_log2 by done. simpl.
      replace (Z.log2 x) with (Z.log2 (x - 1)) by (apply Z.log2_unique; lia).
      apply Z.bit_log2. lia. }
    rewrite Hz, Z.bits_0 in Ht. done.
  - intros Hp. rewrite Hp. set (k := Z.log2 x) in *.
    replace (2 ^ k - 1) with (Z.ones k) by (rewrite Z.ones_equiv; lia).
    rewrite Z.land_ones, Z.mod_same by lia. done.
Qed.

(** ** Theorems *)

Lemma pad_loop_target fuel size q :
  0 <= size <= q * M_2 -> q * M_2 < size + M_2 -> q * M_2 < 2 ^ 64 ->
  q * M_2 - size <= Z.of_nat fuel -> pad_loop fuel size = Ok (q * M_2).
Proof.
  assert (0 < M_2) as HM by done. revert size. induction fuel as [|fuel IH]; intros size H0 H1 H2 H3.
  - assert (size = q * M_2) as -> by lia. simpl. by rewrite Z.mod_mul by lia.
  - cbn [pad_loop]. destruct (Z.eqb_spec (size mod M_2) 0) as [E|E].
    + apply Z.mod_divide in E as [r ->]; [|lia]. do 2 f_equal. nia.
    + assert (size <> q * M_2) by (intros ->; by rewrite Z.mod_mul in E by lia).
      rewrite wrap_id by (unfold u; lia). apply IH; lia.
Qed.

(** The increment loop computes the same size as the bit trick. *)
Lemma pad_ok size : 0 <= size -> size + M_2 < 2 ^ 64 -> pad size = Ok (alloc_roundup size).
Proof.
  intros H0 H1. unfold pad, alloc_roundup. change (2 * 1048576) with (2 ^ 21).
  rewrite roundup_div by (unfold M_2 in *; lia). change (2 ^ 21) with M_2.
  assert (0 < M_2) as HM by done. pose proof (Z.div_mod (size + (M_2 - 1)) M_2 ltac:(lia)).
  pose proof (Z.mod_pos_bound (size + (M_2 - 1)) M_2 HM).
  apply pad_loop_target; [lia..|]. rewrite Z2Nat.id by lia. lia.
Qed.
#[global] Opaque pad.

(** [roundup] returns the least multiple of the given power of two that is
    not below its argument, whenever the sum does not overflow. *)
Lemma roundup_least k x :
  0 <= k <= 63 -> 0 <= x -> x + (2 ^ k - 1) < 2 ^ 64 ->
  (2 ^ k | roundup (2 ^ k) x) /\ x <= roundup (2 ^ k) x /\
  forall y, (2 ^ k | y) -> x <= y -> roundup (2 ^ k) x <= y.
Proof.
  intros Hk Hx Hb. rewrite roundup_div by done. pose proof (pow2_pos k ltac:(lia)).
  pose proof (Z.div_mod (x + (2 ^ k - 1)) (2 ^ k) ltac:(lia)).
  pose proof (Z.mod_pos_bound (x + (2 ^ k - 1)) (2 ^ k) ltac:(lia)).
  split_and!; [apply Z.divide_factor_r|lia|].
  intros y [q ->] Hy.
  assert ((x + (2 ^ k - 1)) / 2 ^ k < q + 1) by (apply Z.div_lt_upper_bound; lia). nia.
Qed.

(** The loop that pads the size of the log region byte by byte computes what the
    allocator's bit trick computes, and both are the least multiple of 2 MB that is
    not below the size. *)
Theorem pad_is_roundup size :
  0 <= size -> size + M_2 < 2 ^ 64 ->
  pad size = Ok (alloc_roundup size) /\ (M_2 | alloc_roundup size) /\ size <= alloc_roundup size /\
  forall y, (M_2 | y) -> size <= y -> alloc_roundup size <= y.
Proof.
  intros H0 H1. split; [by apply pad_ok|]. unfold alloc_roundup. change (2 * 1048576) with (2 ^ 21). change M_2 with (2 ^ 21) in *.
  apply roundup_least; lia.
Qed.

Lemma pad_is_roundup_witness : pad 5000000 = Ok (alloc_roundup 5000000) /\ alloc_roundup 5000000 <= 6291456.
Proof.
  destruct (pad_is_roundup 5000000) as (H1 & _ & _ & H2); [lia|reflexivity|].
  split; [exact H1|]. apply H2; [exists 3; reflexivity|lia].
Defined.

(** [is_power_of_two] accepts exactly the powers of two. *)
Lemma is_power_of_two_correct x :
  u 64 x -> is_power_of_two x = true <-> exists k, 0 <= k /\ x = 2 ^ k.
Proof.
  intros Hx. unfold is_power_of_two.
  rewrite andb_true_iff, negb_true_iff, Z.eqb_neq, Z.eqb_eq, land_wrap by (done || lia).
  destruct Hx as [H0 H1]. split.
  - intros [Hne Hz]. exists (Z.log2 x). split; [apply Z.log2_nonneg|].
    apply land_pred_pow2; [lia|done].
  - intros (k & Hk & ->). pose proof (pow2_pos k Hk). split; [lia|].
    apply land_pred_pow2; [lia|]. by rewrite Z.log2_pow2.
Qed.

