(* ===== verification/City.v ===== *)
(** * CityHash64 ([src/mica2/src/mica/util/cityhash/city_mod.cc])

    The hash that maps a key to its bucket and to its machine.  Memory is a list
    of bytes; a load outside the string is a fault, so that a result means that
    every access was in bounds.  The machine is little endian. *)

From S2P Require Import Prelude.
From Stdlib Require Import ZArith Lia Bool.
From stdpp Require Import base numbers list.
#[local] Open Scope Z_scope.

Module City.

(** ** 64-bit arithmetic *)

Definition add64 (a b : Z) : Z := wrap 64 (a + b).
Definition sub64 (a b : Z) : Z := wrap 64 (a - b).
Definition mul64 (a b : Z) : Z := wrap 64 (a * b).
Definition shl64 (a n : Z) : Z := wrap 64 (Z.shiftl a n).

Declare Scope city_scope.
Infix "+!" := add64 (at level 50, left associativity) : city_scope.
Infix "-!" := sub64 (at level 50, left associativity) : city_scope.
Infix "*!" := mul64 (at level 40, left associativity) : city_scope.
Infix "^!" := Z.lxor (at level 51, left associativity) : city_scope.
#[local] Open Scope city_scope.

(** Loads of [n] bytes at offset [off]. *)
Definition load (n : nat) (s : list byte) (off : Z) : res Z :=
  if off <? 0 then Err OutOfBounds
  else bs ← read_at (Z.to_nat off) n s; Ok (le_val bs).

Definition Fetch64 (s : list byte) (off : Z) : res Z := load 8 s off.
Definition Fetch32 (s : list byte) (off : Z) : res Z := load 4 s off.
Definition Fetch8 (s : list byte) (off : Z) : res Z := load 1 s off.

Definition bswap_64 (x : Z) : Z := le_val (rev (le_bytes 8 x)).

Definition k0 : Z := 0xc3a5c85c97cb3127.
Definition k1 : Z := 0xb492b66fbe98f273.
Definition k2 : Z := 0x9ae16a3b2f90404f.

Definition Rotate (val shift : Z) : Z :=
  if shift =? 0 then val else Z.lor (Z.shiftr val shift) (shl64 val (64 - shift)).

Definition ShiftMix (val : Z) : Z := val ^! Z.shiftr val 47.

Definition HashLen16_mul (u v mul : Z) : Z :=
  let a := (u ^! v) *! mul in
  let a := a ^! Z.shiftr a 47 in
  let b := (v ^! a) *! mul in
  let b := b ^! Z.shiftr b 47 in
  b *! mul.

(** [Hash128to64] of the pair, the two-argument [HashLen16]. *)
Definition kMul : Z := 0x9ddfea08eb382d69.
Definition HashLen16 (u v : Z) : Z :=
  let a := (u ^! v) *! kMul in
  let a := a ^! Z.shiftr a 47 in
  let b := (v ^! a) *! kMul in
  let b := b ^! Z.shiftr b 47 in
  b *! kMul.

(** ** Strings of up to 64 bytes *)

Definition HashLen0to16 (s : list byte) (len : Z) : res Z :=
  if len >=? 8 then
    let mul := k2 +! len *! 2 in
    a ← Fetch64 s 0;
    let a := a +! k2 in
    b ← Fetch64 s (len - 8);
    let c := Rotate b 37 *! mul +! a in
    let d := (Rotate a 25 +! b) *! mul in
    Ok (HashLen16_mul c d mul)
  else if len >=? 4 then
    let mul := k2 +! len *! 2 in
    a ← Fetch32 s 0;
    b ← Fetch32 s (len - 4);
    Ok (HashLen16_mul (len +! shl64 a 3) b mul)
  else if 0 <? len then
    a ← Fetch8 s 0;
    b ← Fetch8 s (Z.shiftr len 1);
    c ← Fetch8 s (len - 1);
    let y := wrap 32 (a + wrap 32 (Z.shiftl b 8)) in
    let z := wrap 32 (len + wrap 32 (Z.shiftl c 2)) in
    Ok (ShiftMix ((y *! k2) ^! (z *! k0)) *! k2)
  else Ok k2.

Definition HashLen17to32 (s : list byte) (len : Z) : res Z :=
  let mul := k2 +! len *! 2 in
  a ← Fetch64 s 0;
  let a := a *! k1 in
  b ← Fetch64 s 8;
  c ← Fetch64 s (len - 8);
  let c := c *! mul in
  d ← Fetch64 s (len - 16);
  let d := d *! k2 in
  Ok (HashLen16_mul (Rotate (a +! b) 43 +! Rotate c 30 +! d)
                    (a +! Rotate (b +! k2) 18 +! c) mul).

Definition WeakHashLen32WithSeeds (w x y z a b : Z) : Z * Z :=
  let a := a +! w in
  let b := Rotate (b +! a +! z) 21 in
  let c := a in
  let a := a +! x in
  let a := a +! y in
  let b := b +! Rotate a 44 in
  (a +! z, b +! c).

Definition WeakHashLen32WithSeeds_at (s : list byte) (off a b : Z) : res (Z * Z) :=
  w ← Fetch64 s off;
  x ← Fetch64 s (off + 8);
  y ← Fetch64 s (off + 16);
  z ← Fetch64 s (off + 24);
  Ok (WeakHashLen32WithSeeds w x y z a b).

Definition HashLen33to64 (s : list byte) (len : Z) : res Z :=
  let mul := k2 +! len *! 2 in
  a ← Fetch64 s 0;
  let a := a *! k2 in
  b ← Fetch64 s 8;
  c ← Fetch64 s (len - 24);
  d ← Fetch64 s (len - 32);
  e ← Fetch64 s 16;
  let e := e *! k2 in
  f ← Fetch64 s 24;
  let f := f *! 9 in
  g ← Fetch64 s (len - 8);
  h ← Fetch64 s (len - 16);
  let h := h *! mul in
  let u := Rotate (a +! g) 43 +! (Rotate b 30 +! c) *! 9 in
  let v := ((a +! g) ^! d) +! f +! 1 in
  let w := bswap_64 ((u +! v) *! mul) +! h in
  let x := Rotate (e +! f) 42 +! c in
  let y := (bswap_64 ((v +! w) *! mul) +! g) *! mul in
  let z := e +! f +! c in
  let a := bswap_64 ((x +! z) *! mul +! y) +! b in
  let b := ShiftMix ((z +! a) *! mul +! d +! h) *! mul in
  Ok (b +! x).

(** ** Longer strings *)

(** The 56 bytes of state of the loop over 64-byte chunks. *)
Record state := mkSt { st_x : Z; st_y : Z; st_z : Z; st_v : Z * Z; st_w : Z * Z }.

(** One round at offset [off]. *)
Definition round (s : list byte) (off : Z) (st : state) : res state :=
  let '(mkSt x y z v w) := st in
  f8 ← Fetch64 s (off + 8);
  let x := Rotate (x +! y +! v.1 +! f8) 37 *! k1 in
  f48 ← Fetch64 s (off + 48);
  let y := Rotate (y +! v.2 +! f48) 42 *! k1 in
  let x := x ^! w.2 in
  f40 ← Fetch64 s (off + 40);
  let y := y +! (v.1 +! f40) in
  let z := Rotate (z +! w.1) 33 *! k1 in
  v ← WeakHashLen32WithSeeds_at s off (v.2 *! k1) (x +! w.1);
  f16 ← Fetch64 s (off + 16);
  w ← WeakHashLen32WithSeeds_at s (off + 32) (z +! w.2) (y +! f16);
  Ok (mkSt z y x v w).

(** The [do ... while]: [n] more rounds. *)
Fixpoint rounds (n : nat) (s : list byte) (off : Z) (st : state) : res state :=
  match n with
  | O => Ok st
  | S n => st ← round s off st; rounds n s (off + 64) st
  end.

Definition CityHash64 (s : list byte) (len : Z) : res Z :=
  if len <=? 32 then
    if len <=? 16 then HashLen0to16 s len else HashLen17to32 s len
  else if len <=? 64 then HashLen33to64 s len
  else
    x ← Fetch64 s (len - 40);
    y0 ← Fetch64 s (len - 16);
    y1 ← Fetch64 s (len - 56);
    let y := y0 +! y1 in
    z0 ← Fetch64 s (len - 48);
    z1 ← Fetch64 s (len - 24);
    let z := HashLen16 (z0 +! len) z1 in
    v ← WeakHashLen32WithSeeds_at s (len - 64) len z;
    w ← WeakHashLen32WithSeeds_at s (len - 32) (y +! k1) x;
    f0 ← Fetch64 s 0;
    let x := x *! k1 +! f0 in
    let n := Z.land (len - 1) (Z.lnot 63) / 64 in
    st ← rounds (Z.to_nat n) s 0 (mkSt x y z v w);
    let '(mkSt x y z v w) := st in
    Ok (HashLen16 (HashLen16 v.1 w.1 +! ShiftMix y *! k1 +! z) (HashLen16 v.2 w.2 +! x)).

Definition CityHash64WithSeeds (s : list byte) (len seed0 seed1 : Z) : res Z :=
  h ← CityHash64 s len; Ok (HashLen16 (h -! seed0) seed1).

Definition CityHash64WithSeed (s : list byte) (len seed : Z) : res Z :=
  CityHash64WithSeeds s len k2 seed.

(** [::mica::util::hash]. *)
Definition hash (key : list byte) (len : Z) : res Z := CityHash64 key len.

(** ** Lemmas *)

Lemma load_ok n s off :
  0 <= off -> off + Z.of_nat n <= Z.of_nat (length s) ->
  exists x, load n s off = Ok x /\ u (8 * Z.of_nat n) x.
Proof.
  intros H0 H1. unfold load, read_at. rewrite (proj2 (Z.ltb_ge off 0)) by lia.
  rewrite (proj2 (Nat.leb_le _ _)) by lia. simpl. eexists. split; [done|].
  unfold le_val. pose proof (pack_u (map (fun b => (8, b)) (take n (drop (Z.to_nat off) s)))) as Hp.
  replace (8 * Z.of_nat n) with (sumZ (map fst (map (fun b : byte => (8, b)) (take n (drop (Z.to_nat off) s))))).
  - apply Hp. apply Forall_map, Forall_forall. intros b _. simpl. lia.
  - rewrite map_map. simpl. transitivity (8 * Z.of_nat (length (take n (drop (Z.to_nat off) s)))).
    + generalize (take n (drop (Z.to_nat off) s)). induction l as [|b l IH]; [done|].
      simpl map. unfold sumZ in *. simpl foldr. rewrite IH. simpl length. lia.
    + rewrite length_take, length_drop. lia.
Qed.

Lemma add64_u a b : u 64 (a +! b).
Proof. by apply wrap_u. Qed.
Lemma mul64_u a b : u 64 (a *! b).
Proof. by apply wrap_u. Qed.
Lemma HashLen16_mul_u a b m : u 64 (HashLen16_mul a b m).
Proof. apply mul64_u. Qed.
Lemma HashLen16_u a b : u 64 (HashLen16 a b).
Proof. apply mul64_u. Qed.

(** Consumes one load of the goal whose bounds follow by arithmetic. *)
Ltac fetch :=
  match goal with
  | |- context [Fetch64 ?s ?off] =>
      let x := fresh "x" in let E := fresh "E" in
      destruct (load_ok 8 s off) as (x & E & _); [lia|simpl Z.of_nat; lia|];
      unfold Fetch64 at 1; rewrite E; clear E; cbn [mbind res_bind]
  | |- context [Fetch32 ?s ?off] =>
      let x := fresh "x" in let E := fresh "E" in
      destruct (load_ok 4 s off) as (x & E & _); [lia|simpl Z.of_nat; lia|];
      unfold Fetch32 at 1; rewrite E; clear E; cbn [mbind res_bind]
  | |- context [Fetch8 ?s ?off] =>
      let x := fresh "x" in let E := fresh "E" in
      destruct (load_ok 1 s off) as (x & E & _); [lia|simpl Z.of_nat; lia|];
      unfold Fetch8 at 1; rewrite E; clear E; cbn [mbind res_bind]
  end.

Section Bounds.
Context (s : list byte) (len : Z).
Hypothesis (Hlen : len = Z.of_nat (length s)).

Lemma weak_ok off a b :
  0 <= off -> off + 32 <= len -> exists p, WeakHashLen32WithSeeds_at s off a b = Ok p.
Proof. intros. unfold WeakHashLen32WithSeeds_at. repeat fetch. eauto. Qed.

(** Consumes one block of four loads. *)
Ltac weak :=
  match goal with |- context [WeakHashLen32WithSeeds_at ?s ?o ?a ?b] =>
    let p := fresh "p" in
    destruct (weak_ok o a b) as [p ->]; [lia|lia|]; cbn [mbind res_bind]
  end.

Lemma short_ok : len <= 16 -> exists h, HashLen0to16 s len = Ok h /\ u 64 h.
Proof.
  intros Hle. unfold HashLen0to16. rewrite !Z.geb_leb.
  destruct (Z.leb_spec 8 len); [|destruct (Z.leb_spec 4 len); [|destruct (Z.ltb_spec 0 len)]].
  - repeat fetch. eexists. split; [done|]. apply HashLen16_mul_u.
  - repeat fetch. eexists. split; [done|]. apply HashLen16_mul_u.
  - assert (Z.shiftr len 1 = len / 2) as Hs by (rewrite Z.shiftr_div_pow2; done || lia).
    assert (0 <= len / 2 < len) by (split; [apply Z.div_pos|apply Z.div_lt]; lia). rewrite Hs.
    repeat fetch. eexists. split; [done|]. apply mul64_u.
  - eexists. split; [done|]. split; [by vm_compute|done].
Qed.

Lemma medium_ok : 16 < len <= 32 -> exists h, HashLen17to32 s len = Ok h /\ u 64 h.
Proof. intros. unfold HashLen17to32. repeat fetch. eexists. split; [done|]. apply HashLen16_mul_u. Qed.

Lemma long_ok : 32 < len <= 64 -> exists h, HashLen33to64 s len = Ok h /\ u 64 h.
Proof. intros. unfold HashLen33to64. repeat fetch. eexists. split; [done|]. apply add64_u. Qed.

Lemma round_ok off st : 0 <= off -> off + 64 <= len -> exists st', round s off st = Ok st'.
Proof.
  intros. unfold round. destruct st as [x y z v w]. repeat (fetch || weak). eauto.
Qed.

Lemma rounds_ok n off st :
  0 <= off -> off + 64 * Z.of_nat n <= len -> exists st', rounds n s off st = Ok st'.
Proof.
  revert off st. induction n as [|n IH]; intros off st H0 H1; [simpl; eauto|].
  destruct (round_ok off st) as [st' E]; [lia|lia|]. simpl. rewrite E. simpl. apply IH; lia.
Qed.
End Bounds.

Lemma CityHash64_ok s :
  exists h, CityHash64 s (Z.of_nat (length s)) = Ok h /\ u 64 h.
Proof.
  set (len := Z.of_nat (length s)). unfold CityHash64.
  destruct (Z.leb_spec len 32); [destruct (Z.leb_spec len 16)|destruct (Z.leb_spec len 64)].
  - by apply short_ok.
  - by apply medium_ok.
  - by apply long_ok.
  - repeat fetch.
    match goal with |- context [WeakHashLen32WithSeeds_at s ?o ?a ?b] =>
      destruct (weak_ok s len eq_refl o a b) as [p ->]; [lia|lia|] end. cbn [mbind res_bind].
    match goal with |- context [WeakHashLen32WithSeeds_at s ?o ?a ?b] =>
      destruct (weak_ok s len eq_refl o a b) as [q ->]; [lia|lia|] end. cbn [mbind res_bind].
    repeat fetch.
    assert (Z.land (len - 1) (Z.lnot 63) = (len - 1) / 64 * 64) as ->.
    { change 63 with (Z.ones 6). rewrite <- Z.ldiff_land, Z.ldiff_ones_r by lia.
      by rewrite Z.shiftr_div_pow2, Z.shiftl_mul_pow2 by lia. }
    rewrite Z.div_mul by lia.
    pose proof (Z.mul_div_le (len - 1) 64 ltac:(lia)).
    pose proof (Z.div_pos (len - 1) 64 ltac:(lia) ltac:(lia)).
    match goal with |- context [rounds ?n s 0 ?st] =>
      destruct (rounds_ok s len eq_refl n 0 st) as [[x' y' z' v' w'] ->]; [lia|lia|] end.
    cbn [mbind res_bind]. eexists. split; [done|]. apply HashLen16_u.
Qed.

(** [CityHash64] of a string terminates, reads only bytes of the string and
    returns a 64-bit value, for every length. *)
Theorem CityHash64_in_bounds s :
  exists h, CityHash64 s (Z.of_nat (length s)) = Ok h /\ u 64 h.
Proof. apply CityHash64_ok. Qed.

End City.
