(* ===== verification/Float32.v ===== *)
(** * Single-precision floating point

    The type [float] of the language: IEEE 754 numbers of 32 bits, kept as their bit
    patterns, with the operations that the applications use on them.  The arithmetic is
    that of [SpecFloat] with a precision of 24 bits and exponents up to 128; all NaNs
    that an operation produces have one pattern, since the language does not say which
    of them it is. *)

From S2P Require Import Prelude.
From Stdlib Require Import ZArith Lia Bool SpecFloat.
From stdpp Require Import base tactics.
#[local] Open Scope Z_scope.

Module Float32.

Definition prec : Z := 24.
Definition emax : Z := 128.

(** Sign, exponent and fraction of a pattern. *)
Definition of_bits (b : Z) : spec_float :=
  let s := Z.testbit b 31 in
  let e := Z.land (Z.shiftr b 23) 255 in
  let m := Z.land b 8388607 in
  if e =? 255 then if m =? 0 then S754_infinity s else S754_nan
  else if e =? 0 then match m with Zpos p => S754_finite s p (-149) | _ => S754_zero s end
  else match m + 8388608 with Zpos p => S754_finite s p (e - 150) | _ => S754_zero s end.

Definition pack (s : bool) (e m : Z) : Z :=
  Z.lor (if s then Z.shiftl 1 31 else 0) (Z.lor (Z.shiftl (Z.land e 255) 23) (Z.land m 8388607)).

Definition nan_bits : Z := 2143289344.

Definition to_bits (f : spec_float) : Z :=
  match f with
  | S754_zero s => pack s 0 0
  | S754_infinity s => pack s 255 0
  | S754_nan => nan_bits
  | S754_finite s m e => if Zpos m <? 8388608 then pack s 0 (Zpos m) else pack s (e + 150) (Zpos m)
  end.

Definition add (a b : Z) : Z := to_bits (SFadd prec emax (of_bits a) (of_bits b)).
Definition sub (a b : Z) : Z := to_bits (SFsub prec emax (of_bits a) (of_bits b)).
Definition ltb (a b : Z) : bool := SFltb (of_bits a) (of_bits b).

(** Conversion of an integer. *)
Definition of_int (n : Z) : Z := to_bits (binary_normalize prec emax n 0 false).

(** A decimal constant [n / d] of type [double], converted. *)
Definition of_double (f : spec_float) : Z :=
  match f with
  | S754_finite s m e => to_bits (binary_normalize prec emax (if s then Zneg m else Zpos m) e s)
  | _ => to_bits f
  end.
Definition of_literal (n d : Z) : Z :=
  of_double (SFdiv 53 1024 (binary_normalize 53 1024 n 0 false) (binary_normalize 53 1024 d 0 false)).

(** ** Lemmas *)

Definition is_nan (b : Z) : Prop := of_bits b = S754_nan.

(** A pattern is its sign, its exponent and its fraction. *)
Lemma bits_split b : u 32 b -> b = pack (Z.testbit b 31) (Z.shiftr b 23) b.
Proof.
  intros [H0 H1]. unfold pack. apply Z.bits_inj'. intros i Hi.
  change 255 with (Z.ones 8). change 8388607 with (Z.ones 23). rewrite !Z.land_ones by lia.
  rewrite !Z.lor_spec. rewrite (Z.shiftl_spec _ 23 i) by lia.
  destruct (Z.ltb_spec i 23).
  - rewrite (Z.testbit_neg_r _ (i - 23)) by lia. rewrite (Z.mod_pow2_bits_low b 23 i) by lia.
    assert (Z.testbit (if Z.testbit b 31 then Z.shiftl 1 31 else 0) i = false) as ->; [|done].
    destruct (Z.testbit b 31); [|by rewrite Z.bits_0]. rewrite Z.shiftl_spec, Z.testbit_neg_r by lia. done.
  - rewrite (Z.mod_pow2_bits_high b 23 i) by lia. rewrite orb_false_r. destruct (Z.ltb_spec i 31).
    + rewrite Z.mod_pow2_bits_low, Z.shiftr_spec by lia. replace (i - 23 + 23) with i by lia.
      assert (Z.testbit (if Z.testbit b 31 then Z.shiftl 1 31 else 0) i = false) as ->; [|done].
      destruct (Z.testbit b 31); [|by rewrite Z.bits_0]. rewrite Z.shiftl_spec, Z.testbit_neg_r by lia. done.
    + rewrite Z.mod_pow2_bits_high by lia. rewrite orb_false_r. destruct (Z.eqb_spec i 31) as [->|].
      * destruct (Z.testbit b 31) eqn:E; [reflexivity|by rewrite Z.bits_0].
      * rewrite (Z.bits_above_log2 b i); [|lia|].
        -- destruct (Z.testbit b 31); [|by rewrite Z.bits_0]. rewrite Z.shiftl_spec by lia.
           symmetry. apply Z.bits_above_log2; [done|]. change (Z.log2 1) with 0. lia.
        -- destruct (Z.eq_dec b 0) as [->|]; [simpl; lia|]. apply Z.log2_lt_pow2; [lia|].
           apply Z.lt_le_trans with (2 ^ 32); [lia|]. apply Z.pow_le_mono_r; lia.
Qed.

(** Patterns are in range. *)
Lemma pack_range s e m : u 32 (pack s e m).
Proof.
  unfold pack, u. change 255 with (Z.ones 8). change 8388607 with (Z.ones 23). rewrite !Z.land_ones by lia.
  pose proof (Z.mod_pos_bound e (2 ^ 8) ltac:(lia)). pose proof (Z.mod_pos_bound m (2 ^ 23) ltac:(lia)).
  set (a := e mod 2 ^ 8) in *. set (c := m mod 2 ^ 23) in *.
  assert (0 <= (if s then Z.shiftl 1 31 else 0) < 2 ^ 32) by (destruct s; vm_compute; split; congruence).
  assert (0 <= Z.shiftl a 23 < 2 ^ 32) by (rewrite Z.shiftl_mul_pow2 by lia; lia).
  assert (forall x y, 0 <= x < 2 ^ 32 -> 0 <= y < 2 ^ 32 -> 0 <= Z.lor x y < 2 ^ 32) as Hlor.
  { intros x y Hx Hy. pose proof (proj2 (Z.lor_nonneg x y) ltac:(lia)). split; [done|].
    destruct (Z.eq_dec (Z.lor x y) 0) as [->|Hne]; [lia|]. apply Z.log2_lt_pow2; [lia|]. rewrite Z.log2_lor by lia.
    assert (forall z, 0 <= z < 2 ^ 32 -> Z.log2 z < 32) as Hlog; [|apply Z.max_lub_lt; by apply Hlog].
    intros z Hz. destruct (Z.eq_dec z 0) as [->|]; [done|]. apply Z.log2_lt_pow2; lia. }
  apply Hlor; [done|]. apply Hlor; [done|lia].
Qed.

Lemma to_bits_range f : u 32 (to_bits f).
Proof.
  destruct f as [s|s| |s m e]; cbn [to_bits]; [apply pack_range|apply pack_range|unfold nan_bits, u; lia|case_match; apply pack_range].
Qed.

Lemma add_range a b : u 32 (add a b).
Proof. apply to_bits_range. Qed.
Lemma sub_range a b : u 32 (sub a b).
Proof. apply to_bits_range. Qed.
Lemma of_int_range n : u 32 (of_int n).
Proof. apply to_bits_range. Qed.

Lemma pack_fields s e m : pack s (Z.land e 255) (Z.land m 8388607) = pack s e m.
Proof. unfold pack. by rewrite <- !Z.land_assoc. Qed.

(** The leading bit of the significand is not stored. *)
Lemma pack_high s e m : 0 <= m < 8388608 -> pack s e (m + 8388608) = pack s e m.
Proof.
  intros Hm. unfold pack. do 2 f_equal. change 8388607 with (Z.ones 23). rewrite !Z.land_ones by lia.
  change 8388608 with (1 * 2 ^ 23). by rewrite Z.mod_add by lia.
Qed.

(** Every pattern that is not a NaN is the pattern of the number it stands for. *)
Lemma to_of_bits b : u 32 b -> ~ is_nan b -> to_bits (of_bits b) = b.
Proof.
  intros Hb Hn. rewrite (bits_split b Hb) at 2. rewrite <- (pack_fields _ (Z.shiftr b 23) b). unfold is_nan, of_bits in *.
  assert (0 <= Z.land b 8388607 < 8388608) as Hm.
  { change 8388607 with (Z.ones 23). rewrite Z.land_ones by lia. apply Z.mod_pos_bound. lia. }
  set (e := Z.land (Z.shiftr b 23) 255) in *. set (m := Z.land b 8388607) in *. clearbody e m.
  destruct (Z.eqb_spec e 255) as [->|He].
  { destruct (Z.eqb_spec m 0) as [Em|]; [by rewrite Em|by destruct Hn]. }
  destruct (Z.eqb_spec e 0) as [->|He0].
  - destruct m as [|p|p]; [done| |lia]. cbn [to_bits]. by rewrite (proj2 (Z.ltb_lt _ _)) by lia.
  - rewrite <- (pack_high _ e m Hm). destruct (m + 8388608) as [|p|p] eqn:Ep; [lia| |lia]. cbn [to_bits].
    rewrite (proj2 (Z.ltb_ge _ _)) by lia. f_equal. lia.
Qed.

End Float32.
