(* ===== verification/Random.v ===== *)
(** * Random numbers

    Loops that draw random numbers until one fits, and what the generator
    [hrd_fastrand] of [src/libhrd/hrd.h] promises to them: it has full period, so that
    [2^64] draws are enough to see every number. *)

From S2P Require Import Prelude Util.
From Stdlib Require Import ZArith Lia Bool.
From stdpp Require Import base numbers list.
#[local] Open Scope Z_scope.

Module Random.

(** ** Loops *)

(** At most [p] steps of [f], which goes on with [inl] and ends with [inr]. *)
Fixpoint loop {A B} (p : positive) (f : A -> A + B) (x : A + B) : A + B :=
  match x with
  | inr _ => x
  | inl a =>
      match p with
      | xH => f a
      | xO p => loop p f (loop p f x)
      | xI p => loop p f (loop p f (f a))
      end
  end.

(** ** The generator *)

Definition next (seed : Z) : Z := (hrd_fastrand seed).2.

(** ** Lemmas *)

Section Loop.
Context {A B : Type} (f : A -> A + B).

Definition step (x : A + B) : A + B := match x with inl a => f a | inr b => inr b end.

Lemma loop_end p b : loop p f (inr b) = inr b.
Proof. by destruct p. Qed.

Lemma iter_end n b : Nat.iter n step (inr b) = inr b.
Proof. induction n as [|n IH]; [done|]. simpl. by rewrite IH. Qed.

Lemma loop_iter p : forall x, loop p f x = Nat.iter (Pos.to_nat p) step x.
Proof.
  induction p as [p IH|p IH|]; intros [a|b]; rewrite ?loop_end, ?iter_end; try done.
  - rewrite Pos2Nat.inj_xI, <- Nat.add_1_r, Nat.iter_add. simpl (Nat.iter 1 _ _).
    replace (2 * Pos.to_nat p)%nat with (Pos.to_nat p + Pos.to_nat p)%nat by lia. rewrite Nat.iter_add, <- !IH. done.
  - rewrite Pos2Nat.inj_xO. replace (2 * Pos.to_nat p)%nat with (Pos.to_nat p + Pos.to_nat p)%nat by lia.
    rewrite Nat.iter_add, <- !IH. done.
Qed.

(** If some step within reach ends, the loop does. *)
Lemma iter_stays n m x b : (n <= m)%nat -> Nat.iter n step x = inr b -> Nat.iter m step x = inr b.
Proof. intros H E. replace m with (m - n + n)%nat by lia. by rewrite Nat.iter_add, E, iter_end. Qed.

Lemma loop_total p x n b : (n <= Pos.to_nat p)%nat -> Nat.iter n step x = inr b -> loop p f x = inr b.
Proof. intros H E. rewrite loop_iter. by eapply iter_stays. Qed.

(** An invariant of the states of a loop holds of its result. *)
Lemma loop_inv p (I : A -> Prop) (P : B -> Prop) x :
  (forall a, I a -> match f a with inl a' => I a' | inr b => P b end) ->
  match x with inl a => I a | inr b => P b end ->
  match loop p f x with inl a => I a | inr b => P b end.
Proof.
  intros Hf. rewrite loop_iter. generalize (Pos.to_nat p). intros n H. induction n as [|n IH]; [done|]. simpl.
  destruct (Nat.iter n step x) as [a|b]; simpl; [by apply Hf|done].
Qed.
End Loop.

(** ** The generator has full period *)

Lemma iter_next_comm n seed : Nat.iter n next (next seed) = next (Nat.iter n next seed).
Proof. induction n as [|n IH]; [done|]. simpl. by rewrite IH. Qed.

#[local] Opaque Nat.pow Nat.iter.

(** [2^k] steps, as a function of the seed: they add an odd multiple of [2^k], up to a
    multiple of [2^(k+2)] times the seed. *)
Lemma steps_affine k : exists q r, forall seed,
  Nat.iter (2 ^ k) next seed mod 2 ^ 64 = ((1 + 2 ^ (Z.of_nat k + 2) * q) * seed + 2 ^ Z.of_nat k * (1 + 2 * r)) mod 2 ^ 64.
Proof.
  induction k as [|k (q & r & IH)].
  { exists 275878811, 6172. intros seed. change (2 ^ 0)%nat with 1%nat. change (Nat.iter 1 next seed) with (next seed).
    unfold next, hrd_fastrand, wrap. cbn [snd]. rewrite Z.mod_mod by lia. f_equal. change (2 ^ (Z.of_nat 0 + 2)) with 4. change (2 ^ Z.of_nat 0) with 1. lia. }
  rewrite Nat2Z.inj_succ. set (p := 2 ^ Z.of_nat k) in *.
  assert (2 ^ (Z.of_nat k + 2) = 4 * p /\ 2 ^ (Z.succ (Z.of_nat k) + 2) = 8 * p /\ 2 ^ Z.succ (Z.of_nat k) = 2 * p) as (E1 & E2 & E3).
  { unfold p. rewrite !Z.pow_add_r, Z.pow_succ_r by lia. split_and!; lia. }
  rewrite E1 in IH. rewrite E2, E3. exists (q + 2 * p * q * q), (r + (1 + 2 * r) * p * q). intros seed.
  replace (2 ^ S k)%nat with (2 ^ k + 2 ^ k)%nat by (rewrite Nat.pow_succ_r'; lia). rewrite Nat.iter_add, IH.
  rewrite <- (Z.add_mod_idemp_l ((1 + 4 * p * q) * _)) by lia. rewrite <- Z.mul_mod_idemp_r, IH, Z.mul_mod_idemp_r, Z.add_mod_idemp_l by lia.
  f_equal. lia.
Qed.

(** The generator goes through all seeds: every one follows on every other. *)
Lemma steps_shift k seed : (k < 64)%nat -> Nat.iter (2 ^ k) next seed mod 2 ^ (Z.of_nat k + 1) = (seed + 2 ^ Z.of_nat k) mod 2 ^ (Z.of_nat k + 1).
Proof.
  intros Hk. destruct (steps_affine k) as (q & r & H). set (p := 2 ^ Z.of_nat k) in *.
  assert (0 < p) as Hp by (unfold p; lia). assert (2 ^ (Z.of_nat k + 1) = 2 * p /\ 2 ^ (Z.of_nat k + 2) = 4 * p) as [E1 E2].
  { unfold p. rewrite !Z.pow_add_r by lia. lia. }
  assert ((2 * p | 2 ^ 64)) as Hd.
  { rewrite <- E1. exists (2 ^ (64 - (Z.of_nat k + 1))). rewrite <- Z.pow_add_r by lia. f_equal. lia. }
  rewrite E1, <- (Z.mod_mod_divide _ (2 ^ 64) (2 * p) Hd), H, Z.mod_mod_divide, E2 by done.
  replace ((1 + 4 * p * q) * seed + p * (1 + 2 * r)) with (seed + p + (2 * q * seed + r) * (2 * p)) by lia. by rewrite Z.mod_add by lia.
Qed.

Lemma steps_reach k : (k <= 64)%nat -> forall seed y, exists t, (t < 2 ^ k)%nat /\ Nat.iter t next seed mod 2 ^ Z.of_nat k = y mod 2 ^ Z.of_nat k.
Proof.
  induction k as [|k IH]; intros Hk seed y.
  { exists 0%nat. split; [change (2 ^ 0)%nat with 1%nat; lia|]. change (2 ^ Z.of_nat 0) with 1. by rewrite !Z.mod_1_r. }
  destruct (IH ltac:(lia) seed y) as (t & Ht & E). rewrite Nat.pow_succ_r', Nat2Z.inj_succ. replace (Z.succ (Z.of_nat k)) with (Z.of_nat k + 1) by lia.
  set (z := Nat.iter t next seed) in *. set (p := 2 ^ Z.of_nat k) in *.
  assert (0 < p /\ 2 ^ (Z.of_nat k + 1) = p * 2) as [Hp E1] by (unfold p; rewrite Z.pow_add_r by lia; lia).
  destruct (decide (z mod (p * 2) = y mod (p * 2))) as [Ez|Ez].
  - exists t. fold z. rewrite E1. split; [lia|done].
  - exists (2 ^ k + t)%nat. split; [lia|]. rewrite Nat.iter_add. fold z. rewrite steps_shift by lia. fold p. rewrite E1 in *.
    rewrite <- Z.add_mod_idemp_l by lia. rewrite !(Z.rem_mul_r _ p 2) in * by lia. rewrite E in *.
    pose proof (Z.mod_pos_bound y p Hp) as By. pose proof (Z.mod_pos_bound (z / p) 2 ltac:(lia)) as Bz. pose proof (Z.mod_pos_bound (y / p) 2 ltac:(lia)) as Bw.
    assert (z / p mod 2 = 0 /\ y / p mod 2 = 1 \/ z / p mod 2 = 1 /\ y / p mod 2 = 0) as [[E2 E3]|[E2 E3]].
    { destruct (decide (z / p mod 2 = y / p mod 2)) as [E4|E4]; [|lia]. exfalso. apply Ez. by rewrite E4. }
    + rewrite E2, E3. replace (y mod p + p * 0 + p) with (y mod p + 1 * p) by lia. rewrite Z.mod_add, Z.div_add, Z.mod_mod by lia.
      rewrite (Z.div_small (y mod p)) by lia. done.
    + rewrite E2, E3. replace (y mod p + p * 1 + p) with (y mod p + 2 * p) by lia. rewrite Z.mod_add, Z.div_add, Z.mod_mod by lia.
      rewrite (Z.div_small (y mod p)) by lia. done.
Qed.

(** Every number is drawn. *)
Lemma draw_reached seed v : u 32 v -> exists t, (t < 2 ^ 64)%nat /\ (hrd_fastrand (Nat.iter t next seed)).1 = v.
Proof.
  intros Hv. destruct (steps_reach 64 ltac:(lia) (next seed) (v * 2 ^ 32)) as (t & Ht & E). exists t. split; [done|].
  rewrite iter_next_comm in E. change (2 ^ Z.of_nat 64) with (2 ^ 64) in E. unfold next at 1 in E. unfold hrd_fastrand in *. cbn [fst snd] in *.
  unfold wrap at 1 in E. rewrite Z.mod_mod in E by lia. unfold wrap at 2. rewrite E, (Z.mod_small (v * 2 ^ 32)) by (unfold u in Hv; lia).
  rewrite Z.shiftr_div_pow2, Z.div_mul by lia. by apply wrap_id.
Qed.

Lemma draw_range seed : u 32 (hrd_fastrand seed).1.
Proof. unfold hrd_fastrand. cbn [fst]. by apply wrap_u. Qed.

(** ** Loops that draw *)

(** A loop that takes the next seed as long as it goes on, and that some draw ends. *)
Lemma loop_draws {B} (f : Z -> Z + B) v seed :
  u 32 v -> (forall sd, f sd = inl (next sd) \/ exists b, f sd = inr b) -> (forall sd, (hrd_fastrand sd).1 = v -> exists b, f sd = inr b) ->
  exists sd b, loop (2 ^ 64) f (inl seed) = inr b /\ f sd = inr b.
Proof.
  intros Hv Hstep Hend. destruct (draw_reached seed v Hv) as (t & Ht & E).
  assert (forall k, Nat.iter k (step f) (inl seed) = inl (Nat.iter k next seed) \/ exists b, Nat.iter k (step f) (inl seed) = inr b) as Hk.
  { induction k as [|k [IH|[b IH]]]; [by left| |right]; rewrite !Nat.iter_succ, IH; cbn [step]; [|by exists b]. apply Hstep. }
  assert (exists b, Nat.iter (S t) (step f) (inl seed) = inr b) as (b & Eb).
  { rewrite Nat.iter_succ. destruct (Hk t) as [->|[b ->]]; [|by exists b]. cbn [step]. by apply Hend. }
  assert (loop (2 ^ 64) f (inl seed) = inr b) as El.
  { apply (loop_total _ _ _ (S t)); [|done]. rewrite Pos2Nat.inj_pow. change (Pos.to_nat 2) with 2%nat. change (Pos.to_nat 64) with 64%nat. lia. }
  pose proof (loop_inv f (2 ^ 64) (fun _ => True) (fun b => exists sd, f sd = inr b) (inl seed)) as HI. rewrite El in HI.
  destruct HI as [sd Hsd]; [|done|by exists sd, b]. intros sd _. destruct (f sd) eqn:Ef; [done|by exists sd].
Qed.

End Random.
