(* ===== verification/Hots.v ===== *)
(** * Common definitions of HoTS ([src/hots.h])

    The limits of the system, the object header and its bit layout, objects and
    their byte image, global coroutine identifiers and message buffers. *)

From S2P Require Import Prelude.
From Stdlib Require Import ZArith Lia Bool.
From stdpp Require Import base numbers list.
#[local] Open Scope Z_scope.

(** ** Limits *)

Definition HOTS_CORO_ID_BITS : Z := 5.
Definition HOTS_MAX_BACKUPS : Z := 2.
Definition HOTS_MAX_REPLICAS : Z := 1 + HOTS_MAX_BACKUPS.
Definition HOTS_MAX_MACHINES : Z := 126.
Definition HOTS_MCHN_ID_BITS : Z := 7.
Definition HOTS_MAX_WORKERS : Z := 8192.
Definition HOTS_WRKR_GID_BITS : Z := 13.
Definition HOTS_MAX_SERVER_THREADS : Z := 56.
Definition HOTS_GRH_BYTES : Z := 40.
Definition HOTS_MAX_VALUE : Z := 40.
Definition HOTS_VERSION_CANARY : Z := 5.

(** ** Object headers and objects *)

Record hots_hdr_t := mk_hdr { locked : Z; version : Z; canary : Z }.

#[global] Instance hdr_eq_dec : EqDecision hots_hdr_t.
Proof. solve_decision. Defined.

Definition hdr_widths : list Z := [1; 60; 3].

(** The 64-bit word a header occupies, and the header a word holds. *)
Definition hdr_word (h : hots_hdr_t) : Z :=
  pack [(1, locked h); (60, version h); (3, canary h)].

Definition word_hdr (x : Z) : hots_hdr_t :=
  match unpack hdr_widths x with
  | [l; v; c] => mk_hdr l v c
  | _ => mk_hdr 0 0 0
  end.

Definition hdr_wf (h : hots_hdr_t) : Prop :=
  u 1 (locked h) /\ u 60 (version h) /\ u 3 (canary h).

Record hots_obj_t := mk_obj {
  val_size : Z;           (* size_t *)
  hdr : hots_hdr_t;
  val : list byte         (* uint8_t [HOTS_MAX_VALUE] *)
}.

#[global] Instance obj_eq_dec : EqDecision hots_obj_t.
Proof. solve_decision. Defined.

Definition obj_wf (o : hots_obj_t) : Prop :=
  u 64 (val_size o) /\ hdr_wf (hdr o) /\
  length (val o) = Z.to_nat HOTS_MAX_VALUE /\ Forall (u 8) (val o).

(** [sizeof(hots_obj_t)]: the static assertion of the source. *)
Definition sizeof_hots_obj_t : Z := 8 + 8 + HOTS_MAX_VALUE.

Definition hots_obj_size (val_size : Z) : Z :=
  sizeof_hots_obj_t - HOTS_MAX_VALUE + val_size.

(** The bytes of an object in memory, in the order of the fields. *)
Definition obj_bytes (o : hots_obj_t) : list byte :=
  le_bytes 8 (val_size o) ++ le_bytes 8 (hdr_word (hdr o)) ++ val o.

Definition bytes_obj (bs : list byte) : hots_obj_t :=
  mk_obj (le_val (take 8 bs)) (word_hdr (le_val (take 8 (drop 8 bs)))) (drop 16 bs).

Definition hots_format_real_obj (obj : hots_obj_t) (vs : Z) : hots_obj_t :=
  mk_obj vs (hdr obj) (val obj).

(** ** Global coroutine identifiers *)

Record hots_glbl_crid_t := mk_crid { coro_id : Z; wrkr_gid : Z }.

#[global] Instance crid_eq_dec : EqDecision hots_glbl_crid_t.
Proof. solve_decision. Defined.

(** The [int_rep] member of the union. *)
Definition int_rep (c : hots_glbl_crid_t) : Z :=
  pack [(HOTS_CORO_ID_BITS, coro_id c); (32 - HOTS_CORO_ID_BITS, wrkr_gid c)].

Definition crid_eqb (c1 c2 : hots_glbl_crid_t) : bool := int_rep c1 =? int_rep c2.

Definition crid_wf (c : hots_glbl_crid_t) : Prop :=
  u HOTS_CORO_ID_BITS (coro_id c) /\ u (32 - HOTS_CORO_ID_BITS) (wrkr_gid c).

(** ** Message buffers

    Buffers are addresses; [0] is [NULL].  The bytes are those of the memory the
    buffer points into, which the components that write through [cur_buf]
    model. *)
Module Mbuf.

Record hots_mbuf_t := mk { alloc_buf : Z; alloc_len : Z; cur_buf : Z }.

(** [memalign] is the C library's: its result is an argument. *)
Definition alloc (memalign_result len : Z) : res hots_mbuf_t :=
  _ ← assert_ (negb (memalign_result =? 0));
  Ok (mk memalign_result len memalign_result).

Definition alloc_with_buf (buf len : Z) : res hots_mbuf_t :=
  _ ← assert_ (negb (buf =? 0));
  Ok (mk buf len buf).

Definition length (m : hots_mbuf_t) : Z := wrap 64 (cur_buf m - alloc_buf m).

Definition reset (m : hots_mbuf_t) : hots_mbuf_t :=
  mk (alloc_buf m) (alloc_len m) (alloc_buf m).

Definition is_valid (m : hots_mbuf_t) : bool :=
  negb (alloc_buf m =? 0) && (0 <? alloc_len m) &&
  negb (cur_buf m =? 0) && (alloc_buf m <=? cur_buf m) &&
  (alloc_buf m mod 8 =? 0) && (cur_buf m mod 4 =? 0) &&
  (length m <=? alloc_len m).

Definition available_bytes (m : hots_mbuf_t) : Z :=
  wrap 64 (alloc_len m - length m).

(** A caller that has written [n] bytes moves the cursor. *)
Definition advance (m : hots_mbuf_t) (n : Z) : hots_mbuf_t :=
  mk (alloc_buf m) (alloc_len m) (cur_buf m + n).

Definition wf (m : hots_mbuf_t) : Prop :=
  u 64 (alloc_buf m) /\ u 64 (alloc_len m) /\ u 64 (cur_buf m).

Lemma is_valid_spec m :
  wf m ->
  is_valid m = true <->
  alloc_buf m <> 0 /\ 0 < alloc_len m /\
  alloc_buf m <= cur_buf m <= alloc_buf m + alloc_len m /\
  (8 | alloc_buf m) /\ (4 | cur_buf m).
Proof.
  intros (H1 & H2 & H3). unfold is_valid, length, u in *.
  rewrite !andb_true_iff, !negb_true_iff, !Z.eqb_neq, Z.ltb_lt, !Z.leb_le, !Z.eqb_eq.
  rewrite <- !Z.mod_divide by lia. unfold wrap.
  split.
  - intros ((((((? & ?) & ?) & ?) & ?) & ?) & Hl).
    rewrite Z.mod_small in Hl by lia. repeat split; lia.
  - intros (? & ? & ? & ? & ?).
    rewrite (Z.mod_small (cur_buf m - alloc_buf m)) by lia. repeat split; lia.
Qed.

Lemma available_valid m :
  wf m -> is_valid m = true ->
  length m + available_bytes m = alloc_len m /\ 0 <= available_bytes m.
Proof.
  intros Hw Hv. pose proof Hw as (H1 & H2 & H3).
  apply is_valid_spec in Hv as (? & ? & ? & _); [|done].
  unfold available_bytes, length, wrap, u in *.
  rewrite (Z.mod_small (cur_buf m - alloc_buf m)) by lia.
  rewrite Z.mod_small by lia. lia.
Qed.

End Mbuf.

(** ** Lemmas on headers, objects and identifiers *)

Lemma hdr_word_u h : u 64 (hdr_word h).
Proof. apply (pack_u [(1, _); (60, _); (3, _)]). fields. Qed.

Lemma word_hdr_word h : hdr_wf h -> word_hdr (hdr_word h) = h.
Proof.
  intros (Hl & Hv & Hc). unfold word_hdr, hdr_word, hdr_widths.
  change [1; 60; 3] with (map fst [(1, locked h); (60, version h); (3, canary h)]).
  rewrite unpack_pack; [by destruct h|]. fields.
Qed.

Lemma hdr_word_hdr x : u 64 x -> hdr_word (word_hdr x) = x.
Proof. intros. apply (pack_unpack hdr_widths); [fields|done]. Qed.

Lemma word_hdr_wf x : hdr_wf (word_hdr x).
Proof. unfold hdr_wf, word_hdr; simpl. split_and!; apply wrap_u; lia. Qed.

(** The lock bit of a header is the least significant bit of its word. *)
Lemma hdr_word_odd h : hdr_wf h -> Z.odd (hdr_word h) = (locked h =? 1).
Proof.
  intros ([? ?] & _ & _). unfold hdr_word. cbn [pack].
  rewrite Z.odd_add, Z.odd_mul. change (Z.odd (2 ^ 1)) with false. simpl andb.
  rewrite xorb_false_r, wrap_id by (split; done).
  assert (locked h = 0 \/ locked h = 1) as [-> | ->] by lia; done.
Qed.

Lemma obj_bytes_length o : obj_wf o -> Z.of_nat (length (obj_bytes o)) = sizeof_hots_obj_t.
Proof.
  intros (_ & _ & Hl & _). unfold obj_bytes. rewrite !length_app, !length_le_bytes, Hl. done.
Qed.

Lemma bytes_obj_bytes o : obj_wf o -> bytes_obj (obj_bytes o) = o.
Proof.
  intros (Hv & Hh & _ & _). unfold bytes_obj, obj_bytes.
  rewrite take_app_length' by by rewrite length_le_bytes.
  rewrite !drop_app_length' by by rewrite length_le_bytes.
  rewrite take_app_length' by by rewrite length_le_bytes.
  rewrite app_assoc, drop_app_length' by by rewrite length_app, !length_le_bytes.
  rewrite !le_val_bytes by (done || apply hdr_word_u).
  rewrite word_hdr_word by done. by destruct o.
Qed.

Lemma int_rep_u c : u 32 (int_rep c).
Proof. apply (pack_u [(5, _); (27, _)]). fields. Qed.

(** Comparing the integer representations compares the identifiers. *)
Lemma crid_eqb_eq c1 c2 :
  crid_wf c1 -> crid_wf c2 -> crid_eqb c1 c2 = true <-> c1 = c2.
Proof.
  intros [H1 H2] [H3 H4]. unfold crid_eqb. rewrite Z.eqb_eq. split; [|by intros ->].
  intros E. unfold int_rep in E. apply pack_inj in E; [|done|fields|fields].
  destruct c1, c2; simpl in *. congruence.
Qed.
