(* ===== verification/Mappings.v ===== *)
(** * Key and machine mappings ([src/mappings/mappings.h])

    The class [Mappings] decides which machine is the primary and which are the
    backups of a key, which worker inserts a key during the initial population,
    and which machines hold a worker's log. *)

From S2P Require Import Prelude Hots.
From Stdlib Require Import ZArith Lia Bool.
From stdpp Require Import base numbers list.
#[local] Open Scope Z_scope.

Module Mappings.

Record t := mk {
  wrkr_gid : Z;
  num_machines : Z;
  workers_per_machine : Z;
  num_backups : Z;
  use_lock_server : bool;
  machine_id : Z;
  num_replicas : Z;
  tot_primary_workers : Z;
  tot_primary_machines : Z;
  base_lockserver_wn : Z;
  am_i_lock_server : bool
}.

Definition INT_MIN : Z := - 2 ^ 31.

(** The constructor: its assertions are live, and [int] products that leave the
    32-bit range are undefined. *)
Definition make (wrkr_gid num_machines workers_per_machine num_backups : Z)
    (use_lock_server : bool) : res t :=
  tot ← chk_int (num_machines * workers_per_machine);
  _ ← assert_ (tot <=? HOTS_MAX_WORKERS);
  _ ← assert_ (workers_per_machine <=? HOTS_MAX_SERVER_THREADS);
  _ ← assert_ ((0 <=? num_backups) && (num_backups <=? HOTS_MAX_BACKUPS));
  _ ← assert_ ((0 <=? wrkr_gid) && (wrkr_gid <? tot));
  let machine_id := Z.quot wrkr_gid workers_per_machine in
  let num_replicas := 1 + num_backups in
  _ ← assert_ (num_replicas <=? num_machines);
  let tot_primary_machines := if use_lock_server then num_machines - 1 else num_machines in
  let base_lockserver_wn :=
    if use_lock_server then workers_per_machine * (num_machines - 1) else INT_MIN in
  let tot_primary_workers := workers_per_machine * tot_primary_machines in
  let am_i_lock_server := if use_lock_server then machine_id =? num_machines - 1 else false in
  Ok (mk wrkr_gid num_machines workers_per_machine num_backups use_lock_server machine_id
         num_replicas tot_primary_workers tot_primary_machines base_lockserver_wn
         am_i_lock_server).

(** The C++ remainder by [tot_primary_machines] is undefined when it is zero;
    the statements below are about mappings where it is positive. *)
Definition get_primary_mn (m : t) (keyhash : Z) : Z :=
  Z.shiftr keyhash 32 mod tot_primary_machines m.

Definition get_backup_mn_from_primary (m : t) (primary_mn back_i : Z) : Z :=
  let backup_mn := primary_mn + (back_i + 1) in
  if backup_mn >=? tot_primary_machines m
  then backup_mn - tot_primary_machines m
  else backup_mn.

Definition get_backup_mn (m : t) (keyhash back_i : Z) : Z :=
  get_backup_mn_from_primary m (get_primary_mn m keyhash) back_i.

(** The worker that inserts replica [repl_i] of a key. *)
Definition owner_wn (m : t) (keyhash repl_i : Z) : Z :=
  if repl_i =? 0
  then let primary_machine := get_primary_mn m keyhash in
       primary_machine * workers_per_machine m +
       Z.shiftr keyhash 20 mod workers_per_machine m
  else let backup_machine := get_backup_mn m keyhash (repl_i - 1) in
       backup_machine * workers_per_machine m +
       Z.shiftr keyhash 20 mod workers_per_machine m.

Definition should_i_populate (m : t) (keyhash repl_i : Z) : bool :=
  wrkr_gid m =? owner_wn m keyhash repl_i.

Definition get_log_mn (m : t) (back_i : Z) : Z :=
  get_backup_mn_from_primary m (machine_id m) back_i.

Definition get_lockserver_mn (m : t) : Z := tot_primary_machines m.

(** ** What a constructed mapping satisfies *)

Record wf (m : t) : Prop := {
  wf_workers : 0 < workers_per_machine m <= HOTS_MAX_SERVER_THREADS;
  wf_backups : 0 <= num_backups m <= HOTS_MAX_BACKUPS;
  wf_replicas : num_replicas m = 1 + num_backups m /\ num_replicas m <= num_machines m;
  wf_gid : 0 <= wrkr_gid m < num_machines m * workers_per_machine m;
  wf_max : num_machines m * workers_per_machine m <= HOTS_MAX_WORKERS;
  wf_machine : machine_id m = wrkr_gid m / workers_per_machine m;
  wf_primary : tot_primary_machines m =
    num_machines m - (if use_lock_server m then 1 else 0);
  wf_tot : tot_primary_workers m = workers_per_machine m * tot_primary_machines m;
  wf_am_i : am_i_lock_server m =
    use_lock_server m && (machine_id m =? num_machines m - 1)
}.

(** A mapping in which a key's replicas fit the machines that hold data. *)
Definition replicated (m : t) : Prop :=
  wf m /\ num_replicas m <= tot_primary_machines m.

(** The machines that hold replicas of a key: the primary and the backups. *)
Definition replica_mns (m : t) (keyhash : Z) : list Z :=
  get_primary_mn m keyhash ::
  map (get_backup_mn m keyhash) (seqZ 0 (num_backups m)).

(** The same worker's view of the mapping at another worker. *)
Definition at_worker (m : t) (g : Z) : res t :=
  make g (num_machines m) (workers_per_machine m) (num_backups m) (use_lock_server m).

(** ** Lemmas *)

Lemma make_wf g nm wpm nb ls m : make g nm wpm nb ls = Ok m -> wf m.
Proof.
  unfold make. intros H. run_ok H; assert (0 < wpm) by nia;
  constructor; simpl; rewrite ?Z.quot_div_nonneg by lia; done || lia.
Qed.

Lemma make_fields g nm wpm nb ls m :
  make g nm wpm nb ls = Ok m ->
  wrkr_gid m = g /\ num_machines m = nm /\ workers_per_machine m = wpm /\
  num_backups m = nb /\ use_lock_server m = ls.
Proof. unfold make. intros H. run_ok H; done. Qed.

(** The constructor accepts every argument list the assertions describe. *)
Lemma make_total g nm wpm nb ls :
  0 < wpm <= HOTS_MAX_SERVER_THREADS -> 0 <= nb <= HOTS_MAX_BACKUPS ->
  1 + nb <= nm -> nm * wpm <= HOTS_MAX_WORKERS -> 0 <= g < nm * wpm ->
  exists m, make g nm wpm nb ls = Ok m.
Proof.
  unfold HOTS_MAX_WORKERS, HOTS_MAX_SERVER_THREADS, HOTS_MAX_BACKUPS. intros.
  unfold make, chk_int, assert_, HOTS_MAX_WORKERS, HOTS_MAX_SERVER_THREADS, HOTS_MAX_BACKUPS.
  guards. eauto.
Qed.

Lemma primary_range m kh :
  0 < tot_primary_machines m -> 0 <= get_primary_mn m kh < tot_primary_machines m.
Proof. intros. apply Z.mod_pos_bound. done. Qed.

(** The ring step is addition modulo the number of data machines. *)
Lemma backup_mod m p i :
  0 <= p < tot_primary_machines m -> 0 <= i -> i + 1 <= tot_primary_machines m ->
  get_backup_mn_from_primary m p i = (p + (i + 1)) mod tot_primary_machines m.
Proof.
  intros. unfold get_backup_mn_from_primary. case_goal; bool_prop.
  - apply Z.mod_unique with 1; lia.
  - symmetry. apply Z.mod_small. lia.
Qed.

Lemma backup_range m p i :
  0 <= p < tot_primary_machines m -> 0 <= i -> i + 1 <= tot_primary_machines m ->
  0 <= get_backup_mn_from_primary m p i < tot_primary_machines m.
Proof. intros. rewrite backup_mod by done. apply Z.mod_pos_bound. lia. Qed.

Lemma ring_shift_inj n p i j :
  0 <= i < n -> 0 <= j < n -> (p + i) mod n = (p + j) mod n -> i = j.
Proof.
  intros Hi Hj E.
  assert ((i - j) mod n = 0) as Hd.
  { replace (i - j) with ((p + i) - (p + j)) by lia.
    rewrite Zminus_mod, E, Z.sub_diag. apply Z.mod_0_l. lia. }
  apply Z.mod_divide in Hd as [q Hq]; [|lia]. assert (q = 0) by nia. lia.
Qed.

Lemma replica_mns_ring m kh :
  replicated m ->
  replica_mns m kh =
  map (fun i => (get_primary_mn m kh + i) mod tot_primary_machines m)
      (seqZ 0 (num_replicas m)).
Proof.
  intros [Hw Hr]. pose proof (wf_replicas m Hw). pose proof (wf_backups m Hw).
  pose proof (primary_range m kh ltac:(lia)).
  unfold replica_mns. rewrite (seqZ_cons 0 (num_replicas m)) by lia. simpl. f_equal.
  - rewrite Z.add_0_r, Z.mod_small; lia.
  - replace (Z.succ 0) with (0 + 1) by lia.
    replace (seqZ (0 + 1) (Z.pred (num_replicas m))) with (Z.add 1 <$> seqZ 0 (num_backups m)).
    2:{ rewrite fmap_add_seqZ. f_equal; lia. }
    change (@fmap list _ Z Z) with (@map Z Z).
    rewrite map_map. apply map_ext_in. intros i Hi.
    apply list_elem_of_In, elem_of_seqZ in Hi.
    unfold get_backup_mn. rewrite backup_mod by lia. f_equal. lia.
Qed.

Lemma owner_of m kh r :
  replicated m -> 0 <= r < num_replicas m ->
  exists mn, replica_mns m kh !! Z.to_nat r = Some mn /\
    0 <= mn < tot_primary_machines m /\
    owner_wn m kh r = mn * workers_per_machine m +
      Z.shiftr kh 20 mod workers_per_machine m.
Proof.
  intros HR Hr. pose proof HR as [Hw Ht]. pose proof (wf_replicas m Hw).
  pose proof (wf_workers m Hw). pose proof (primary_range m kh ltac:(lia)).
  unfold owner_wn. destruct (Z.eqb_spec r 0) as [->|Hne].
  - exists (get_primary_mn m kh). done.
  - exists (get_backup_mn m kh (r - 1)). split; [|split; [|done]].
    + unfold replica_mns. replace (Z.to_nat r) with (S (Z.to_nat (r - 1))) by lia. simpl.
      change (@map Z Z) with (@fmap list _ Z Z). rewrite list_lookup_fmap.
      rewrite lookup_seqZ_lt by lia. simpl. f_equal. f_equal. lia.
    + apply backup_range; lia.
Qed.

(** A worker's log is replicated on different machines. *)
Lemma log_mns_distinct m :
  replicated m -> use_lock_server m = false -> NoDup (map (get_log_mn m) (seqZ 0 (num_backups m))).
Proof.
  intros [Hw Hr] Hls. pose proof (wf_replicas m Hw). pose proof (wf_backups m Hw). pose proof (wf_workers m Hw).
  pose proof (wf_gid m Hw). pose proof (wf_machine m Hw). pose proof (wf_primary m Hw) as Ht. rewrite Hls in Ht.
  assert (0 <= machine_id m < tot_primary_machines m).
  { rewrite (wf_machine m Hw), Ht, Z.sub_0_r. split; [apply Z.div_pos; lia|apply Z.div_lt_upper_bound; lia]. }
  change (@map Z Z) with (@fmap list _ Z Z). apply NoDup_fmap_2_strong; [|apply NoDup_seqZ].
  intros i j Hi%elem_of_seqZ Hj%elem_of_seqZ E. unfold get_log_mn in E. rewrite !backup_mod in E by lia.
  apply ring_shift_inj in E; lia.
Qed.

(** Every worker computes the same owner of a replica. *)
Lemma at_worker_owner m g m' kh r :
  wf m -> at_worker m g = Ok m' ->
  wrkr_gid m' = g /\ owner_wn m' kh r = owner_wn m kh r.
Proof.
  intros Hw H. pose proof (make_wf _ _ _ _ _ _ H) as Hw'.
  apply make_fields in H as (Hg & Hn & Hwpm & _ & Hl). split; [done|].
  unfold owner_wn, get_backup_mn, get_backup_mn_from_primary, get_primary_mn.
  by rewrite (wf_primary m' Hw'), (wf_primary m Hw), Hn, Hwpm, Hl.
Qed.

Lemma make_replicated g nm wpm nb ls m :
  make g nm wpm nb ls = Ok m -> ls = false \/ 1 + nb < nm -> replicated m.
Proof.
  intros H Hc. pose proof (make_wf _ _ _ _ _ _ H) as Hw. split; [done|].
  apply make_fields in H as (_ & Hn & _ & Hb & Hl).
  pose proof (wf_replicas m Hw). rewrite (wf_primary m Hw), Hl. destruct ls; lia || naive_solver lia.
Qed.

(** ** Theorems *)

(** The machines that hold a key (its primary and its backups) are
    [num_replicas] distinct data machines: no backup coincides with the primary
    or with another backup, and none is the lock server. *)
Theorem replicas_distinct m kh :
  replicated m ->
  NoDup (replica_mns m kh) /\
  Z.of_nat (length (replica_mns m kh)) = num_replicas m /\
  Forall (fun mn => 0 <= mn < tot_primary_machines m) (replica_mns m kh).
Proof.
  intros HR. rewrite replica_mns_ring by done. destruct HR as [Hw Hr].
  pose proof (wf_replicas m Hw). pose proof (wf_backups m Hw). split_and!.
  - change (@map Z Z) with (@fmap list _ Z Z). apply NoDup_fmap_2_strong; [|apply NoDup_seqZ].
    intros i j Hi%elem_of_seqZ Hj%elem_of_seqZ E. eapply ring_shift_inj; [..|exact E]; lia.
  - rewrite length_map, length_seqZ. lia.
  - apply Forall_map, Forall_forall. intros i _. apply Z.mod_pos_bound. lia.
Qed.

Lemma replicas_distinct_witness :
  exists m, make 4 3 2 2 false = Ok m /\ NoDup (replica_mns m (Z.shiftl 7 32 + 5)).
Proof.
  exists (mk 4 3 2 2 false 2 3 6 3 INT_MIN false). split; [reflexivity|].
  apply (replicas_distinct _ (Z.shiftl 7 32 + 5)).
  apply (make_replicated 4 3 2 2 false); [reflexivity|left; reflexivity].
Defined.

(** For every key and every replica index, exactly one worker of the cluster
    inserts that replica during the initial population, and it runs on the
    machine that serves the replica. *)
Theorem populate_unique_owner m kh r :
  replicated m -> 0 <= r < num_replicas m ->
  exists g mn,
    0 <= g < tot_primary_workers m /\
    replica_mns m kh !! Z.to_nat r = Some mn /\ g / workers_per_machine m = mn /\
    forall g' m', at_worker m g' = Ok m' ->
      (should_i_populate m' kh r = true <-> g' = g).
Proof.
  intros HR Hr. destruct (owner_of m kh r HR Hr) as (mn & Hl & Hmn & Ho).
  destruct HR as [Hw _]. pose proof (wf_workers m Hw).
  pose proof (Z.mod_pos_bound (Z.shiftr kh 20) (workers_per_machine m) ltac:(lia)).
  exists (owner_wn m kh r), mn. rewrite (wf_tot m Hw), Ho. split_and!; [nia|nia|done|..].
  - rewrite Z.div_add_l by lia. rewrite Z.div_small; lia.
  - intros g' m' Hm'. destruct (at_worker_owner m g' m' kh r Hw Hm') as [Hg Ho'].
    unfold should_i_populate. rewrite Ho', Hg, <- Ho. apply Z.eqb_eq.
Qed.

Lemma populate_unique_owner_witness :
  exists m, make 4 3 2 2 false = Ok m /\
    exists g, forall g' m', at_worker m g' = Ok m' ->
      (should_i_populate m' (Z.shiftl 7 32 + 5) 1 = true <-> g' = g).
Proof.
  exists (mk 4 3 2 2 false 2 3 6 3 INT_MIN false). split; [reflexivity|].
  destruct (populate_unique_owner
    (mk 4 3 2 2 false 2 3 6 3 INT_MIN false) (Z.shiftl 7 32 + 5) 1) as (g & mn & _ & _ & _ & H).
  - apply (make_replicated 4 3 2 2 false); [reflexivity|left; reflexivity].
  - simpl. lia.
  - exists g. exact H.
Defined.

(** With a lock server, the constructor's check of the replica count against
    all machines admits a configuration in which the second backup of every key
    is its primary: three machines, two backups. *)
Theorem lockserver_backup_is_primary :
  exists m, make 0 3 1 2 true = Ok m /\
    forall kh, get_backup_mn m kh 1 = get_primary_mn m kh.
Proof.
  exists (mk 0 3 1 2 true 0 3 2 2 2 false). split; [reflexivity|]. intros kh.
  unfold get_backup_mn, get_backup_mn_from_primary.
  pose proof (primary_range (mk 0 3 1 2 true 0 3 2 2 2 false) kh eq_refl) as Hp.
  cbn [tot_primary_machines] in *. case_goal; bool_prop; lia.
Qed.

End Mappings.
