(* ===== verification/FixedTable.v ===== *)
(** * The MICA fixed-size table: data and operations
    ([src/mica2/src/mica/table/fixedtable.h] and [fixedtable_impl/])

    The table is an array of buckets: [num_buckets_] primary buckets followed by
    [num_extra_buckets_] extra buckets that are chained behind primary buckets or
    kept in a free list.  A pointer to a bucket is its position in the array.
    Every operation is translated with its assertions, which are live; loops over
    a chain carry fuel, and [FixedTableInv] proves the fuel is enough. *)

From S2P Require Import Prelude Util.
From Stdlib Require Import ZArith Lia Bool.
From Stdlib Require Import SpecFloat.
From stdpp Require Import base numbers list.
#[local] Open Scope Z_scope.

Inductive Result : Type :=
| kSuccess | kLocked | kError | kInsufficientSpacePool | kInsufficientSpaceIndex
| kExists | kNotEven | kNotFound | kPartialValue | kNotProcessed | kNotSupported
| kTimedOut | kRejected.

#[global] Instance Result_eq_dec : EqDecision Result.
Proof. solve_decision. Defined.

Module FixedTable.

Definition kBucketCap : nat := 7.
Definition kNumLocksBits : Z := 5.
Definition kMaxNumLocks : Z := Z.shiftl 1 kNumLocksBits - 1.
Definition kCallerIdBits : Z := 32 - kNumLocksBits.
Definition kMaxCallerId : Z := Z.shiftl 1 kCallerIdBits - 1.
Definition kInvalidCallerId : Z := kMaxCallerId.
Definition kTimestampCanary : Z := 5.
Definition kFtInvalidKey : Z := 0xffffffffffffffff.

Record Bucket := mkBucket {
  locker_id : Z;                 (* 27 bits *)
  num_locks : Z;                 (* 5 bits *)
  next_extra_bucket_index : Z;   (* uint32_t, 1-based; 0 = no extra bucket *)
  timestamp : Z;                 (* uint64_t *)
  key_arr : list Z;              (* ft_key_t [kBucketCap] *)
  val_arr : list (list byte)     (* the value array adjacent to the bucket *)
}.

Record table := mkTable {
  is_primary : bool;
  val_size : Z;
  num_buckets_ : Z;
  num_buckets_mask_ : Z;
  num_extra_buckets_ : Z;
  fl_lock : Z;                   (* extra_bucket_free_list_.lock *)
  fl_head : Z;                   (* extra_bucket_free_list_.head *)
  buckets_ : list Bucket
}.

(** ** Field updates *)

Definition with_lock (b : Bucket) (lid nl ts : Z) : Bucket :=
  mkBucket lid nl (next_extra_bucket_index b) ts (key_arr b) (val_arr b).
Definition with_next (e : Z) (b : Bucket) : Bucket :=
  mkBucket (locker_id b) (num_locks b) e (timestamp b) (key_arr b) (val_arr b).
Definition with_key (j : nat) (k : Z) (b : Bucket) : Bucket :=
  mkBucket (locker_id b) (num_locks b) (next_extra_bucket_index b) (timestamp b)
    (<[j := k]> (key_arr b)) (val_arr b).
Definition with_val (j : nat) (v : list byte) (b : Bucket) : Bucket :=
  mkBucket (locker_id b) (num_locks b) (next_extra_bucket_index b) (timestamp b)
    (key_arr b) (<[j := v]> (val_arr b)).

Definition with_buckets (t : table) (bs : list Bucket) : table :=
  mkTable (is_primary t) (val_size t) (num_buckets_ t) (num_buckets_mask_ t)
    (num_extra_buckets_ t) (fl_lock t) (fl_head t) bs.
Definition with_fl (t : table) (l h : Z) : table :=
  mkTable (is_primary t) (val_size t) (num_buckets_ t) (num_buckets_mask_ t)
    (num_extra_buckets_ t) l h (buckets_ t).

(** Reading and writing through a bucket pointer. *)
Definition bkt (t : table) (p : nat) : res Bucket :=
  of_option OutOfBounds (buckets_ t !! p).
Definition upd (p : nat) (f : Bucket -> Bucket) (t : table) : table :=
  with_buckets t (alter f p (buckets_ t)).

(** ** [fixedtable_impl/bucket.h] *)

Definition calc_bucket_index (t : table) (key_hash : Z) : Z :=
  Z.land (wrap 32 key_hash) (num_buckets_mask_ t).

Definition get_bucket (t : table) (bucket_index : Z) : res nat :=
  _ ← assert_ (bucket_index <? wrap 32 (num_buckets_ t + num_extra_buckets_ t));
  Ok (Z.to_nat bucket_index).

Definition has_extra_bucket (b : Bucket) : bool :=
  negb (next_extra_bucket_index b =? 0).

(** [extra_buckets_] points one bucket before the first extra bucket. *)
Definition get_extra_bucket (t : table) (extra_bucket_index : Z) : res nat :=
  _ ← assert_ (negb (extra_bucket_index =? 0));
  _ ← assert_ (extra_bucket_index <? wrap 32 (1 + num_extra_buckets_ t));
  Ok (Z.to_nat (num_buckets_ t - 1 + extra_bucket_index)).

(** A spin lock; a table operation is one step of the model, so the lock of the
    free list is free when an operation starts and a held lock is never
    released. *)
Definition lock_extra_bucket_free_list (t : table) : res table :=
  if fl_lock t =? 0 then Ok (with_fl t 1 (fl_head t)) else Err Diverge.

Definition unlock_extra_bucket_free_list (t : table) : res table :=
  _ ← assert_ (Z.land (fl_lock t) 1 =? 1);
  Ok (with_fl t 0 (fl_head t)).

Definition alloc_extra_bucket (p : nat) (t : table) : res (bool * table) :=
  b ← bkt t p;
  _ ← assert_ (negb (has_extra_bucket b));
  t ← lock_extra_bucket_free_list t;
  if fl_head t =? 0 then
    t ← unlock_extra_bucket_free_list t;
    Ok (false, t)
  else
    let extra_bucket_index := fl_head t in
    q ← get_extra_bucket t extra_bucket_index;
    e ← bkt t q;
    let t := with_fl t (fl_lock t) (next_extra_bucket_index e) in
    let t := upd q (with_next 0) t in
    let t := upd p (with_next extra_bucket_index) t in
    t ← unlock_extra_bucket_free_list t;
    Ok (true, t).

Definition free_extra_bucket (p : nat) (t : table) : res table :=
  b ← bkt t p;
  _ ← assert_ (has_extra_bucket b);
  let extra_bucket_index := next_extra_bucket_index b in
  q ← get_extra_bucket t extra_bucket_index;
  e ← bkt t q;
  _ ← assert_ (next_extra_bucket_index e =? 0);
  _ ← assert_ (forallb (fun k => k =? kFtInvalidKey) (key_arr e));
  let t := upd p (with_next 0) t in
  t ← lock_extra_bucket_free_list t;
  let t := upd q (with_next (fl_head t)) t in
  let t := with_fl t (fl_lock t) extra_bucket_index in
  unlock_extra_bucket_free_list t.

(** The [do ... while] of [fill_hole]: the last two buckets of a chain. *)
Fixpoint last_two (fuel : nat) (t : table) (cur : nat) : res (nat * nat) :=
  match fuel with
  | O => Err Diverge
  | S fuel =>
      b ← bkt t cur;
      nxt ← get_extra_bucket t (next_extra_bucket_index b);
      n ← bkt t nxt;
      if has_extra_bucket n then last_two fuel t nxt else Ok (cur, nxt)
  end.

(** The [for] loop of [fill_hole]: the first used slot of the last bucket, and
    whether it is the only one. *)
Fixpoint scan_last (ks : list Z) (item_index : nat) (moved : option nat) : option nat * bool :=
  match ks with
  | [] => (moved, true)
  | k :: ks =>
      if negb (k =? kFtInvalidKey) then
        match moved with
        | None => scan_last ks (S item_index) (Some item_index)
        | Some _ => (moved, false)
        end
      else scan_last ks (S item_index) moved
  end.

Fixpoint fill_hole_loop (fuel : nat) (p unused_item_index : nat) (t : table) : res table :=
  match fuel with
  | O => Err Diverge
  | S fuel =>
      b ← bkt t p;
      if negb (has_extra_bucket b) then Ok t else
      '(prev, cur) ← last_two (length (buckets_ t)) t p;
      c ← bkt t cur;
      match scan_last (key_arr c) 0 None with
      | (None, _) =>
          t ← free_extra_bucket prev t;
          fill_hole_loop fuel p unused_item_index t
      | (Some moved_item_index, last_item) =>
          k ← of_option OutOfBounds (key_arr c !! moved_item_index);
          v ← of_option OutOfBounds (val_arr c !! moved_item_index);
          let t := upd p (with_key unused_item_index k) t in
          _ ← assert_ (val_size t =? roundup 8 (val_size t));
          let t := upd p (with_val unused_item_index v) t in
          let t := upd cur (with_key moved_item_index kFtInvalidKey) t in
          if last_item then free_extra_bucket prev t else Ok t
      end
  end.

Definition fill_hole (p unused_item_index : nat) (t : table) : res table :=
  fill_hole_loop (S (length (buckets_ t))) p unused_item_index t.

(** The first slot of a bucket whose key is [key]. *)
Definition slot_of (key : Z) (b : Bucket) : option nat :=
  fst <$> list_find (fun k => k = key) (key_arr b).

(** A located slot is (bucket, item index); [None] stands for the null bucket
    and the index [kBucketCap]. *)
Fixpoint find_loop (fuel : nat) (t : table) (key : Z) (p : nat) :
    res (option (nat * nat)) :=
  match fuel with
  | O => Err Diverge
  | S fuel =>
      b ← bkt t p;
      match slot_of key b with
      | Some j => Ok (Some (p, j))
      | None =>
          if negb (has_extra_bucket b) then Ok None else
          q ← get_extra_bucket t (next_extra_bucket_index b);
          find_loop fuel t key q
      end
  end.

Definition find_item_index (t : table) (p : nat) (key : Z) : res (option (nat * nat)) :=
  find_loop (length (buckets_ t)) t key p.

(** The loop of [get_empty]: the first empty slot, or the last bucket. *)
Fixpoint empty_loop (fuel : nat) (t : table) (p : nat) : res (nat * option nat) :=
  match fuel with
  | O => Err Diverge
  | S fuel =>
      b ← bkt t p;
      match slot_of kFtInvalidKey b with
      | Some j => Ok (p, Some j)
      | None =>
          if negb (has_extra_bucket b) then Ok (p, None) else
          q ← get_extra_bucket t (next_extra_bucket_index b);
          empty_loop fuel t q
      end
  end.

Definition get_empty (p : nat) (t : table) : res (option (nat * nat) * table) :=
  '(q, oj) ← empty_loop (length (buckets_ t)) t p;
  match oj with
  | Some j => Ok (Some (q, j), t)
  | None =>
      '(ok, t) ← alloc_extra_bucket q t;
      if (ok : bool) then
        b ← bkt t q;
        e ← get_extra_bucket t (next_extra_bucket_index b);
        Ok (Some (e, 0%nat), t)
      else Ok (None, t)
  end.

(** ** [fixedtable_impl/lock.h] *)

Definition is_unlocked (ts : Z) : bool := Z.land ts 1 =? 0.
Definition is_locked (ts : Z) : bool := Z.land ts 1 =? 1.

Definition read_timestamp (t : table) (p : nat) : res Z :=
  b ← bkt t p; Ok (timestamp b).

(** The compare-and-swap succeeds exactly when the timestamp is even. *)
Definition lock_bucket_ptr (caller_id : Z) (p : nat) (t : table) : res (bool * table) :=
  _ ← assert_ (negb (caller_id =? kInvalidCallerId));
  b ← bkt t p;
  let ts := Z.ldiff (timestamp b) 1 in
  let new_ts := Z.lor ts 1 in
  if timestamp b =? ts then
    _ ← assert_ (locker_id b =? kInvalidCallerId);
    _ ← assert_ (num_locks b =? 0);
    Ok (true, upd p (fun b => with_lock b (wrap kCallerIdBits caller_id) 1 new_ts) t)
  else if locker_id b =? caller_id then
    _ ← assert_ (is_locked (timestamp b));
    _ ← assert_ (0 <? num_locks b);
    _ ← assert_ (num_locks b <? kMaxNumLocks);
    Ok (true, upd p (fun b => with_lock b (locker_id b)
                       (wrap kNumLocksBits (num_locks b + 1)) (timestamp b)) t)
  else Ok (false, t).

Definition unlock_bucket_ptr (caller_id : Z) (p : nat) (t : table) : res table :=
  _ ← assert_ (negb (caller_id =? kInvalidCallerId));
  b ← bkt t p;
  _ ← assert_ (is_locked (timestamp b));
  _ ← assert_ (locker_id b =? caller_id);
  _ ← assert_ (0 <? num_locks b);
  if num_locks b =? 1 then
    Ok (upd p (fun b => with_lock b kInvalidCallerId 0 (wrap 64 (timestamp b + 1))) t)
  else
    Ok (upd p (fun b => with_lock b (locker_id b)
                 (wrap kNumLocksBits (num_locks b - 1)) (timestamp b)) t).

(** ** [fixedtable_impl/item.h] *)

Definition set_item (p item_index : nat) (key : Z) (value : list byte) (t : table) :
    res table :=
  v ← read_at 0 (Z.to_nat (val_size t)) value;
  let t := upd p (with_key item_index key) t in
  Ok (upd p (with_val item_index v) t).

(** ** [fixedtable_impl/get.h]

    A reader takes no lock: other threads may run between its accesses.  [t0] is
    the table when the timestamp is first read, [t1] when the bucket is examined
    and the value copied, [t2] when the timestamp is read again.  The result is
    the return value with what was written to [*out_timestamp] and [out_value],
    [None] when the output was left as it was. *)
Definition get_at (caller_id key_hash key : Z) (t0 t1 t2 : table) :
    res (Result * option Z * option (list byte)) :=
  _ ← assert_ (is_primary t0);
  p ← get_bucket t0 (calc_bucket_index t0 key_hash);
  timestamp_start ← read_timestamp t0 p;
  b ← bkt t1 p;
  if is_unlocked timestamp_start then
    loc ← find_item_index t1 p key;
    match loc with
    | None =>
        ts ← read_timestamp t2 p;
        if negb (timestamp_start =? ts) then Ok (kLocked, Some timestamp_start, None)
        else Ok (kNotFound, Some timestamp_start, None)
    | Some (q, j) =>
        c ← bkt t1 q;
        v ← of_option OutOfBounds (val_arr c !! j);
        ts ← read_timestamp t2 p;
        if negb (timestamp_start =? ts) then Ok (kLocked, Some timestamp_start, Some v)
        else Ok (kSuccess, Some timestamp_start, Some v)
    end
  else if locker_id b =? caller_id then
    loc ← find_item_index t1 p key;
    ts ← read_timestamp t2 p;
    _ ← assert_ (timestamp_start =? ts);
    match loc with
    | None => Ok (kNotFound, None, None)
    | Some (q, j) =>
        c ← bkt t1 q;
        v ← of_option OutOfBounds (val_arr c !! j);
        Ok (kSuccess, Some timestamp_start, Some v)
    end
  else Ok (kLocked, None, None).

(** [get] when no other thread runs during the call. *)
Definition get (caller_id key_hash key : Z) (t : table) :
    res (Result * option Z * option (list byte)) :=
  get_at caller_id key_hash key t t t.

(** ** [fixedtable_impl/set.h], [set_spinlock.h], [del.h] *)

(** The slot of a key, or an empty slot for it. *)
Definition find_or_empty (p : nat) (key : Z) (t : table) :
    res (option (nat * nat) * table) :=
  loc ← find_item_index t p key;
  match loc with
  | Some qj => Ok (Some qj, t)
  | None => get_empty p t
  end.

Definition set (caller_id key_hash key : Z) (value : list byte) (t : table) :
    res (Result * table) :=
  p ← get_bucket t (calc_bucket_index t key_hash);
  b ← bkt t p;
  _ ← (if is_primary t then
         _ ← assert_ (is_locked (timestamp b));
         assert_ (locker_id b =? caller_id)
       else Ok tt);
  '(loc, t) ← find_or_empty p key t;
  match loc with
  | None =>
      t ← unlock_bucket_ptr caller_id p t;
      Ok (kInsufficientSpaceIndex, t)
  | Some (q, j) =>
      t ← set_item q j key value t;
      t ← (if is_primary t then unlock_bucket_ptr caller_id p t else Ok t);
      Ok (kSuccess, t)
  end.

(** The spin on the bucket lock ends at once when the lock is free or held by the
    caller; otherwise it waits for another thread, which is [Diverge] here. *)
Definition set_spinlock (caller_id key_hash key : Z) (value : list byte) (t : table) :
    res (Result * table) :=
  p ← get_bucket t (calc_bucket_index t key_hash);
  '(locked, t) ← lock_bucket_ptr caller_id p t;
  if negb locked then Err Diverge else
  '(loc, t) ← find_or_empty p key t;
  match loc with
  | None =>
      t ← unlock_bucket_ptr caller_id p t;
      Ok (kInsufficientSpaceIndex, t)
  | Some (q, j) =>
      t ← set_item q j key value t;
      t ← unlock_bucket_ptr caller_id p t;
      Ok (kSuccess, t)
  end.

Definition del (caller_id key_hash key : Z) (t : table) : res (Result * table) :=
  p ← get_bucket t (calc_bucket_index t key_hash);
  b ← bkt t p;
  _ ← (if is_primary t then
         _ ← assert_ (is_locked (timestamp b));
         assert_ (locker_id b =? caller_id)
       else Ok tt);
  loc ← find_item_index t p key;
  match loc with
  | None => Err AssertFail
  | Some (q, j) =>
      let t := upd q (with_key j kFtInvalidKey) t in
      t ← fill_hole q j t;
      t ← (if is_primary t then unlock_bucket_ptr caller_id p t else Ok t);
      Ok (kSuccess, t)
  end.

(** ** [fixedtable_impl/lock_bkt.h], [unlock_bkt.h], [lock_bkt_and_get.h],
    [lock_bkt_for_ins.h] *)

Definition lock_bucket_hash (caller_id key_hash : Z) (t : table) : res (Result * table) :=
  _ ← assert_ (is_primary t);
  p ← get_bucket t (calc_bucket_index t key_hash);
  '(ok, t) ← lock_bucket_ptr caller_id p t;
  Ok (if (ok : bool) then kSuccess else kLocked, t).

Definition unlock_bucket_hash (caller_id key_hash : Z) (t : table) : res (Result * table) :=
  _ ← assert_ (is_primary t);
  p ← get_bucket t (calc_bucket_index t key_hash);
  t ← unlock_bucket_ptr caller_id p t;
  Ok (kSuccess, t).

(** The outputs are [*out_timestamp] and [value]. *)
Definition lock_bkt_and_get (caller_id key_hash key : Z) (t : table) :
    res (Result * option Z * option (list byte) * table) :=
  _ ← assert_ (is_primary t);
  p ← get_bucket t (calc_bucket_index t key_hash);
  '(lock_success, t) ← lock_bucket_ptr caller_id p t;
  if (lock_success : bool) then
    loc ← find_item_index t p key;
    match loc with
    | Some (q, j) =>
        b ← bkt t p;
        c ← bkt t q;
        v ← of_option OutOfBounds (val_arr c !! j);
        Ok (kSuccess, Some (timestamp b), Some v, t)
    | None =>
        t ← unlock_bucket_ptr caller_id p t;
        Ok (kNotFound, None, None, t)
    end
  else Ok (kLocked, None, None, t).

Definition lock_bkt_for_ins (caller_id key_hash key : Z) (t : table) :
    res (Result * option Z * table) :=
  _ ← assert_ (is_primary t);
  p ← get_bucket t (calc_bucket_index t key_hash);
  '(lock_success, t) ← lock_bucket_ptr caller_id p t;
  if (lock_success : bool) then
    loc ← find_item_index t p key;
    match loc with
    | None =>
        b ← bkt t p;
        Ok (kSuccess, Some (timestamp b), t)
    | Some _ =>
        t ← unlock_bucket_ptr caller_id p t;
        Ok (kExists, None, t)
    end
  else Ok (kLocked, None, t).

(** ** [fixedtable_impl/init.h] *)

Definition reset_bucket (b : Bucket) : Bucket :=
  mkBucket kInvalidCallerId 0 (next_extra_bucket_index b) (Z.shiftl kTimestampCanary 61)
    (replicate kBucketCap kFtInvalidKey) (val_arr b).

(** The loop that links the extra buckets [e, e + 1, ...], [n] of them. *)
Fixpoint link_extra (n : nat) (e : Z) (t : table) : res table :=
  match n with
  | O => Ok t
  | S n =>
      q ← get_extra_bucket t e;
      link_extra n (e + 1) (upd q (with_next (e + 1)) t)
  end.

Definition reset (t : table) : res table :=
  let t := with_buckets t (map reset_bucket (buckets_ t)) in
  let t := with_fl t 0 (fl_head t) in
  if num_extra_buckets_ t =? 0 then Ok (with_fl t (fl_lock t) 0)
  else
    t ← link_extra (Z.to_nat (num_extra_buckets_ t - 1)) 1 t;
    q ← get_extra_bucket t (num_extra_buckets_ t);
    let t := upd q (with_next 0) t in
    Ok (with_fl t (fl_lock t) 1).

(** [static_cast<size_t>(static_cast<double>(n) * 0.1)] in binary64. *)
Definition double_of_Z (n : Z) : spec_float := binary_normalize 53 1024 n 0 false.
Definition double_tenth : spec_float := S754_finite false 7205759403792794 (-56).
Definition Z_of_double (f : spec_float) : Z :=
  match f with
  | S754_finite s m e =>
      let a := Z.shiftl (Zpos m) e in if s then - a else a
  | _ => 0
  end.
Definition extra_buckets_for (num_buckets : Z) : Z :=
  Z_of_double (SFmul 53 1024 (double_of_Z num_buckets) double_tenth).

Fixpoint log_num_buckets (fuel : nat) (num_buckets l : Z) : res Z :=
  match fuel with
  | O => Err Diverge
  | S fuel =>
      if Z.shiftl 1 l <? num_buckets then log_num_buckets fuel num_buckets (l + 1) else Ok l
  end.

Definition safe_cast_u32 (x : Z) : res Z :=
  _ ← assert_ ((0 <=? x) && (x <? 2 ^ 32)); Ok x.

(** A bucket of the zeroed memory [hrd_malloc_socket] returns. *)
Definition zero_bucket (val_size : Z) : Bucket :=
  mkBucket 0 0 0 0 (replicate kBucketCap 0)
    (replicate kBucketCap (replicate (Z.to_nat val_size) 0)).

(** The constructor.  The arguments are what it reads of the configuration; a
    failing allocation ends the process inside the allocator. *)
Definition make (item_count val_size bkt_shm_key : Z) (is_primary : bool) : res table :=
  _ ← assert_ (val_size mod 8 =? 0);
  _ ← assert_ ((0 <? bkt_shm_key) && (bkt_shm_key <? 1024 * 1024));
  let item_count := wrap 64 (item_count * 11) / 10 in
  let num_buckets := wrap 64 (item_count + Z.of_nat kBucketCap - 1) / Z.of_nat kBucketCap in
  let num_extra_buckets := extra_buckets_for num_buckets in
  _ ← assert_ (0 <? num_buckets);
  l ← log_num_buckets 64 num_buckets 0;
  let num_buckets := Z.shiftl 1 l in
  _ ← assert_ (l <=? 32);
  nb ← safe_cast_u32 num_buckets;
  mask ← safe_cast_u32 (num_buckets - 1);
  ne ← safe_cast_u32 num_extra_buckets;
  reset (mkTable is_primary val_size nb mask ne 0 0
           (replicate (Z.to_nat (wrap 32 (nb + ne))) (zero_bucket val_size))).

(** ** Occupancy counters ([fixedtable_impl/bucket.h]) *)

(** The numerator of [get_locked_bkt_fraction]. *)
Definition num_locked_buckets (t : table) : Z :=
  Z.of_nat (length (filter (fun b => is_locked (timestamp b) = true)
    (take (Z.to_nat (num_buckets_ t)) (buckets_ t)))).

(** The counters of [print_bucket_occupancy]:
    primary slots, extra slots, primary buckets, extra buckets in use. *)
Definition used_slots (b : Bucket) : Z :=
  Z.of_nat (length (filter (fun k => k <> kFtInvalidKey) (key_arr b))).
Definition bucket_occupancy (t : table) : Z * Z * Z * Z :=
  let step := fun '(ps, es, pb, eb) '(i, b) =>
    let n := used_slots b in
    let bkt_used := if 0 <? n then 1 else 0 in
    if Z.of_nat i <? num_buckets_ t then (ps + n, es, pb + bkt_used, eb)
    else (ps, es + n, pb, eb + bkt_used) in
  foldl step (0, 0, 0, 0) (imap pair (buckets_ t)).

End FixedTable.
