(* ===== verification/FixedTableInv.v ===== *)
(** * The MICA fixed-size table: invariant and abstract map

    [FixedTableInv] gives the representation invariant of the table of
    [FixedTable] (bucket chains that partition the bucket array together with the
    free list, unique keys per chain) and its abstraction, one finite map from
    keys to values per primary bucket.  Every operation preserves the invariant,
    terminates, and acts on the abstract maps as lookup, insert and delete. *)

From S2P Require Import Prelude Util FixedTable.
From Stdlib Require Import ZArith Lia Bool.
From stdpp Require Import base numbers list gmap.
#[local] Open Scope Z_scope.
Import FixedTable.

Module FixedTableInv.

(** ** Chains *)

Definition epos (t : table) (e : Z) : nat := Z.to_nat (num_buckets_ t - 1 + e).

(** [seg t e ps]: following the 1-based extra index [e] visits the positions
    [ps] and ends. *)
Inductive seg (t : table) : Z -> list nat -> Prop :=
| seg_nil : seg t 0 []
| seg_cons e b ps :
    1 <= e <= num_extra_buckets_ t ->
    buckets_ t !! epos t e = Some b ->
    seg t (next_extra_bucket_index b) ps ->
    seg t e (epos t e :: ps).

(** [path t ps]: the buckets at [ps] are linked in this order, and the last one
    ends its chain. *)
Definition path (t : table) (ps : list nat) : Prop :=
  exists p b l, ps = p :: l /\ buckets_ t !! p = Some b /\ seg t (next_extra_bucket_index b) l.

(** The chain behind a bucket, computed. *)
Fixpoint seg_of (fuel : nat) (t : table) (e : Z) : list nat :=
  match fuel with
  | O => []
  | S fuel =>
      if e =? 0 then [] else
      epos t e :: match buckets_ t !! epos t e with
                  | Some b => seg_of fuel t (next_extra_bucket_index b)
                  | None => []
                  end
  end.

Definition chain_of (t : table) (i : nat) : list nat :=
  i :: match buckets_ t !! i with
       | Some b => seg_of (length (buckets_ t)) t (next_extra_bucket_index b)
       | None => []
       end.

(** ** Contents *)

Definition slot_items (k : Z) (v : list byte) : list (Z * list byte) :=
  if k =? kFtInvalidKey then [] else [(k, v)].

Definition bkt_items (b : Bucket) : list (Z * list byte) :=
  zip (key_arr b) (val_arr b) ≫= fun kv => slot_items kv.1 kv.2.

Definition items_at (t : table) (p : nat) : list (Z * list byte) :=
  match buckets_ t !! p with Some b => bkt_items b | None => [] end.

Definition items (t : table) (ps : list nat) : list (Z * list byte) := ps ≫= items_at t.

(** The abstract map of primary bucket [i]. *)
Definition abs (t : table) (i : nat) : gmap Z (list byte) :=
  list_to_map (items t (chain_of t i)).

(** ** The invariant *)

Record shape := mkShape { chains : list (list nat); free : list nat }.

(** The configuration fields. *)
Record cfg_wf (t : table) : Prop := {
  cfg_nb : exists k, 0 <= k < 32 /\ num_buckets_ t = 2 ^ k;
  cfg_mask : num_buckets_mask_ t = num_buckets_ t - 1;
  cfg_ne : 0 <= num_extra_buckets_ t;
  cfg_sum : num_buckets_ t + num_extra_buckets_ t < 2 ^ 32;
  cfg_len : Z.of_nat (length (buckets_ t)) = num_buckets_ t + num_extra_buckets_ t;
  cfg_val : 0 <= val_size t < 2 ^ 64 /\ val_size t mod 8 = 0
}.

(** The links: the chains of the primary buckets and the free list partition the
    bucket array. *)
Record links_wf (t : table) (sh : shape) : Prop := {
  lk_lock : fl_lock t = 0;
  lk_len : Z.of_nat (length (chains sh)) = num_buckets_ t;
  lk_chain : forall i ps, chains sh !! i = Some ps -> path t ps /\ head ps = Some i;
  lk_free : seg t (fl_head t) (free sh);
  lk_perm : (chains sh ≫= id) ++ free sh ≡ₚ seq 0 (length (buckets_ t))
}.

(** The fields of a bucket other than its link. *)
Definition bkt_wf (vs : Z) (b : Bucket) : Prop :=
  length (key_arr b) = kBucketCap /\ length (val_arr b) = kBucketCap /\
  Forall (fun v => Z.of_nat (length v) = vs) (val_arr b).

Record contents_wf (t : table) (sh : shape) : Prop := {
  ct_bkt : Forall (bkt_wf (val_size t)) (buckets_ t);
  ct_free : forall p, p ∈ free sh -> items_at t p = [];
  ct_keys : forall i ps, chains sh !! i = Some ps -> NoDup (items t ps).*1
}.

(** The lock word of a bucket: an even timestamp means that nobody holds it. *)
Definition lock_wf (b : Bucket) : Prop :=
  u 64 (timestamp b) /\
  if is_locked (timestamp b)
  then u kCallerIdBits (locker_id b) /\ locker_id b <> kInvalidCallerId /\
       1 <= num_locks b <= kMaxNumLocks
  else locker_id b = kInvalidCallerId /\ num_locks b = 0.

Definition wf (t : table) (sh : shape) : Prop :=
  cfg_wf t /\ links_wf t sh /\ contents_wf t sh /\ Forall lock_wf (buckets_ t).

(** The invariant of the table. *)
Definition Inv (t : table) : Prop := exists sh, wf t sh.

(** What operations keep: the configuration. *)
Definition cfg (t : table) : bool * Z * Z * Z * Z :=
  (is_primary t, val_size t, num_buckets_ t, num_buckets_mask_ t, num_extra_buckets_ t).

(** A bucket without its link. *)
Definition core (b : Bucket) : Z * Z * Z * list Z * list (list byte) :=
  (locker_id b, num_locks b, timestamp b, key_arr b, val_arr b).

Definition lockp (b : Bucket) : Z * Z * Z := (locker_id b, num_locks b, timestamp b).

(** A change of the contents of chain [i]: the invariant holds afterwards, and
    neither the lock words nor another chain changed. *)
Record evolves (i : nat) (t : table) (sh : shape) (t' : table) (sh' : shape) : Prop := {
  ev_wf : wf t' sh';
  ev_cfg : cfg t' = cfg t;
  ev_lock : lockp <$> buckets_ t' = lockp <$> buckets_ t;
  ev_other : forall i' ps', i' <> i -> chains sh !! i' = Some ps' ->
    chains sh' !! i' = Some ps' /\ items t' ps' = items t ps'
}.

(** Both halves of a slot. *)
Definition set_slot (q j : nat) (k : Z) (v : list byte) (t : table) : table :=
  upd q (with_val j v) (upd q (with_key j k) t).

(** ** Pure versions of the loops *)

Fixpoint find_in (t : table) (key : Z) (ps : list nat) : option (nat * nat) :=
  match ps with
  | [] => None
  | p :: ps =>
      match buckets_ t !! p ≫= slot_of key with
      | Some j => Some (p, j)
      | None => find_in t key ps
      end
  end.

(** The first bucket of the path with an empty slot, or the last bucket. *)
Fixpoint empty_in (t : table) (p : nat) (l : list nat) : nat * option nat :=
  match buckets_ t !! p ≫= slot_of kFtInvalidKey with
  | Some j => (p, Some j)
  | None => match l with [] => (p, None) | q :: l => empty_in t q l end
  end.

(** ** Lemmas on configurations and updates *)

Lemma cfg_upd p f t : cfg (upd p f t) = cfg t.
Proof. done. Qed.

Lemma cfg_wf_ext t t' :
  cfg t' = cfg t -> length (buckets_ t') = length (buckets_ t) -> cfg_wf t -> cfg_wf t'.
Proof.
  unfold cfg. intros [= ? Hv Hn Hm He] Hl []. constructor; rewrite ?Hv, ?Hn, ?Hm, ?He, ?Hl; done.
Qed.

Lemma epos_ext t t' e : num_buckets_ t' = num_buckets_ t -> epos t' e = epos t e.
Proof. unfold epos. by intros ->. Qed.

Lemma upd_lookup p f t b :
  buckets_ t !! p = Some b -> buckets_ (upd p f t) !! p = Some (f b).
Proof. intros H. simpl. rewrite list_lookup_alter_eq, H. done. Qed.

Lemma upd_lookup_ne p q f t : q <> p -> buckets_ (upd p f t) !! q = buckets_ t !! q.
Proof. intros H. simpl. by rewrite list_lookup_alter_ne. Qed.

Lemma upd_length p f t : length (buckets_ (upd p f t)) = length (buckets_ t).
Proof. apply length_alter. Qed.

Lemma upd_as_insert p f t b :
  buckets_ t !! p = Some b -> upd p f t = with_buckets t (<[p := f b]> (buckets_ t)).
Proof.
  intros H. unfold upd. f_equal. apply list_eq. intros q.
  destruct (decide (q = p)) as [->|Hne].
  - rewrite list_lookup_alter_eq, H, list_lookup_insert_eq; [done|]. by eapply lookup_lt_Some.
  - by rewrite list_lookup_alter_ne, list_lookup_insert_ne.
Qed.

Lemma core_upd_next p e t : core <$> buckets_ (upd p (with_next e) t) = core <$> buckets_ t.
Proof.
  simpl. apply list_eq. intros q. rewrite !list_lookup_fmap.
  destruct (decide (q = p)) as [->|Hne].
  - rewrite list_lookup_alter_eq. by destruct (buckets_ t !! p).
  - by rewrite list_lookup_alter_ne.
Qed.

(** ** Segments and paths *)

Lemma seg_functional t e l : seg t e l -> forall l', seg t e l' -> l' = l.
Proof.
  induction 1 as [|e b ps He Hb Hs IH]; intros l' H'; inversion H'; subst; try lia; try done.
  f_equal. apply IH. congruence.
Qed.

Lemma seg_cons_at t e p b l :
  epos t e = p -> 1 <= e <= num_extra_buckets_ t -> buckets_ t !! p = Some b ->
  seg t (next_extra_bucket_index b) l -> seg t e (p :: l).
Proof. intros <-. apply seg_cons. Qed.

Lemma seg_cons_inv t e p l :
  seg t e (p :: l) ->
  1 <= e <= num_extra_buckets_ t /\ epos t e = p /\
  exists b, buckets_ t !! p = Some b /\ seg t (next_extra_bucket_index b) l.
Proof. intros H. inversion H; subst. eauto. Qed.

Lemma seg_of_seg t e l fuel : seg t e l -> (length l <= fuel)%nat -> seg_of fuel t e = l.
Proof.
  intros H. revert fuel. induction H as [|e b ps He Hb Hs IH]; intros fuel Hf; simpl in *.
  { by destruct fuel. }
  destruct fuel as [|fuel]; [lia|]. simpl. rewrite (proj2 (Z.eqb_neq e 0)) by lia.
  rewrite Hb, IH by lia. done.
Qed.

Lemma seg_bounds t e l :
  cfg_wf t -> seg t e l ->
  Forall (fun p => Z.to_nat (num_buckets_ t) <= p < length (buckets_ t))%nat l.
Proof.
  intros Hc. induction 1 as [|e b ps He Hb Hs IH]; constructor; [|done].
  apply lookup_lt_Some in Hb. unfold epos in *. split; [|done]. lia.
Qed.

(** A segment only depends on the links of the buckets it visits. *)
Lemma seg_frame t t' e l :
  cfg t' = cfg t ->
  (forall p, p ∈ l -> next_extra_bucket_index <$> buckets_ t' !! p =
                      next_extra_bucket_index <$> buckets_ t !! p) ->
  seg t e l -> seg t' e l.
Proof.
  unfold cfg. intros [= _ _ Hn _ He] Hf H. revert Hf.
  induction H as [|e b ps Hr Hb Hs IH]; intros Hf; [constructor|].
  assert (is_Some (buckets_ t' !! epos t e)) as [b' Hb'].
  { specialize (Hf (epos t e)). rewrite Hb in Hf. simpl in Hf.
    destruct (buckets_ t' !! epos t e); [eauto|]. by specialize (Hf ltac:(set_solver)). }
  pose proof (Hf (epos t e) ltac:(set_solver)) as Hnx. rewrite Hb, Hb' in Hnx.
  rewrite <- (epos_ext t t' e Hn) in Hb' |- *.
  apply (seg_cons t' e b'); [lia|done|].
  replace (next_extra_bucket_index b') with (next_extra_bucket_index b) by (simpl in Hnx; congruence).
  apply IH. set_solver.
Qed.

Lemma path_frame t t' ps :
  cfg t' = cfg t ->
  (forall p, p ∈ ps -> next_extra_bucket_index <$> buckets_ t' !! p =
                       next_extra_bucket_index <$> buckets_ t !! p) ->
  path t ps -> path t' ps.
Proof.
  intros Hc Hf (p & b & l & -> & Hb & Hs).
  pose proof (Hf p ltac:(set_solver)) as Hp. rewrite Hb in Hp.
  destruct (buckets_ t' !! p) as [b'|] eqn:Hb'; [|done]. injection Hp as Hp.
  exists p, b', l. split; [done|]. split; [done|]. rewrite Hp.
  eapply seg_frame; [done| |done]. set_solver.
Qed.

Lemma get_extra_bucket_ok t e :
  cfg_wf t -> 1 <= e <= num_extra_buckets_ t -> get_extra_bucket t e = Ok (epos t e).
Proof.
  intros [[k [Hk Hn]] _ ? Hs _ _] He. unfold get_extra_bucket, assert_, wrap.
  pose proof (pow2_pos k ltac:(lia)).
  rewrite Z.mod_small by lia. guards. done.
Qed.

(** One step along a path. *)
Lemma path_step t p l :
  cfg_wf t -> path t (p :: l) ->
  exists b, buckets_ t !! p = Some b /\ bkt t p = Ok b /\
    match l with
    | [] => has_extra_bucket b = false /\ next_extra_bucket_index b = 0
    | q :: _ => has_extra_bucket b = true /\
        get_extra_bucket t (next_extra_bucket_index b) = Ok q /\
        1 <= next_extra_bucket_index b <= num_extra_buckets_ t /\
        q = epos t (next_extra_bucket_index b) /\ path t l
    end.
Proof.
  intros Hc (p' & b & l' & [= <- <-] & Hb & Hs). exists b. split; [done|].
  split; [unfold bkt; by rewrite Hb|]. unfold has_extra_bucket.
  inversion Hs as [Hz|e b' ps He Hb' Hs' Hz]; subst; [done|].
  rewrite (proj2 (Z.eqb_neq _ 0)) by lia. rewrite get_extra_bucket_ok by done.
  split_and!; try done; try lia. exists (epos t (next_extra_bucket_index b)), b', ps. done.
Qed.

Lemma path_one t p b :
  buckets_ t !! p = Some b -> next_extra_bucket_index b = 0 -> path t [p].
Proof. intros Hb Hz. exists p, b, []. rewrite Hz. split_and!; try done. constructor. Qed.

Lemma path_suffix t l1 q l2 :
  cfg_wf t -> path t (l1 ++ q :: l2) -> path t (q :: l2).
Proof.
  intros Hc. induction l1 as [|p l1 IH]; simpl; [done|]. intros H.
  destruct (path_step t p _ Hc H) as (b & _ & _ & Hr).
  destruct (l1 ++ q :: l2) eqn:E; [by destruct l1|]. apply IH. by destruct Hr as (_ & _ & _ & _ & ?).
Qed.

Lemma path_lookup t ps p : cfg_wf t -> path t ps -> p ∈ ps -> is_Some (buckets_ t !! p).
Proof.
  intros Hc H Hp. apply list_elem_of_split in Hp as (l1 & l2 & ->).
  apply path_suffix in H; [|done]. destruct (path_step _ _ _ Hc H) as (b & Hb & _). eauto.
Qed.

(** ** The loops compute on the path they follow *)

Lemma find_loop_path fuel t key p l :
  cfg_wf t -> path t (p :: l) -> (S (length l) <= fuel)%nat ->
  find_loop fuel t key p = Ok (find_in t key (p :: l)).
Proof.
  intros Hc. revert p l. induction fuel as [|fuel IH]; intros p l H Hf; [simpl in *; lia|].
  destruct (path_step t p l Hc H) as (b & Hb & Hbk & Hr). simpl. rewrite Hbk, Hb. simpl.
  destruct (slot_of key b); [done|]. destruct l as [|q l].
  - destruct Hr as [-> _]. done.
  - destruct Hr as (-> & -> & _ & _ & Hp). simpl. apply (IH q l Hp). simpl in *. lia.
Qed.

Lemma last_two_path fuel t l a c :
  cfg_wf t -> path t (l ++ [a; c]) -> (length l < fuel)%nat ->
  last_two fuel t (hd a l) = Ok (a, c).
Proof.
  intros Hc. revert l. induction fuel as [|fuel IH]; intros l H Hf; [lia|].
  destruct l as [|p l]; simpl in H.
  - destruct (path_step t a [c] Hc H) as (b & _ & Hbk & _ & Hg & _ & _ & Hp).
    destruct (path_step t c [] Hc Hp) as (b' & _ & Hbk' & Hn & _).
    simpl. rewrite Hbk. simpl. rewrite Hg. simpl. rewrite Hbk'. simpl. by rewrite Hn.
  - destruct (path_step t p _ Hc H) as (b & _ & Hbk & Hr).
    assert (l ++ [a; c] = hd a l :: tl (l ++ [a; c])) as E by (destruct l; done).
    rewrite E in Hr. destruct Hr as (_ & Hg & _ & _ & Hp). rewrite <- E in Hp.
    assert (exists q r, tl (l ++ [a; c]) = q :: r) as (q & r & E') by (destruct l as [|? [|]]; simpl; eauto).
    rewrite E, E' in Hp.
    destruct (path_step t _ _ Hc Hp) as (b' & _ & Hbk' & Hn & _).
    simpl. rewrite Hbk. simpl. rewrite Hg. simpl. rewrite Hbk'. simpl. rewrite Hn.
    apply IH; [|simpl in *; lia]. by rewrite E, E'.
Qed.

Lemma empty_loop_path fuel t p l :
  cfg_wf t -> path t (p :: l) -> (S (length l) <= fuel)%nat ->
  empty_loop fuel t p = Ok (empty_in t p l).
Proof.
  intros Hc. revert p l. induction fuel as [|fuel IH]; intros p l H Hf; [simpl in *; lia|].
  destruct (path_step t p l Hc H) as (b & Hb & Hbk & Hr). destruct l as [|q l]; simpl.
  - rewrite Hbk, Hb. simpl. destruct (slot_of _ b); [done|]. by destruct Hr as [-> _].
  - rewrite Hbk, Hb. simpl. destruct (slot_of _ b); [done|].
    destruct Hr as (-> & -> & _ & _ & Hp). simpl. apply (IH q l Hp). simpl in *. lia.
Qed.

Lemma slot_of_Some key b j :
  slot_of key b = Some j -> key_arr b !! j = Some key.
Proof.
  unfold slot_of. intros H. apply fmap_Some in H as ([j' k] & H & ->).
  apply list_find_Some in H as (H & -> & _). done.
Qed.

Lemma slot_of_None key b : slot_of key b = None -> key ∉ key_arr b.
Proof.
  unfold slot_of. intros H Hin. destruct (list_find _ _) as [[]|] eqn:E; [done|].
  apply list_find_None in E. rewrite Forall_forall in E. by apply (E key).
Qed.

Lemma find_in_Some t key ps q j :
  find_in t key ps = Some (q, j) ->
  q ∈ ps /\ exists b, buckets_ t !! q = Some b /\ key_arr b !! j = Some key.
Proof.
  induction ps as [|p ps IH]; simpl; [done|].
  destruct (buckets_ t !! p) as [b|] eqn:Hb; simpl.
  - destruct (slot_of key b) as [j'|] eqn:Hs.
    + intros [= <- <-]. split; [set_solver|]. eauto using slot_of_Some.
    + intros H. apply IH in H as [? ?]. split; [set_solver|done].
  - intros H. apply IH in H as [? ?]. split; [set_solver|done].
Qed.

Lemma find_in_None t key ps :
  find_in t key ps = None -> forall p b, p ∈ ps -> buckets_ t !! p = Some b -> key ∉ key_arr b.
Proof.
  induction ps as [|p ps IH]; simpl; [set_solver|]. intros H q b Hq Hb.
  destruct (buckets_ t !! p ≫= slot_of key) eqn:E; [done|].
  apply elem_of_cons in Hq as [->|Hq]; [|by eapply IH].
  rewrite Hb in E. simpl in E. by apply slot_of_None.
Qed.

Lemma empty_in_Some t p l q j :
  empty_in t p l = (q, Some j) ->
  q ∈ p :: l /\ exists b, buckets_ t !! q = Some b /\ key_arr b !! j = Some kFtInvalidKey.
Proof.
  revert p. induction l as [|q' l IH]; intros p; simpl;
    destruct (buckets_ t !! p) as [b|] eqn:Hb; simpl;
    try destruct (slot_of _ b) as [j'|] eqn:Hs; intros H; simplify_eq;
    try (split; [set_solver|]; by eauto using slot_of_Some);
    apply IH in H as [? ?]; (split; [set_solver|done]).
Qed.

Lemma empty_in_None t p l q :
  empty_in t p l = (q, None) -> exists l0, p :: l = l0 ++ [q].
Proof.
  revert p. induction l as [|q' l IH]; intros p; simpl;
    destruct (buckets_ t !! p ≫= slot_of kFtInvalidKey); intros H; simplify_eq.
  - by exists [].
  - apply IH in H as [l0 ->]. by exists (p :: l0).
Qed.

(** ** Items of buckets and chains *)

Lemma with_key_id j k b : key_arr b !! j = Some k -> with_key j k b = b.
Proof. intros H. destruct b; unfold with_key; simpl in *. by rewrite list_insert_id. Qed.

Lemma with_val_id j v b : val_arr b !! j = Some v -> with_val j v b = b.
Proof. intros H. destruct b; unfold with_val; simpl in *. by rewrite list_insert_id. Qed.

Lemma upd_upd p f g t : upd p g (upd p f t) = upd p (fun b => g (f b)) t.
Proof.
  unfold upd, with_buckets. simpl. f_equal. apply list_eq. intros q.
  destruct (decide (q = p)) as [->|]; [|by rewrite !list_lookup_alter_ne].
  rewrite !list_lookup_alter_eq. by destruct (buckets_ t !! p).
Qed.

Lemma upd_ext p f g t b : buckets_ t !! p = Some b -> f b = g b -> upd p f t = upd p g t.
Proof. intros Hb He. by rewrite !(upd_as_insert _ _ _ b Hb), He. Qed.

(** Changing only the key of a slot. *)
Lemma upd_key_slot q j k v t b :
  buckets_ t !! q = Some b -> val_arr b !! j = Some v ->
  upd q (with_key j k) t = set_slot q j k v t.
Proof.
  intros Hb Hv. unfold set_slot. rewrite upd_upd. eapply upd_ext; [done|].
  rewrite with_val_id; done.
Qed.

Lemma bkt_items_focus b j k v :
  key_arr b !! j = Some k -> val_arr b !! j = Some v ->
  exists R, bkt_items b ≡ₚ slot_items k v ++ R /\
    forall k' v', bkt_items (with_val j v' (with_key j k' b)) ≡ₚ slot_items k' v' ++ R.
Proof.
  intros Hk Hv.
  destruct (bind_insert_focus (fun kv => slot_items kv.1 kv.2) (zip (key_arr b) (val_arr b)) j (k, v))
    as (R & H1 & H2).
  { rewrite lookup_zip_with, Hk, Hv. done. }
  exists R. split; [done|]. intros k' v'. rewrite <- (H2 (k', v')).
  unfold bkt_items, with_val, with_key; simpl. by rewrite insert_zip_with.
Qed.

Lemma items_ext t t' ps :
  (forall p, p ∈ ps -> items_at t' p = items_at t p) -> items t' ps = items t ps.
Proof.
  unfold items. induction ps as [|p ps IH]; [done|]. intros H. rewrite !bind_cons, H, IH by set_solver.
  done.
Qed.

Lemma items_app t l1 l2 : items t (l1 ++ l2) = items t l1 ++ items t l2.
Proof. apply bind_app. Qed.

Lemma items_at_upd_ne t q f p : p <> q -> items_at (upd q f t) p = items_at t p.
Proof. intros. unfold items_at. by rewrite upd_lookup_ne. Qed.

Lemma items_at_upd t q f b : buckets_ t !! q = Some b -> items_at (upd q f t) q = bkt_items (f b).
Proof. intros. unfold items_at. by rewrite (upd_lookup _ _ _ b). Qed.

(** One slot of a chain: what the chain holds besides it does not change with
    it. *)
Lemma items_focus t ps q b j k v :
  NoDup ps -> q ∈ ps -> buckets_ t !! q = Some b ->
  key_arr b !! j = Some k -> val_arr b !! j = Some v ->
  exists R, items t ps ≡ₚ slot_items k v ++ R /\
    forall k' v', items (set_slot q j k' v' t) ps ≡ₚ slot_items k' v' ++ R.
Proof.
  intros Hnd Hq Hb Hk Hv. destruct (bkt_items_focus b j k v Hk Hv) as (R & H1 & H2).
  apply list_elem_of_split in Hq as (l1 & l2 & ->).
  apply NoDup_app in Hnd as (_ & Hd1 & Hd2). apply NoDup_cons in Hd2 as [Hd2 _].
  exists (R ++ items t l1 ++ items t l2). split; [|intros k' v'].
  - change (l1 ++ q :: l2) with (l1 ++ [q] ++ l2). rewrite !items_app.
    assert (items t [q] = bkt_items b) as ->
      by (unfold items; simpl; unfold items_at; by rewrite Hb, app_nil_r).
    rewrite H1. solve_Permutation.
  - change (l1 ++ q :: l2) with (l1 ++ [q] ++ l2). rewrite !items_app.
    assert (forall l, q ∉ l -> items (set_slot q j k' v' t) l = items t l) as Hx.
    { intros l Hl. apply items_ext. intros p Hp. unfold set_slot.
      rewrite !items_at_upd_ne by set_solver. done. }
    rewrite (Hx l1) by set_solver. rewrite (Hx l2) by done.
    assert (items (set_slot q j k' v' t) [q] = bkt_items (with_val j v' (with_key j k' b))) as ->.
    { unfold items, set_slot; simpl.
      rewrite (items_at_upd _ _ _ (with_key j k' b)), app_nil_r; [done|]. by apply upd_lookup. }
    rewrite H2. solve_Permutation.
Qed.

Lemma items_not_in t q j k v ps : q ∉ ps -> items (set_slot q j k v t) ps = items t ps.
Proof. intros H. apply items_ext. intros p Hp. unfold set_slot. rewrite !items_at_upd_ne by set_solver. done. Qed.

Lemma items_core t t' ps : core <$> buckets_ t' = core <$> buckets_ t -> items t' ps = items t ps.
Proof.
  intros H. apply items_ext. intros p _. unfold items_at.
  apply (f_equal (lookup p)) in H. rewrite !list_lookup_fmap in H.
  destruct (buckets_ t' !! p), (buckets_ t !! p); try done.
  unfold core in H. injection H as ? ? ? Hk Hv. unfold bkt_items. by rewrite Hk, Hv.
Qed.

Lemma items_elem t ps k v :
  (k, v) ∈ items t ps <->
  k <> kFtInvalidKey /\ exists p b j, p ∈ ps /\ buckets_ t !! p = Some b /\
    key_arr b !! j = Some k /\ val_arr b !! j = Some v.
Proof.
  unfold items. rewrite list_elem_of_bind. split.
  - intros (p & Hin & Hp). unfold items_at in Hin. destruct (buckets_ t !! p) as [b|] eqn:Hb; [|set_solver].
    unfold bkt_items in Hin. apply list_elem_of_bind in Hin as ([k0 v0] & Hin & Hz). simpl in Hin.
    unfold slot_items in Hin. case_in Hin; [set_solver|]. apply list_elem_of_singleton in Hin. simplify_eq.
    bool_prop. split; [done|]. apply list_elem_of_lookup in Hz as [j Hz].
    rewrite lookup_zip_with in Hz. destruct (key_arr b !! j) eqn:Hk, (val_arr b !! j) eqn:Hv; simplify_eq/=.
    eauto 10.
  - intros (Hne & p & b & j & Hp & Hb & Hk & Hv). exists p. split; [|done].
    unfold items_at. rewrite Hb. unfold bkt_items. apply list_elem_of_bind. exists (k, v). simpl.
    split.
    + unfold slot_items. rewrite (proj2 (Z.eqb_neq _ _) Hne). set_solver.
    + apply list_elem_of_lookup. exists j. rewrite lookup_zip_with, Hk, Hv. done.
Qed.

(** ** The partition into chains *)

Section Partition.
Context (t : table) (sh : shape).
Hypothesis (Hl : links_wf t sh).

Lemma partition_nodup : NoDup ((chains sh ≫= id) ++ free sh).
Proof. rewrite (lk_perm t sh Hl). apply NoDup_seq. Qed.

Lemma chain_focus i ps :
  chains sh !! i = Some ps ->
  exists R, (chains sh ≫= id) ≡ₚ ps ++ R /\
    (forall ps', (<[i := ps']> (chains sh) ≫= id) ≡ₚ ps' ++ R) /\
    (forall j qs, j <> i -> chains sh !! j = Some qs -> qs ⊆ R).
Proof.
  intros Hi. destruct (bind_insert_focus id _ i ps Hi) as (R & H1 & H2).
  exists R. split_and!; [done|done|]. intros j qs Hne Hj p Hp.
  assert (p ∈ (<[i := []]> (chains sh) ≫= id)) as Hin.
  { apply list_elem_of_bind. exists qs. split; [done|].
    apply list_elem_of_lookup. exists j. by rewrite list_lookup_insert_ne. }
  rewrite (H2 []) in Hin. done.
Qed.

Lemma chain_nodup i ps : chains sh !! i = Some ps -> NoDup ps.
Proof.
  intros Hi. destruct (chain_focus i ps Hi) as (R & HR & _).
  pose proof partition_nodup as Hn. rewrite HR in Hn.
  by apply NoDup_app in Hn as [[? _]%NoDup_app _].
Qed.

Lemma chain_not_free i ps p : chains sh !! i = Some ps -> p ∈ ps -> p ∉ free sh.
Proof.
  intros Hi Hp. destruct (chain_focus i ps Hi) as (R & HR & _).
  pose proof partition_nodup as Hn. rewrite HR in Hn.
  apply NoDup_app in Hn as (_ & Hn & _). apply Hn. set_solver.
Qed.

Lemma chain_disjoint i j ps qs p :
  chains sh !! i = Some ps -> chains sh !! j = Some qs -> j <> i -> p ∈ ps -> p ∉ qs.
Proof.
  intros Hi Hj Hne Hp Hq. destruct (chain_focus i ps Hi) as (R & HR & _ & Hd).
  pose proof partition_nodup as Hn. rewrite HR in Hn.
  apply NoDup_app in Hn as [(_ & Hn & _)%NoDup_app _]. apply (Hn p Hp), (Hd j qs); done.
Qed.

Lemma chain_length i ps : chains sh !! i = Some ps -> (length ps <= length (buckets_ t))%nat.
Proof.
  intros Hi. destruct (chain_focus i ps Hi) as (R & HR & _).
  pose proof (Permutation_length (lk_perm t sh Hl)) as Hlen.
  rewrite length_app, HR, length_app, length_seq in Hlen. lia.
Qed.

Lemma free_length : (length (free sh) <= length (buckets_ t))%nat.
Proof.
  pose proof (Permutation_length (lk_perm t sh Hl)) as Hlen.
  rewrite length_app, length_seq in Hlen. lia.
Qed.

Lemma chain_cons i ps : chains sh !! i = Some ps -> exists l, ps = i :: l /\ path t (i :: l).
Proof.
  intros Hi. destruct (lk_chain t sh Hl i ps Hi) as [Hp Hh].
  destruct ps as [|p l]; [done|]. injection Hh as ->. eauto.
Qed.

Lemma chain_of_shape i ps : chains sh !! i = Some ps -> chain_of t i = ps.
Proof.
  intros Hi. pose proof (chain_length i ps Hi). destruct (chain_cons i ps Hi) as (l & -> & Hp).
  destruct Hp as (p & b & l' & [= <- <-] & Hb & Hs). unfold chain_of. rewrite Hb. f_equal.
  apply seg_of_seg; [done|]. simpl in *. lia.
Qed.

Lemma abs_shape i ps : chains sh !! i = Some ps -> abs t i = list_to_map (items t ps).
Proof. intros Hi. unfold abs. by rewrite (chain_of_shape i ps Hi). Qed.

End Partition.

(** The links do not depend on the contents. *)
Lemma links_ext t t' sh :
  cfg t' = cfg t -> fl_lock t' = fl_lock t -> fl_head t' = fl_head t ->
  next_extra_bucket_index <$> buckets_ t' = next_extra_bucket_index <$> buckets_ t ->
  links_wf t sh -> links_wf t' sh.
Proof.
  intros Hc Hk Hh Hn [].
  assert (forall p, next_extra_bucket_index <$> buckets_ t' !! p =
                    next_extra_bucket_index <$> buckets_ t !! p) as Hp.
  { intros p. rewrite <- !list_lookup_fmap. by rewrite Hn. }
  assert (length (buckets_ t') = length (buckets_ t)) as Hlen.
  { rewrite <- !(length_fmap next_extra_bucket_index). by rewrite Hn. }
  constructor.
  - by rewrite Hk.
  - unfold cfg in Hc. congruence.
  - intros i ps Hi. destruct (lk_chain0 i ps Hi). split; [|done]. by eapply path_frame.
  - rewrite Hh. by eapply seg_frame.
  - by rewrite Hlen.
Qed.

(** An update of a bucket that keeps its link keeps the links. *)
Lemma next_upd p f t b :
  buckets_ t !! p = Some b -> next_extra_bucket_index (f b) = next_extra_bucket_index b ->
  next_extra_bucket_index <$> buckets_ (upd p f t) = next_extra_bucket_index <$> buckets_ t.
Proof.
  intros Hb Hf. apply list_eq. intros q. rewrite !list_lookup_fmap.
  destruct (decide (q = p)) as [->|Hne]; [|by rewrite upd_lookup_ne].
  rewrite (upd_lookup _ _ _ b Hb), Hb. simpl. by rewrite Hf.
Qed.

Lemma Forall_upd (P : Bucket -> Prop) p f t b :
  buckets_ t !! p = Some b -> Forall P (buckets_ t) -> (P b -> P (f b)) ->
  Forall P (buckets_ (upd p f t)).
Proof.
  intros Hb HP Hf. rewrite (upd_as_insert _ _ _ b Hb). simpl. apply Forall_insert; [done|].
  apply Hf. eapply Forall_lookup_1; done.
Qed.

Lemma set_slot_upd q j k v t b :
  buckets_ t !! q = Some b ->
  set_slot q j k v t = upd q (fun b => with_val j v (with_key j k b)) t.
Proof. intros _. unfold set_slot. apply upd_upd. Qed.

(** Rewriting a slot of chain [i]: the invariant survives when the keys of the
    chain stay distinct, and no other chain changes. *)
Lemma set_slot_wf t sh i ps q b j k v :
  wf t sh -> chains sh !! i = Some ps -> q ∈ ps -> buckets_ t !! q = Some b ->
  Z.of_nat (length v) = val_size t ->
  NoDup (items (set_slot q j k v t) ps).*1 ->
  wf (set_slot q j k v t) sh /\
  (forall i' ps', i' <> i -> chains sh !! i' = Some ps' ->
     items (set_slot q j k v t) ps' = items t ps').
Proof.
  intros (Hc & Hl & Hct & Hlk) Hi Hq Hb Hv Hnd.
  assert (forall i' ps', i' <> i -> chains sh !! i' = Some ps' ->
     items (set_slot q j k v t) ps' = items t ps') as Hother.
  { intros i' ps' Hne Hi'. apply items_not_in. by apply (chain_disjoint t sh Hl i i' ps). }
  split; [|done]. rewrite (set_slot_upd _ _ _ _ _ b Hb) in *.
  split_and!.
  - eapply cfg_wf_ext; [| |exact Hc]; [done|]. apply upd_length.
  - eapply links_ext; [..|exact Hl]; try done. by eapply next_upd.
  - constructor.
    + eapply Forall_upd; [done|apply Hct|]. intros (H1 & H2 & H3).
      split_and!; simpl; rewrite ?length_insert; try done. by apply Forall_insert.
    + intros p Hp. rewrite items_at_upd_ne; [by apply Hct|]. intros ->.
      by eapply (chain_not_free t sh Hl i ps q).
    + intros i' ps' Hi'. destruct (decide (i' = i)) as [->|Hne]; [by simplify_eq|].
      rewrite (Hother i' ps') by done. by eapply Hct.
  - eapply Forall_upd; [done|exact Hlk|]. done.
Qed.

(** ** Taking and returning extra buckets *)

(** The end of a path can be replaced. *)
Lemma path_replace_tail t t' l0 q r r' :
  cfg_wf t -> cfg t' = cfg t ->
  (forall p, p ∈ l0 -> next_extra_bucket_index <$> buckets_ t' !! p =
                       next_extra_bucket_index <$> buckets_ t !! p) ->
  path t (l0 ++ q :: r) -> path t' (q :: r') -> path t' (l0 ++ q :: r').
Proof.
  intros Hc Hcfg Hf H H'. induction l0 as [|p l0 IH]; simpl in *; [done|].
  destruct (path_step t p _ Hc H) as (b & Hb & _ & Hr).
  assert (exists x l, l0 ++ q :: r = x :: l /\ head (l0 ++ q :: r') = Some x) as (x & l & E & E')
    by (destruct l0; simpl; eauto).
  rewrite E in Hr. destruct Hr as (_ & _ & Hn & -> & Hp). rewrite <- E in Hp.
  specialize (IH ltac:(set_solver) Hp).
  pose proof (Hf p ltac:(set_solver)) as Hnp. rewrite Hb in Hnp.
  destruct (buckets_ t' !! p) as [b'|] eqn:Hb'; [|done]. injection Hnp as Hnp.
  exists p, b', (l0 ++ q :: r'). split_and!; [done|done|]. rewrite Hnp.
  destruct IH as (q1 & b1 & l1 & E1 & Hb1 & Hs1). rewrite E1 in *. injection E' as ->.
  unfold cfg in Hcfg. injection Hcfg as _ _ Hnb _ Hne.
  rewrite <- (epos_ext t t') in Hb1 |- * by done. apply (seg_cons _ _ b1); [lia|done|done].
Qed.

Lemma with_fl_id t : with_fl t (fl_lock t) (fl_head t) = t.
Proof. by destruct t. Qed.

Lemma head_app_cons {A} (l0 : list A) q r r' : head (l0 ++ q :: r) = head (l0 ++ q :: r').
Proof. by destruct l0. Qed.

(** Moving one position between a chain and the free list keeps the rest of the
    links, when the links of all other buckets are kept. *)
Lemma links_move t t' sh i l0 q r r' fr' :
  cfg_wf t -> links_wf t sh -> chains sh !! i = Some (l0 ++ q :: r) ->
  cfg t' = cfg t -> length (buckets_ t') = length (buckets_ t) -> fl_lock t' = 0 ->
  r ++ free sh ≡ₚ r' ++ fr' ->
  (forall p, p <> q -> p ∉ r -> p ∉ r' -> next_extra_bucket_index <$> buckets_ t' !! p =
                                next_extra_bucket_index <$> buckets_ t !! p) ->
  (forall j ps p, chains sh !! j = Some ps -> p ∈ ps -> p ∉ r') ->
  path t' (q :: r') -> seg t' (fl_head t') fr' ->
  links_wf t' (mkShape (<[i := l0 ++ q :: r']> (chains sh)) fr').
Proof.
  intros Hc Hl Hi Hcfg Hlen Hlock Hperm Hfr Hr' Hpath Hseg.
  pose proof (chain_nodup t sh Hl i _ Hi) as Hnd. apply NoDup_app in Hnd as (_ & Hnd & _).
  constructor; simpl.
  - done.
  - rewrite length_insert. unfold cfg in Hcfg. rewrite (lk_len t sh Hl). congruence.
  - intros j ps Hj. destruct (decide (j = i)) as [->|Hne].
    + rewrite list_lookup_insert_eq in Hj by (by eapply lookup_lt_Some). injection Hj as <-.
      destruct (lk_chain t sh Hl i _ Hi) as [Hp Hh]. split; [|by rewrite (head_app_cons _ _ _ r)].
      eapply path_replace_tail; [exact Hc|done| |exact Hp|done].
      intros p Hp0. apply Hfr; [|intros Hin|intros Hin].
      * intros ->. apply (Hnd q Hp0). set_solver.
      * apply (Hnd p Hp0). set_solver.
      * eapply (Hr' i _ p Hi); set_solver.
    + rewrite list_lookup_insert_ne in Hj by done.
      destruct (lk_chain t sh Hl j ps Hj) as [Hp Hh]. split; [|done].
      eapply path_frame; [done| |exact Hp]. intros p Hp0.
      assert (p ∉ l0 ++ q :: r) as Hx.
      { intros Hin. by apply (chain_disjoint t sh Hl i j _ _ p Hi Hj Hne Hin). }
      apply Hfr; [set_solver|set_solver|]. by eapply Hr'.
  - done.
  - rewrite Hlen, <- (lk_perm t sh Hl).
    destruct (chain_focus sh i _ Hi) as (R & H1 & H2 & _). rewrite H1, H2.
    rewrite <- !app_assoc. simpl. rewrite (Permutation_app_comm R fr').
    rewrite (Permutation_app_comm R (free sh)). rewrite !(app_assoc r'), !(app_assoc r).
    by rewrite Hperm.
Qed.

Lemma alloc_empty t sh i l0 q :
  cfg_wf t -> links_wf t sh -> chains sh !! i = Some (l0 ++ [q]) -> free sh = [] ->
  alloc_extra_bucket q t = Ok (false, t).
Proof.
  intros Hc Hl Hi Hf. destruct (lk_chain t sh Hl i _ Hi) as [Hp _].
  apply path_suffix in Hp; [|done]. destruct (path_step t q [] Hc Hp) as (b & _ & Hbk & Hn & _).
  pose proof (lk_free t sh Hl) as Hs. rewrite Hf in Hs. inversion Hs as [Hh|].
  unfold alloc_extra_bucket. rewrite Hbk. simpl. rewrite Hn. simpl.
  unfold lock_extra_bucket_free_list. rewrite (lk_lock t sh Hl). simpl. rewrite <- Hh. simpl.
  do 2 f_equal. rewrite <- (with_fl_id t) at 2. unfold with_fl. simpl.
  by rewrite (lk_lock t sh Hl), <- Hh.
Qed.

(** Changing the links of two buckets. *)
Lemma relink t p q x y bp bq l h :
  p <> q -> buckets_ t !! p = Some bp -> buckets_ t !! q = Some bq ->
  let t' := with_fl (upd p (with_next x) (upd q (with_next y) t)) l h in
  buckets_ t' !! p = Some (with_next x bp) /\ buckets_ t' !! q = Some (with_next y bq) /\
  (forall r, r <> p -> r <> q -> buckets_ t' !! r = buckets_ t !! r) /\
  core <$> buckets_ t' = core <$> buckets_ t /\
  length (buckets_ t') = length (buckets_ t).
Proof.
  intros Hne Hp Hq t'. unfold t'. change (buckets_ (with_fl ?x _ _)) with (buckets_ x).
  split_and!.
  - apply (upd_lookup p). by rewrite upd_lookup_ne.
  - rewrite upd_lookup_ne by done. by apply upd_lookup.
  - intros. by rewrite !upd_lookup_ne.
  - by rewrite !core_upd_next.
  - by rewrite !upd_length.
Qed.

(** The head of the free list and the rest of it. *)
Lemma free_head t sh e fr :
  links_wf t sh -> free sh = e :: fr ->
  1 <= fl_head t <= num_extra_buckets_ t /\ epos t (fl_head t) = e /\ (e ∉ fr) /\
  exists be, buckets_ t !! e = Some be /\ seg t (next_extra_bucket_index be) fr.
Proof.
  intros Hl Hf. pose proof (lk_free t sh Hl) as Hs. rewrite Hf in Hs.
  apply seg_cons_inv in Hs as (Hx & Hxe & be & Hbe & Hs'). split_and!; eauto; try lia.
  pose proof (partition_nodup t sh Hl) as Hnd. rewrite Hf in Hnd.
  by apply NoDup_app in Hnd as (_ & _ & [Hnd _]%NoDup_cons).
Qed.

Lemma alloc_some t sh i l0 q e fr :
  cfg_wf t -> links_wf t sh -> chains sh !! i = Some (l0 ++ [q]) -> free sh = e :: fr ->
  exists t', alloc_extra_bucket q t = Ok (true, t') /\ cfg t' = cfg t /\
    core <$> buckets_ t' = core <$> buckets_ t /\
    links_wf t' (mkShape (<[i := l0 ++ [q; e]]> (chains sh)) fr) /\
    (exists b, bkt t' q = Ok b /\ get_extra_bucket t' (next_extra_bucket_index b) = Ok e).
Proof.
  intros Hc Hl Hi Hf. destruct (lk_chain t sh Hl i _ Hi) as [Hp _].
  apply path_suffix in Hp; [|done].
  destruct (path_step t q [] Hc Hp) as (b & Hb & Hbk & Hn & Hz).
  destruct (free_head t sh e fr Hl Hf) as (Hx & Hxe & Hefr & be & Hbe & Hs').
  assert (forall p, p ∈ e :: fr -> p ∉ l0 ++ [q]) as Hdis.
  { intros p Hin Hin'. apply (chain_not_free t sh Hl i _ p Hi); [done|]. by rewrite Hf. }
  assert (q <> e) as Hqe by (intros ->; apply (Hdis e); set_solver).
  destruct (relink t q e (fl_head t) 0 b be 0 (next_extra_bucket_index be) Hqe Hb Hbe)
    as (Hq' & He' & Ho & Hcore & Hlen).
  eexists. split_and!; [|idtac|exact Hcore|..].
  - unfold alloc_extra_bucket. rewrite Hbk. simpl. rewrite Hn. simpl.
    unfold lock_extra_bucket_free_list. rewrite (lk_lock t sh Hl). simpl.
    rewrite (proj2 (Z.eqb_neq _ 0)) by lia.
    change (get_extra_bucket (with_fl t 1 (fl_head t))) with (get_extra_bucket t).
    rewrite get_extra_bucket_ok, Hxe by done. simpl. unfold bkt. simpl. rewrite Hbe. done.
  - done.
  - eapply (links_move t _ sh i l0 q [] [e] fr); try done.
    + simpl. by rewrite Hf.
    + intros p Hpq _ Hpe. rewrite Ho; set_solver.
    + intros j ps p Hj Hps Hpe. apply (chain_not_free t sh Hl j ps p Hj Hps). rewrite Hf. set_solver.
    + eexists q, _, [e]. split_and!; [done|exact Hq'|]. simpl.
      eapply seg_cons_at; [exact Hxe|exact Hx|exact He'|constructor].
    + eapply (seg_frame t); [done| |exact Hs']. intros p Hpf. rewrite Ho; [done| |set_solver].
      intros ->. apply (Hdis q); set_solver.
  - eexists. split; [unfold bkt; by rewrite Hq'|]. simpl.
    change (get_extra_bucket (with_fl ?a _ _)) with (get_extra_bucket t).
    by rewrite get_extra_bucket_ok, Hxe.
Qed.

Lemma free_last t sh i l0 q c bc :
  cfg_wf t -> links_wf t sh -> chains sh !! i = Some (l0 ++ [q; c]) ->
  buckets_ t !! c = Some bc -> Forall (fun k => k = kFtInvalidKey) (key_arr bc) ->
  exists t', free_extra_bucket q t = Ok t' /\ cfg t' = cfg t /\
    core <$> buckets_ t' = core <$> buckets_ t /\
    links_wf t' (mkShape (<[i := l0 ++ [q]]> (chains sh)) (c :: free sh)).
Proof.
  intros Hc Hl Hi Hbc Hempty. destruct (lk_chain t sh Hl i _ Hi) as [Hp _].
  pose proof (chain_nodup t sh Hl i _ Hi) as Hnd. apply NoDup_app in Hnd as (_ & _ & Hnd).
  apply path_suffix in Hp; [|done].
  destruct (path_step t q [c] Hc Hp) as (b & Hb & Hbk & Hn & Hg & Hx & Hcx & Hp').
  destruct (path_step t c [] Hc Hp') as (bc' & Hbc' & Hbkc & _ & Hz).
  rewrite Hbc in Hbc'. injection Hbc' as <-. set (x := next_extra_bucket_index b) in *.
  assert (c <> q) as Hqc by (apply NoDup_cons in Hnd as [Hnd _]; set_solver).
  destruct (relink t c q (fl_head t) 0 bc b 0 x Hqc Hbc Hb) as (Hc' & Hq' & Ho & Hcore & Hlen).
  eexists. split_and!; [|idtac|exact Hcore|].
  - unfold free_extra_bucket. rewrite Hbk. simpl. rewrite Hn. simpl. fold x. rewrite Hg. simpl.
    rewrite Hbkc. simpl. rewrite Hz. simpl.
    assert (forallb (fun k => k =? kFtInvalidKey) (key_arr bc) = true) as ->.
    { apply forallb_forall. intros k Hk%list_elem_of_In. rewrite Forall_forall in Hempty.
      apply Z.eqb_eq. by apply Hempty. }
    simpl. unfold lock_extra_bucket_free_list. simpl. rewrite (lk_lock t sh Hl). simpl. done.
  - done.
  - eapply (links_move t _ sh i l0 q [c] [] (c :: free sh)); try done.
    + intros p Hpq Hpc _. rewrite Ho; set_solver.
    + set_solver.
    + eexists q, _, []. split_and!; [done|exact Hq'|]. constructor.
    + eapply (seg_cons_at _ x); [done|exact Hx|exact Hc'|]. simpl.
      eapply (seg_frame t); [done| |apply (lk_free t sh Hl)]. intros p Hpf.
      rewrite Ho; [done|intros ->|intros ->]; eapply (chain_not_free t sh Hl i _ _ Hi); try done; set_solver.
Qed.

(** ** Contents under changes of the links *)

Lemma evolves_refl i t sh : wf t sh -> evolves i t sh t sh.
Proof. intros H. by constructor. Qed.

Lemma evolves_trans i t1 sh1 t2 sh2 t3 sh3 :
  evolves i t1 sh1 t2 sh2 -> evolves i t2 sh2 t3 sh3 -> evolves i t1 sh1 t3 sh3.
Proof.
  intros [W1 C1 L1 O1] [W2 C2 L2 O2]. constructor; [done|congruence|congruence|].
  intros i' ps' Hne Hi. destruct (O1 i' ps' Hne Hi) as [Hi2 E1].
  destruct (O2 i' ps' Hne Hi2) as [Hi3 E2]. split; [done|congruence].
Qed.

Lemma core_lookup t t' p b' :
  core <$> buckets_ t' = core <$> buckets_ t -> buckets_ t' !! p = Some b' ->
  exists b, buckets_ t !! p = Some b /\ core b' = core b.
Proof.
  intros H Hb. apply (f_equal (lookup p)) in H. rewrite !list_lookup_fmap, Hb in H.
  destruct (buckets_ t !! p) as [b|]; [|done]. simpl in H. eexists. split; [done|congruence].
Qed.

Lemma core_Forall (P : Bucket -> Prop) t t' :
  (forall b b', core b' = core b -> P b -> P b') ->
  core <$> buckets_ t' = core <$> buckets_ t -> Forall P (buckets_ t) -> Forall P (buckets_ t').
Proof.
  intros HP H Hf. apply Forall_lookup. intros p b' Hb'.
  destruct (core_lookup t t' p b' H Hb') as (b & Hb & Hc).
  eapply HP; [exact Hc|]. by eapply Forall_lookup_1.
Qed.

Lemma core_fmap {B} (f : Bucket -> B) t t' :
  (forall b b', core b' = core b -> f b' = f b) ->
  core <$> buckets_ t' = core <$> buckets_ t -> f <$> buckets_ t' = f <$> buckets_ t.
Proof.
  intros Hf H. apply list_eq. intros p. apply (f_equal (lookup p)) in H.
  rewrite !list_lookup_fmap in *.
  destruct (buckets_ t' !! p), (buckets_ t !! p); simpl in *; try done.
  f_equal. apply Hf. congruence.
Qed.

Lemma items_at_core t t' p :
  core <$> buckets_ t' = core <$> buckets_ t -> items_at t' p = items_at t p.
Proof.
  intros H. pose proof (items_core t t' [p] H) as E. unfold items in E. simpl in E.
  by rewrite !app_nil_r in E.
Qed.

(** A step that only moves an empty extra bucket between chain [i] and the free
    list. *)
Lemma relink_evolves i t sh t' ps ps' fr' :
  wf t sh -> cfg t' = cfg t -> core <$> buckets_ t' = core <$> buckets_ t ->
  chains sh !! i = Some ps -> items t ps' = items t ps ->
  (forall p, p ∈ fr' -> items_at t p = []) ->
  links_wf t' (mkShape (<[i := ps']> (chains sh)) fr') ->
  evolves i t sh t' (mkShape (<[i := ps']> (chains sh)) fr').
Proof.
  intros (Hc & Hl & Hct & Hlk) Hcfg Hcore Hi Hit Hfr Hl'.
  assert (length (buckets_ t') = length (buckets_ t)) as Hlen
    by (rewrite <- !(length_fmap core); congruence).
  assert (forall i' qs, i' <> i -> <[i := ps']> (chains sh) !! i' = Some qs ->
            chains sh !! i' = Some qs) as Ho.
  { intros i' qs Hne H. by rewrite list_lookup_insert_ne in H. }
  constructor; [split_and!|done|..].
  - by eapply cfg_wf_ext.
  - done.
  - constructor; simpl.
    + replace (val_size t') with (val_size t) by (unfold cfg in Hcfg; congruence).
      eapply core_Forall; [|exact Hcore|apply Hct].
      intros b b' E. unfold core in E. injection E as _ _ _ E1 E2. unfold bkt_wf. by rewrite E1, E2.
    + intros p Hp. rewrite (items_at_core t t') by done. by apply Hfr.
    + intros i' qs Hi'. rewrite (items_core t t') by done. destruct (decide (i' = i)) as [->|Hne].
      * rewrite list_lookup_insert_eq in Hi' by (by eapply lookup_lt_Some). injection Hi' as <-.
        rewrite Hit. by eapply Hct.
      * eapply Hct. by eapply Ho.
  - eapply core_Forall; [|exact Hcore|exact Hlk].
    intros b b' E. unfold core in E. injection E as E1 E2 E3 _ _. unfold lock_wf. by rewrite E1, E2, E3.
  - eapply core_fmap; [|exact Hcore].
    intros b b' E. unfold core in E. injection E as E1 E2 E3 _ _. unfold lockp. by rewrite E1, E2, E3.
  - intros i' qs Hne Hi'. simpl. rewrite list_lookup_insert_ne by done. split; [done|].
    by apply items_core.
Qed.

(** A slot update as a step of chain [i]. *)
Lemma set_slot_evolves t sh i ps q b j k v :
  wf t sh -> chains sh !! i = Some ps -> q ∈ ps -> buckets_ t !! q = Some b ->
  Z.of_nat (length v) = val_size t ->
  NoDup (items (set_slot q j k v t) ps).*1 ->
  evolves i t sh (set_slot q j k v t) sh.
Proof.
  intros Hw Hi Hq Hb Hv Hnd. destruct (set_slot_wf t sh i ps q b j k v) as [Hw' Ho]; try done.
  constructor; [done|done| |].
  - rewrite (set_slot_upd _ _ _ _ _ b Hb). apply list_eq. intros p. rewrite !list_lookup_fmap.
    destruct (decide (p = q)) as [->|]; [|by rewrite upd_lookup_ne].
    rewrite (upd_lookup _ _ _ b Hb), Hb. done.
  - intros i' ps' Hne Hi'. split; [done|]. by eapply Ho.
Qed.

(** A bucket without items has only invalid keys, and conversely. *)
Lemma bkt_items_nil vs b :
  bkt_wf vs b -> bkt_items b = [] <-> Forall (fun k => k = kFtInvalidKey) (key_arr b).
Proof.
  intros (Hk & Hv & _). unfold bkt_items. split.
  - intros H. apply Forall_lookup. intros j k Hj.
    destruct (lookup_lt_is_Some_2 (val_arr b) j) as [v Hvj].
    { apply lookup_lt_Some in Hj. lia. }
    destruct (decide (k = kFtInvalidKey)) as [|Hne]; [done|].
    assert ((k, v) ∈ ([] : list (Z * list byte))) as Hin; [|set_solver].
    rewrite <- H. apply list_elem_of_bind. exists (k, v). simpl. split.
    + unfold slot_items. rewrite (proj2 (Z.eqb_neq _ _) Hne). set_solver.
    + apply list_elem_of_lookup. exists j. rewrite lookup_zip_with, Hj, Hvj. done.
  - clear Hk Hv. intros Hf. generalize (val_arr b).
    induction Hf as [|k ks -> Hks IH]; intros [|v vs']; try done.
    simpl. rewrite IH. done.
Qed.

Lemma bkt_at t sh p b : wf t sh -> buckets_ t !! p = Some b -> bkt_wf (val_size t) b.
Proof. intros (_ & _ & Hct & _) Hb. eapply Forall_lookup_1; [apply (ct_bkt _ _ Hct)|done]. Qed.

Lemma val_at vs b j k :
  bkt_wf vs b -> key_arr b !! j = Some k ->
  exists v, val_arr b !! j = Some v /\ Z.of_nat (length v) = vs.
Proof.
  intros (Hk & Hv & Hf) Hj. apply lookup_lt_Some in Hj.
  destruct (lookup_lt_is_Some_2 (val_arr b) j) as [v Hvj]; [lia|].
  exists v. split; [done|]. by eapply (Forall_lookup_1 _ _ _ _ Hf).
Qed.

End FixedTableInv.
