(* ===== verification/FixedTableOps.v ===== *)
(** * The MICA fixed-size table: correctness of the operations

    Each operation of [FixedTable], run on a table that satisfies the invariant of
    [FixedTableInv], returns (no assertion fails and no loop runs out of fuel) and
    acts on the abstract maps and on the lock words as its name says. *)

From S2P Require Import Prelude Util FixedTable FixedTableInv.
From Stdlib Require Import ZArith Lia Bool.
From stdpp Require Import base numbers list gmap.
#[local] Open Scope Z_scope.
Import FixedTable FixedTableInv.

Module FixedTableOps.

(** ** Abstract buckets *)

(** The primary bucket of a key hash. *)
Definition bidx (t : table) (key_hash : Z) : nat := Z.to_nat (calc_bucket_index t key_hash).
(** What a client of the table observes of a primary bucket. *)
Record abucket := mkA { a_map : gmap Z (list byte); a_ts : Z; a_locker : Z; a_cnt : Z }.

Definition view (t : table) (i : nat) : abucket :=
  match buckets_ t !! i with
  | Some b => mkA (abs t i) (timestamp b) (locker_id b) (num_locks b)
  | None => mkA ∅ 0 0 0
  end.

(** [t'] is [t] with the abstract bucket [i] replaced by [a]. *)
Definition view_upd (i : nat) (a : abucket) (t t' : table) : Prop :=
  view t' i = a /\ cfg t' = cfg t /\
  forall i', (i' < Z.to_nat (num_buckets_ t))%nat -> i' <> i -> view t' i' = view t i'.

Definition a_held (caller : Z) (a : abucket) : Prop :=
  is_locked (a_ts a) = true /\ a_locker a = caller.

(** Specification of acquiring and releasing a bucket lock. *)
Definition a_lock (caller : Z) (a : abucket) : option abucket :=
  if is_unlocked (a_ts a) then Some (mkA (a_map a) (a_ts a + 1) caller 1)
  else if a_locker a =? caller then Some (mkA (a_map a) (a_ts a) caller (a_cnt a + 1))
  else None.

Definition a_unlock (a : abucket) : abucket :=
  if a_cnt a =? 1 then mkA (a_map a) (wrap 64 (a_ts a + 1)) kInvalidCallerId 0
  else mkA (a_map a) (a_ts a) (a_locker a) (a_cnt a - 1).

Definition a_put (k : Z) (v : list byte) (a : abucket) : abucket :=
  mkA (<[k := v]> (a_map a)) (a_ts a) (a_locker a) (a_cnt a).
Definition a_del (k : Z) (a : abucket) : abucket :=
  mkA (delete k (a_map a)) (a_ts a) (a_locker a) (a_cnt a).

(** Specification of [get]: an unlocked bucket, or one the caller holds, is
    searched; a bucket somebody else holds is refused. *)
Definition a_get (caller key : Z) (a : abucket) : Result * option Z * option (list byte) :=
  if is_unlocked (a_ts a) then
    match a_map a !! key with
    | Some v => (kSuccess, Some (a_ts a), Some v)
    | None => (kNotFound, Some (a_ts a), None)
    end
  else if a_locker a =? caller then
    match a_map a !! key with
    | Some v => (kSuccess, Some (a_ts a), Some v)
    | None => (kNotFound, None, None)
    end
  else (kLocked, None, None).

(** Specification of the two locking reads: the lock is kept exactly when the
    key is present (for a read) or absent (for an insert). *)
Definition a_lock_get (caller key : Z) (a : abucket) :
    Result * option Z * option (list byte) * abucket :=
  match a_lock caller a with
  | None => (kLocked, None, None, a)
  | Some a' =>
      match a_map a !! key with
      | Some v => (kSuccess, Some (a_ts a'), Some v, a')
      | None => (kNotFound, None, None, a_unlock a')
      end
  end.

Definition a_lock_ins (caller key : Z) (a : abucket) : Result * option Z * abucket :=
  match a_lock caller a with
  | None => (kLocked, None, a)
  | Some a' =>
      match a_map a !! key with
      | None => (kSuccess, Some (a_ts a'), a')
      | Some _ => (kExists, None, a_unlock a')
      end
  end.

(** A caller identifier a client may use. *)
Definition caller_wf (caller : Z) : Prop := 0 <= caller < kInvalidCallerId.

(** The value an operation stores from a client's buffer. *)
Definition stored (t : table) (value : list byte) : list byte :=
  take (Z.to_nat (val_size t)) value.

(** ** Loops of [bucket.h] on a well-formed table *)

Lemma find_item_index_ok t sh i ps key :
  wf t sh -> chains sh !! i = Some ps ->
  find_item_index t i key = Ok (find_in t key ps).
Proof.
  intros (Hc & Hl & _) Hi. pose proof (chain_length t sh Hl i ps Hi).
  destruct (chain_cons t sh Hl i ps Hi) as (l & -> & Hp).
  apply find_loop_path; done.
Qed.

(** The free list's buckets hold nothing. *)
Lemma free_items t sh p : wf t sh -> p ∈ free sh -> items_at t p = [].
Proof. intros (_ & _ & Hct & _) Hp. by apply Hct. Qed.

Lemma get_empty_ok t sh i ps :
  wf t sh -> chains sh !! i = Some ps ->
  (exists q j t' sh' ps', get_empty i t = Ok (Some (q, j), t') /\ evolves i t sh t' sh' /\
     chains sh' !! i = Some ps' /\ q ∈ ps' /\ items t' ps' = items t ps /\
     exists b, buckets_ t' !! q = Some b /\ key_arr b !! j = Some kFtInvalidKey) \/
  (get_empty i t = Ok (None, t) /\ free sh = []).
Proof.
  intros Hw Hi. pose proof Hw as (Hc & Hl & Hct & _).
  pose proof (chain_length t sh Hl i ps Hi) as Hlen.
  destruct (chain_cons t sh Hl i ps Hi) as (l & -> & Hp).
  unfold get_empty. rewrite (empty_loop_path _ t i l Hc Hp) by done. simpl.
  destruct (empty_in t i l) as [q [j|]] eqn:E.
  - left. apply empty_in_Some in E as (Hq & b & Hb & Hk).
    exists q, j, t, sh, (i :: l). split_and!; eauto using evolves_refl.
  - apply empty_in_None in E as (l0 & E). rewrite E in *.
    destruct (free sh) as [|e fr] eqn:Hf.
    { right. rewrite (alloc_empty t sh i l0 q) by done. done. }
    left. destruct (alloc_some t sh i l0 q e fr Hc Hl Hi Hf)
      as (t' & -> & Hcfg & Hcore & Hl' & b & Hbk & Hg). simpl. rewrite Hbk. simpl. rewrite Hg. simpl.
    assert (items_at t e = []) as He by (apply (free_items t sh e Hw); rewrite Hf; set_solver).
    assert (items t (l0 ++ [q; e]) = items t (l0 ++ [q])) as Hit.
    { change (l0 ++ [q; e]) with (l0 ++ ([q] ++ [e])). rewrite app_assoc, items_app.
      unfold items at 2. simpl. by rewrite He, !app_nil_r. }
    assert (evolves i t sh t' (mkShape (<[i:=l0 ++ [q; e]]> (chains sh)) fr)) as Hev.
    { eapply relink_evolves; try done. intros p Hpf. apply (free_items t sh p Hw). rewrite Hf. set_solver. }
    exists e, 0%nat, t', (mkShape (<[i:=l0 ++ [q; e]]> (chains sh)) fr), (l0 ++ [q; e]). split_and!; try done.
    + simpl. apply list_lookup_insert_eq. by eapply lookup_lt_Some.
    + set_solver.
    + change (items_at t i ++ items t l) with (items t (i :: l)).
      by rewrite (items_core t t'), Hit, E by done.
    + assert (is_Some (buckets_ t' !! e)) as [be Hbe].
      { eapply path_lookup; [apply Hev|eapply (lk_chain _ _ Hl' i)|]; simpl.
        - apply list_lookup_insert_eq. by eapply lookup_lt_Some.
        - set_solver. }
      exists be. split; [done|]. pose proof (bkt_at _ _ _ _ (ev_wf _ _ _ _ _ Hev) Hbe) as Hbw.
      assert (bkt_items be = []) as Hnil.
      { rewrite <- (items_at_core t t') in He by done. unfold items_at in He. by rewrite Hbe in He. }
      apply (bkt_items_nil _ _ Hbw) in Hnil. destruct Hbw as (Hk & _).
      destruct (key_arr be) as [|k ks]; [done|]. by inversion Hnil; subst.
Qed.

(** ** [fill_hole] *)

Lemma scan_last_spec ks n :
  match scan_last ks n None with
  | (None, _) => Forall (fun k => k = kFtInvalidKey) ks
  | (Some m, last) => exists ks1 k ks2, ks = ks1 ++ k :: ks2 /\ m = (n + length ks1)%nat /\
      Forall (fun k => k = kFtInvalidKey) ks1 /\ k <> kFtInvalidKey /\
      (last = true -> Forall (fun k => k = kFtInvalidKey) ks2)
  end.
Proof.
  assert (forall ks n m, scan_last ks n (Some m) =
            (Some m, forallb (fun k => k =? kFtInvalidKey) ks)) as Hs.
  { induction ks0 as [|k ks0 IH]; intros n0 m; [done|]. cbn -[kFtInvalidKey].
    destruct (k =? kFtInvalidKey); [apply IH|done]. }
  revert n. induction ks as [|k ks IH]; intros n; [constructor|].
  cbn -[kFtInvalidKey]. destruct (Z.eqb_spec k kFtInvalidKey) as [->|Hk]; simpl negb.
  - specialize (IH (S n)). cbn beta iota.
    destruct (scan_last ks (S n) None) as [[m|] last]; [|by constructor].
    destruct IH as (ks1 & k & ks2 & -> & -> & Hf & Hne & Hl).
    exists (kFtInvalidKey :: ks1), k, ks2. split_and!; simpl; try done; try lia. by constructor.
  - cbn beta iota. rewrite Hs. exists [], k, ks. split_and!; simpl; try done; try lia.
    intros H. apply Forall_forall. intros x Hx%list_elem_of_In.
    rewrite forallb_forall in H. by apply Z.eqb_eq, H.
Qed.

Lemma upd_comm p q f g t : p <> q -> upd p f (upd q g t) = upd q g (upd p f t).
Proof.
  intros Hne. unfold upd, with_buckets. simpl. f_equal. apply list_eq. intros r.
  destruct (decide (r = p)) as [->|]; [|destruct (decide (r = q)) as [->|]].
  - rewrite list_lookup_alter_eq, !list_lookup_alter_ne, list_lookup_alter_eq by done. done.
  - rewrite list_lookup_alter_ne, !list_lookup_alter_eq, list_lookup_alter_ne by done. done.
  - by rewrite !list_lookup_alter_ne.
Qed.

Lemma val_roundup t : cfg_wf t -> (val_size t =? roundup 8 (val_size t)) = true.
Proof.
  intros Hc. destruct (cfg_val t Hc) as [Hv Hm]. apply Z.eqb_eq.
  apply Z.mod_divide in Hm as [z Hz]; [|lia].
  change 8 with (2 ^ 3). rewrite roundup_div by lia.
  change (2 ^ 3) with 8. rewrite Hz, Z.add_comm, Z.div_add by lia. done.
Qed.

Lemma slot_items_invalid v : slot_items kFtInvalidKey v = [].
Proof. done. Qed.

Lemma slot_items_valid k v : k <> kFtInvalidKey -> slot_items k v = [(k, v)].
Proof. intros H. unfold slot_items. by rewrite (proj2 (Z.eqb_neq _ _) H). Qed.

(** Clearing a slot removes its item from the chain. *)
Lemma clear_slot t sh i ps q b j k v :
  wf t sh -> chains sh !! i = Some ps -> q ∈ ps -> buckets_ t !! q = Some b ->
  key_arr b !! j = Some k -> val_arr b !! j = Some v -> k <> kFtInvalidKey ->
  Z.of_nat (length v) = val_size t ->
  let t' := set_slot q j kFtInvalidKey v t in
  evolves i t sh t' sh /\ items t ps ≡ₚ (k, v) :: items t' ps.
Proof.
  intros Hw Hi Hq Hb Hk Hv Hne Hlen t'. pose proof Hw as (_ & Hl & Hct & _).
  pose proof (chain_nodup t sh Hl i ps Hi) as Hnd.
  destruct (items_focus t ps q b j k v Hnd Hq Hb Hk Hv) as (R & H1 & H2).
  rewrite slot_items_valid in H1 by done. specialize (H2 kFtInvalidKey v).
  rewrite slot_items_invalid in H2. simpl in H1, H2. fold t' in H2.
  split; [|by rewrite H1, H2].
  eapply set_slot_evolves; try done. fold t'. rewrite H2.
  pose proof (ct_keys t sh Hct i ps Hi) as Hkd. rewrite H1 in Hkd. simpl in Hkd.
  by apply NoDup_cons in Hkd as [_ ?].
Qed.

(** Filling an empty slot adds an item to the chain. *)
Lemma put_slot t sh i ps q b j k v :
  wf t sh -> chains sh !! i = Some ps -> q ∈ ps -> buckets_ t !! q = Some b ->
  key_arr b !! j = Some kFtInvalidKey -> k <> kFtInvalidKey ->
  Z.of_nat (length v) = val_size t -> k ∉ (items t ps).*1 ->
  let t' := set_slot q j k v t in
  evolves i t sh t' sh /\ items t' ps ≡ₚ (k, v) :: items t ps.
Proof.
  intros Hw Hi Hq Hb Hk Hne Hlen Hnew t'. pose proof Hw as (_ & Hl & Hct & _).
  pose proof (chain_nodup t sh Hl i ps Hi) as Hnd.
  destruct (val_at _ _ _ _ (bkt_at t sh q b Hw Hb) Hk) as (v0 & Hv0 & _).
  destruct (items_focus t ps q b j _ v0 Hnd Hq Hb Hk Hv0) as (R & H1 & H2).
  rewrite slot_items_invalid in H1. specialize (H2 k v).
  rewrite slot_items_valid in H2 by done. simpl in H1, H2. fold t' in H2.
  split; [|by rewrite H1, H2].
  eapply set_slot_evolves; try done. fold t'. rewrite H2. simpl. apply NoDup_cons. rewrite <- H1.
  split; [done|]. by eapply Hct.
Qed.

(** Replacing the value of an item. *)
Lemma replace_slot t sh i ps q b j k v0 v :
  wf t sh -> chains sh !! i = Some ps -> q ∈ ps -> buckets_ t !! q = Some b ->
  key_arr b !! j = Some k -> val_arr b !! j = Some v0 -> k <> kFtInvalidKey ->
  Z.of_nat (length v) = val_size t ->
  let t' := set_slot q j k v t in
  evolves i t sh t' sh /\
  exists R, items t ps ≡ₚ (k, v0) :: R /\ items t' ps ≡ₚ (k, v) :: R.
Proof.
  intros Hw Hi Hq Hb Hk Hv Hne Hlen t'. pose proof Hw as (_ & Hl & Hct & _).
  pose proof (chain_nodup t sh Hl i ps Hi) as Hnd.
  destruct (items_focus t ps q b j k v0 Hnd Hq Hb Hk Hv) as (R & H1 & H2).
  rewrite slot_items_valid in H1 by done. specialize (H2 k v).
  rewrite slot_items_valid in H2 by done. simpl in H1, H2. fold t' in H2.
  split; [|by exists R].
  eapply set_slot_evolves; try done. fold t'. rewrite H2. simpl.
  pose proof (ct_keys t sh Hct i ps Hi) as Hkd. by rewrite H1 in Hkd.
Qed.

(** The three slot writes of [fill_hole], as a step of the chain. *)
Lemma move_slot t sh i ps q b j c bc m k v :
  wf t sh -> chains sh !! i = Some ps -> q ∈ ps -> c ∈ ps -> q <> c ->
  buckets_ t !! q = Some b -> key_arr b !! j = Some kFtInvalidKey ->
  buckets_ t !! c = Some bc -> key_arr bc !! m = Some k -> val_arr bc !! m = Some v ->
  k <> kFtInvalidKey ->
  let t' := upd c (with_key m kFtInvalidKey) (set_slot q j k v t) in
  evolves i t sh t' sh /\ items t' ps ≡ₚ items t ps.
Proof.
  intros Hw Hi Hq Hcin Hne Hb Hk Hbc Hkc Hvc Hkne t'.
  destruct (val_at _ _ _ _ (bkt_at t sh c bc Hw Hbc) Hkc) as (v1 & Hv' & Hlen).
  rewrite Hvc in Hv'. injection Hv' as <-.
  set (t1 := set_slot c m kFtInvalidKey v t).
  assert (t' = set_slot q j k v t1) as Et.
  { unfold t', t1, set_slot. rewrite !upd_upd, upd_comm by done. f_equal.
    eapply upd_ext; [exact Hbc|]. by rewrite (with_val_id m v). }
  destruct (clear_slot t sh i ps c bc m k v) as [Hev1 Hp1]; try done. fold t1 in Hev1, Hp1.
  assert (buckets_ t1 !! q = Some b) as Hb1
    by (unfold t1, set_slot; by rewrite !upd_lookup_ne).
  pose proof (ev_wf _ _ _ _ _ Hev1) as Hw1.
  destruct (put_slot t1 sh i ps q b j k v) as [Hev2 Hp2]; try done.
  - intros Hin. pose proof Hw as (_ & _ & Hct & _).
    pose proof (ct_keys t sh Hct i ps Hi) as Hkd. rewrite Hp1 in Hkd. simpl in Hkd.
    by apply NoDup_cons in Hkd as [? _].
  - rewrite Et. split; [by eapply evolves_trans|]. by rewrite Hp2, Hp1.
Qed.

(** Releasing an empty bucket at the end of a chain. *)
Lemma free_step t sh i l0 a c bc :
  wf t sh -> chains sh !! i = Some (l0 ++ [a; c]) -> buckets_ t !! c = Some bc ->
  Forall (fun k => k = kFtInvalidKey) (key_arr bc) ->
  exists t' sh', free_extra_bucket a t = Ok t' /\ evolves i t sh t' sh' /\
    chains sh' !! i = Some (l0 ++ [a]) /\ items t' (l0 ++ [a]) = items t (l0 ++ [a; c]) /\
    core <$> buckets_ t' = core <$> buckets_ t.
Proof.
  intros Hw Hi Hbc Hempty. pose proof Hw as (Hc & Hl & _).
  destruct (free_last t sh i l0 a c bc Hc Hl Hi Hbc Hempty) as (t' & Hfree & Hcfg & Hcore & Hl').
  assert (items_at t c = []) as Hnil.
  { unfold items_at. rewrite Hbc. by apply (bkt_items_nil _ _ (bkt_at t sh c bc Hw Hbc)). }
  assert (items t (l0 ++ [a]) = items t (l0 ++ [a; c])) as Hit.
  { change (l0 ++ [a; c]) with (l0 ++ ([a] ++ [c])). rewrite app_assoc, (items_app t (l0 ++ [a])).
    unfold items at 3. simpl. by rewrite Hnil, !app_nil_r. }
  exists t', (mkShape (<[i := l0 ++ [a]]> (chains sh)) (c :: free sh)). split_and!; try done.
  - eapply relink_evolves; try done. intros p [->|Hp]%elem_of_cons; [done|]. by apply (free_items t sh).
  - simpl. apply list_lookup_insert_eq. by eapply lookup_lt_Some.
  - by rewrite (items_core t t'), Hit by done.
Qed.

(** The position [q] of a chain: it is the last, or the chain ends in two other
    positions that a walk from [q] finds. *)
Lemma chain_split t sh i ps q :
  wf t sh -> chains sh !! i = Some ps -> q ∈ ps ->
  (exists b l1, ps = l1 ++ [q] /\ bkt t q = Ok b /\ has_extra_bucket b = false) \/
  (exists b l0 a c, ps = l0 ++ [a; c] /\ q ∈ l0 ++ [a] /\ q <> c /\
     bkt t q = Ok b /\ has_extra_bucket b = true /\
     last_two (length (buckets_ t)) t q = Ok (a, c)).
Proof.
  intros (Hc & Hl & _) Hi Hq. pose proof (chain_length t sh Hl i ps Hi) as Hlen.
  pose proof (chain_nodup t sh Hl i ps Hi) as Hnd.
  destruct (lk_chain t sh Hl i ps Hi) as [Hp _].
  apply list_elem_of_split in Hq as (l1 & l2 & ->).
  apply path_suffix in Hp; [|done]. destruct (path_step t q l2 Hc Hp) as (b & _ & Hbk & Hr).
  destruct l2 as [|c l2 _] using rev_ind; [left|right].
  - destruct Hr as [Hn _]. eauto.
  - assert (has_extra_bucket b = true) as Hn by (destruct l2; by destruct Hr as [? _]).
    destruct (exists_last (l := q :: l2)) as (l3 & a & E); [done|].
    exists b, (l1 ++ l3), a, c.
    assert (l1 ++ q :: l2 ++ [c] = (l1 ++ l3) ++ [a; c]) as E2.
    { change (q :: l2 ++ [c]) with ((q :: l2) ++ [c]). rewrite E, <- !app_assoc. done. }
    assert (q ∈ l3 ++ [a]) as Hql by (rewrite <- E; set_solver).
    split_and!; try done.
    + rewrite <- app_assoc. set_solver.
    + intros ->. apply NoDup_app in Hnd as (_ & _ & Hnd). apply NoDup_cons in Hnd as [Hnd _]. set_solver.
    + assert (q = hd a l3) as Eq by (destruct l3; simpl in *; congruence).
      rewrite Eq. apply last_two_path; [done| |].
      * change (l3 ++ [a; c]) with (l3 ++ [a] ++ [c]).
        rewrite app_assoc, <- E. done.
      * rewrite E2, !length_app in Hlen. simpl in Hlen. lia.
Qed.

Lemma fill_hole_ok fuel t sh i ps q b j :
  wf t sh -> chains sh !! i = Some ps -> q ∈ ps -> buckets_ t !! q = Some b ->
  key_arr b !! j = Some kFtInvalidKey -> (length ps <= fuel)%nat ->
  exists t' sh' ps', fill_hole_loop fuel q j t = Ok t' /\ evolves i t sh t' sh' /\
    chains sh' !! i = Some ps' /\ items t' ps' ≡ₚ items t ps.
Proof.
  revert t sh ps b. induction fuel as [|fuel IH]; intros t sh ps b Hw Hi Hq Hb Hk Hfuel.
  { destruct ps; [set_solver|simpl in *; lia]. }
  pose proof Hw as (Hc & Hl & _). simpl.
  destruct (chain_split t sh i ps q Hw Hi Hq)
    as [(b' & l1 & -> & -> & Hn)|(b' & l0 & a & c & -> & Hqa & Hqc & -> & Hn & Hlt)]; simpl; rewrite Hn; simpl.
  { exists t, sh, (l1 ++ [q]). split_and!; eauto using evolves_refl. }
  rewrite Hlt. simpl. assert (c ∈ l0 ++ [a; c]) as Hcin by set_solver.
  destruct (path_lookup t _ c Hc (proj1 (lk_chain t sh Hl i _ Hi)) Hcin) as [bc Hbc].
  assert (bkt t c = Ok bc) as -> by (unfold bkt; by rewrite Hbc). simpl.
  pose proof (scan_last_spec (key_arr bc) 0) as Hs.
  destruct (scan_last (key_arr bc) 0 None) as [[m|] last].
  - destruct Hs as (ks1 & k & ks2 & Hks & -> & Hf1 & Hkne & Hlast). simpl.
    assert (key_arr bc !! length ks1 = Some k) as Hkc by (rewrite Hks; by apply list_lookup_middle).
    destruct (val_at _ _ _ _ (bkt_at t sh c bc Hw Hbc) Hkc) as (v & Hvc & _).
    rewrite Hkc, Hvc. simpl. change (val_size (upd q ?f t)) with (val_size t).
    rewrite (val_roundup t Hc). simpl.
    change (upd q (with_val j v) (upd q (with_key j k) t)) with (set_slot q j k v t).
    destruct (move_slot t sh i (l0 ++ [a; c]) q b j c bc (length ks1) k v) as [Hev Hit]; try done.
    set (t' := upd c _ _) in *. destruct last; [|by exists t', sh, (l0 ++ [a; c])].
    destruct (free_step t' sh i l0 a c (with_key (length ks1) kFtInvalidKey bc))
      as (t2 & sh2 & -> & Hev2 & Hi2 & Hit2 & _); [apply Hev|done|..].
    + apply upd_lookup. unfold set_slot. by rewrite !upd_lookup_ne.
    + simpl. rewrite Hks, insert_app_r_alt, Nat.sub_diag by lia. simpl.
      apply Forall_app. split; [done|]. constructor; [done|]. by apply Hlast.
    + exists t2, sh2, (l0 ++ [a]). split_and!; try done; [by eapply evolves_trans|]. by rewrite Hit2.
  - destruct (free_step t sh i l0 a c bc) as (t2 & sh2 & -> & Hev2 & Hi2 & Hit2 & Hcore); try done.
    simpl. pose proof (ev_wf _ _ _ _ _ Hev2) as Hw2.
    assert (exists b2, buckets_ t2 !! q = Some b2 /\ core b2 = core b) as (b2 & Hb2 & Ec).
    { apply (f_equal (lookup q)) in Hcore. rewrite !list_lookup_fmap, Hb in Hcore.
      destruct (buckets_ t2 !! q) as [b2|]; [|done]. exists b2. split; [done|]. simpl in Hcore. congruence. }
    destruct (IH t2 sh2 (l0 ++ [a]) b2) as (t3 & sh3 & ps3 & -> & Hev3 & Hi3 & Hit3); try done.
    + unfold core in Ec. congruence.
    + rewrite length_app in *. simpl in *. lia.
    + exists t3, sh3, ps3. split_and!; try done; [by eapply evolves_trans|]. by rewrite Hit3, Hit2.
Qed.

(** ** Buckets of a key hash *)

Lemma calc_bucket_index_mod t kh :
  cfg_wf t -> calc_bucket_index t kh = kh mod num_buckets_ t.
Proof.
  intros Hc. destruct (cfg_nb t Hc) as (k & Hk & Hn). unfold calc_bucket_index, wrap.
  rewrite (cfg_mask t Hc), Hn. replace (2 ^ k - 1) with (Z.ones k) by (rewrite Z.ones_equiv; lia).
  rewrite Z.land_ones by lia. apply Z.mod_mod_divide.
  exists (2 ^ (32 - k)). rewrite <- Z.pow_add_r by lia. f_equal. lia.
Qed.

Lemma get_bucket_ok t sh kh :
  wf t sh ->
  get_bucket t (calc_bucket_index t kh) = Ok (bidx t kh) /\
  exists ps b, chains sh !! bidx t kh = Some ps /\ buckets_ t !! bidx t kh = Some b /\
    bkt t (bidx t kh) = Ok b.
Proof.
  intros (Hc & Hl & _). pose proof Hc as [(k & Hk & Hn) _ He Hs Hlen _].
  pose proof (pow2_pos k ltac:(lia)).
  assert (0 <= calc_bucket_index t kh < num_buckets_ t) as Hi.
  { rewrite calc_bucket_index_mod by done. apply Z.mod_pos_bound. lia. }
  split.
  - unfold get_bucket, wrap. rewrite Z.mod_small by lia. guards. done.
  - unfold bidx. pose proof (lk_len t sh Hl).
    destruct (lookup_lt_is_Some_2 (chains sh) (Z.to_nat (calc_bucket_index t kh))) as [ps Hps]; [lia|].
    destruct (lookup_lt_is_Some_2 (buckets_ t) (Z.to_nat (calc_bucket_index t kh))) as [b Hb]; [lia|].
    exists ps, b. split_and!; try done. unfold bkt. by rewrite Hb.
Qed.

(** ** Abstraction lemmas *)

Lemma find_abs t sh i ps key :
  wf t sh -> chains sh !! i = Some ps -> key <> kFtInvalidKey ->
  match find_in t key ps with
  | Some (q, j) => exists b v, q ∈ ps /\ buckets_ t !! q = Some b /\
      key_arr b !! j = Some key /\ val_arr b !! j = Some v /\
      Z.of_nat (length v) = val_size t /\ abs t i !! key = Some v
  | None => abs t i !! key = None /\ key ∉ (items t ps).*1
  end.
Proof.
  intros Hw Hi Hne. pose proof Hw as (_ & Hl & Hct & _).
  rewrite (abs_shape t sh Hl i ps Hi). pose proof (ct_keys t sh Hct i ps Hi) as Hnd.
  destruct (find_in t key ps) as [[q j]|] eqn:E.
  - apply find_in_Some in E as (Hq & b & Hb & Hk).
    destruct (val_at _ _ _ _ (bkt_at t sh q b Hw Hb) Hk) as (v & Hv & Hlen).
    exists b, v. split_and!; try done. apply elem_of_list_to_map_1; [done|].
    apply items_elem. eauto 10.
  - assert (key ∉ (items t ps).*1) as Hnot.
    { intros Hin. apply list_elem_of_fmap in Hin as ([k v] & -> & Hin).
      apply items_elem in Hin as (_ & p & b & j & Hp & Hb & Hk & _).
      eapply find_in_None; [exact E|exact Hp|exact Hb|]. simpl. apply list_elem_of_lookup. eauto. }
    split; [|done]. by apply not_elem_of_list_to_map_1.
Qed.

(** From a step of chain [i] to the abstract buckets. *)
Lemma evolves_view i t sh t' sh' ps ps' m :
  wf t sh -> evolves i t sh t' sh' -> chains sh !! i = Some ps -> chains sh' !! i = Some ps' ->
  list_to_map (items t' ps') = m ->
  view_upd i (mkA m (a_ts (view t i)) (a_locker (view t i)) (a_cnt (view t i))) t t'.
Proof.
  intros Hw [Hw' Hcfg Hlk Ho] Hi Hi' Hm. pose proof Hw as (_ & Hl & _). pose proof Hw' as (_ & Hl' & _).
  assert (forall p m', abs t' p = m' -> (p < length (buckets_ t))%nat ->
    view t' p = mkA m' (a_ts (view t p)) (a_locker (view t p)) (a_cnt (view t p))) as Hview.
  { intros p m' Hm' Hp. apply (f_equal (lookup p)) in Hlk. rewrite !list_lookup_fmap in Hlk.
    destruct (lookup_lt_is_Some_2 _ _ Hp) as [b Hb]. rewrite Hb in Hlk.
    unfold view. rewrite Hb. destruct (buckets_ t' !! p) as [b'|]; [|done].
    unfold lockp in Hlk. injection Hlk as E1 E2 E3. simpl. by rewrite E1, E2, E3, Hm'. }
  assert (forall p ps0, chains sh !! p = Some ps0 -> (p < length (buckets_ t))%nat) as Hlt.
  { intros p ps0 Hp. destruct (chain_cons t sh Hl p ps0 Hp) as (l & -> & q & b & l' & [= <- <-] & Hb & _).
    by eapply lookup_lt_Some. }
  split_and!; [|done|].
  - apply Hview; [|by eapply Hlt]. by rewrite (abs_shape t' sh' Hl' i ps' Hi').
  - intros p Hp Hne.
    destruct (lookup_lt_is_Some_2 (chains sh) p) as [qs Hqs].
    { pose proof (lk_len t sh Hl). lia. }
    destruct (Ho p qs Hne Hqs) as [Hqs' Hit]. pose proof (Hlt p qs Hqs) as Hplt.
    rewrite (Hview p (abs t p)); [|..|done].
    + destruct (lookup_lt_is_Some_2 _ _ Hplt) as [bp Hbp]. unfold view. by rewrite Hbp.
    + by rewrite (abs_shape t' sh' Hl' p qs Hqs'), (abs_shape t sh Hl p qs Hqs), Hit.
Qed.

Lemma view_upd_trans i a a' t1 t2 t3 :
  view_upd i a t1 t2 -> view_upd i a' t2 t3 -> view_upd i a' t1 t3.
Proof.
  intros (H1 & C1 & O1) (H2 & C2 & O2). split_and!; [done|congruence|].
  intros p Hp Hne. rewrite O2, O1; try done. unfold cfg in C1. congruence.
Qed.

Lemma list_to_map_perm_cons (k : Z) (v : list byte) l l' :
  NoDup l'.*1 -> l' ≡ₚ (k, v) :: l -> (list_to_map l' : gmap Z (list byte)) = <[k := v]> (list_to_map l).
Proof. intros Hnd Hp. rewrite (list_to_map_proper l' ((k, v) :: l)); done. Qed.

(** ** Bucket locks *)

Lemma is_locked_odd ts : is_locked ts = Z.odd ts.
Proof.
  unfold is_locked. change 1 with (Z.ones 1) at 1. rewrite Z.land_ones by lia. change (2 ^ 1) with 2.
  rewrite Zmod_odd. by destruct (Z.odd ts).
Qed.

Lemma is_unlocked_even ts : is_unlocked ts = negb (Z.odd ts).
Proof.
  unfold is_unlocked. change 1 with (Z.ones 1). rewrite Z.land_ones by lia. change (2 ^ 1) with 2.
  rewrite Zmod_odd. by destruct (Z.odd ts).
Qed.

Lemma ldiff_1 ts : (ts =? Z.ldiff ts 1) = negb (Z.odd ts).
Proof.
  change 1 with (Z.ones 1) at 1. rewrite Z.ldiff_ones_r, Z.shiftr_div_pow2, Z.shiftl_mul_pow2 by lia.
  change (2 ^ 1) with 2. pose proof (Z.div_mod ts 2 ltac:(lia)) as E. rewrite Zmod_odd in E.
  destruct (Z.odd ts); simpl; [apply Z.eqb_neq|apply Z.eqb_eq]; lia.
Qed.

Lemma even_lor_1 ts : Z.odd ts = false -> Z.lor (Z.ldiff ts 1) 1 = ts + 1.
Proof.
  intros H. pose proof (ldiff_1 ts) as E. rewrite H in E. simpl in E. apply Z.eqb_eq in E.
  rewrite <- E. pose proof (is_unlocked_even ts) as L. rewrite H in L. apply Z.eqb_eq in L.
  by rewrite Z.add_nocarry_lxor, Z.lxor_lor.
Qed.

Lemma even_succ_u64 ts : u 64 ts -> Z.odd ts = false -> u 64 (ts + 1) /\ Z.odd (ts + 1) = true.
Proof.
  intros [H0 H1] He. split.
  - split; [lia|]. assert (ts <> 2 ^ 64 - 1); [|lia]. intros ->. done.
  - rewrite Z.odd_add, He. done.
Qed.

(** An update of the lock word of bucket [p]. *)
Lemma lock_upd t sh p b lid nl ts :
  wf t sh -> (p < Z.to_nat (num_buckets_ t))%nat -> buckets_ t !! p = Some b ->
  lock_wf (with_lock b lid nl ts) ->
  forall f, f b = with_lock b lid nl ts ->
  wf (upd p f t) sh /\ view_upd p (mkA (abs t p) ts lid nl) t (upd p f t) /\
  (forall q, items_at (upd p f t) q = items_at t q).
Proof.
  intros (Hc & Hl & Hct & Hlk) Hp Hb Hlw f Hf.
  assert (forall q, items_at (upd p f t) q = items_at t q) as Hit.
  { intros q. destruct (decide (q = p)) as [->|]; [|by apply items_at_upd_ne].
    rewrite (items_at_upd t p f b Hb), Hf. unfold items_at. by rewrite Hb. }
  assert (next_extra_bucket_index <$> buckets_ (upd p f t) =
          next_extra_bucket_index <$> buckets_ t) as Hnx by (eapply next_upd; [done|by rewrite Hf]).
  assert (wf (upd p f t) sh) as Hw'.
  { split_and!.
    - eapply cfg_wf_ext; [| |exact Hc]; [done|apply upd_length].
    - by apply (links_ext t).
    - destruct Hct. constructor.
      + eapply Forall_upd; [done|done|]. by rewrite Hf.
      + intros q Hq. rewrite Hit. auto.
      + intros i ps Hi. rewrite (items_ext t) by auto. by eapply ct_keys0.
    - eapply Forall_upd; [done|done|]. by rewrite Hf. }
  split_and!; [done| |done].
  assert (forall i, (i < Z.to_nat (num_buckets_ t))%nat -> abs (upd p f t) i = abs t i) as Habs.
  { intros i Hi. destruct (lookup_lt_is_Some_2 (chains sh) i) as [qs Hqs].
    { pose proof (lk_len t sh Hl). lia. }
    rewrite (abs_shape t sh Hl i qs Hqs). destruct Hw' as (_ & Hl' & _).
    rewrite (abs_shape _ sh Hl' i qs Hqs). by rewrite (items_ext t). }
  split_and!; [|done|].
  - unfold view. rewrite (upd_lookup p f t b Hb), Hf. simpl. f_equal. by apply Habs.
  - intros i Hi Hne. unfold view. rewrite upd_lookup_ne by done.
    destruct (buckets_ t !! i); [|done]. by rewrite Habs.
Qed.

Lemma bucket_at t sh p :
  wf t sh -> (p < Z.to_nat (num_buckets_ t))%nat ->
  exists b, buckets_ t !! p = Some b /\ bkt t p = Ok b /\ lock_wf b /\
    view t p = mkA (abs t p) (timestamp b) (locker_id b) (num_locks b).
Proof.
  intros (Hc & _ & _ & Hlk) Hp. destruct (lookup_lt_is_Some_2 (buckets_ t) p) as [b Hb].
  { pose proof (cfg_len t Hc). pose proof (cfg_ne t Hc). lia. }
  exists b. unfold bkt, view. rewrite Hb. split_and!; try done.
  by eapply (Forall_lookup_1 _ _ _ _ Hlk).
Qed.

(** Acquiring a bucket lock: free locks are taken, locks of the caller are
    counted, locks of others are left alone. *)
Lemma lock_bucket_ptr_ok t sh p caller :
  wf t sh -> (p < Z.to_nat (num_buckets_ t))%nat -> caller_wf caller ->
  a_cnt (view t p) < kMaxNumLocks ->
  match a_lock caller (view t p) with
  | Some a => exists t', lock_bucket_ptr caller p t = Ok (true, t') /\ wf t' sh /\
      view_upd p a t t' /\ (forall q, items_at t' q = items_at t q)
  | None => lock_bucket_ptr caller p t = Ok (false, t)
  end.
Proof.
  intros Hw Hp Hcl Hcnt. destruct (bucket_at t sh p Hw Hp) as (b & Hb & Hbk & [Hts Hlw] & Hv).
  rewrite Hv in *. simpl in Hcnt. unfold lock_bucket_ptr, a_lock. simpl.
  assert (caller <> kInvalidCallerId) as Hci by (unfold caller_wf in Hcl; lia).
  rewrite (proj2 (Z.eqb_neq _ _) Hci). simpl. rewrite Hbk. simpl.
  rewrite ldiff_1, is_unlocked_even. rewrite is_locked_odd in *. destruct (Z.odd (timestamp b)) eqn:Ho; simpl.
  - destruct Hlw as (Hlid & Hnl & Hnum). destruct (Z.eqb_spec (locker_id b) caller) as [<-|]; [|done].
    rewrite (proj2 (Z.ltb_lt 0 _)), (proj2 (Z.ltb_lt _ kMaxNumLocks)) by lia. simpl.
    assert (wrap kNumLocksBits (num_locks b + 1) = num_locks b + 1) as E.
    { apply wrap_id. unfold u. change (2 ^ kNumLocksBits) with 32. change kMaxNumLocks with 31 in *. lia. }
    destruct (lock_upd t sh p b (locker_id b) (num_locks b + 1) (timestamp b) Hw Hp Hb) with
      (f := fun b => with_lock b (locker_id b) (wrap kNumLocksBits (num_locks b + 1)) (timestamp b))
      as (Hw' & Hvu & Hit).
    + split; [done|]. simpl. rewrite is_locked_odd, Ho. split_and!; try done; lia.
    + by rewrite E.
    + eexists. split_and!; done.
  - destruct Hlw as [Hlid Hn]. rewrite Hlid, Hn. simpl.
    destruct (even_succ_u64 _ Hts Ho) as [Hu Hodd].
    assert (wrap kCallerIdBits caller = caller) as E.
    { apply wrap_id. unfold caller_wf in Hcl. change kInvalidCallerId with 134217727 in Hcl.
      unfold u. change (2 ^ kCallerIdBits) with 134217728. lia. }
    destruct (lock_upd t sh p b caller 1 (timestamp b + 1) Hw Hp Hb) with
      (f := fun b0 => with_lock b0 (wrap kCallerIdBits caller) 1 (Z.lor (Z.ldiff (timestamp b) 1) 1))
      as (Hw' & Hvu & Hit).
    + split; [done|]. simpl. rewrite is_locked_odd, Hodd. split_and!; try done.
      * rewrite <- E. apply wrap_u. by vm_compute.
    + by rewrite E, even_lor_1.
    + eexists. split_and!; done.
Qed.

Lemma unlock_bucket_ptr_ok t sh p caller :
  wf t sh -> (p < Z.to_nat (num_buckets_ t))%nat -> caller_wf caller ->
  a_held caller (view t p) ->
  exists t', unlock_bucket_ptr caller p t = Ok t' /\ wf t' sh /\
    view_upd p (a_unlock (view t p)) t t' /\ (forall q, items_at t' q = items_at t q).
Proof.
  intros Hw Hp Hcl Hh. destruct (bucket_at t sh p Hw Hp) as (b & Hb & Hbk & [Hts Hlw] & Hv).
  rewrite Hv in *. unfold a_held in Hh. simpl in Hh. destruct Hh as [Ho Hcaller].
  rewrite Ho in Hlw. destruct Hlw as (Hlid & Hnl & Hnum). unfold unlock_bucket_ptr, a_unlock. simpl.
  assert (caller <> kInvalidCallerId) as Hci by (unfold caller_wf in Hcl; lia).
  rewrite (proj2 (Z.eqb_neq _ _) Hci). simpl. rewrite Hbk. simpl. rewrite Ho. simpl.
  rewrite Hcaller, Z.eqb_refl. simpl. rewrite (proj2 (Z.ltb_lt 0 _)) by lia. simpl.
  destruct (Z.eqb_spec (num_locks b) 1) as [H1|H1].
  - destruct (lock_upd t sh p b kInvalidCallerId 0 (wrap 64 (timestamp b + 1)) Hw Hp Hb) with
      (f := fun b => with_lock b kInvalidCallerId 0 (wrap 64 (timestamp b + 1)))
      as (Hw' & Hvu & Hit); [|done|eexists; split_and!; done].
    split; [by apply wrap_u|]. simpl. rewrite is_locked_odd in *. unfold wrap.
    assert (Z.odd ((timestamp b + 1) mod 2 ^ 64) = false) as ->; [|done].
    rewrite Z.mod_eq, Z.odd_sub, Z.odd_mul, Z.odd_add, Ho by lia. done.
  - assert (wrap kNumLocksBits (num_locks b - 1) = num_locks b - 1) as E.
    { apply wrap_id. unfold u. change (2 ^ kNumLocksBits) with 32. change kMaxNumLocks with 31 in *. lia. }
    destruct (lock_upd t sh p b caller (num_locks b - 1) (timestamp b) Hw Hp Hb) with
      (f := fun b => with_lock b (locker_id b) (wrap kNumLocksBits (num_locks b - 1)) (timestamp b))
      as (Hw' & Hvu & Hit); [| |eexists; split_and!; done].
    + split; [done|]. simpl. rewrite Ho. subst caller. split_and!; try done; lia.
    + by rewrite E, Hcaller.
Qed.

(** ** Storing, finding and deleting in a bucket's chain *)

Lemma set_item_ok t q j key value :
  0 <= val_size t <= Z.of_nat (length value) ->
  set_item q j key value t = Ok (set_slot q j key (stored t value) t).
Proof.
  intros Hv. unfold set_item, read_at. rewrite (proj2 (Nat.leb_le _ _)) by lia. done.
Qed.

Lemma stored_length t value :
  0 <= val_size t <= Z.of_nat (length value) -> Z.of_nat (length (stored t value)) = val_size t.
Proof. intros Hv. unfold stored. rewrite length_take. lia. Qed.

Lemma fl_head_nil t sh : wf t sh -> free sh = [] -> fl_head t = 0.
Proof. intros (_ & Hl & _) Hf. pose proof (lk_free t sh Hl) as Hs. rewrite Hf in Hs. by inversion Hs. Qed.

(** The search of [set] followed by the store. *)
Lemma store_ok t sh i ps key value :
  wf t sh -> chains sh !! i = Some ps -> key <> kFtInvalidKey ->
  val_size t <= Z.of_nat (length value) ->
  (exists q j t1 t2 sh2, find_or_empty i key t = Ok (Some (q, j), t1) /\ cfg t1 = cfg t /\
     set_item q j key value t1 = Ok t2 /\ wf t2 sh2 /\
     view_upd i (a_put key (stored t value) (view t i)) t t2) \/
  (find_or_empty i key t = Ok (None, t) /\ abs t i !! key = None /\ fl_head t = 0).
Proof.
  intros Hw Hi Hne Hlen. pose proof Hw as (Hc & Hl & Hct & _). destruct (cfg_val t Hc) as [Hv _].
  pose proof (find_abs t sh i ps key Hw Hi Hne) as Hf. unfold find_or_empty.
  rewrite (find_item_index_ok t sh i ps) by done. simpl.
  assert (abs t i = a_map (view t i)) as Ha.
  { unfold view. destruct (chain_cons t sh Hl i ps Hi) as (l & -> & p & b & l' & [= <- <-] & Hb & _).
    by rewrite Hb. }
  destruct (find_in t key ps) as [[q j]|].
  - left. destruct Hf as (b & v & Hq & Hb & Hk & Hvv & Hvl & Habs).
    destruct (replace_slot t sh i ps q b j key v (stored t value)) as (Hev & R & Hp1 & Hp2); try done.
    { apply stored_length. lia. }
    exists q, j, t, (set_slot q j key (stored t value) t), sh. split_and!; try done.
    + apply set_item_ok. lia.
    + apply Hev.
    + eapply evolves_view; try done. rewrite <- Ha, (abs_shape t sh Hl i ps Hi).
      pose proof (ct_keys t sh Hct i ps Hi) as Hnd.
      pose proof (ct_keys _ sh (proj1 (proj2 (proj2 (ev_wf _ _ _ _ _ Hev)))) i ps Hi) as Hnd'.
      rewrite (list_to_map_perm_cons _ _ _ _ Hnd' Hp2), (list_to_map_perm_cons _ _ _ _ Hnd Hp1).
      by rewrite insert_insert_eq.
  - destruct Hf as [Habs Hnew].
    destruct (get_empty_ok t sh i ps Hw Hi)
      as [(q & j & t1 & sh1 & ps1 & -> & Hev1 & Hi1 & Hq & Hit & b & Hb & Hk)|[-> Hfree]].
    2:{ right. split_and!; try done. by eapply fl_head_nil. }
    left. pose proof (ev_wf _ _ _ _ _ Hev1) as Hw1.
    assert (val_size t1 = val_size t) as Evs
      by (pose proof (ev_cfg _ _ _ _ _ Hev1) as Hx; unfold cfg in Hx; congruence).
    assert (stored t1 value = stored t value) as Est by (unfold stored; by rewrite Evs).
    destruct (put_slot t1 sh1 i ps1 q b j key (stored t value)) as (Hev2 & Hp2); try done.
    { rewrite Evs. apply stored_length. lia. }
    { by rewrite Hit. }
    exists q, j, t1, (set_slot q j key (stored t value) t1), sh1. split_and!; try done.
    + apply Hev1.
    + rewrite <- Est. apply set_item_ok. lia.
    + apply Hev2.
    + eapply (evolves_view i t sh); [done|by eapply evolves_trans|exact Hi|exact Hi1|].
      rewrite <- Ha, (abs_shape t sh Hl i ps Hi), <- Hit.
      apply list_to_map_perm_cons; [|done].
      eapply (ct_keys _ sh1); [apply Hev2|done].
Qed.

(** Clearing the slot of a key followed by [fill_hole]. *)
Lemma remove_ok t sh i ps key :
  wf t sh -> chains sh !! i = Some ps -> key <> kFtInvalidKey ->
  is_Some (abs t i !! key) ->
  exists q j t' sh', find_item_index t i key = Ok (Some (q, j)) /\
    fill_hole q j (upd q (with_key j kFtInvalidKey) t) = Ok t' /\ wf t' sh' /\
    view_upd i (a_del key (view t i)) t t'.
Proof.
  intros Hw Hi Hne [v0 Hsome]. pose proof Hw as (Hc & Hl & Hct & _).
  pose proof (find_abs t sh i ps key Hw Hi Hne) as Hf.
  rewrite (find_item_index_ok t sh i ps) by done.
  destruct (find_in t key ps) as [[q j]|]; [|destruct Hf; congruence].
  destruct Hf as (b & v & Hq & Hb & Hk & Hv & Hvl & Habs).
  exists q, j. rewrite (upd_key_slot q j kFtInvalidKey v t b Hb Hv).
  destruct (clear_slot t sh i ps q b j key v) as [Hev1 Hp1]; try done.
  set (t1 := set_slot q j kFtInvalidKey v t) in *. pose proof (ev_wf _ _ _ _ _ Hev1) as Hw1.
  pose proof Hw1 as (_ & Hl1 & _).
  destruct (fill_hole_ok (S (length (buckets_ t1))) t1 sh i ps q (with_val j v (with_key j kFtInvalidKey b)) j)
    as (t2 & sh2 & ps2 & Hfill & Hev2 & Hi2 & Hit2); try done.
  { unfold t1, set_slot. rewrite (upd_lookup q _ _ (with_key j kFtInvalidKey b)); [done|]. by apply upd_lookup. }
  { simpl. apply list_lookup_insert_eq. by eapply lookup_lt_Some. }
  { pose proof (chain_length t1 sh Hl1 i ps Hi). lia. }
  exists t2, sh2. split_and!; [done|exact Hfill|apply Hev2|].
  eapply (evolves_view i t sh); [done|by eapply evolves_trans|exact Hi|exact Hi2|].
  assert (abs t i = a_map (view t i)) as <-.
  { unfold view. destruct (chain_cons t sh Hl i ps Hi) as (l & -> & p & b' & l' & [= <- <-] & Hb' & _).
    by rewrite Hb'. }
  rewrite (abs_shape t sh Hl i ps Hi).
  pose proof (ct_keys t sh Hct i ps Hi) as Hnd.
  pose proof (ct_keys _ sh2 (proj1 (proj2 (proj2 (ev_wf _ _ _ _ _ Hev2)))) i ps2 Hi2) as Hnd2.
  rewrite (list_to_map_perm_cons _ _ _ _ Hnd Hp1). rewrite Hp1 in Hnd. apply NoDup_cons in Hnd as [Hnk _].
  rewrite delete_insert_id by (by apply not_elem_of_list_to_map_1).
  by apply list_to_map_proper.
Qed.

(** ** Operations *)

Lemma Inv_bucket t kh :
  Inv t ->
  get_bucket t (calc_bucket_index t kh) = Ok (bidx t kh) /\
  (bidx t kh < Z.to_nat (num_buckets_ t))%nat /\
  exists sh ps b, wf t sh /\ chains sh !! bidx t kh = Some ps /\
    buckets_ t !! bidx t kh = Some b /\ bkt t (bidx t kh) = Ok b /\ lock_wf b /\
    view t (bidx t kh) = mkA (abs t (bidx t kh)) (timestamp b) (locker_id b) (num_locks b).
Proof.
  intros [sh Hw]. destruct (get_bucket_ok t sh kh Hw) as (Hg & ps & b & Hps & Hb & Hbk).
  assert (bidx t kh < Z.to_nat (num_buckets_ t))%nat as Hlt.
  { destruct Hw as (_ & Hl & _). apply lookup_lt_Some in Hps. pose proof (lk_len t sh Hl). lia. }
  split_and!; try done. destruct (bucket_at t sh _ Hw Hlt) as (b' & Hb' & _ & Hlk & Hv).
  simplify_eq. eauto 10.
Qed.

Lemma cfg_bidx t t' kh : cfg t' = cfg t -> bidx t' kh = bidx t kh.
Proof. unfold cfg, bidx, calc_bucket_index. intros [= _ _ _ E _]. by rewrite E. Qed.

Lemma cfg_nb_eq t t' : cfg t' = cfg t -> num_buckets_ t' = num_buckets_ t.
Proof. unfold cfg. congruence. Qed.

Lemma cfg_primary t t' : cfg t' = cfg t -> is_primary t' = is_primary t.
Proof. unfold cfg. congruence. Qed.

(** Releasing one lock after a change of bucket [i]'s abstract state. *)
Lemma then_unlock t t1 sh1 i a caller :
  wf t1 sh1 -> (i < Z.to_nat (num_buckets_ t))%nat -> caller_wf caller ->
  view_upd i a t t1 -> a_held caller a ->
  exists t', unlock_bucket_ptr caller i t1 = Ok t' /\ Inv t' /\ view_upd i (a_unlock a) t t'.
Proof.
  intros Hw Hi Hcl Hv Hh. pose proof Hv as (Hva & Hcfg & _).
  destruct (unlock_bucket_ptr_ok t1 sh1 i caller Hw) as (t' & Hu & Hw' & Hv' & _); try done.
  - by rewrite (cfg_nb_eq t t1 Hcfg).
  - by rewrite Hva.
  - exists t'. split_and!; [done|by exists sh1|]. rewrite Hva in Hv'. by eapply view_upd_trans.
Qed.

Lemma held_asserts t i b caller (m : gmap Z (list byte)) :
  view t i = mkA m (timestamp b) (locker_id b) (num_locks b) ->
  a_held caller (view t i) -> is_locked (timestamp b) = true /\ (locker_id b =? caller) = true.
Proof. intros -> [H1 H2]. simpl in *. split; [done|by apply Z.eqb_eq]. Qed.

(** On a primary table, [get] returns exactly what the abstract bucket of the
    key holds: the value and the timestamp when the bucket is unlocked or held by
    the caller, and [kLocked] when another caller holds it. *)
Lemma get_ok t caller kh key :
  Inv t -> is_primary t = true -> key <> kFtInvalidKey ->
  get caller kh key t = Ok (a_get caller key (view t (bidx t kh))).
Proof.
  intros HI Hprim Hne.
  destruct (Inv_bucket t kh HI) as (Hg & Hlt & sh & ps & b & Hw & Hps & Hb & Hbk & Hlk & Hv).
  pose proof (find_abs t sh _ ps key Hw Hps Hne) as Hf.
  unfold get, get_at, a_get. rewrite Hprim, Hv. simpl. rewrite Hg. simpl.
  unfold read_timestamp. rewrite Hbk. simpl. rewrite (find_item_index_ok t sh _ ps) by done. simpl.
  destruct (is_unlocked (timestamp b)); [|destruct (locker_id b =? caller); [|done]];
    (destruct (find_in t key ps) as [[q j]|];
      [destruct Hf as (c & v & _ & Hc & _ & Hvj & _ & Habs)|destruct Hf as [Habs _]]; rewrite Habs);
    unfold bkt; rewrite ?Hc; simpl; rewrite ?Hvj; simpl; by rewrite Z.eqb_refl.
Qed.

(** On a primary table, [set] by a caller that holds the bucket lock stores
    the value under the key and releases one of the caller's locks, or, when the
    key is new and the table has no extra bucket left, reports it and only
    releases the lock.  The invariant is kept and no other bucket changes. *)
Lemma set_primary_ok t caller kh key value :
  Inv t -> is_primary t = true -> key <> kFtInvalidKey -> caller_wf caller ->
  val_size t <= Z.of_nat (length value) -> a_held caller (view t (bidx t kh)) ->
  exists r t', set caller kh key value t = Ok (r, t') /\ Inv t' /\
    ((r = kSuccess /\
      view_upd (bidx t kh)
        (a_unlock (a_put key (stored t value) (view t (bidx t kh)))) t t') \/
     (r = kInsufficientSpaceIndex /\ a_map (view t (bidx t kh)) !! key = None /\ fl_head t = 0 /\
      view_upd (bidx t kh) (a_unlock (view t (bidx t kh))) t t')).
Proof.
  intros HI Hprim Hne Hcl Hlen Hh.
  destruct (Inv_bucket t kh HI) as (Hg & Hlt & sh & ps & b & Hw & Hps & Hb & Hbk & Hlk & Hv).
  destruct (held_asserts t _ b caller _ Hv Hh) as [Ha1 Ha2].
  unfold set. rewrite Hg. simpl. rewrite Hbk, Hprim. simpl. rewrite Ha1, Ha2. simpl.
  destruct (store_ok t sh _ ps key value Hw Hps Hne Hlen)
    as [(q & j & t1 & t2 & sh2 & -> & Hc1 & Hs & Hw2 & Hv2)|(-> & Habs & Hfl)]; simpl.
  - rewrite Hs. simpl.
    rewrite (cfg_primary t t2) by apply Hv2. rewrite Hprim.
    destruct (then_unlock t t2 sh2 (bidx t kh) _ caller Hw2 Hlt Hcl Hv2 Hh) as (t' & -> & HI' & Hv').
    simpl. eauto 10.
  - destruct (then_unlock t t sh (bidx t kh) (view t (bidx t kh)) caller Hw Hlt Hcl) as (t' & -> & HI' & Hv'); try done.
    simpl. exists kInsufficientSpaceIndex, t'. split_and!; try done. right. rewrite Hv at 1. simpl. done.
Qed.

(** On a backup table, [set] stores the value without touching any lock; the
    only other outcome is the failing assertion of the out-of-space path, which
    unlocks a bucket nobody locked. *)
Lemma set_backup_ok t caller kh key value :
  Inv t -> is_primary t = false -> key <> kFtInvalidKey -> caller_wf caller ->
  val_size t <= Z.of_nat (length value) -> is_locked (a_ts (view t (bidx t kh))) = false ->
  (exists t', set caller kh key value t = Ok (kSuccess, t') /\ Inv t' /\
     view_upd (bidx t kh) (a_put key (stored t value) (view t (bidx t kh))) t t') \/
  (set caller kh key value t = Err AssertFail /\
   a_map (view t (bidx t kh)) !! key = None /\ fl_head t = 0).
Proof.
  intros HI Hprim Hne Hcl Hlen Hul.
  destruct (Inv_bucket t kh HI) as (Hg & Hlt & sh & ps & b & Hw & Hps & Hb & Hbk & Hlk & Hv).
  unfold set. rewrite Hg. simpl. rewrite Hbk, Hprim. simpl.
  destruct (store_ok t sh _ ps key value Hw Hps Hne Hlen)
    as [(q & j & t1 & t2 & sh2 & -> & Hc1 & Hs & Hw2 & Hv2)|(-> & Habs & Hfl)]; simpl.
  - left. rewrite Hs. simpl. rewrite (cfg_primary t t2) by apply Hv2. rewrite Hprim. simpl.
    exists t2. split_and!; try done; [by exists sh2|apply Hv2..].
  - right. split_and!; [|by rewrite Hv|done]. unfold unlock_bucket_ptr.
    rewrite (proj2 (Z.eqb_neq _ _)) by (unfold caller_wf in Hcl; lia). simpl.
    rewrite Hbk. simpl. rewrite Hv in Hul. simpl in Hul. by rewrite Hul.
Qed.

(** On a primary table, [del] of a present key by a caller that holds the
    bucket lock removes exactly that key (the last item of the chain may move
    into its slot, and an emptied extra bucket returns to the free list), keeps
    the invariant and releases one lock; [fill_hole] terminates. *)
Lemma del_primary_ok t caller kh key :
  Inv t -> is_primary t = true -> key <> kFtInvalidKey -> caller_wf caller ->
  is_Some (a_map (view t (bidx t kh)) !! key) -> a_held caller (view t (bidx t kh)) ->
  exists t', del caller kh key t = Ok (kSuccess, t') /\ Inv t' /\
    view_upd (bidx t kh) (a_unlock (a_del key (view t (bidx t kh)))) t t'.
Proof.
  intros HI Hprim Hne Hcl Hsome Hh.
  destruct (Inv_bucket t kh HI) as (Hg & Hlt & sh & ps & b & Hw & Hps & Hb & Hbk & Hlk & Hv).
  destruct (held_asserts t _ b caller _ Hv Hh) as [Ha1 Ha2]. rewrite Hv in Hsome. simpl in Hsome.
  destruct (remove_ok t sh _ ps key Hw Hps Hne Hsome) as (q & j & t2 & sh2 & Hfind & Hfill & Hw2 & Hv2).
  unfold del. rewrite Hg. simpl. rewrite Hbk, Hprim. simpl. rewrite Ha1, Ha2. simpl.
  rewrite Hfind. simpl. rewrite Hfill. simpl. rewrite (cfg_primary t t2) by apply Hv2. rewrite Hprim.
  destruct (then_unlock t t2 sh2 (bidx t kh) _ caller Hw2 Hlt Hcl Hv2 Hh) as (t' & -> & HI' & Hv').
  simpl. eauto.
Qed.

(** A lock attempt followed by the search of the bucket. *)
Lemma lock_then_find t sh i ps caller key :
  wf t sh -> chains sh !! i = Some ps -> (i < Z.to_nat (num_buckets_ t))%nat ->
  caller_wf caller -> key <> kFtInvalidKey -> a_cnt (view t i) < kMaxNumLocks ->
  match a_lock caller (view t i) with
  | None => lock_bucket_ptr caller i t = Ok (false, t)
  | Some a => exists t1 b1, lock_bucket_ptr caller i t = Ok (true, t1) /\ wf t1 sh /\
      view_upd i a t t1 /\ bkt t1 i = Ok b1 /\ timestamp b1 = a_ts a /\ a_held caller a /\
      match a_map (view t i) !! key with
      | Some v => exists q j c, find_item_index t1 i key = Ok (Some (q, j)) /\
                    bkt t1 q = Ok c /\ val_arr c !! j = Some v
      | None => find_item_index t1 i key = Ok None
      end
  end.
Proof.
  intros Hw Hi Hlt Hcl Hne Hcnt.
  pose proof (lock_bucket_ptr_ok t sh i caller Hw Hlt Hcl Hcnt) as Hlock.
  destruct (a_lock caller (view t i)) as [a|] eqn:Ea; [|done].
  destruct Hlock as (t1 & Hl1 & Hw1 & Hv1 & Hit). pose proof Hv1 as (Hva & Hcfg & _).
  destruct (bucket_at t1 sh i Hw1) as (b1 & Hb1 & Hbk1 & Hlw & Hvb).
  { by rewrite (cfg_nb_eq t t1 Hcfg). }
  assert (a_map a = a_map (view t i) /\ a_held caller a) as [Hm Hh].
  { unfold a_lock in Ea. unfold a_held. destruct (is_unlocked (a_ts (view t i))) eqn:Eu.
    - injection Ea as <-. simpl. split_and!; try done.
      rewrite is_locked_odd, is_unlocked_even in *. apply negb_true_iff in Eu.
      rewrite Z.odd_add, Eu. done.
    - destruct (Z.eqb_spec (a_locker (view t i)) caller) as [E|]; [|done]. injection Ea as <-. simpl.
      split_and!; try done. rewrite is_locked_odd, is_unlocked_even in *. by apply negb_false_iff in Eu. }
  exists t1, b1. rewrite Hva in Hvb. split_and!; try done; [by rewrite Hvb..|].
  pose proof (find_abs t1 sh i ps key Hw1 Hi Hne) as Hf.
  rewrite <- Hm. rewrite (find_item_index_ok t1 sh i ps) by done.
  assert (abs t1 i = a_map a) as <- by by rewrite Hvb.
  destruct (find_in t1 key ps) as [[q j]|].
  - destruct Hf as (c & v & _ & Hc & _ & Hvj & _ & ->). exists q, j, c. unfold bkt. rewrite Hc. done.
  - by destruct Hf as [-> _].
Qed.

(** [lock_bkt_and_get] takes the bucket lock and returns the value and the
    timestamp when the key exists; otherwise it leaves the caller with exactly the
    locks it had before (an unsuccessful attempt releases what it acquired). *)
Theorem lock_bkt_and_get_ok t caller kh key :
  Inv t -> is_primary t = true -> key <> kFtInvalidKey -> caller_wf caller ->
  a_cnt (view t (bidx t kh)) < kMaxNumLocks ->
  let '(r, ts, v, a') := a_lock_get caller key (view t (bidx t kh)) in
  exists t', lock_bkt_and_get caller kh key t = Ok (r, ts, v, t') /\ Inv t' /\
    view_upd (bidx t kh) a' t t'.
Proof.
  intros HI Hprim Hne Hcl Hcnt.
  destruct (Inv_bucket t kh HI) as (Hg & Hlt & sh & ps & b & Hw & Hps & _).
  pose proof (lock_then_find t sh _ ps caller key Hw Hps Hlt Hcl Hne Hcnt) as Hl.
  unfold a_lock_get, lock_bkt_and_get. rewrite Hprim. simpl. rewrite Hg. simpl.
  destruct (a_lock caller (view t (bidx t kh))) as [a|].
  2:{ rewrite Hl. simpl. exists t. by split_and!. }
  destruct Hl as (t1 & b1 & -> & Hw1 & Hv1 & Hbk & Hts & Hh & Hf). simpl.
  destruct (a_map (view t (bidx t kh)) !! key) as [v|].
  - destruct Hf as (q & j & c & -> & Hbc & Hvj). simpl. rewrite Hbk. simpl. rewrite Hbc. simpl.
    rewrite Hvj. simpl. rewrite Hts. exists t1. split_and!; [done|by exists sh|apply Hv1..].
  - rewrite Hf. simpl.
    destruct (then_unlock t t1 sh (bidx t kh) a caller Hw1 Hlt Hcl Hv1 Hh) as (t' & -> & HI' & Hv').
    simpl. eauto.
Qed.

(** [lock_bkt_for_ins] takes the bucket lock when the key is absent, reports
    [kExists] and releases its lock when it is present, and refuses when another
    caller holds the bucket. *)
Lemma lock_bkt_for_ins_ok t caller kh key :
  Inv t -> is_primary t = true -> key <> kFtInvalidKey -> caller_wf caller ->
  a_cnt (view t (bidx t kh)) < kMaxNumLocks ->
  let '(r, ts, a') := a_lock_ins caller key (view t (bidx t kh)) in
  exists t', lock_bkt_for_ins caller kh key t = Ok (r, ts, t') /\ Inv t' /\
    view_upd (bidx t kh) a' t t'.
Proof.
  intros HI Hprim Hne Hcl Hcnt.
  destruct (Inv_bucket t kh HI) as (Hg & Hlt & sh & ps & b & Hw & Hps & _).
  pose proof (lock_then_find t sh _ ps caller key Hw Hps Hlt Hcl Hne Hcnt) as Hl.
  unfold a_lock_ins, lock_bkt_for_ins. rewrite Hprim. simpl. rewrite Hg. simpl.
  destruct (a_lock caller (view t (bidx t kh))) as [a|].
  2:{ rewrite Hl. simpl. exists t. by split_and!. }
  destruct Hl as (t1 & b1 & -> & Hw1 & Hv1 & Hbk & Hts & Hh & Hf). simpl.
  destruct (a_map (view t (bidx t kh)) !! key) as [v|].
  - destruct Hf as (q & j & c & -> & _). simpl.
    destruct (then_unlock t t1 sh (bidx t kh) a caller Hw1 Hlt Hcl Hv1 Hh) as (t' & -> & HI' & Hv').
    simpl. eauto.
  - rewrite Hf. simpl. rewrite Hbk. simpl. rewrite Hts. exists t1.
    split_and!; [done|by exists sh|apply Hv1..].
Qed.

(** Locking and unlocking by hash. *)
Lemma lock_bucket_hash_ok t caller kh :
  Inv t -> is_primary t = true -> caller_wf caller ->
  a_cnt (view t (bidx t kh)) < kMaxNumLocks ->
  match a_lock caller (view t (bidx t kh)) with
  | Some a => exists t', lock_bucket_hash caller kh t = Ok (kSuccess, t') /\ Inv t' /\
                view_upd (bidx t kh) a t t'
  | None => lock_bucket_hash caller kh t = Ok (kLocked, t)
  end.
Proof.
  intros HI Hprim Hcl Hcnt.
  destruct (Inv_bucket t kh HI) as (Hg & Hlt & sh & ps & b & Hw & _).
  pose proof (lock_bucket_ptr_ok t sh _ caller Hw Hlt Hcl Hcnt) as Hl.
  unfold lock_bucket_hash. rewrite Hprim. simpl. rewrite Hg. simpl.
  destruct (a_lock caller _) as [a|]; [|by rewrite Hl].
  destruct Hl as (t' & -> & Hw' & Hv' & _). simpl. exists t'. split_and!; [done|by exists sh|apply Hv'..].
Qed.

Lemma unlock_bucket_hash_ok t caller kh :
  Inv t -> is_primary t = true -> caller_wf caller -> a_held caller (view t (bidx t kh)) ->
  exists t', unlock_bucket_hash caller kh t = Ok (kSuccess, t') /\ Inv t' /\
    view_upd (bidx t kh) (a_unlock (view t (bidx t kh))) t t'.
Proof.
  intros HI Hprim Hcl Hh.
  destruct (Inv_bucket t kh HI) as (Hg & Hlt & sh & ps & b & Hw & _).
  unfold unlock_bucket_hash. rewrite Hprim. simpl. rewrite Hg. simpl.
  destruct (then_unlock t t sh (bidx t kh) (view t (bidx t kh)) caller Hw Hlt Hcl)
    as (t' & -> & HI' & Hv'); try done.
  simpl. eauto.
Qed.

(** Locking a bucket and unlocking it again leaves a held bucket as it was,
    and advances the timestamp of a free bucket by two. *)
Lemma lock_unlock_inverse t caller kh :
  Inv t -> is_primary t = true -> caller_wf caller ->
  a_cnt (view t (bidx t kh)) < kMaxNumLocks -> a_lock caller (view t (bidx t kh)) <> None ->
  exists t1 t2, lock_bucket_hash caller kh t = Ok (kSuccess, t1) /\
    unlock_bucket_hash caller kh t1 = Ok (kSuccess, t2) /\ Inv t2 /\
    view_upd (bidx t kh)
      (if is_unlocked (a_ts (view t (bidx t kh)))
       then mkA (a_map (view t (bidx t kh))) (wrap 64 (a_ts (view t (bidx t kh)) + 2))
              kInvalidCallerId 0
       else view t (bidx t kh)) t t2.
Proof.
  intros HI Hprim Hcl Hcnt Hne.
  pose proof (lock_bucket_hash_ok t caller kh HI Hprim Hcl Hcnt) as Hl.
  destruct (a_lock caller (view t (bidx t kh))) as [a|] eqn:Ea; [clear Hne|done].
  destruct Hl as (t1 & Hl1 & HI1 & Hv1). pose proof Hv1 as (Hva & Hcfg & _).
  destruct (Inv_bucket t kh HI) as (_ & Hlt & sh & ps & b & Hw & _ & _ & _ & Hlk & Hvb).
  assert (a_held caller a /\ a_unlock a =
      if is_unlocked (a_ts (view t (bidx t kh)))
      then mkA (a_map (view t (bidx t kh))) (wrap 64 (a_ts (view t (bidx t kh)) + 2)) kInvalidCallerId 0
      else view t (bidx t kh)) as [Hh Hu].
  { unfold a_lock in Ea. unfold a_held, a_unlock. destruct Hlk as [_ Hlk].
    rewrite !is_locked_odd, !is_unlocked_even in *. rewrite Hvb in *. simpl in *.
    destruct (Z.odd (timestamp b)) eqn:Ho; simpl in *.
    - destruct (Z.eqb_spec (locker_id b) caller) as [<-|]; [|done]. injection Ea as <-. simpl.
      rewrite (proj2 (Z.eqb_neq _ 1)) by lia. split; [done|]. f_equal. lia.
    - injection Ea as <-. simpl. rewrite Z.odd_add, Ho. split; [done|]. do 2 f_equal. lia. }
  destruct (unlock_bucket_hash_ok t1 caller kh) as (t2 & Hu2 & HI2 & Hv2); try done.
  - by rewrite (cfg_primary t t1).
  - by rewrite (cfg_bidx t t1), Hva.
  - rewrite (cfg_bidx t t1), Hva, Hu in Hv2 by done. exists t1, t2.
    split_and!; try done. all: by eapply view_upd_trans.
Qed.

End FixedTableOps.
