(* ===== verification/FixedTableInit.v ===== *)
(** * The MICA fixed-size table: initialization
    ([src/mica2/src/mica/table/fixedtable_impl/init.h])

    The constructor and [reset] establish the table invariant on freshly allocated
    memory: every primary bucket is an empty chain of its own and all extra
    buckets are in the free list. *)

From S2P Require Import Prelude Util FixedTable FixedTableInv FixedTableOps.
From Stdlib Require Import ZArith Lia Bool.
From stdpp Require Import base numbers list gmap.
#[local] Open Scope Z_scope.
Import FixedTable FixedTableInv FixedTableOps.

Module FixedTableInit.

(** The table memory before [reset]: no primary bucket is chained. *)
Record fresh (t : table) : Prop := {
  fresh_cfg : cfg_wf t;
  fresh_next : forall i b, (i < Z.to_nat (num_buckets_ t))%nat -> buckets_ t !! i = Some b ->
    next_extra_bucket_index b = 0;
  fresh_vals : Forall (fun b => length (val_arr b) = kBucketCap /\
    Forall (fun v => Z.of_nat (length v) = val_size t) (val_arr b)) (buckets_ t)
}.

(** The shape of an empty table. *)
Definition shape0 (t : table) : shape :=
  mkShape ((fun i => [i]) <$> seq 0 (Z.to_nat (num_buckets_ t)))
          (seq (Z.to_nat (num_buckets_ t)) (Z.to_nat (num_extra_buckets_ t))).

(** The empty abstract bucket: the initial timestamp is version 0 with the canary
    in the upper bits. *)
Definition abucket0 : abucket := mkA ∅ (Z.shiftl kTimestampCanary 61) kInvalidCallerId 0.

(** ** Linking the free list *)

(** The bucket at position [p] after the extra indices [lo, hi) were linked. *)
Definition linked (t : table) (lo hi : Z) (p : nat) (b : Bucket) : Bucket :=
  let e := Z.of_nat p - num_buckets_ t + 1 in
  if (lo <=? e) && (e <? hi) then with_next (e + 1) b else b.

Lemma link_extra_ok n e t :
  cfg_wf t -> 1 <= e -> e + Z.of_nat n <= num_extra_buckets_ t ->
  exists t', link_extra n e t = Ok t' /\ cfg t' = cfg t /\
    fl_lock t' = fl_lock t /\ fl_head t' = fl_head t /\
    core <$> buckets_ t' = core <$> buckets_ t /\
    forall p, buckets_ t' !! p = linked t e (e + Z.of_nat n) p <$> buckets_ t !! p.
Proof.
  revert e t. induction n as [|n IH]; intros e t Hc He Hn.
  - exists t. split_and!; try done. intros p. rewrite <- (option_fmap_id (buckets_ t !! p)) at 1.
    apply option_fmap_ext. intros b. unfold linked. case_goal; [|done]. bool_prop. lia.
  - simpl. rewrite get_extra_bucket_ok by (done || lia). simpl.
    set (t1 := upd (epos t e) (with_next (e + 1)) t).
    assert (cfg_wf t1) as Hc1 by (apply (cfg_wf_ext t); [done|apply upd_length|done]).
    destruct (IH (e + 1) t1 Hc1) as (t' & -> & Hcfg & Hl & Hh & Hcore & Hp); [lia| |].
    { change (num_extra_buckets_ t1) with (num_extra_buckets_ t). lia. }
    exists t'. split_and!; try done.
    + rewrite Hcore. apply core_upd_next.
    + intros p. rewrite Hp. destruct (cfg_nb t Hc) as (k & Hk & Hnb). pose proof (pow2_pos k ltac:(lia)).
      unfold linked. change (num_buckets_ t1) with (num_buckets_ t).
      destruct (decide (p = epos t e)) as [->|Hne].
      * unfold t1. destruct (buckets_ t !! epos t e) as [b|] eqn:Hb.
        2:{ simpl. rewrite list_lookup_alter_eq, Hb. done. }
        rewrite (upd_lookup _ _ _ b Hb). simpl. f_equal.
        assert (Z.of_nat (epos t e) - num_buckets_ t + 1 = e) as -> by (unfold epos; lia).
        rewrite (proj2 (Z.leb_gt (e + 1) e)), (proj2 (Z.leb_le e e)) by lia. simpl.
        by rewrite (proj2 (Z.ltb_lt e _)) by lia.
      * unfold t1. rewrite upd_lookup_ne by done. apply option_fmap_ext. intros b.
        assert (Z.of_nat p - num_buckets_ t + 1 <> e) by (unfold epos in Hne; lia).
        replace (e + 1 <=? Z.of_nat p - num_buckets_ t + 1) with (e <=? Z.of_nat p - num_buckets_ t + 1).
        2:{ apply eq_true_iff_eq. rewrite !Z.leb_le. lia. }
        by replace (e + 1 + Z.of_nat n) with (e + Z.of_nat (S n)) by lia.
Qed.

(** A run of extra buckets, each linked to the next, is a segment. *)
Lemma seg_run t e n :
  0 < num_buckets_ t -> 1 <= e -> e + Z.of_nat n = num_extra_buckets_ t ->
  (forall p, (p < length (buckets_ t))%nat -> (Z.to_nat (num_buckets_ t) <= p)%nat ->
     exists b, buckets_ t !! p = Some b /\ next_extra_bucket_index b =
       let e' := Z.of_nat p - num_buckets_ t + 1 in
       if e' =? num_extra_buckets_ t then 0 else e' + 1) ->
  Z.of_nat (length (buckets_ t)) = num_buckets_ t + num_extra_buckets_ t ->
  seg t e (seq (epos t e) (S n)).
Proof.
  intros Hnb. revert e. induction n as [|n IH]; intros e He Hn Hb Hlen.
  - destruct (Hb (epos t e)) as (b & Hbe & Hnx); [unfold epos; lia|unfold epos; lia|].
    simpl. apply (seg_cons t e b); [lia|done|]. rewrite Hnx. unfold epos.
    rewrite (proj2 (Z.eqb_eq _ _)) by lia. constructor.
  - destruct (Hb (epos t e)) as (b & Hbe & Hnx); [unfold epos; lia|unfold epos; lia|].
    change (seq (epos t e) (S (S n))) with (epos t e :: seq (S (epos t e)) (S n)).
    apply (seg_cons t e b); [lia|done|].
    replace (next_extra_bucket_index b) with (e + 1).
    2:{ rewrite Hnx. cbv zeta. unfold epos. rewrite (proj2 (Z.eqb_neq _ _)) by lia. lia. }
    replace (S (epos t e)) with (epos t (e + 1)) by (unfold epos; lia).
    apply IH; try done; lia.
Qed.

Lemma reset_core_items b : bkt_items (reset_bucket b) = [].
Proof.
  unfold bkt_items. simpl. destruct (val_arr b) as [|? [|? [|? [|? [|? [|? [|? ?]]]]]]]; done.
Qed.

(** The links [reset] leaves: what each bucket's successor is. *)
Lemma reset_links t :
  fresh t ->
  exists t', reset t = Ok t' /\ cfg t' = cfg t /\ fl_lock t' = 0 /\
    core <$> buckets_ t' = core <$> map reset_bucket (buckets_ t) /\
    fl_head t' = (if num_extra_buckets_ t =? 0 then 0 else 1) /\
    forall p b, buckets_ t !! p = Some b -> exists b', buckets_ t' !! p = Some b' /\
      next_extra_bucket_index b' =
        let e := Z.of_nat p - num_buckets_ t + 1 in
        if e <=? 0 then 0 else if e =? num_extra_buckets_ t then 0 else e + 1.
Proof.
  intros [Hc Hnext _]. unfold reset.
  set (t1 := with_fl (with_buckets t (map reset_bucket (buckets_ t))) 0 _).
  assert (forall p b, buckets_ t !! p = Some b -> buckets_ t1 !! p = Some (reset_bucket b)) as Hb1.
  { intros p b Hb. simpl. change (@map Bucket Bucket) with (@fmap list _ Bucket Bucket).
    by rewrite list_lookup_fmap, Hb. }
  assert (cfg_wf t1) as Hc1 by (apply (cfg_wf_ext t); [done|apply length_map|done]).
  pose proof (cfg_ne t Hc) as Hne. destruct (cfg_nb t Hc) as (k & Hk & Hnb).
  pose proof (pow2_pos k ltac:(lia)). pose proof (cfg_len t Hc) as Hlen.
  change (num_extra_buckets_ t1) with (num_extra_buckets_ t).
  destruct (Z.eqb_spec (num_extra_buckets_ t) 0) as [H0|H0].
  - eexists. split_and!; try done. intros p b Hb. exists (reset_bucket b). split; [by apply Hb1|].
    cbv zeta. apply lookup_lt_Some in Hb as Hlt. rewrite (proj2 (Z.leb_le _ 0)) by lia. simpl.
    apply (Hnext p); [lia|done].
  - destruct (link_extra_ok (Z.to_nat (num_extra_buckets_ t - 1)) 1 t1 Hc1)
      as (t2 & -> & Hcfg & Hl & Hh & Hcore & Hp); [lia| |].
    { change (num_extra_buckets_ t1) with (num_extra_buckets_ t). lia. }
    simpl. assert (cfg t2 = cfg t) as Hcfg2 by done.
    assert (cfg_wf t2) as Hc2.
    { apply (cfg_wf_ext t1); [done| |done]. rewrite <- !(length_fmap core). by rewrite Hcore. }
    assert (num_extra_buckets_ t2 = num_extra_buckets_ t) as -> by (unfold cfg in Hcfg2; congruence).
    assert (num_buckets_ t2 = num_buckets_ t) as Enb by by apply cfg_nb_eq.
    rewrite get_extra_bucket_ok; [|done|unfold cfg in Hcfg2; injection Hcfg2; lia]. simpl.
    eexists. split; [done|]. split_and!; try done.
    + change (buckets_ (with_fl ?x _ _)) with (buckets_ x). by rewrite core_upd_next, Hcore.
    + intros p b Hb. change (buckets_ (with_fl ?x _ _)) with (buckets_ x).
      pose proof (Hp p) as Hp'. rewrite (Hb1 p b Hb) in Hp'. simpl in Hp'.
      rewrite Z2Nat.id in Hp' by lia.
      apply lookup_lt_Some in Hb as Hlt.
      destruct (decide (p = epos t2 (num_extra_buckets_ t))) as [->|Hpne].
      * eexists. split; [by apply upd_lookup|]. cbv zeta. unfold epos. simpl.
        rewrite (proj2 (Z.leb_gt _ 0)), (proj2 (Z.eqb_eq _ _)) by lia. done.
      * rewrite upd_lookup_ne, Hp' by done. eexists. split; [done|].
        unfold epos in Hpne. unfold linked. change (num_buckets_ t1) with (num_buckets_ t).
        cbv zeta. destruct (Z.leb_spec (Z.of_nat p - num_buckets_ t + 1) 0) as [Hle|Hgt].
        -- rewrite (proj2 (Z.leb_gt 1 _)) by lia. simpl. apply (Hnext p); [lia|done].
        -- rewrite (proj2 (Z.leb_le 1 _)), (proj2 (Z.ltb_lt _ _)), (proj2 (Z.eqb_neq _ _)) by lia. done.
Qed.

Lemma singletons_lookup n i ps :
  ((fun i => [i]) <$> seq 0 n : list (list nat)) !! i = Some ps -> ps = [i] /\ (i < n)%nat.
Proof.
  rewrite list_lookup_fmap. intros H. apply fmap_Some in H as (j & Hj & ->).
  apply lookup_seq in Hj as [-> Hlt]. done.
Qed.

Lemma singletons_join (l : list nat) : ((fun i => [i]) <$> l : list (list nat)) ≫= id = l.
Proof. induction l as [|x l IH]; [done|]. by rewrite fmap_cons, bind_cons, IH. Qed.

Section ResetWf.
Context (t t' : table).
Hypothesis (Hfresh : fresh t).
Hypothesis (Hcfg : cfg t' = cfg t) (Hlock : fl_lock t' = 0).
Hypothesis (Hcore : core <$> buckets_ t' = core <$> map reset_bucket (buckets_ t)).
Hypothesis (Hhead : fl_head t' = (if num_extra_buckets_ t =? 0 then 0 else 1)).
Hypothesis (Hnext : forall p b, buckets_ t !! p = Some b -> exists b', buckets_ t' !! p = Some b' /\
      next_extra_bucket_index b' =
        let e := Z.of_nat p - num_buckets_ t + 1 in
        if e <=? 0 then 0 else if e =? num_extra_buckets_ t then 0 else e + 1).

Lemma reset_length : length (buckets_ t') = length (buckets_ t).
Proof. rewrite <- (length_fmap core), Hcore, length_fmap. apply length_map. Qed.

(** Every bucket of the reset table holds the initial contents and lock word. *)
Lemma reset_core_at p b' :
  buckets_ t' !! p = Some b' ->
  exists b, buckets_ t !! p = Some b /\ core b' = core (reset_bucket b).
Proof.
  intros Hb'. apply (f_equal (lookup p)) in Hcore. rewrite !list_lookup_fmap, Hb' in Hcore.
  destruct (buckets_ t !! p) as [b|]; [|done].
  exists b. split; [done|]. simpl in Hcore. congruence.
Qed.

Lemma reset_items_at p : items_at t' p = [].
Proof.
  unfold items_at. destruct (buckets_ t' !! p) as [b'|] eqn:Hb'; [|done].
  destruct (reset_core_at p b' Hb') as (b & _ & E). unfold core in E. simpl in E.
  injection E as _ _ _ Hk Hv. rewrite <- (reset_core_items b). unfold bkt_items. simpl. by rewrite Hk, Hv.
Qed.

Lemma reset_items ps : items t' ps = [].
Proof. unfold items. induction ps as [|p ps IH]; [done|]. rewrite bind_cons, reset_items_at. done. Qed.

Lemma reset_links_wf : links_wf t' (shape0 t').
Proof.
  destruct Hfresh as [Hc _ _]. pose proof (cfg_ne t Hc) as Hne.
  destruct (cfg_nb t Hc) as (k & Hk & Hnb). pose proof (pow2_pos k ltac:(lia)).
  pose proof (cfg_len t Hc) as Hlen. pose proof reset_length as Hlen'.
  pose proof (cfg_nb_eq t t' Hcfg) as Enb.
  assert (num_extra_buckets_ t' = num_extra_buckets_ t) as Ene by (unfold cfg in Hcfg; congruence).
  unfold shape0. constructor; simpl.
  - done.
  - rewrite length_fmap, length_seq. lia.
  - intros i ps Hi. apply singletons_lookup in Hi as [-> Hlt]. split; [|done].
    destruct (lookup_lt_is_Some_2 (buckets_ t) i) as [b Hb]; [lia|].
    destruct (Hnext i b Hb) as (b' & Hb' & Hz). apply (path_one t' i b' Hb'). rewrite Hz. cbv zeta.
    by rewrite (proj2 (Z.leb_le _ 0)) by lia.
  - rewrite Hhead, Ene. destruct (Z.eqb_spec (num_extra_buckets_ t) 0) as [H0|H0].
    { rewrite H0. constructor. }
    replace (Z.to_nat (num_buckets_ t')) with (epos t' 1) by (unfold epos; lia).
    replace (Z.to_nat (num_extra_buckets_ t)) with (S (Z.to_nat (num_extra_buckets_ t - 1))) by lia.
    apply seg_run; try lia. intros p Hp Hge.
    destruct (lookup_lt_is_Some_2 (buckets_ t) p) as [b Hb]; [lia|].
    destruct (Hnext p b Hb) as (b' & Hb' & Hz). exists b'. split; [done|]. rewrite Hz. cbv zeta.
    rewrite Enb, Ene. by rewrite (proj2 (Z.leb_gt _ 0)) by lia.
  - rewrite singletons_join, <- seq_app. by replace (length (buckets_ t'))
      with (Z.to_nat (num_buckets_ t') + Z.to_nat (num_extra_buckets_ t'))%nat by lia.
Qed.

Lemma reset_wf : wf t' (shape0 t').
Proof.
  destruct Hfresh as [Hc _ Hv]. split_and!.
  - apply (cfg_wf_ext t); [done|apply reset_length|done].
  - apply reset_links_wf.
  - constructor.
    + apply Forall_lookup. intros p b' Hb'. destruct (reset_core_at p b' Hb') as (b & Hb & E).
      unfold core in E. simpl in E. injection E as _ _ _ Hk Hvv. unfold bkt_wf. rewrite Hk, Hvv.
      assert (val_size t' = val_size t) as -> by (unfold cfg in Hcfg; congruence).
      split; [done|]. by eapply (Forall_lookup_1 _ _ _ _ Hv).
    + intros p _. apply reset_items_at.
    + intros i ps _. rewrite reset_items. constructor.
  - apply Forall_lookup. intros p b' Hb'. destruct (reset_core_at p b' Hb') as (b & Hb & E).
    unfold core in E. cbn [locker_id num_locks timestamp reset_bucket] in E. injection E as H1 H2 H3 _ _.
    unfold lock_wf. rewrite H1, H2, H3. split; [by split; vm_compute|done].
Qed.

Lemma reset_view i : (i < Z.to_nat (num_buckets_ t'))%nat -> view t' i = abucket0.
Proof.
  intros Hi. destruct (bucket_at t' _ i reset_wf Hi) as (b' & Hb' & _ & _ & ->).
  destruct (reset_core_at i b' Hb') as (b & _ & E). unfold core in E.
  cbn [locker_id num_locks timestamp reset_bucket] in E. injection E as -> -> -> _ _.
  unfold abucket0. f_equal. unfold abs. by rewrite reset_items.
Qed.
End ResetWf.

Lemma reset_ok t :
  fresh t ->
  exists t', reset t = Ok t' /\ cfg t' = cfg t /\ Inv t' /\
    forall i, (i < Z.to_nat (num_buckets_ t'))%nat -> view t' i = abucket0.
Proof.
  intros Hf. destruct (reset_links t Hf) as (t' & Hr & Hcfg & Hl & Hcore & Hh & Hn).
  exists t'. split_and!; try done.
  - exists (shape0 t'). by eapply (reset_wf t).
  - intros i Hi. by eapply (reset_view t).
Qed.

(** ** The constructor *)

Lemma log_num_buckets_ok fuel nb l r :
  0 <= l -> log_num_buckets fuel nb l = Ok r -> l <= r /\ nb <= 2 ^ r /\ (r = l \/ 2 ^ (r - 1) < nb).
Proof.
  revert l. induction fuel as [|fuel IH]; intros l Hl; simpl; [done|].
  rewrite Z.shiftl_1_l. case_goal; bool_prop.
  - intros H. apply IH in H as (H1 & H2 & H3); [|lia]. split_and!; [lia|lia|].
    right. destruct H3 as [->|]; [|done]. by replace (l + 1 - 1) with l by lia.
  - intros [= <-]. split_and!; [lia|lia|by left].
Qed.

Lemma link_extra_cfg n e t t' : link_extra n e t = Ok t' -> cfg t' = cfg t.
Proof.
  revert e t. induction n as [|n IH]; intros e t; simpl; [by intros [= <-]|].
  destruct (get_extra_bucket t e); simpl; [|done]. intros H. by rewrite (IH _ _ H).
Qed.

Lemma reset_cfg t t' : reset t = Ok t' -> cfg t' = cfg t.
Proof.
  unfold reset. set (t1 := with_fl _ _ _). change (cfg t) with (cfg t1).
  destruct (num_extra_buckets_ t1 =? 0); [by intros [= <-]|].
  destruct (link_extra _ 1 t1) as [t2|] eqn:E; simpl; [|done]. apply link_extra_cfg in E as <-.
  destruct (get_extra_bucket _ _); simpl; [|done]. by intros [= <-].
Qed.

Lemma zero_fresh prim vs l ne :
  0 <= l < 32 -> 0 <= ne -> 2 ^ l + ne < 2 ^ 32 -> u 64 vs -> vs mod 8 = 0 ->
  fresh (mkTable prim vs (2 ^ l) (2 ^ l - 1) ne 0 0
           (replicate (Z.to_nat (wrap 32 (2 ^ l + ne))) (zero_bucket vs))).
Proof.
  intros Hl Hne Hs [Hv0 Hv1] Hm. pose proof (pow2_pos l ltac:(lia)).
  unfold wrap. rewrite Z.mod_small by lia. constructor; simpl.
  - constructor; cbn [num_buckets_ num_buckets_mask_ num_extra_buckets_ buckets_ val_size]; try lia; try done.
    + by exists l.
    + rewrite length_replicate. lia.
  - intros i b _ Hb. apply lookup_replicate in Hb as [-> _]. done.
  - apply Forall_replicate. cbn [val_arr zero_bucket]. split; [apply length_replicate|].
    apply Forall_replicate. rewrite length_replicate. lia.
Qed.

Lemma make_ok item_count vs shm prim t :
  u 64 vs ->
  make item_count vs shm prim = Ok t -> num_buckets_ t + num_extra_buckets_ t < 2 ^ 32 ->
  Inv t /\ is_primary t = prim /\ val_size t = vs /\
  forall i, (i < Z.to_nat (num_buckets_ t))%nat -> view t i = abucket0.
Proof.
  intros Hvs H Hsum. unfold make in H.
  apply assert_then in H as [Ev H]. apply assert_then in H as [_ H]. cbv zeta in H.
  set (n0 := wrap 64 (wrap 64 (item_count * 11) / 10 + _ - 1) / _) in H.
  apply assert_then in H as [_ H]. apply bind_ok in H as (l & El & H).
  apply assert_then in H as [Hl32 H]. unfold safe_cast_u32 in H. rewrite Z.shiftl_1_l in H.
  apply bind_ok in H as (nb & Enb & H). apply assert_then in Enb as [E1 [= <-]].
  apply bind_ok in H as (mask & Em & H). apply assert_then in Em as [_ [= <-]].
  apply bind_ok in H as (ne0 & Ene & H). apply assert_then in Ene as [E3 [= <-]].
  bool_prop. apply log_num_buckets_ok in El as (Hl0 & _); [|lia].
  set (ne := extra_buckets_for n0) in *.
  set (t0 := mkTable prim vs (2 ^ l) (2 ^ l - 1) ne 0 0 _) in H.
  pose proof (reset_cfg _ _ H) as Hcfg.
  assert (num_buckets_ t = 2 ^ l /\ num_extra_buckets_ t = ne /\ is_primary t = prim /\ val_size t = vs)
    as (Hnb & Hne & Hpr & Hvsz) by (unfold cfg in Hcfg; injection Hcfg as E5 E6 E7 E8 E9; done).
  assert (l <> 32) by (intros ->; lia).
  destruct (reset_ok t0) as (t' & Hr & _ & HI & Hview).
  { apply zero_fresh; try done; lia. }
  rewrite H in Hr. injection Hr as <-. done.
Qed.

(** ** [set_spinlock]: population *)

Lemma lock_bucket_ptr_fl caller p t r t' : lock_bucket_ptr caller p t = Ok (r, t') -> fl_head t' = fl_head t.
Proof.
  unfold lock_bucket_ptr. intros H. apply assert_then in H as [_ H]. apply bind_ok in H as (b & _ & H).
  case_match; [|case_match; [|by simplify_eq]];
    repeat (apply assert_then in H as [_ H]); by simplify_eq.
Qed.

(** Acquiring a free bucket or one already held. *)
Lemma set_spinlock_ok t caller kh key value a :
  Inv t -> key <> kFtInvalidKey -> caller_wf caller ->
  val_size t <= Z.of_nat (length value) ->
  a_cnt (view t (bidx t kh)) < kMaxNumLocks -> a_lock caller (view t (bidx t kh)) = Some a ->
  exists r t', set_spinlock caller kh key value t = Ok (r, t') /\ Inv t' /\
    ((r = kSuccess /\ view_upd (bidx t kh) (a_unlock (a_put key (stored t value) a)) t t') \/
     (r = kInsufficientSpaceIndex /\ a_map a !! key = None /\ fl_head t = 0 /\
      view_upd (bidx t kh) (a_unlock a) t t')).
Proof.
  intros HI Hne Hcl Hlen Hcnt Ha.
  destruct (Inv_bucket t kh HI) as (Hg & Hlt & sh & ps & b & Hw & Hps & _).
  pose proof (lock_then_find t sh _ ps caller key Hw Hps Hlt Hcl Hne Hcnt) as Hl. rewrite Ha in Hl.
  destruct Hl as (t1 & b1 & Hlock & Hw1 & Hv1 & Hbk & _ & Hh & _). pose proof Hv1 as (Hva & Hcfg & _).
  unfold set_spinlock. rewrite Hg. simpl. rewrite Hlock. simpl.
  assert (stored t1 value = stored t value) as Est by (unfold stored, cfg in *; by injection Hcfg as _ -> _ _ _).
  destruct (store_ok t1 sh _ ps key value Hw1 Hps Hne)
    as [(q & j & t2 & t3 & sh3 & -> & _ & Hs & Hw3 & Hv3)|(-> & Habs & Hfl)]; simpl.
  - unfold cfg in Hcfg. by injection Hcfg as _ -> _ _ _.
  - rewrite Hs. simpl. rewrite Hva, Est in Hv3. apply (view_upd_trans _ _ _ _ _ _ Hv1) in Hv3.
    destruct (then_unlock t t3 sh3 (bidx t kh) _ caller Hw3 Hlt Hcl Hv3 Hh) as (t' & -> & HI' & Hv').
    simpl. eauto 10.
  - destruct (then_unlock t t1 sh (bidx t kh) a caller Hw1 Hlt Hcl Hv1 Hh) as (t' & -> & HI' & Hv').
    simpl. exists kInsufficientSpaceIndex, t'. split_and!; try done. right.
    apply lock_bucket_ptr_fl in Hlock. rewrite <- Hlock. split_and!; try done; try apply Hv'.
    destruct (bucket_at t1 sh (bidx t kh) Hw1) as (b' & _ & _ & _ & Hvb).
    { by rewrite (cfg_nb_eq t t1 Hcfg). }
    rewrite Hva in Hvb. by rewrite Hvb.
Qed.

(** A small table, for examples: 16 primary buckets and one extra bucket. *)
Lemma demo_table :
  exists t, make 60 8 1 true = Ok t /\ Inv t /\ is_primary t = true /\ val_size t = 8 /\
    num_buckets_ t = 16 /\ bidx t 0 = 0%nat /\ forall i, (i < 16)%nat -> view t i = abucket0.
Proof.
  destruct (make 60 8 1 true) as [t|] eqn:E; [|vm_compute in E; discriminate].
  assert (num_buckets_ t = 16 /\ num_extra_buckets_ t = 1 /\ bidx t 0 = 0%nat) as (Hn & He & Hb).
  { vm_compute in E. injection E as <-. done. }
  destruct (make_ok 60 8 1 true t) as (HI & Hp & Hv & Hview); [done|done|lia|].
  exists t. split_and!; try done. intros i Hi. apply Hview. lia.
Qed.

(** In a table that satisfies the invariant, no chain continues into the head of
    the free list. *)
Lemma chain_free_disjoint t i b :
  Inv t -> (i < Z.to_nat (num_buckets_ t))%nat -> buckets_ t !! i = Some b ->
  next_extra_bucket_index b <> 0 -> fl_head t <> next_extra_bucket_index b.
Proof.
  intros [sh (Hc & Hl & _)] Hi Hb Hne Heq.
  destruct (lookup_lt_is_Some_2 (chains sh) i) as [ps Hps]; [pose proof (lk_len t sh Hl); lia|].
  destruct (chain_cons t sh Hl i ps Hps) as (l & -> & p & b' & l' & [= <- <-] & Hb' & Hs). simplify_eq.
  destruct l as [|e l1]; [by inversion Hs|]. apply seg_cons_inv in Hs as (_ & He & _).
  pose proof (lk_free t sh Hl) as Hf. rewrite Heq in Hf.
  destruct (free sh) as [|e' fr] eqn:Efr; [by inversion Hf|]. apply seg_cons_inv in Hf as (_ & He' & _).
  apply (chain_not_free t sh Hl i _ e Hps); [set_solver|]. rewrite Efr. set_solver.
Qed.

(** Inserts [n] keys with hash 0. *)
Fixpoint fill (n : nat) (t : table) : res table :=
  match n with
  | O => Ok t
  | S m => '(_, t) ← set_spinlock 3 0 (Z.of_nat n) (replicate 8 0) t; fill m t
  end.

(** The constructor, given a configuration it accepts, builds a table that
    satisfies the invariant, in which every bucket is empty, unlocked and at the
    initial timestamp. *)
Theorem make_correct item_count vs shm prim t :
  u 64 vs -> make item_count vs shm prim = Ok t ->
  num_buckets_ t + num_extra_buckets_ t < 2 ^ 32 ->
  Inv t /\ is_primary t = prim /\ val_size t = vs /\
  forall i, (i < Z.to_nat (num_buckets_ t))%nat -> view t i = abucket0.
Proof. apply make_ok. Qed.

Lemma make_correct_witness :
  exists t, make 300 16 7 false = Ok t /\ Inv t.
Proof.
  destruct (make 300 16 7 false) as [t|] eqn:E; [|vm_compute in E; discriminate].
  exists t. split; [reflexivity|]. apply (make_correct 300 16 7 false t).
  - split; [lia|reflexivity].
  - exact E.
  - vm_compute in E. injection E as <-. vm_compute. reflexivity.
Defined.

(** [reset] does not clear the links of the primary buckets: on a table whose
    first bucket has overflowed into the extra bucket, [reset] leaves the extra
    bucket both chained behind that bucket and in the free list. *)
Theorem reset_keeps_stale_chain :
  exists t t', (t0 ← make 60 8 1 true; fill 8 t0) = Ok t /\ reset t = Ok t' /\ ~ Inv t'.
Proof.
  destruct (t0 ← make 60 8 1 true; fill 8 t0) as [t|] eqn:E; [|vm_compute in E; discriminate].
  destruct (reset t) as [t'|] eqn:E'; [|vm_compute in E; injection E as <-; vm_compute in E'; discriminate].
  exists t, t'. split; [exact eq_refl|]. split; [exact E'|]. intros HI.
  assert (exists b, (0 < Z.to_nat (num_buckets_ t'))%nat /\ buckets_ t' !! 0%nat = Some b /\
    next_extra_bucket_index b = 1 /\ fl_head t' = 1) as (b & Hlt & Hb & Hn & Hh).
  { vm_compute in E. injection E as <-. vm_compute in E'. injection E' as <-. eexists.
    split_and!; [vm_compute; lia|reflexivity..]. }
  apply (chain_free_disjoint t' 0 b HI Hlt Hb); lia.
Qed.

End FixedTableInit.
