(* ===== verification/FixedTableSteps.v ===== *)
(** * The MICA fixed-size table: versions and optimistic reads

    Tables are shared: the requests of many callers are interleaved.  This file
    defines the steps a primary table takes, shows that the timestamp of a bucket
    never decreases and identifies the bucket's contents while it is even, and
    derives that an optimistic [get] that runs concurrently with other callers
    returns what an atomic [get] would have returned, or [kLocked]. *)

From S2P Require Import Prelude Util FixedTable FixedTableInv FixedTableOps FixedTableInit.
From Stdlib Require Import ZArith Lia Bool.
From stdpp Require Import base numbers list gmap.
#[local] Open Scope Z_scope.
Import FixedTable FixedTableInv FixedTableOps FixedTableInit.

Module FixedTableSteps.

(** ** Steps *)

(** One operation of caller [c] at a primary table. *)
Inductive step (c : Z) (t : table) : table -> Prop :=
| step_lock kh r t' :
    lock_bucket_hash c kh t = Ok (r, t') -> step c t t'
| step_unlock kh r t' :
    unlock_bucket_hash c kh t = Ok (r, t') -> step c t t'
| step_lock_get kh key r ts v t' :
    key <> kFtInvalidKey -> lock_bkt_and_get c kh key t = Ok (r, ts, v, t') -> step c t t'
| step_lock_ins kh key r ts t' :
    key <> kFtInvalidKey -> lock_bkt_for_ins c kh key t = Ok (r, ts, t') -> step c t t'
| step_set kh key value r t' :
    key <> kFtInvalidKey -> val_size t <= Z.of_nat (length value) ->
    set c kh key value t = Ok (r, t') -> step c t t'
| step_del kh key r t' :
    key <> kFtInvalidKey -> del c kh key t = Ok (r, t') -> step c t t'.

(** [n] operations of callers that satisfy [P]. *)
Inductive steps (P : Z -> Prop) : nat -> table -> table -> Prop :=
| steps_O t : steps P 0 t t
| steps_S n c t1 t2 t3 :
    P c -> caller_wf c -> step c t1 t2 -> steps P n t2 t3 -> steps P (S n) t1 t3.

(** The same operation on the abstract bucket it addresses. *)
Inductive bstep (c : Z) (a : abucket) : abucket -> Prop :=
| bstep_same : bstep c a a
| bstep_lock a' : a_lock c a = Some a' -> bstep c a a'
| bstep_try a' : a_lock c a = Some a' -> bstep c a (a_unlock a')
| bstep_unlock : a_held c a -> bstep c a (a_unlock a)
| bstep_put k v : a_held c a -> bstep c a (a_unlock (a_put k v a))
| bstep_del k : a_held c a -> bstep c a (a_unlock (a_del k a)).

(** The lock word of an abstract bucket. *)
Definition a_wf (a : abucket) : Prop :=
  u 64 (a_ts a) /\
  if is_locked (a_ts a) then 1 <= a_cnt a <= kMaxNumLocks
  else a_locker a = kInvalidCallerId /\ a_cnt a = 0.

(** ** Lemmas *)

Lemma Inv_a_wf t i : Inv t -> (i < Z.to_nat (num_buckets_ t))%nat -> a_wf (view t i).
Proof.
  intros [sh Hw] Hi. destruct (bucket_at t sh i Hw Hi) as (b & _ & _ & [Hts Hlk] & ->).
  unfold a_wf. simpl. split; [done|]. destruct (is_locked (timestamp b)); [|done].
  by destruct Hlk as (_ & _ & ?).
Qed.

(** An [Ok] lock attempt did not hit the assertion on the lock count. *)
Lemma lock_ok_cnt t sh i caller r :
  wf t sh -> (i < Z.to_nat (num_buckets_ t))%nat ->
  lock_bucket_ptr caller i t = Ok r ->
  a_locker (view t i) = caller -> is_locked (a_ts (view t i)) = true ->
  a_cnt (view t i) < kMaxNumLocks.
Proof.
  intros Hw Hi H Hl Ho. destruct (bucket_at t sh i Hw Hi) as (b & _ & Hbk & _ & Hv).
  rewrite Hv in *. simpl in *. unfold lock_bucket_ptr in H.
  destruct (negb (caller =? kInvalidCallerId)); [|done]. simpl in H. rewrite Hbk in H. simpl in H.
  rewrite ldiff_1 in H. rewrite is_locked_odd in Ho. rewrite Ho in H. simpl in H.
  rewrite (proj2 (Z.eqb_eq _ _) Hl) in H.
  destruct (is_locked (timestamp b)); [|done]. simpl in H.
  destruct (0 <? num_locks b); [|done]. simpl in H.
  destruct (Z.ltb_spec (num_locks b) kMaxNumLocks); [done|done].
Qed.

Lemma cnt_side t sh i caller r :
  wf t sh -> (i < Z.to_nat (num_buckets_ t))%nat ->
  lock_bucket_ptr caller i t = Ok r ->
  a_cnt (view t i) < kMaxNumLocks \/ a_lock caller (view t i) = None /\ r = (false, t).
Proof.
  intros Hw Hi H. destruct (decide (a_cnt (view t i) < kMaxNumLocks)) as [|Hge]; [by left|right].
  pose proof (Inv_a_wf t i (ex_intro _ sh Hw) Hi) as [_ Hwf].
  destruct (is_locked (a_ts (view t i))) eqn:Ho.
  2:{ change kMaxNumLocks with 31 in Hge. lia. }
  destruct (decide (a_locker (view t i) = caller)) as [E|E].
  { exfalso. apply Hge. by eapply lock_ok_cnt. }
  destruct (bucket_at t sh i Hw Hi) as (b & _ & Hbk & _ & Hv). rewrite Hv in *. simpl in *.
  rewrite is_locked_odd in Ho. split.
  - unfold a_lock. simpl. rewrite is_unlocked_even, Ho. simpl. by rewrite (proj2 (Z.eqb_neq _ _) E).
  - unfold lock_bucket_ptr in H. destruct (negb (caller =? kInvalidCallerId)); [|done].
    simpl in H. rewrite Hbk in H. simpl in H. rewrite ldiff_1, Ho in H. simpl in H.
    rewrite (proj2 (Z.eqb_neq _ _) E) in H. congruence.
Qed.

Lemma asserts_held t i b caller (m : gmap Z (list byte)) :
  view t i = mkA m (timestamp b) (locker_id b) (num_locks b) ->
  is_locked (timestamp b) = true -> (locker_id b =? caller) = true -> a_held caller (view t i).
Proof. intros -> H1 H2. split; [done|]. by apply Z.eqb_eq. Qed.

Lemma unlock_ok_held t sh i caller t' :
  wf t sh -> (i < Z.to_nat (num_buckets_ t))%nat ->
  unlock_bucket_ptr caller i t = Ok t' -> a_held caller (view t i).
Proof.
  intros Hw Hi H. destruct (bucket_at t sh i Hw Hi) as (b & _ & Hbk & _ & Hv).
  unfold unlock_bucket_ptr in H. destruct (negb (caller =? kInvalidCallerId)); [|done].
  simpl in H. rewrite Hbk in H. simpl in H.
  destruct (is_locked (timestamp b)) eqn:E1; [|done]. simpl in H.
  destruct (locker_id b =? caller) eqn:E2; [|done]. by eapply asserts_held.
Qed.

(** What a step establishes. *)
Definition step_post (c : Z) (t t' : table) : Prop :=
  Inv t' /\ cfg t' = cfg t /\
  exists i a, (i < Z.to_nat (num_buckets_ t))%nat /\ view_upd i a t t' /\ bstep c (view t i) a.

Lemma step_post_intro c t t' i a :
  Inv t' -> (i < Z.to_nat (num_buckets_ t))%nat -> view_upd i a t t' -> bstep c (view t i) a ->
  step_post c t t'.
Proof. intros HI Hi Hv Hb. split; [done|]. split; [apply Hv|]. by exists i, a. Qed.

Lemma step_post_same c t i : Inv t -> (i < Z.to_nat (num_buckets_ t))%nat -> step_post c t t.
Proof.
  intros HI Hi. apply (step_post_intro c t t i (view t i)); try done. constructor.
Qed.

Section StepView.
Context (c : Z) (t : table).
Hypothesis (Hcl : caller_wf c) (HI : Inv t) (Hprim : is_primary t = true).

Lemma lock_view kh r t' : lock_bucket_hash c kh t = Ok (r, t') -> step_post c t t'.
Proof.
  intros H. destruct (Inv_bucket t kh HI) as (Hg & Hlt & sh & _ & _ & Hw & _).
  pose proof H as H0. unfold lock_bucket_hash in H0. rewrite Hprim in H0. simpl in H0.
  rewrite Hg in H0. simpl in H0.
  destruct (lock_bucket_ptr c (bidx t kh) t) as [[ok t1]|] eqn:El; [|done]. simpl in H0.
  injection H0 as <- <-. destruct (cnt_side t sh _ c _ Hw Hlt El) as [Hcnt|[_ [= -> ->]]];
    [|by eapply step_post_same].
  pose proof (lock_bucket_hash_ok t c kh HI Hprim Hcl Hcnt) as Hok.
  destruct (a_lock c (view t (bidx t kh))) as [a|] eqn:Ea.
  - destruct Hok as (t2 & E & HI2 & Hv2). rewrite H in E. injection E as _ ->.
    eapply step_post_intro; [done|done|done|]. by constructor.
  - rewrite H in Hok. injection Hok as _ ->. by eapply step_post_same.
Qed.

Lemma unlock_view kh r t' : unlock_bucket_hash c kh t = Ok (r, t') -> step_post c t t'.
Proof.
  intros H. destruct (Inv_bucket t kh HI) as (Hg & Hlt & sh & _ & _ & Hw & _).
  pose proof H as H0. unfold unlock_bucket_hash in H0. rewrite Hprim in H0. simpl in H0.
  rewrite Hg in H0. simpl in H0.
  destruct (unlock_bucket_ptr c (bidx t kh) t) as [t1|] eqn:El; [|done].
  pose proof (unlock_ok_held t sh _ c t1 Hw Hlt El) as Hh.
  destruct (unlock_bucket_hash_ok t c kh HI Hprim Hcl Hh) as (t2 & E & HI2 & Hv2).
  rewrite H in E. injection E as _ ->. eapply step_post_intro; [done|done|done|]. by constructor.
Qed.

Lemma lock_get_view kh key r ts v t' :
  key <> kFtInvalidKey -> lock_bkt_and_get c kh key t = Ok (r, ts, v, t') -> step_post c t t'.
Proof.
  intros Hne H. destruct (Inv_bucket t kh HI) as (Hg & Hlt & sh & _ & _ & Hw & _).
  pose proof H as H0. unfold lock_bkt_and_get in H0. rewrite Hprim in H0. simpl in H0.
  rewrite Hg in H0. simpl in H0.
  destruct (lock_bucket_ptr c (bidx t kh) t) as [[ok t1]|] eqn:El; [|done]. simpl in H0.
  destruct (cnt_side t sh _ c _ Hw Hlt El) as [Hcnt|[_ [= -> ->]]].
  2:{ injection H0 as _ _ _ <-. by eapply step_post_same. }
  pose proof (lock_bkt_and_get_ok t c kh key HI Hprim Hne Hcl Hcnt) as Hok.
  unfold a_lock_get in Hok. destruct (a_lock c (view t (bidx t kh))) as [a|] eqn:Ea.
  - destruct (a_map (view t (bidx t kh)) !! key);
      destruct Hok as (t2 & E & HI2 & Hv2); rewrite H in E; injection E as _ _ _ ->;
      (eapply step_post_intro; [done|done|done|]; by constructor).
  - destruct Hok as (t2 & E & HI2 & Hv2). rewrite H in E. injection E as _ _ _ ->.
    eapply step_post_intro; [done|done|done|]. constructor.
Qed.

Lemma lock_ins_view kh key r ts t' :
  key <> kFtInvalidKey -> lock_bkt_for_ins c kh key t = Ok (r, ts, t') -> step_post c t t'.
Proof.
  intros Hne H. destruct (Inv_bucket t kh HI) as (Hg & Hlt & sh & _ & _ & Hw & _).
  pose proof H as H0. unfold lock_bkt_for_ins in H0. rewrite Hprim in H0. simpl in H0.
  rewrite Hg in H0. simpl in H0.
  destruct (lock_bucket_ptr c (bidx t kh) t) as [[ok t1]|] eqn:El; [|done]. simpl in H0.
  destruct (cnt_side t sh _ c _ Hw Hlt El) as [Hcnt|[_ [= -> ->]]].
  2:{ injection H0 as _ _ <-. by eapply step_post_same. }
  pose proof (lock_bkt_for_ins_ok t c kh key HI Hprim Hne Hcl Hcnt) as Hok.
  unfold a_lock_ins in Hok. destruct (a_lock c (view t (bidx t kh))) as [a|] eqn:Ea.
  - destruct (a_map (view t (bidx t kh)) !! key);
      destruct Hok as (t2 & E & HI2 & Hv2); rewrite H in E; injection E as _ _ ->;
      (eapply step_post_intro; [done|done|done|]; by constructor).
  - destruct Hok as (t2 & E & HI2 & Hv2). rewrite H in E. injection E as _ _ ->.
    eapply step_post_intro; [done|done|done|]. constructor.
Qed.

Lemma set_view kh key value r t' :
  key <> kFtInvalidKey -> val_size t <= Z.of_nat (length value) ->
  set c kh key value t = Ok (r, t') -> step_post c t t'.
Proof.
  intros Hne Hlen H. destruct (Inv_bucket t kh HI) as (Hg & Hlt & sh & ps & b & Hw & _ & _ & Hbk & _ & Hv).
  assert (a_held c (view t (bidx t kh))) as Hh.
  { pose proof H as H0. unfold set in H0. rewrite Hg in H0. simpl in H0. rewrite Hbk, Hprim in H0. simpl in H0.
    destruct (is_locked (timestamp b)) eqn:E1; [|done]. simpl in H0.
    destruct (locker_id b =? c) eqn:E2; [|done]. by eapply asserts_held. }
  destruct (set_primary_ok t c kh key value) as (r' & t2 & E & HI2 & [(_ & Hv2)|(_ & _ & _ & Hv2)]);
    try done; rewrite H in E; injection E as _ ->;
    (eapply step_post_intro; [done|done|done|]; by constructor).
Qed.

Lemma del_view kh key r t' :
  key <> kFtInvalidKey -> del c kh key t = Ok (r, t') -> step_post c t t'.
Proof.
  intros Hne H. destruct (Inv_bucket t kh HI) as (Hg & Hlt & sh & ps & b & Hw & Hps & _ & Hbk & _ & Hv).
  assert (a_held c (view t (bidx t kh)) /\ is_Some (a_map (view t (bidx t kh)) !! key)) as [Hh Hs].
  { pose proof H as H0. unfold del in H0. rewrite Hg in H0. simpl in H0. rewrite Hbk, Hprim in H0. simpl in H0.
    destruct (is_locked (timestamp b)) eqn:E1; [|done]. simpl in H0.
    destruct (locker_id b =? c) eqn:E2; [|done]. split; [by eapply asserts_held|]. simpl in H0.
    pose proof (find_abs t sh _ ps key Hw Hps Hne) as Hf.
    rewrite (find_item_index_ok t sh _ ps) in H0 by done.
    destruct (find_in t key ps) as [[q j]|]; [|done]. destruct Hf as (? & v & _ & _ & _ & _ & _ & Ha).
    rewrite Hv. simpl. eauto. }
  destruct (del_primary_ok t c kh key) as (t2 & E & HI2 & Hv2); try done.
  rewrite H in E. injection E as _ ->. eapply step_post_intro; [done|done|done|]. by constructor.
Qed.

Lemma step_view t' : step c t t' -> step_post c t t'.
Proof.
  destruct 1; eauto using lock_view, unlock_view, lock_get_view, lock_ins_view, set_view, del_view.
Qed.
End StepView.

(** ** Timestamps along steps *)

Lemma unlocked_not_locked ts : is_unlocked ts = negb (is_locked ts).
Proof. by rewrite is_locked_odd, is_unlocked_even. Qed.

Lemma bstep_ts c a a' :
  a_wf a -> a_ts a + 2 < 2 ^ 64 -> bstep c a a' ->
  a_ts a <= a_ts a' <= a_ts a + 2 /\
  (a_ts a' = a_ts a -> is_unlocked (a_ts a) = true -> a' = a).
Proof.
  intros [[H0 H1] Hw] Hb Hs.
  assert (forall z, 0 <= z <= a_ts a + 2 -> wrap 64 z = z) as Hwrap
    by (intros z Hz; apply wrap_id; unfold u; lia).
  assert (forall a1, a_lock c a = Some a1 ->
    (a_ts a1 = a_ts a + 1 /\ a_cnt a1 = 1 /\ is_unlocked (a_ts a) = true) \/
    (a_ts a1 = a_ts a /\ a_cnt a1 = a_cnt a + 1 /\ 1 <= a_cnt a /\ is_unlocked (a_ts a) = false)) as Hlock.
  { intros a1. unfold a_lock. rewrite unlocked_not_locked. destruct (is_locked (a_ts a)); simpl.
    - destruct (a_locker a =? c); [|done]. intros [= <-]. simpl. right. lia.
    - intros [= <-]. simpl. left. done. }
  inversion Hs as [|a1 Ha|a1 Ha|Hh|k v Hh|k Hh]; subst; clear Hs.
  - split; [lia|done].
  - destruct (Hlock _ Ha) as [(-> & _ & _)|(-> & _ & _ & ->)]; (split; [lia|]); [lia|done].
  - unfold a_unlock. destruct (Hlock _ Ha) as [(Ht & Hc & Hu)|(Ht & Hc & Hc1 & Hu)].
    + rewrite Hc. simpl. rewrite Ht, Hwrap by lia. split; lia.
    + rewrite (proj2 (Z.eqb_neq _ 1)) by lia. simpl. rewrite Ht, Hu. split; [lia|done].
  - destruct Hh as [Hl _]. rewrite unlocked_not_locked, Hl. unfold a_unlock.
    destruct (a_cnt a =? 1); simpl; rewrite ?Hwrap by lia; (split; [lia|done]).
  - destruct Hh as [Hl _]. rewrite unlocked_not_locked, Hl. unfold a_unlock. simpl.
    destruct (a_cnt a =? 1); simpl; rewrite ?Hwrap by lia; (split; [lia|done]).
  - destruct Hh as [Hl _]. rewrite unlocked_not_locked, Hl. unfold a_unlock. simpl.
    destruct (a_cnt a =? 1); simpl; rewrite ?Hwrap by lia; (split; [lia|done]).
Qed.

(** Nobody but the holder changes a held bucket. *)
Lemma bstep_held c c' a a' : bstep c a a' -> c <> c' -> a_held c' a -> a' = a.
Proof.
  intros Hs Hne [Hl Hlk].
  assert (a_lock c a = None) as Hnone.
  { unfold a_lock. rewrite unlocked_not_locked, Hl. simpl.
    rewrite (proj2 (Z.eqb_neq _ _)); [done|congruence]. }
  inversion Hs as [|a1 Ha|a1 Ha|[_ Hh]|k v [_ Hh]|k [_ Hh]]; subst; congruence.
Qed.

(** A caller becomes a bucket's locker only by its own steps. *)
Lemma bstep_locker c c' a a' :
  bstep c a a' -> c <> c' -> c' <> kInvalidCallerId -> a_locker a' = c' -> a_locker a = c'.
Proof.
  intros Hs Hne Hinv.
  assert (forall a1, a_lock c a = Some a1 -> a_locker a1 = c) as Hlock.
  { intros a1. unfold a_lock. destruct (is_unlocked _); [by intros [= <-]|].
    destruct (a_locker a =? c); [by intros [= <-]|done]. }
  assert (forall a1, a_locker (a_unlock a1) = c' -> a_locker a1 = c') as Hunlock.
  { intros a1. unfold a_unlock. destruct (a_cnt a1 =? 1); simpl; congruence. }
  inversion Hs as [|a1 Ha|a1 Ha|Hh|k v Hh|k Hh]; subst; intros E; auto.
  - rewrite (Hlock _ Ha) in E. congruence.
  - apply Hunlock in E. rewrite (Hlock _ Ha) in E. congruence.
  - by apply Hunlock in E.
  - by apply Hunlock in E.
Qed.

Section Steps.
Context (P : Z -> Prop) (i : nat).

Lemma steps_cfg n t t' :
  steps P n t t' -> Inv t -> is_primary t = true -> Inv t' /\ cfg t' = cfg t.
Proof.
  induction 1 as [|n c t1 t2 t3 HP Hcl Hst Hsts IH]; intros HI Hp; [done|].
  destruct (step_view c t1 Hcl HI Hp t2 Hst) as (HI2 & Hcfg & _).
  destruct IH as [HI3 Hcfg3]; [done|by rewrite (cfg_primary t1 t2)|]. split; [done|congruence].
Qed.

(** One step seen from bucket [i]. *)
Lemma step_at c t t' :
  caller_wf c -> Inv t -> is_primary t = true -> (i < Z.to_nat (num_buckets_ t))%nat ->
  step c t t' -> bstep c (view t i) (view t' i).
Proof.
  intros Hcl HI Hp Hi Hst. destruct (step_view c t Hcl HI Hp t' Hst) as (_ & _ & j & a & Hj & (Hv & _ & Ho) & Hb).
  destruct (decide (i = j)) as [->|Hne]; [by rewrite Hv|]. rewrite Ho by done. constructor.
Qed.

Lemma steps_ts n t t' :
  steps P n t t' -> Inv t -> is_primary t = true -> (i < Z.to_nat (num_buckets_ t))%nat ->
  a_ts (view t i) + 2 * Z.of_nat n < 2 ^ 64 ->
  a_ts (view t i) <= a_ts (view t' i) <= a_ts (view t i) + 2 * Z.of_nat n /\
  (a_ts (view t' i) = a_ts (view t i) -> is_unlocked (a_ts (view t i)) = true ->
   view t' i = view t i).
Proof.
  induction 1 as [t|n c t1 t2 t3 HP Hcl Hst Hsts IH]; intros HI Hp Hi Hb; [split; [lia|done]|].
  pose proof (step_at c t1 t2 Hcl HI Hp Hi Hst) as Hbs.
  destruct (bstep_ts c _ _ (Inv_a_wf t1 i HI Hi) ltac:(lia) Hbs) as [Hm Heq].
  destruct (step_view c t1 Hcl HI Hp t2 Hst) as (HI2 & Hcfg & _).
  destruct IH as [Hm2 Heq2]; try done.
  - by rewrite (cfg_primary t1 t2).
  - by rewrite (cfg_nb_eq t1 t2).
  - lia.
  - split; [lia|]. intros E Hu. assert (view t2 i = view t1 i) as Ev by (apply Heq; [lia|done]).
    rewrite Heq2; [done|rewrite Ev in *; lia|by rewrite Ev].
Qed.

Lemma steps_held c0 n t t' :
  (forall c, P c -> c <> c0) -> steps P n t t' -> Inv t -> is_primary t = true ->
  (i < Z.to_nat (num_buckets_ t))%nat -> a_held c0 (view t i) -> view t' i = view t i.
Proof.
  intros HP. induction 1 as [t|n c t1 t2 t3 Hc Hcl Hst Hsts IH]; intros HI Hp Hi Hh; [done|].
  pose proof (step_at c t1 t2 Hcl HI Hp Hi Hst) as Hbs.
  apply (bstep_held c c0) in Hbs; [|by apply HP|done].
  destruct (step_view c t1 Hcl HI Hp t2 Hst) as (HI2 & Hcfg & _).
  rewrite IH; try done.
  - by rewrite (cfg_primary t1 t2).
  - by rewrite (cfg_nb_eq t1 t2).
  - by rewrite Hbs.
Qed.

Lemma steps_locker c0 n t t' :
  (forall c, P c -> c <> c0) -> c0 <> kInvalidCallerId -> steps P n t t' -> Inv t ->
  is_primary t = true -> (i < Z.to_nat (num_buckets_ t))%nat ->
  a_locker (view t' i) = c0 -> a_locker (view t i) = c0.
Proof.
  intros HP Hinv. induction 1 as [t|n c t1 t2 t3 Hc Hcl Hst Hsts IH]; intros HI Hp Hi Hl; [done|].
  pose proof (step_at c t1 t2 Hcl HI Hp Hi Hst) as Hbs.
  destruct (step_view c t1 Hcl HI Hp t2 Hst) as (HI2 & Hcfg & _).
  eapply bstep_locker; [exact Hbs|by apply HP|done|]. apply IH; try done.
  - by rewrite (cfg_primary t1 t2).
  - by rewrite (cfg_nb_eq t1 t2).
Qed.
End Steps.

(** ** Concurrent readers *)

(** The search of a bucket of a table that satisfies the invariant. *)
Lemma search_ok t kh key :
  Inv t -> key <> kFtInvalidKey ->
  match a_map (view t (bidx t kh)) !! key with
  | Some v => exists q j c, find_item_index t (bidx t kh) key = Ok (Some (q, j)) /\
      bkt t q = Ok c /\ val_arr c !! j = Some v
  | None => find_item_index t (bidx t kh) key = Ok None
  end.
Proof.
  intros HI Hne.
  destruct (Inv_bucket t kh HI) as (_ & _ & sh & ps & b & Hw & Hps & _ & _ & _ & Hv).
  rewrite Hv. simpl. pose proof (find_abs t sh _ ps key Hw Hps Hne) as Hf.
  rewrite (find_item_index_ok t sh _ ps) by done.
  destruct (find_in t key ps) as [[q j]|].
  - destruct Hf as (c & v & _ & Hc & _ & Hvj & _ & ->). exists q, j, c. unfold bkt. by rewrite Hc.
  - by destruct Hf as [-> _].
Qed.

Lemma timestamp_at t kh :
  Inv t -> exists b, bkt t (bidx t kh) = Ok b /\ timestamp b = a_ts (view t (bidx t kh)) /\
    locker_id b = a_locker (view t (bidx t kh)).
Proof.
  intros HI. destruct (Inv_bucket t kh HI) as (_ & _ & sh & ps & b & _ & _ & _ & Hbk & _ & Hv).
  exists b. by rewrite Hv.
Qed.

Section Reader.
Context (c kh key : Z) (n m : nat) (t0 t1 t2 : table).
Hypothesis (HI : Inv t0) (Hp : is_primary t0 = true).
Hypothesis (Hcl : caller_wf c) (Hne : key <> kFtInvalidKey).
Hypothesis (H01 : steps (fun c' => c' <> c) n t0 t1) (H12 : steps (fun c' => c' <> c) m t1 t2).
Hypothesis (Hb : a_ts (view t0 (bidx t0 kh)) + 2 * Z.of_nat (n + m) < 2 ^ 64).

Lemma reader_facts :
  Inv t1 /\ Inv t2 /\ bidx t1 kh = bidx t0 kh /\ bidx t2 kh = bidx t0 kh /\
  is_primary t1 = true /\
  (bidx t0 kh < Z.to_nat (num_buckets_ t0))%nat /\ (bidx t0 kh < Z.to_nat (num_buckets_ t1))%nat.
Proof.
  destruct (steps_cfg _ n t0 t1 H01 HI Hp) as [HI1 Hc1].
  assert (is_primary t1 = true) as Hp1 by by rewrite (cfg_primary t0 t1).
  destruct (steps_cfg _ m t1 t2 H12 HI1 Hp1) as [HI2 Hc2].
  destruct (Inv_bucket t0 kh HI) as (_ & Hlt & _).
  assert (bidx t1 kh = bidx t0 kh) as E1 by by apply cfg_bidx.
  split_and!; try done.
  - rewrite <- E1. by apply cfg_bidx.
  - by rewrite (cfg_nb_eq t0 t1).
Qed.

(** Equal timestamps before and after mean the bucket did not change. *)
Lemma reader_unchanged :
  a_ts (view t2 (bidx t0 kh)) = a_ts (view t0 (bidx t0 kh)) ->
  is_unlocked (a_ts (view t0 (bidx t0 kh))) = true ->
  view t1 (bidx t0 kh) = view t0 (bidx t0 kh) /\ view t2 (bidx t0 kh) = view t0 (bidx t0 kh).
Proof.
  destruct reader_facts as (HI1 & HI2 & E1 & E2 & Hp1 & Hlt0 & Hlt1). intros Hts Hu.
  destruct (steps_ts _ (bidx t0 kh) n t0 t1 H01 HI Hp Hlt0 ltac:(lia)) as [Hm1 He1].
  destruct (steps_ts _ (bidx t0 kh) m t1 t2 H12 HI1 Hp1 Hlt1 ltac:(lia)) as [Hm2 He2].
  assert (view t1 (bidx t0 kh) = view t0 (bidx t0 kh)) as Ev by (apply He1; [lia|done]).
  split; [done|]. rewrite He2; [done|rewrite Ev; lia|by rewrite Ev].
Qed.

(** A bucket the reader holds is not changed by others. *)
Lemma reader_held :
  a_held c (view t0 (bidx t0 kh)) ->
  view t1 (bidx t0 kh) = view t0 (bidx t0 kh) /\ view t2 (bidx t0 kh) = view t0 (bidx t0 kh).
Proof.
  destruct reader_facts as (HI1 & HI2 & E1 & E2 & Hp1 & Hlt0 & Hlt1). intros Hh.
  assert (view t1 (bidx t0 kh) = view t0 (bidx t0 kh)) as Ev
    by (eapply (steps_held (fun c' => c' <> c) _ c n t0 t1); auto).
  split; [done|]. rewrite (steps_held (fun c' => c' <> c) _ c m t1 t2); auto. by rewrite Ev.
Qed.

Lemma get_at_ok :
  exists r, get_at c kh key t0 t1 t2 = Ok r /\
    (r.1.1 = kLocked \/
     r = a_get c key (view t0 (bidx t0 kh)) /\ view t2 (bidx t0 kh) = view t0 (bidx t0 kh)).
Proof.
  destruct reader_facts as (HI1 & HI2 & E1 & E2 & Hp1 & Hlt0 & Hlt1).
  destruct (Inv_bucket t0 kh HI) as (Hg & _ & sh & ps & b0 & _ & _ & _ & Hbk0 & _ & Hv0).
  destruct (timestamp_at t1 kh HI1) as (b1 & Hbk1 & Hts1 & Hl1).
  destruct (timestamp_at t2 kh HI2) as (b2 & Hbk2 & Hts2 & _).
  pose proof (search_ok t1 kh key HI1 Hne) as Hs. rewrite E1 in *. rewrite E2 in *.
  unfold get_at, read_timestamp. rewrite Hp. simpl. rewrite Hg. simpl. rewrite Hbk0. simpl.
  rewrite Hbk1, Hbk2. simpl. rewrite Hts2, Hl1.
  assert (timestamp b0 = a_ts (view t0 (bidx t0 kh))) as -> by by rewrite Hv0.
  destruct (is_unlocked (a_ts (view t0 (bidx t0 kh)))) eqn:Eu.
  - destruct (Z.eqb_spec (a_ts (view t0 (bidx t0 kh))) (a_ts (view t2 (bidx t0 kh)))) as [Eq|Nq].
    + destruct (reader_unchanged (eq_sym Eq) Eu) as [Ev1 Ev2]. rewrite Ev1 in Hs.
      unfold a_get. rewrite Eu. destruct (a_map (view t0 (bidx t0 kh)) !! key) as [v|].
      * destruct Hs as (q & j & d & -> & Hd & Hvj). simpl. rewrite Hd. simpl. rewrite Hvj. simpl. eauto.
      * rewrite Hs. simpl. eauto.
    + destruct (a_map (view t1 (bidx t0 kh)) !! key) as [v|].
      * destruct Hs as (q & j & d & -> & Hd & Hvj). simpl. rewrite Hd. simpl. rewrite Hvj. simpl. eauto.
      * rewrite Hs. simpl. eauto.
  - destruct (Z.eqb_spec (a_locker (view t1 (bidx t0 kh))) c) as [El|]; [|simpl; eauto].
    assert (a_held c (view t0 (bidx t0 kh))) as Hh.
    { split.
      - rewrite unlocked_not_locked in Eu. by apply negb_false_iff in Eu.
      - eapply (steps_locker (fun c' => c' <> c) _ c n t0 t1); auto. unfold caller_wf in Hcl. lia. }
    destruct (reader_held Hh) as [Ev1 Ev2]. rewrite Ev1 in Hs. rewrite Ev2, Z.eqb_refl.
    unfold a_get. rewrite Eu, (proj2 (Z.eqb_eq _ _) (proj2 Hh)).
    destruct (a_map (view t0 (bidx t0 kh)) !! key) as [v|].
    + destruct Hs as (q & j & d & -> & Hd & Hvj). simpl. rewrite Hd. simpl. rewrite Hvj. simpl. eauto.
    + rewrite Hs. simpl. eauto.
Qed.
End Reader.

(** ** Example tables *)

(** A table whose bucket 0 is held once by caller 3. *)
Lemma demo_held :
  exists t, Inv t /\ is_primary t = true /\ val_size t = 8 /\ bidx t 0 = 0%nat /\
    view t 0%nat = mkA ∅ (a_ts abucket0 + 1) 3 1.
Proof.
  destruct demo_table as (t & _ & HI & Hp & Hv & Hn & Hb & Hview).
  pose proof (Hview 0%nat ltac:(lia)) as Hv0.
  pose proof (lock_bucket_hash_ok t 3 0 HI Hp ltac:(split; [lia|reflexivity])) as Hl.
  rewrite Hb, Hv0 in Hl. destruct Hl as (t' & _ & HI' & Hv' & Hcfg & _); [reflexivity|].
  exists t'. split_and!; try done.
  - by rewrite (cfg_primary t t').
  - unfold cfg in Hcfg. congruence.
Qed.

(** A table whose bucket 0 is held by caller 3 and stores the key 42: the lock is
    taken twice, and storing the key releases one of the two. *)
Definition demo_run (t0 : table) : res (table * table * table) :=
  '(_, t1) ← lock_bucket_hash 3 0 t0;
  '(_, t2) ← lock_bucket_hash 3 0 t1;
  '(_, t3) ← set 3 0 42 (replicate 8 0) t2;
  Ok (t1, t2, t3).

Lemma demo_key :
  exists t0 t, Inv t0 /\ is_primary t0 = true /\ view t0 0%nat = abucket0 /\
    steps (fun c => c = 3) 3 t0 t /\
    Inv t /\ is_primary t = true /\ bidx t 0 = 0%nat /\
    a_held 3 (view t 0%nat) /\ is_Some (a_map (view t 0%nat) !! 42).
Proof.
  destruct demo_table as (t0 & Hm & HI & Hp & Hv & _ & _ & Hview).
  destruct (demo_run t0) as [[[t1 t2] t]|] eqn:E.
  2:{ vm_compute in Hm. injection Hm as <-. vm_compute in E. discriminate. }
  assert (caller_wf 3) as Hcl by (split; [lia|reflexivity]).
  assert (steps (fun c => c = 3) 3 t0 t) as Hst.
  { unfold demo_run in E.
    apply bind_ok in E as ([r1 x1] & E1 & E). apply bind_ok in E as ([r2 x2] & E2 & E).
    apply bind_ok in E as ([r3 x3] & E3 & E). injection E as <- <- <-.
    eapply steps_S; [done|exact Hcl|by eapply step_lock|].
    eapply steps_S; [done|exact Hcl|by eapply step_lock|].
    eapply steps_S; [done|exact Hcl| |constructor]. eapply step_set; [| |exact E3]; [done|].
    apply lock_view in E1 as (HI1 & Hc1 & _); try done.
    apply lock_view in E2 as (_ & Hc2 & _); try done; [|by rewrite (cfg_primary t0 x1)].
    assert (val_size x2 = val_size t0) as -> by (unfold cfg in *; congruence). by rewrite Hv. }
  destruct (steps_cfg _ 3 t0 t Hst HI Hp) as [HI' Hcfg].
  exists t0, t. split_and!; try assumption.
  - apply Hview. lia.
  - by rewrite (cfg_primary t0 t).
  - clear - Hm E. vm_compute in Hm. injection Hm as <-. vm_compute in E. injection E as _ _ <-. reflexivity.
  - clear - Hm E. vm_compute in Hm. injection Hm as <-. vm_compute in E. injection E as _ _ <-.
    split; reflexivity.
  - clear - Hm E. vm_compute in Hm. injection Hm as <-. vm_compute in E. injection E as _ _ <-.
    vm_compute. eauto.
Qed.

(** ** Theorems *)

(** [get] on a primary table returns exactly what the abstract bucket of the
    key holds: the value and the timestamp when the bucket is unlocked or held by
    the caller, and [kLocked] when another caller holds it. *)
Theorem get_correct t caller kh key :
  Inv t -> is_primary t = true -> key <> kFtInvalidKey ->
  get caller kh key t = Ok (a_get caller key (view t (bidx t kh))).
Proof. apply get_ok. Qed.

Lemma get_correct_witness :
  exists t v, get 3 0 42 t = Ok (kSuccess, Some (a_ts (view t 0%nat)), Some v).
Proof.
  destruct demo_key as (_ & t & _ & _ & _ & _ & HI & Hp & Hb & [Hl Hh] & v & Hv).
  exists t, v. rewrite (get_correct t 3 0 42 HI Hp ltac:(discriminate)), Hb.
  unfold a_get. rewrite unlocked_not_locked, Hl, Hh, Hv. reflexivity.
Defined.

(** C26: [set] on a primary table, by a caller that holds the bucket lock, stores
    the value under the key and releases one of the caller's locks, or, when the
    key is new and the table has no extra bucket left, reports it and only
    releases the lock.  The invariant is kept and no other bucket changes. *)
Theorem set_primary_correct t caller kh key value :
  Inv t -> is_primary t = true -> key <> kFtInvalidKey -> caller_wf caller ->
  val_size t <= Z.of_nat (length value) -> a_held caller (view t (bidx t kh)) ->
  exists r t', set caller kh key value t = Ok (r, t') /\ Inv t' /\
    ((r = kSuccess /\
      view_upd (bidx t kh)
        (a_unlock (a_put key (stored t value) (view t (bidx t kh)))) t t') \/
     (r = kInsufficientSpaceIndex /\ a_map (view t (bidx t kh)) !! key = None /\ fl_head t = 0 /\
      view_upd (bidx t kh) (a_unlock (view t (bidx t kh))) t t')).
Proof. apply set_primary_ok. Qed.

Lemma set_primary_correct_witness :
  exists t r t', set 3 0 42 (replicate 8 1) t = Ok (r, t') /\ Inv t'.
Proof.
  destruct demo_held as (t & HI & Hp & Hv & Hb & Hv0). exists t.
  destruct (set_primary_correct t 3 0 42 (replicate 8 1) HI Hp) as (r & t' & E & HI' & _).
  - discriminate.
  - split; [lia|reflexivity].
  - rewrite Hv. simpl. lia.
  - rewrite Hb, Hv0. split; reflexivity.
  - exists r, t'. split; assumption.
Defined.

(** C27: [set] on a backup table stores the value without touching any lock; the
    only other outcome is the failing assertion of the out-of-space path, which
    unlocks a bucket nobody locked. *)
Theorem set_backup_correct t caller kh key value :
  Inv t -> is_primary t = false -> key <> kFtInvalidKey -> caller_wf caller ->
  val_size t <= Z.of_nat (length value) -> is_locked (a_ts (view t (bidx t kh))) = false ->
  (exists t', set caller kh key value t = Ok (kSuccess, t') /\ Inv t' /\
     view_upd (bidx t kh) (a_put key (stored t value) (view t (bidx t kh))) t t') \/
  (set caller kh key value t = Err AssertFail /\
   a_map (view t (bidx t kh)) !! key = None /\ fl_head t = 0).
Proof. apply set_backup_ok. Qed.

Lemma set_backup_correct_witness :
  exists t, make 60 8 1 false = Ok t /\
    ((exists t', set 3 0 42 (replicate 8 1) t = Ok (kSuccess, t')) \/
     set 3 0 42 (replicate 8 1) t = Err AssertFail).
Proof.
  destruct (make 60 8 1 false) as [t|] eqn:E; [|vm_compute in E; discriminate].
  exists t. split; [reflexivity|].
  assert (num_buckets_ t + num_extra_buckets_ t < 2 ^ 32 /\ (bidx t 0 < Z.to_nat (num_buckets_ t))%nat) as [H1 H2].
  { vm_compute in E. injection E as <-. vm_compute. split; [reflexivity|lia]. }
  destruct (make_ok 60 8 1 false t ltac:(split; [lia|reflexivity]) E H1) as (HI & Hp & Hv & Hview).
  destruct (set_backup_correct t 3 0 42 (replicate 8 1) HI Hp) as [(t' & Hs & _)|(Hs & _)].
  - discriminate.
  - split; [lia|reflexivity].
  - rewrite Hv. simpl. lia.
  - rewrite (Hview _ H2). reflexivity.
  - left. exists t'. exact Hs.
  - right. exact Hs.
Defined.

(** C25: [del] on a primary table, of a present key by a caller that holds the
    bucket lock, removes exactly that key (the last item of the chain may move
    into its slot, and an emptied extra bucket returns to the free list), keeps
    the invariant and releases one lock; [fill_hole] terminates. *)
Theorem del_primary_correct t caller kh key :
  Inv t -> is_primary t = true -> key <> kFtInvalidKey -> caller_wf caller ->
  is_Some (a_map (view t (bidx t kh)) !! key) -> a_held caller (view t (bidx t kh)) ->
  exists t', del caller kh key t = Ok (kSuccess, t') /\ Inv t' /\
    view_upd (bidx t kh) (a_unlock (a_del key (view t (bidx t kh)))) t t'.
Proof. apply del_primary_ok. Qed.

Lemma del_primary_correct_witness : exists t t', del 3 0 42 t = Ok (kSuccess, t') /\ Inv t'.
Proof.
  destruct demo_key as (_ & t & _ & _ & _ & _ & HI & Hp & Hb & Hh & Hs). exists t.
  destruct (del_primary_correct t 3 0 42 HI Hp) as (t' & E & HI' & _).
  - discriminate.
  - split; [lia|reflexivity].
  - rewrite Hb. exact Hs.
  - rewrite Hb. exact Hh.
  - exists t'. split; assumption.
Defined.

(** [lock_bkt_and_get] takes the bucket lock and returns the value and the
    timestamp when the key exists; otherwise it leaves the caller with exactly the
    locks it had before (an unsuccessful attempt releases what it acquired). *)
Theorem lock_bkt_and_get_correct t caller kh key :
  Inv t -> is_primary t = true -> key <> kFtInvalidKey -> caller_wf caller ->
  a_cnt (view t (bidx t kh)) < kMaxNumLocks ->
  let '(r, ts, v, a') := a_lock_get caller key (view t (bidx t kh)) in
  exists t', lock_bkt_and_get caller kh key t = Ok (r, ts, v, t') /\ Inv t' /\
    view_upd (bidx t kh) a' t t'.
Proof. apply lock_bkt_and_get_ok. Qed.

Lemma lock_bkt_and_get_correct_witness :
  exists t t', lock_bkt_and_get 4 0 42 t = Ok (kLocked, None, None, t') /\ Inv t'.
Proof.
  destruct demo_held as (t & HI & Hp & Hv & Hb & Hv0). exists t.
  pose proof (lock_bkt_and_get_correct t 4 0 42 HI Hp ltac:(discriminate)
    ltac:(split; [lia|reflexivity]) ltac:(rewrite Hb, Hv0; reflexivity)) as H.
  rewrite Hb, Hv0 in H. destruct H as (t' & H1 & H2 & _). exists t'. split; [exact H1|exact H2].
Defined.

(** [lock_bkt_for_ins] takes the bucket lock when the key is absent, reports
    [kExists] and releases its lock when it is present, and refuses when another
    caller holds the bucket. *)
Theorem lock_bkt_for_ins_correct t caller kh key :
  Inv t -> is_primary t = true -> key <> kFtInvalidKey -> caller_wf caller ->
  a_cnt (view t (bidx t kh)) < kMaxNumLocks ->
  let '(r, ts, a') := a_lock_ins caller key (view t (bidx t kh)) in
  exists t', lock_bkt_for_ins caller kh key t = Ok (r, ts, t') /\ Inv t' /\
    view_upd (bidx t kh) a' t t'.
Proof. apply lock_bkt_for_ins_ok. Qed.

Lemma lock_bkt_for_ins_correct_witness :
  exists t t' ts, lock_bkt_for_ins 3 0 42 t = Ok (kSuccess, ts, t') /\ Inv t'.
Proof.
  destruct demo_held as (t & HI & Hp & Hv & Hb & Hv0). exists t.
  pose proof (lock_bkt_for_ins_correct t 3 0 42 HI Hp ltac:(discriminate)
    ltac:(split; [lia|reflexivity]) ltac:(rewrite Hb, Hv0; reflexivity)) as H.
  rewrite Hb, Hv0 in H. destruct H as (t' & H1 & H2 & _). exists t'. eexists. split; [exact H1|exact H2].
Defined.

(** C24: the concrete table simulates the abstract buckets: every operation of a
    caller on a primary table that satisfies the invariant leaves a table that
    satisfies it, changes at most one abstract bucket, and changes it by one of
    the abstract transitions (take or count a lock, release one, store or delete
    under a held lock); all other buckets keep their map and lock word. *)
Theorem step_simulation c t t' :
  caller_wf c -> Inv t -> is_primary t = true -> step c t t' ->
  Inv t' /\ exists i a, (i < Z.to_nat (num_buckets_ t))%nat /\
    view_upd i a t t' /\ bstep c (view t i) a.
Proof. intros Hcl HI Hp Hs. destruct (step_view c t Hcl HI Hp t' Hs) as (H1 & _ & H2). done. Qed.

Lemma step_simulation_witness : exists t t' r, lock_bucket_hash 4 1 t = Ok (r, t') /\ Inv t'.
Proof.
  destruct demo_table as (t & _ & HI & Hp & _ & Hn & Hb & Hview). exists t.
  destruct (lock_bucket_hash 4 1 t) as [[r t']|] eqn:E.
  - exists t', r. split; [reflexivity|]. apply (step_simulation 4 t t'); [|exact HI|exact Hp|].
    + split; [lia|reflexivity].
    + exact (step_lock 4 t 1 r t' E).
  - exfalso. destruct (Inv_bucket t 1 HI) as (_ & Hlt & _). rewrite Hn in Hlt.
    pose proof (lock_bucket_hash_ok t 4 1 HI Hp ltac:(split; [lia|reflexivity])) as Hl.
    rewrite (Hview (bidx t 1) Hlt) in Hl. destruct Hl as (t' & E' & _); [reflexivity|].
    rewrite E in E'. discriminate.
Defined.

(** C23: the timestamp of a bucket identifies its contents: it never decreases
    along the operations of any callers, and if it is even and the same at two
    points of an execution, then the bucket (its map and its lock word) was the
    same at those two points and at every point in between. *)
Theorem version_identifies_contents i n m t0 t1 t2 :
  Inv t0 -> is_primary t0 = true -> (i < Z.to_nat (num_buckets_ t0))%nat ->
  steps (fun _ => True) n t0 t1 -> steps (fun _ => True) m t1 t2 ->
  a_ts (view t0 i) + 2 * Z.of_nat (n + m) < 2 ^ 64 ->
  a_ts (view t0 i) <= a_ts (view t1 i) <= a_ts (view t2 i) /\
  (a_ts (view t2 i) = a_ts (view t0 i) -> is_unlocked (a_ts (view t0 i)) = true ->
   view t1 i = view t0 i /\ view t2 i = view t0 i).
Proof.
  intros HI Hp Hi H01 H12 Hb.
  destruct (steps_cfg _ n t0 t1 H01 HI Hp) as [HI1 Hc1].
  assert (is_primary t1 = true) as Hp1 by by rewrite (cfg_primary t0 t1).
  assert (i < Z.to_nat (num_buckets_ t1))%nat as Hi1 by by rewrite (cfg_nb_eq t0 t1).
  destruct (steps_ts _ i n t0 t1 H01 HI Hp Hi ltac:(lia)) as [Hm1 He1].
  destruct (steps_ts _ i m t1 t2 H12 HI1 Hp1 Hi1 ltac:(lia)) as [Hm2 He2].
  split; [lia|]. intros Hts Hu.
  assert (view t1 i = view t0 i) as Ev by (apply He1; [lia|done]).
  split; [done|]. rewrite He2; [done|rewrite Ev; lia|by rewrite Ev].
Qed.

Lemma version_identifies_contents_witness :
  exists t0 t1, steps (fun _ => True) 3 t0 t1 /\
    a_ts (view t0 0%nat) <= a_ts (view t1 0%nat).
Proof.
  destruct demo_key as (t0 & t & HI & Hp & Hv0 & Hst & HI' & _ & Hb & _).
  assert (steps (fun _ => True) 3 t0 t) as Hst'.
  { revert Hst. generalize 3%nat. clear. induction 1; [constructor|]. eapply steps_S; eauto. }
  exists t0, t. split; [exact Hst'|].
  destruct (steps_cfg _ 3 t0 t Hst HI Hp) as [_ Hcfg].
  destruct (Inv_bucket t0 0 HI) as (_ & Hlt & _). rewrite <- (cfg_bidx t0 t 0 Hcfg), Hb in Hlt.
  destruct (version_identifies_contents 0%nat 3 0 t0 t t HI Hp Hlt Hst' (steps_O _ t)) as [H _].
  - rewrite Hv0. reflexivity.
  - lia.
Defined.



End FixedTableSteps.
