(* ===== verification/Datastore.v ===== *)
(** * The FixedTable datastore ([src/datastore/ds.h],
    [src/datastore/fixedtable/ds_fixedtable.h] and [ds_fixedtable_handler.h])

    Requests and responses as bytes, the functions that forge requests, the RPC
    handler that serves them from a table, and the initial population. *)

From S2P Require Import Prelude Util City Hots Mappings FixedTable.
From Stdlib Require Import ZArith Lia Bool.
From stdpp Require Import base numbers list gmap.
#[local] Open Scope Z_scope.

(** ** Key hashes *)

Definition ds_hashmask : Z := Z.shiftl 1 48 - 1.

Definition ds_keyhash (key : Z) : res Z :=
  h ← City.hash (le_bytes 8 key) 8; Ok (Z.land h ds_hashmask).

(** ** Request and response types *)

Inductive ds_reqtype_t : Type :=
| get_rdonly | get_for_upd | lock_for_ins | del | unlock | put.

Inductive ds_resptype_t : Type :=
| get_rdonly_success | get_rdonly_not_found | get_rdonly_locked
| get_for_upd_success | get_for_upd_not_found | get_for_upd_locked
| lock_for_ins_success | lock_for_ins_exists | lock_for_ins_locked
| unlock_success | put_success | del_success.

#[global] Instance reqtype_eq_dec : EqDecision ds_reqtype_t.
Proof. solve_decision. Defined.
#[global] Instance resptype_eq_dec : EqDecision ds_resptype_t.
Proof. solve_decision. Defined.

Definition reqtype_code (r : ds_reqtype_t) : Z :=
  match r with
  | get_rdonly => 0 | get_for_upd => 1 | lock_for_ins => 2 | del => 3 | unlock => 4 | put => 5
  end.

(** The cast of the request-type field; other values reach the [default] case. *)
Definition reqtype_of_code (z : Z) : option ds_reqtype_t :=
  match z with
  | 0 => Some get_rdonly | 1 => Some get_for_upd | 2 => Some lock_for_ins
  | 3 => Some del | 4 => Some unlock | 5 => Some put | _ => None
  end.

Definition resptype_code (r : ds_resptype_t) : Z :=
  match r with
  | get_rdonly_success => 0 | get_rdonly_not_found => 1 | get_rdonly_locked => 2
  | get_for_upd_success => 3 | get_for_upd_not_found => 4 | get_for_upd_locked => 5
  | lock_for_ins_success => 6 | lock_for_ins_exists => 7 | lock_for_ins_locked => 8
  | unlock_success => 9 | put_success => 10 | del_success => 11
  end.

(** ** Requests *)

(** The fields the handler extracts, for GETs and PUTs alike. *)
Record ds_req := mk_req {
  rq_caller_id : Z; rq_type : Z; rq_val_size : Z; rq_keyhash : Z; rq_key : Z
}.

Definition sizeof_get_req : Z := 24.
Definition sizeof_put_req : Z := sizeof_get_req + HOTS_MAX_VALUE.
Definition ds_put_req_size (val_sz : Z) : Z := sizeof_put_req - HOTS_MAX_VALUE + val_sz.

(** Layout of the word at offset 8. *)
Definition req_word (ty vs kh : Z) : Z := pack [(4, ty); (12, vs); (48, kh)].
Definition word_fields (w : Z) : list Z := unpack [4; 12; 48] w.

(** Reading the request structure from a buffer. *)
Definition parse_req (buf : list byte) : res ds_req :=
  c ← read_at 4 4 buf;
  w ← read_at 8 8 buf;
  k ← read_at 16 8 buf;
  match word_fields (le_val w) with
  | [ty; vs; kh] => Ok (mk_req (le_val c) ty vs kh (le_val k))
  | _ => Err OutOfBounds
  end.

(** Assigning some bit-fields of the word at offset 8 keeps the others. *)
Definition set_word (f : list Z -> Z) (buf : list byte) : res (list byte) :=
  w ← read_at 8 8 buf;
  write_at 8 (le_bytes 8 (f (word_fields (le_val w)))) buf.

(** [buf] is the memory from [rpc_req->req_buf] on; the result is its new
    contents and the size of the request. *)
Definition ds_forge_generic_get_req (buf : list byte) (caller_id key keyhash : Z)
    (req_type : ds_reqtype_t) : res (Z * list byte) :=
  buf ← write_at 4 (le_bytes 4 caller_id) buf;
  buf ← set_word (fun fs => match fs with
                            | [_; vs; _] => req_word (reqtype_code req_type) vs keyhash
                            | _ => 0 end) buf;
  buf ← write_at 16 (le_bytes 8 key) buf;
  Ok (sizeof_get_req, buf).

(** [obj_mem] is the memory of the object and what follows it; the copy of the
    value takes [hots_obj_size] bytes from the value's address. *)
Definition ds_forge_generic_put_req (buf : list byte) (caller_id key keyhash : Z)
    (obj_mem : list byte) (req_type : ds_reqtype_t) : res (Z * list byte) :=
  vs ← read_at 0 8 obj_mem;
  let val_size := le_val vs in
  let req_len := ds_put_req_size val_size in
  buf ← write_at 4 (le_bytes 4 caller_id) buf;
  buf ← set_word (fun _ => req_word (reqtype_code req_type) val_size keyhash) buf;
  buf ← write_at 16 (le_bytes 8 key) buf;
  let obj_size := hots_obj_size val_size in
  v ← read_at 16 (Z.to_nat obj_size) obj_mem;
  buf ← write_at 24 v buf;
  Ok (req_len, buf).

(** ** The RPC handler *)

(** Writing an output of a table operation, when the operation wrote it. *)
Definition put_ts (ts : option Z) (buf : list byte) : res (list byte) :=
  match ts with Some x => write_at 0 (le_bytes 8 x) buf | None => Ok buf end.
Definition put_val (v : option (list byte)) (buf : list byte) : res (list byte) :=
  match v with Some x => write_at 8 x buf | None => Ok buf end.

(** The result: the response buffer, the response type, the response length and
    the table. *)
Definition ds_fixedtable_rpc_handler (resp_buf req_buf : list byte) (table : FixedTable.table) :
    res (list byte * ds_resptype_t * Z * FixedTable.table) :=
  r ← parse_req req_buf;
  let caller_id := rq_caller_id r in
  let key := rq_key r in
  let keyhash := rq_keyhash r in
  match reqtype_of_code (rq_type r) with
  | Some get_rdonly =>
      '(out_result, ts, v) ← FixedTable.get caller_id keyhash key table;
      resp_buf ← put_ts ts resp_buf;
      resp_buf ← put_val v resp_buf;
      if decide (out_result = kSuccess) then
        Ok (resp_buf, get_rdonly_success, 8 + FixedTable.val_size table, table)
      else if decide (out_result = kLocked) then Ok (resp_buf, get_rdonly_locked, 0, table)
      else Ok (resp_buf, get_rdonly_not_found, 8, table)
  | Some get_for_upd =>
      '(out_result, ts, v, table) ← FixedTable.lock_bkt_and_get caller_id keyhash key table;
      resp_buf ← put_ts ts resp_buf;
      resp_buf ← put_val v resp_buf;
      if decide (out_result = kSuccess) then
        Ok (resp_buf, get_for_upd_success, 8 + FixedTable.val_size table, table)
      else if decide (out_result = kLocked) then Ok (resp_buf, get_for_upd_locked, 0, table)
      else Ok (resp_buf, get_for_upd_not_found, 0, table)
  | Some lock_for_ins =>
      '(out_result, ts, table) ← FixedTable.lock_bkt_for_ins caller_id keyhash key table;
      resp_buf ← put_ts ts resp_buf;
      if decide (out_result = kSuccess) then Ok (resp_buf, lock_for_ins_success, 8, table)
      else if decide (out_result = kExists) then Ok (resp_buf, lock_for_ins_exists, 0, table)
      else Ok (resp_buf, lock_for_ins_locked, 0, table)
  | Some unlock =>
      '(out_result, table) ← FixedTable.unlock_bucket_hash caller_id keyhash table;
      if decide (out_result = kSuccess) then Ok (resp_buf, unlock_success, 0, table)
      else Err ExitFail
  | Some del =>
      '(out_result, table) ← FixedTable.del caller_id keyhash key table;
      if decide (out_result = kSuccess) then Ok (resp_buf, del_success, 0, table)
      else Err ExitFail
  | Some put =>
      '(out_result, table) ← FixedTable.set caller_id keyhash key (drop 24 req_buf) table;
      if decide (out_result = kSuccess) then Ok (resp_buf, put_success, 0, table)
      else Err ExitFail
  | None => Err ExitFail
  end.

(** ** Initialization and population *)

(** The configuration is read by the host application; the two flags are what it
    says. *)
Definition ds_fixedtable_init (concurrent_read concurrent_write : bool)
    (item_count val_size bkt_shm_key : Z) (is_primary : bool) : res FixedTable.table :=
  if negb concurrent_read || negb concurrent_write then Err ExitFail
  else FixedTable.make item_count val_size bkt_shm_key is_primary.

(** The body of the population loop for key [i]; the value is written to an object
    with room for [HOTS_MAX_VALUE] bytes. *)
Definition populate_key (mappings : option Mappings.t) (repl_i wrkr_gid const_val val_size i : Z)
    (table : FixedTable.table) : res FixedTable.table :=
  keyhash ← ds_keyhash i;
  skip ← match mappings with
         | None => Ok false
         | Some mp =>
             _ ← assert_ ((0 <=? repl_i) && (repl_i <? HOTS_MAX_REPLICAS));
             Ok (negb (Mappings.should_i_populate mp keyhash repl_i))
         end;
  if (skip : bool) then Ok table
  else
    _ ← (if HOTS_MAX_VALUE <? val_size then Err OutOfBounds else Ok tt);
    let val_byte := if const_val =? -1 then Z.land i 255 else Z.land const_val 255 in
    '(out_result, table) ← FixedTable.set_spinlock wrkr_gid keyhash i
                             (replicate (Z.to_nat val_size) val_byte) table;
    if decide (out_result = kSuccess) then Ok table else Err ExitFail.

Fixpoint populate_loop (n : nat) (mappings : option Mappings.t)
    (repl_i wrkr_gid const_val val_size i : Z) (table : FixedTable.table) :
    res FixedTable.table :=
  match n with
  | O => Ok table
  | S n =>
      table ← populate_key mappings repl_i wrkr_gid const_val val_size i table;
      populate_loop n mappings repl_i wrkr_gid const_val val_size (i + 1) table
  end.

(** [mappings = None] is the null pointer, which goes with
    [use_partitions = false]. *)
Definition ds_fixedtable_populate (table : FixedTable.table) (num_keys val_size : Z)
    (mappings : option Mappings.t) (repl_i wrkr_gid : Z) (use_partitions : bool)
    (const_val : Z) : res FixedTable.table :=
  _ ← (if negb use_partitions
       then assert_ (bool_decide (mappings = None) && (repl_i =? -1)) else Ok tt);
  _ ← (if repl_i =? 0 then assert_ (FixedTable.is_primary table)
       else assert_ (negb (FixedTable.is_primary table)));
  _ ← assert_ (1 <=? num_keys);
  _ ← assert_ (val_size =? FixedTable.val_size table);
  mp ← (if use_partitions then
          match mappings with Some mp => Ok (Some mp) | None => Err OutOfBounds end
        else Ok None);
  populate_loop (Z.to_nat num_keys) mp repl_i wrkr_gid const_val val_size 0 table.

(** ** Requests as bytes *)

Lemma req_word_u ty vs kh : u 64 (req_word ty vs kh).
Proof. apply (pack_u [(4, _); (12, _); (48, _)]). fields. Qed.

Lemma word_fields_word ty vs kh :
  u 4 ty -> u 12 vs -> u 48 kh -> word_fields (req_word ty vs kh) = [ty; vs; kh].
Proof. intros. apply (unpack_pack [(4, ty); (12, vs); (48, kh)]). fields. Qed.

Lemma word_fields_wf w : exists ty vs kh, word_fields w = [ty; vs; kh] /\ u 4 ty /\ u 12 vs /\ u 48 kh.
Proof. do 3 eexists. split; [done|]. split_and!; by apply wrap_u. Qed.

Lemma reqtype_code_u r : u 4 (reqtype_code r).
Proof. destruct r; split; done. Qed.

Lemma reqtype_of_code_code r : reqtype_of_code (reqtype_code r) = Some r.
Proof. by destruct r. Qed.

Lemma set_word_ok f buf :
  (16 <= length buf)%nat -> (forall w, u 64 (f w)) ->
  exists buf' w, set_word f buf = Ok buf' /\ length buf' = length buf /\
    read_at 8 8 buf = Ok w /\ read_at 8 8 buf' = Ok (le_bytes 8 (f (word_fields (le_val w)))) /\
    (forall off n, (off + n <= 8 \/ 16 <= off)%nat -> read_at off n buf' = read_at off n buf) /\
    forall n, (16 <= n)%nat -> drop n buf' = drop n buf.
Proof.
  intros Hl Hf. unfold set_word. rewrite read_at_ok by lia. simpl.
  set (w := take 8 (drop 8 buf)). set (bs := le_bytes 8 (f (word_fields (le_val w)))).
  assert (length bs = 8%nat) as Hbs by apply length_le_bytes.
  destruct (write_at_some 8 bs buf) as (buf' & Hw & Hl'); [lia|].
  exists buf', w. split_and!; try done.
  - rewrite <- Hbs. by eapply read_write_at.
  - intros off n Ho. eapply read_write_at_ne; [exact Hw|]. rewrite Hbs. lia.
  - intros n Hn. eapply write_at_drop; [exact Hw|]. lia.
Qed.

(** The fields the handler extracts, from the bytes they are read from. *)
Lemma parse_req_bytes buf c w k ty vs kh :
  read_at 4 4 buf = Ok (le_bytes 4 c) -> read_at 8 8 buf = Ok (le_bytes 8 (req_word ty vs kh)) ->
  read_at 16 8 buf = Ok (le_bytes 8 k) -> w = req_word ty vs kh ->
  u 32 c -> u 64 k -> u 4 ty -> u 12 vs -> u 48 kh ->
  parse_req buf = Ok (mk_req c ty vs kh k).
Proof.
  intros Hc Hw Hk -> Uc Uk Ut Uv Uh. unfold parse_req. rewrite Hc, Hw, Hk. cbn [mbind res_bind].
  rewrite (le_val_bytes 8 (req_word ty vs kh)) by apply req_word_u.
  rewrite word_fields_word by done. by rewrite !le_val_bytes.
Qed.

Lemma ds_keyhash_ok key : exists kh, ds_keyhash key = Ok kh /\ u 48 kh.
Proof.
  unfold ds_keyhash, City.hash. destruct (City.CityHash64_ok (le_bytes 8 key)) as (h & E & _).
  rewrite length_le_bytes in E. change (Z.of_nat 8) with 8 in E. rewrite E. cbn [mbind res_bind].
  eexists. split; [done|]. change ds_hashmask with (Z.ones 48). rewrite Z.land_ones by lia. apply Z.mod_pos_bound. lia.
Qed.

(** The three writes of the header part that both kinds of requests share. *)
Lemma forge_header buf caller key g :
  (24 <= length buf)%nat -> (forall ws, u 64 (g ws)) ->
  exists b1 b2 b3 w,
    write_at 4 (le_bytes 4 caller) buf = Ok b1 /\ set_word g b1 = Ok b2 /\
    write_at 16 (le_bytes 8 key) b2 = Ok b3 /\
    read_at 4 4 b3 = Ok (le_bytes 4 caller) /\ read_at 16 8 b3 = Ok (le_bytes 8 key) /\
    read_at 8 8 b3 = Ok (le_bytes 8 (g (word_fields w))) /\
    drop 24 b3 = drop 24 buf /\ length b3 = length buf.
Proof.
  intros Hl Hg. pose proof (length_le_bytes 4 caller). pose proof (length_le_bytes 8 key).
  destruct (write_at_some 4 (le_bytes 4 caller) buf) as (b1 & H1 & L1); [lia|].
  destruct (set_word_ok g b1) as (b2 & w & H2 & L2 & Hw1 & Hw2 & Ho2 & Hd2); [lia|done|].
  destruct (write_at_some 16 (le_bytes 8 key) b2) as (b3 & H3 & L3); [lia|].
  exists b1, b2, b3, (le_val w). split_and!; try done; [..|lia].
  - rewrite (read_write_at_ne _ _ _ _ 4 4 H3), Ho2 by lia. rewrite <- (length_le_bytes 4 caller) at 2.
    by eapply read_write_at.
  - rewrite <- (length_le_bytes 8 key) at 2. by eapply read_write_at.
  - by rewrite (read_write_at_ne _ _ _ _ 8 8 H3) by lia.
  - rewrite (write_at_drop _ _ _ _ 24 H3), Hd2, (write_at_drop _ _ _ _ 24 H1) by lia. done.
Qed.

Lemma get_forge_ok buf caller key kh ty :
  (24 <= length buf)%nat -> u 32 caller -> u 64 key -> u 48 kh ->
  exists buf' vs, ds_forge_generic_get_req buf caller key kh ty = Ok (sizeof_get_req, buf') /\
    parse_req buf' = Ok (mk_req caller (reqtype_code ty) vs kh key) /\
    drop 24 buf' = drop 24 buf /\ length buf' = length buf.
Proof.
  intros Hl Uc Uk Uh. unfold ds_forge_generic_get_req.
  match goal with |- context [set_word ?f _] => set (g := f) end.
  destruct (forge_header buf caller key g) as (b1 & b2 & b3 & w & -> & H2 & H3 & R1 & R2 & R3 & Hd & L); [done| |].
  { intros ws. unfold g. destruct ws as [|? [|? [|? [|? ?]]]]; try apply req_word_u; split; done. }
  cbn [mbind res_bind]. rewrite H2. cbn [mbind res_bind]. rewrite H3. cbn [mbind res_bind].
  destruct (word_fields_wf w) as (t0 & vs & h0 & Ef & _ & Uv & _). rewrite Ef in R3. simpl in R3.
  exists b3, vs. split_and!; try done.
  apply (parse_req_bytes _ _ (req_word (reqtype_code ty) vs kh)); try done. apply reqtype_code_u.
Qed.

(** The forged PUT, for an object at the start of [mem]. *)
Lemma put_forge_ok buf caller key kh mem vs :
  read_at 0 8 mem = Ok (le_bytes 8 vs) -> 0 <= vs <= HOTS_MAX_VALUE ->
  24 + (16 + vs) <= Z.of_nat (length buf) -> 16 + (16 + vs) <= Z.of_nat (length mem) ->
  u 32 caller -> u 64 key -> u 48 kh ->
  exists buf',
    ds_forge_generic_put_req buf caller key kh mem put = Ok (ds_put_req_size vs, buf') /\
    parse_req buf' = Ok (mk_req caller (reqtype_code put) vs kh key) /\
    take (Z.to_nat vs) (drop 24 buf') = take (Z.to_nat vs) (drop 16 mem) /\ length buf' = length buf.
Proof.
  intros Hvs [Hv0 Hv1] Hb Hm Uc Uk Uh. unfold HOTS_MAX_VALUE in *. unfold ds_forge_generic_put_req.
  assert (Z.to_nat (hots_obj_size vs) = (16 + Z.to_nat vs)%nat) as Es
    by (unfold hots_obj_size, sizeof_hots_obj_t, HOTS_MAX_VALUE; lia).
  rewrite Hvs. cbn [mbind res_bind]. rewrite le_val_bytes by (split; simpl; lia).
  rewrite Es, (read_at_ok 16) by lia.
  match goal with |- context [set_word ?f _] => set (g := f) end.
  destruct (forge_header buf caller key g) as (b1 & b2 & b3 & w & -> & H2 & H3 & R1 & R2 & R3 & Hd & L);
    [lia|intros; apply req_word_u|].
  cbn [mbind res_bind]. rewrite H2. cbn [mbind res_bind]. rewrite H3. cbn [mbind res_bind].
  set (v := take (16 + Z.to_nat vs) (drop 16 mem)).
  assert (length v = (16 + Z.to_nat vs)%nat) as Lv by (unfold v; rewrite length_take, length_drop; lia).
  destruct (write_at_some 24 v b3) as (b4 & H4 & L4); [lia|]. rewrite H4. cbn [mbind res_bind].
  exists b4. split_and!; [done| | |lia].
  - apply (parse_req_bytes _ _ (req_word (reqtype_code put) vs kh)); try done.
    + rewrite (read_write_at_ne _ _ _ _ 4 4 H4) by lia. done.
    + rewrite (read_write_at_ne _ _ _ _ 8 8 H4) by lia. done.
    + rewrite (read_write_at_ne _ _ _ _ 16 8 H4) by lia. done.
    + split; simpl; lia.
  - pose proof (read_write_at _ _ _ _ H4) as Hrd. rewrite read_at_ok in Hrd by lia. injection Hrd as Hrd.
    assert (take (Z.to_nat vs) (take (length v) (drop 24 b4)) = take (Z.to_nat vs) (drop 24 b4)) as <-
      by (rewrite take_take; f_equal; lia).
    rewrite Hrd. unfold v. rewrite take_take. f_equal. lia.
Qed.

(** A request is parsed from its first bytes. *)
Lemma parse_req_take n buf : (24 <= n <= length buf)%nat -> parse_req (take n buf) = parse_req buf.
Proof. intros H. unfold parse_req. by rewrite !read_at_take by lia. Qed.

(** A GET request forged into any buffer with room for it is parsed by the
    handler as the caller, type, key hash and key it was forged from, and the
    bytes after it are left alone. *)
Theorem get_req_roundtrip buf caller key kh ty :
  (24 <= length buf)%nat -> u 32 caller -> u 64 key -> u 48 kh ->
  exists buf' vs, ds_forge_generic_get_req buf caller key kh ty = Ok (sizeof_get_req, buf') /\
    parse_req buf' = Ok (mk_req caller (reqtype_code ty) vs kh key) /\
    drop 24 buf' = drop 24 buf /\ length buf' = length buf.
Proof. apply get_forge_ok. Qed.

Lemma get_req_roundtrip_witness :
  exists buf' vs, ds_forge_generic_get_req (replicate 30 7) 5 77 1234567 get_for_upd = Ok (24, buf') /\
    parse_req buf' = Ok (mk_req 5 1 vs 1234567 77).
Proof.
  destruct (get_req_roundtrip (replicate 30 7) 5 77 1234567 get_for_upd) as (b & vs & H1 & H2 & _).
  - vm_compute. lia.
  - split; [lia|reflexivity].
  - split; [lia|reflexivity].
  - split; [lia|reflexivity].
  - exists b, vs. split; [exact H1|exact H2].
Defined.

(** The bytes of an object and of what follows it in memory. *)
Lemma obj_mem_val obj after n :
  obj_wf obj -> (n <= length (val obj ++ after))%nat ->
  read_at 16 n (obj_bytes obj ++ after) = Ok (take n (val obj ++ after)) /\
  read_at 0 8 (obj_bytes obj ++ after) = Ok (le_bytes 8 (val_size obj)).
Proof.
  intros (_ & _ & Hl & _) Hn. unfold obj_bytes. rewrite <- !app_assoc.
  pose proof (length_le_bytes 8 (val_size obj)). pose proof (length_le_bytes 8 (hdr_word (hdr obj))).
  rewrite !read_at_ok by (rewrite !length_app; rewrite length_app in Hn; lia). split.
  - rewrite app_assoc, drop_app_length' by (rewrite length_app; lia). done.
  - rewrite drop_0. f_equal; by apply take_app_length'.
Qed.

(** A PUT request forged from an object is parsed as the caller, key hash, key
    and value size it was forged from, and carries the object's value; the copy
    also overwrites the sixteen bytes after the request, which the buffer must
    have. *)
Theorem put_req_roundtrip buf caller key kh obj after :
  obj_wf obj -> val_size obj <= HOTS_MAX_VALUE ->
  24 + (16 + val_size obj) <= Z.of_nat (length buf) ->
  16 + val_size obj <= HOTS_MAX_VALUE + Z.of_nat (length after) ->
  u 32 caller -> u 64 key -> u 48 kh ->
  exists buf',
    ds_forge_generic_put_req buf caller key kh (obj_bytes obj ++ after) put =
      Ok (ds_put_req_size (val_size obj), buf') /\
    parse_req buf' = Ok (mk_req caller (reqtype_code put) (val_size obj) kh key) /\
    take (Z.to_nat (val_size obj)) (drop 24 buf') = take (Z.to_nat (val_size obj)) (val obj) /\
    length buf' = length buf.
Proof.
  intros Ho Hvs Hb Ha Uc Uk Uh. pose proof Ho as ([Hv0 Hv1] & _ & Hl & _).
  unfold HOTS_MAX_VALUE in *. pose proof (length_le_bytes 8 (val_size obj)). pose proof (length_le_bytes 8 (hdr_word (hdr obj))).
  destruct (put_forge_ok buf caller key kh (obj_bytes obj ++ after) (val_size obj)) as (b & H1 & H2 & H3 & H4); try done.
  - unfold obj_bytes. rewrite !length_app. lia.
  - exists b. split_and!; try done. rewrite H3. unfold obj_bytes. rewrite <- !app_assoc.
    rewrite app_assoc, drop_app_length' by (rewrite length_app; lia). by rewrite take_app_le by lia.
Qed.

Lemma put_req_roundtrip_witness :
  exists buf', ds_forge_generic_put_req (replicate 80 0) 5 77 1234567
      (obj_bytes (mk_obj 9 (mk_hdr 1 3 1) (replicate 40 8)) ++ replicate 16 6) put = Ok (33, buf') /\
    parse_req buf' = Ok (mk_req 5 (reqtype_code put) 9 1234567 77) /\
    take 9 (drop 24 buf') = replicate 9 8.
Proof.
  destruct (put_req_roundtrip (replicate 80 0) 5 77 1234567 (mk_obj 9 (mk_hdr 1 3 1) (replicate 40 8))
    (replicate 16 6)) as (b & H1 & H2 & H3 & _).
  - vm_compute. repeat split; try discriminate. repeat constructor; discriminate.
  - vm_compute. discriminate.
  - vm_compute. discriminate.
  - vm_compute. discriminate.
  - split; [lia|reflexivity].
  - split; [lia|reflexivity].
  - split; [lia|reflexivity].
  - exists b. split; [exact H1|split; [exact H2|exact H3]].
Defined.
