(* ===== verification/DatastoreSpec.v ===== *)
(** * The FixedTable datastore: what the RPC handler promises

    The abstract service [a_handle] of one bucket, by request type, and the proof
    that [ds_fixedtable_rpc_handler] implements it on primary and on backup
    tables; the contents of a table after [ds_fixedtable_populate]. *)

From S2P Require Import Prelude Util City Hots Mappings FixedTable FixedTableInv FixedTableOps FixedTableInit Datastore.
From Stdlib Require Import ZArith Lia Bool.
From stdpp Require Import base numbers list gmap.
#[local] Open Scope Z_scope.
Import FixedTable FixedTableInv FixedTableOps FixedTableInit.

Module DatastoreSpec.

(** ** The abstract service *)

(** A response: type, length, and the header and value it carries, when the
    handler writes them. *)
Record ds_resp := mk_resp {
  rs_type : ds_resptype_t; rs_len : Z; rs_hdr : option Z; rs_val : option (list byte)
}.

Definition a_heldb (caller : Z) (a : abucket) : bool :=
  is_locked (a_ts a) && (a_locker a =? caller).

(** Guards of the update requests: a primary requires the caller's lock, and
    releases it; a backup has no locks. *)
Definition a_update (prim : bool) (caller : Z) (a a' : abucket) : option abucket :=
  if prim then if a_heldb caller a then Some (a_unlock a') else None else Some a'.

(** [None]: the request breaks the protocol (an assertion of the table fails).
    [vsz] is the table's value size, [v] the value of a PUT. *)
Definition a_handle (prim : bool) (vsz : Z) (rq : ds_req) (v : list byte) (a : abucket) :
    option (ds_resp * abucket) :=
  let caller := rq_caller_id rq in
  let key := rq_key rq in
  match reqtype_of_code (rq_type rq) with
  | Some get_rdonly =>
      if prim then
        let '(r, ts, v) := a_get caller key a in
        Some (match r with
              | kSuccess => mk_resp get_rdonly_success (8 + vsz) ts v
              | kLocked => mk_resp get_rdonly_locked 0 ts v
              | _ => mk_resp get_rdonly_not_found 8 ts v
              end, a)
      else None
  | Some get_for_upd =>
      if prim && (a_cnt a <? kMaxNumLocks) then
        let '(r, ts, v, a') := a_lock_get caller key a in
        Some (match r with
              | kSuccess => mk_resp get_for_upd_success (8 + vsz) ts v
              | kLocked => mk_resp get_for_upd_locked 0 ts v
              | _ => mk_resp get_for_upd_not_found 0 ts v
              end, a')
      else None
  | Some lock_for_ins =>
      if prim && (a_cnt a <? kMaxNumLocks) then
        let '(r, ts, a') := a_lock_ins caller key a in
        Some (match r with
              | kSuccess => mk_resp lock_for_ins_success 8 ts None
              | kExists => mk_resp lock_for_ins_exists 0 ts None
              | _ => mk_resp lock_for_ins_locked 0 ts None
              end, a')
      else None
  | Some unlock =>
      if prim && a_heldb caller a then Some (mk_resp unlock_success 0 None None, a_unlock a) else None
  | Some Datastore.del =>
      match a_map a !! key with
      | Some _ => a' ← a_update prim caller a (a_del key a); Some (mk_resp del_success 0 None None, a')
      | None => None
      end
  | Some put =>
      a' ← a_update prim caller a (a_put key v a); Some (mk_resp put_success 0 None None, a')
  | None => None
  end.

(** The response buffer carries the response. *)
Definition shows (rs : ds_resp) (buf : list byte) : Prop :=
  (forall ts, rs_hdr rs = Some ts -> read_at 0 8 buf = Ok (le_bytes 8 ts)) /\
  (forall v, rs_val rs = Some v -> read_at 8 (length v) buf = Ok v).

(** ** Auxiliary facts *)

Lemma a_heldb_held caller a : a_heldb caller a = true <-> a_held caller a.
Proof. unfold a_heldb, a_held. rewrite andb_true_iff, Z.eqb_eq. done. Qed.

(** Values have the table's value size. *)
Lemma view_val_length t kh key v :
  Inv t -> key <> kFtInvalidKey -> a_map (view t (bidx t kh)) !! key = Some v ->
  Z.of_nat (length v) = val_size t.
Proof.
  intros HI Hne. destruct (Inv_bucket t kh HI) as (_ & _ & sh & ps & b & Hw & Hps & _ & _ & _ & ->).
  pose proof (find_abs t sh _ ps key Hw Hps Hne) as Hf. simpl. intros E.
  destruct (find_in t key ps) as [[q j]|].
  - destruct Hf as (c & v' & _ & _ & _ & _ & Hl & Habs). simplify_eq. congruence.
  - destruct Hf. congruence.
Qed.

(** Writing the outputs of a table operation into the response. *)
Lemma put_outputs ts v buf vsz :
  (8 + Z.to_nat vsz <= length buf)%nat ->
  (forall w, v = Some w -> Z.of_nat (length w) = vsz) ->
  exists buf1 buf2, put_ts ts buf = Ok buf1 /\ put_val v buf1 = Ok buf2 /\
    length buf2 = length buf /\
    forall rt len, shows (mk_resp rt len ts v) buf2.
Proof.
  intros Hl Hv.
  assert (exists buf1, put_ts ts buf = Ok buf1 /\ length buf1 = length buf /\
    forall x, ts = Some x -> read_at 0 8 buf1 = Ok (le_bytes 8 x)) as (buf1 & H1 & L1 & R1).
  { destruct ts as [x|]; simpl; [|by exists buf].
    pose proof (length_le_bytes 8 x). destruct (write_at_some 0 (le_bytes 8 x) buf) as (b1 & H1 & L1); [lia|].
    exists b1. split_and!; try done. intros ? [= <-]. by apply (read_write_at _ (le_bytes 8 x)) in H1. }
  exists buf1. destruct v as [w|]; simpl.
  - specialize (Hv w eq_refl). destruct (write_at_some 8 w buf1) as (b2 & H2 & L2); [lia|].
    exists b2. split_and!; try done; [lia|]. intros rt len. split; simpl.
    + intros x E. rewrite (read_write_at_ne _ _ _ _ 0 8 H2) by lia. by apply R1.
    + intros ? [= <-]. by eapply read_write_at.
  - exists buf1. split_and!; try done.
Qed.

(** A backup deletes a present key without looking at locks. *)
Lemma del_backup_ok t caller kh key :
  Inv t -> is_primary t = false -> key <> kFtInvalidKey ->
  is_Some (a_map (view t (bidx t kh)) !! key) ->
  exists t', FixedTable.del caller kh key t = Ok (kSuccess, t') /\ Inv t' /\
    view_upd (bidx t kh) (a_del key (view t (bidx t kh))) t t'.
Proof.
  intros HI Hprim Hne Hsome.
  destruct (Inv_bucket t kh HI) as (Hg & Hlt & sh & ps & b & Hw & Hps & Hb & Hbk & Hlk & Hv).
  rewrite Hv in Hsome. simpl in Hsome.
  destruct (remove_ok t sh _ ps key Hw Hps Hne Hsome) as (q & j & t2 & sh2 & Hfind & Hfill & Hw2 & Hv2).
  unfold FixedTable.del. rewrite Hg. simpl. rewrite Hbk, Hprim. simpl. rewrite Hfind. simpl.
  rewrite Hfill. simpl. rewrite (cfg_primary t t2), Hprim by apply Hv2.
  exists t2. split_and!; [done|by exists sh2|apply Hv2..].
Qed.

Section Handler.
Context (t : table) (rq : ds_req) (req_buf resp_buf : list byte).
Context (HI : Inv t) (Hrq : parse_req req_buf = Ok rq).
Context (Hne : rq_key rq <> kFtInvalidKey) (Hcl : caller_wf (rq_caller_id rq)).
Context (Hresp : (8 + Z.to_nat (val_size t) <= length resp_buf)%nat).

Let i := bidx t (rq_keyhash rq).

(** The outcome the service asks for. *)
Definition serves (rs : ds_resp) (a' : abucket) : Prop :=
  exists buf' t', ds_fixedtable_rpc_handler resp_buf req_buf t = Ok (buf', rs_type rs, rs_len rs, t') /\
    length buf' = length resp_buf /\ shows rs buf' /\ Inv t' /\ view_upd i a' t t'.

(** The service's answer, with [v] the value of the request. *)
Let answers (v : list byte) (rs : ds_resp) (a' : abucket) : Prop :=
  a_handle (is_primary t) (val_size t) rq v (view t i) = Some (rs, a').

(** The outputs of an operation on bucket [i] end up in the response. *)
Lemma outputs_ok ts v :
  (forall w, v = Some w -> a_map (view t i) !! rq_key rq = Some w) ->
  exists buf1 buf2, put_ts ts resp_buf = Ok buf1 /\ put_val v buf1 = Ok buf2 /\
    length buf2 = length resp_buf /\ forall rt len, shows (mk_resp rt len ts v) buf2.
Proof.
  intros Hv. apply (put_outputs ts v resp_buf (val_size t) Hresp).
  intros w E. by apply (view_val_length t (rq_keyhash rq) (rq_key rq)), Hv.
Qed.

Lemma serves_get v rs a' :
  reqtype_of_code (rq_type rq) = Some get_rdonly -> answers v rs a' -> serves rs a'.
Proof.
  unfold answers, a_handle, serves, ds_fixedtable_rpc_handler. rewrite Hrq. intros Hty.
  cbn [mbind res_bind]. rewrite Hty. destruct (is_primary t) eqn:Hp; [|done].
  rewrite (get_ok t _ _ _ HI Hp Hne). fold i.
  destruct (a_get _ _ (view t i)) as [[r ts] w] eqn:Eg. intros [= <- <-]. cbn [mbind res_bind].
  destruct (outputs_ok ts w) as (b1 & b2 & -> & H2 & L & Hs).
  { intros x ->. revert Eg. unfold a_get. repeat case_match; intros; by simplify_eq. }
  cbn [mbind res_bind]. rewrite H2. cbn [mbind res_bind].
  destruct r; simpl; eexists _, t; split_and!; try done; apply Hs.
Qed.

Lemma serves_get_for_upd v rs a' :
  reqtype_of_code (rq_type rq) = Some get_for_upd -> answers v rs a' -> serves rs a'.
Proof.
  unfold answers, a_handle, serves, ds_fixedtable_rpc_handler. rewrite Hrq. intros Hty.
  cbn [mbind res_bind]. rewrite Hty. destruct (is_primary t) eqn:Hp; [|done]. simpl.
  case_match eqn:Ec; [|done]. apply Z.ltb_lt in Ec.
  pose proof (lock_bkt_and_get_ok t _ _ _ HI Hp Hne Hcl Ec) as Hop. fold i in Hop.
  destruct (a_lock_get _ _ (view t i)) as [[[r ts] w] a1] eqn:Eg. intros [= <- <-].
  destruct Hop as (t' & -> & HI' & Hv). cbn [mbind res_bind].
  destruct (outputs_ok ts w) as (b1 & b2 & -> & H2 & L & Hs).
  { intros x ->. revert Eg. unfold a_lock_get. repeat case_match; intros; by simplify_eq. }
  cbn [mbind res_bind]. rewrite H2. cbn [mbind res_bind].
  assert (val_size t' = val_size t) as -> by (destruct Hv as (_ & Hc & _); unfold cfg in Hc; congruence).
  destruct r; simpl; eexists _, t'; split_and!; try done; try apply Hs; apply Hv.
Qed.

Lemma serves_lock_for_ins v rs a' :
  reqtype_of_code (rq_type rq) = Some lock_for_ins -> answers v rs a' -> serves rs a'.
Proof.
  unfold answers, a_handle, serves, ds_fixedtable_rpc_handler. rewrite Hrq. intros Hty.
  cbn [mbind res_bind]. rewrite Hty. destruct (is_primary t) eqn:Hp; [|done]. simpl.
  case_match eqn:Ec; [|done]. apply Z.ltb_lt in Ec.
  pose proof (lock_bkt_for_ins_ok t _ _ _ HI Hp Hne Hcl Ec) as Hop. fold i in Hop.
  destruct (a_lock_ins _ _ (view t i)) as [[r ts] a1] eqn:Eg. intros [= <- <-].
  destruct Hop as (t' & -> & HI' & Hv). cbn [mbind res_bind].
  destruct (outputs_ok ts None) as (b1 & b2 & -> & [= <-] & L & Hs); [done|]. cbn [mbind res_bind].
  destruct r; simpl; eexists _, t'; split_and!; try done; try apply Hs; try apply Hv.
Qed.

Lemma serves_unlock v rs a' :
  reqtype_of_code (rq_type rq) = Some unlock -> answers v rs a' -> serves rs a'.
Proof.
  unfold answers, a_handle, serves, ds_fixedtable_rpc_handler. rewrite Hrq. intros Hty.
  cbn [mbind res_bind]. rewrite Hty. destruct (is_primary t) eqn:Hp; [|done]. simpl.
  case_match eqn:Eh; [|done]. intros [= <- <-]. apply a_heldb_held in Eh.
  destruct (unlock_bucket_hash_ok t _ _ HI Hp Hcl Eh) as (t' & -> & HI' & Hv). simpl.
  exists resp_buf, t'. split_and!; try done; apply Hv.
Qed.

Lemma serves_del v rs a' :
  reqtype_of_code (rq_type rq) = Some Datastore.del -> answers v rs a' -> serves rs a'.
Proof.
  unfold answers, a_handle, serves, ds_fixedtable_rpc_handler. rewrite Hrq. intros Hty.
  cbn [mbind res_bind]. rewrite Hty. destruct (a_map (view t i) !! rq_key rq) as [w|] eqn:Ek; [|done].
  assert (exists t', a_update (is_primary t) (rq_caller_id rq) (view t i) (a_del (rq_key rq) (view t i)) = Some a' ->
    FixedTable.del (rq_caller_id rq) (rq_keyhash rq) (rq_key rq) t = Ok (kSuccess, t') /\ Inv t' /\
    view_upd i a' t t') as [t' Ht].
  { unfold a_update. destruct (is_primary t) eqn:Hp.
    - destruct (a_heldb _ _) eqn:Eh; [|by exists t]. apply a_heldb_held in Eh.
      destruct (del_primary_ok t _ _ _ HI Hp Hne Hcl ltac:(by exists w) Eh) as (t' & Hd & HI' & Hv).
      exists t'. by intros [= <-].
    - destruct (del_backup_ok t (rq_caller_id rq) _ _ HI Hp Hne ltac:(by exists w)) as (t' & Hd & HI' & Hv).
      exists t'. by intros [= <-]. }
  destruct (a_update _ _ _ _) as [a1|]; [|done]. intros [= <- ->].
  destruct (Ht eq_refl) as (-> & HI' & Hv). simpl. exists resp_buf, t'. split_and!; try done; apply Hv.
Qed.

(** The only answer the handler may fail to give is a PUT of a new key when no
    extra bucket is left. *)
Lemma serves_put rs a' :
  reqtype_of_code (rq_type rq) = Some put ->
  24 + val_size t <= Z.of_nat (length req_buf) ->
  (is_primary t = false -> is_locked (a_ts (view t i)) = false) ->
  answers (stored t (drop 24 req_buf)) rs a' ->
  serves rs a' \/
  (is_ok (ds_fixedtable_rpc_handler resp_buf req_buf t) = false /\
   a_map (view t i) !! rq_key rq = None /\ fl_head t = 0).
Proof.
  unfold answers, a_handle, serves, ds_fixedtable_rpc_handler. rewrite Hrq. intros Hty Hlen Hul.
  cbn [mbind option_bind res_bind]. rewrite Hty. unfold a_update.
  assert (val_size t <= Z.of_nat (length (drop 24 req_buf))) as Hlen' by (rewrite length_drop; lia).
  destruct (is_primary t) eqn:Hp.
  - destruct (a_heldb _ _) eqn:Eh; [|done]. apply a_heldb_held in Eh. intros [= <- <-].
    destruct (set_primary_ok t _ _ _ _ HI Hp Hne Hcl Hlen' Eh)
      as (r & t' & -> & HI' & [(-> & Hv)|(-> & Hk & Hfl & _)]); simpl.
    + left. exists resp_buf, t'. split_and!; try done; apply Hv.
    + by right.
  - intros [= <- <-].
    destruct (set_backup_ok t (rq_caller_id rq) _ _ _ HI Hp Hne Hcl Hlen' (Hul eq_refl))
      as [(t' & -> & HI' & Hv)|(-> & Hk & Hfl)]; simpl.
    + left. exists resp_buf, t'. split_and!; try done; apply Hv.
    + by right.
Qed.
End Handler.

(** ** The handler implements the service *)

Lemma handler_serves t rq req_buf resp_buf rs a' :
  Inv t -> parse_req req_buf = Ok rq ->
  rq_key rq <> kFtInvalidKey -> caller_wf (rq_caller_id rq) ->
  (8 + Z.to_nat (val_size t) <= length resp_buf)%nat ->
  (rq_type rq = reqtype_code put -> 24 + val_size t <= Z.of_nat (length req_buf)) ->
  (is_primary t = false -> is_locked (a_ts (view t (bidx t (rq_keyhash rq)))) = false) ->
  a_handle (is_primary t) (val_size t) rq (stored t (drop 24 req_buf))
    (view t (bidx t (rq_keyhash rq))) = Some (rs, a') ->
  (exists buf' t', ds_fixedtable_rpc_handler resp_buf req_buf t = Ok (buf', rs_type rs, rs_len rs, t') /\
     length buf' = length resp_buf /\ shows rs buf' /\ Inv t' /\
     view_upd (bidx t (rq_keyhash rq)) a' t t') \/
  (rq_type rq = reqtype_code put /\ is_ok (ds_fixedtable_rpc_handler resp_buf req_buf t) = false /\
   a_map (view t (bidx t (rq_keyhash rq))) !! rq_key rq = None /\ fl_head t = 0).
Proof.
  intros HI Hrq Hne Hcl Hresp Hput Hul Ha.
  destruct (reqtype_of_code (rq_type rq)) as [[]|] eqn:Hty.
  - left. by eapply serves_get.
  - left. by eapply serves_get_for_upd.
  - left. by eapply serves_lock_for_ins.
  - left. by eapply serves_del.
  - left. by eapply serves_unlock.
  - assert (rq_type rq = reqtype_code put) as E.
    { revert Hty. unfold reqtype_of_code. repeat case_match; intros; simplify_eq; done. }
    destruct (serves_put t rq req_buf resp_buf HI Hrq Hne Hcl Hresp rs a' Hty (Hput E) Hul Ha); [by left|by right].
  - unfold a_handle in Ha. by rewrite Hty in Ha.
Qed.


(** A request that needs the caller's lock. *)
Definition is_update (ty : ds_reqtype_t) : bool :=
  match ty with Datastore.del | unlock | put => true | _ => false end.

(** A primary refuses an update by a caller that does not hold the bucket, a
    backup refuses everything but the updates it replicates, and an unknown
    request type ends the process: no such request changes a table. *)
Theorem handler_rejects t rq req_buf resp_buf :
  Inv t -> parse_req req_buf = Ok rq ->
  (forall ty, reqtype_of_code (rq_type rq) = Some ty ->
     (is_primary t = true /\ is_update ty = true /\
        a_heldb (rq_caller_id rq) (view t (bidx t (rq_keyhash rq))) = false) \/
     (is_primary t = false /\ ty <> Datastore.del /\ ty <> put)) ->
  ds_fixedtable_rpc_handler resp_buf req_buf t =
    Err (match reqtype_of_code (rq_type rq) with Some _ => AssertFail | None => ExitFail end).
Proof.
  intros HI Hrq H. destruct (Inv_bucket t (rq_keyhash rq) HI) as (Hg & _ & sh & ps & b & _ & _ & _ & Hbk & _ & Hv).
  unfold ds_fixedtable_rpc_handler. rewrite Hrq. cbn [mbind res_bind].
  destruct (reqtype_of_code (rq_type rq)) as [ty|]; [|done].
  specialize (H ty eq_refl). rewrite Hv in H. unfold a_heldb in H. simpl in H.
  destruct H as [(Hp & Hu & Hh)|(Hp & H1 & H2)]; destruct ty; try done;
    unfold get, get_at, lock_bkt_and_get, lock_bkt_for_ins, unlock_bucket_hash, FixedTable.del, set;
    rewrite Hp; simpl; try done; rewrite Hg; simpl; unfold unlock_bucket_ptr;
    destruct (rq_caller_id rq =? kInvalidCallerId); simpl; try done;
    rewrite ?Hbk; simpl; destruct (is_locked (timestamp b)); simpl in *; rewrite ?Hh; done.
Qed.

(** ** Population *)

(** The keys a replica stores, and the bytes it stores for them. *)
Definition keyhash (key : Z) : Z := match ds_keyhash key with Ok kh => kh | Err _ => 0 end.

Definition populated (mp : option Mappings.t) (repl_i key : Z) : bool :=
  match mp with None => true | Some m => Mappings.should_i_populate m (keyhash key) repl_i end.

Definition initial_value (const_val vs key : Z) : list byte :=
  replicate (Z.to_nat vs) (if const_val =? -1 then Z.land key 255 else Z.land const_val 255).

Definition quiet (t : table) : Prop :=
  forall j, (j < Z.to_nat (num_buckets_ t))%nat ->
    is_unlocked (a_ts (view t j)) = true /\ a_cnt (view t j) = 0.

Section Populate.
Context (mp : option Mappings.t) (repl_i gid const_val vs : Z).
Context (Hcl : caller_wf gid) (Hvs : vs <= HOTS_MAX_VALUE).
Context (Hrepl : forall m, mp = Some m -> 0 <= repl_i < HOTS_MAX_REPLICAS).

(** The contents of [t'] after the keys of [lo, hi) were added to [t]. *)
Definition extends (lo hi : Z) (t t' : table) : Prop :=
  cfg t' = cfg t /\
  forall j k, (j < Z.to_nat (num_buckets_ t))%nat ->
    a_map (view t' j) !! k =
      if (lo <=? k) && (k <? hi) && populated mp repl_i k && (j =? bidx t (keyhash k))%nat
      then Some (initial_value const_val vs k) else a_map (view t j) !! k.

Lemma unlock_quiet m ts gid' : Z.odd ts = false -> is_unlocked (a_ts (a_unlock (mkA m (ts + 1) gid' 1))) = true.
Proof.
  intros H. unfold a_unlock. simpl. rewrite is_unlocked_even. unfold wrap.
  rewrite <- (Z.bit0_odd (_ mod _)), Z.mod_pow2_bits_low, Z.bit0_odd by lia.
  by rewrite !Z.odd_add, H.
Qed.

(** One insertion into a table nobody has locked. *)
Lemma set_quiet t kh k v :
  Inv t -> quiet t -> 0 <= k < kFtInvalidKey -> Z.of_nat (length v) = val_size t ->
  exists r t', set_spinlock gid kh k v t = Ok (r, t') /\
    ((r = kSuccess /\ Inv t' /\ quiet t' /\ cfg t' = cfg t /\
      forall j k', (j < Z.to_nat (num_buckets_ t))%nat ->
        a_map (view t' j) !! k' =
          if (k' =? k) && (j =? bidx t kh)%nat then Some v else a_map (view t j) !! k') \/
     (r = kInsufficientSpaceIndex /\ fl_head t = 0)).
Proof.
  intros HI Hq Hk Hl. destruct (Inv_bucket t kh HI) as (_ & Hlt & _). destruct (Hq _ Hlt) as [Hu Hc].
  destruct (set_spinlock_ok t gid kh k v (mkA (a_map (view t (bidx t kh))) (a_ts (view t (bidx t kh)) + 1) gid 1)
    HI ltac:(lia) Hcl ltac:(lia)) as (r & t' & Hs & HI' & Hr).
  { rewrite Hc. done. }
  { unfold a_lock. by rewrite Hu. }
  exists r, t'. split; [done|]. destruct Hr as [(-> & Hv)|(-> & _ & Hf & _)]; [left|by right].
  destruct Hv as (Hvi & Hcfg & Hvo). split_and!; try done.
  - intros j Hj. rewrite (cfg_nb_eq t t' Hcfg) in Hj. destruct (decide (j = bidx t kh)) as [->|Hne].
    + rewrite Hvi. split; [|done]. rewrite is_unlocked_even in Hu. apply unlock_quiet. by apply negb_true_iff.
    + rewrite Hvo by done. by apply Hq.
  - intros j k' Hj. destruct (Nat.eqb_spec j (bidx t kh)) as [->|Hne].
    + rewrite Hvi. unfold a_unlock, a_put, stored. simpl. rewrite firstn_all2 by lia.
      destruct (Z.eqb_spec k' k) as [->|]; simpl; [by rewrite lookup_insert_eq|by rewrite lookup_insert_ne].
    + rewrite Hvo by done. by rewrite andb_false_r.
Qed.

Lemma populate_key_ok t k :
  Inv t -> quiet t -> val_size t = vs -> 0 <= k < kFtInvalidKey ->
  (exists t', populate_key mp repl_i gid const_val vs k t = Ok t' /\ Inv t' /\ quiet t' /\
     extends k (k + 1) t t') \/
  (populate_key mp repl_i gid const_val vs k t = Err ExitFail /\ fl_head t = 0).
Proof.
  intros HI Hq Hv Hk. destruct (ds_keyhash_ok k) as (kh & Ekh & _).
  assert (keyhash k = kh) as Ek by (unfold keyhash; by rewrite Ekh).
  unfold populate_key. rewrite Ekh. cbn [mbind res_bind].
  assert (match mp with None => Ok false | Some m =>
      _ ← assert_ ((0 <=? repl_i) && (repl_i <? HOTS_MAX_REPLICAS));
      Ok (negb (Mappings.should_i_populate m kh repl_i)) end = Ok (negb (populated mp repl_i k))) as ->.
  { unfold populated. rewrite Ek. destruct mp as [m|]; [|done]. specialize (Hrepl m eq_refl).
    rewrite (proj2 (Z.leb_le _ _)), (proj2 (Z.ltb_lt _ _)) by lia. done. }
  assert (forall k', (k <=? k') && (k' <? k + 1) = (k' =? k)) as Hb.
  { intros k'. destruct (Z.leb_spec k k'), (Z.ltb_spec k' (k + 1)), (Z.eqb_spec k' k); done || lia. }
  cbn [mbind res_bind]. destruct (populated mp repl_i k) eqn:Ep; cbn [negb].
  2:{ left. exists t. split_and!; try done. split; [done|]. intros j k' Hj. rewrite Hb.
      destruct (Z.eqb_spec k' k) as [->|]; [|done]. by rewrite Ep. }
  rewrite (proj2 (Z.ltb_ge _ _)) by lia. cbn [mbind res_bind]. fold (initial_value const_val vs k).
  destruct (set_quiet t kh k (initial_value const_val vs k) HI Hq Hk) as (r & t' & -> & Hr).
  { unfold initial_value. rewrite length_replicate. destruct HI as [sh (Hc & _)].
    destruct (cfg_val t Hc). lia. }
  cbn [mbind res_bind]. destruct Hr as [(-> & HI' & Hq' & Hcfg & Hm)|(-> & Hf)]; simpl; [left|by right].
  exists t'. split_and!; try done. split; [done|]. intros j k' Hj. rewrite Hb, (Hm j k' Hj).
  destruct (Z.eqb_spec k' k) as [->|]; simpl; [by rewrite Ep, Ek|done].
Qed.

Lemma extends_trans lo mid hi t1 t2 t3 :
  lo <= mid <= hi -> extends lo mid t1 t2 -> extends mid hi t2 t3 -> extends lo hi t1 t3.
Proof.
  intros Hm [Hc1 H1] [Hc2 H2]. split; [congruence|]. intros j k Hj.
  rewrite H2, H1 by (rewrite ?(cfg_nb_eq t1 t2 Hc1); done). rewrite (cfg_bidx t1 t2) by done.
  destruct (populated mp repl_i k), (j =? bidx t1 (keyhash k))%nat; rewrite ?andb_false_r; try done.
  rewrite ?andb_true_r.
  destruct (Z.leb_spec lo k), (Z.leb_spec mid k), (Z.ltb_spec k mid), (Z.ltb_spec k hi); done || lia.
Qed.

Lemma populate_loop_ok n k t :
  Inv t -> quiet t -> val_size t = vs -> 0 <= k -> k + Z.of_nat n <= kFtInvalidKey ->
  (exists t', populate_loop n mp repl_i gid const_val vs k t = Ok t' /\ Inv t' /\ quiet t' /\
     extends k (k + Z.of_nat n) t t') \/
  (populate_loop n mp repl_i gid const_val vs k t = Err ExitFail /\
   exists m t1, (m < n)%nat /\ populate_loop m mp repl_i gid const_val vs k t = Ok t1 /\ fl_head t1 = 0).
Proof.
  revert k t. induction n as [|n IH]; intros k t HI Hq Hv Hk Hn.
  { left. exists t. split_and!; try done. split; [done|]. intros j k' Hj.
    destruct (Z.leb_spec k k'), (Z.ltb_spec k' (k + Z.of_nat 0)); try done. lia. }
  cbn [populate_loop]. destruct (populate_key_ok t k HI Hq Hv ltac:(lia)) as [(t1 & E & HI1 & Hq1 & Hx)|(E & Hf)].
  2:{ right. rewrite E. split; [done|]. exists 0%nat, t. split_and!; [lia|done..]. }
  rewrite E. cbn [mbind res_bind]. pose proof Hx as [Hcfg _].
  destruct (IH (k + 1) t1) as [(t' & -> & HI' & Hq' & Hx')|(-> & m & t2 & Hm & Hp & Hf)]; try done.
  - unfold cfg in Hcfg. congruence.
  - lia.
  - lia.
  - left. exists t'. split_and!; [done..|]. apply (extends_trans k (k + 1) _ t t1 t'); [lia|done|].
    by replace (k + Z.of_nat (S n)) with (k + 1 + Z.of_nat n) by lia.
  - right. split; [done|]. exists (S m), t2. cbn [populate_loop]. rewrite E. split_and!; [lia|done..].
Qed.
End Populate.

(** C32: populating an empty table as replica [repl_i] stores exactly the keys below
    [num_keys] whose mapping makes this worker their owner, each in the bucket of
    its hash with its initial bytes, leaves no lock behind and keeps the
    invariant; the process ends only when the table has run out of extra
    buckets. *)
Theorem populate_correct t num_keys vs m repl_i gid const_val :
  Inv t -> (forall j, (j < Z.to_nat (num_buckets_ t))%nat -> view t j = abucket0) ->
  is_primary t = (repl_i =? 0) -> val_size t = vs -> vs <= HOTS_MAX_VALUE ->
  1 <= num_keys <= kFtInvalidKey -> 0 <= repl_i < HOTS_MAX_REPLICAS -> caller_wf gid ->
  (exists t', ds_fixedtable_populate t num_keys vs (Some m) repl_i gid true const_val = Ok t' /\
     Inv t' /\ quiet t' /\
     forall k kh, ds_keyhash k = Ok kh ->
       a_map (view t' (bidx t' kh)) !! k =
         if (0 <=? k) && (k <? num_keys) && Mappings.should_i_populate m kh repl_i
         then Some (initial_value const_val vs k) else None) \/
  (ds_fixedtable_populate t num_keys vs (Some m) repl_i gid true const_val = Err ExitFail /\
   exists n t1, Z.of_nat n < num_keys /\
     populate_loop n (Some m) repl_i gid const_val vs 0 t = Ok t1 /\ fl_head t1 = 0).
Proof.
  intros HI Hview Hp Hv Hvs Hn Hr Hcl. unfold ds_fixedtable_populate. cbn [negb mbind res_bind].
  rewrite Hp. assert ((if repl_i =? 0 then assert_ (repl_i =? 0) else assert_ (negb (repl_i =? 0))) = Ok tt)
    as -> by by destruct (repl_i =? 0).
  cbn [mbind res_bind]. rewrite (proj2 (Z.leb_le _ _)), Hv, Z.eqb_refl by lia. cbn [assert_ mbind res_bind].
  destruct (populate_loop_ok (Some m) repl_i gid const_val vs Hcl Hvs ltac:(done) (Z.to_nat num_keys) 0 t)
    as [(t' & -> & HI' & Hq' & Hcfg & Hx)|(-> & n & t1 & Hlt & Hl & Hf)]; try done; [|lia| |].
  - intros j Hj. rewrite Hview by done. done.
  - left. exists t'. split_and!; try done. intros k kh Ek.
    destruct (Inv_bucket t kh HI) as (_ & Hlt & _).
    rewrite (cfg_bidx t t') by done. rewrite Hx by done. rewrite Hview by done.
    unfold populated, keyhash. rewrite Ek, Nat.eqb_refl, andb_true_r, Z2Nat.id, Z.add_0_l by lia. done.
  - right. split; [done|]. exists n, t1. split_and!; [lia|done..].
Qed.

Lemma populate_correct_witness :
  exists t t', make 60 8 1 true = Ok t /\
    ds_fixedtable_populate t 5 8 (Some (Mappings.mk 0 1 1 0 false 0 1 1 1 (-1) false)) 0 0 true (-1) = Ok t' /\
    Inv t' /\ a_map (view t' (bidx t' (keyhash 3))) !! 3 = Some (replicate 8 3).
Proof.
  destruct demo_table as (t & Hm & HI & Hp & Hv & Hn & _ & Hview). exists t.
  destruct (ds_fixedtable_populate t 5 8 (Some (Mappings.mk 0 1 1 0 false 0 1 1 1 (-1) false)) 0 0 true (-1))
    as [t'|] eqn:E.
  2:{ vm_compute in Hm. injection Hm as <-. vm_compute in E. discriminate. }
  destruct (populate_correct t 5 8 (Mappings.mk 0 1 1 0 false 0 1 1 1 (-1) false) 0 0 (-1))
    as [(t1 & H1 & HI1 & _ & Hk)|(H1 & _)].
  - exact HI.
  - intros j Hj. apply Hview. lia.
  - exact Hp.
  - exact Hv.
  - vm_compute. discriminate.
  - split; [lia|vm_compute; discriminate].
  - split; [lia|reflexivity].
  - split; [lia|reflexivity].
  - rewrite E in H1. injection H1 as <-. exists t'. split; [exact Hm|]. split; [reflexivity|]. split; [exact HI1|].
    assert (ds_keyhash 3 = Ok (keyhash 3)) as Hh by (vm_compute; reflexivity).
    etransitivity; [exact (Hk 3 (keyhash 3) Hh)|]. vm_compute. reflexivity.
  - rewrite E in H1. discriminate.
Defined.


Lemma handler_rejects_witness :
  exists t buf, Inv t /\ ds_forge_generic_get_req (replicate 24 0) 3 42 0 unlock = Ok (24, buf) /\
    ds_fixedtable_rpc_handler [] buf t = Err AssertFail.
Proof.
  destruct demo_table as (t & _ & HI & Hp & Hv & Hn & Hb & Hview). pose proof (Hview 0%nat ltac:(lia)) as Hv0.
  destruct (ds_forge_generic_get_req (replicate 24 0) 3 42 0 unlock) as [[l buf]|] eqn:E;
    [|vm_compute in E; discriminate].
  assert (l = 24 /\ parse_req buf = Ok (mk_req 3 4 0 0 42)) as [-> Hrq].
  { vm_compute in E. injection E as <- <-. split; vm_compute; reflexivity. }
  exists t, buf. split; [exact HI|]. split; [reflexivity|].
  rewrite (handler_rejects t (mk_req 3 4 0 0 42) buf [] HI Hrq).
  - reflexivity.
  - intros ty [= <-]. left. split; [exact Hp|]. split; [reflexivity|]. simpl. rewrite Hb, Hv0. reflexivity.
Defined.

End DatastoreSpec.
