(* ===== verification/Lockserver.v ===== *)
(** * The lock server ([src/lockserver/lockserver.h])

    Locks with their three modes, the two operations on one lock (each a critical
    section under the lock's spinlock), and the RPC handler that locks or unlocks
    the keys of a transaction.  A lock is related to the list of the grants it
    stands for; the theorems say who can hold what together. *)

From S2P Require Import Prelude Util Hots.
From Stdlib Require Import ZArith Lia Bool.
From stdpp Require Import base numbers list sets relations.
#[local] Open Scope Z_scope.

Module Lockserver.

(** ** Requests *)

Inductive locksrv_reqtype_t : Type := req_lock | req_unlock.
Inductive locksrv_resptype_t : Type := success | fail.

Definition reqtype_code (r : locksrv_reqtype_t) : Z := match r with req_lock => 3 | req_unlock => 4 end.
Definition resptype_code (r : locksrv_resptype_t) : Z := match r with success => 3 | fail => 4 end.

Definition locksrv_hashfrag_bits : Z := 31.
Definition locksrv_hashfrag_mask : Z := Z.shiftl 1 locksrv_hashfrag_bits - 1.

Definition RPC_MAX_MSG_CORO : Z := 16.

(** One element of [key_arr]. *)
Record lkey := mk_key { exclusive : Z; hashfrag : Z }.

Definition key_word (k : lkey) : Z :=
  pack [(32 - locksrv_hashfrag_bits, exclusive k); (locksrv_hashfrag_bits, hashfrag k)].
Definition word_key (w : Z) : lkey :=
  match unpack [32 - locksrv_hashfrag_bits; locksrv_hashfrag_bits] w with
  | [e; h] => mk_key e h
  | _ => mk_key 0 0
  end.

Definition sizeof_locksrv_req_t : Z := 8 + RPC_MAX_MSG_CORO * 4.
Definition locksrv_req_size (num_keys : Z) : Z :=
  sizeof_locksrv_req_t - RPC_MAX_MSG_CORO * 4 + num_keys * 4.

(** ** Locks *)

Definition locksrv_lockmode_unlocked : Z := 1.
Definition locksrv_lockmode_exclusive : Z := 2.
Definition locksrv_lockmode_shared : Z := 3.
Definition locksrv_max_counter : Z := 512.

Record locksrv_lock_t := mk_lock {
  lock_mode : Z; counter : Z; exclusive_owner : hots_glbl_crid_t
}.
Definition sizeof_locksrv_lock_t : Z := 16.

Record t := mk {
  num_locks : Z; workers_per_machine : Z; num_locks_mask : Z; lock_arr : list locksrv_lock_t
}.

(** The buffer comes from [hrd_malloc_socket], which returns zeroed memory. *)
Definition make (hrd_malloc_socket : Z -> Z) (num_locks workers_per_machine : Z) : res t :=
  _ ← assert_ (hrd_is_power_of_2 (wrap 64 num_locks));
  reqd_size ← pad (wrap 64 (wrap 64 num_locks * sizeof_locksrv_lock_t));
  _ ← assert_ (negb (hrd_malloc_socket reqd_size =? 0));
  Ok (mk num_locks workers_per_machine (num_locks - 1)
        (replicate (Z.to_nat num_locks) (mk_lock locksrv_lockmode_unlocked 0 (mk_crid 0 0)))).

(** [lock->counter++] *)
Definition incr (l : locksrv_lock_t) : locksrv_lock_t :=
  mk_lock (lock_mode l) (wrap 32 (counter l + 1)) (exclusive_owner l).

(** The critical section of [lock], on the lock the key selects. *)
Definition lock_one (requester_id : hots_glbl_crid_t) (exclusive : Z) (l : locksrv_lock_t) :
    res (bool * locksrv_lock_t) :=
  if exclusive =? 1 then
    if lock_mode l =? locksrv_lockmode_unlocked then
      Ok (true, mk_lock locksrv_lockmode_exclusive (wrap 32 (counter l + 1)) requester_id)
    else if lock_mode l =? locksrv_lockmode_shared then Ok (false, l)
    else if lock_mode l =? locksrv_lockmode_exclusive then
      if crid_eqb (exclusive_owner l) requester_id then Ok (true, incr l) else Ok (false, l)
    else Err AssertFail
  else
    if lock_mode l =? locksrv_lockmode_unlocked then
      Ok (true, mk_lock locksrv_lockmode_shared (wrap 32 (counter l + 1)) (exclusive_owner l))
    else if lock_mode l =? locksrv_lockmode_shared then Ok (true, incr l)
    else if lock_mode l =? locksrv_lockmode_exclusive then
      if crid_eqb (exclusive_owner l) requester_id then Ok (true, incr l) else Ok (false, l)
    else Err AssertFail.

Definition decrement_and_unlock_if_zero (l : locksrv_lock_t) : locksrv_lock_t :=
  let c := wrap 32 (counter l - 1) in
  mk_lock (if c =? 0 then locksrv_lockmode_unlocked else lock_mode l) c (exclusive_owner l).

(** The critical section of [unlock]. *)
Definition unlock_one (requester_id : hots_glbl_crid_t) (exclusive : Z) (l : locksrv_lock_t) :
    res locksrv_lock_t :=
  if exclusive =? 1 then Ok (decrement_and_unlock_if_zero l)
  else if lock_mode l =? locksrv_lockmode_shared then Ok (decrement_and_unlock_if_zero l)
  else if lock_mode l =? locksrv_lockmode_exclusive then Ok (decrement_and_unlock_if_zero l)
  else Err AssertFail.

Definition lock_index (s : t) (hashfrag : Z) : nat := Z.to_nat (Z.land hashfrag (num_locks_mask s)).

Definition set_lock (s : t) (i : nat) (l : locksrv_lock_t) : t :=
  mk (num_locks s) (workers_per_machine s) (num_locks_mask s) (<[i := l]> (lock_arr s)).

Definition lock (requester_id : hots_glbl_crid_t) (exclusive hashfrag : Z) (s : t) : res (bool * t) :=
  l ← of_option OutOfBounds (lock_arr s !! lock_index s hashfrag);
  '(ok, l) ← lock_one requester_id exclusive l;
  Ok (ok, set_lock s (lock_index s hashfrag) l).

Definition unlock (requester_id : hots_glbl_crid_t) (exclusive hashfrag : Z) (s : t) : res t :=
  l ← of_option OutOfBounds (lock_arr s !! lock_index s hashfrag);
  l ← unlock_one requester_id exclusive l;
  Ok (set_lock s (lock_index s hashfrag) l).

(** ** The RPC handler *)

(** Unlocks a list of keys in order. *)
Fixpoint unlock_keys (requester_id : hots_glbl_crid_t) (ks : list lkey) (s : t) : res t :=
  match ks with
  | [] => Ok s
  | k :: ks => s ← unlock requester_id (exclusive k) (hashfrag k) s; unlock_keys requester_id ks s
  end.

(** The loop of a lock request; [done_] are the keys locked so far, the last one
    first, which is the order in which a failure unlocks them. *)
Fixpoint lock_keys (requester_id : hots_glbl_crid_t) (done_ ks : list lkey) (s : t) :
    res (locksrv_resptype_t * t) :=
  match ks with
  | [] => Ok (success, s)
  | k :: ks =>
      '(ok, s) ← lock requester_id (exclusive k) (hashfrag k) s;
      if (ok : bool) then lock_keys requester_id (k :: done_) ks s
      else s ← unlock_keys requester_id done_ s; Ok (fail, s)
  end.

Definition read_key (req_buf : list byte) (i : nat) : res lkey :=
  w ← read_at (8 + 4 * i) 4 req_buf; Ok (word_key (le_val w)).

Fixpoint read_keys (req_buf : list byte) (i n : nat) : res (list lkey) :=
  match n with
  | O => Ok []
  | S n => k ← read_key req_buf i; ks ← read_keys req_buf (S i) n; Ok (k :: ks)
  end.

Definition word_crid (w : Z) : hots_glbl_crid_t :=
  match unpack [HOTS_CORO_ID_BITS; 32 - HOTS_CORO_ID_BITS] w with
  | [c; g] => mk_crid c g
  | _ => mk_crid 0 0
  end.

(** The request structure: requester, type and keys. *)
Definition parse_req (req_buf : list byte) : res (hots_glbl_crid_t * Z * list lkey) :=
  rid ← read_at 0 4 req_buf;
  ty ← read_at 4 2 req_buf;
  n ← read_at 6 2 req_buf;
  ks ← read_keys req_buf 0 (Z.to_nat (le_val n));
  Ok (word_crid (le_val rid), le_val ty, ks).

(** The response has no bytes. *)
Definition lockserver_rpc_handler (req_buf : list byte) (s : t) :
    res (locksrv_resptype_t * t) :=
  '(requester_id, ty, ks) ← parse_req req_buf;
  if ty =? reqtype_code req_lock then lock_keys requester_id [] ks s
  else s ← unlock_keys requester_id (rev ks) s; Ok (success, s).

(** ** Grants *)

(** A grant: who holds it and the mode that was asked for. *)
Notation grant := (hots_glbl_crid_t * Z)%type.

#[global] Instance key_eq_dec : EqDecision lkey.
Proof. solve_decision. Defined.

(** Removes one occurrence. *)
Fixpoint drop1 (x : grant) (g : list grant) : list grant :=
  match g with
  | [] => []
  | y :: g => if decide (x = y) then g else y :: drop1 x g
  end.

(** The lock stands for the grants [g]. *)
Definition models (l : locksrv_lock_t) (g : list grant) : Prop :=
  counter l = Z.of_nat (length g) /\ Z.of_nat (length g) < 2 ^ 32 /\
  ((lock_mode l = locksrv_lockmode_unlocked /\ g = []) \/
   (lock_mode l = locksrv_lockmode_exclusive /\ g <> [] /\ crid_wf (exclusive_owner l) /\
    Forall (fun x => fst x = exclusive_owner l) g) \/
   (lock_mode l = locksrv_lockmode_shared /\ g <> [] /\ Forall (fun x => snd x <> 1) g)).

(** The server stands for one list of grants per lock. *)
Definition srv (s : t) (G : list (list grant)) : Prop :=
  (exists k, 0 <= k /\ num_locks s = 2 ^ k) /\ num_locks_mask s = num_locks s - 1 /\
  length (lock_arr s) = Z.to_nat (num_locks s) /\ Forall2 models (lock_arr s) G.

(** What a new grant may be combined with. *)
Definition compatible (c : hots_glbl_crid_t) (ex : Z) (g : list grant) : Prop :=
  Forall (fun x => ex = 1 \/ snd x = 1 -> fst x = c) g.

Definition grants_at (G : list (list grant)) (i : nat) : list grant := default [] (G !! i).
Definition add_grant (i : nat) (x : grant) (G : list (list grant)) : list (list grant) :=
  <[i := x :: grants_at G i]> G.
Definition del_grant (i : nat) (x : grant) (G : list (list grant)) : list (list grant) :=
  <[i := drop1 x (grants_at G i)]> G.

Lemma drop1_length x g : x ∈ g -> S (length (drop1 x g)) = length g.
Proof.
  induction g as [|y g IH]; [by intros ?%elem_of_nil|]. intros H. simpl. case_decide; [done|].
  simpl. rewrite IH; [done|]. set_solver.
Qed.

Lemma drop1_Forall P x g : Forall P g -> Forall P (drop1 x g).
Proof.
  induction 1 as [|y g Hy Hg IH]; simpl; [done|]. case_decide; [done|by constructor].
Qed.

Lemma lock_one_ok l g c ex :
  models l g -> crid_wf c -> Z.of_nat (length g) + 1 < 2 ^ 32 ->
  (exists l', lock_one c ex l = Ok (true, l') /\ models l' ((c, ex) :: g) /\ compatible c ex g) \/
  (lock_one c ex l = Ok (false, l) /\
   exists x, x ∈ g /\ (fst x <> c \/ (ex = 1 /\ snd x <> 1))).
Proof.
  intros (Hc & _ & Hm) Hcl Hlen. unfold lock_one.
  assert (wrap 32 (counter l + 1) = Z.of_nat (length ((c, ex) :: g))) as Hw.
  { rewrite Hc, wrap_id by (unfold u; lia). cbn [length]. lia. }
  destruct Hm as [(Em & ->)|[(Em & Hne & Hwf & Hg)|(Em & Hne & Hg)]]; rewrite Em; simpl.
  - left. destruct (Z.eqb_spec ex 1) as [->|Hex]; eexists; (split; [done|]);
      (split; [split_and!; simpl; try done|by apply Forall_nil]).
    + right; left. split_and!; try done. by repeat constructor.
    + right; right. split_and!; try done. by repeat constructor.
  - destruct (crid_eqb (exclusive_owner l) c) eqn:E.
    + apply crid_eqb_eq in E as <-; [|done..]. left. exists (incr l). split; [by case_match|].
      split; [|eapply Forall_impl; [exact Hg|done]].
      split_and!; simpl; [done|lia|]. right; left. split_and!; try done. by constructor.
    + right. split; [by case_match|]. destruct g as [|x g]; [done|]. exists x. split; [set_solver|]. left.
      apply Forall_cons in Hg as [Hx _]. rewrite Hx. intros <-.
      by rewrite (proj2 (crid_eqb_eq _ _ Hwf Hwf)) in E.
  - destruct (Z.eqb_spec ex 1) as [->|Hex].
    + right. split; [done|]. destruct g as [|x g]; [done|]. exists x. split; [set_solver|].
      apply Forall_cons in Hg as [Hx _]. by right.
    + left. exists (incr l). split; [done|]. split.
      * split_and!; simpl; [done|lia|]. right; right. split_and!; try done. by constructor.
      * eapply Forall_impl; [exact Hg|]. intros x Hx [|]; done.
Qed.

Lemma unlock_one_ok l g c ex :
  models l g -> (c, ex) ∈ g ->
  exists l', unlock_one c ex l = Ok l' /\ models l' (drop1 (c, ex) g).
Proof.
  intros (Hc & Hlen & Hm) Hin. pose proof (drop1_length _ _ Hin) as Hl.
  exists (decrement_and_unlock_if_zero l). split.
  { unfold unlock_one. case_match; [done|].
    destruct Hm as [(_ & ->)|[(-> & _)|(-> & _)]]; [by apply elem_of_nil in Hin|done..]. }
  unfold decrement_and_unlock_if_zero.
  assert (wrap 32 (counter l - 1) = Z.of_nat (length (drop1 (c, ex) g))) as Hw.
  { rewrite Hc, wrap_id by (unfold u; lia). lia. }
  split_and!; simpl; [done|lia|]. rewrite Hw.
  destruct (drop1 (c, ex) g) as [|y g'] eqn:E; [by left|]. simpl.
  pose proof (fun P H => drop1_Forall P (c, ex) g H) as HF. rewrite E in HF.
  destruct Hm as [(_ & ->)|[(Em & _ & Hwf & Hg)|(Em & _ & Hg)]]; [by apply elem_of_nil in Hin|..];
    right; [left|right]; split_and!; try done; by apply HF.
Qed.

(** ** The server *)

Lemma lock_index_lt s G h : srv s G -> 0 <= h -> (lock_index s h < length (lock_arr s))%nat.
Proof.
  intros ((k & Hk & Hn) & Hm & Hl & _) Hh. unfold lock_index. rewrite Hm, Hl, Hn.
  replace (2 ^ k - 1) with (Z.ones k) by (rewrite Z.ones_equiv; lia).
  rewrite Z.land_ones by done. pose proof (Z.mod_pos_bound h (2 ^ k) ltac:(by apply pow2_pos)).
  apply Z2Nat.inj_lt; lia.
Qed.

(** The lock a key selects. *)
Lemma srv_lookup s G h :
  srv s G -> 0 <= h ->
  exists l, lock_arr s !! lock_index s h = Some l /\
    G !! lock_index s h = Some (grants_at G (lock_index s h)) /\ models l (grants_at G (lock_index s h)).
Proof.
  intros Hs Hh. destruct (lookup_lt_is_Some_2 (lock_arr s) (lock_index s h)) as [l El];
    [by eapply lock_index_lt|].
  destruct Hs as (_ & _ & _ & HF). destruct (Forall2_lookup_l _ _ _ _ _ HF El) as (g & Eg & Hg).
  exists l. unfold grants_at. by rewrite Eg.
Qed.

Lemma srv_set s G i l g :
  srv s G -> models l g -> srv (set_lock s i l) (<[i := g]> G).
Proof.
  intros (Hk & Hm & Hl & HF) Hg. unfold srv, set_lock. simpl. split_and!; try done.
  - by rewrite length_insert.
  - by apply Forall2_insert.
Qed.

Lemma insert_grants G i : G !! i = Some (grants_at G i) -> <[i := grants_at G i]> G = G.
Proof. apply list_insert_id. Qed.

Lemma lock_ok s G c ex h :
  srv s G -> crid_wf c -> 0 <= h ->
  Z.of_nat (length (grants_at G (lock_index s h))) + 1 < 2 ^ 32 ->
  exists b s', lock c ex h s = Ok (b, s') /\ num_locks_mask s' = num_locks_mask s /\
    if (b : bool) then srv s' (add_grant (lock_index s h) (c, ex) G) /\
                       compatible c ex (grants_at G (lock_index s h))
    else srv s' G /\ s' = s /\
         exists x, x ∈ grants_at G (lock_index s h) /\ (fst x <> c \/ (ex = 1 /\ snd x <> 1)).
Proof.
  intros Hs Hc Hh Hlen. destruct (srv_lookup s G h Hs Hh) as (l & El & Eg & Hm).
  unfold lock. rewrite El. simpl.
  destruct (lock_one_ok l _ c ex Hm Hc Hlen) as [(l' & -> & Hm' & Hcp)|(-> & Hx)]; simpl; eexists _, _;
    (split; [done|split; [done|]]).
  - split; [by apply srv_set|done].
  - assert (set_lock s (lock_index s h) l = s) as ->.
    { unfold set_lock. rewrite list_insert_id by done. by destruct s. }
    done.
Qed.

Lemma unlock_ok s G c ex h :
  srv s G -> 0 <= h -> (c, ex) ∈ grants_at G (lock_index s h) ->
  exists s', unlock c ex h s = Ok s' /\ num_locks_mask s' = num_locks_mask s /\
    srv s' (del_grant (lock_index s h) (c, ex) G).
Proof.
  intros Hs Hh Hin. destruct (srv_lookup s G h Hs Hh) as (l & El & Eg & Hm).
  unfold unlock. rewrite El. simpl. destruct (unlock_one_ok l _ c ex Hm Hin) as (l' & -> & Hm'). simpl.
  eexists. split; [done|split; [done|]]. by apply srv_set.
Qed.

(** ** Construction *)

Lemma power_of_2_pow n : hrd_is_power_of_2 (wrap 64 n) = true -> 0 <= n < 2 ^ 31 ->
  exists k, 0 <= k /\ n = 2 ^ k.
Proof.
  intros H Hn. rewrite wrap_id in H by (unfold u; lia). unfold hrd_is_power_of_2 in H.
  apply andb_true_iff in H as [H1 H2]. apply negb_true_iff, Z.eqb_neq in H1. apply Z.eqb_eq in H2.
  rewrite wrap_id in H2 by (unfold u; lia). exists (Z.log2 n). split; [apply Z.log2_nonneg|].
  by apply land_pred_pow2; [lia|].
Qed.

Definition fresh (n w : Z) : t :=
  mk n w (n - 1) (replicate (Z.to_nat n) (mk_lock locksrv_lockmode_unlocked 0 (mk_crid 0 0))).

Lemma make_fresh malloc n w s :
  make malloc n w = Ok s -> hrd_is_power_of_2 (wrap 64 n) = true /\ s = fresh n w.
Proof.
  intros H. unfold make in H. apply assert_then in H as [Hp H].
  apply bind_ok in H as (sz & _ & H). apply assert_then in H as [_ H]. by injection H as <-.
Qed.

Lemma fresh_srv n w :
  0 <= n < 2 ^ 31 -> hrd_is_power_of_2 (wrap 64 n) = true -> srv (fresh n w) (replicate (Z.to_nat n) []).
Proof.
  intros Hn Hp. destruct (power_of_2_pow n Hp Hn) as (k & Hk & En).
  split_and!; simpl; [by exists k|done|by rewrite length_replicate|].
  apply Forall2_same_length_lookup_2; [by rewrite !length_replicate|].
  intros i x y Hx Hy. apply lookup_replicate in Hx as [-> _]. apply lookup_replicate in Hy as [-> _].
  split_and!; [done|done|by left].
Qed.

(** Construction succeeds for every power of two when memory is available. *)
Lemma make_some malloc n w :
  0 <= n < 2 ^ 31 -> hrd_is_power_of_2 (wrap 64 n) = true -> (forall sz, malloc sz <> 0) ->
  exists s, make malloc n w = Ok s.
Proof.
  intros Hn Hp Hm. unfold make. rewrite Hp. rewrite (wrap_id 64 n) by (unfold u; lia).
  rewrite wrap_id by (unfold u, sizeof_locksrv_lock_t; lia).
  rewrite pad_ok by (unfold sizeof_locksrv_lock_t, M_2; lia).
  change (assert_ true) with (Ok tt). rewrite !bind_Ok, (proj2 (Z.eqb_neq _ _)) by apply Hm. by eexists.
Qed.

(** ** Interleavings of critical sections

    A configuration is the server and, as ghost state, the grants that were given
    and not yet returned.  Any coroutine may ask for any lock; it returns only
    grants it has. *)

Inductive step : t * list (list grant) -> t * list (list grant) -> Prop :=
| step_lock c ex h s G s' :
    crid_wf c -> 0 <= h -> Z.of_nat (length (grants_at G (lock_index s h))) + 1 < 2 ^ 32 ->
    lock c ex h s = Ok (true, s') -> step (s, G) (s', add_grant (lock_index s h) (c, ex) G)
| step_denied c ex h s G s' :
    crid_wf c -> 0 <= h -> Z.of_nat (length (grants_at G (lock_index s h))) + 1 < 2 ^ 32 ->
    lock c ex h s = Ok (false, s') -> step (s, G) (s', G)
| step_unlock c ex h s G s' :
    0 <= h -> (c, ex) ∈ grants_at G (lock_index s h) ->
    unlock c ex h s = Ok s' -> step (s, G) (s', del_grant (lock_index s h) (c, ex) G).

Definition reachable (n : Z) (x : t * list (list grant)) : Prop :=
  exists malloc w s0, make malloc n w = Ok s0 /\ rtc step (s0, replicate (Z.to_nat n) []) x.

Lemma step_srv x y : step x y -> srv (fst x) (snd x) -> srv (fst y) (snd y).
Proof.
  destruct 1 as [c ex h s G s' Hc Hh Hl E|c ex h s G s' Hc Hh Hl E|c ex h s G s' Hh Hin E]; simpl; intros Hs.
  - destruct (lock_ok s G c ex h Hs Hc Hh Hl) as (b & s1 & E1 & _ & H).
    rewrite E in E1. injection E1 as <- <-. apply H.
  - destruct (lock_ok s G c ex h Hs Hc Hh Hl) as (b & s1 & E1 & _ & H).
    rewrite E in E1. injection E1 as <- <-. apply H.
  - destruct (unlock_ok s G c ex h Hs Hh Hin) as (s1 & E1 & _ & H).
    rewrite E in E1. by injection E1 as <-.
Qed.

Lemma steps_srv x y : rtc step x y -> srv (fst x) (snd x) -> srv (fst y) (snd y).
Proof. induction 1; eauto using step_srv. Qed.

Lemma models_excl l g c : models l g -> (c, 1) ∈ g -> forall x, x ∈ g -> fst x = c.
Proof.
  intros (_ & _ & [(_ & ->)|[(_ & _ & _ & Hg)|(_ & _ & Hg)]]) Hc x Hx.
  - by apply elem_of_nil in Hx.
  - rewrite Forall_forall in Hg. rewrite (Hg x Hx). symmetry. apply (Hg _ Hc).
  - rewrite Forall_forall in Hg. by destruct (Hg _ Hc).
Qed.

(** ** The handler's loops *)

Fixpoint add_grants (s : t) (c : hots_glbl_crid_t) (ks : list lkey) (G : list (list grant)) :
    list (list grant) :=
  match ks with
  | [] => G
  | k :: ks => add_grants s c ks (add_grant (lock_index s (hashfrag k)) (c, exclusive k) G)
  end.

(** [G] is [G0] and the grants of the keys [done_] (last first). *)
Inductive added (s : t) (c : hots_glbl_crid_t) (G0 : list (list grant)) :
    list lkey -> list (list grant) -> Prop :=
| added_nil : added s c G0 [] G0
| added_cons k ks G :
    added s c G0 ks G -> (lock_index s (hashfrag k) < length G)%nat ->
    added s c G0 (k :: ks) (add_grant (lock_index s (hashfrag k)) (c, exclusive k) G).

Definition same_index (s s' : t) : Prop := num_locks_mask s' = num_locks_mask s.

Lemma same_lock_index s s' h : same_index s s' -> lock_index s' h = lock_index s h.
Proof. unfold same_index, lock_index. by intros ->. Qed.

Lemma grants_at_insert G i g : (i < length G)%nat -> grants_at (<[i := g]> G) i = g.
Proof. intros H. unfold grants_at. by rewrite list_lookup_insert_eq. Qed.

Lemma del_add i x G : (i < length G)%nat -> del_grant i x (add_grant i x G) = G.
Proof.
  intros H. unfold del_grant, add_grant. rewrite grants_at_insert by done. simpl.
  rewrite decide_True by done. rewrite list_insert_insert_eq. apply insert_grants.
  unfold grants_at. destruct (lookup_lt_is_Some_2 _ _ H) as [g Hg]. by rewrite Hg.
Qed.

(** Unlocking, last first, what was added gives back the grants before. *)
Lemma unlock_added s0 c G0 ks G s :
  added s0 c G0 ks G -> same_index s0 s -> srv s G -> Forall (fun k => 0 <= hashfrag k) ks ->
  exists s', unlock_keys c ks s = Ok s' /\ same_index s0 s' /\ srv s' G0.
Proof.
  intros H. revert s. induction H as [|k ks G Ha IH Hlt]; intros s Hi Hs Hf; simpl; [by eauto|].
  apply Forall_cons in Hf as [Hk Hf]. pose proof (same_lock_index s0 s (hashfrag k) Hi) as Ei.
  destruct (unlock_ok s _ c (exclusive k) (hashfrag k) Hs Hk) as (s' & -> & Hm & Hs').
  { rewrite Ei. unfold add_grant. rewrite grants_at_insert by done. set_solver. }
  simpl. rewrite Ei, del_add in Hs' by done. apply IH; try done. unfold same_index in *. congruence.
Qed.

(** Locks with room for [n] more grants each. *)
Definition room (G : list (list grant)) (n : nat) : Prop :=
  Forall (fun g : list grant => Z.of_nat (length g + n) < 2 ^ 32) G.

Lemma room_at G n i : room G (S n) -> Z.of_nat (length (grants_at G i)) + 1 < 2 ^ 32.
Proof.
  intros H. unfold grants_at. destruct (G !! i) as [g|] eqn:E; simpl; [|done].
  pose proof (Forall_lookup_1 _ _ _ _ H E) as Hg. simpl in Hg. lia.
Qed.

Lemma room_add G n i x : room G (S n) -> room (add_grant i x G) n.
Proof.
  intros H. unfold add_grant, grants_at, room. destruct (G !! i) as [g|] eqn:E; simpl.
  - apply Forall_insert; [eapply Forall_impl; [exact H|simpl; intros; lia]|].
    pose proof (Forall_lookup_1 _ _ _ _ H E) as Hg. simpl in *. lia.
  - rewrite list_insert_ge by (by apply lookup_ge_None). eapply Forall_impl; [exact H|]. simpl. intros; lia.
Qed.

(** The loop of a lock request: all the keys or none. *)
Lemma lock_keys_ok s0 c G0 done_ ks G s :
  added s0 c G0 done_ G -> same_index s0 s -> srv s G -> crid_wf c ->
  Forall (fun k => 0 <= hashfrag k) done_ -> Forall (fun k => 0 <= hashfrag k) ks ->
  room G (length ks) ->
  exists s', (lock_keys c done_ ks s = Ok (success, s') /\ same_index s0 s' /\ srv s' (add_grants s0 c ks G)) \/
             (lock_keys c done_ ks s = Ok (fail, s') /\ same_index s0 s' /\ srv s' G0).
Proof.
  revert done_ G s. induction ks as [|k ks IH]; intros done_ G s Ha Hi Hs Hc Hd Hk Hr; simpl.
  { exists s. by left. }
  apply Forall_cons in Hk as [Hk Hks]. pose proof (same_lock_index s0 s (hashfrag k) Hi) as Ei.
  destruct (lock_ok s G c (exclusive k) (hashfrag k) Hs Hc Hk) as (b & s1 & -> & Hm & H).
  { eapply room_at. exact Hr. }
  assert (same_index s0 s1) as Hi1 by (unfold same_index in *; congruence). simpl.
  destruct b.
  - destruct H as [Hs1 _]. rewrite Ei in Hs1. eapply IH; try done; [|by constructor|by apply room_add].
    constructor; [done|]. rewrite <- Ei. pose proof (lock_index_lt s G _ Hs Hk) as Hlt.
    destruct Hs as (_ & _ & _ & HF). by rewrite <- (Forall2_length _ _ _ HF).
  - destruct H as [Hs1 _]. destruct (unlock_added s0 c G0 done_ G s1) as (s' & -> & Hi' & Hs'); try done.
    exists s'. by right.
Qed.

(** ** When a lock request succeeds *)

(** The mode of the lock admits the request of a coroutine whose own exclusive
    locks are the only ones it holds. *)
Definition admits (c : hots_glbl_crid_t) (ex : Z) (l : locksrv_lock_t) : bool :=
  (lock_mode l =? locksrv_lockmode_unlocked) ||
  ((lock_mode l =? locksrv_lockmode_exclusive) && crid_eqb (exclusive_owner l) c) ||
  (negb (ex =? 1) && (lock_mode l =? locksrv_lockmode_shared)).

Definition available (c : hots_glbl_crid_t) (s : t) (k : lkey) : Prop :=
  exists l, lock_arr s !! lock_index s (hashfrag k) = Some l /\ admits c (exclusive k) l = true.

(** The write set comes first in a request. *)
Fixpoint writes_first (ks : list lkey) : Prop :=
  match ks with
  | [] => True
  | k :: ks => (exclusive k <> 1 -> Forall (fun k' => exclusive k' <> 1) ks) /\ writes_first ks
  end.

Definition mode_wf (l : locksrv_lock_t) : Prop :=
  lock_mode l = 1 \/ lock_mode l = 2 \/ lock_mode l = 3.

Lemma lock_one_admits c ex l :
  mode_wf l -> crid_wf c -> exists l', lock_one c ex l = Ok (admits c ex l, l') /\ mode_wf l' /\
    (admits c ex l = true -> forall ex', (ex <> 1 -> ex' <> 1) -> admits c ex' l' = true /\ admits c ex' l = true) .
Proof.
  intros Hm Hc. assert (crid_eqb c c = true) as Hcc by (by apply crid_eqb_eq).
  unfold lock_one, admits, locksrv_lockmode_unlocked, locksrv_lockmode_exclusive, locksrv_lockmode_shared.
  destruct Hm as [Em|[Em|Em]]; rewrite Em; simpl; destruct (Z.eqb_spec ex 1) as [->|Hex]; simpl;
    try (destruct (crid_eqb (exclusive_owner l) c) eqn:E); simpl;
    (eexists; split; [done|split; [unfold mode_wf; simpl; tauto|]]); intros Ht ex' Himp; try done;
    simpl; rewrite ?Em, ?E, ?Hcc; simpl; rewrite ?(proj2 (Z.eqb_neq ex' 1)) by (by apply Himp); done.
Qed.

Lemma lock_keys_iff c done_ ks s :
  crid_wf c -> writes_first ks -> Forall mode_wf (lock_arr s) ->
  Forall (fun k => (lock_index s (hashfrag k) < length (lock_arr s))%nat) ks ->
  (exists s', lock_keys c done_ ks s = Ok (success, s')) <-> Forall (available c s) ks.
Proof.
  intros Hc. revert done_ s. induction ks as [|k ks IH]; intros done_ s Hw Hm Hl; simpl.
  { split; [by constructor|by eauto]. }
  destruct Hw as [Hw1 Hw2]. apply Forall_cons in Hl as [Hk Hl].
  destruct (lookup_lt_is_Some_2 _ _ Hk) as [l El].
  destruct (lock_one_admits c (exclusive k) l) as (l' & Ho & Hm' & Hadm); [by eapply Forall_lookup_1|done|].
  unfold lock. rewrite El. simpl. rewrite Ho. simpl. set (s1 := set_lock s _ l').
  destruct (admits c (exclusive k) l) eqn:Ea.
  2:{ split.
      - intros [s' E]. apply bind_ok in E as (? & _ & ?). done.
      - intros [(l0 & E0 & Ha0) _]%Forall_cons. simplify_eq. congruence. }
  rewrite IH; [|done| |].
  2:{ unfold s1, set_lock. simpl. by apply Forall_insert. }
  2:{ eapply Forall_impl; [exact Hl|]. intros k'. unfold s1, set_lock, lock_index. simpl. by rewrite length_insert. }
  assert (forall k', k' ∈ ks -> available c s1 k' <-> available c s k') as Hav.
  { intros k' Hk'. unfold available, s1, set_lock, lock_index. simpl. fold (lock_index s (hashfrag k)).
    fold (lock_index s (hashfrag k')).
    destruct (decide (lock_index s (hashfrag k') = lock_index s (hashfrag k))) as [Ei|Ei].
    - rewrite Ei, list_lookup_insert_eq, El by done. destruct (Hadm eq_refl (exclusive k')) as [H1 H2].
      { intros Hex. specialize (Hw1 Hex). rewrite Forall_forall in Hw1. by apply Hw1. }
      split; intros (? & [= <-] & _); eauto.
    - by rewrite list_lookup_insert_ne. }
  rewrite Forall_cons. rewrite !Forall_forall. split.
  - intros H. split; [by exists l|]. intros k' Hk'. by apply Hav, H.
  - intros [_ H] k' Hk'. by apply Hav, H.
Qed.

(** ** The server's promises *)


(** What is parsed is within the widths of the fields. *)
Lemma word_crid_wf w : crid_wf (word_crid w).
Proof. unfold word_crid, crid_wf. simpl. split; by apply wrap_u. Qed.

Lemma word_key_wf w : 0 <= hashfrag (word_key w).
Proof. unfold word_key. simpl. by apply wrap_u. Qed.

Lemma read_keys_wf buf i n ks : read_keys buf i n = Ok ks -> Forall (fun k => 0 <= hashfrag k) ks.
Proof.
  revert i ks. induction n as [|n IH]; intros i ks H; simpl in H; [by injection H as <-|].
  apply bind_ok in H as (k & Hk & H). apply bind_ok in H as (ks' & Hks & H). injection H as <-.
  constructor; [|by eapply IH]. unfold read_key in Hk. apply bind_ok in Hk as (w & _ & [= <-]).
  apply word_key_wf.
Qed.

Lemma parse_req_wf buf c ty ks :
  parse_req buf = Ok (c, ty, ks) -> crid_wf c /\ Forall (fun k => 0 <= hashfrag k) ks.
Proof.
  unfold parse_req. intros H. apply bind_ok in H as (r & _ & H). apply bind_ok in H as (t0 & _ & H).
  apply bind_ok in H as (n & _ & H). apply bind_ok in H as (ks' & Hks & [= <- _ <-]).
  split; [apply word_crid_wf|by eapply read_keys_wf].
Qed.

Lemma added_add_grants s c G0 d G ks :
  added s c G0 d G -> Forall (fun k => (lock_index s (hashfrag k) < length G)%nat) ks ->
  added s c G0 (rev ks ++ d) (add_grants s c ks G).
Proof.
  revert d G. induction ks as [|k ks IH]; intros d G Ha Hl; simpl; [done|].
  apply Forall_cons in Hl as [Hk Hl]. rewrite <- app_assoc. simpl. apply IH; [by constructor|].
  eapply Forall_impl; [exact Hl|]. intros k'. unfold add_grant. by rewrite length_insert.
Qed.

(** A lock request is all or nothing: the handler either answers [success] and
    the requester has exactly one more grant per key of the request, or answers
    [fail] and every lock stands for the same grants as before the request. *)
Theorem lock_request_atomic s G buf c ks :
  srv s G -> parse_req buf = Ok (c, reqtype_code req_lock, ks) -> room G (length ks) ->
  exists s', (lockserver_rpc_handler buf s = Ok (success, s') /\ srv s' (add_grants s c ks G)) \/
             (lockserver_rpc_handler buf s = Ok (fail, s') /\ srv s' G).
Proof.
  intros Hs Hp Hr. destruct (parse_req_wf _ _ _ _ Hp) as [Hc Hk].
  destruct (lock_keys_ok s c G [] ks G s) as (s' & H); try done; [constructor|].
  exists s'. unfold lockserver_rpc_handler. rewrite Hp. simpl.
  destruct H as [(? & _ & ?)|(? & _ & ?)]; [by left|by right].
Qed.

(** A lock request that lists its exclusive keys first succeeds if and only if,
    for every key, the lock is free, or held exclusively by the requester, or
    shared and only asked for in shared mode. *)
Theorem lock_request_iff s G buf c ks :
  srv s G -> parse_req buf = Ok (c, reqtype_code req_lock, ks) -> writes_first ks ->
  (exists s', lockserver_rpc_handler buf s = Ok (success, s')) <-> Forall (available c s) ks.
Proof.
  intros Hs Hp Hw. destruct (parse_req_wf _ _ _ _ Hp) as [Hc Hk].
  unfold lockserver_rpc_handler. rewrite Hp. simpl. apply lock_keys_iff; try done.
  - destruct Hs as (_ & _ & _ & HF). apply Forall_lookup. intros i l El.
    destruct (Forall2_lookup_l _ _ _ _ _ HF El) as (g & _ & _ & _ & Hm). unfold mode_wf.
    destruct Hm as [[-> _]|[[-> _]|[-> _]]]; tauto.
  - eapply Forall_impl; [exact Hk|]. intros k. by apply (lock_index_lt s G).
Qed.

(** An unlock request with the keys of a lock request that succeeded returns
    exactly its grants, also when several keys share a lock. *)
Theorem unlock_request_inverse s G lbuf ubuf c ks s1 :
  srv s G -> room G (length ks) ->
  parse_req lbuf = Ok (c, reqtype_code req_lock, ks) ->
  parse_req ubuf = Ok (c, reqtype_code req_unlock, ks) ->
  lockserver_rpc_handler lbuf s = Ok (success, s1) ->
  exists s2, lockserver_rpc_handler ubuf s1 = Ok (success, s2) /\ srv s2 G.
Proof.
  intros Hs Hr Hp Hu Hh. destruct (parse_req_wf _ _ _ _ Hp) as [Hc Hk].
  unfold lockserver_rpc_handler in *. rewrite Hp in Hh. rewrite Hu. simpl in *.
  destruct (lock_keys_ok s c G [] ks G s) as (s' & [(E & Hi & Hs1)|(E & _)]); try done; [constructor| |congruence].
  rewrite E in Hh. injection Hh as ->.
  destruct (unlock_added s c G (rev ks) (add_grants s c ks G) s1) as (s2 & -> & _ & Hs2); try done.
  - rewrite <- (app_nil_r (rev ks)). apply added_add_grants; [constructor|].
    eapply Forall_impl; [exact Hk|]. intros k Hk0. pose proof (lock_index_lt s G _ Hs Hk0).
    destruct Hs as (_ & _ & _ & HF). by rewrite <- (Forall2_length _ _ _ HF).
  - by apply Forall_rev.
  - simpl. by exists s2.
Qed.

(** ** Examples *)

(** A lock request of coroutine 1 of worker 2: keys 5 and 9 exclusive, key 6
    shared; of the four locks, 5 and 9 select the same one. *)
Definition demo_keys : list lkey := [mk_key 1 5; mk_key 1 9; mk_key 0 6].
Definition demo_buf (ty : Z) : list byte :=
  le_bytes 4 (int_rep (mk_crid 1 2)) ++ le_bytes 2 ty ++ le_bytes 2 3 ++
  flat_map (fun k => le_bytes 4 (key_word k)) demo_keys.
Definition demo_ghost : list (list grant) := replicate 4 [].

Lemma demo_srv : srv (fresh 4 1) demo_ghost.
Proof. apply (fresh_srv 4 1); [lia|reflexivity]. Qed.


Lemma lock_request_atomic_witness :
  exists s', lockserver_rpc_handler (demo_buf 3) (fresh 4 1) = Ok (success, s') /\
    srv s' (add_grants (fresh 4 1) (mk_crid 1 2) demo_keys demo_ghost).
Proof.
  destruct (lock_request_atomic (fresh 4 1) demo_ghost (demo_buf 3) (mk_crid 1 2) demo_keys)
    as (s' & [H|[H _]]).
  - exact demo_srv.
  - vm_compute. reflexivity.
  - repeat constructor.
  - exists s'. exact H.
  - exfalso. vm_compute in H. discriminate.
Defined.

Lemma lock_request_iff_witness :
  (exists s', lockserver_rpc_handler (demo_buf 3) (fresh 4 1) = Ok (success, s')) <->
  Forall (available (mk_crid 1 2) (fresh 4 1)) demo_keys.
Proof.
  apply (lock_request_iff (fresh 4 1) demo_ghost (demo_buf 3) (mk_crid 1 2) demo_keys).
  - exact demo_srv.
  - vm_compute. reflexivity.
  - simpl. split; [intros []; reflexivity|]. split; [intros []; reflexivity|]. split; [|exact I].
    intros _. constructor.
Defined.

Lemma unlock_request_inverse_witness :
  exists s1 s2, lockserver_rpc_handler (demo_buf 3) (fresh 4 1) = Ok (success, s1) /\
    lockserver_rpc_handler (demo_buf 4) s1 = Ok (success, s2) /\ srv s2 demo_ghost.
Proof.
  destruct (lockserver_rpc_handler (demo_buf 3) (fresh 4 1)) as [[r s1]|] eqn:E;
    [|vm_compute in E; discriminate].
  assert (r = success) as Hr by (vm_compute in E; congruence). rewrite Hr in E.
  destruct (unlock_request_inverse (fresh 4 1) demo_ghost (demo_buf 3) (demo_buf 4) (mk_crid 1 2) demo_keys s1)
    as (s2 & H).
  - exact demo_srv.
  - repeat constructor.
  - vm_compute. reflexivity.
  - vm_compute. reflexivity.
  - exact E.
  - exists s1, s2. rewrite Hr. split; [reflexivity|exact H].
Defined.

End Lockserver.
