(* ===== verification/RpcDefs.v ===== *)
(** * The RPC subsystem: messages and request batches ([src/rpc/rpc_types.h],
    [rpc_defs.h], and the request side of [rpc.h])

    Immediate data, headers of the requests of a coalesced message, message
    buffers with their bytes, the request batch of a slave coroutine and the
    operations that build it. *)

From S2P Require Import Prelude Util Hots.
From Stdlib Require Import ZArith Lia Bool.
From stdpp Require Import base numbers list.
#[local] Open Scope Z_scope.

Module RpcDefs.

(** ** Constants *)

Definition RPC_MIN_REQ_TYPE : Z := 0.
Definition RPC_MAX_REQ_TYPE : Z := 255.
Definition RPC_IS_VALID_TYPE (x : Z) : bool := (RPC_MIN_REQ_TYPE <=? x) && (x <=? RPC_MAX_REQ_TYPE).
Definition RPC_LOCKSERVER_REQ : Z := 1.
Definition RPC_LOGGER_REQ : Z := 2.
Definition RPC_PRIMARY_DS_REQ_SPACING : Z := 10.
Definition RPC_MICA_REQ_BASE : Z := 20.
(** The request types of the primary stores of the applications. *)
Definition RPC_SUBSCRIBER_REQ : Z := 20.
Definition RPC_SEC_SUBSCRIBER_REQ : Z := 30.
Definition RPC_SPECIAL_FACILITY_REQ : Z := 40.
Definition RPC_ACCESS_INFO_REQ : Z := 50.
Definition RPC_CALL_FORWARDING_REQ : Z := 60.
Definition RPC_SAVING_REQ : Z := 70.
Definition RPC_CHECKING_REQ : Z := 80.
Definition RPC_STRESS_TABLE_REQ : Z := 90.
Definition primary_req_types : list Z :=
  [RPC_SUBSCRIBER_REQ; RPC_SEC_SUBSCRIBER_REQ; RPC_SPECIAL_FACILITY_REQ; RPC_ACCESS_INFO_REQ;
   RPC_CALL_FORWARDING_REQ; RPC_SAVING_REQ; RPC_CHECKING_REQ; RPC_STRESS_TABLE_REQ].

Definition RPC_CMSG_REQ_HDR_MAGIC : Z := 11.
Definition RPC_LOSS_DETECTION_STEP : Z := 10000.
Definition RPC_UNSIG_BATCH : Z := 128.
Definition RPC_MAX_POSTLIST : Z := 64.
Definition RPC_MAX_MAX_PKT_SIZE : Z := 4032.
Definition RPC_MAX_QPS : Z := 3.
Definition RPC_RECV_BUF_SIZE : Z := 33554432.
Definition RPC_MBUF_SPACE : Z := 33554432.
Definition RPC_NON_INLINE_SPACE : Z := 33554432.
Definition RPC_MAX_CORO : Z := 32.
Definition RPC_MASTER_CORO_ID : Z := 0.
Definition RPC_MAX_MSG_CORO : Z := 16.
Definition RPC_MIN_RECV_SLACK : Z := 32.
Definition RPC_INVALID_MN : Z := -1.
Definition HRD_SQ_DEPTH : Z := 256.
Definition HRD_RQ_DEPTH : Z := 2048.
Definition HRD_MAX_INLINE : Z := 60.

(** ** Immediate data *)

(** [imm_rest] are the bits of the word that no field names. *)
Record rpc_imm := mk_imm {
  is_req : Z; num_reqs : Z; config_id : Z; mchn_id : Z; imm_coro_id : Z; imm_rest : Z
}.

Definition imm_widths : list Z := [1; 5; 4; HOTS_MCHN_ID_BITS; HOTS_CORO_ID_BITS; 10].

Definition imm_word (i : rpc_imm) : Z :=
  pack (zip imm_widths [is_req i; num_reqs i; config_id i; mchn_id i; imm_coro_id i; imm_rest i]).

Definition word_imm (w : Z) : rpc_imm :=
  match unpack imm_widths w with
  | [a; b; c; d; e; f] => mk_imm a b c d e f
  | _ => mk_imm 0 0 0 0 0 0
  end.

Definition imm_wf (i : rpc_imm) : Prop :=
  u 1 (is_req i) /\ u 5 (num_reqs i) /\ u 4 (config_id i) /\ u 7 (mchn_id i) /\
  u 5 (imm_coro_id i) /\ u 10 (imm_rest i).

(** ** Headers in a coalesced message *)

Record rpc_cmsg_reqhdr_t := mk_rhdr { h_type : Z; coro_seqnum : Z; magic : Z; size : Z }.
Definition sizeof_reqhdr : nat := 4.

Definition rhdr_widths : list Z := [8; 8; 4; 12].
Definition rhdr_word (h : rpc_cmsg_reqhdr_t) : Z :=
  pack (zip rhdr_widths [h_type h; coro_seqnum h; magic h; size h]).
Definition word_rhdr (w : Z) : rpc_cmsg_reqhdr_t :=
  match unpack rhdr_widths w with
  | [a; b; c; d] => mk_rhdr a b c d
  | _ => mk_rhdr 0 0 0 0
  end.
Definition rhdr_wf (h : rpc_cmsg_reqhdr_t) : Prop :=
  u 8 (h_type h) /\ u 8 (coro_seqnum h) /\ u 4 (magic h) /\ u 12 (size h).

Definition read_hdr (off : nat) (mem : list byte) : res rpc_cmsg_reqhdr_t :=
  w ← read_at off sizeof_reqhdr mem; Ok (word_rhdr (le_val w)).

(** Assigning some of the fields of the header at [off]. *)
Definition modify_hdr (f : rpc_cmsg_reqhdr_t -> rpc_cmsg_reqhdr_t) (off : nat) (mem : list byte) :
    res (list byte) :=
  h ← read_hdr off mem; write_at off (le_bytes sizeof_reqhdr (rhdr_word (f h))) mem.

(** ** Message buffers with their bytes

    Each message buffer of an endpoint has a region of registered memory of its
    own; [mem] are the bytes of the region and the buffer's cursor is an offset
    into it. *)

Record cbuf := mk_cbuf { mb : Mbuf.hots_mbuf_t; mem : list byte }.

Definition cur_off (c : cbuf) : nat := Z.to_nat (Mbuf.cur_buf (mb c) - Mbuf.alloc_buf (mb c)).
Definition set_mem (m : list byte) (c : cbuf) : cbuf := mk_cbuf (mb c) m.
Definition bump (n : Z) (c : cbuf) : cbuf := mk_cbuf (Mbuf.advance (mb c) n) (mem c).
Definition reset_cbuf (c : cbuf) : cbuf := mk_cbuf (Mbuf.reset (mb c)) (mem c).

Record rpc_cmsg_t := mk_cmsg {
  remote_mn : Z; resp_imm : Z; num_centry : Z; req_mbuf : cbuf; resp_mbuf : cbuf
}.

(** ** Requests *)

(** [req_buf] and [cmsg_reqhdr] are offsets into the request buffer of the
    coalesced message [cmsg_i]; [resp_buf] are the bytes of the buffer the user
    supplied. *)
Record rpc_req_t := mk_rreq {
  req_buf : nat; req_len : Z; cmsg_i : nat; cmsg_reqhdr : nat;
  resp_buf : list byte; max_resp_len : Z; resp_len : Z; resp_type : Z
}.

Record rpc_req_batch_t := mk_batch {
  req_arr : list rpc_req_t;
  b_num_reqs : Z; num_reqs_done : Z;
  num_uniq_mn : Z; cmsg_for_mc : list Z; cmsg_arr : list rpc_cmsg_t
}.

(** Assignments to members. *)
Definition set_req (i : nat) (r : rpc_req_t) (b : rpc_req_batch_t) : rpc_req_batch_t :=
  mk_batch (<[i := r]> (req_arr b)) (b_num_reqs b) (num_reqs_done b) (num_uniq_mn b)
    (cmsg_for_mc b) (cmsg_arr b).
Definition set_cmsg (i : nat) (c : rpc_cmsg_t) (b : rpc_req_batch_t) : rpc_req_batch_t :=
  mk_batch (req_arr b) (b_num_reqs b) (num_reqs_done b) (num_uniq_mn b) (cmsg_for_mc b)
    (<[i := c]> (cmsg_arr b)).
Definition set_mc (mn : nat) (x : Z) (b : rpc_req_batch_t) : rpc_req_batch_t :=
  mk_batch (req_arr b) (b_num_reqs b) (num_reqs_done b) (num_uniq_mn b)
    (<[mn := x]> (cmsg_for_mc b)) (cmsg_arr b).
Definition set_counts (n d q : Z) (b : rpc_req_batch_t) : rpc_req_batch_t :=
  mk_batch (req_arr b) n d q (cmsg_for_mc b) (cmsg_arr b).
Definition set_req_mbuf (m : cbuf) (c : rpc_cmsg_t) : rpc_cmsg_t :=
  mk_cmsg (remote_mn c) (resp_imm c) (num_centry c) m (resp_mbuf c).

(** An array access; indices outside the array are out of bounds. *)
Definition at_ {A} (l : list A) (i : Z) : res A :=
  if i <? 0 then Err OutOfBounds else of_option OutOfBounds (l !! Z.to_nat i).

(** [rpc_req_batch_t::clear] *)
Fixpoint clear_cmsgs (n i : nat) (b : rpc_req_batch_t) : res rpc_req_batch_t :=
  match n with
  | O => Ok b
  | S n =>
      c ← at_ (cmsg_arr b) (Z.of_nat i);
      _ ← at_ (cmsg_for_mc b) (remote_mn c);
      let b := set_mc (Z.to_nat (remote_mn c)) (-1) b in
      let c := mk_cmsg RPC_INVALID_MN (resp_imm c) 0 (reset_cbuf (req_mbuf c)) (reset_cbuf (resp_mbuf c)) in
      clear_cmsgs n (S i) (set_cmsg i c b)
  end.

Definition clear (b : rpc_req_batch_t) : res rpc_req_batch_t :=
  let n := num_uniq_mn b in
  b ← clear_cmsgs (Z.to_nat n) 0 (set_counts 0 0 n b);
  Ok (set_counts (b_num_reqs b) (num_reqs_done b) 0 b).

(** The coalesced message for a machine: the one started for it, or a fresh
    one. *)
Definition choose_cmsg (resp_mn : Z) (b : rpc_req_batch_t) : res (Z * rpc_req_batch_t) :=
  ci ← at_ (cmsg_for_mc b) resp_mn;
  if 0 <=? ci then Ok (ci, b)
  else
    let ci := num_uniq_mn b in
    let b := set_mc (Z.to_nat resp_mn) ci b in
    let b := set_counts (b_num_reqs b) (num_reqs_done b) (num_uniq_mn b + 1) b in
    c ← at_ (cmsg_arr b) ci;
    Ok (ci, set_cmsg (Z.to_nat ci)
              (mk_cmsg resp_mn (resp_imm c) (num_centry c) (req_mbuf c) (resp_mbuf c)) b).

(** [Rpc::start_new_req], on the batch of the calling coroutine; the request is
    element [b_num_reqs b] of [req_arr]. *)
Definition start_new_req (req_type resp_mn : Z) (ubuf : list byte) (max_len : Z)
    (b : rpc_req_batch_t) : res rpc_req_batch_t :=
  let n := b_num_reqs b in
  r ← at_ (req_arr b) n;
  let b := set_counts (n + 1) (num_reqs_done b) (num_uniq_mn b) b in
  '(ci, b) ← choose_cmsg resp_mn b;
  c ← at_ (cmsg_arr b) ci;
  let off := cur_off (req_mbuf c) in
  m ← modify_hdr (fun h => mk_rhdr req_type (b_num_reqs b - 1) RPC_CMSG_REQ_HDR_MAGIC (size h))
        off (mem (req_mbuf c));
  let mbuf := bump (Z.of_nat sizeof_reqhdr) (set_mem m (req_mbuf c)) in
  let c := mk_cmsg (remote_mn c) (resp_imm c) (num_centry c + 1) mbuf (resp_mbuf c) in
  let r := mk_rreq (cur_off mbuf) (req_len r) (Z.to_nat ci) off ubuf max_len (resp_len r) (resp_type r) in
  Ok (set_req (Z.to_nat n) r (set_cmsg (Z.to_nat ci) c b)).

(** The user writes the bytes [bs] of request [k]. *)
Definition user_write (k : nat) (bs : list byte) (b : rpc_req_batch_t) : res rpc_req_batch_t :=
  r ← of_option OutOfBounds (req_arr b !! k);
  c ← of_option OutOfBounds (cmsg_arr b !! cmsg_i r);
  m ← write_at (req_buf r) bs (mem (req_mbuf c));
  Ok (set_cmsg (cmsg_i r) (set_req_mbuf (set_mem m (req_mbuf c)) c) b).

(** [rpc_req_t::freeze] *)
Definition freeze (k : nat) (len : Z) (b : rpc_req_batch_t) : res rpc_req_batch_t :=
  r ← of_option OutOfBounds (req_arr b !! k);
  c ← of_option OutOfBounds (cmsg_arr b !! cmsg_i r);
  m ← modify_hdr (fun h => mk_rhdr (h_type h) (coro_seqnum h) (magic h) len)
        (cmsg_reqhdr r) (mem (req_mbuf c));
  let c := set_req_mbuf (bump len (set_mem m (req_mbuf c))) c in
  let r := mk_rreq (req_buf r) len (cmsg_i r) (cmsg_reqhdr r) (resp_buf r) (max_resp_len r)
             (resp_len r) (resp_type r) in
  Ok (set_req k r (set_cmsg (cmsg_i r) c b)).

(** A request of a user: start, write, freeze. *)
Definition issue (req_type resp_mn : Z) (ubuf : list byte) (max_len : Z) (payload : list byte)
    (b : rpc_req_batch_t) : res rpc_req_batch_t :=
  let k := Z.to_nat (b_num_reqs b) in
  b ← start_new_req req_type resp_mn ubuf max_len b;
  b ← user_write k payload b;
  freeze k (Z.of_nat (length payload)) b.

(** ** Encodings *)

Lemma at_nat {A} (l : list A) i : at_ l (Z.of_nat i) = of_option OutOfBounds (l !! i).
Proof. unfold at_. by rewrite (proj2 (Z.ltb_ge (Z.of_nat i) 0)), Nat2Z.id by lia. Qed.

Lemma at_nonneg {A} (l : list A) z : 0 <= z -> at_ l z = of_option OutOfBounds (l !! Z.to_nat z).
Proof. intros H. unfold at_. by rewrite (proj2 (Z.ltb_ge z 0)) by lia. Qed.

Lemma imm_word_u i : u 32 (imm_word i).
Proof.
  apply (pack_u (zip imm_widths [is_req i; num_reqs i; config_id i; mchn_id i; imm_coro_id i; imm_rest i])). fields.
Qed.

Lemma word_imm_word i : imm_wf i -> word_imm (imm_word i) = i.
Proof.
  intros (? & ? & ? & ? & ? & ?). unfold word_imm, imm_word.
  change imm_widths with (map fst (zip imm_widths
    [is_req i; num_reqs i; config_id i; mchn_id i; imm_coro_id i; imm_rest i])) at 1.
  rewrite unpack_pack; [by destruct i|]. fields.
Qed.

Lemma word_imm_wf w : imm_wf (word_imm w).
Proof. unfold imm_wf, word_imm; simpl. split_and!; by apply wrap_u. Qed.

Lemma imm_word_imm w : u 32 w -> imm_word (word_imm w) = w.
Proof. intros. apply (pack_unpack imm_widths); [fields|done]. Qed.

Lemma rhdr_word_u h : u 32 (rhdr_word h).
Proof. apply (pack_u (zip rhdr_widths [h_type h; coro_seqnum h; magic h; size h])). fields. Qed.

Lemma word_rhdr_word h : rhdr_wf h -> word_rhdr (rhdr_word h) = h.
Proof.
  intros (? & ? & ? & ?). unfold word_rhdr, rhdr_word.
  change rhdr_widths with (map fst (zip rhdr_widths [h_type h; coro_seqnum h; magic h; size h])) at 1.
  rewrite unpack_pack; [by destruct h|]. fields.
Qed.

Lemma word_rhdr_wf w : rhdr_wf (word_rhdr w).
Proof. unfold rhdr_wf, word_rhdr; simpl. split_and!; by apply wrap_u. Qed.

(** Reading a header that was written. *)
Lemma read_hdr_bytes off h m :
  rhdr_wf h -> read_at off 4 m = Ok (le_bytes 4 (rhdr_word h)) -> read_hdr off m = Ok h.
Proof.
  intros Hw Hr. unfold read_hdr, sizeof_reqhdr. rewrite Hr. cbn [mbind res_bind].
  rewrite le_val_bytes by apply rhdr_word_u. by rewrite word_rhdr_word.
Qed.

Lemma read_hdr_wf off m h : read_hdr off m = Ok h -> rhdr_wf h.
Proof. unfold read_hdr. intros H. apply bind_ok in H as (w & _ & [= <-]). apply word_rhdr_wf. Qed.

Lemma read_hdr_some off m : (off + 4 <= length m)%nat -> exists h, read_hdr off m = Ok h /\ rhdr_wf h.
Proof.
  intros H. unfold read_hdr, sizeof_reqhdr. rewrite read_at_ok by done. cbn [mbind res_bind].
  eexists. split; [done|apply word_rhdr_wf].
Qed.

Lemma modify_hdr_ok f off m :
  (off + 4 <= length m)%nat ->
  exists h m', read_hdr off m = Ok h /\ rhdr_wf h /\
    modify_hdr f off m = Ok m' /\ length m' = length m /\
    write_at off (le_bytes 4 (rhdr_word (f h))) m = Ok m'.
Proof.
  intros H. destruct (read_hdr_some off m H) as (h & Hh & Hw).
  pose proof (length_le_bytes 4 (rhdr_word (f h))).
  destruct (write_at_some off (le_bytes 4 (rhdr_word (f h))) m) as (m' & Hm & Hl); [lia|].
  exists h, m'. split_and!; try done. unfold modify_hdr. rewrite Hh. done.
Qed.

(** The bytes of one request of a message. *)
Definition entry_bytes (seq ty : Z) (payload : list byte) : list byte :=
  le_bytes 4 (rhdr_word (mk_rhdr ty seq RPC_CMSG_REQ_HDR_MAGIC (Z.of_nat (length payload)))) ++ payload.

Lemma entry_length seq ty p : length (entry_bytes seq ty p) = (4 + length p)%nat.
Proof. unfold entry_bytes. by rewrite length_app, length_le_bytes. Qed.

(** What [start_new_req], the user and [freeze] write for one request. *)
Lemma request_bytes ty seq payload off m :
  (off + 4 + length payload <= length m)%nat -> u 8 ty -> u 8 seq -> Z.of_nat (length payload) < 2 ^ 12 ->
  exists m1 m2 m3,
    modify_hdr (fun h => mk_rhdr ty seq RPC_CMSG_REQ_HDR_MAGIC (size h)) off m = Ok m1 /\
    write_at (off + 4) payload m1 = Ok m2 /\
    modify_hdr (fun h => mk_rhdr (h_type h) (coro_seqnum h) (magic h) (Z.of_nat (length payload))) off m2 = Ok m3 /\
    length m1 = length m /\ length m2 = length m /\ length m3 = length m /\
    take (off + (4 + length payload)) m3 = take off m ++ entry_bytes seq ty payload.
Proof.
  intros Hl Ht Hs Hp.
  destruct (modify_hdr_ok (fun h => mk_rhdr ty seq RPC_CMSG_REQ_HDR_MAGIC (size h)) off m)
    as (h & m1 & _ & Hw & E1 & L1 & W1); [lia|]. simpl in W1.
  destruct (write_at_some (off + 4) payload m1) as (m2 & W2 & L2); [lia|].
  destruct (modify_hdr_ok (fun h => mk_rhdr (h_type h) (coro_seqnum h) (magic h) (Z.of_nat (length payload))) off m2)
    as (h2 & m3 & Hh2 & _ & E3 & L3 & W3); [lia|].
  assert (h2 = mk_rhdr ty seq RPC_CMSG_REQ_HDR_MAGIC (size h)) as ->.
  { assert (read_hdr off m2 = Ok (mk_rhdr ty seq RPC_CMSG_REQ_HDR_MAGIC (size h))) as E; [|congruence].
    apply read_hdr_bytes; [destruct Hw as (_ & _ & _ & Hz); split_and!; done|].
    rewrite (read_write_at_ne _ _ _ _ off 4 W2) by lia. by apply read_write_at in W1. }
  simpl in W3. exists m1, m2, m3. split_and!; try done; [lia|lia|].
  pose proof (length_le_bytes 4 (rhdr_word (mk_rhdr ty seq RPC_CMSG_REQ_HDR_MAGIC (Z.of_nat (length payload))))) as Lh.
  rewrite Nat.add_assoc, <- take_take_drop.
  rewrite (write_at_take _ _ _ _ (off + 4) W3), (write_at_drop _ _ _ _ (off + 4) W3) by lia.
  rewrite (write_at_before _ _ _ _ off W2), (write_at_before _ _ _ _ off W1) by lia.
  apply read_write_at in W2. rewrite read_at_ok in W2 by lia. injection W2 as ->.
  unfold entry_bytes. by rewrite <- app_assoc.
Qed.

End RpcDefs.
