(* ===== verification/RpcBatch.v ===== *)
(** * The RPC subsystem: coalescing of requests

    The requests of a batch, as their issuer sees them, and the coalesced messages
    they end up in: one message per destination machine, with the machine's
    requests in the order of issue. *)

From S2P Require Import Prelude Util Hots RpcDefs.
From Stdlib Require Import ZArith Lia Bool.
From stdpp Require Import base numbers list.
#[local] Open Scope Z_scope.
Import RpcDefs.

Module RpcBatch.

(** ** Requests and messages *)

(** A request: destination machine, type and payload. *)
Record ureq := mk_ureq { u_mn : Z; u_type : Z; u_payload : list byte }.

(** An entry of a coalesced message: sequence number, type and payload. *)
Notation entry := (Z * Z * list byte)%type.

Definition msg_bytes (es : list entry) : list byte :=
  concat (map (fun '(seq, ty, p) => entry_bytes seq ty p) es).

(** The entries of the message for machine [mn], counting requests from [i]. *)
Fixpoint entries_for (mn i : Z) (rs : list ureq) : list entry :=
  match rs with
  | [] => []
  | r :: rs =>
      if u_mn r =? mn then (i, u_type r, u_payload r) :: entries_for mn (i + 1) rs
      else entries_for mn (i + 1) rs
  end.

(** The machines of a batch, in the order of their first request. *)
Fixpoint machines (rs : list ureq) (mns : list Z) : list Z :=
  match rs with
  | [] => mns
  | r :: rs => machines rs (if decide (u_mn r ∈ mns) then mns else mns ++ [u_mn r])
  end.

Lemma entries_for_app mn i rs r :
  entries_for mn i (rs ++ [r]) =
  entries_for mn i rs ++
    (if u_mn r =? mn then [(i + Z.of_nat (length rs), u_type r, u_payload r)] else []).
Proof.
  revert i. induction rs as [|x rs IH]; intros i; simpl.
  - rewrite Z.add_0_r. by destruct (u_mn r =? mn).
  - rewrite IH. replace (i + 1 + Z.of_nat (length rs)) with (i + Z.of_nat (S (length rs))) by lia.
    by destruct (u_mn x =? mn).
Qed.

Lemma machines_app rs r mns :
  machines (rs ++ [r]) mns =
  let ms := machines rs mns in if decide (u_mn r ∈ ms) then ms else ms ++ [u_mn r].
Proof. revert mns. induction rs as [|x rs IH]; intros mns; simpl; [done|]. by rewrite IH. Qed.

Lemma msg_bytes_app es es' : msg_bytes (es ++ es') = msg_bytes es ++ msg_bytes es'.
Proof. unfold msg_bytes. by rewrite map_app, concat_app. Qed.

Lemma msg_bytes_cons seq ty p es : msg_bytes ((seq, ty, p) :: es) = entry_bytes seq ty p ++ msg_bytes es.
Proof. done. Qed.

Lemma msg_bytes_cons_length seq ty p es :
  length (msg_bytes ((seq, ty, p) :: es)) = (4 + length p + length (msg_bytes es))%nat.
Proof. by rewrite msg_bytes_cons, length_app, entry_length. Qed.

(** ** What a batch holds *)

(** The buffer holds [bs] and has room for [cap] bytes. *)
Definition holds (cap : nat) (c : cbuf) (bs : list byte) : Prop :=
  length (mem c) = cap /\ (length bs <= cap)%nat /\
  Mbuf.cur_buf (mb c) = Mbuf.alloc_buf (mb c) + Z.of_nat (length bs) /\ take (length bs) (mem c) = bs.

Lemma holds_off cap c bs : holds cap c bs -> cur_off c = length bs.
Proof. intros (_ & _ & H & _). unfold cur_off. rewrite H. lia. Qed.

(** The message at index [i] is the one for machine [mn]. *)
Definition message (cap : nat) (b : rpc_req_batch_t) (i : nat) (mn : Z) (es : list entry) : Prop :=
  exists c, cmsg_arr b !! i = Some c /\ remote_mn c = mn /\
    num_centry c = Z.of_nat (length es) /\ holds cap (req_mbuf c) (msg_bytes es).

(** The messages of a batch: one per machine of [ms], with the entries [E]. *)
Record held (cap : nat) (b : rpc_req_batch_t) (ms : list Z) (E : Z -> list entry) : Prop := {
  hd_arrays : length (req_arr b) = 16%nat /\ length (cmsg_arr b) = 16%nat /\ length (cmsg_for_mc b) = 126%nat;
  hd_uniq : num_uniq_mn b = Z.of_nat (length ms);
  hd_mc : forall mn, (mn < 126)%nat -> cmsg_for_mc b !! mn =
            Some (match list_find (eq (Z.of_nat mn)) ms with Some (i, _) => Z.of_nat i | None => -1 end);
  hd_used : forall i mn, ms !! i = Some mn -> message cap b i mn (E mn);
  hd_free : forall i, (length ms <= i < 16)%nat -> message cap b i RPC_INVALID_MN []
}.

Definition batch_holds (cap : nat) (b : rpc_req_batch_t) (rs : list ureq) : Prop :=
  b_num_reqs b = Z.of_nat (length rs) /\ num_reqs_done b = 0 /\
  held cap b (machines rs []) (fun mn => entries_for mn 0 rs).

(** ** Facts about the machines of a batch *)

Lemma machines_spec rs mns :
  NoDup mns ->
  NoDup (machines rs mns) /\ (length (machines rs mns) <= length mns + length rs)%nat /\
  forall mn, mn ∈ machines rs mns <-> mn ∈ mns \/ exists r, r ∈ rs /\ u_mn r = mn.
Proof.
  revert mns. induction rs as [|r rs IH]; intros mns Hnd; simpl.
  { split_and!; [done|lia|]. intros mn. split; [by left|]. by intros [|(? & ?%elem_of_nil & _)]. }
  destruct (IH (if decide (u_mn r ∈ mns) then mns else mns ++ [u_mn r])) as (H1 & H2 & H3).
  { case_decide as Hd; [done|]. apply NoDup_app. split_and!; [done| |apply NoDup_singleton].
    intros x Hx ->%list_elem_of_singleton. done. }
  split_and!; [done| |].
  - case_decide; rewrite ?length_app in H2; simpl in H2; lia.
  - intros mn. rewrite H3. setoid_rewrite elem_of_cons. case_decide as Hd.
    + split; [intros [|(x & ? & ?)]; eauto|]. intros [|(x & [->|] & <-)]; eauto.
    + rewrite elem_of_app, list_elem_of_singleton. split.
      * intros [[H| ->]|(x & ? & ?)]; eauto.
      * intros [|(x & [->|] & <-)]; eauto.
Qed.

Lemma entries_for_nil mn i rs : (forall r, r ∈ rs -> u_mn r <> mn) -> entries_for mn i rs = [].
Proof.
  revert i. induction rs as [|r rs IH]; intros i H; simpl; [done|].
  rewrite (proj2 (Z.eqb_neq _ _)) by (apply H; by left). apply IH. intros x Hx. apply H. by right.
Qed.

(** ** Choosing the message of a machine *)

Definition add_machine (mn : Z) (ms : list Z) : list Z := if decide (mn ∈ ms) then ms else ms ++ [mn].

Lemma list_find_app_last (mn : nat) x ms :
  x ∉ ms ->
  list_find (eq (Z.of_nat mn)) (ms ++ [x]) =
    if decide (x = Z.of_nat mn) then Some (length ms, x) else list_find (eq (Z.of_nat mn)) ms.
Proof.
  intros Hx. induction ms as [|y ms IH]; simpl.
  { repeat case_decide; subst; done. }
  apply not_elem_of_cons in Hx as [Hy Hx]. rewrite (IH Hx).
  repeat case_decide; subst; done.
Qed.

Lemma choose_cmsg_ok cap b ms E mn :
  held cap b ms E -> 0 <= mn < 126 -> (mn ∉ ms -> E mn = [] /\ (length ms < 16)%nat) ->
  exists i b', choose_cmsg mn b = Ok (Z.of_nat i, b') /\ held cap b' (add_machine mn ms) E /\
    add_machine mn ms !! i = Some mn /\ req_arr b' = req_arr b /\
    b_num_reqs b' = b_num_reqs b /\ num_reqs_done b' = num_reqs_done b.
Proof.
  intros Hh Hmn Hnew. destruct (hd_arrays _ _ _ _ Hh) as (La & Lc & Lm). unfold choose_cmsg, at_.
  rewrite (proj2 (Z.ltb_ge mn 0)) by lia. rewrite (hd_mc _ _ _ _ Hh) by lia. rewrite Z2Nat.id by lia. simpl.
  unfold add_machine. case_decide as Hin.
  - destruct (list_find_elem_of (eq mn) ms mn Hin eq_refl) as [[i x] Ef]. rewrite Ef.
    apply list_find_Some in Ef as (Hi & <- & _).
    rewrite (proj2 (Z.leb_le 0 (Z.of_nat i))) by lia. exists i, b. split_and!; done.
  - destruct (Hnew Hin) as [HE Hlt].
    assert (list_find (eq mn) ms = None) as Ef.
    { apply list_find_None, Forall_forall. by intros x Hx <-. }
    rewrite Ef. simpl. rewrite (hd_uniq _ _ _ _ Hh), (proj2 (Z.ltb_ge (Z.of_nat (length ms)) 0)) by lia.
    rewrite Nat2Z.id. destruct (hd_free _ _ _ _ Hh (length ms)) as (c & Ec & Hr & Hn & Hc); [lia|].
    rewrite Ec. simpl. eexists (length ms), _. split; [done|]. split_and!; try done.
    2:{ apply list_lookup_middle. done. }
    constructor; simpl.
    + by rewrite !length_insert.
    + rewrite length_app. simpl. lia.
    + intros m Hm. rewrite list_find_app_last by done. case_decide as Hd.
      * subst mn. rewrite Nat2Z.id. apply list_lookup_insert_eq. lia.
      * rewrite list_lookup_insert_ne by lia. by apply (hd_mc _ _ _ _ Hh).
    + intros j m Hj. unfold message. simpl. destruct (decide (j = length ms)) as [->|Hne].
      * rewrite lookup_app_r, Nat.sub_diag in Hj by lia. injection Hj as <-.
        rewrite list_lookup_insert_eq by lia. eexists. split; [done|]. simpl. by rewrite HE.
      * rewrite list_lookup_insert_ne by done. apply (hd_used _ _ _ _ Hh).
        apply lookup_app_Some in Hj as [?|[? Hj]]; [done|]. apply list_lookup_singleton_Some in Hj. lia.
    + intros j Hj. rewrite length_app in Hj. simpl in Hj. unfold message. simpl.
      rewrite list_lookup_insert_ne by lia. apply (hd_free _ _ _ _ Hh). lia.
Qed.

(** ** Issuing a request *)

Lemma held_ext cap b b' ms E E' :
  held cap b ms E -> length (req_arr b') = length (req_arr b) -> num_uniq_mn b' = num_uniq_mn b ->
  cmsg_for_mc b' = cmsg_for_mc b -> cmsg_arr b' = cmsg_arr b -> (forall mn, E' mn = E mn) ->
  held cap b' ms E'.
Proof.
  intros [Ha Hu Hm Hus Hf] E1 E2 E3 E4 HE. constructor.
  - by rewrite E1, E3, E4.
  - by rewrite E2.
  - by rewrite E3.
  - intros i mn Hi. rewrite HE. unfold message. rewrite E4. by apply Hus.
  - intros i Hi. unfold message. rewrite E4. by apply Hf.
Qed.

(** Appending an entry to the message of one machine. *)
Lemma append_held cap b ms E i mn c e :
  held cap b ms E -> NoDup ms -> ms !! i = Some mn ->
  remote_mn c = mn -> num_centry c = Z.of_nat (length (E mn)) + 1 ->
  holds cap (req_mbuf c) (msg_bytes (E mn ++ [e])) ->
  held cap (set_cmsg i c b) ms (fun m => if m =? mn then E mn ++ [e] else E m).
Proof.
  intros [(La & Lc & Lm) Hu Hm Hus Hf] Hnd Hi Hr Hn Hh. pose proof (Hus i mn Hi) as (c0 & Hc0 & _).
  apply lookup_lt_Some in Hc0. constructor; simpl; try done.
  - by rewrite length_insert.
  - intros j m Hj. unfold message. simpl. destruct (decide (j = i)) as [->|Hne].
    + rewrite Hi in Hj. injection Hj as <-. rewrite list_lookup_insert_eq, Z.eqb_refl by done.
      exists c. split_and!; try done. rewrite length_app. simpl. lia.
    + rewrite list_lookup_insert_ne by done. destruct (Z.eqb_spec m mn) as [->|]; [|by apply Hus].
      destruct Hne. by eapply NoDup_lookup.
  - intros j Hj. unfold message. simpl. rewrite list_lookup_insert_ne; [by apply Hf|].
    apply lookup_lt_Some in Hi. lia.
Qed.

(** The cursor after a request. *)
Lemma holds_append cap c c' bs seq ty p :
  holds cap c bs -> length (mem c') = cap -> (length bs + (4 + length p) <= cap)%nat ->
  mb c' = Mbuf.advance (Mbuf.advance (mb c) 4) (Z.of_nat (length p)) ->
  take (length bs + (4 + length p)) (mem c') = take (length bs) (mem c) ++ entry_bytes seq ty p ->
  holds cap c' (bs ++ entry_bytes seq ty p).
Proof.
  intros (Hl & Hle & Hc & Ht) Hm Hr Hb He. rewrite Ht in He. unfold holds. rewrite Hb. simpl.
  rewrite length_app, entry_length. split_and!; try done. rewrite Hc. lia.
Qed.

Section Issue.
Context (cap : nat) (b : rpc_req_batch_t) (rs : list ureq).
Context (ty mn : Z) (ubuf payload : list byte) (max_len : Z).
Context (Hb : batch_holds cap b rs) (Hn : (length rs < 16)%nat) (Hmn : 0 <= mn < 126) (Hty : u 8 ty).
Context (Hlen : Z.of_nat (length payload) < 2 ^ 12).
Context (Hfit : (length (msg_bytes (entries_for mn 0 rs)) + (4 + length payload) <= cap)%nat).

Let k := length rs.
Let r := mk_ureq mn ty payload.

Lemma issue_ok :
  exists b' q, issue ty mn ubuf max_len payload b = Ok b' /\ batch_holds cap b' (rs ++ [r]) /\
    req_arr b' = <[k := q]> (req_arr b) /\ resp_buf q = ubuf /\ max_resp_len q = max_len.
Proof.
  destruct Hb as (Hk & Hd & Hh). destruct (hd_arrays _ _ _ _ Hh) as (La & Lc & Lm).
  destruct (machines_spec rs [] ltac:(constructor)) as (Hnd & Hml & Hms).
  destruct (lookup_lt_is_Some_2 (req_arr b) k ltac:(unfold k; lia)) as [r0 Hr0].
  unfold issue, start_new_req, at_. rewrite Hk, (proj2 (Z.ltb_ge (Z.of_nat (length rs)) 0)), Nat2Z.id by lia. fold k.
  rewrite Hr0. simpl.
  destruct (choose_cmsg_ok cap (set_counts (Z.of_nat k + 1) (num_reqs_done b) (num_uniq_mn b) b)
      (machines rs []) (fun mn => entries_for mn 0 rs) mn) as (i & b1 & -> & Hh1 & Hi & Er & En & Ed).
  { by eapply held_ext. }
  { done. }
  { intros Hnot. split; [|simpl in Hml; lia]. apply entries_for_nil. intros x Hx Hx2. apply Hnot, Hms. eauto. }
  simpl in Er, En, Ed. rewrite bind_Ok. rewrite (proj2 (Z.ltb_ge (Z.of_nat i) 0)), Nat2Z.id by lia.
  destruct (hd_used _ _ _ _ Hh1 i mn Hi) as (c & Hc & Hcm & Hcn & Hch). rewrite Hc. simpl.
  rewrite En, (holds_off _ _ _ Hch). replace (Z.of_nat k + 1 - 1) with (Z.of_nat k) by lia.
  pose proof Hch as (Hml1 & _).
  destruct (request_bytes ty (Z.of_nat k) payload (length (msg_bytes (entries_for mn 0 rs))) (mem (req_mbuf c)))
    as (m1 & m2 & m3 & E1 & E2 & E3 & L1 & L2 & L3 & Ht); [lia|done|split; lia|done|].
  rewrite E1. simpl. unfold user_write. simpl. rewrite Er.
  pose proof (lookup_lt_Some _ _ _ Hr0) as Hklt. pose proof (lookup_lt_Some _ _ _ Hc) as Hilt.
  rewrite list_lookup_insert_eq by done. simpl. rewrite list_lookup_insert_eq by done. simpl.
  change (Z.of_nat sizeof_reqhdr) with 4. assert (cur_off (bump 4 (set_mem m1 (req_mbuf c))) = (length (msg_bytes (entries_for mn 0 rs)) + 4)%nat) as ->.
  { pose proof (holds_off _ _ _ Hch) as Ho. destruct Hch as (_ & _ & Hcur & _).
    unfold cur_off, bump, set_mem, Mbuf.advance in *. simpl. lia. }
  rewrite E2. simpl. unfold freeze. simpl. rewrite Er, list_lookup_insert_eq by done. simpl.
  rewrite !list_insert_insert_eq, list_lookup_insert_eq by done. simpl. rewrite E3. simpl.
  eexists _, _. split; [done|]. simpl. rewrite !list_insert_insert_eq, ?Er. split; [|by split_and!].
  split; [|split]; simpl.
  - rewrite En, length_app. simpl. unfold k. lia.
  - by rewrite Ed.
  - rewrite machines_app. simpl. fold (add_machine mn (machines rs [])).
    eapply (held_ext cap (set_cmsg i _ b1)); [|simpl; by rewrite !length_insert, ?Er|done|done|simpl; by rewrite ?list_insert_insert_eq|].
    + apply (append_held cap b1 _ _ i mn _ (Z.of_nat k, ty, payload) Hh1); try done.
      * unfold add_machine. case_decide; [done|]. apply NoDup_app.
        split_and!; [done| |apply NoDup_singleton]. by intros x Hx ->%list_elem_of_singleton.
      * simpl. lia.
      * simpl. rewrite msg_bytes_app. simpl. unfold msg_bytes at 2. simpl. rewrite app_nil_r.
        eapply (holds_append _ (req_mbuf c)); simpl; done || lia.
    + intros m. rewrite entries_for_app. simpl. rewrite (Z.eqb_sym m mn).
      destruct (Z.eqb_spec mn m) as [->|]; [done|]. by rewrite app_nil_r.
Qed.
End Issue.

(** ** Clearing a batch *)

(** After [i] iterations of the loop of [clear]. *)
Record clearing (cap : nat) (ms : list Z) (E : Z -> list entry) (i : nat) (b : rpc_req_batch_t) : Prop := {
  cl_arrays : length (req_arr b) = 16%nat /\ length (cmsg_arr b) = 16%nat /\ length (cmsg_for_mc b) = 126%nat;
  cl_mc : forall mn, (mn < 126)%nat -> cmsg_for_mc b !! mn =
            Some (match list_find (eq (Z.of_nat mn)) ms with
                  | Some (j, _) => if (j <? i)%nat then -1 else Z.of_nat j | None => -1 end);
  cl_left : forall j mn, (i <= j)%nat -> ms !! j = Some mn -> message cap b j mn (E mn);
  cl_done : forall j, (j < i)%nat \/ (length ms <= j < 16)%nat -> (j < 16)%nat -> message cap b j RPC_INVALID_MN []
}.

Lemma clear_cmsgs_ok cap ms E n i b :
  NoDup ms -> Forall (fun mn => 0 <= mn < 126) ms -> (length ms <= 16)%nat ->
  clearing cap ms E i b -> (i + n = length ms)%nat ->
  exists b', clear_cmsgs n i b = Ok b' /\ clearing cap ms E (length ms) b' /\
    b_num_reqs b' = b_num_reqs b /\ num_reqs_done b' = num_reqs_done b /\ req_arr b' = req_arr b.
Proof.
  intros Hnd Hms Hle. revert i b. induction n as [|n IH]; intros i b Hc Hi.
  { exists b. rewrite Nat.add_0_r in Hi. subst i. simpl. done. }
  destruct (lookup_lt_is_Some_2 ms i ltac:(lia)) as [mn Hmn]. destruct (cl_arrays _ _ _ _ _ Hc) as (La & Lc & Lm).
  destruct (cl_left _ _ _ _ _ Hc i mn ltac:(lia) Hmn) as (c & Ec & Hr & Hn & Hh).
  pose proof (Forall_lookup_1 _ _ _ _ Hms Hmn) as Hb. simpl in Hb.
  cbn [clear_cmsgs]. rewrite at_nat, Ec. simpl.
  rewrite Hr, at_nonneg, (cl_mc _ _ _ _ _ Hc) by lia. simpl.
  edestruct (IH (S i)) as (b' & -> & H & E1 & E2 & E3); [| |by exists b'].
  2:{ lia. }
  assert (list_find (eq mn) ms = Some (i, mn)) as Ef.
  { apply list_find_Some. split_and!; try done. intros j y Hj Hlt ->.
    pose proof (NoDup_lookup _ _ _ _ Hnd Hj Hmn). lia. }
  constructor; simpl.
  - by rewrite !length_insert.
  - intros m Hm. destruct (decide (m = Z.to_nat mn)) as [->|Hne].
    + rewrite list_lookup_insert_eq by lia. rewrite Z2Nat.id, Ef by lia. by rewrite (proj2 (Nat.ltb_lt _ _)) by lia.
    + rewrite list_lookup_insert_ne, (cl_mc _ _ _ _ _ Hc) by done. f_equal.
      destruct (list_find (eq (Z.of_nat m)) ms) as [[j y]|] eqn:Ej; [|done].
      apply list_find_Some in Ej as (Hj & <- & _). assert (j <> i) by (intros ->; simplify_eq; lia).
      destruct (Nat.ltb_spec j i), (Nat.ltb_spec j (S i)); done || lia.
  - intros j m Hj Hm. unfold message. simpl. rewrite list_lookup_insert_ne by lia.
    apply (cl_left _ _ _ _ _ Hc); [lia|done].
  - intros j Hj Hj16. unfold message. simpl. destruct (decide (j = i)) as [->|Hne].
    + rewrite list_lookup_insert_eq by lia. eexists. split; [done|]. simpl. split_and!; try done.
      destruct Hh as (Hl & _). unfold holds. simpl. split_and!; [done|lia|lia|done].
    + rewrite list_lookup_insert_ne by done. apply (cl_done _ _ _ _ _ Hc); [lia|done].
Qed.

(** Clearing a batch empties all its messages, whatever it held. *)
Lemma clear_ok cap b ms E :
  held cap b ms E -> NoDup ms -> Forall (fun mn => 0 <= mn < 126) ms -> (length ms <= 16)%nat ->
  exists b', clear b = Ok b' /\ batch_holds cap b' [] /\ req_arr b' = req_arr b.
Proof.
  intros Hh Hnd Hms Hle. unfold clear. rewrite (hd_uniq _ _ _ _ Hh), Nat2Z.id.
  edestruct (clear_cmsgs_ok cap ms E (length ms) 0 (set_counts 0 0 (Z.of_nat (length ms)) b))
    as (b' & -> & Hc & E1 & E2 & E3); try done.
  { destruct Hh as [Ha Hu Hm Hus Hf]. constructor; simpl; try done.
    - intros j mn _ Hj. by apply Hus.
    - intros j [|] ?; [lia|]. by apply Hf. }
  simpl. eexists. split; [done|]. split; [|done]. split_and!; simpl; [by rewrite E1|by rewrite E2|].
  destruct Hc as [Ha Hm _ Hd]. constructor; simpl; try done.
  - intros mn Hmn. rewrite Hm by done. f_equal.
    destruct (list_find _ ms) as [[j y]|] eqn:Ej; [|done]. apply list_find_Some in Ej as (Hj & _).
    apply lookup_lt_Some in Hj. by rewrite (proj2 (Nat.ltb_lt _ _)).
  - intros i Hi. apply Hd; lia.
Qed.

(** ** Reading a coalesced message *)

(** The requests of a message, from offset [off]. *)
Fixpoint parse_entries (n : nat) (m : list byte) (off : nat) : res (list entry) :=
  match n with
  | O => Ok []
  | S n =>
      h ← read_hdr off m;
      p ← read_at (off + 4) (Z.to_nat (size h)) m;
      es ← parse_entries n m (off + 4 + Z.to_nat (size h));
      Ok ((coro_seqnum h, h_type h, p) :: es)
  end.

Definition entry_wf (e : entry) : Prop :=
  let '(seq, ty, p) := e in u 8 seq /\ u 8 ty /\ Z.of_nat (length p) < 2 ^ 12.

(** A header at the start of what follows [pre]. *)
Lemma read_entry pre seq ty p post :
  entry_wf (seq, ty, p) ->
  let m := pre ++ entry_bytes seq ty p ++ post in
  read_hdr (length pre) m = Ok (mk_rhdr ty seq RPC_CMSG_REQ_HDR_MAGIC (Z.of_nat (length p))) /\
  read_at (length pre + 4) (length p) m = Ok p.
Proof.
  intros (Hs & Ht & Hp) m. unfold m, entry_bytes.
  pose proof (length_le_bytes 4 (rhdr_word (mk_rhdr ty seq RPC_CMSG_REQ_HDR_MAGIC (Z.of_nat (length p))))) as L.
  rewrite <- !app_assoc. split.
  - apply read_hdr_bytes; [split_and!; simpl; try done; split; [lia|done]|].
    rewrite read_at_ok by (rewrite !length_app; lia).
    rewrite drop_app_length. f_equal; by apply take_app_length'.
  - rewrite read_at_ok by (rewrite !length_app; lia).
    rewrite app_assoc, drop_app_length' by (rewrite length_app; lia). f_equal; by apply take_app_length'.
Qed.

Lemma parse_msg pre es post :
  Forall entry_wf es -> parse_entries (length es) (pre ++ msg_bytes es ++ post) (length pre) = Ok es.
Proof.
  revert pre. induction es as [|[[seq ty] p] es IH]; intros pre Hw; [done|].
  apply Forall_cons in Hw as [He Hes]. cbn [length parse_entries].
  change (msg_bytes ((seq, ty, p) :: es)) with (entry_bytes seq ty p ++ msg_bytes es). rewrite <- app_assoc.
  destruct (read_entry pre seq ty p (msg_bytes es ++ post) He) as [-> Hr].
  cbn [mbind res_bind size coro_seqnum h_type]. rewrite Nat2Z.id, Hr. cbn [mbind res_bind]. rewrite (app_assoc pre).
  replace (length pre + 4 + length p)%nat with (length (pre ++ entry_bytes seq ty p))
    by (rewrite length_app, entry_length; lia).
  by rewrite IH.
Qed.

End RpcBatch.
