(* ===== verification/Rpc.v ===== *)
(** * The RPC subsystem: endpoints ([src/rpc/rpc.h], [rpc.cc],
    [rpc_datapath.cc])

    The state of an endpoint, its construction, and the datapath: sending
    coalesced requests and responses, and polling for completions.  The verbs of
    the RDMA library are outputs (the list of calls an operation makes) and
    inputs (the completions a poll returns). *)

From S2P Require Import Prelude Util City Hots Mappings FixedTable Datastore RpcDefs RpcBatch.
From Stdlib Require Import ZArith Lia Bool.
From stdpp Require Import base numbers list.
#[local] Open Scope Z_scope.
Import RpcDefs RpcBatch.

Module Rpc.

(** ** Arguments *)

Record rpc_args := mk_args {
  wrkr_gid : Z; wrkr_lid : Z; num_workers : Z; workers_per_machine : Z; num_coro : Z;
  base_port_index : Z; num_ports : Z; num_qps : Z; numa_node : Z; postlist : Z;
  max_pkt_size : Z; num_machines : Z; machine_id : Z
}.

Definition make_args (gid lid nw wpm nc bp np nq numa pl pkt : Z) : res rpc_args :=
  _ ← assert_ (wpm <? nw);
  _ ← (if wpm =? 0 then Err DivByZero else Ok tt);
  _ ← assert_ (Z.rem nw wpm =? 0);
  Ok (mk_args gid lid nw wpm nc bp np nq numa pl pkt (Z.quot nw wpm) (Z.quot gid wpm)).

Definition range_assert (x a b : Z) : res unit := assert_ ((a <=? x) && (x <=? b)).

Definition required_recvs (a : rpc_args) : Z :=
  (num_coro a - 1) * RPC_MAX_MSG_CORO + Z.quot (num_workers a) (workers_per_machine a) * (num_coro a - 1).

Definition check_info (a : rpc_args) : res unit :=
  _ ← range_assert (wrkr_gid a) 0 (num_workers a - 1);
  _ ← range_assert (wrkr_lid a) 0 HOTS_MAX_SERVER_THREADS;
  _ ← range_assert (num_workers a) 2 HOTS_MAX_WORKERS;
  _ ← range_assert (num_coro a) 2 RPC_MAX_CORO;
  _ ← range_assert (base_port_index a) 0 8;
  _ ← range_assert (num_ports a) 1 2;
  _ ← range_assert (num_qps a) 1 RPC_MAX_QPS;
  _ ← range_assert (numa_node a) 0 1;
  _ ← range_assert (postlist a) 1 RPC_MAX_POSTLIST;
  _ ← range_assert (max_pkt_size a) 1 RPC_MAX_MAX_PKT_SIZE;
  assert_ (required_recvs a <=? HRD_RQ_DEPTH).

(** [while(recv_step < max_pkt_size + HOTS_GRH_BYTES) recv_step += 64;] *)
Fixpoint recv_step_loop (fuel : nat) (step bound : Z) : res Z :=
  if step <? bound then
    match fuel with O => Err Diverge | S fuel => recv_step_loop fuel (step + 64) bound end
  else Ok step.

Definition init_recv_step (a : rpc_args) : res Z :=
  step ← recv_step_loop 64 0 (max_pkt_size a + HOTS_GRH_BYTES);
  _ ← assert_ (step <=? RPC_MAX_MAX_PKT_SIZE);
  Ok step.

Definition init_recv_slack (a : rpc_args) : res Z :=
  let slack := HRD_RQ_DEPTH - required_recvs a - 1 in
  let slack := if RPC_MIN_RECV_SLACK <=? slack then RPC_MIN_RECV_SLACK else slack in
  _ ← assert_ (RPC_MIN_RECV_SLACK <=? slack);
  Ok slack.

(** [(_step + 63) & ~63ull] *)
Definition mbuf_step (a : rpc_args) : Z :=
  Z.land (wrap 64 (max_pkt_size a + 63)) (wrap 64 (Z.lnot 63)).

(** ** State of an endpoint *)

Section Endpoint.
(** The state the handlers' arguments point to. *)
Context {S : Type}.

(** A handler: from the memory at [resp_buf], the memory at [req_buf], the request
    length and the state, the new response memory, the response type and length
    and the new state. *)
Definition handler : Type := list byte -> list byte -> Z -> S -> res (list byte * Z * Z * S).

Record rpc_resp_batch_t := mk_rbatch {
  num_cresps : Z; r_cmsg_arr : list rpc_cmsg_t;
  non_inline_bufs : list (list byte); non_inline_index : Z
}.

Record rpc := mk_rpc {
  info : rpc_args;
  rpc_handler : list (option handler);
  rpc_handler_arg : list bool;      (* whether the argument is not NULL *)
  req_batch_arr : list rpc_req_batch_t;
  resp_batch : rpc_resp_batch_t;
  next_coro : list Z;
  ld_iters : Z;
  ld_num_resps_ever : list Z;
  ld_num_resps_ever_prev : list Z;
  active_qp : Z;
  nb_pending : list Z;
  recv_slack : Z;
  recvs_to_post : Z;
  stat_num_reqs : Z;
  stat_num_creqs : Z
}.

(** Assignments to members. *)
Definition with_batch (i : nat) (b : rpc_req_batch_t) (r : rpc) : rpc :=
  mk_rpc (info r) (rpc_handler r) (rpc_handler_arg r) (<[i := b]> (req_batch_arr r)) (resp_batch r)
    (next_coro r) (ld_iters r) (ld_num_resps_ever r) (ld_num_resps_ever_prev r) (active_qp r)
    (nb_pending r) (recv_slack r) (recvs_to_post r) (stat_num_reqs r) (stat_num_creqs r).
Definition with_resp (rb : rpc_resp_batch_t) (r : rpc) : rpc :=
  mk_rpc (info r) (rpc_handler r) (rpc_handler_arg r) (req_batch_arr r) rb
    (next_coro r) (ld_iters r) (ld_num_resps_ever r) (ld_num_resps_ever_prev r) (active_qp r)
    (nb_pending r) (recv_slack r) (recvs_to_post r) (stat_num_reqs r) (stat_num_creqs r).
Definition with_next (nc : list Z) (r : rpc) : rpc :=
  mk_rpc (info r) (rpc_handler r) (rpc_handler_arg r) (req_batch_arr r) (resp_batch r)
    nc (ld_iters r) (ld_num_resps_ever r) (ld_num_resps_ever_prev r) (active_qp r)
    (nb_pending r) (recv_slack r) (recvs_to_post r) (stat_num_reqs r) (stat_num_creqs r).
Definition with_ld (it : Z) (ever prev : list Z) (r : rpc) : rpc :=
  mk_rpc (info r) (rpc_handler r) (rpc_handler_arg r) (req_batch_arr r) (resp_batch r)
    (next_coro r) it ever prev (active_qp r)
    (nb_pending r) (recv_slack r) (recvs_to_post r) (stat_num_reqs r) (stat_num_creqs r).
Definition with_send (q : Z) (p : list Z) (r : rpc) : rpc :=
  mk_rpc (info r) (rpc_handler r) (rpc_handler_arg r) (req_batch_arr r) (resp_batch r)
    (next_coro r) (ld_iters r) (ld_num_resps_ever r) (ld_num_resps_ever_prev r) q
    p (recv_slack r) (recvs_to_post r) (stat_num_reqs r) (stat_num_creqs r).
Definition with_recvs (n : Z) (r : rpc) : rpc :=
  mk_rpc (info r) (rpc_handler r) (rpc_handler_arg r) (req_batch_arr r) (resp_batch r)
    (next_coro r) (ld_iters r) (ld_num_resps_ever r) (ld_num_resps_ever_prev r) (active_qp r)
    (nb_pending r) (recv_slack r) n (stat_num_reqs r) (stat_num_creqs r).
Definition with_stats (a c : Z) (r : rpc) : rpc :=
  mk_rpc (info r) (rpc_handler r) (rpc_handler_arg r) (req_batch_arr r) (resp_batch r)
    (next_coro r) (ld_iters r) (ld_num_resps_ever r) (ld_num_resps_ever_prev r) (active_qp r)
    (nb_pending r) (recv_slack r) (recvs_to_post r) a c.
Definition with_handlers (h : list (option handler)) (a : list bool) (r : rpc) : rpc :=
  mk_rpc (info r) h a (req_batch_arr r) (resp_batch r)
    (next_coro r) (ld_iters r) (ld_num_resps_ever r) (ld_num_resps_ever_prev r) (active_qp r)
    (nb_pending r) (recv_slack r) (recvs_to_post r) (stat_num_reqs r) (stat_num_creqs r).

(** ** Registration of handlers *)

Definition register_rpc_handler (req_type : Z) (func : option handler) (arg : bool) (r : rpc) : res rpc :=
  _ ← assert_ (match func with Some _ => true | None => false end);
  if negb (RPC_IS_VALID_TYPE req_type) then Err ExitFail else
  h ← at_ (rpc_handler r) req_type;
  a ← at_ (rpc_handler_arg r) req_type;
  if (match h with Some _ => true | None => false end) || a then Err ExitFail
  else Ok (with_handlers (<[Z.to_nat req_type := func]> (rpc_handler r))
             (<[Z.to_nat req_type := arg]> (rpc_handler_arg r)) r).

(** ** Slave coroutines: building a batch *)

(** [Rpc::clear_req_batch] and [Rpc::start_new_req] on the batch of a
    coroutine. *)
Definition clear_req_batch (coro : Z) (r : rpc) : res rpc :=
  b ← at_ (req_batch_arr r) coro;
  b ← clear b;
  Ok (with_batch (Z.to_nat coro) b r).

Definition rpc_start_new_req (coro req_type resp_mn : Z) (ubuf : list byte) (max_len : Z) (r : rpc) : res rpc :=
  let r := with_stats (wrap 64 (stat_num_reqs r + 1)) (stat_num_creqs r) r in
  b ← at_ (req_batch_arr r) coro;
  b ← start_new_req req_type resp_mn ubuf max_len b;
  Ok (with_batch (Z.to_nat coro) b r).

(** ** Sending *)

(** A work request: destination, immediate, bytes and send flags. *)
Record send_wr := mk_wr { wr_mn : Z; wr_imm : Z; wr_bytes : list byte; wr_signaled : bool; wr_inline : bool }.

(** Calls of the RDMA library: [ibv_post_send] of a chain on a queue pair, a poll
    of a send queue for one completion, and posting of RECVs. *)
Inductive call : Type :=
| PostSend (qp : Z) (wrs : list send_wr)
| PollSendCq (qp : Z)
| PostRecvs (n : Z).

(** [Rpc::set_flags]: the flags, the calls it makes, and the new counts of pending
    sends. *)
Definition set_flags (qp sz : Z) (pending : list Z) : res (bool * bool * list call * list Z) :=
  p ← at_ pending qp;
  let signaled := p =? 0 in
  let inline := sz <=? HRD_MAX_INLINE in
  if p =? RPC_UNSIG_BATCH - 1 then
    Ok (signaled, inline, [PollSendCq qp], <[Z.to_nat qp := 0]> pending)
  else Ok (signaled, inline, [], <[Z.to_nat qp := p + 1]> pending).

(** The send loops: [ms] are the remaining messages (destination, immediate and
    bytes), [wrs] the chain assembled so far. *)
Fixpoint send_loop (a : rpc_args) (ms : list (Z * Z * list byte)) (wrs : list send_wr)
    (qp : Z) (pending : list Z) : res (list call * Z * list Z) :=
  match ms with
  | [] => Ok ([], qp, pending)
  | (mn, imm, bs) :: ms =>
      _ ← at_ (replicate (Z.to_nat HOTS_MAX_MACHINES) tt) mn;
      '(signaled, inline, c1, pending) ← set_flags qp (Z.of_nat (length bs)) pending;
      let wrs := wrs ++ [mk_wr mn imm bs signaled inline] in
      if (Z.of_nat (length wrs) =? postlist a) || (match ms with [] => true | _ => false end) then
        '(cs, qp', pending) ← send_loop a ms [] (HRD_MOD_ADD qp (num_qps a)) pending;
        Ok (c1 ++ PostSend qp wrs :: cs, qp', pending)
      else
        '(cs, qp', pending) ← send_loop a ms wrs qp pending;
        Ok (c1 ++ cs, qp', pending)
  end.

(** The bytes of a message buffer that a send transmits. *)
Definition sent_bytes (c : cbuf) : res (list byte) := read_at 0 (Z.to_nat (Mbuf.length (mb c))) (mem c).

(** The messages of a request batch; [junk] is what the unused bits of the
    immediate contain. *)
Fixpoint req_msgs (a : rpc_args) (coro junk : Z) (n i : nat) (b : rpc_req_batch_t) :
    res (list (Z * Z * list byte)) :=
  match n with
  | O => Ok []
  | Datatypes.S n =>
      c ← at_ (cmsg_arr b) (Z.of_nat i);
      bs ← sent_bytes (req_mbuf c);
      let imm := mk_imm 1 (num_centry c) 0 (machine_id a) coro junk in
      ms ← req_msgs a coro junk n (Datatypes.S i) b;
      Ok ((remote_mn c, imm_word imm, bs) :: ms)
  end.

(** [Rpc::send_reqs] *)
Definition send_reqs (coro junk : Z) (r : rpc) : res (list call * rpc) :=
  b ← at_ (req_batch_arr r) coro;
  let r := with_stats (stat_num_reqs r) (wrap 64 (stat_num_creqs r + num_uniq_mn b)) r in
  ms ← req_msgs (info r) coro junk (Z.to_nat (num_uniq_mn b)) 0 b;
  '(cs, qp, pending) ← send_loop (info r) ms [] (active_qp r) (nb_pending r);
  Ok (cs, with_send qp pending r).

(** The messages of the response batch; a response that does not fit inline is
    copied to the next buffer of a ring of registered buffers. *)
Fixpoint resp_msgs (n i : nat) (rb : rpc_resp_batch_t) :
    res (list (Z * Z * list byte) * rpc_resp_batch_t) :=
  match n with
  | O => Ok ([], rb)
  | Datatypes.S n =>
      c ← at_ (r_cmsg_arr rb) (Z.of_nat i);
      bs ← sent_bytes (resp_mbuf c);
      '(bs, rb) ←
        (if HRD_MAX_INLINE <? Z.of_nat (length bs) then
           ni_buf ← at_ (non_inline_bufs rb) (non_inline_index rb);
           ni_buf ← write_at 0 bs ni_buf;
           bs ← read_at 0 (length bs) ni_buf;
           Ok (bs, mk_rbatch (num_cresps rb) (r_cmsg_arr rb)
                     (<[Z.to_nat (non_inline_index rb) := ni_buf]> (non_inline_bufs rb))
                     (HRD_MOD_ADD (non_inline_index rb) HRD_RQ_DEPTH))
         else Ok (bs, rb));
      '(ms, rb) ← resp_msgs n (Datatypes.S i) rb;
      Ok ((remote_mn c, resp_imm c, bs) :: ms, rb)
  end.

(** [Rpc::send_resps] *)
Definition send_resps (r : rpc) : res (list call * rpc) :=
  '(ms, rb) ← resp_msgs (Z.to_nat (num_cresps (resp_batch r))) 0 (resp_batch r);
  '(cs, qp, pending) ← send_loop (info r) ms [] (active_qp r) (nb_pending r);
  Ok (cs, with_send qp pending (with_resp rb r)).

(** ** Polling *)

(** A completion: the immediate, the received bytes after the GRH (with what
    follows them in the RECV buffer), and the length the adapter reports. *)
Record ibv_wc := mk_wc { imm_data : Z; wc_buf : list byte; byte_len : Z }.

(** [Rpc::prefetch_mica]: the tables (by request type) and key hashes whose buckets
    are prefetched. *)
Fixpoint prefetch_mica (n : nat) (buf : list byte) (off : nat) : res (list (Z * Z)) :=
  match n with
  | O => Ok []
  | Datatypes.S n =>
      h ← read_hdr off buf;
      p ← (if RPC_MICA_REQ_BASE <=? h_type h then
             w ← read_at (off + 4 + 8) 8 buf;
             match word_fields (le_val w) with
             | [_; _; kh] => Ok [(h_type h, kh)]
             | _ => Err OutOfBounds
             end
           else Ok []);
      ps ← prefetch_mica n buf (off + 4 + Z.to_nat (size h));
      Ok (p ++ ps)
  end.

(** Copies the responses of a message to the buffers of the requests. *)
Fixpoint recv_resps (n : nat) (buf : list byte) (off : nat) (b : rpc_req_batch_t) : res rpc_req_batch_t :=
  match n with
  | O => Ok b
  | Datatypes.S n =>
      h ← read_hdr off buf;
      q ← at_ (req_arr b) (coro_seqnum h);
      bs ← read_at (off + 4) (Z.to_nat (size h)) buf;
      ub ← write_at 0 bs (resp_buf q);
      let q := mk_rreq (req_buf q) (req_len q) (cmsg_i q) (cmsg_reqhdr q) ub (max_resp_len q)
                 (size h) (h_type h) in
      recv_resps n buf (off + 4 + Z.to_nat (size h)) (set_req (Z.to_nat (coro_seqnum h)) q b)
  end.

(** Runs the handlers on the requests of a message; the responses are appended to
    the message buffer [m].  The header of a request is copied to the response as
    eight bytes; the handler then overwrites the bytes after the header. *)
Fixpoint serve_reqs (hs : list (option handler)) (n : nat) (buf : list byte) (off : nat) (m : cbuf) (s : S) :
    res (cbuf * S) :=
  match n with
  | O => Ok (m, s)
  | Datatypes.S n =>
      h ← read_hdr off buf;
      let ho := cur_off m in
      hdr8 ← read_at off 8 buf;
      mm ← write_at ho hdr8 (mem m);
      f ← at_ hs (h_type h);
      f ← of_option OutOfBounds f;
      '(out, ty, len, s) ← f (drop (ho + 4) mm) (drop (off + 4) buf) (size h) s;
      mm ← modify_hdr (fun h => mk_rhdr ty (coro_seqnum h) (magic h) len) ho (take (ho + 4) mm ++ out);
      serve_reqs hs n buf (off + 4 + Z.to_nat (size h)) (bump (4 + len) (set_mem mm m)) s
  end.

(** [Rpc::start_new_resp]; the response buffer is the one of message
    [num_cresps]. *)
Definition start_new_resp (a : rpc_args) (req_mn n req_imm : Z) (rb : rpc_resp_batch_t) :
    res (cbuf * rpc_resp_batch_t) :=
  let i := word_imm req_imm in
  let i := mk_imm 0 (num_reqs i) (config_id i) (machine_id a) (imm_coro_id i) (imm_rest i) in
  c ← at_ (r_cmsg_arr rb) (num_cresps rb);
  let c := mk_cmsg req_mn (imm_word i) n (req_mbuf c) (resp_mbuf c) in
  Ok (resp_mbuf c, mk_rbatch (num_cresps rb + 1) (<[Z.to_nat (num_cresps rb) := c]> (r_cmsg_arr rb))
                     (non_inline_bufs rb) (non_inline_index rb)).

Definition set_resp_mbuf (i : Z) (m : cbuf) (rb : rpc_resp_batch_t) : res rpc_resp_batch_t :=
  c ← at_ (r_cmsg_arr rb) i;
  Ok (mk_rbatch (num_cresps rb)
        (<[Z.to_nat i := mk_cmsg (remote_mn c) (resp_imm c) (num_centry c) (req_mbuf c) m]> (r_cmsg_arr rb))
        (non_inline_bufs rb) (non_inline_index rb)).

(** Processing one completion; [cur] is the last completed coroutine of the
    ring under construction. *)
Definition handle_comp (w : ibv_wc) (cur : Z) (r : rpc) (s : S) : res (Z * rpc * S) :=
  let imm := word_imm (imm_data w) in
  let n := num_reqs imm in
  let coro := imm_coro_id imm in
  if is_req imm =? 0 then
    b ← at_ (req_batch_arr r) coro;
    let b := set_counts (b_num_reqs b) (num_reqs_done b + n) (num_uniq_mn b) b in
    '(cur, r) ←
      (if num_reqs_done b =? b_num_reqs b then
         _ ← at_ (next_coro r) cur;
         Ok (coro, with_next (<[Z.to_nat cur := coro]> (next_coro r)) r)
       else Ok (cur, r));
    b ← recv_resps (Z.to_nat n) (wc_buf w) 0 b;
    let r := with_batch (Z.to_nat coro) b r in
    e ← at_ (ld_num_resps_ever r) coro;
    let r := with_ld (ld_iters r) (<[Z.to_nat coro := wrap 64 (e + n)]> (ld_num_resps_ever r))
               (ld_num_resps_ever_prev r) r in
    Ok (cur, r, s)
  else
    let i := num_cresps (resp_batch r) in
    '(m, rb) ← start_new_resp (info r) (mchn_id imm) n (imm_data w) (resp_batch r);
    '(m, s) ← serve_reqs (rpc_handler r) (Z.to_nat n) (wc_buf w) 0 m s;
    rb ← set_resp_mbuf i m rb;
    Ok (cur, with_resp rb r, s).

Fixpoint handle_comps (ws : list ibv_wc) (cur : Z) (r : rpc) (s : S) : res (Z * rpc * S) :=
  match ws with
  | [] => Ok (cur, r, s)
  | w :: ws => '(cur, r, s) ← handle_comp w cur r s; handle_comps ws cur r s
  end.

(** The pass that prefetches the buckets of all the requests. *)
Fixpoint prefetch_comps (ws : list ibv_wc) : res (list (Z * Z)) :=
  match ws with
  | [] => Ok []
  | w :: ws =>
      let imm := word_imm (imm_data w) in
      p ← (if is_req imm =? 1 then prefetch_mica (Z.to_nat (num_reqs imm)) (wc_buf w) 0 else Ok []);
      ps ← prefetch_comps ws;
      Ok (p ++ ps)
  end.

(** [Rpc::ld_check_packet_loss]: [ms] is the time since the stopwatch was started
    ([RPC_LOSS_DETECTION_MS] is 1000).  The coroutines reported idle. *)
Definition ld_check_packet_loss (ms : Z) (r : rpc) : res (list Z * rpc) :=
  if 1000 <=? ms then
    let idle := filter (fun c => ld_num_resps_ever r !! Z.to_nat c = ld_num_resps_ever_prev r !! Z.to_nat c)
                  (map Z.of_nat (seq 1 (Z.to_nat (num_coro (info r) - 1)))) in
    let prev := imap (fun i p => if ((1 <=? i) && (i <? Z.to_nat (num_coro (info r))))%nat
                                 then default p (ld_num_resps_ever r !! i) else p)
                  (ld_num_resps_ever_prev r) in
    Ok (idle, with_ld (ld_iters r) (ld_num_resps_ever r) prev r)
  else Ok ([], r).

(** [rpc_resp_batch_t::clear] *)
Definition clear_resps (rb : rpc_resp_batch_t) : rpc_resp_batch_t :=
  mk_rbatch 0
    (imap (fun i c => if (Z.of_nat i <? num_cresps rb)
                      then mk_cmsg (remote_mn c) (resp_imm c) (num_centry c) (req_mbuf c) (reset_cbuf (resp_mbuf c))
                      else c) (r_cmsg_arr rb))
    (non_inline_bufs rb) (non_inline_index rb).

(** The loss detection at the start of a poll. *)
Definition ld_step (ms : Z) (r : rpc) : res (list Z * rpc) :=
  let r := with_ld (wrap 64 (ld_iters r + 1)) (ld_num_resps_ever r) (ld_num_resps_ever_prev r) r in
  if ld_iters r =? RPC_LOSS_DETECTION_STEP then
    '(idle, r) ← ld_check_packet_loss ms r;
    Ok (idle, with_ld 0 (ld_num_resps_ever r) (ld_num_resps_ever_prev r) r)
  else Ok ([], r).

(** RECVs are posted again when [recv_slack] of them have been consumed. *)
Definition repost_recvs (n : Z) (r : rpc) : list call * rpc :=
  let n := recvs_to_post r + n in
  if recv_slack r <=? n then ([PostRecvs n], with_recvs 0 r) else ([], with_recvs n r).

(** [Rpc::poll_comps]: [ws] are the completions [ibv_poll_cq] returns. *)
Definition poll_comps (ms : Z) (ws : list ibv_wc) (r : rpc) (s : S) : res (list call * rpc * S) :=
  '(_, r) ← ld_step ms r;
  match ws with
  | [] =>
      Ok ([], with_next (<[Z.to_nat RPC_MASTER_CORO_ID := RPC_MASTER_CORO_ID]> (next_coro r)) r, s)
  | _ =>
      let r := with_resp (clear_resps (resp_batch r)) r in
      _ ← prefetch_comps ws;
      '(cur, r, s) ← handle_comps ws RPC_MASTER_CORO_ID r s;
      let '(c1, r) := repost_recvs (Z.of_nat (length ws)) r in
      '(c2, r) ← (if 0 <? num_cresps (resp_batch r) then send_resps r else Ok ([], r));
      _ ← at_ (next_coro r) cur;
      Ok (c1 ++ c2, with_next (<[Z.to_nat cur := RPC_MASTER_CORO_ID]> (next_coro r)) r, s)
  end.

(** ** Accessors *)

Definition get_stat_num_reqs (r : rpc) : Z * rpc := (stat_num_reqs r, with_stats 0 (stat_num_creqs r) r).
Definition get_stat_num_creqs (r : rpc) : Z * rpc := (stat_num_creqs r, with_stats (stat_num_reqs r) 0 r).

(** ** Construction *)

(** The response batch: one buffer per RECV.  [base] is the address of the
    registered memory for message buffers. *)
Fixpoint init_resp_mbufs (n : nat) (base off step pkt : Z) : res (list rpc_cmsg_t * Z) :=
  match n with
  | O => Ok ([], off)
  | Datatypes.S n =>
      _ ← assert_ (off <? RPC_MBUF_SPACE - step);
      m ← Mbuf.alloc_with_buf (base + off) pkt;
      '(cs, off') ← init_resp_mbufs n base (off + step) step pkt;
      Ok (mk_cmsg RPC_INVALID_MN 0 0 (mk_cbuf (Mbuf.mk 0 0 0) []) (mk_cbuf m (replicate (Z.to_nat step) 0)) :: cs, off')
  end.

(** The messages of one request batch: a request and a response buffer each. *)
Fixpoint init_req_mbufs (n : nat) (base off step pkt : Z) : res (list rpc_cmsg_t * Z) :=
  match n with
  | O => Ok ([], off)
  | Datatypes.S n =>
      _ ← assert_ (off <? RPC_MBUF_SPACE - step);
      m1 ← Mbuf.alloc_with_buf (base + off) pkt;
      _ ← assert_ (off + step <? RPC_MBUF_SPACE - step);
      m2 ← Mbuf.alloc_with_buf (base + (off + step)) pkt;
      '(cs, off') ← init_req_mbufs n base (off + step + step) step pkt;
      Ok (mk_cmsg RPC_INVALID_MN 0 0 (mk_cbuf m1 (replicate (Z.to_nat step) 0))
            (mk_cbuf m2 (replicate (Z.to_nat step) 0)) :: cs, off')
  end.

Definition zero_req : rpc_req_t := mk_rreq 0 0 0 0 [] 0 0 0.

Definition empty_batch (cs : list rpc_cmsg_t) : rpc_req_batch_t :=
  mk_batch (replicate (Z.to_nat RPC_MAX_MSG_CORO) zero_req) 0 0 0
    (replicate (Z.to_nat HOTS_MAX_MACHINES) (-1)) cs.

Fixpoint init_batches (n : nat) (base off step pkt : Z) : res (list rpc_req_batch_t * Z) :=
  match n with
  | O => Ok ([], off)
  | Datatypes.S n =>
      '(cs, off) ← init_req_mbufs (Z.to_nat RPC_MAX_MSG_CORO) base off step pkt;
      '(bs, off) ← init_batches n base off step pkt;
      Ok (empty_batch cs :: bs, off)
  end.

(** The ring of buffers for responses that are not inlined. *)
Fixpoint init_non_inline (n : nat) (off step : Z) : res (list (list byte)) :=
  match n with
  | O => Ok []
  | Datatypes.S n =>
      _ ← assert_ (off <? RPC_NON_INLINE_SPACE - step);
      bs ← init_non_inline n (off + step) step;
      Ok (replicate (Z.to_nat step) 0 :: bs)
  end.

(** [Rpc::init_coroutine_metadata] *)
Definition init_coroutine_metadata (a : rpc_args) (dgram_buf : Z) :
    res (rpc_resp_batch_t * list rpc_req_batch_t) :=
  let step := mbuf_step a in
  _ ← assert_ ((max_pkt_size a <=? step) && (step mod 64 =? 0));
  let base := dgram_buf + RPC_RECV_BUF_SIZE in
  '(rcs, off) ← init_resp_mbufs (Z.to_nat HRD_RQ_DEPTH) base 0 step (max_pkt_size a);
  '(bs, off) ← init_batches (Z.to_nat (num_coro a - 1)) base off step (max_pkt_size a);
  ni ← init_non_inline (Z.to_nat HRD_RQ_DEPTH) 0 step;
  Ok (mk_rbatch 0 rcs ni 0, bs).

(** [Rpc::init_recv_wrs]: the offsets of the RECV buffers in the registered
    memory. *)
Fixpoint init_recv_offsets (n i : nat) (a : rpc_args) (recv_step : Z) : res (list Z) :=
  match n with
  | O => Ok []
  | Datatypes.S n =>
      let offset := Z.of_nat i * recv_step + (64 - HOTS_GRH_BYTES) in
      _ ← assert_ (offset + max_pkt_size a + 64 <? RPC_RECV_BUF_SIZE);
      os ← init_recv_offsets n (Datatypes.S i) a recv_step;
      Ok (offset :: os)
  end.

Definition init_recv_wrs (a : rpc_args) (recv_step : Z) : res (list Z) :=
  _ ← assert_ ((0 <? recv_step) && (recv_step mod 64 =? 0));
  _ ← assert_ (recv_step * num_ports a * HRD_RQ_DEPTH <=? RPC_RECV_BUF_SIZE);
  init_recv_offsets (Z.to_nat HRD_RQ_DEPTH) 0 a recv_step.

(** The constructor; [dgram_buf] is the address of the registered buffer.  The
    counters of requests are not initialized: [stat0] and [stat1] are what they
    contain.  So are the elements of [next_coro] but the master's and the batch of
    the master, which nothing reads. *)
Definition make (a : rpc_args) (dgram_buf stat0 stat1 : Z) : res rpc :=
  _ ← check_info a;
  _ ← (if num_ports a =? 0 then Err DivByZero else Ok tt);
  _ ← assert_ (base_port_index a + Z.rem (wrkr_lid a) (num_ports a) <? 2);
  _ ← assert_ (1 + wrkr_lid a <? 100);
  recv_step ← init_recv_step a;
  slack ← init_recv_slack a;
  '(rb, bs) ← init_coroutine_metadata a dgram_buf;
  _ ← init_recv_wrs a recv_step;
  Ok (mk_rpc a (replicate (Z.to_nat RPC_MAX_REQ_TYPE) None) (replicate (Z.to_nat RPC_MAX_REQ_TYPE) false)
        (empty_batch [] :: bs ++ replicate (Z.to_nat (RPC_MAX_CORO - num_coro a)) (empty_batch []))
        rb (replicate (Z.to_nat RPC_MAX_CORO) 0)
        0 (replicate (Z.to_nat RPC_MAX_CORO) 0) (replicate (Z.to_nat RPC_MAX_CORO) 0)
        0 (replicate (Z.to_nat RPC_MAX_QPS) 0) slack 0 stat0 stat1).

End Endpoint.

End Rpc.
