(* ===== verification/RpcProps.v ===== *)
(** * The RPC subsystem: correctness of the datapath

    Messages of a batch on the wire, the service of a message by an endpoint that
    implements an abstract service, the delivery of responses to the requests they
    answer, and the resources of an endpoint: coroutine ring, RECV and send
    windows, buffers. *)

From S2P Require Import Prelude Util Hots RpcDefs RpcBatch Rpc.
From Stdlib Require Import ZArith Lia Bool.
From stdpp Require Import base numbers list sets.
#[local] Open Scope Z_scope.
Import RpcDefs RpcBatch Rpc.

Module RpcProps.

(** ** Messages on the wire *)

(** What [send_reqs] transmits for machine [mn]. *)
Definition wire_msg (a : rpc_args) (coro junk : Z) (rs : list ureq) (mn : Z) : Z * Z * list byte :=
  let es := entries_for mn 0 rs in
  (mn, imm_word (mk_imm 1 (Z.of_nat (length es)) 0 (machine_id a) coro junk), msg_bytes es).

Lemma sent_bytes_holds cap c bs :
  holds cap c bs -> Z.of_nat cap < 2 ^ 64 -> sent_bytes c = Ok bs.
Proof.
  intros (Hl & Hle & Hc & Ht) Hcap. unfold sent_bytes, Mbuf.length. rewrite Hc.
  replace (Mbuf.alloc_buf (mb c) + _ - _) with (Z.of_nat (length bs)) by lia.
  rewrite wrap_id by (unfold u; lia). rewrite Nat2Z.id, read_at_ok by lia. by rewrite drop_0, Ht.
Qed.

Lemma req_msgs_ok cap a coro junk b ms E n i :
  held cap b ms E -> Z.of_nat cap < 2 ^ 64 -> (i + n = length ms)%nat ->
  req_msgs a coro junk n i b =
    Ok (map (fun mn => (mn, imm_word (mk_imm 1 (Z.of_nat (length (E mn))) 0 (machine_id a) coro junk),
                        msg_bytes (E mn))) (drop i ms)).
Proof.
  intros Hh Hcap. revert i. induction n as [|n IH]; intros i Hi; simpl.
  { rewrite drop_ge by lia. done. }
  destruct (lookup_lt_is_Some_2 ms i ltac:(lia)) as [mn Hmn].
  destruct (hd_used _ _ _ _ Hh i mn Hmn) as (c & Hc & Hr & Hn & Hhc).
  rewrite at_nat, Hc. simpl. rewrite (sent_bytes_holds cap _ _ Hhc Hcap). simpl.
  rewrite IH by lia. simpl. by rewrite (drop_S ms mn i Hmn), Hr, Hn.
Qed.

(** Issuing a list of requests. *)
Fixpoint issue_all (rs : list (ureq * list byte)) (b : rpc_req_batch_t) : res rpc_req_batch_t :=
  match rs with
  | [] => Ok b
  | (r, ubuf) :: rs =>
      b ← issue (u_type r) (u_mn r) ubuf (Z.of_nat (length ubuf)) (u_payload r) b;
      issue_all rs b
  end.

(** Requests that fit a batch whose buffers have [cap] bytes. *)
Definition reqs_wf (cap : nat) (rs : list ureq) : Prop :=
  (length rs <= 16)%nat /\
  Forall (fun r => 0 <= u_mn r < 126 /\ u 8 (u_type r) /\ Z.of_nat (length (u_payload r)) < 2 ^ 12) rs /\
  forall mn, (length (msg_bytes (entries_for mn 0 rs)) <= cap)%nat.

Lemma entries_prefix mn rs r :
  (length (msg_bytes (entries_for mn 0 rs)) <= length (msg_bytes (entries_for mn 0 (rs ++ [r]))))%nat.
Proof. rewrite entries_for_app, msg_bytes_app, length_app. lia. Qed.

Lemma reqs_wf_prefix cap rs rs' : reqs_wf cap (rs ++ rs') -> reqs_wf cap rs.
Proof.
  intros (Hl & Hf & Hm). rewrite length_app in Hl. apply Forall_app in Hf as [Hf _].
  split_and!; [lia|done|]. intros mn. specialize (Hm mn). clear Hl Hf. revert rs Hm.
  induction rs' as [|r rs' IH]; intros rs Hm; [by rewrite app_nil_r in Hm|].
  specialize (IH (rs ++ [r])). rewrite <- app_assoc in IH. specialize (IH Hm).
  pose proof (entries_prefix mn rs r). lia.
Qed.

(** The user's buffers, by request. *)
Definition ubufs (b : rpc_req_batch_t) (bufs : list (list byte)) : Prop :=
  forall k u, bufs !! k = Some u -> exists q, req_arr b !! k = Some q /\ resp_buf q = u.

Lemma issue_all_ok cap b rs0 rs :
  batch_holds cap b rs0 -> reqs_wf cap (rs0 ++ map fst rs) ->
  forall bufs, length bufs = length rs0 -> ubufs b bufs ->
  exists b', issue_all rs b = Ok b' /\ batch_holds cap b' (rs0 ++ map fst rs) /\
    ubufs b' (bufs ++ map snd rs).
Proof.
  revert b rs0. induction rs as [|[r ub] rs IH]; intros b rs0 Hb Hw bufs Hbl Hbu; simpl.
  { rewrite !app_nil_r. eauto. }
  simpl in Hw. replace (rs0 ++ r :: map fst rs) with ((rs0 ++ [r]) ++ map fst rs) in * by by rewrite <- app_assoc.
  pose proof (reqs_wf_prefix cap _ _ Hw) as (Hl & Hf & Hm). rewrite length_app in Hl. simpl in Hl.
  apply Forall_app in Hf as [_ Hf]. apply Forall_singleton in Hf as (Hmn & Hty & Hp).
  destruct (issue_ok cap b rs0 (u_type r) (u_mn r) ub (u_payload r) (Z.of_nat (length ub)) Hb)
    as (b1 & q & -> & Hb1 & Hq & Hrb & _); try done; [lia| |].
  { specialize (Hm (u_mn r)). rewrite entries_for_app, Z.eqb_refl, msg_bytes_app, length_app in Hm.
    rewrite msg_bytes_cons_length in Hm. simpl in Hm. lia. }
  simpl. replace (mk_ureq (u_mn r) (u_type r) (u_payload r)) with r in Hb1 by by destruct r.
  destruct (IH b1 (rs0 ++ [r]) Hb1 Hw (bufs ++ [ub])) as (b' & -> & Hb' & Hu').
  - rewrite !length_app. simpl. lia.
  - intros k v Hk. rewrite Hq. destruct Hb as (_ & _ & Hh). destruct (hd_arrays _ _ _ _ Hh) as (La & _).
    apply lookup_app_Some in Hk as [Hk|[Hge Hk]].
    + pose proof (lookup_lt_Some _ _ _ Hk). rewrite list_lookup_insert_ne by lia. by apply Hbu.
    + apply list_lookup_singleton_Some in Hk as [Hz <-]. assert (k = length rs0) as -> by lia.
      rewrite list_lookup_insert_eq by lia. eauto.
  - exists b'. rewrite <- app_assoc in Hu'. simpl in Hu'. done.
Qed.

(** ** Serving a message *)

(** What one response adds to the response buffer. *)
Lemma respond_bytes m ho h hdr8 mm out rty rb :
  rhdr_wf h -> u 8 rty -> Z.of_nat (length rb) < 2 ^ 12 -> magic h = RPC_CMSG_REQ_HDR_MAGIC ->
  take 4 hdr8 = le_bytes 4 (rhdr_word h) -> length hdr8 = 8%nat ->
  write_at ho hdr8 m = Ok mm ->
  (ho + 8 <= length m)%nat -> (ho + 4 + length rb <= length m)%nat ->
  length out = length (drop (ho + 4) mm) -> take (length rb) out = rb ->
  exists m', modify_hdr (fun h => mk_rhdr rty (coro_seqnum h) (magic h) (Z.of_nat (length rb))) ho
               (take (ho + 4) mm ++ out) = Ok m' /\
    length m' = length m /\
    take (ho + (4 + length rb)) m' = take ho m ++ entry_bytes (coro_seqnum h) rty rb.
Proof.
  intros Hw Hr Hl Hmg H4 H8 Hwr Hb1 Hb2 Hout Hrb.
  pose proof (write_at_length _ _ _ _ Hwr) as Lmm. rewrite length_drop in Hout.
  assert (take (ho + 4) mm = take ho m ++ le_bytes 4 (rhdr_word h)) as Et.
  { pose proof (write_at_take _ _ _ _ _ Hwr eq_refl) as Ht. rewrite H8 in Ht.
    replace (take (ho + 4) mm) with (take (ho + 4) (take (ho + 8) mm)) by (rewrite take_take; f_equal; lia).
    rewrite Ht, take_app_ge by (rewrite length_take; lia). rewrite length_take.
    replace (ho + 4 - ho `min` length m)%nat with 4%nat by lia. by rewrite H4. }
  pose proof (length_le_bytes 4 (rhdr_word h)) as L4.
  assert (length (take (ho + 4) mm ++ out) = length m) as L2 by (rewrite length_app, length_take; lia).
  destruct (modify_hdr_ok (fun h => mk_rhdr rty (coro_seqnum h) (magic h) (Z.of_nat (length rb))) ho
    (take (ho + 4) mm ++ out)) as (h' & m' & Hh' & _ & E & Lm' & W); [lia|].
  assert (h' = h) as ->.
  { assert (read_hdr ho (take (ho + 4) mm ++ out) = Ok h) as E2; [|congruence].
    apply read_hdr_bytes; [done|]. rewrite read_at_ok by lia. rewrite Et, <- app_assoc.
    rewrite drop_app_length' by (rewrite length_take; lia). f_equal; by apply take_app_length'. }
  exists m'. split_and!; [done|lia|]. simpl in W.
  rewrite Nat.add_assoc, <- take_take_drop.
  pose proof (length_le_bytes 4 (rhdr_word (mk_rhdr rty (coro_seqnum h) (magic h) (Z.of_nat (length rb))))) as L5.
  rewrite (write_at_take _ _ _ _ (ho + 4) W), (write_at_drop _ _ _ _ (ho + 4) W) by lia.
  assert (drop (ho + 4) (take (ho + 4) mm ++ out) = out) as -> by (apply drop_app_length'; rewrite length_take; lia).
  assert (take ho (take (ho + 4) mm ++ out) = take ho m) as ->.
  { rewrite Et, <- app_assoc. apply take_app_length'. rewrite length_take. lia. }
  rewrite Hrb.
  unfold entry_bytes. by rewrite Hmg, <- app_assoc.
Qed.

Section Serve.
Context {S : Type} (hs : list (option (@handler S))).

(** An abstract service: the response type, the response and the new state. *)
Context (spec : Z -> list byte -> S -> option (Z * list byte * S)) (R : nat).

(** The handlers implement the service, with responses of at most [R] bytes. *)
Class Implements : Prop := {
  impl_bound : (4 <= R)%nat /\ Z.of_nat R < 2 ^ 12;
  impl_handler : forall ty p s rty rb s', spec ty p s = Some (rty, rb, s') ->
    u 8 rty /\ (length rb <= R)%nat /\
    exists f, at_ hs ty = Ok (Some f) /\
      forall rmem extra, (R <= length rmem)%nat ->
        exists out, f rmem (p ++ extra) (Z.of_nat (length p)) s = Ok (out, rty, Z.of_nat (length rb), s') /\
          length out = length rmem /\ take (length rb) out = rb
}.

(** The service applied to the requests of a message, in order. *)
Fixpoint answer (es : list (Z * Z * list byte)) (s : S) : option (list (Z * Z * list byte) * S) :=
  match es with
  | [] => Some ([], s)
  | (seq, ty, p) :: es =>
      '(rty, rb, s) ← spec ty p s;
      '(rs, s) ← answer es s;
      Some ((seq, rty, rb) :: rs, s)
  end.

Lemma serve_reqs_ok `{Implements} es pre post buf m held_bytes cap s rs s' :
  answer es s = Some (rs, s') -> Forall entry_wf es ->
  buf = pre ++ msg_bytes es ++ post -> (4 <= length post)%nat ->
  holds cap m held_bytes -> (length held_bytes + length es * (4 + R) <= cap)%nat ->
  exists m', serve_reqs hs (length es) buf (length pre) m s = Ok (m', s') /\
    holds cap m' (held_bytes ++ msg_bytes rs).
Proof.
  destruct H as [[HR4 HR12] Himpl].
  revert pre m held_bytes s rs. induction es as [|[[seq ty] p] es IH]; intros pre m hb s rs Ha Hw Hbuf Hpost Hm Hcap.
  { injection Ha as <- <-. exists m. split; [done|]. by rewrite app_nil_r. }
  simpl in Ha. destruct (spec ty p s) as [[[rty rb] s1]|] eqn:Hsp; [|done]. simpl in Ha.
  destruct (answer es s1) as [[rs1 s2]|] eqn:Ha1; [|done]. simpl in Ha. injection Ha as <- <-.
  destruct (Himpl _ _ _ _ _ _ Hsp) as (Hrty & Hrb & f & Hf & Hrun).
  apply Forall_cons in Hw as [He Hes]. pose proof He as (Hseq & Hty & Hpl).
  rewrite msg_bytes_cons, <- app_assoc in Hbuf.
  destruct (read_entry pre seq ty p (msg_bytes es ++ post) He) as [Hh Hp]. rewrite <- Hbuf in Hh, Hp.
  cbn [length serve_reqs]. rewrite Hh. cbn [mbind res_bind h_type size].
  assert (length buf = (length pre + (4 + length p) + (length (msg_bytes es) + length post))%nat) as Lb
    by (rewrite Hbuf, !length_app, entry_length; lia).
  rewrite (holds_off _ _ _ Hm). pose proof Hm as (Hml & _ & _ & Hmt). cbn [length] in Hcap.
  rewrite (read_at_ok (length pre) 8) by lia. cbn [mbind res_bind].
  set (hdr8 := take 8 (drop (length pre) buf)).
  assert (length hdr8 = 8%nat) as L8 by (unfold hdr8; rewrite length_take, length_drop; lia).
  destruct (write_at_some (length hb) hdr8 (mem m)) as (mm & Hwr & Lmm); [lia|]. rewrite Hwr. cbn [mbind res_bind].
  rewrite Hf. cbn [mbind res_bind of_option].
  destruct (Hrun (drop (length hb + 4) mm) (msg_bytes es ++ post)) as (out & Ho & Lo & Hto).
  { rewrite length_drop. lia. }
  assert (drop (length pre + 4) buf = p ++ msg_bytes es ++ post) as ->.
  { rewrite Hbuf. unfold entry_bytes.
    pose proof (length_le_bytes 4 (rhdr_word (mk_rhdr ty seq RPC_CMSG_REQ_HDR_MAGIC (Z.of_nat (length p))))).
    rewrite <- app_assoc, app_assoc, drop_app_length' by (rewrite length_app; lia). done. }
  rewrite Ho. cbn [mbind res_bind].
  destruct (respond_bytes (mem m) (length hb) (mk_rhdr ty seq RPC_CMSG_REQ_HDR_MAGIC (Z.of_nat (length p)))
    hdr8 mm out rty rb) as (m3 & -> & L3 & Ht3); try done; try lia.
  { split_and!; simpl; try done. split; [lia|done]. }
  { unfold hdr8. rewrite take_take. change (4 `min` 8)%nat with 4%nat.
    rewrite Hbuf, drop_app_length. unfold entry_bytes. rewrite <- app_assoc.
    apply take_app_length'. by rewrite length_le_bytes. }
  cbn [mbind res_bind coro_seqnum] in *.
  assert (length pre + 4 + Z.to_nat (Z.of_nat (length p)) = length (pre ++ entry_bytes seq ty p))%nat as ->
    by (rewrite length_app, entry_length; lia).
  destruct (IH (pre ++ entry_bytes seq ty p) (bump (4 + Z.of_nat (length rb)) (set_mem m3 m))
    (hb ++ entry_bytes seq rty rb) s1 rs1) as (m' & -> & Hm'); try done.
  - by rewrite <- app_assoc.
  - apply (holds_append cap m); [done|simpl; lia|lia| |exact Ht3].
    unfold bump, set_mem, Mbuf.advance. cbn [mb Mbuf.alloc_buf Mbuf.alloc_len Mbuf.cur_buf]. f_equal. lia.
  - rewrite length_app, entry_length. lia.
  - exists m'. split; [done|]. by rewrite msg_bytes_cons, app_assoc.
Qed.
End Serve.

(** ** Delivering responses *)

(** Request [q] after it received the response [bs] of type [ty]. *)
Definition answered (ty : Z) (bs : list byte) (q q' : rpc_req_t) : Prop :=
  resp_type q' = ty /\ resp_len q' = Z.of_nat (length bs) /\ take (length bs) (resp_buf q') = bs /\
  length (resp_buf q') = length (resp_buf q).

(** The batch after the responses [rs] were delivered. *)
Definition delivered (rs : list (Z * Z * list byte)) (b b' : rpc_req_batch_t) : Prop :=
  b_num_reqs b' = b_num_reqs b /\ num_reqs_done b' = num_reqs_done b /\ num_uniq_mn b' = num_uniq_mn b /\
  cmsg_for_mc b' = cmsg_for_mc b /\ cmsg_arr b' = cmsg_arr b /\ length (req_arr b') = length (req_arr b) /\
  (forall seq ty bs, (seq, ty, bs) ∈ rs -> exists q q', req_arr b !! Z.to_nat seq = Some q /\
     req_arr b' !! Z.to_nat seq = Some q' /\ answered ty bs q q') /\
  (forall k, Z.of_nat k ∉ map (fun e => fst (fst e)) rs -> req_arr b' !! k = req_arr b !! k).

(** The user's buffer for the response has room for it. *)
Definition has_room (b : rpc_req_batch_t) (e : Z * Z * list byte) : Prop :=
  let '(seq, _, bs) := e in
  exists q, req_arr b !! Z.to_nat seq = Some q /\ (length bs <= length (resp_buf q))%nat.

Lemma recv_resps_ok rs pre post b :
  Forall entry_wf rs -> Forall (has_room b) rs -> NoDup (map (fun e => fst (fst e)) rs) ->
  exists b', recv_resps (length rs) (pre ++ msg_bytes rs ++ post) (length pre) b = Ok b' /\ delivered rs b b'.
Proof.
  revert pre b. induction rs as [|[[seq ty] bs] rs IH]; intros pre b Hw Hr Hnd.
  { exists b. split; [done|]. split_and!; try done. by intros ??? ?%elem_of_nil. }
  apply Forall_cons in Hw as [He Hw]. apply Forall_cons in Hr as [(q & Hq & Hl) Hr].
  cbn [map fst] in Hnd. apply NoDup_cons in Hnd as [Hnin Hnd]. pose proof He as (Hseq & _ & _).
  rewrite msg_bytes_cons, <- app_assoc. cbn [length recv_resps].
  destruct (read_entry pre seq ty bs (msg_bytes rs ++ post) He) as [-> Hrd].
  cbn [mbind res_bind coro_seqnum size h_type]. rewrite at_nonneg, Hq by apply Hseq. cbn [of_option mbind res_bind].
  rewrite Nat2Z.id, Hrd. cbn [mbind res_bind].
  destruct (write_at_some 0 bs (resp_buf q)) as (ub & Hub & Lub); [lia|]. rewrite Hub. cbn [mbind res_bind].
  replace (length pre + 4 + length bs)%nat with (length (pre ++ entry_bytes seq ty bs))
    by (rewrite length_app, entry_length; lia).
  rewrite (app_assoc pre). set (q' := mk_rreq _ _ _ _ ub _ _ _).
  assert (forall e, e ∈ rs -> Z.to_nat (fst (fst e)) <> Z.to_nat seq) as Hdist.
  { intros e Hin Heq. apply Hnin. apply list_elem_of_fmap. exists e. split; [|done].
    rewrite Forall_forall in Hw. specialize (Hw e Hin). destruct e as [[s1 t1] b1]. destruct Hw as (Hs1 & _).
    unfold u in *. simpl in *. lia. }
  destruct (IH (pre ++ entry_bytes seq ty bs) (set_req (Z.to_nat seq) q' b) Hw) as (b' & -> & Hd); [|done|].
  { apply Forall_forall. intros e Hin. rewrite Forall_forall in Hr. pose proof (Hr e Hin) as Hre.
    pose proof (Hdist e Hin) as Hne. destruct e as [[s1 t1] b1]. destruct Hre as (q1 & Hq1 & Hl1).
    exists q1. simpl in *. by rewrite list_lookup_insert_ne. }
  exists b'. split; [done|]. destruct Hd as (D1 & D2 & D3 & D4 & D5 & D6 & D7 & D8). simpl in *.
  pose proof (lookup_lt_Some _ _ _ Hq) as Hlt. rewrite length_insert in D6.
  split_and!; try done.
  - intros s1 t1 b1 [E|Hin]%elem_of_cons.
    + injection E as -> -> ->. exists q, q'. split_and!; try done.
      * rewrite D8; [by apply list_lookup_insert_eq|]. rewrite Z2Nat.id by apply Hseq. done.
      * pose proof (write_at_take _ _ _ _ _ Hub eq_refl) as Ht. simpl in Ht. done.
    + destruct (D7 _ _ _ Hin) as (q1 & q2 & Hq1 & Hq2 & Ha). exists q1, q2.
      rewrite list_lookup_insert_ne in Hq1 by (apply not_eq_sym, (Hdist _ Hin)). done.
  - intros k Hk. apply not_elem_of_cons in Hk as [Hk1 Hk2]. rewrite D8 by done.
    apply list_lookup_insert_ne. intros <-. rewrite Z2Nat.id in Hk1 by apply Hseq. done.
Qed.

Lemma answer_seqs {S} spec es (s : S) rs s' :
  answer spec es s = Some (rs, s') ->
  map (fun e => fst (fst e)) rs = map (fun e => fst (fst e)) es /\ length rs = length es.
Proof.
  revert s rs. induction es as [|[[seq ty] p] es IH]; intros s rs H; simpl in H.
  { by injection H as <- <-. }
  destruct (spec ty p s) as [[[rty rb] s1]|]; [|done]. simpl in H.
  destruct (answer spec es s1) as [[rs1 s2]|] eqn:E; [|done]. simpl in H. injection H as <- <-.
  destruct (IH _ _ E) as [H1 H2]. simpl. by rewrite H1, H2.
Qed.

(** ** Completions *)

Section Completions.
Context {S : Type}.
Implicit Types (r : @rpc S) (s : S).

(** The immediate of the reply to a request message. *)
Definition reply_imm (machine : Z) (i : rpc_imm) : rpc_imm :=
  mk_imm 0 (num_reqs i) (config_id i) machine (imm_coro_id i) (imm_rest i).

Lemma server_comp_ok spec R r s s' es rs imm post cap i c cur blen :
  Implements (rpc_handler r) spec R ->
  answer spec es s = Some (rs, s') -> Forall entry_wf es -> (4 <= length post)%nat ->
  imm_wf imm -> is_req imm = 1 -> num_reqs imm = Z.of_nat (length es) ->
  num_cresps (resp_batch r) = Z.of_nat i -> r_cmsg_arr (resp_batch r) !! i = Some c ->
  holds cap (resp_mbuf c) [] -> (length es * (4 + R) <= cap)%nat ->
  exists r' c', handle_comp (mk_wc (imm_word imm) (msg_bytes es ++ post) blen) cur r s = Ok (cur, r', s') /\
    num_cresps (resp_batch r') = Z.of_nat i + 1 /\ r_cmsg_arr (resp_batch r') !! i = Some c' /\
    remote_mn c' = mchn_id imm /\ resp_imm c' = imm_word (reply_imm (machine_id (info r)) imm) /\
    num_centry c' = Z.of_nat (length es) /\ holds cap (resp_mbuf c') (msg_bytes rs) /\
    req_batch_arr r' = req_batch_arr r /\ next_coro r' = next_coro r.
Proof.
  intros Hi Ha Hw Hp Hwf Hr Hn Hc Hcm Hh Hcap. unfold handle_comp. cbn [imm_data wc_buf].
  rewrite word_imm_word, Hr, Hn by done. cbn [Z.eqb]. unfold start_new_resp. rewrite word_imm_word by done.
  rewrite Hc, at_nat, Hcm, !Nat2Z.id. cbn [of_option mbind res_bind resp_mbuf remote_mn resp_imm num_centry req_mbuf].
  destruct (serve_reqs_ok (rpc_handler r) spec R es [] post (msg_bytes es ++ post) (resp_mbuf c) [] cap s rs s')
    as (m' & Hs & Hm'); try done.
  cbn [length] in Hs. rewrite Hs. cbn [mbind res_bind]. unfold set_resp_mbuf. rewrite at_nat. cbn [r_cmsg_arr].
  pose proof (lookup_lt_Some _ _ _ Hcm) as Hlt. rewrite list_lookup_insert_eq by done.
  cbn [of_option mbind res_bind]. eexists _, _. split; [done|]. cbn [resp_batch with_resp num_cresps r_cmsg_arr].
  split; [done|]. split; [rewrite Nat2Z.id; apply list_lookup_insert_eq; by rewrite length_insert|].
  cbn. rewrite Hn. split_and!; done.
Qed.

Lemma client_comp_ok r s rs imm post b coro cur e blen :
  Forall entry_wf rs -> Forall (has_room b) rs -> NoDup (map (fun e => fst (fst e)) rs) ->
  imm_wf imm -> is_req imm = 0 -> num_reqs imm = Z.of_nat (length rs) -> imm_coro_id imm = Z.of_nat coro ->
  req_batch_arr r !! coro = Some b -> ld_num_resps_ever r !! coro = Some e ->
  0 <= cur < Z.of_nat (length (next_coro r)) ->
  exists r' b', handle_comp (mk_wc (imm_word imm) (msg_bytes rs ++ post) blen) cur r s =
      Ok (if num_reqs_done b + Z.of_nat (length rs) =? b_num_reqs b then Z.of_nat coro else cur, r', s) /\
    next_coro r' = (if num_reqs_done b + Z.of_nat (length rs) =? b_num_reqs b
                    then <[Z.to_nat cur := Z.of_nat coro]> (next_coro r) else next_coro r) /\
    req_batch_arr r' = <[coro := b']> (req_batch_arr r) /\
    delivered rs (set_counts (b_num_reqs b) (num_reqs_done b + Z.of_nat (length rs)) (num_uniq_mn b) b) b' /\
    resp_batch r' = resp_batch r.
Proof.
  intros Hw Hr Hnd Hwf Hq Hn Hc Hb He Hcur. unfold handle_comp. cbn [imm_data wc_buf].
  rewrite word_imm_word, Hq, Hn, Hc by done. cbn [Z.eqb]. rewrite at_nat, Hb.
  cbn [of_option mbind res_bind]. set (b0 := set_counts _ _ _ b).
  change (num_reqs_done b0) with (num_reqs_done b + Z.of_nat (length rs)). change (b_num_reqs b0) with (b_num_reqs b).
  destruct (recv_resps_ok rs [] post b0 Hw) as (b' & Hrv & Hd); [by eapply Forall_impl|done|].
  cbn [app length] in Hrv. rewrite !Nat2Z.id.
  destruct (num_reqs_done b + Z.of_nat (length rs) =? b_num_reqs b) eqn:Edone.
  - destruct (lookup_lt_is_Some_2 (next_coro r) (Z.to_nat cur)) as [x Hx]; [lia|].
    rewrite at_nonneg, Hx by lia. cbn [of_option mbind res_bind]. rewrite Hrv. cbn [mbind res_bind].
    cbn [ld_num_resps_ever with_batch with_next]. rewrite at_nat, He. cbn [of_option mbind res_bind].
    eexists _, b'. done.
  - cbn [mbind res_bind]. rewrite Hrv. cbn [mbind res_bind].
    cbn [ld_num_resps_ever with_batch with_next]. rewrite at_nat, He. cbn [of_option mbind res_bind].
    eexists _, b'. done.
Qed.
End Completions.

(** ** Requests, service and responses *)

Lemma entries_for_wf mn rs i :
  0 <= i -> i + Z.of_nat (length rs) <= 256 ->
  Forall (fun r => 0 <= u_mn r < 126 /\ u 8 (u_type r) /\ Z.of_nat (length (u_payload r)) < 2 ^ 12) rs ->
  Forall entry_wf (entries_for mn i rs).
Proof.
  revert i. induction rs as [|r rs IH]; intros i H0 H1 Hf; simpl; [done|].
  apply Forall_cons in Hf as [(_ & Ht & Hp) Hf]. cbn [length] in H1.
  destruct (u_mn r =? mn); [constructor|]; try (apply IH; [lia|lia|done]).
  split_and!; [split; lia|done|done].
Qed.

Lemma entries_for_seqs mn rs i e :
  e ∈ entries_for mn i rs -> i <= fst (fst e) < i + Z.of_nat (length rs).
Proof.
  revert i. induction rs as [|r rs IH]; intros i He; simpl in *; [by apply elem_of_nil in He|].
  destruct (u_mn r =? mn); [apply elem_of_cons in He as [->|He]; [simpl; lia|]|]; apply IH in He; lia.
Qed.

Lemma entries_for_nodup mn rs i : NoDup (map (fun e => fst (fst e)) (entries_for mn i rs)).
Proof.
  revert i. induction rs as [|r rs IH]; intros i; simpl; [constructor|].
  destruct (u_mn r =? mn); [|done]. simpl. constructor; [|done].
  intros (e & He1 & He2)%list_elem_of_fmap. apply entries_for_seqs in He2. lia.
Qed.

(** C34: the messages [send_reqs] transmits for a batch are one per destination
    machine, in the order of the machines' first requests; the immediate counts
    the machine's requests, and reading the message gives back, in the order of
    issue, the type and the bytes of each of them, numbered by their position in
    the batch. *)
Theorem coalesce_correct cap b rs a coro junk :
  batch_holds cap b [] -> Z.of_nat cap < 2 ^ 64 -> reqs_wf cap (map fst rs) ->
  exists b', issue_all rs b = Ok b' /\
    req_msgs a coro junk (Z.to_nat (num_uniq_mn b')) 0 b' =
      Ok (map (wire_msg a coro junk (map fst rs)) (machines (map fst rs) [])) /\
    forall mn post,
      let es := entries_for mn 0 (map fst rs) in
      parse_entries (length es) (msg_bytes es ++ post) 0 = Ok es.
Proof.
  intros Hb Hcap Hw. destruct (issue_all_ok cap b [] rs Hb Hw []) as (b' & Hi & Hb' & _); [done|done|].
  exists b'. split; [done|]. destruct Hb' as (_ & _ & Hh). split.
  - rewrite (hd_uniq _ _ _ _ Hh), Nat2Z.id. rewrite (req_msgs_ok cap a coro junk b' _ _ _ 0 Hh Hcap eq_refl).
    by rewrite drop_0.
  - intros mn post. apply (parse_msg [] _ post). destruct Hw as (Hl & Hf & _).
    apply entries_for_wf; [lia|lia|done].
Qed.

(** C35: an endpoint whose handlers implement a service answers a message of
    requests with one message to the machine that sent it: the service's responses
    to the requests, applied in order, each with the sequence number of its
    request; no other state of the endpoint changes. *)
Theorem request_served {S} spec R (r : @rpc S) s s' es rs imm post cap i c cur blen :
  Implements (rpc_handler r) spec R ->
  answer spec es s = Some (rs, s') -> Forall entry_wf es -> (4 <= length post)%nat ->
  imm_wf imm -> is_req imm = 1 -> num_reqs imm = Z.of_nat (length es) ->
  num_cresps (resp_batch r) = Z.of_nat i -> r_cmsg_arr (resp_batch r) !! i = Some c ->
  holds cap (resp_mbuf c) [] -> (length es * (4 + R) <= cap)%nat -> Z.of_nat cap < 2 ^ 64 ->
  exists r' c', handle_comp (mk_wc (imm_word imm) (msg_bytes es ++ post) blen) cur r s = Ok (cur, r', s') /\
    r_cmsg_arr (resp_batch r') !! i = Some c' /\ remote_mn c' = mchn_id imm /\
    word_imm (resp_imm c') = reply_imm (wrap 7 (machine_id (info r))) imm /\
    sent_bytes (resp_mbuf c') = Ok (msg_bytes rs) /\
    map (fun e => fst (fst e)) rs = map (fun e => fst (fst e)) es /\
    req_batch_arr r' = req_batch_arr r /\ next_coro r' = next_coro r.
Proof.
  intros Hi Ha Hw Hp Hwf Hr Hn Hc Hcm Hh Hcap H64.
  destruct (server_comp_ok spec R r s s' es rs imm post cap i c cur blen Hi Ha Hw Hp Hwf Hr Hn Hc Hcm Hh Hcap)
    as (r' & c' & E & _ & Hc' & Hmn & Him & _ & Hh' & Hb & Hnc).
  exists r', c'. split_and!; try done.
  - rewrite Him. destruct Hwf as (? & ? & ? & ? & ? & ?).
    assert (imm_word (reply_imm (machine_id (info r)) imm) =
            imm_word (reply_imm (wrap 7 (machine_id (info r))) imm)) as ->.
    { unfold imm_word, reply_imm. simpl. by rewrite wrap_wrap. }
    rewrite word_imm_word; [done|]. split_and!; simpl; try done. by apply wrap_u.
  - by eapply sent_bytes_holds.
  - by eapply answer_seqs.
Qed.

(** C36: a message of responses completes the requests it names by sequence number:
    each gets the type and the bytes of its response in its own buffer, no other
    request of the batch changes, and the coroutine is scheduled exactly when
    these were the responses its batch was waiting for. *)
Theorem response_delivered {S} (r : @rpc S) s rs imm post b coro cur e blen :
  Forall entry_wf rs -> Forall (has_room b) rs -> NoDup (map (fun e => fst (fst e)) rs) ->
  imm_wf imm -> is_req imm = 0 -> num_reqs imm = Z.of_nat (length rs) -> imm_coro_id imm = Z.of_nat coro ->
  req_batch_arr r !! coro = Some b -> ld_num_resps_ever r !! coro = Some e ->
  0 <= cur < Z.of_nat (length (next_coro r)) ->
  exists cur' r' b', handle_comp (mk_wc (imm_word imm) (msg_bytes rs ++ post) blen) cur r s = Ok (cur', r', s) /\
    req_batch_arr r' = <[coro := b']> (req_batch_arr r) /\
    num_reqs_done b' = num_reqs_done b + Z.of_nat (length rs) /\
    (forall seq ty bs, (seq, ty, bs) ∈ rs -> exists q q', req_arr b !! Z.to_nat seq = Some q /\
       req_arr b' !! Z.to_nat seq = Some q' /\ answered ty bs q q') /\
    (forall k, Z.of_nat k ∉ map (fun e => fst (fst e)) rs -> req_arr b' !! k = req_arr b !! k) /\
    if num_reqs_done b' =? b_num_reqs b
    then cur' = Z.of_nat coro /\ next_coro r' = <[Z.to_nat cur := Z.of_nat coro]> (next_coro r)
    else cur' = cur /\ next_coro r' = next_coro r.
Proof.
  intros Hw Hr Hnd Hwf Hq Hn Hc Hb He Hcur.
  destruct (client_comp_ok r s rs imm post b coro cur e blen Hw Hr Hnd Hwf Hq Hn Hc Hb He Hcur)
    as (r' & b' & E & Hnc & Hrb & (_ & D2 & _ & _ & _ & _ & D7 & D8) & _).
  eexists _, r', b'. split; [exact E|]. simpl in D2. rewrite D2. split_and!; try done.
  rewrite Hnc. by destruct (_ =? _).
Qed.

End RpcProps.
