(* ===== verification/RpcRing.v ===== *)
(** * The RPC subsystem: scheduling and queues

    The ring of coroutines a poll returns, the number of posted RECVs, and the
    send queue: selective signalling never waits for a send that was not posted
    and never overflows the queue. *)

From S2P Require Import Prelude Util Hots RpcDefs RpcBatch Rpc.
From Stdlib Require Import ZArith Lia Bool.
From stdpp Require Import base numbers list sets.
#[local] Open Scope Z_scope.
Import RpcDefs RpcBatch Rpc.

Module RpcRing.

(** ** The ring of completed coroutines *)

(** Following [nc] from [from] visits [cs]. *)
Fixpoint path (nc : list Z) (from : Z) (cs : list Z) : Prop :=
  match cs with
  | [] => True
  | c :: cs => nc !! Z.to_nat from = Some c /\ path nc c cs
  end.

(** The ring: from the master through [cs] and back. *)
Definition ring (nc : list Z) (cs : list Z) : Prop :=
  path nc RPC_MASTER_CORO_ID (cs ++ [RPC_MASTER_CORO_ID]).

Definition last_of (from : Z) (cs : list Z) : Z := default from (last cs).

Lemma last_of_cons from c cs : last_of from (c :: cs) = last_of c cs.
Proof. unfold last_of. rewrite last_cons. by destruct (last cs). Qed.

Lemma last_of_in from cs : last_of from cs ∈ from :: cs.
Proof.
  revert from. induction cs as [|c cs IH]; intros from; [by left|].
  rewrite last_of_cons. right. apply IH.
Qed.

Lemma path_snoc nc from cs x :
  path nc from cs -> NoDup (from :: cs) -> Forall (fun c => 0 <= c < Z.of_nat (length nc)) (from :: cs) ->
  path (<[Z.to_nat (last_of from cs) := x]> nc) from (cs ++ [x]).
Proof.
  revert from. induction cs as [|c cs IH]; intros from Hp Hnd Hb.
  - apply Forall_cons in Hb as [Hb _]. split; [|done]. unfold last_of. simpl. apply list_lookup_insert_eq. lia.
  - destruct Hp as [H1 H2]. apply NoDup_cons in Hnd as [Hn Hnd]. apply Forall_cons in Hb as [Hf Hb].
    rewrite last_of_cons. simpl. split; [|by apply IH].
    rewrite list_lookup_insert_ne; [done|]. pose proof (last_of_in c cs) as Hin.
    rewrite Forall_forall in Hb. pose proof (Hb _ Hin). intros E. apply Hn.
    replace from with (last_of c cs) by lia. done.
Qed.

Lemma recv_resps_counts n buf off b b' :
  recv_resps n buf off b = Ok b' ->
  b_num_reqs b' = b_num_reqs b /\ num_reqs_done b' = num_reqs_done b.
Proof.
  revert off b. induction n as [|n IH]; intros off b H; simpl in H; [by injection H as <-|].
  apply bind_ok in H as (h & _ & H). apply bind_ok in H as (q & _ & H).
  apply bind_ok in H as (bs & _ & H). apply bind_ok in H as (ub & _ & H).
  apply IH in H as [-> ->]. done.
Qed.

Section Ring.
Context {S : Type}.
Implicit Types (r : @rpc S) (s : S).

Definition resp_of (w : ibv_wc) : bool := is_req (word_imm (imm_data w)) =? 0.
Definition coro_of (w : ibv_wc) : Z := imm_coro_id (word_imm (imm_data w)).
Definition count_of (w : ibv_wc) : Z := num_reqs (word_imm (imm_data w)).

(** What a completion changes of the batches and of the ring. *)
Lemma handle_comp_inv w cur r s cur' r' s' :
  handle_comp w cur r s = Ok (cur', r', s') ->
  info r' = info r /\ recv_slack r' = recv_slack r /\ recvs_to_post r' = recvs_to_post r /\
  if resp_of w then
    exists b b', req_batch_arr r !! Z.to_nat (coro_of w) = Some b /\
      req_batch_arr r' = <[Z.to_nat (coro_of w) := b']> (req_batch_arr r) /\
      b_num_reqs b' = b_num_reqs b /\ num_reqs_done b' = num_reqs_done b + count_of w /\
      if num_reqs_done b' =? b_num_reqs b'
      then cur' = coro_of w /\ next_coro r' = <[Z.to_nat cur := coro_of w]> (next_coro r)
      else cur' = cur /\ next_coro r' = next_coro r
  else cur' = cur /\ next_coro r' = next_coro r /\ req_batch_arr r' = req_batch_arr r.
Proof.
  unfold handle_comp, resp_of, coro_of, count_of. intros H.
  destruct (is_req (word_imm (imm_data w)) =? 0) eqn:Er.
  - pose proof (word_imm_wf (imm_data w)) as (_ & _ & _ & _ & [Hc0 _] & _).
    apply bind_ok in H as (b & Hb & H). rewrite at_nonneg in Hb by done.
    destruct (req_batch_arr r !! _) as [b0|] eqn:Eb; [|done]. injection Hb as ->.
    apply bind_ok in H as ([cur1 r1] & Hr1 & H). apply bind_ok in H as (b' & Hrv & H).
    apply bind_ok in H as (e & _ & H). injection H as <- <- <-.
    apply recv_resps_counts in Hrv as [E1 E2]. simpl in E1, E2.
    destruct (_ =? _) eqn:Ed in Hr1.
    + apply bind_ok in Hr1 as (x & _ & Hr1). injection Hr1 as <- <-. simpl in *. split_and!; try done.
      exists b, b'. split_and!; try done. rewrite E1, E2. by rewrite Ed.
    + injection Hr1 as <- <-. simpl in *. split_and!; try done.
      exists b, b'. split_and!; try done. rewrite E1, E2. by rewrite Ed.
  - apply bind_ok in H as ([m rb] & _ & H). apply bind_ok in H as ([m1 s1] & _ & H).
    apply bind_ok in H as (rb' & _ & H). injection H as <- <- <-. done.
Qed.

(** The state of the loop over the completions: [seen] are the coroutines that got
    a response, [cs] those that were scheduled. *)
Record ring_inv (seen cs : list Z) (cur : Z) r : Prop := {
  ri_len : length (next_coro r) = 32%nat;
  ri_path : path (next_coro r) RPC_MASTER_CORO_ID cs;
  ri_nodup : NoDup (RPC_MASTER_CORO_ID :: cs);
  ri_range : Forall (fun c => 1 <= c < 32) cs;
  ri_cur : cur = last_of RPC_MASTER_CORO_ID cs;
  ri_seen : forall c, c ∈ cs -> c ∈ seen;
  ri_over : forall c b, c ∈ cs -> req_batch_arr r !! Z.to_nat c = Some b -> b_num_reqs b <= num_reqs_done b;
  ri_complete : forall c b, 0 <= c -> c ∈ seen -> req_batch_arr r !! Z.to_nat c = Some b ->
                  num_reqs_done b = b_num_reqs b -> c ∈ cs
}.

(** A response comes from a slave's batch and answers at least one request. *)
Definition comp_wf (w : ibv_wc) : Prop := resp_of w = true -> 1 <= coro_of w /\ 1 <= count_of w.

Lemma ring_step w cur r s cur' r' s' seen cs :
  handle_comp w cur r s = Ok (cur', r', s') -> comp_wf w -> ring_inv seen cs cur r ->
  exists cs', ring_inv (if resp_of w then coro_of w :: seen else seen) cs' cur' r'.
Proof.
  intros H Hw [Hl Hp Hnd Hrg Hcur Hse Hov Hco]. apply handle_comp_inv in H as (_ & _ & _ & H).
  unfold comp_wf in Hw. destruct (resp_of w).
  2:{ destruct H as (-> & Hn & Hb). exists cs. by constructor; rewrite ?Hn, ?Hb. }
  destruct (Hw eq_refl) as [Hc1 Hn1]. clear Hw.
  pose proof (word_imm_wf (imm_data w)) as (_ & _ & _ & _ & [_ Hc32] & _). change (2 ^ 5) with 32 in Hc32.
  fold (coro_of w) in Hc32. set (c := coro_of w) in *.
  destruct H as (b & b' & Hb & Hba & E1 & E2 & H).
  assert (Z.to_nat c < length (req_batch_arr r))%nat as Hlt by (by eapply lookup_lt_Some).
  assert (forall d, d <> c -> 0 <= d -> req_batch_arr r' !! Z.to_nat d = req_batch_arr r !! Z.to_nat d) as Hoth.
  { intros d Hd Hd0. rewrite Hba. apply list_lookup_insert_ne. lia. }
  assert (req_batch_arr r' !! Z.to_nat c = Some b') as Hself by (rewrite Hba; by apply list_lookup_insert_eq).
  assert (forall d, d ∈ cs -> 1 <= d < 32) as Hin by (by rewrite Forall_forall in Hrg).
  destruct (num_reqs_done b' =? b_num_reqs b') eqn:Ed.
  - apply Z.eqb_eq in Ed. destruct H as [-> Hnx].
    assert (c ∉ cs) as Hnot. { intros Hc. pose proof (Hov c b Hc Hb). lia. }
    exists (cs ++ [c]). constructor.
    + by rewrite Hnx, length_insert.
    + rewrite Hnx, Hcur. apply path_snoc; try done. rewrite Hl. constructor; [done|].
      eapply Forall_impl; [exact Hrg|]. simpl. lia.
    + rewrite app_comm_cons. apply NoDup_app. split_and!; [done| |apply NoDup_singleton].
      intros x Hx ->%list_elem_of_singleton. apply elem_of_cons in Hx as [Hx|Hx]; [|done].
      unfold RPC_MASTER_CORO_ID in Hx. lia.
    + apply Forall_app. split; [done|]. by apply Forall_singleton.
    + unfold last_of. by rewrite last_snoc.
    + intros d [Hd|Hd%list_elem_of_singleton]%elem_of_app; [right; by apply Hse|subst; by left].
    + intros d bd Hd Hbd. destruct (decide (d = c)) as [->|Hne]; [simplify_eq; lia|].
      apply elem_of_app in Hd as [Hd|Hd%list_elem_of_singleton]; [|done].
      rewrite Hoth in Hbd by (done || apply Hin in Hd; lia). by eapply Hov.
    + intros d bd H0 Hd Hbd Hdone. destruct (decide (d = c)) as [->|Hne]; [set_solver|].
      apply elem_of_cons in Hd as [->|Hd]; [done|]. apply elem_of_app. left.
      rewrite Hoth in Hbd by done. by eapply Hco.
  - apply Z.eqb_neq in Ed. destruct H as [-> Hnx]. exists cs. constructor; rewrite ?Hnx; try done.
    + intros d Hd. right. by apply Hse.
    + intros d bd Hd Hbd. destruct (decide (d = c)) as [->|Hne].
      * simplify_eq. pose proof (Hov c b Hd Hb). lia.
      * rewrite Hoth in Hbd by (done || apply Hin in Hd; lia). by eapply Hov.
    + intros d bd H0 Hd Hbd Hdone. destruct (decide (d = c)) as [->|Hne]; [simplify_eq; lia|].
      apply elem_of_cons in Hd as [->|Hd]; [done|]. rewrite Hoth in Hbd by done. by eapply Hco.
Qed.

Lemma ring_steps ws cur r s cur' r' s' seen cs :
  handle_comps ws cur r s = Ok (cur', r', s') -> Forall comp_wf ws -> ring_inv seen cs cur r ->
  exists cs', ring_inv (rev (map coro_of (filter (fun w => resp_of w = true) ws)) ++ seen) cs' cur' r' /\
    recvs_to_post r' = recvs_to_post r /\ recv_slack r' = recv_slack r /\ info r' = info r.
Proof.
  revert cur r s seen cs. induction ws as [|w ws IH]; intros cur r s seen cs H Hw Hi; simpl in H.
  { injection H as <- <- <-. exists cs. done. }
  apply bind_ok in H as ([[cur1 r1] s1] & H1 & H). apply Forall_cons in Hw as [Hw Hws].
  pose proof (handle_comp_inv _ _ _ _ _ _ _ H1) as (E1 & E2 & E3 & _).
  destruct (ring_step _ _ _ _ _ _ _ _ _ H1 Hw Hi) as [cs1 Hi1].
  destruct (IH _ _ _ _ _ H Hws Hi1) as (cs' & Hi' & -> & -> & ->).
  exists cs'. split_and!; try done. rewrite filter_cons. destruct (resp_of w); [|by rewrite decide_False].
  rewrite decide_True by done. simpl. by rewrite <- app_assoc.
Qed.

Lemma send_resps_inv r cs r' :
  send_resps r = Ok (cs, r') ->
  next_coro r' = next_coro r /\ req_batch_arr r' = req_batch_arr r /\ recvs_to_post r' = recvs_to_post r /\
  recv_slack r' = recv_slack r /\ info r' = info r.
Proof.
  unfold send_resps. intros H. apply bind_ok in H as ([ms rb] & _ & H).
  apply bind_ok in H as ([[c q] p] & _ & H). injection H as <- <-. done.
Qed.

Lemma ld_step_inv ms r idle r' :
  ld_step ms r = Ok (idle, r') ->
  next_coro r' = next_coro r /\ req_batch_arr r' = req_batch_arr r /\ recvs_to_post r' = recvs_to_post r /\
  recv_slack r' = recv_slack r /\ info r' = info r.
Proof.
  unfold ld_step, ld_check_packet_loss. intros H. case_in H; [|by injection H as <- <-].
  apply bind_ok in H as ([i1 r1] & H1 & H). injection H as <- <-.
  case_in H1; by injection H1 as <- <-.
Qed.

(** A poll, up to its last assignment. *)
Lemma poll_inv ms ws r s calls r' s' :
  poll_comps ms ws r s = Ok (calls, r', s') -> length (next_coro r) = 32%nat -> Forall comp_wf ws ->
  exists cs,
    ring (next_coro r') cs /\ length (next_coro r') = 32%nat /\
    NoDup cs /\ (RPC_MASTER_CORO_ID ∉ cs) /\
    (forall c, c ∈ cs -> exists w, w ∈ ws /\ resp_of w = true /\ coro_of w = c) /\
    (forall w b, w ∈ ws -> resp_of w = true -> req_batch_arr r' !! Z.to_nat (coro_of w) = Some b ->
       num_reqs_done b = b_num_reqs b -> coro_of w ∈ cs) /\
    info r' = info r /\ recv_slack r' = recv_slack r /\
    recvs_to_post r' = (if (0 <? Z.of_nat (length ws)) &&
                           (recv_slack r <=? recvs_to_post r + Z.of_nat (length ws))
                        then 0 else recvs_to_post r + Z.of_nat (length ws)).
Proof.
  intros H Hl Hw. unfold poll_comps in H. apply bind_ok in H as ([idle r0] & H0 & H).
  apply ld_step_inv in H0 as (E1 & E2 & E3 & E4 & E5).
  destruct ws as [|w ws'] eqn:Ews.
  { injection H as <- <- <-. exists []. simpl. rewrite E1. split_and!; try done; try (rewrite E3; lia).
    - unfold ring. simpl. split; [|done]. apply list_lookup_insert_eq. rewrite Hl. unfold RPC_MASTER_CORO_ID. lia.
    - by rewrite length_insert.
    - apply NoDup_nil_2.
    - by apply not_elem_of_nil.
    - by intros c ?%elem_of_nil.
    - by intros ? ? ?%elem_of_nil. }
  rewrite <- Ews in *. assert ((0 <? Z.of_nat (length ws)) = true) as -> by (apply Z.ltb_lt; rewrite Ews; simpl; lia).
  cbn [andb].
  apply bind_ok in H as (pf & _ & H). apply bind_ok in H as ([[cur r1] s1] & Hc & H).
  destruct (ring_steps ws RPC_MASTER_CORO_ID _ s cur r1 s1 [] [] Hc Hw) as (cs & [Ri1 Ri2 Ri3 Ri4 Ri5 Ri6 Ri7 Ri8] & F1 & F2 & F3).
  { constructor; simpl; rewrite ?E1; try done; [apply NoDup_singleton|..]; (by intros ? ?%elem_of_nil) || (by intros ? ? ?%elem_of_nil) || (by intros ? ? ? ?%elem_of_nil). }
  simpl in F1, F2, F3. rewrite E3 in F1. rewrite E4 in F2. rewrite E5 in F3.
  destruct (repost_recvs (Z.of_nat (length ws)) r1) as [c1 r2] eqn:Er2.
  assert (next_coro r2 = next_coro r1 /\ req_batch_arr r2 = req_batch_arr r1 /\ info r2 = info r1 /\
    recv_slack r2 = recv_slack r1 /\
    recvs_to_post r2 = (if recv_slack r <=? recvs_to_post r + Z.of_nat (length ws) then 0
                        else recvs_to_post r + Z.of_nat (length ws))) as (G1 & G2 & G3 & G4 & G5).
  { unfold repost_recvs in Er2. rewrite F1, F2 in Er2. case_in Er2; by injection Er2 as <- <-. }
  apply bind_ok in H as ([c2 r3] & Hs & H). apply bind_ok in H as (x & _ & H). injection H as <- <- <-.
  assert (next_coro r3 = next_coro r2 /\ req_batch_arr r3 = req_batch_arr r2 /\ recvs_to_post r3 = recvs_to_post r2 /\
    recv_slack r3 = recv_slack r2 /\ info r3 = info r2) as (K1 & K2 & K3 & K4 & K5).
  { case_in Hs; [by apply send_resps_inv in Hs|by injection Hs as <- <-]. }
  exists cs. simpl. rewrite K1, K2, K3, K4, K5, G1, G2, G3, G4, G5.
  assert (forall c, c ∈ rev (map coro_of (filter (fun w => resp_of w = true) ws)) ++ [] <->
    exists w, w ∈ ws /\ resp_of w = true /\ coro_of w = c) as Hseen.
  { intros c. rewrite app_nil_r, list_elem_of_In, <- in_rev, <- list_elem_of_In, list_elem_of_fmap.
    setoid_rewrite list_elem_of_filter. naive_solver. }
  split_and!; try done.
  - unfold ring. rewrite Ri5. apply path_snoc; try done. rewrite Ri1. constructor; [done|].
    eapply Forall_impl; [exact Ri4|]. simpl. lia.
  - by rewrite length_insert.
  - by apply NoDup_cons in Ri3 as [_ ?].
  - by apply NoDup_cons in Ri3 as [? _].
  - intros c Hcs. by apply Hseen, Ri6.
  - intros w0 b Hw0 Hr0 Hb Hd. eapply Ri8; [|apply Hseen; eauto|exact Hb|exact Hd].
    rewrite Forall_forall in Hw. destruct (Hw w0 Hw0 Hr0). lia.
Qed.


(** ** RECVs *)

(** The states of an endpoint with arguments [a]: construction, polls, and the
    operations of slave coroutines on their batches. *)
Inductive reach (a : rpc_args) : @rpc S -> Prop :=
| reach_make buf x y r : make a buf x y = Ok r -> reach a r
| reach_poll r ms ws s calls r' s' :
    reach a r -> Forall comp_wf ws -> poll_comps ms ws r s = Ok (calls, r', s') -> reach a r'
| reach_send r coro junk calls r' : reach a r -> send_reqs coro junk r = Ok (calls, r') -> reach a r'
| reach_clear r coro r' : reach a r -> clear_req_batch coro r = Ok r' -> reach a r'
| reach_start r coro ty mn ub l r' : reach a r -> rpc_start_new_req coro ty mn ub l r = Ok r' -> reach a r'
| reach_batch r coro b : reach a r -> reach a (with_batch coro b r)
| reach_register r ty f arg r' : reach a r -> register_rpc_handler ty f arg r = Ok r' -> reach a r'.

Definition recv_inv (a : rpc_args) r : Prop :=
  info r = a /\ length (next_coro r) = 32%nat /\ 0 <= recvs_to_post r < recv_slack r /\
  recv_slack r <= HRD_RQ_DEPTH - required_recvs a - 1.

Lemma make_recv_inv a buf x y r : make a buf x y = Ok r -> recv_inv a r.
Proof.
  unfold make. intros H. do 4 apply bind_ok in H as (? & _ & H).
  apply bind_ok in H as (step & _ & H). apply bind_ok in H as (slack & Hs & H).
  apply bind_ok in H as ([rb bs] & _ & H). apply bind_ok in H as (os & _ & H). injection H as <-.
  unfold init_recv_slack in Hs. apply assert_then in Hs as [Hle Hs]. injection Hs as <-.
  apply Z.leb_le in Hle. unfold recv_inv. cbn [info next_coro recvs_to_post recv_slack].
  split; [done|]. split; [done|]. unfold RPC_MIN_RECV_SLACK in *. case_match; bool_prop; lia.
Qed.

Lemma reach_recv_inv a r : reach a r -> recv_inv a r.
Proof.
  induction 1 as [buf x y r H|r ms ws s calls r' s' _ IH Hw H|r coro junk calls r' _ IH H|r coro r' _ IH H
    |r coro ty mn ub l r' _ IH H|r coro b _ IH|r ty f arg r' _ IH H].
  - by eapply make_recv_inv.
  - destruct IH as (E & Hl & Hb & Hs).
    destruct (poll_inv _ _ _ _ _ _ _ H Hl Hw) as (cs & _ & Hl' & _ & _ & _ & _ & E1 & E2 & E3).
    unfold recv_inv. rewrite E1, E2, E3. split_and!; try done.
    + case_match; lia.
    + destruct (Z.ltb_spec 0 (Z.of_nat (length ws))), (Z.leb_spec (recv_slack r) (recvs_to_post r + Z.of_nat (length ws)));
        simpl; lia.
  - unfold send_reqs in H. apply bind_ok in H as (b & _ & H). apply bind_ok in H as (m & _ & H).
    apply bind_ok in H as ([[c q] p] & _ & H). by injection H as <- <-.
  - unfold clear_req_batch in H. apply bind_ok in H as (b & _ & H). apply bind_ok in H as (m & _ & H). by injection H as <-.
  - unfold rpc_start_new_req in H. apply bind_ok in H as (b & _ & H). apply bind_ok in H as (m & _ & H). by injection H as <-.
  - done.
  - unfold register_rpc_handler in H. apply bind_ok in H as (u0 & _ & H). case_in H; [done|].
    apply bind_ok in H as (h & _ & H). apply bind_ok in H as (g & _ & H).
    destruct (_ || g); [done|]. by injection H as <-.
Qed.

End Ring.
End RpcRing.
