(* ===== verification/RpcSend.v ===== *)
(** * The RPC subsystem: the send queues

    Selective signalling: of the sends on a queue pair, one in [RPC_UNSIG_BATCH]
    asks for a completion, and the endpoint waits for that completion before it
    continues.  The bookkeeping below follows, for every queue pair, the posted
    sends that no awaited completion has confirmed. *)

From S2P Require Import Prelude Util Hots RpcDefs RpcBatch Rpc.
From Stdlib Require Import ZArith Lia Bool.
From stdpp Require Import base numbers list.
#[local] Open Scope Z_scope.
Import RpcDefs RpcBatch Rpc.

Module RpcSend.

(** ** Unconfirmed sends *)

(** Waiting for one completion confirms the sends up to the first signaled one;
    without a posted signaled send the wait would not end. *)
Fixpoint confirm (q : list bool) : option (list bool) :=
  match q with
  | [] => None
  | true :: q => Some q
  | false :: q => confirm q
  end.

(** [None]: a wait that does not end, or more unconfirmed sends than the queue has
    slots. *)
Definition exec (c : call) (q : list (list bool)) : option (list (list bool)) :=
  match c with
  | PostSend qp wrs =>
      l ← q !! Z.to_nat qp;
      let l := l ++ map wr_signaled wrs in
      if Z.of_nat (length l) <=? HRD_SQ_DEPTH then Some (<[Z.to_nat qp := l]> q) else None
  | PollSendCq qp => l ← q !! Z.to_nat qp; l ← confirm l; Some (<[Z.to_nat qp := l]> q)
  | PostRecvs _ => Some q
  end.

Fixpoint exec_all (cs : list call) (q : list (list bool)) : option (list (list bool)) :=
  match cs with
  | [] => Some q
  | c :: cs => q ← exec c q; exec_all cs q
  end.

(** The unconfirmed sends when [p] sends were assembled since the last signaled
    one; [m] are left from the batch before. *)
Definition shape (m p : nat) : list bool :=
  replicate m false ++ (match p with O => [] | S p => true :: replicate p false end).

Definition qp_ok (p : Z) (l : list bool) : Prop :=
  0 <= p < RPC_UNSIG_BATCH /\ exists m, (m <= 127)%nat /\ l = shape m (Z.to_nat p).

Lemma shape_length m p : length (shape m p) = (m + p)%nat.
Proof. unfold shape. rewrite length_app, length_replicate. destruct p; simpl; [|rewrite length_replicate]; lia. Qed.

Lemma shape_snoc m p : shape m p ++ [match p with O => true | _ => false end] = shape m (S p).
Proof.
  unfold shape. rewrite <- app_assoc. destruct p; [done|]. simpl.
  by rewrite <- replicate_cons_app.
Qed.

Lemma confirm_shape m p l k :
  shape m (S p) = l ++ k -> (length k <= p)%nat ->
  exists l', confirm l = Some l' /\ l' ++ k = replicate p false.
Proof.
  unfold shape. revert l. induction m as [|m IH]; intros l E Hk; simpl in E.
  - destruct l as [|x l]; simpl in E.
    + apply (f_equal length) in E. simpl in E. rewrite length_replicate in E. lia.
    + injection E as <- E. simpl. eauto.
  - destruct l as [|x l]; simpl in E.
    + apply (f_equal length) in E. simpl in E. rewrite length_app in E. simpl in E.
      rewrite !length_replicate in E. lia.
    + injection E as <- E. simpl. by apply IH.
Qed.

(** ** The send loop *)

(** Every queue pair is in order, the chain [wrs] of the active one included. *)
Record send_inv (a : rpc_args) (wrs : list send_wr) (qp : Z) (pending : list Z) (q : list (list bool)) : Prop := {
  si_qp : 0 <= qp < num_qps a;
  si_len : length pending = 3%nat /\ length q = 3%nat;
  si_chain : Z.of_nat (length wrs) < postlist a;
  si_ok : forall i p l, pending !! i = Some p -> q !! i = Some l ->
            qp_ok p (if decide (i = Z.to_nat qp) then l ++ map wr_signaled wrs else l)
}.

Definition args_ok (a : rpc_args) : Prop := 1 <= num_qps a <= RPC_MAX_QPS /\ 1 <= postlist a <= RPC_MAX_POSTLIST.

(** [set_flags] and the wait it may start. *)
Lemma set_flags_ok a wrs qp pending q sz :
  args_ok a -> send_inv a wrs qp pending q ->
  exists sg inl cs pending' q', set_flags qp sz pending = Ok (sg, inl, cs, pending') /\
    exec_all cs q = Some q' /\ length pending' = 3%nat /\ length q' = 3%nat /\
    forall i p l, pending' !! i = Some p -> q' !! i = Some l ->
      qp_ok p (if decide (i = Z.to_nat qp) then l ++ map wr_signaled wrs ++ [sg] else l).
Proof.
  intros [Hnq Hpl] [Hqp [Hlp Hlq] Hch Hok]. unfold RPC_MAX_QPS, RPC_MAX_POSTLIST in *.
  destruct (lookup_lt_is_Some_2 pending (Z.to_nat qp)) as [p Hp]; [lia|].
  destruct (lookup_lt_is_Some_2 q (Z.to_nat qp)) as [l Hl]; [lia|].
  pose proof (Hok _ _ _ Hp Hl) as (Hpb & m & Hm & Hs). rewrite decide_True in Hs by done.
  unfold set_flags. rewrite at_nonneg, Hp by lia. cbn [of_option mbind res_bind].
  unfold RPC_UNSIG_BATCH in *. destruct (Z.eqb_spec p (128 - 1)) as [->|Hne].
  - change (Z.to_nat (128 - 1)) with 127%nat in Hs.
    destruct (confirm_shape m 126 l (map wr_signaled wrs)) as (l' & Hc & Hl'); [done|rewrite length_map; lia|].
    do 4 eexists. exists (<[Z.to_nat qp := l']> q). split; [done|]. simpl. rewrite Hl. simpl. rewrite Hc. simpl.
    split; [done|]. rewrite !length_insert. split_and!; try done.
    intros i p' l0 Hi1 Hi2. destruct (decide (i = Z.to_nat qp)) as [->|Hi].
    + rewrite list_lookup_insert_eq in Hi1 by lia. rewrite list_lookup_insert_eq in Hi2 by lia. simplify_eq.
      split; [unfold RPC_UNSIG_BATCH; lia|]. exists 127%nat. split; [lia|].
      rewrite app_assoc, Hl'. simpl. unfold shape. by rewrite app_nil_r.
    + rewrite list_lookup_insert_ne in Hi1 by done. rewrite list_lookup_insert_ne in Hi2 by done. pose proof (Hok _ _ _ Hi1 Hi2) as H.
      by rewrite decide_False in H.
  - do 4 eexists. exists q. split; [done|]. split; [done|]. rewrite length_insert. split_and!; try done.
    intros i p' l0 Hi1 Hi2. destruct (decide (i = Z.to_nat qp)) as [->|Hi].
    + rewrite list_lookup_insert_eq in Hi1 by lia. simplify_eq.
      split; [unfold RPC_UNSIG_BATCH; lia|]. exists m. split; [lia|]. rewrite app_assoc, Hs.
      replace (Z.to_nat (p + 1)) with (S (Z.to_nat p)) by lia. rewrite <- shape_snoc. do 2 f_equal.
      destruct (Z.eqb_spec p 0) as [->|]; [done|]. destruct (Z.to_nat p) eqn:E; [lia|done].
    + rewrite list_lookup_insert_ne in Hi1 by done. pose proof (Hok _ _ _ Hi1 Hi2) as H.
      by rewrite decide_False in H.
Qed.

Lemma exec_all_app cs cs' q q' : exec_all cs q = Some q' -> exec_all (cs ++ cs') q = exec_all cs' q'.
Proof.
  revert q. induction cs as [|c cs IH]; intros q H; simpl in *; [by simplify_eq|].
  destruct (exec c q); [|done]. simpl in *. by apply IH.
Qed.

Lemma send_loop_ok a ms wrs qp pending q :
  args_ok a -> send_inv a wrs qp pending q -> Forall (fun m => 0 <= fst (fst m) < 126) ms ->
  (ms = [] -> wrs = []) ->
  exists cs qp' pending' q', send_loop a ms wrs qp pending = Ok (cs, qp', pending') /\
    exec_all cs q = Some q' /\ send_inv a [] qp' pending' q'.
Proof.
  intros Ha. revert wrs qp pending q. induction ms as [|[[mn imm] bs] ms IH]; intros wrs qp pending q Hi Hm Hnil.
  { rewrite Hnil in Hi by done. exists [], qp, pending, q. done. }
  apply Forall_cons in Hm as [Hmn Hm]. simpl in Hmn. cbn [send_loop].
  rewrite at_nonneg by lia. rewrite lookup_replicate_2 by (unfold HOTS_MAX_MACHINES; lia). cbn [of_option mbind res_bind].
  destruct (set_flags_ok a wrs qp pending q (Z.of_nat (length bs)) Ha Hi)
    as (sg & inl & c1 & pd & q1 & -> & Hx1 & Lp & Lq & Hok). cbn [mbind res_bind].
  destruct Hi as [Hqp _ Hch _]. destruct Ha as [Hnq Hpl]. unfold RPC_MAX_QPS, RPC_MAX_POSTLIST in *.
  set (wrs' := wrs ++ _). assert (map wr_signaled wrs' = map wr_signaled wrs ++ [sg]) as Es
    by (unfold wrs'; by rewrite map_app).
  assert (length wrs' = S (length wrs)) as El by (unfold wrs'; rewrite length_app; simpl; lia).
  destruct (_ || _) eqn:Epost.
  - destruct (lookup_lt_is_Some_2 q1 (Z.to_nat qp)) as [l Hl]; [lia|].
    destruct (lookup_lt_is_Some_2 pd (Z.to_nat qp)) as [p Hp]; [lia|].
    pose proof (Hok _ _ _ Hp Hl) as Hq. rewrite decide_True in Hq by done. rewrite <- Es in Hq.
    assert (exec (PostSend qp wrs') q1 = Some (<[Z.to_nat qp := l ++ map wr_signaled wrs']> q1)) as Hpost.
    { simpl. rewrite Hl. simpl. destruct Hq as (Hpb & m & Hm127 & ->). rewrite shape_length.
      unfold RPC_UNSIG_BATCH in Hpb. rewrite (proj2 (Z.leb_le _ _)) by (unfold HRD_SQ_DEPTH; lia). done. }
    destruct (IH [] (HRD_MOD_ADD qp (num_qps a)) pd (<[Z.to_nat qp := l ++ map wr_signaled wrs']> q1))
      as (cs & qp' & pd' & q' & -> & Hx & Hi'); try done.
    + constructor; try done.
      * unfold HRD_MOD_ADD. cbv zeta. destruct (Z.eqb_spec (qp + 1) (num_qps a)); lia.
      * by rewrite length_insert.
      * simpl. lia.
      * intros i pi li Hpi Hli. simpl. rewrite app_nil_r.
        replace (if decide (i = Z.to_nat (HRD_MOD_ADD qp (num_qps a))) then li else li) with li by by case_decide.
        destruct (decide (i = Z.to_nat qp)) as [->|Hne].
        -- rewrite list_lookup_insert_eq in Hli by lia. simplify_eq. done.
        -- rewrite list_lookup_insert_ne in Hli by done. pose proof (Hok _ _ _ Hpi Hli) as H.
           by rewrite decide_False in H.
    + cbn [mbind res_bind]. do 3 eexists. exists q'. split; [done|]. split; [|done].
      rewrite (exec_all_app _ _ _ _ Hx1). cbn [exec_all]. by rewrite Hpost.
  - apply orb_false_iff in Epost as [E1 E2]. apply Z.eqb_neq in E1.
    destruct (IH wrs' qp pd q1) as (cs & qp' & pd' & q' & -> & Hx & Hi'); try done.
    + constructor; try done; [lia|]. intros i pi li Hpi Hli. rewrite Es. by apply Hok.
    + by destruct ms.
    + cbn [mbind res_bind]. do 3 eexists. exists q'. split; [done|]. split; [|done].
      by rewrite (exec_all_app _ _ _ _ Hx1).
Qed.

Section Endpoint.
Context {S : Type}.

(** An endpoint between operations. *)
Definition sends_ok (r : @rpc S) (q : list (list bool)) : Prop := send_inv (info r) [] (active_qp r) (nb_pending r) q.

(** C39: sending never waits for a completion of a send that was not posted, never
    has more unconfirmed sends on a queue pair than the queue has slots, and
    returns: the chains are shorter than the signalling period. *)
Theorem send_queue_safe (r : @rpc S) ms q :
  args_ok (info r) -> sends_ok r q -> Forall (fun m => 0 <= fst (fst m) < 126) ms ->
  exists cs qp' pending' q',
    send_loop (info r) ms [] (active_qp r) (nb_pending r) = Ok (cs, qp', pending') /\
    exec_all cs q = Some q' /\ sends_ok (with_send qp' pending' r) q'.
Proof. intros Ha Hs Hm. by apply send_loop_ok. Qed.
End Endpoint.

Definition demo_args : rpc_args := mk_args 0 0 4 2 4 0 1 2 0 3 1024 2 0.
Definition demo_sends : list (Z * Z * list byte) := replicate 300 (1, 7, [1; 2; 3]).

Lemma send_queue_safe_witness :
  exists cs qp' pending' q', send_loop demo_args demo_sends [] 0 [0; 0; 0] = Ok (cs, qp', pending') /\
    exec_all cs [[]; []; []] = Some q'.
Proof.
  pose (r := mk_rpc (S := unit) demo_args [] [] [] (mk_rbatch 0 [] [] 0) [] 0 [] [] 0 [0; 0; 0] 32 0 0 0).
  destruct (send_queue_safe r demo_sends [[]; []; []]) as (cs & qp' & p' & q' & H1 & H2 & _).
  - split; split; vm_compute; discriminate.
  - constructor.
    + simpl. lia.
    + split; reflexivity.
    + reflexivity.
    + intros i p l Hp Hl. assert (p = 0 /\ l = []) as [-> ->].
      { destruct i as [|[|[|i]]]; simpl in *; try discriminate; split; congruence. }
      split; [vm_compute; split; [discriminate|reflexivity]|]. exists 0%nat. split; [lia|].
      destruct (decide _); reflexivity.
  - apply Forall_replicate. simpl. lia.
  - exists cs, qp', p', q'. split; [exact H1|exact H2].
Defined.

End RpcSend.
