(* ===== verification/RpcInit.v ===== *)
(** * The RPC subsystem: construction of an endpoint

    For which arguments the constructor succeeds, the layout of the message
    buffers in registered memory, the initial batches, and registration of
    handlers. *)

From S2P Require Import Prelude Util Hots RpcDefs RpcBatch Rpc.
From Stdlib Require Import ZArith Lia Bool.
From stdpp Require Import base numbers list.
#[local] Open Scope Z_scope.
Import RpcDefs RpcBatch Rpc.

Module RpcInit.

(** ** Layout *)

(** The region of a message buffer. *)
Definition region (c : cbuf) : Z * Z := (Mbuf.alloc_buf (mb c), Mbuf.alloc_len (mb c)).

Definition batch_regions (b : rpc_req_batch_t) : list (Z * Z) :=
  flat_map (fun c => [region (req_mbuf c); region (resp_mbuf c)]) (cmsg_arr b).

(** [n] regions of [pkt] bytes, every [step] bytes from [start]. *)
Fixpoint slots (n : nat) (start step pkt : Z) : list (Z * Z) :=
  match n with
  | O => []
  | S n => (start, pkt) :: slots n (start + step) step pkt
  end.

Lemma slots_app n k start step pkt :
  slots (n + k) start step pkt = slots n start step pkt ++ slots k (start + Z.of_nat n * step) step pkt.
Proof.
  revert start. induction n as [|n IH]; intros start; cbn [slots Nat.add].
  { by rewrite Z.mul_0_l, Z.add_0_r. }
  rewrite IH. cbn [app]. do 3 f_equal. lia.
Qed.

Lemma slots_lookup n start step pkt i x :
  slots n start step pkt !! i = Some x -> x = (start + Z.of_nat i * step, pkt) /\ (i < n)%nat.
Proof.
  revert start i. induction n as [|n IH]; intros start [|i] H; simpl in H; try done.
  - injection H as <-. split; [f_equal; lia|lia].
  - apply IH in H as [-> H]. split; [f_equal; lia|lia].
Qed.

(** A fresh buffer: empty, with [step] bytes of memory. *)
Definition fresh_cbuf (step : Z) (c : cbuf) : Prop := holds (Z.to_nat step) c [].

Section Layout.
Context (base step pkt : Z) (Hbase : 0 < base) (Hstep : 0 < step).

Lemma alloc_fresh off :
  0 <= off ->
  exists m, Mbuf.alloc_with_buf (base + off) pkt = Ok m /\
    region (mk_cbuf m (replicate (Z.to_nat step) 0)) = (base + off, pkt) /\
    fresh_cbuf step (mk_cbuf m (replicate (Z.to_nat step) 0)).
Proof.
  intros Ho. unfold Mbuf.alloc_with_buf. rewrite (proj2 (Z.eqb_neq _ _)) by lia. simpl.
  eexists. split; [done|]. split; [done|]. unfold fresh_cbuf, holds. simpl. rewrite length_replicate.
  split_and!; [done|lia|lia|done].
Qed.

Lemma init_resp_mbufs_ok n off :
  0 <= off -> off + Z.of_nat n * step <= RPC_MBUF_SPACE - step ->
  exists cs, init_resp_mbufs n base off step pkt = Ok (cs, off + Z.of_nat n * step) /\
    map (fun c => region (resp_mbuf c)) cs = slots n (base + off) step pkt /\
    Forall (fun c => fresh_cbuf step (resp_mbuf c)) cs.
Proof.
  revert off. induction n as [|n IH]; intros off H0 H1; cbn [init_resp_mbufs].
  { exists []. rewrite Z.mul_0_l, Z.add_0_r. done. }
  rewrite (proj2 (Z.ltb_lt _ _)) by lia. cbn [assert_ mbind res_bind].
  destruct (alloc_fresh off H0) as (m & -> & Hr & Hf). cbn [mbind res_bind].
  destruct (IH (off + step)) as (cs & -> & Hs & Hcs); [lia|lia|]. cbn [mbind res_bind].
  eexists. split; [do 2 f_equal; lia|]. split; [|by constructor].
  cbn [map slots resp_mbuf]. rewrite Hr, Hs. do 2 f_equal. lia.
Qed.

Lemma init_req_mbufs_ok n off :
  0 <= off -> off + Z.of_nat (2 * n) * step <= RPC_MBUF_SPACE - step ->
  exists cs, init_req_mbufs n base off step pkt = Ok (cs, off + Z.of_nat (2 * n) * step) /\
    flat_map (fun c => [region (req_mbuf c); region (resp_mbuf c)]) cs = slots (2 * n) (base + off) step pkt /\
    length cs = n /\
    Forall (fun c => remote_mn c = RPC_INVALID_MN /\ num_centry c = 0 /\ fresh_cbuf step (req_mbuf c)) cs.
Proof.
  revert off. induction n as [|n IH]; intros off H0 H1; cbn [init_req_mbufs].
  { exists []. rewrite Z.mul_0_l, Z.add_0_r. done. }
  rewrite (proj2 (Z.ltb_lt off _)) by lia. cbn [assert_ mbind res_bind].
  destruct (alloc_fresh off H0) as (m1 & -> & Hr1 & Hf1). cbn [mbind res_bind].
  rewrite (proj2 (Z.ltb_lt (off + step) _)) by lia. cbn [assert_ mbind res_bind].
  destruct (alloc_fresh (off + step)) as (m2 & -> & Hr2 & Hf2); [lia|]. cbn [mbind res_bind].
  destruct (IH (off + step + step)) as (cs & -> & Hs & Hl & Hcs); [lia|lia|]. cbn [mbind res_bind].
  eexists. split; [do 2 f_equal; lia|]. replace (2 * S n)%nat with (S (S (2 * n))) by lia.
  split; [|split; [simpl; lia|by constructor]].
  cbn [flat_map slots req_mbuf resp_mbuf app]. rewrite Hr1, Hr2, Hs.
  by rewrite !Z.add_assoc.
Qed.

Lemma init_batches_ok n off :
  0 <= off -> off + Z.of_nat (32 * n) * step <= RPC_MBUF_SPACE - step ->
  exists bs, init_batches n base off step pkt = Ok (bs, off + Z.of_nat (32 * n) * step) /\
    flat_map batch_regions bs = slots (32 * n) (base + off) step pkt /\ length bs = n /\
    Forall (fun b => batch_holds (Z.to_nat step) b []) bs.
Proof.
  revert off. induction n as [|n IH]; intros off H0 H1; cbn [init_batches].
  { exists []. rewrite Z.mul_0_l, Z.add_0_r. done. }
  change (Z.to_nat RPC_MAX_MSG_CORO) with 16%nat.
  destruct (init_req_mbufs_ok 16 off H0) as (cs & -> & Hs & Hl & Hcs); [lia|]. cbn [mbind res_bind].
  destruct (IH (off + Z.of_nat (2 * 16) * step)) as (bs & -> & Hb & Hbl & Hbs); [lia|lia|]. cbn [mbind res_bind].
  eexists. split; [do 2 f_equal; lia|]. split_and!.
  - cbn [flat_map]. unfold batch_regions at 1. cbn [empty_batch cmsg_arr]. rewrite Hs, Hb.
    replace (32 * S n)%nat with (2 * 16 + 32 * n)%nat by lia. rewrite slots_app. do 2 f_equal. lia.
  - simpl. lia.
  - constructor; [|done]. split_and!; [done|done|]. constructor;
      cbn [machines length empty_batch req_arr cmsg_arr cmsg_for_mc num_uniq_mn list_find]; try done.
    + intros mn Hmn. apply lookup_replicate_2. unfold HOTS_MAX_MACHINES. lia.
    + intros i Hi. destruct (lookup_lt_is_Some_2 cs i ltac:(lia)) as [c Hc].
      pose proof (Forall_lookup_1 _ _ _ _ Hcs Hc) as (E1 & E2 & E3). exists c. done.
Qed.
End Layout.

Lemma init_non_inline_ok n off step :
  0 < step -> 0 <= off -> off + Z.of_nat n * step <= RPC_NON_INLINE_SPACE - step ->
  exists bs, init_non_inline n off step = Ok bs /\ length bs = n.
Proof.
  intros Hs. revert off. induction n as [|n IH]; intros off H0 H1; cbn [init_non_inline]; [by exists []|].
  rewrite (proj2 (Z.ltb_lt _ _)) by lia. cbn [assert_ mbind res_bind].
  destruct (IH (off + step)) as (bs & -> & Hl); [lia|lia|]. eexists. split; [done|]. simpl. lia.
Qed.

(** ** Steps *)

Lemma mbuf_step_ok a :
  1 <= max_pkt_size a <= RPC_MAX_MAX_PKT_SIZE ->
  max_pkt_size a <= mbuf_step a <= RPC_MAX_MAX_PKT_SIZE /\ mbuf_step a mod 64 = 0.
Proof.
  unfold RPC_MAX_MAX_PKT_SIZE. intros H.
  assert (mbuf_step a = (max_pkt_size a + 63) / 64 * 64) as ->.
  { pose proof (roundup_div 6 (max_pkt_size a) ltac:(lia) ltac:(lia) ltac:(lia)) as E.
    change (2 ^ 6) with 64 in E. change (64 - 1) with 63 in E. rewrite <- E. done. }
  pose proof (Z.div_mod (max_pkt_size a + 63) 64 ltac:(lia)).
  pose proof (Z.mod_pos_bound (max_pkt_size a + 63) 64 ltac:(lia)).
  assert ((max_pkt_size a + 63) / 64 < 64) by (apply Z.div_lt_upper_bound; lia).
  split; [lia|]. by rewrite Z.mod_mul by lia.
Qed.

Lemma recv_step_loop_ok fuel k q bound :
  0 <= k <= q -> (q - 1) * 64 < bound <= q * 64 -> q - k <= Z.of_nat fuel ->
  recv_step_loop fuel (k * 64) bound = Ok (q * 64).
Proof.
  revert k. induction fuel as [|fuel IH]; intros k Hk Hq Hf.
  - assert (k = q) as -> by lia. simpl. by rewrite (proj2 (Z.ltb_ge _ _)) by lia.
  - cbn [recv_step_loop]. destruct (Z.ltb_spec (k * 64) bound).
    + replace (k * 64 + 64) with ((k + 1) * 64) by lia. apply IH; lia.
    + f_equal. nia.
Qed.

Lemma init_recv_step_eq a :
  1 <= max_pkt_size a <= RPC_MAX_MAX_PKT_SIZE ->
  init_recv_step a =
    if max_pkt_size a <=? 3992 then Ok ((max_pkt_size a + HOTS_GRH_BYTES + 63) / 64 * 64) else Err AssertFail.
Proof.
  unfold RPC_MAX_MAX_PKT_SIZE, init_recv_step, HOTS_GRH_BYTES. intros H.
  set (q := (max_pkt_size a + 40 + 63) / 64).
  pose proof (Z.div_mod (max_pkt_size a + 40 + 63) 64 ltac:(lia)) as Hd. fold q in Hd.
  pose proof (Z.mod_pos_bound (max_pkt_size a + 40 + 63) 64 ltac:(lia)).
  pose proof (recv_step_loop_ok 64 0 q (max_pkt_size a + 40) ltac:(lia) ltac:(lia) ltac:(lia)) as El.
  rewrite Z.mul_0_l in El. rewrite El. cbn [mbind res_bind].
  unfold RPC_MAX_MAX_PKT_SIZE.
  destruct (Z.leb_spec (max_pkt_size a) 3992).
  - rewrite (proj2 (Z.leb_le (q * 64) _)) by lia. done.
  - rewrite (proj2 (Z.leb_gt (q * 64) _)) by lia. done.
Qed.

(** ** The constructor *)

(** Arguments every check of the constructor accepts. *)
Definition valid_args (a : rpc_args) : Prop :=
  check_info a = Ok tt /\ max_pkt_size a <= 3992 /\ required_recvs a <= HRD_RQ_DEPTH - 1 - RPC_MIN_RECV_SLACK /\
  base_port_index a + Z.rem (wrkr_lid a) (num_ports a) < 2.

Lemma check_info_ok a :
  check_info a = Ok tt ->
  0 <= wrkr_lid a <= 56 /\ 2 <= num_coro a <= 32 /\ 1 <= num_ports a <= 2 /\ 1 <= num_qps a <= 3 /\
  1 <= postlist a <= 64 /\ 1 <= max_pkt_size a <= 4032.
Proof.
  unfold check_info, range_assert. intros H.
  do 10 (apply assert_then in H as [? H]). bool_prop.
  unfold HOTS_MAX_SERVER_THREADS, RPC_MAX_CORO, RPC_MAX_QPS, RPC_MAX_POSTLIST, RPC_MAX_MAX_PKT_SIZE in *. lia.
Qed.

Lemma init_recv_offsets_ok n i a step :
  0 <= step -> (Z.of_nat i + Z.of_nat n) * step + 24 + max_pkt_size a + 64 < RPC_RECV_BUF_SIZE + step ->
  exists os, init_recv_offsets n i a step = Ok os.
Proof.
  intros Hs. revert i. induction n as [|n IH]; intros i H; cbn [init_recv_offsets]; [by eauto|].
  rewrite (proj2 (Z.ltb_lt _ _)) by (unfold HOTS_GRH_BYTES; nia). cbn [assert_ mbind res_bind].
  destruct (IH (S i)) as [os ->]; [nia|]. by eexists.
Qed.

(** The number of RECVs, which is also the number of response buffers. *)
Definition depth : nat := Z.to_nat HRD_RQ_DEPTH.
Lemma depth_Z : Z.of_nat depth = 2048.
Proof. unfold depth. by rewrite Z2Nat.id. Qed.
Lemma depth_eq : Z.to_nat HRD_RQ_DEPTH = depth.
Proof. reflexivity. Qed.
#[global] Opaque depth.

Section Make.
Context {S : Type} (a : rpc_args) (dgram_buf stat0 stat1 : Z).
Context (Ha : valid_args a) (Hbuf : 0 < dgram_buf).

Let base := dgram_buf + RPC_RECV_BUF_SIZE.

Lemma init_coroutine_metadata_ok :
  exists rb bs, init_coroutine_metadata a dgram_buf = Ok (rb, bs) /\
    num_cresps rb = 0 /\ length (non_inline_bufs rb) = depth /\ length bs = Z.to_nat (num_coro a - 1) /\
    map (fun c => region (resp_mbuf c)) (r_cmsg_arr rb) ++ flat_map batch_regions bs =
      slots (depth + 32 * Z.to_nat (num_coro a - 1)) base (mbuf_step a) (max_pkt_size a) /\
    Forall (fun c => fresh_cbuf (mbuf_step a) (resp_mbuf c)) (r_cmsg_arr rb) /\
    Forall (fun b => batch_holds (Z.to_nat (mbuf_step a)) b []) bs.
Proof.
  destruct Ha as (Hci & Hpkt & _ & _). destruct (check_info_ok a Hci) as (_ & Hnc & _ & _ & _ & Hp).
  destruct (mbuf_step_ok a Hp) as [[Hs1 Hs2] Hs3]. unfold RPC_MAX_MAX_PKT_SIZE in Hs2.
  unfold init_coroutine_metadata. rewrite (proj2 (Z.leb_le _ _) Hs1), Hs3. change (assert_ (true && (0 =? 0))) with (Ok tt).
  rewrite bind_Ok.
  fold base. assert (0 < base) as Hb by (unfold base, RPC_RECV_BUF_SIZE; lia).
  rewrite depth_eq.
  destruct (init_resp_mbufs_ok base (mbuf_step a) (max_pkt_size a) Hb ltac:(lia) depth 0)
    as (rcs & -> & Hr1 & Hr2); [lia|rewrite depth_Z; unfold RPC_MBUF_SPACE; lia|]. rewrite bind_Ok. cbv beta iota.
  destruct (init_batches_ok base (mbuf_step a) (max_pkt_size a) Hb ltac:(lia) (Z.to_nat (num_coro a - 1))
    (0 + Z.of_nat depth * mbuf_step a)) as (bs & -> & Hb1 & Hb2 & Hb3);
    [rewrite depth_Z; lia|rewrite depth_Z; unfold RPC_MBUF_SPACE; nia|].
  rewrite bind_Ok. cbv beta iota.
  destruct (init_non_inline_ok depth 0 (mbuf_step a)) as (ni & -> & Hni);
    [lia|lia|rewrite depth_Z; unfold RPC_NON_INLINE_SPACE; lia|].
  rewrite bind_Ok. eexists _, _. split; [reflexivity|]. cbn [num_cresps non_inline_bufs r_cmsg_arr].
  split; [reflexivity|]. split; [exact Hni|]. split; [exact Hb2|]. split; [|split; [exact Hr2|exact Hb3]].
  rewrite Hr1, Hb1, slots_app. rewrite !Z.add_0_l, !Z.add_0_r. reflexivity.
Qed.

Lemma endpoint_make_ok :
  exists r : @rpc S, make a dgram_buf stat0 stat1 = Ok r /\ info r = a /\
    map (fun c => region (resp_mbuf c)) (r_cmsg_arr (resp_batch r)) ++
      flat_map batch_regions (req_batch_arr r) =
      slots (depth + 32 * Z.to_nat (num_coro a - 1)) base (mbuf_step a) (max_pkt_size a) /\
    (forall i, (1 <= i < Z.to_nat (num_coro a))%nat ->
       exists b, req_batch_arr r !! i = Some b /\ batch_holds (Z.to_nat (mbuf_step a)) b []) /\
    num_cresps (resp_batch r) = 0 /\
    Forall (fun c => fresh_cbuf (mbuf_step a) (resp_mbuf c)) (r_cmsg_arr (resp_batch r)).
Proof.
  destruct init_coroutine_metadata_ok as (rb & bs & Hm & Hn0 & _ & Hbl & Hreg & Hfr & Hbs).
  destruct Ha as (Hci & Hpkt & Hrr & Hport).
  destruct (check_info_ok a Hci) as (Hlid & Hnc & Hnp & _ & _ & Hp).
  unfold make. rewrite Hci, bind_Ok. rewrite (proj2 (Z.eqb_neq (num_ports a) 0)) by lia. rewrite bind_Ok.
  rewrite (proj2 (Z.ltb_lt _ _) Hport). change (assert_ true) with (Ok tt). rewrite bind_Ok.
  rewrite (proj2 (Z.ltb_lt _ _)) by lia. change (assert_ true) with (Ok tt). rewrite bind_Ok.
  rewrite init_recv_step_eq, (proj2 (Z.leb_le _ _) Hpkt) by done. rewrite bind_Ok.
  set (step := (max_pkt_size a + HOTS_GRH_BYTES + 63) / 64 * 64).
  unfold init_recv_slack. rewrite (proj2 (Z.leb_le RPC_MIN_RECV_SLACK _)) by lia.
  change (assert_ (RPC_MIN_RECV_SLACK <=? RPC_MIN_RECV_SLACK)) with (Ok tt). rewrite !bind_Ok.
  rewrite Hm, bind_Ok. unfold init_recv_wrs.
  assert (0 < step <= 4032 /\ step mod 64 = 0) as [Hst Hst2].
  { unfold step, HOTS_GRH_BYTES. pose proof (Z.div_mod (max_pkt_size a + 40 + 63) 64 ltac:(lia)).
    pose proof (Z.mod_pos_bound (max_pkt_size a + 40 + 63) 64 ltac:(lia)). rewrite Z.mod_mul by lia.
    split; [|done]. split; [nia|]. assert ((max_pkt_size a + 40 + 63) / 64 < 64) by (apply Z.div_lt_upper_bound; lia). lia. }
  rewrite (proj2 (Z.ltb_lt 0 step)), Hst2 by lia. change (assert_ (true && (0 =? 0))) with (Ok tt). rewrite bind_Ok.
  rewrite (proj2 (Z.leb_le _ _)) by (unfold HRD_RQ_DEPTH, RPC_RECV_BUF_SIZE; nia).
  change (assert_ true) with (Ok tt). rewrite bind_Ok.
  rewrite depth_eq. destruct (init_recv_offsets_ok depth 0 a step) as [os ->];
    [lia|rewrite depth_Z; unfold RPC_RECV_BUF_SIZE; lia|]. rewrite bind_Ok.
  eexists. split; [reflexivity|]. cbn [info resp_batch r_cmsg_arr req_batch_arr]. split; [reflexivity|].
  split; [|split; [|split; [exact Hn0|exact Hfr]]].
  - rewrite <- Hreg. f_equal. cbn [flat_map]. change (batch_regions (empty_batch [])) with (@nil (Z * Z)). cbn [app].
    rewrite flat_map_app. rewrite <- (app_nil_r (flat_map batch_regions bs)) at 2. f_equal.
    generalize (Z.to_nat (RPC_MAX_CORO - num_coro a)). intros k. by induction k.
  - intros i Hi. destruct (lookup_lt_is_Some_2 bs (i - 1)%nat ltac:(lia)) as [b Hb]. exists b.
    split; [|exact (Forall_lookup_1 _ _ _ _ Hbs Hb)]. destruct i as [|i]; [lia|]. simpl.
    rewrite lookup_app_l by (apply lookup_lt_Some in Hb; lia). by replace (Datatypes.S i - 1)%nat with i in Hb by lia.
Qed.
End Make.

(** All the message buffers of an endpoint. *)
Definition all_regions {S} (r : @rpc S) : list (Z * Z) :=
  map (fun c => region (resp_mbuf c)) (r_cmsg_arr (resp_batch r)) ++ flat_map batch_regions (req_batch_arr r).


Definition demo_args : rpc_args := mk_args 3 1 8 2 8 0 1 3 0 16 2048 4 1.


(** The check of the arguments admits packet sizes up to
    [RPC_MAX_MAX_PKT_SIZE], but with the GRH and the rounding of the RECV buffers
    the constructor fails for every packet size above 3992 bytes. *)
Theorem large_packets_rejected {S} a dgram_buf stat0 stat1 :
  3992 < max_pkt_size a <= RPC_MAX_MAX_PKT_SIZE -> is_ok (@make S a dgram_buf stat0 stat1) = false.
Proof.
  intros Hp. destruct (make a dgram_buf stat0 stat1) as [r|] eqn:E; [|done]. exfalso. unfold make in E.
  do 4 apply bind_ok in E as (? & _ & E). apply bind_ok in E as (st & Hs & _).
  rewrite init_recv_step_eq, (proj2 (Z.leb_gt _ _)) in Hs by lia. done.
Qed.

Lemma large_packets_rejected_witness :
  check_info (mk_args 3 1 8 2 8 0 1 3 0 16 4000 4 1) = Ok tt /\
  is_ok (@make unit (mk_args 3 1 8 2 8 0 1 3 0 16 4000 4 1) 4096 0 0) = false.
Proof.
  split; [reflexivity|].
  apply (large_packets_rejected (S := unit) (mk_args 3 1 8 2 8 0 1 3 0 16 4000 4 1) 4096 0 0).
  split; [reflexivity|vm_compute; discriminate].
Defined.

(** Registering a handler twice for a type, or for a type outside the valid
    range, ends the process; the largest type that passes the check is outside
    the handler arrays. *)
Theorem register_bounds {S} (r : @rpc S) ty f arg :
  length (rpc_handler r) = Z.to_nat RPC_MAX_REQ_TYPE -> length (rpc_handler_arg r) = Z.to_nat RPC_MAX_REQ_TYPE ->
  match register_rpc_handler ty (Some f) arg r with
  | Ok r' => 0 <= ty < RPC_MAX_REQ_TYPE /\ rpc_handler r !! Z.to_nat ty = Some None /\
      rpc_handler r' !! Z.to_nat ty = Some (Some f) /\
      (forall ty', ty' <> Z.to_nat ty -> rpc_handler r' !! ty' = rpc_handler r !! ty')
  | Err e => (e = OutOfBounds /\ ty = RPC_MAX_REQ_TYPE) \/
      (e = ExitFail /\ (RPC_IS_VALID_TYPE ty = false \/
         is_Some (mjoin (rpc_handler r !! Z.to_nat ty)) \/ rpc_handler_arg r !! Z.to_nat ty = Some true))
  end.
Proof.
  intros L1 L2. unfold register_rpc_handler. cbn [assert_ mbind res_bind].
  destruct (RPC_IS_VALID_TYPE ty) eqn:Ev; cbn [negb]; [|right; split; [done|by left]].
  unfold RPC_IS_VALID_TYPE in Ev. apply andb_true_iff in Ev as [H1 H2]. apply Z.leb_le in H1, H2.
  unfold RPC_MIN_REQ_TYPE, RPC_MAX_REQ_TYPE in *. rewrite !at_nonneg by lia.
  destruct (rpc_handler r !! Z.to_nat ty) as [h|] eqn:Eh; cbn [of_option mbind res_bind].
  2:{ left. split; [done|]. apply lookup_ge_None in Eh. lia. }
  pose proof (lookup_lt_Some _ _ _ Eh) as Hlt.
  destruct (lookup_lt_is_Some_2 (rpc_handler_arg r) (Z.to_nat ty)) as [g Eg]; [lia|].
  rewrite Eg. cbn [of_option mbind res_bind]. destruct h as [h|]; simpl.
  - right. split; [done|]. right. left. by eexists.
  - destruct g; [right; split; [done|by right; right]|]. split_and!; try done; [lia|by apply list_lookup_insert_eq|].
    intros ty' Hne. by apply list_lookup_insert_ne.
Qed.

Definition demo_handler : @handler unit := fun m _ _ s => Ok (m, 0, 0, s).

Definition demo_endpoint : @rpc unit :=
  mk_rpc demo_args (replicate 255 None) (replicate 255 false) [] (mk_rbatch 0 [] [] 0) [] 0 [] [] 0 [0; 0; 0] 32 0 0 0.

Lemma register_bounds_witness :
  register_rpc_handler 255 (Some demo_handler) true demo_endpoint = Err OutOfBounds.
Proof.
  pose proof (register_bounds demo_endpoint 255 demo_handler true eq_refl eq_refl) as H.
  destruct (register_rpc_handler 255 (Some demo_handler) true demo_endpoint) as [r'|e].
  - exfalso. destruct H as [[_ H] _]. vm_compute in H. discriminate.
  - destruct H as [[-> _]|[_ [H|[[x H]|H]]]]; [reflexivity|vm_compute in H; discriminate..].
Defined.

End RpcInit.
