(* ===== verification/RpcDemo.v ===== *)
(** * The RPC subsystem: examples

    A small batch and an echo service, on which the theorems of the RPC files are
    applied. *)

From S2P Require Import Prelude Util Hots RpcDefs RpcBatch Rpc RpcProps RpcRing RpcInit.
From Stdlib Require Import ZArith Lia Bool.
From stdpp Require Import base numbers list.
#[local] Open Scope Z_scope.
Import RpcDefs RpcBatch Rpc RpcProps RpcRing RpcInit.

Module RpcDemo.

(** ** An echo service *)

Definition echo_spec (ty : Z) (p : list byte) (s : Z) : option (Z * list byte * Z) :=
  if (ty =? 20) && (length p <=? 8)%nat then Some (7, p, s + 1) else None.

Definition echo_handler : @handler Z := fun rmem req len s =>
  rmem ← write_at 0 (take (Z.to_nat len) req) rmem; Ok (rmem, 7, len, s + 1).

Definition echo_handlers : list (option (@handler Z)) := replicate 255 (Some echo_handler).

#[global] Instance echo_implements : Implements echo_handlers echo_spec 8.
Proof.
  constructor; [split; [lia|done]|]. intros ty p s rty rb s' H. unfold echo_spec in H.
  destruct (Z.eqb_spec ty 20) as [->|]; [|done]. destruct (Nat.leb_spec (length p) 8); [|done].
  simpl in H. injection H as <- <- <-. split; [split; done|]. split; [lia|].
  exists echo_handler. split; [done|]. intros rmem extra Hl. unfold echo_handler.
  rewrite Nat2Z.id, take_app_length.
  destruct (write_at_some 0 p rmem) as (out & Hw & Lo); [lia|]. rewrite Hw. exists out. split; [done|].
  split; [done|]. by apply (write_at_take _ _ _ _ _ Hw).
Qed.

(** ** Example data *)

Definition demo_reqs : list (ureq * list byte) :=
  [(mk_ureq 1 20 [1; 2; 3; 4], replicate 16 0); (mk_ureq 0 20 [5; 6], replicate 16 0);
   (mk_ureq 1 20 [7; 8; 9; 10; 11; 12; 13; 14], replicate 16 0)].

Definition demo_entries : list (Z * Z * list byte) := entries_for 1 0 (map fst demo_reqs).
Definition demo_answers : list (Z * Z * list byte) := [(0, 7, [1; 2; 3; 4]); (2, 7, [7; 8; 9; 10; 11; 12; 13; 14])].

(** A batch with buffers of 64 bytes. *)
Lemma demo_batch : exists b, batch_holds 64 b [].
Proof.
  destruct (init_batches_ok 4096 64 64 ltac:(lia) ltac:(lia) 1 0) as (bs & _ & _ & Hl & Hb);
    [lia|vm_compute; discriminate|].
  destruct bs as [|b bs]; [done|]. apply Forall_cons in Hb as [Hb _]. by exists b.
Qed.

Lemma coalesce_correct_witness :
  exists b b', batch_holds 64 b [] /\ issue_all demo_reqs b = Ok b' /\
    req_msgs demo_args 5 0 (Z.to_nat (num_uniq_mn b')) 0 b' =
      Ok [wire_msg demo_args 5 0 (map fst demo_reqs) 1; wire_msg demo_args 5 0 (map fst demo_reqs) 0].
Proof.
  destruct demo_batch as [b Hb]. destruct (coalesce_correct 64 b demo_reqs demo_args 5 0) as (b' & H1 & H2 & _).
  - exact Hb.
  - reflexivity.
  - split; [vm_compute; lia|]. split.
    + repeat constructor; vm_compute; discriminate.
    + intros mn. unfold demo_reqs. cbn [map fst entries_for u_mn]. destruct (1 =? mn), (0 =? mn); vm_compute; lia.
  - exists b, b'. split; [exact Hb|]. split; [exact H1|exact H2].
Defined.

(** An endpoint with the echo service and one response buffer. *)
Definition demo_cmsg : rpc_cmsg_t :=
  mk_cmsg (-1) 0 0 (mk_cbuf (Mbuf.mk 0 0 0) []) (mk_cbuf (Mbuf.mk 4096 64 4096) (replicate 64 0)).

Definition demo_req (n : nat) : rpc_req_t := mk_rreq 0 0 0 0 (replicate n 0) 0 0 0.

(** Coroutine 1 waits for two of three responses. *)
Definition demo_slave : rpc_req_batch_t :=
  mk_batch [demo_req 16; demo_req 16; demo_req 16] 3 1 0 [] [].

Definition demo_rpc : @rpc Z :=
  mk_rpc demo_args echo_handlers (replicate 255 true) [demo_slave; demo_slave] (mk_rbatch 0 [demo_cmsg] [] 0)
    (replicate 32 0) 0 (replicate 32 0) (replicate 32 0) 0 [0; 0; 0] 32 0 0 0.

Definition demo_req_imm : rpc_imm := mk_imm 1 2 0 3 1 0.
Definition demo_resp_imm : rpc_imm := mk_imm 0 2 0 1 1 0.

Lemma request_served_witness :
  exists r' c', handle_comp (mk_wc (imm_word demo_req_imm) (msg_bytes demo_entries ++ [0; 0; 0; 0]) 60) 0 demo_rpc 10 =
      Ok (0, r', 12) /\
    r_cmsg_arr (resp_batch r') !! 0%nat = Some c' /\ sent_bytes (resp_mbuf c') = Ok (msg_bytes demo_answers).
Proof.
  destruct (request_served echo_spec 8 demo_rpc 10 12 demo_entries demo_answers demo_req_imm [0; 0; 0; 0] 64 0 demo_cmsg 0 60)
    as (r' & c' & H1 & H2 & _ & _ & H3 & _).
  - exact echo_implements.
  - reflexivity.
  - vm_compute. repeat constructor; discriminate.
  - simpl. lia.
  - vm_compute. repeat constructor; discriminate.
  - reflexivity.
  - reflexivity.
  - reflexivity.
  - reflexivity.
  - vm_compute. repeat constructor.
  - vm_compute. lia.
  - reflexivity.
  - exists r', c'. split; [exact H1|]. split; [exact H2|exact H3].
Defined.

Lemma response_delivered_witness :
  exists cur' r' b', handle_comp (mk_wc (imm_word demo_resp_imm) (msg_bytes demo_answers) 60) 0 demo_rpc 10 =
      Ok (cur', r', 10) /\ req_batch_arr r' !! 1%nat = Some b' /\
    exists q, req_arr b' !! 2%nat = Some q /\ take 8 (resp_buf q) = [7; 8; 9; 10; 11; 12; 13; 14].
Proof.
  destruct (response_delivered demo_rpc 10 demo_answers demo_resp_imm [] demo_slave 1 0 0 60)
    as (cur' & r' & b' & H1 & H2 & _ & H3 & _).
  - vm_compute. repeat constructor; discriminate.
  - unfold demo_answers. constructor; [|constructor; [|constructor]]; eexists;
      (split; [reflexivity|]); simpl; lia.
  - simpl. constructor; [|constructor; [|constructor]].
    + intros Hin. apply list_elem_of_singleton in Hin. discriminate.
    + intros Hin. apply elem_of_nil in Hin. exact Hin.
  - vm_compute. repeat constructor; discriminate.
  - reflexivity.
  - reflexivity.
  - reflexivity.
  - reflexivity.
  - reflexivity.
  - simpl. lia.
  - exists cur', r', b'. split; [rewrite app_nil_r in H1; exact H1|]. split; [rewrite H2; reflexivity|].
    destruct (H3 2 7 [7; 8; 9; 10; 11; 12; 13; 14]) as (q & q' & _ & Hq & _ & _ & Ht & _).
    + right. left.
    + exists q'. split; [exact Hq|exact Ht].
Defined.



End RpcDemo.
