(* ===== verification/Logger.v ===== *)
(** * The logger ([src/logger/logger.h])

    Every worker keeps one log record per coroutine of the cluster in a flat
    memory area; the RPC handler copies a request into the record of the
    coordinator that the request names. *)

From S2P Require Import Prelude Util Hots RpcDefs.
From Stdlib Require Import ZArith Lia Bool.
From stdpp Require Import base numbers list.
#[local] Open Scope Z_scope.

Module Logger.

Definition log_magic : Z := 17.

(** ** Log records *)

Record log_hdr := mk_lhdr { mchn_id : Z; coro_id : Z; magic : Z; debug_size : Z; num_keys : Z }.

Definition log_widths : list Z := [HOTS_MCHN_ID_BITS; HOTS_CORO_ID_BITS; 5; 13].

(** The bit-fields occupy a 32-bit word (two bits are padding), [num_keys] the
    next one. *)
Definition log_word (h : log_hdr) : Z :=
  pack [(HOTS_MCHN_ID_BITS, mchn_id h); (HOTS_CORO_ID_BITS, coro_id h); (5, magic h); (13, debug_size h)].

Definition lhdr_bytes (h : log_hdr) : list byte := le_bytes 4 (log_word h) ++ le_bytes 4 (num_keys h).

Definition word_lhdr (w n : Z) : log_hdr :=
  match unpack log_widths w with
  | [m; c; g; d] => mk_lhdr m c g d n
  | _ => mk_lhdr 0 0 0 0 n
  end.

Definition read_lhdr (rec : list byte) : res log_hdr :=
  w ← read_at 0 4 rec;
  n ← read_at 4 4 rec;
  Ok (word_lhdr (le_val w) (le_val n)).

Definition lhdr_wf (h : log_hdr) : Prop :=
  u HOTS_MCHN_ID_BITS (mchn_id h) /\ u HOTS_CORO_ID_BITS (coro_id h) /\ u 5 (magic h) /\
  u 13 (debug_size h) /\ u 32 (num_keys h).

Definition sizeof_log_record_t : Z := RpcDefs.RPC_MAX_MAX_PKT_SIZE + 8.

Inductive logger_resptype_t : Type := success.
Definition resptype_code (r : logger_resptype_t) : Z := match r with success => 3 end.

(** ** The class *)

Record t := mk {
  wrkr_gid : Z; wrkr_lid : Z; num_machines : Z; num_coro : Z;
  log : list byte
}.

(** The size is passed as an [int]; [hrd_malloc_socket] returns zeroed memory of
    that size. *)
Definition make (hrd_malloc_socket : Z -> Z) (wrkr_gid wrkr_lid num_machines num_coro : Z) : res t :=
  reqd_records ← chk_int (num_machines * num_coro);
  reqd_size ← pad (wrap 64 (wrap 64 reqd_records * sizeof_log_record_t));
  _ ← assert_ (negb (hrd_malloc_socket reqd_size =? 0));
  Ok (mk wrkr_gid wrkr_lid num_machines num_coro (replicate (Z.to_nat reqd_size) 0)).

(** The index and the offset of a coordinator's record. *)
Definition record_idx (s : t) (mchn coro : Z) : res Z :=
  x ← chk_int (mchn * num_coro s); chk_int (x + coro).

Definition get_log_record (s : t) (mchn coro : Z) : res Z :=
  i ← record_idx s mchn coro; Ok (i * sizeof_log_record_t).

(** [log_record] is the memory the record is in. *)
Definition save_log_record (log_record : list byte) (record_size : Z) (s : t) : res t :=
  h ← read_lhdr log_record;
  i ← record_idx s (mchn_id h) (coro_id h);
  bs ← read_at 0 (Z.to_nat record_size) log_record;
  l ← write_at (Z.to_nat (i * sizeof_log_record_t)) bs (log s);
  Ok (mk (wrkr_gid s) (wrkr_lid s) (num_machines s) (num_coro s) l).

(** The response type, the length of the response, and the logger. *)
Definition logger_rpc_handler (req_buf : list byte) (req_len : Z) (s : t) : res (Z * Z * t) :=
  s ← save_log_record req_buf req_len s;
  Ok (resptype_code success, 0, s).

(** The bytes of a coordinator's record. *)
Definition record_at (s : t) (mchn coro : Z) (n : nat) : res (list byte) :=
  off ← get_log_record s mchn coro; read_at (Z.to_nat off) n (log s).

(** ** Invariant *)

Record wf (s : t) : Prop := {
  wf_machines : 0 <= num_machines s <= HOTS_MAX_MACHINES;
  wf_coro : 0 <= num_coro s <= RpcDefs.RPC_MAX_CORO;
  wf_log : num_machines s * num_coro s * sizeof_log_record_t <= Z.of_nat (length (log s))
}.

(** A coordinator of the cluster the logger was made for. *)
Definition coordinator (s : t) (mchn coro : Z) : Prop :=
  0 <= mchn < num_machines s /\ 1 <= coro < num_coro s.

(** A record as [Tx::log] sends it: a header and a payload that fit a record. *)
Definition record_wf (s : t) (rec : list byte) (h : log_hdr) : Prop :=
  read_lhdr rec = Ok h /\ coordinator s (mchn_id h) (coro_id h) /\
  Z.of_nat (length rec) <= sizeof_log_record_t.

(** ** Lemmas *)

Lemma read_lhdr_bytes h rest : lhdr_wf h -> read_lhdr (lhdr_bytes h ++ rest) = Ok h.
Proof.
  intros (H1 & H2 & H3 & H4 & H5). unfold lhdr_bytes, read_lhdr. pose proof (length_le_bytes 4).
  rewrite !read_at_ok by (rewrite !length_app, !H; lia). cbn [mbind res_bind].
  rewrite <- !app_assoc, drop_0, take_app_length' by done.
  rewrite drop_app_length', take_app_length' by done.
  rewrite (le_val_bytes 4 (num_keys h)) by done.
  assert (u 32 (log_word h)) as Hw.
  { apply (u_mono 30); [lia|]. unfold log_word.
    pose proof (pack_u [(HOTS_MCHN_ID_BITS, mchn_id h); (HOTS_CORO_ID_BITS, coro_id h); (5, magic h); (13, debug_size h)]) as Hp.
    apply Hp. by repeat constructor. }
  rewrite (le_val_bytes 4) by done. unfold word_lhdr, log_word.
  pose proof (unpack_pack [(HOTS_MCHN_ID_BITS, mchn_id h); (HOTS_CORO_ID_BITS, coro_id h); (5, magic h); (13, debug_size h)]
    ltac:(fields)) as Hu.
  change (map fst _) with log_widths in Hu. rewrite Hu. by destruct h.
Qed.

Lemma record_idx_ok s mchn coro :
  wf s -> coordinator s mchn coro ->
  record_idx s mchn coro = Ok (mchn * num_coro s + coro) /\
  0 <= mchn * num_coro s + coro < num_machines s * num_coro s.
Proof.
  intros [Hm Hc _] [H1 H2]. unfold record_idx.
  change HOTS_MAX_MACHINES with 126 in Hm. change RpcDefs.RPC_MAX_CORO with 32 in Hc.
  assert (chk_int (mchn * num_coro s) = Ok (mchn * num_coro s)) as -> by (apply chk_int_ok; nia).
  cbn [mbind res_bind]. split; [apply chk_int_ok; split; [done|nia]|nia].
Qed.

(** Records of different coordinators have different indices. *)
Lemma record_idx_inj s m1 c1 m2 c2 :
  coordinator s m1 c1 -> coordinator s m2 c2 ->
  m1 * num_coro s + c1 = m2 * num_coro s + c2 -> m1 = m2 /\ c1 = c2.
Proof. unfold coordinator. intros. assert (m1 = m2) by nia. nia. Qed.

Lemma save_ok s rec h :
  wf s -> record_wf s rec h ->
  exists s', save_log_record rec (Z.of_nat (length rec)) s = Ok s' /\ wf s' /\
    num_coro s' = num_coro s /\ num_machines s' = num_machines s /\
    record_at s' (mchn_id h) (coro_id h) (length rec) = Ok rec /\
    forall m c n, coordinator s m c -> Z.of_nat n <= sizeof_log_record_t ->
      (m, c) <> (mchn_id h, coro_id h) -> record_at s' m c n = record_at s m c n.
Proof.
  intros Hwf (Hh & Hco & Hlen). destruct (record_idx_ok s _ _ Hwf Hco) as [Hi Hb].
  assert (0 < sizeof_log_record_t) as Hsz by done. destruct Hwf as [Hm Hc Hl].
  set (i := mchn_id h * num_coro s + coro_id h) in *.
  destruct (write_at_some (Z.to_nat (i * sizeof_log_record_t)) rec (log s)) as (l & Hw & Hll); [nia|].
  unfold save_log_record. rewrite Hh, bind_Ok, Hi, bind_Ok, Nat2Z.id.
  rewrite read_at_ok, drop_0, firstn_all, bind_Ok, Hw, bind_Ok by lia.
  eexists. split; [done|]. split; [by constructor; cbn [log num_machines num_coro]; rewrite ?Hll|].
  split_and!; try done.
  - unfold record_at, get_log_record. change (record_idx _ (mchn_id h) (coro_id h)) with (record_idx s (mchn_id h) (coro_id h)).
    rewrite Hi, !bind_Ok. by apply read_write_at in Hw.
  - intros m c n Hmc Hn Hne.
    destruct (record_idx_ok s m c ltac:(by constructor) Hmc) as [Hi' Hb'].
    unfold record_at, get_log_record. change (record_idx _ m c) with (record_idx s m c) at 1.
    rewrite Hi', !bind_Ok. cbn [log]. apply (read_write_at_ne _ _ _ _ _ _ Hw).
    assert (m * num_coro s + c <> i) as Hd.
    { intros E. by destruct (record_idx_inj s m c (mchn_id h) (coro_id h) Hmc Hco E) as [-> ->]. }
    destruct (Z.lt_ge_cases (m * num_coro s + c) i); [left|right]; nia.
Qed.

(** ** Sequences of requests *)

Fixpoint save_all (recs : list (list byte)) (s : t) : res t :=
  match recs with
  | [] => Ok s
  | r :: rs => '(_, _, s) ← logger_rpc_handler r (Z.of_nat (length r)) s; save_all rs s
  end.

(** The last record that coordinator ([mchn], [coro]) sent. *)
Fixpoint last_sent (recs : list (list byte)) (mchn coro : Z) : option (list byte) :=
  match recs with
  | [] => None
  | r :: rs =>
      match last_sent rs mchn coro with
      | Some x => Some x
      | None =>
          match read_lhdr r with
          | Ok h => if decide ((mchn_id h, coro_id h) = (mchn, coro)) then Some r else None
          | Err _ => None
          end
      end
  end.

Lemma coordinator_ext s s' m c :
  num_coro s' = num_coro s -> num_machines s' = num_machines s -> coordinator s m c -> coordinator s' m c.
Proof. unfold coordinator. by intros -> ->. Qed.

Lemma last_sent_length recs s mchn coro r :
  Forall (fun r => exists h, record_wf s r h) recs -> last_sent recs mchn coro = Some r ->
  Z.of_nat (length r) <= sizeof_log_record_t.
Proof.
  induction 1 as [|x xs (h & Hh & _ & Hl) _ IH]; [done|]. simpl.
  destruct (last_sent xs mchn coro); [intros [= ->]; by apply IH|]. rewrite Hh.
  case_match; [by intros [= <-]|done].
Qed.

Lemma save_all_ok recs s :
  wf s -> Forall (fun r => exists h, record_wf s r h) recs ->
  exists s', save_all recs s = Ok s' /\ wf s' /\
    forall m c, coordinator s m c ->
      (forall r, last_sent recs m c = Some r -> record_at s' m c (length r) = Ok r) /\
      (last_sent recs m c = None -> forall n, Z.of_nat n <= sizeof_log_record_t ->
         record_at s' m c n = record_at s m c n).
Proof.
  intros Hwf Hrecs. revert s Hwf Hrecs. induction recs as [|r rs IH]; intros s Hwf Hrecs.
  { exists s. split_and!; try done. }
  apply Forall_cons in Hrecs as [(h & Hr) Hrs].
  destruct (save_ok s r h Hwf Hr) as (s1 & Hs & Hwf1 & Ec & Em & Hat & Hne).
  destruct (IH s1 Hwf1) as (s' & Hs' & Hwf' & Hall).
  { eapply Forall_impl; [exact Hrs|]. intros x (hx & H1 & H2 & H3). exists hx.
    split_and!; try done. by eapply coordinator_ext. }
  exists s'. cbn [save_all]. unfold logger_rpc_handler. rewrite Hs, !bind_Ok. cbv beta iota.
  split; [done|]. split; [done|]. intros m c Hmc.
  destruct (Hall m c) as [Hl Hn]; [by eapply coordinator_ext|]. simpl.
  destruct (last_sent rs m c) as [x|] eqn:Els.
  { split; [intros ? [= <-]; by apply Hl|done]. }
  destruct Hr as (Hh & Hco & Hlen). rewrite Hh. case_decide as E.
  - split; [|done]. intros ? [= <-]. rewrite Hn by done. injection E as <- <-. done.
  - split; [done|]. intros _ n Hlt. rewrite Hn by done. apply Hne; [done|done|congruence].
Qed.

(** ** Theorems *)

(** C20: a logger that has received any sequence of log requests from coordinators
    of its cluster holds, for every coordinator, the last record that
    coordinator sent, and the initial contents where it sent none; no request
    fails. *)
Theorem log_holds_last recs s :
  wf s -> Forall (fun r => exists h, record_wf s r h) recs ->
  exists s', save_all recs s = Ok s' /\ wf s' /\
    forall m c, coordinator s m c ->
      (forall r, last_sent recs m c = Some r -> record_at s' m c (length r) = Ok r) /\
      (last_sent recs m c = None -> forall n, Z.of_nat n <= sizeof_log_record_t ->
         record_at s' m c n = record_at s m c n).
Proof. apply save_all_ok. Qed.

Lemma logger_made malloc gid lid nm nc :
  0 <= nm <= HOTS_MAX_MACHINES -> 0 <= nc <= RpcDefs.RPC_MAX_CORO -> (forall n, malloc n <> 0) ->
  exists s, make malloc gid lid nm nc = Ok s /\ wf s /\ num_machines s = nm /\ num_coro s = nc.
Proof.
  intros Hm Hc Hmal. unfold make. change HOTS_MAX_MACHINES with 126 in Hm. change RpcDefs.RPC_MAX_CORO with 32 in Hc.
  assert (chk_int (nm * nc) = Ok (nm * nc)) as -> by (apply chk_int_ok; nia). rewrite bind_Ok.
  assert (0 <= nm * nc <= 4032) by nia. assert (M_2 = 2097152) as HM by done.
  assert (sizeof_log_record_t = 4040) as Hsz by done.
  rewrite (wrap_id 64 (nm * nc)) by (unfold u; lia).
  rewrite (wrap_id 64) by (unfold u; lia).
  rewrite pad_ok by lia. rewrite bind_Ok.
  rewrite (proj2 (Z.eqb_neq _ _)) by apply Hmal. change (assert_ (negb false)) with (Ok tt). rewrite bind_Ok.
  eexists. split; [done|]. split; [|done]. constructor; [done|done|].
  cbn [log num_machines num_coro]. rewrite length_replicate. unfold alloc_roundup.
  change (2 * 1048576) with (2 ^ 21).
  pose proof (roundup_div 21 (nm * nc * sizeof_log_record_t) ltac:(lia) ltac:(lia) ltac:(lia)) as ->.
  change (2 ^ 21) with M_2. pose proof (Z.div_mod (nm * nc * sizeof_log_record_t + (M_2 - 1)) M_2 ltac:(lia)).
  pose proof (Z.mod_pos_bound (nm * nc * sizeof_log_record_t + (M_2 - 1)) M_2 ltac:(lia)). lia.
Qed.

(** ** A concrete logger *)

Definition demo : t := mk 0 0 2 2 (replicate (Z.to_nat (4 * sizeof_log_record_t)) 0).
Definition demo_rec (m v : Z) : list byte := lhdr_bytes (mk_lhdr m 1 0 0 1) ++ [v; v; v].

Lemma log_holds_last_witness :
  exists s', save_all [demo_rec 0 5; demo_rec 1 6; demo_rec 0 7] demo = Ok s' /\
    record_at s' 0 1 11 = Ok (demo_rec 0 7) /\ record_at s' 1 1 11 = Ok (demo_rec 1 6).
Proof.
  destruct (log_holds_last [demo_rec 0 5; demo_rec 1 6; demo_rec 0 7] demo) as (s' & H & _ & Hall).
  - constructor; cbn; rewrite ?length_replicate; vm_compute; try done; split; discriminate.
  - repeat constructor; eexists; (split; [vm_compute; reflexivity|]);
      repeat split; vm_compute; try done; discriminate.
  - exists s'. split; [exact H|].
    destruct (Hall 0 1) as [H0 _]; [split; split; vm_compute; done || discriminate|].
    destruct (Hall 1 1) as [H1 _]; [split; split; vm_compute; done || discriminate|].
    split; [apply (H0 (demo_rec 0 7))|apply (H1 (demo_rec 1 6))]; vm_compute; reflexivity.
Defined.

End Logger.
