(* ===== verification/Tx.v ===== *)
(** * Transactions ([src/tx/tx_defs.h], [tx.h], [tx_execute.h], [tx_commit.h],
      [tx_logger.h] and [tx_lockserver.h])

    The class [Tx] of a coroutine.  Its methods are programs that interact with
    the RPC layer: [Start] is a call of [start_new_req] for a machine, which hands
    out the rest of the message buffer for that machine, given the requests that
    the batch holds so far, and [Yield] is [send_reqs] followed by the switch to another
    coroutine, which comes back when every request has been answered.  What other
    coroutines and machines do in between is not part of the program; the files
    that follow run programs in a shared world. *)

From S2P Require Import Prelude Util City Hots Mappings Datastore Lockserver RpcDefs RpcBatch Logger.
From Stdlib Require Import ZArith Lia Bool.
From stdpp Require Import base numbers list.
#[local] Open Scope Z_scope.
Import RpcDefs RpcBatch.

Module Tx.

(** ** Programs *)

(** A response: its type and its bytes. *)
Definition resp : Type := Z * list byte.

Inductive prog (A : Type) : Type :=
| Done (a : A)
| Fault (e : fault)
| Start (sofar : list ureq) (mn : Z) (k : list byte -> prog A)
| Yield (reqs : list ureq) (k : list resp -> prog A).
Arguments Done {A} a.
Arguments Fault {A} e.
Arguments Start {A} sofar mn k.
Arguments Yield {A} reqs k.

#[global] Instance prog_ret : MRet prog := fun A a => Done a.
#[global] Instance prog_bind : MBind prog := fun A B f =>
  fix go (m : prog A) : prog B :=
    match m with
    | Done a => f a
    | Fault e => Fault e
    | Start sofar mn k => Start sofar mn (fun b => go (k b))
    | Yield reqs k => Yield reqs (fun rs => go (k rs))
    end.

Definition lift {A} (r : res A) : prog A :=
  match r with Ok a => Done a | Err e => Fault e end.

(** ** Data *)

Inductive tx_write_mode_t : Type := wm_ignore | wm_update | wm_insert | wm_del.
Inductive tx_status_t : Type := in_progress | must_abort | committed | aborted.

#[global] Instance write_mode_eq_dec : EqDecision tx_write_mode_t.
Proof. solve_decision. Defined.
#[global] Instance status_eq_dec : EqDecision tx_status_t.
Proof. solve_decision. Defined.

Definition write_mode_code (m : tx_write_mode_t) : Z :=
  match m with wm_ignore => 0 | wm_update => 1 | wm_insert => 2 | wm_del => 3 end.

(** [obj] is the address of the object in the memory of the coroutine; [pad] are
    the padding bytes of the structure after [write_mode], [exec_rs_exists] and
    [exec_ws_locked]. *)
Record tx_rwset_item_t := mk_item {
  rpc_reqtype : Z; key : Z; obj : Z; write_mode : tx_write_mode_t;
  keyhash : Z; primary_mn : Z; backup_mn : list Z;
  exec_rs_exists : bool; exec_rs_version : Z; exec_ws_locked : bool;
  pad : list byte
}.

(** What the constructor of an item leaves uninitialised. *)
Record uninit := mk_uninit {
  un_backup : list Z; un_exists : bool; un_version : Z; un_locked : bool; un_pad : list byte
}.

Definition mark_read (ex : bool) (ver : Z) (it : tx_rwset_item_t) : tx_rwset_item_t :=
  mk_item (rpc_reqtype it) (key it) (obj it) (write_mode it) (keyhash it) (primary_mn it)
    (backup_mn it) ex ver (exec_ws_locked it) (pad it).
Definition mark_locked (l : bool) (it : tx_rwset_item_t) : tx_rwset_item_t :=
  mk_item (rpc_reqtype it) (key it) (obj it) (write_mode it) (keyhash it) (primary_mn it)
    (backup_mn it) (exec_rs_exists it) (exec_rs_version it) l (pad it).

(** The bytes of an item from the member [obj] on. *)
Definition item_bytes (it : tx_rwset_item_t) : list byte :=
  le_bytes 8 (obj it) ++ le_bytes 4 (write_mode_code (write_mode it)) ++ take 4 (pad it) ++
  le_bytes 8 (keyhash it) ++ le_bytes 4 (primary_mn it) ++
  concat (map (le_bytes 4) (backup_mn it)) ++
  [if exec_rs_exists it then 1 else 0] ++ take 3 (drop 4 (pad it)) ++
  le_bytes 8 (exec_rs_version it) ++
  [if exec_ws_locked it then 1 else 0] ++ take 7 (drop 7 (pad it)).

(** The members of an object at address [o] of memory [m]. *)
Definition obj_val_size (m : list byte) (o : Z) : res Z :=
  bs ← read_at (Z.to_nat o) 8 m; Ok (le_val bs).
Definition obj_hdr (m : list byte) (o : Z) : res hots_hdr_t :=
  bs ← read_at (Z.to_nat (o + 8)) 8 m; Ok (word_hdr (le_val bs)).
Definition set_val_size (vs o : Z) (m : list byte) : res (list byte) :=
  write_at (Z.to_nat o) (le_bytes 8 vs) m.

Record tx := mk_tx {
  coro_id : Z; mappings : Mappings.t; caller_id : Z;
  local_log_record : list byte;
  tx_status : tx_status_t; lockserver_locked : bool;
  read_set : list tx_rwset_item_t; rs_index : nat;
  write_set : list tx_rwset_item_t; ws_index : nat;
  stat_lock_req : Z; stat_lock_req_success : Z; stat_unlock_req : Z
}.

Definition with_status (s : tx_status_t) (x : tx) : tx :=
  mk_tx (coro_id x) (mappings x) (caller_id x) (local_log_record x) s (lockserver_locked x)
    (read_set x) (rs_index x) (write_set x) (ws_index x)
    (stat_lock_req x) (stat_lock_req_success x) (stat_unlock_req x).
Definition with_sets (rs ws : list tx_rwset_item_t) (ri wi : nat) (x : tx) : tx :=
  mk_tx (coro_id x) (mappings x) (caller_id x) (local_log_record x) (tx_status x) (lockserver_locked x)
    rs ri ws wi (stat_lock_req x) (stat_lock_req_success x) (stat_unlock_req x).
Definition with_log (l : list byte) (x : tx) : tx :=
  mk_tx (coro_id x) (mappings x) (caller_id x) l (tx_status x) (lockserver_locked x)
    (read_set x) (rs_index x) (write_set x) (ws_index x)
    (stat_lock_req x) (stat_lock_req_success x) (stat_unlock_req x).
Definition with_ls (l : bool) (a b c : Z) (x : tx) : tx :=
  mk_tx (coro_id x) (mappings x) (caller_id x) (local_log_record x) (tx_status x) l
    (read_set x) (rs_index x) (write_set x) (ws_index x) a b c.

(** ** Construction and the read and write sets *)

Section Build.
(** The build option [TX_ENABLE_LOCK_SERVER] (0 in the sources). *)
Context (TX_ENABLE_LOCK_SERVER : bool).

(** [ptrs]: the pointers passed in are not null.  [rec] is the log record of this
    coroutine in the worker's logger. *)
Definition make (coro_id : Z) (ptrs : bool) (mp : Mappings.t) (rec : list byte) : res tx :=
  _ ← assert_ ((1 <=? coro_id) && (coro_id <? RPC_MAX_CORO));
  _ ← assert_ ptrs;
  _ ← (if Mappings.use_lock_server mp then assert_ TX_ENABLE_LOCK_SERVER else Ok tt);
  Ok (mk_tx coro_id mp (int_rep (mk_crid coro_id (Mappings.wrkr_gid mp))) rec
        aborted false [] 0 [] 0 0 0 0).

Definition start (x : tx) : tx :=
  mk_tx (coro_id x) (mappings x) (caller_id x) (local_log_record x) in_progress false [] 0 [] 0
    (stat_lock_req x) (stat_lock_req_success x) (stat_unlock_req x).

(** The constructor of an item and the derived machine numbers. *)
Definition new_item (mp : Mappings.t) (reqtype key obj : Z) (mode : tx_write_mode_t) (un : uninit) :
    res tx_rwset_item_t :=
  kh ← ds_keyhash key;
  if Mappings.tot_primary_machines mp =? 0 then Err DivByZero
  else
    let pm := Mappings.get_primary_mn mp kh in
    let back := map (Mappings.get_backup_mn_from_primary mp pm) (seqZ 0 (Mappings.num_backups mp)) in
    Ok (mk_item reqtype key obj mode kh pm (back ++ drop (length back) (un_backup un))
          (un_exists un) (un_version un) (un_locked un) (un_pad un)).

Definition add_to_read_set (reqtype key obj : Z) (un : uninit) (x : tx) : res (Z * tx) :=
  it ← new_item (mappings x) reqtype key obj wm_ignore un;
  Ok (primary_mn it, with_sets (read_set x ++ [it]) (write_set x) (rs_index x) (ws_index x) x).

Definition add_to_write_set (reqtype key obj : Z) (mode : tx_write_mode_t) (un : uninit) (x : tx) :
    res (Z * tx) :=
  it ← new_item (mappings x) reqtype key obj mode un;
  Ok (primary_mn it, with_sets (read_set x) (write_set x ++ [it]) (rs_index x) (ws_index x) x).

Definition commit_single_read (x : tx) : tx := with_status committed x.
Definition abort_rdonly (x : tx) : tx := with_status aborted x.

(** ** Requests *)

(** A request and the address its response is copied to; [None] is a local
    variable that nobody reads. *)
Notation request := (ureq * option Z)%type.

Definition start_new_req (sofar : list request) (mn : Z) : prog (list byte) :=
  Start (map fst sofar) mn Done.

(** The RPC layer copies the bytes of each response to its buffer. *)
Fixpoint deliver (bufs : list (option Z)) (rs : list resp) (m : list byte) : res (list byte) :=
  match bufs, rs with
  | [], [] => Ok m
  | b :: bufs, (_, bs) :: rs =>
      m ← match b with Some a => write_at (Z.to_nat a) bs m | None => Ok m end;
      deliver bufs rs m
  | _, _ => Err OutOfBounds
  end.

(** [send_reqs] and [tx_yield]; the arrays of the batch and [tx_req_arr] have
    [RPC_MAX_MSG_CORO] elements. *)
Definition send_and_yield (qs : list request) (m : list byte) : prog (list resp * list byte) :=
  if Z.of_nat (length qs) <=? RPC_MAX_MSG_CORO then
    Yield (map fst qs) (fun rs => m ← lift (deliver (map snd qs) rs m); Done (rs, m))
  else Fault OutOfBounds.

(** A GET-like request for an item, to its primary. *)
Definition get_req (caller : Z) (ty : ds_reqtype_t) (it : tx_rwset_item_t) (sofar : list request) :
    prog request :=
  buf ← start_new_req sofar (primary_mn it);
  '(size_req, buf) ← lift (ds_forge_generic_get_req buf caller (key it) (keyhash it) ty);
  Done (mk_ureq (primary_mn it) (rpc_reqtype it) (take (Z.to_nat size_req) buf), Some (obj it + 8)).

Fixpoint get_reqs (caller : Z) (ty : tx_rwset_item_t -> ds_reqtype_t) (its : list tx_rwset_item_t)
    (sofar : list request) : prog (list request) :=
  match its with
  | [] => Done sofar
  | it :: its => q ← get_req caller (ty it) it sofar; get_reqs caller ty its (sofar ++ [q])
  end.

(** ** The lock server *)

Definition ls_key (ex : Z) (it : tx_rwset_item_t) : Lockserver.lkey :=
  Lockserver.mk_key ex (Z.land (keyhash it) Lockserver.locksrv_hashfrag_mask).

Definition send_lockserver_req (req_type : Lockserver.locksrv_reqtype_t) (x : tx) (m : list byte) :
    prog (bool * list byte) :=
  buf ← start_new_req [] (Mappings.get_lockserver_mn (mappings x));
  let n := Z.of_nat (length (read_set x) + length (write_set x)) in
  let keys := map (ls_key 1) (write_set x) ++ map (ls_key 0) (read_set x) in
  buf ← lift (write_at 0 (le_bytes 4 (int_rep (mk_crid (coro_id x) (Mappings.wrkr_gid (mappings x)))) ++
                le_bytes 2 (Lockserver.reqtype_code req_type) ++ le_bytes 2 n ++
                concat (map (fun k => le_bytes 4 (Lockserver.key_word k)) keys)) buf);
  let q := mk_ureq (Mappings.get_lockserver_mn (mappings x)) RPC_LOCKSERVER_REQ
             (take (Z.to_nat (Lockserver.locksrv_req_size n)) buf) in
  '(rs, m) ← send_and_yield [(q, None)] m;
  match rs, req_type with
  | [(ty, _)], Lockserver.req_lock => Done (ty =? Lockserver.resptype_code Lockserver.success, m)
  | _, _ => Done (true, m)
  end.

(** ** Execution *)

(** The loop over the responses for the read set. *)
Fixpoint note_reads (its : list tx_rwset_item_t) (rs : list resp) (st : tx_status_t) (m : list byte) :
    res (list tx_rwset_item_t * list resp * tx_status_t * list byte) :=
  match its with
  | [] => Ok ([], rs, st, m)
  | it :: its =>
      match rs with
      | [] => Err OutOfBounds
      | (ty, bs) :: rs =>
          '(it, st, m) ←
            (if ty =? resptype_code get_rdonly_success then
               m ← set_val_size (wrap 64 (Z.of_nat (length bs) - 8)) (obj it) m;
               h ← obj_hdr m (obj it);
               Ok (mark_read true (version h) it, st, m)
             else if ty =? resptype_code get_rdonly_not_found then
               m ← set_val_size 0 (obj it) m;
               h ← obj_hdr m (obj it);
               Ok (mark_read false (version h) it, st, m)
             else if ty =? resptype_code get_rdonly_locked then Ok (it, must_abort, m)
             else Ok (it, st, m));
          '(its, rs, st, m) ← note_reads its rs st m;
          Ok (it :: its, rs, st, m)
      end
  end.

(** The loop over the responses for the write set. *)
Fixpoint note_writes (its : list tx_rwset_item_t) (rs : list resp) (st : tx_status_t) (m : list byte) :
    res (list tx_rwset_item_t * list resp * tx_status_t * list byte) :=
  match its with
  | [] => Ok ([], rs, st, m)
  | it :: its =>
      match rs with
      | [] => Err OutOfBounds
      | (ty, bs) :: rs =>
          '(it, st, m) ←
            (if decide (write_mode it <> wm_insert) then
               if ty =? resptype_code get_for_upd_success then
                 m ← set_val_size (wrap 64 (Z.of_nat (length bs) - 8)) (obj it) m;
                 Ok (mark_locked true it, st, m)
               else if (ty =? resptype_code get_for_upd_not_found) || (ty =? resptype_code get_for_upd_locked) then
                 Ok (mark_locked false it, must_abort, m)
               else Err ExitFail
             else
               if ty =? resptype_code lock_for_ins_success then Ok (mark_locked true it, st, m)
               else if (ty =? resptype_code lock_for_ins_exists) || (ty =? resptype_code lock_for_ins_locked) then
                 Ok (mark_locked false it, must_abort, m)
               else Err ExitFail);
          '(its, rs, st, m) ← note_writes its rs st m;
          Ok (it :: its, rs, st, m)
      end
  end.

(** In the execute phase, update and delete keys are handled alike. *)
Definition exec_reqtype (it : tx_rwset_item_t) : ds_reqtype_t :=
  if decide (write_mode it <> wm_insert) then get_for_upd else lock_for_ins.

(** The part of [do_read] after the lock server. *)
Definition read_keys (x : tx) (m : list byte) : prog (tx_status_t * tx * list byte) :=
  let rd := drop (rs_index x) (read_set x) in
  let wr := drop (ws_index x) (write_set x) in
  qs ← get_reqs (caller_id x) (fun _ => get_rdonly) rd [];
  qs ← get_reqs (caller_id x) exec_reqtype wr qs;
  '(rs, m) ← send_and_yield qs m;
  '(rd, rs, st, m) ← lift (note_reads rd rs (tx_status x) m);
  '(wr, _, st, m) ← lift (note_writes wr rs st m);
  let rset := take (rs_index x) (read_set x) ++ rd in
  let wset := take (ws_index x) (write_set x) ++ wr in
  Done (st, with_status st (with_sets rset wset (length rset) (length wset) x), m).

Definition do_read (x : tx) (m : list byte) : prog (tx_status_t * tx * list byte) :=
  if TX_ENABLE_LOCK_SERVER && Mappings.use_lock_server (mappings x) then
    let x := with_ls (lockserver_locked x) (stat_lock_req x + 1) (stat_lock_req_success x) (stat_unlock_req x) x in
    '(ok, m) ← send_lockserver_req Lockserver.req_lock x m;
    if negb (ok : bool) then Done (must_abort, with_status must_abort x, m)
    else read_keys (with_ls true (stat_lock_req x) (stat_lock_req_success x + 1) (stat_unlock_req x) x) m
  else read_keys x m.

(** ** Validation *)

(** The loop over the responses; it returns at the first key that changed. *)
Fixpoint check_reads (its : list tx_rwset_item_t) (rs : list resp) (m : list byte) : res bool :=
  match its with
  | [] => Ok true
  | it :: its =>
      match rs with
      | [] => Err OutOfBounds
      | (ty, _) :: rs =>
          let ok := if exec_rs_exists it then ty =? resptype_code get_rdonly_success
                    else ty =? resptype_code get_rdonly_not_found in
          if ok then
            h ← obj_hdr m (obj it);
            if negb (version h =? exec_rs_version it) then Ok false else check_reads its rs m
          else Ok false
      end
  end.

Definition validate (x : tx) (m : list byte) : prog (bool * list byte) :=
  qs ← get_reqs (caller_id x) (fun _ => get_rdonly) (read_set x) [];
  '(rs, m) ← send_and_yield qs m;
  ok ← lift (check_reads (read_set x) rs m);
  Done (ok, m).

(** ** Abort *)

(** The unlock at the lock server, which counts in the statistics. *)
Definition unlock_at_lockserver (x : tx) (m : list byte) : prog (tx * list byte) :=
  let x := with_ls (lockserver_locked x) (stat_lock_req x) (stat_lock_req_success x) (stat_unlock_req x + 1) x in
  '(_, m) ← send_lockserver_req Lockserver.req_unlock x m;
  Done (x, m).

Definition abort (x : tx) (m : list byte) : prog (tx * list byte) :=
  let x := with_status aborted x in
  if TX_ENABLE_LOCK_SERVER && Mappings.use_lock_server (mappings x) then
    if lockserver_locked x then unlock_at_lockserver x m else Done (x, m)
  else
    qs ← get_reqs (caller_id x) (fun _ => unlock) (filter (fun it => exec_ws_locked it = true) (write_set x)) [];
    match qs with
    | [] => Done (x, m)
    | _ => '(_, m) ← send_and_yield qs m; Done (x, m)
    end.

(** ** Logging *)

(** The entries of the log record from offset [off] on; [memcpy] copies from the
    address of the member [obj]. *)
Fixpoint log_items (its : list tx_rwset_item_t) (off : nat) (m rec : list byte) : res (nat * list byte) :=
  match its with
  | [] => Ok (off, rec)
  | it :: its =>
      rec ← write_at off (le_bytes 8 (key it)) rec;
      vs ← obj_val_size m (obj it);
      let obj_size := Z.to_nat (hots_obj_size vs) in
      bs ← read_at 0 obj_size (item_bytes it);
      rec ← write_at (off + 8) bs rec;
      log_items its (off + 8 + obj_size) m rec
  end.

(** The header is written field by field: [magic] and [debug_size] are only set
    in debug builds. *)
Definition log_record (x : tx) (m : list byte) : res (nat * list byte) :=
  h ← Logger.read_lhdr (local_log_record x);
  let h := Logger.mk_lhdr (wrap HOTS_MCHN_ID_BITS (Mappings.machine_id (mappings x)))
             (wrap HOTS_CORO_ID_BITS (coro_id x)) (Logger.magic h) (Logger.debug_size h)
             (wrap 32 (Z.of_nat (length (write_set x)))) in
  rec ← write_at 0 (Logger.lhdr_bytes h) (local_log_record x);
  log_items (write_set x) 8 m rec.

(** One request per log replica. *)
Fixpoint log_reqs (mp : Mappings.t) (backs : list Z) (payload : list byte) (sofar : list request) :
    prog (list request) :=
  match backs with
  | [] => Done sofar
  | b :: bs =>
      let log_mn := Mappings.get_log_mn mp b in
      buf ← start_new_req sofar log_mn;
      buf ← lift (write_at 0 payload buf);
      log_reqs mp bs payload (sofar ++ [(mk_ureq log_mn RPC_LOGGER_REQ (take (length payload) buf), None)])
  end.

Definition log (x : tx) (m : list byte) : prog (tx * list byte) :=
  '(req_len, rec) ← lift (log_record x m);
  payload ← lift (read_at 0 req_len rec);
  qs ← log_reqs (mappings x) (seqZ 0 (Mappings.num_backups (mappings x))) payload [];
  '(_, m) ← send_and_yield qs m;
  Done (with_log rec x, m).

(** ** Commit *)

(** The update of one item at replica [repl_i]. *)
Definition update_req (caller repl_i : Z) (m : list byte) (it : tx_rwset_item_t) (sofar : list request) :
    prog request :=
  repl_mn ← lift (if repl_i =? 0 then Ok (primary_mn it) else at_ (backup_mn it) (repl_i - 1));
  buf ← start_new_req sofar repl_mn;
  '(size_req, buf) ← lift
    (if decide (write_mode it <> wm_del)
     then ds_forge_generic_put_req buf caller (key it) (keyhash it) (drop (Z.to_nat (obj it)) m) put
     else ds_forge_generic_get_req buf caller (key it) (keyhash it) Datastore.del);
  Done (mk_ureq repl_mn (wrap 8 (rpc_reqtype it + repl_i)) (take (Z.to_nat size_req) buf), Some (obj it + 16)).

Fixpoint update_reqs (caller repl_i : Z) (m : list byte) (its : list tx_rwset_item_t)
    (sofar : list request) : prog (list request) :=
  match its with
  | [] => Done sofar
  | it :: its => q ← update_req caller repl_i m it sofar; update_reqs caller repl_i m its (sofar ++ [q])
  end.

Fixpoint replica_reqs (x : tx) (repls : list Z) (m : list byte) (sofar : list request) :
    prog (list request) :=
  match repls with
  | [] => Done sofar
  | r :: rs => qs ← update_reqs (caller_id x) r m (write_set x) sofar; replica_reqs x rs m qs
  end.

Definition send_updates_to_replicas (x : tx) (repls : list Z) (m : list byte) : prog (list byte) :=
  qs ← replica_reqs x repls m [];
  '(_, m) ← send_and_yield qs m;
  Done m.

(** One batch per backup. *)
Fixpoint send_updates_one_by_one (x : tx) (repls : list Z) (m : list byte) : prog (list byte) :=
  match repls with
  | [] => Done m
  | r :: rs => m ← send_updates_to_replicas x [r] m; send_updates_one_by_one x rs m
  end.

Definition update_backups (x : tx) (m : list byte) : prog (list byte) :=
  let mp := mappings x in
  let backups := seqZ 1 (Mappings.num_replicas mp - 1) in
  if Z.of_nat (length (write_set x)) * Mappings.num_backups mp <=? RPC_MAX_MSG_CORO
  then send_updates_to_replicas x backups m
  else send_updates_one_by_one x backups m.

(** The phases after validation. *)
Definition commit_writes (x : tx) (m : list byte) : prog (tx_status_t * tx * list byte) :=
  let ls := TX_ENABLE_LOCK_SERVER && Mappings.use_lock_server (mappings x) in
  match write_set x with
  | [] =>
      let x := with_status committed x in
      '(x, m) ← (if ls then unlock_at_lockserver x m else Done (x, m));
      Done (committed, x, m)
  | _ =>
      '(x, m) ← (if 0 <? Mappings.num_backups (mappings x) then log x m else Done (x, m));
      m ← (if 0 <? Mappings.num_backups (mappings x) then update_backups x m else Done m);
      m ← send_updates_to_replicas x [0] m;
      let x := with_status committed x in
      '(x, m) ← (if ls then unlock_at_lockserver x m else Done (x, m));
      Done (committed, x, m)
  end.

Definition commit (x : tx) (m : list byte) : prog (tx_status_t * tx * list byte) :=
  if TX_ENABLE_LOCK_SERVER && Mappings.use_lock_server (mappings x) then commit_writes x m
  else match read_set x with
       | [] => commit_writes x m
       | _ =>
           '(ok, m) ← validate x m;
           if negb (ok : bool) then '(x, m) ← abort x m; Done (aborted, x, m)
           else commit_writes x m
       end.

End Build.

(** [Tx::max_pkt_size], in [size_t] arithmetic. *)
Definition max_pkt_size (num_keys val_size : Z) : res Z :=
  _ ← assert_ (wrap 64 (ds_put_req_size val_size) =? wrap 64 (3 * 8 + val_size));
  let hdr := Z.of_nat sizeof_reqhdr in
  let max_put_req_size := wrap 64 (wrap 64 num_keys * (hdr + ds_put_req_size val_size)) in
  let max_log_record_size := wrap 64 (8 + hdr + wrap 64 num_keys * (3 * 8 + val_size)) in
  Ok (if max_put_req_size >? max_log_record_size then max_put_req_size else max_log_record_size).

Definition get_stats (x : tx) : (Z * Z * Z) * tx :=
  ((stat_lock_req_success x, stat_lock_req x, stat_unlock_req x), with_ls (lockserver_locked x) 0 0 0 x).

End Tx.
