(* ===== verification/TxWorld.v ===== *)
(** * Running transactions in a shared world

    The datastores of a cluster, seen as abstract buckets ([DatastoreSpec]); the
    interleaving of a coroutine's requests with the operations of all other
    coroutines; weakest preconditions of programs over all interleavings; and
    what a coroutine can know about a bucket while others operate on it. *)

From S2P Require Import Prelude Util Hots Mappings FixedTable FixedTableInv FixedTableOps FixedTableInit FixedTableSteps Datastore.
From S2P Require Import DatastoreSpec RpcDefs RpcBatch Logger Tx.
From Stdlib Require Import ZArith Lia Bool.
From stdpp Require Import base numbers list gmap relations.
#[local] Open Scope Z_scope.
Import FixedTable FixedTableInv FixedTableOps FixedTableSteps DatastoreSpec RpcDefs RpcBatch Tx.

Module TxWorld.

(** ** Worlds *)

(** A bucket of the cluster: machine, RPC type of the store, bucket number. *)
Notation loc := (Z * Z * nat)%type.
Definition world : Type := loc -> abucket.

Definition wupd (l : loc) (a : abucket) (w : world) : world :=
  fun l' => if decide (l' = l) then a else w l'.

(** What the stores are configured with: whether a machine has a store of a type, the
    bucket of a key hash in it, the value size of a type, whether a type is a primary
    store and whether its records are only read; the hash of a key, the machine of its primary and of its [r]-th backup, and
    the number of backups; the machines and the coroutines that the loggers have
    records for; and what the applications promise of the contents of a key of a
    table. *)
Record cluster := mk_cluster {
  cl_has : Z -> Z -> bool; cl_idx : Z -> Z -> Z -> nat; cl_vsz : Z -> Z; cl_prim : Z -> bool; cl_ro : Z -> bool;
  cl_hash : Z -> Z; cl_mn : Z -> Z; cl_back : Z -> Z -> Z; cl_nback : Z;
  cl_machines : Z; cl_coros : Z;
  cl_ok : Z -> Z -> option (list byte) -> Prop
}.

(** The stores of the [r]-th backup of a primary type [ty] have type [ty + r], and the
    backups of a key are on different machines. *)
Record cluster_wf (C : cluster) : Prop := {
  cw_nback : 0 <= cl_nback C <= HOTS_MAX_BACKUPS;
  cw_type ty : cl_prim C ty = true -> RPC_MICA_REQ_BASE <= ty /\ ty + HOTS_MAX_BACKUPS <= RPC_MAX_REQ_TYPE;
  cw_vsz ty : cl_prim C ty = true -> 0 <= cl_vsz C ty <= HOTS_MAX_VALUE;
  cw_ok ty k v : cl_prim C ty = true -> cl_ok C ty k (Some v) -> Z.of_nat (length v) = cl_vsz C ty;
  cw_back ty r : cl_prim C ty = true -> 1 <= r <= cl_nback C ->
    cl_prim C (ty + r) = false /\ cl_vsz C (ty + r) = cl_vsz C ty;
  cw_spacing ty ty' r r' : cl_prim C ty = true -> cl_prim C ty' = true ->
    0 <= r <= cl_nback C -> 0 <= r' <= cl_nback C -> ty + r = ty' + r' -> ty = ty';
  cw_home ty kh : cl_prim C ty = true -> cl_has C (cl_mn C kh) ty = true;
  cw_backs ty kh r : cl_prim C ty = true -> 1 <= r <= cl_nback C -> cl_has C (cl_back C kh r) (ty + r) = true;
  cw_distinct kh r r' : 1 <= r <= cl_nback C -> 1 <= r' <= cl_nback C -> cl_back C kh r = cl_back C kh r' -> r = r'
}.

(** The response bytes carry the response of the service; what the service does
    not write is arbitrary. *)
Definition carries (rs : ds_resp) (bs : list byte) : Prop :=
  Z.of_nat (length bs) = rs_len rs /\
  (forall ts, rs_hdr rs = Some ts -> 8 <= rs_len rs -> take 8 bs = le_bytes 8 ts) /\
  (forall v, rs_val rs = Some v -> 8 <= rs_len rs -> drop 8 bs = v).

(** Facts that hold throughout a run of tables that satisfy their invariant: lock words are well formed, nobody locks a
    bucket [kMaxNumLocks] times, and the 60-bit versions do not run over. *)
Definition ts_range (ts : Z) : Prop :=
  kTimestampCanary * 2 ^ 61 <= ts < kTimestampCanary * 2 ^ 61 + 2 ^ 61 - 4.
Definition calm (a : abucket) : Prop :=
  a_wf a /\ a_cnt a < kMaxNumLocks /\ ts_range (a_ts a).

(** A step of a run: the request this coroutine had served, or [None] for a step
    of somebody else, and the worlds before and after. *)
Record entry := mk_entry { e_req : option ureq; e_from : world; e_to : world }.
Definition state : Type := world * list entry.

Section Runs.
Context (C : cluster) (self : Z) (pkt : Z).

Definition loc_of (mn ty kh : Z) : loc := (mn, ty, cl_idx C mn ty kh).

(** The bucket of a key at its primary and at its [r]-th backup. *)
Definition ploc (ty k : Z) : loc := loc_of (cl_mn C (cl_hash C k)) ty (cl_hash C k).
Definition bloc (ty k r : Z) : loc := loc_of (cl_back C (cl_hash C k) r) (ty + r) (cl_hash C k).

(** The primary buckets are well formed, the primary of every key holds what the
    applications promise of it, and tables that are only read are never locked. *)
Definition peaceful (w : world) : Prop :=
  (forall mn ty i, cl_prim C ty = true -> calm (w (mn, ty, i))) /\
  (forall ty k, cl_prim C ty = true -> cl_ok C ty k (a_map (w (ploc ty k)) !! k)) /\
  (forall mn ty i, cl_prim C ty = true -> cl_ro C ty = true -> is_unlocked (a_ts (w (mn, ty, i))) = true).

(** The backups of a key hold what the primary holds. *)
Definition agree (w : world) (ty k : Z) : Prop :=
  forall r, 1 <= r <= cl_nback C -> a_map (w (bloc ty k r)) !! k = a_map (w (ploc ty k)) !! k.

(** Replication: the backups agree on every key whose primary bucket is free. *)
Definition synced (w : world) : Prop :=
  forall ty k, cl_prim C ty = true -> is_unlocked (a_ts (w (ploc ty k))) = true -> agree w ty k.

(** The versions of the primary buckets have not run over. *)
Definition in_range (w : world) : Prop :=
  forall mn ty i, cl_prim C ty = true -> ts_range (a_ts (w (mn, ty, i))).

(** A log request that a logger has a record for. *)
Definition loggable (payload : list byte) : Prop :=
  exists h, Logger.read_lhdr payload = Ok h /\ 0 <= Logger.mchn_id h < cl_machines C /\
    1 <= Logger.coro_id h < cl_coros C /\ Z.of_nat (length payload) <= Logger.sizeof_log_record_t.

(** A request that a table takes: its key is not the mark of an empty slot, and its
    caller is not the mark of a free bucket. *)
Definition addressed (rq : ds_req) : Prop := rq_key rq <> kFtInvalidKey /\ caller_wf (rq_caller_id rq).

(** A request is served: a request to a datastore by the abstract service of the
    bucket it addresses; a log request is acknowledged. *)
Inductive answers (w : world) (q : ureq) : resp -> world -> Prop :=
| ans_ds rq rs a' bs :
    RPC_MICA_REQ_BASE <= u_type q /\ cl_has C (u_mn q) (u_type q) = true ->
    parse_req (u_payload q) = Ok rq /\ addressed rq ->
    (rq_type rq = reqtype_code put ->
       24 + cl_vsz C (u_type q) <= Z.of_nat (length (u_payload q))) ->
    let l := loc_of (u_mn q) (u_type q) (rq_keyhash rq) in
    a_handle (cl_prim C (u_type q)) (cl_vsz C (u_type q)) rq
      (take (Z.to_nat (cl_vsz C (u_type q))) (drop 24 (u_payload q))) (w l) = Some (rs, a') ->
    carries rs bs ->
    answers w q (Datastore.resptype_code (rs_type rs), bs) (wupd l a' w)
| ans_log :
    u_type q = RPC_LOGGER_REQ -> loggable (u_payload q) ->
    answers w q (Logger.resptype_code Logger.success, []) w.

(** What caller [me] expects of the operations of others: they operate on primary
    buckets as callers other than [me], they leave alone the tables that are only
    read, and at a backup they leave alone the keys
    whose primary bucket [me] holds. *)
Inductive env (me : Z) (w : world) : world -> Prop :=
| env_idle w' : (forall l, w' l = w l) -> env me w w'
| env_prim mn ty i c a' :
    cl_prim C ty = true -> cl_ro C ty = false -> c <> me -> bstep c (w (mn, ty, i)) a' -> env me w (wupd (mn, ty, i) a' w)
| env_back mn ty i a' :
    cl_prim C ty = false ->
    (forall ty' k r, cl_prim C ty' = true -> 1 <= r <= cl_nback C -> bloc ty' k r = (mn, ty, i) ->
       a_held me (w (ploc ty' k)) -> a_map a' !! k = a_map (w (mn, ty, i)) !! k) ->
    env me w (wupd (mn, ty, i) a' w).

(** A step keeps the tables well formed and the free buckets replicated. *)
Definition tidy (w w' : world) : Prop := (peaceful w -> peaceful w') /\ (synced w -> synced w').

(** What this coroutine's own operations are: operations that every other caller
    expects. *)
Definition fair (w w' : world) : Prop :=
  tidy w w' /\ forall c, caller_wf c -> c <> self -> env c w w'.

(** ** Serving a batch *)

(** The requests of a batch and the responses so far. *)
Notation batch := (list (ureq * option resp))%type.

(** The operations of others are what this coroutine expects. *)
Inductive sstep : batch * state -> batch * state -> Prop :=
| s_env ps w w' h :
    env self w w' -> tidy w w' -> sstep (ps, (w, h)) (ps, (w', mk_entry None w w' :: h))
| s_serve ps w h i q r w' :
    ps !! i = Some (q, None) -> answers w q r w' -> in_range w' ->
    sstep (ps, (w, h)) (<[i := (q, Some r)]> ps, (w', mk_entry (Some q) w w' :: h)).

Definition sent (reqs : list ureq) : batch := map (fun q => (q, None)) reqs.
Definition served (reqs : list ureq) (rs : list resp) : batch := zip_with (fun q r => (q, Some r)) reqs rs.

Definition accepted (w : world) (q : ureq) : Prop := exists r w', answers w q r w'.

(** ** Weakest preconditions

    [wp p Q s]: whatever the interleaving, [p] run from [s] does not fault, every
    request it has sent and that is not yet served is accepted by its server, the
    answers do to the world what every other caller expects, and when [p] ends [Q]
    holds.  Message buffers have [pkt] bytes: a new request has what
    the requests for the same machine and its own header leave. *)
Definition room (sofar : list ureq) (mn : Z) : Z :=
  pkt - Z.of_nat (length (msg_bytes (entries_for mn 0 sofar))) - Z.of_nat sizeof_reqhdr.

Fixpoint wp {A} (p : prog A) (Q : A -> state -> Prop) (s : state) : Prop :=
  match p with
  | Done a => Q a s
  | Fault _ => False
  | Start sofar mn k => forall buf, room sofar mn <= Z.of_nat (length buf) -> wp (k buf) Q s
  | Yield reqs k =>
      (forall ps s', rtc sstep (sent reqs, s) (ps, s') ->
         forall i q, ps !! i = Some (q, None) ->
           accepted s'.1 q /\ forall r w', answers s'.1 q r w' -> in_range w' -> fair s'.1 w') /\
      (forall rs s', length rs = length reqs -> rtc sstep (sent reqs, s) (served reqs rs, s') ->
         wp (k rs) Q s')
  end.

(** Runs, for the statement that weakest preconditions mean what they should. *)
Inductive run {A} : prog A -> state -> A -> state -> Prop :=
| run_done a s : run (Done a) s a s
| run_start sofar mn k buf s a s' :
    room sofar mn <= Z.of_nat (length buf) -> run (k buf) s a s' -> run (Start sofar mn k) s a s'
| run_yield reqs k rs s s1 a s2 :
    length rs = length reqs -> rtc sstep (sent reqs, s) (served reqs rs, s1) ->
    run (k rs) s1 a s2 -> run (Yield reqs k) s a s2.

Lemma wp_run {A} (p : prog A) Q s a s' : wp p Q s -> run p s a s' -> Q a s'.
Proof.
  intros Hwp Hr. revert Hwp. induction Hr as [a s|sofar mn k buf s a s' Hb _ IH|reqs k rs s s1 a s2 Hl Hs _ IH]; simpl.
  - done.
  - intros H. by apply IH, H.
  - intros [_ H]. by apply IH, H.
Qed.

Lemma wp_mono {A} (p : prog A) (Q Q' : A -> state -> Prop) s :
  wp p Q s -> (forall a s, Q a s -> Q' a s) -> wp p Q' s.
Proof.
  intros H HQ. revert s H. induction p as [a|e|sofar mn k IH|reqs k IH]; simpl; intros s H.
  - by apply HQ.
  - done.
  - intros buf Hb. by apply IH, H.
  - destruct H as [H1 H2]. split; [done|]. intros rs s' Hl Hs. by eapply IH, H2.
Qed.

Lemma wp_bind {A B} (p : prog A) (f : A -> prog B) Q s :
  wp p (fun a s => wp (f a) Q s) s -> wp (p ≫= f) Q s.
Proof.
  revert s. induction p as [a|e|sofar mn k IH|reqs k IH]; intros s H; [exact H|done| |].
  - intros buf Hb. apply IH, H, Hb.
  - destruct H as [H1 H2]. split; [done|]. intros rs s' Hl Hs. apply IH. by apply H2.
Qed.

Lemma wp_lift {A} (r : res A) a Q s : r = Ok a -> Q a s -> wp (lift r) Q s.
Proof. by intros ->. Qed.

Lemma sent_fst reqs : (sent reqs).*1 = reqs.
Proof. induction reqs as [|q l IH]; simpl; [done|]. by f_equal. Qed.
Lemma sent_snd reqs : (sent reqs).*2 = replicate (length reqs) None.
Proof. induction reqs as [|q l IH]; simpl; [done|]. by f_equal. Qed.
Lemma served_snd reqs rs : length rs = length reqs -> (served reqs rs).*2 = map Some rs.
Proof.
  revert rs. induction reqs as [|q l IH]; intros [|r rs] Hl; simpl in *; try lia; [done|].
  f_equal. apply IH. lia.
Qed.

(** The rule for a batch: an invariant of the responses received so far that holds
    when the requests are sent, that the other callers keep, under which every
    request is accepted and which every answer keeps. *)
Lemma wp_yield {A} reqs (k : list resp -> prog A) Q s (I : list (option resp) -> state -> Prop) :
  I (replicate (length reqs) None) s ->
  (forall ps w h w', length ps = length reqs -> I ps (w, h) -> env self w w' -> tidy w w' ->
     I ps (w', mk_entry None w w' :: h)) ->
  (forall ps w h i q, length ps = length reqs -> I ps (w, h) -> reqs !! i = Some q -> ps !! i = Some None ->
     accepted w q /\
     forall r w', answers w q r w' -> in_range w' ->
       fair w w' /\ I (<[i := Some r]> ps) (w', mk_entry (Some q) w w' :: h)) ->
  (forall rs s', length rs = length reqs -> I (map Some rs) s' -> wp (k rs) Q s') ->
  wp (Yield reqs k) Q s.
Proof.
  intros H0 Henv Hserve Hk.
  set (J (x : batch * state) := length x.1 = length reqs /\ x.1.*1 = reqs /\ I (x.1.*2) x.2).
  assert (J (sent reqs, s)) as HJ0.
  { unfold J. simpl. rewrite sent_fst, sent_snd. unfold sent. by rewrite length_map. }
  assert (forall x y, sstep x y -> J x -> J y) as HJ.
  { intros x y Hxy. destruct Hxy as [ps w w' h He Ht|ps w h i q r w' Hi Ha Hp]; intros (Hl & Hf & HI); simpl in *.
    - split_and!; try done. apply Henv; [by rewrite length_fmap|done..].
    - unfold J; simpl. rewrite length_insert, !list_fmap_insert. simpl.
      assert (reqs !! i = Some q) as Hq by (rewrite <- Hf, list_lookup_fmap, Hi; done).
      split_and!; [done|rewrite Hf; by apply list_insert_id|].
      destruct (Hserve (ps.*2) w h i q) as [_ H]; [by rewrite length_fmap|done|done| |by apply H].
      by rewrite list_lookup_fmap, Hi. }
  assert (forall ps s', rtc sstep (sent reqs, s) (ps, s') -> J (ps, s')) as Hinv.
  { intros ps s' Hr. revert HJ0. generalize (sent reqs, s) as x, Hr. intros x Hx. induction Hx; eauto. }
  split.
  - intros ps [w h] Hr i q Hi. destruct (Hinv _ _ Hr) as (Hl & Hf & HI). simpl in *.
    destruct (Hserve (ps.*2) w h i q) as [H H']; try done; [..|split; [done|]; intros r w' Ha Hr'; by apply (H' r)].
    + by rewrite length_fmap.
    + by rewrite <- Hf, list_lookup_fmap, Hi.
    + by rewrite list_lookup_fmap, Hi.
  - intros rs s' Hl Hr. apply Hk; [done|]. destruct (Hinv _ _ Hr) as (_ & _ & HI).
    by rewrite <- (served_snd reqs rs Hl).
Qed.

(** The same for [send_and_yield]. *)
Lemma wp_send qs m Q s (I : list (option resp) -> state -> Prop) :
  Z.of_nat (length qs) <= RPC_MAX_MSG_CORO ->
  I (replicate (length qs) None) s ->
  (forall ps w h w', length ps = length qs -> I ps (w, h) -> env self w w' -> tidy w w' ->
     I ps (w', mk_entry None w w' :: h)) ->
  (forall ps w h i q, length ps = length qs -> I ps (w, h) -> qs !! i = Some q -> ps !! i = Some None ->
     accepted w q.1 /\
     forall r w', answers w q.1 r w' -> in_range w' ->
       fair w w' /\ I (<[i := Some r]> ps) (w', mk_entry (Some q.1) w w' :: h)) ->
  (forall rs s', length rs = length qs -> I (map Some rs) s' ->
     exists m', deliver (map snd qs) rs m = Ok m' /\ Q (rs, m') s') ->
  wp (send_and_yield qs m) Q s.
Proof.
  intros Hn H0 He Hs Hk. unfold send_and_yield. rewrite (proj2 (Z.leb_le _ _)) by done.
  apply (wp_yield _ _ _ _ I); rewrite ?length_map; try done.
  - intros ps w h i q Hl HI Hq. rewrite list_lookup_fmap in Hq.
    destruct (qs !! i) as [q0|] eqn:Eq; [|done]. simpl in Hq. injection Hq as <-. by apply Hs.
  - intros rs s' Hl HI. destruct (Hk rs s' Hl HI) as (m' & Hd & HQ).
    apply wp_bind. by eapply wp_lift.
Qed.

(** The world is the one the history has led to. *)
Definition top (w : world) (h : list entry) : world := match h with [] => w | e :: _ => e_to e end.

Lemma wp_top {A} w0 (p : prog A) Q s :
  s.1 = top w0 s.2 -> wp p Q s -> wp p (fun a s => Q a s /\ s.1 = top w0 s.2) s.
Proof.
  revert s. induction p as [a|e|sofar mn k IH|reqs k IH]; intros s Hs H; simpl in *; [done|done| |].
  - intros buf Hb. apply IH; [done|]. by apply H.
  - destruct H as [H1 H2]. split; [done|]. intros rs s' Hl Hr. apply IH; [|by apply H2].
    assert (forall x y, rtc sstep x y -> x.2.1 = top w0 x.2.2 -> y.2.1 = top w0 y.2.2) as Hk.
    { induction 1 as [|x y z Hxy _ IH']; [done|]. intros E. apply IH'. by destruct Hxy. }
    by apply (Hk _ _ Hr).
Qed.

(** A program does not look at the history: what it does after [h0] it does after any
    other history. *)
Lemma sstep_shift h0 x y : rtc sstep x y -> forall w h, x.2 = (w, h ++ h0) ->
  exists w' h', y.2 = (w', h' ++ h0) /\ rtc sstep (x.1, (w, h)) (y.1, (w', h')).
Proof.
  induction 1 as [x|x y z Hxy _ IH]; intros w h E; [by exists w, h|].
  destruct Hxy as [ps w1 w2 h1 He Ht|ps w1 h1 i q r w2 Hi Ha Hr]; injection E as -> ->.
  - destruct (IH w2 (mk_entry None w w2 :: h) eq_refl) as (w' & h' & E' & H). exists w', h'. split; [done|].
    eapply rtc_l; [by constructor|exact H].
  - destruct (IH w2 (mk_entry (Some q) w w2 :: h) eq_refl) as (w' & h' & E' & H). exists w', h'. split; [done|].
    eapply rtc_l; [by econstructor|exact H].
Qed.

Lemma wp_shift {A} h0 (p : prog A) Q w h :
  wp p Q (w, h) -> wp p (fun a s => exists h', s.2 = h' ++ h0 /\ Q a (s.1, h')) (w, h ++ h0).
Proof.
  revert w h. induction p as [a|e|sofar mn k IH|reqs k IH]; intros w h H; simpl in *; [by exists h|done| |].
  - intros buf Hb. by apply IH, H.
  - destruct H as [H1 H2]. split.
    + intros ps s' Hr. destruct (sstep_shift _ _ _ Hr w h eq_refl) as (w' & h' & E & Hr'). simpl in E. subst s'.
      apply (H1 ps (w', h')). exact Hr'.
    + intros rs s' Hl Hr. destruct (sstep_shift _ _ _ Hr w h eq_refl) as (w' & h' & E & Hr'). simpl in E. subst s'.
      apply IH. by apply H2.
Qed.

End Runs.
End TxWorld.
