(* ===== verification/TxBuckets.v ===== *)
(** * What a coroutine knows about a bucket

    A coroutine that has read a key with version [ver] knows its value for as long
    as the version is the same and the bucket is free or its own.  This knowledge
    survives the operations of all other callers and the coroutine's own locks,
    and a second read with the same version turns it into certainty about the
    whole time before that read. *)

From S2P Require Import Prelude Util Hots FixedTable FixedTableInv FixedTableOps FixedTableSteps Datastore DatastoreSpec TxWorld.
From Stdlib Require Import ZArith Lia Bool.
From stdpp Require Import base numbers list gmap relations.
#[local] Open Scope Z_scope.
Import FixedTable FixedTableInv FixedTableOps FixedTableSteps DatastoreSpec TxWorld.

Module TxBuckets.

(** ** Versions *)

Lemma word_hdr_version ts : version (word_hdr ts) = (ts / 2) mod 2 ^ 60.
Proof. reflexivity. Qed.

Lemma version_same ts ts' :
  ts_range ts -> ts_range ts' -> version (word_hdr ts) = version (word_hdr ts') -> ts / 2 = ts' / 2.
Proof.
  unfold ts_range. change kTimestampCanary with 5. intros H H'. rewrite !word_hdr_version.
  assert (forall t, 5 * 2 ^ 61 <= t < 5 * 2 ^ 61 + 2 ^ 61 - 4 -> (t / 2) mod 2 ^ 60 = t / 2 - 5 * 2 ^ 60) as Hm.
  { intros t Ht. assert (5 * 2 ^ 60 <= t / 2 < 6 * 2 ^ 60) by (pose proof (Z.div_mod t 2); pose proof (Z.mod_pos_bound t 2); lia).
    rewrite <- (Z.mod_small (t / 2 - 5 * 2 ^ 60) (2 ^ 60)) by lia.
    replace (t / 2 - 5 * 2 ^ 60) with (t / 2 + (-5) * 2 ^ 60) by lia. by rewrite Z.mod_add by lia. }
  rewrite !Hm by done. lia.
Qed.

(** An even timestamp and a later one with the same version: the same, or the next
    one. *)
Lemma version_even ts ts' :
  ts_range ts -> ts_range ts' -> is_unlocked ts = true -> version (word_hdr ts') = version (word_hdr ts) ->
  (is_unlocked ts' = true /\ ts' = ts) \/ (is_unlocked ts' = false /\ ts' = ts + 1).
Proof.
  intros H H' Hu Hv. apply version_same in Hv; [|done..]. revert Hu. rewrite !is_unlocked_even, !Z.negb_odd.
  intros He. apply Z.even_spec in He as [q ->].
  rewrite (Z.mul_comm 2 q), Z.div_mul in Hv by lia.
  pose proof (Z.div_mod ts' 2). destruct (Z.even ts') eqn:E.
  - left. split; [done|]. apply Z.even_spec in E as [r ->].
    rewrite (Z.mul_comm 2 r), Z.div_mul in Hv by lia. lia.
  - right. split; [done|]. assert (Z.odd ts' = true) as Ho by (by rewrite <- Z.negb_even, E).
    apply Z.odd_spec in Ho as [r ->]. replace (2 * r + 1) with (1 + r * 2) in Hv by lia.
    rewrite Z.div_add in Hv by lia. change (1 / 2) with 0 in Hv. lia.
Qed.

Section Self.
Context (self : Z) (Hself : caller_wf self).

Definition others (a a' : abucket) : Prop := exists c, c <> self /\ bstep c a a'.

Lemma self_valid : self <> kInvalidCallerId.
Proof. unfold caller_wf in Hself. lia. Qed.

Lemma held_unlocked a : a_held self a -> is_unlocked (a_ts a) = false.
Proof. intros [H _]. by rewrite unlocked_not_locked, H. Qed.

Lemma locker_held a : calm a -> a_locker a = self -> a_held self a.
Proof.
  intros ((_ & Hw) & _) Hl. split; [|done]. destruct (is_locked (a_ts a)); [done|].
  destruct Hw as [E _]. by rewrite Hl in E; apply self_valid in E.
Qed.

(** ** Knowledge *)

Inductive known (ver k : Z) (v : option (list byte)) (a : abucket) : Prop :=
| known_free ts :
    is_unlocked ts = true -> ts_range ts -> ver = version (word_hdr ts) -> ts <= a_ts a ->
    (a_ts a = ts \/ (a_ts a = ts + 1 /\ a_locker a = self) -> a_map a !! k = v) ->
    known ver k v a
| known_held : a_held self a -> a_map a !! k = v -> known ver k v a.

Lemma others_ts a a' :
  calm a -> others a a' ->
  a_ts a <= a_ts a' /\ (a_ts a' = a_ts a -> is_unlocked (a_ts a) = true -> a' = a).
Proof.
  intros (Hw & _ & Hr) (c & _ & Hb). unfold ts_range in Hr. change kTimestampCanary with 5 in Hr.
  destruct (bstep_ts c a a' Hw ltac:(lia) Hb). split; [lia|done].
Qed.

Lemma others_held a a' : others a a' -> a_held self a -> a' = a.
Proof. intros (c & Hc & Hb). by apply (bstep_held c). Qed.

Lemma others_locker a a' : others a a' -> a_locker a' = self -> a_locker a = self.
Proof. intros (c & Hc & Hb). apply (bstep_locker c self a a' Hb Hc self_valid). Qed.

(** The operations of others keep knowledge. *)
Lemma known_others ver k v a a' : calm a -> calm a' -> others a a' -> known ver k v a -> known ver k v a'.
Proof.
  intros Hc Hc' Ho Hk. destruct Hk as [ts Hu Hr Hv Hle Himp|Hh Hm].
  - destruct (others_ts a a' Hc Ho) as [Hm Heq]. apply (known_free _ _ _ _ ts); try done; [lia|].
    intros [E|[E El]].
    + rewrite Heq; [apply Himp; left; lia|lia|]. by replace (a_ts a) with ts by lia.
    + assert (a_held self a) as Hh by (apply locker_held; [done|by eapply others_locker]).
      rewrite (others_held a a' Ho Hh) in *. apply Himp. by right.
  - rewrite (others_held a a' Ho Hh). by apply known_held.
Qed.

Lemma lock_self a a' :
  a_lock self a = Some a' ->
  a_map a' = a_map a /\ a_locker a' = self /\
  ((is_unlocked (a_ts a) = true /\ a_ts a' = a_ts a + 1 /\ a_cnt a' = 1) \/
   (is_unlocked (a_ts a) = false /\ a_locker a = self /\ a_ts a' = a_ts a /\ a_cnt a' = a_cnt a + 1)).
Proof.
  unfold a_lock. destruct (is_unlocked (a_ts a)).
  - intros [= <-]. simpl. eauto 8.
  - destruct (Z.eqb_spec (a_locker a) self); [|done]. intros [= <-]. simpl. eauto 8.
Qed.

(** So do the coroutine's own locks, ... *)
Lemma known_lock ver k v a a' : a_lock self a = Some a' -> known ver k v a -> known ver k v a'.
Proof.
  intros Hl. destruct (lock_self a a' Hl) as (Em & El & [(Hu & Et & _)|(Hu & Els & Et & _)]).
  - intros [ts Hu' Hr Hv Hle Himp|Hh Hm].
    + apply (known_free _ _ _ _ ts); try done; [lia|]. rewrite Em. intros [E|[E _]]; [lia|].
      apply Himp. left. lia.
    + apply held_unlocked in Hh. congruence.
  - intros [ts Hu' Hr Hv Hle Himp|Hh Hm].
    + apply (known_free _ _ _ _ ts); try done; [lia|]. rewrite Em. intros [E|[E _]]; apply Himp; [left|right]; lia.
    + apply known_held; [|by rewrite Em]. destruct Hh as [Hh _]. split; [by rewrite Et|done].
Qed.

(** ... and its attempts that release the lock again. *)
Lemma known_try ver k v a a' :
  calm a -> a_lock self a = Some a' -> known ver k v a -> known ver k v (a_unlock a').
Proof.
  intros ((Hw0 & Hw) & Hcnt & Hrg) Hl. destruct (lock_self a a' Hl) as (Em & El & [(Hu & Et & Ec)|(Hu & Els & Et & Ec)]).
  - unfold ts_range in Hrg. change kTimestampCanary with 5 in Hrg.
    unfold a_unlock. rewrite Ec. simpl. rewrite Et, wrap_id by (unfold u; lia).
    intros [ts Hu' Hr Hv Hle Himp|Hh Hm].
    + apply (known_free _ _ _ _ ts); simpl; try done; lia.
    + apply held_unlocked in Hh. congruence.
  - rewrite unlocked_not_locked in Hu. apply negb_false_iff in Hu. rewrite Hu in Hw.
    unfold a_unlock. rewrite Ec, (proj2 (Z.eqb_neq _ 1)) by lia.
    intros [ts Hu' Hr Hv Hle Himp|Hh Hm].
    + apply (known_free _ _ _ _ ts); simpl; try done; [lia|]. rewrite Em, Et, El.
      intros [E|[E _]]; apply Himp; [left|right]; lia.
    + apply known_held; [|by simpl; rewrite Em]. split; simpl; [by rewrite Et|done].
Qed.

(** A read gives knowledge. *)
Lemma get_known k a r ts v :
  calm a -> a_get self k a = (r, ts, v) -> r <> kLocked ->
  forall ver, (forall t, ts = Some t -> ver = version (word_hdr t)) -> known ver k v a.
Proof.
  intros (_ & _ & Hr) Hg Hne ver Hv. unfold a_get in Hg.
  destruct (is_unlocked (a_ts a)) eqn:Hu.
  - apply (known_free _ _ _ _ (a_ts a)); try done; [|intros _];
      destruct (a_map a !! k); simplify_eq; auto.
  - destruct (Z.eqb_spec (a_locker a) self) as [El|]; [|simplify_eq; done].
    apply known_held; [|destruct (a_map a !! k); by simplify_eq].
    split; [|done]. rewrite unlocked_not_locked in Hu. by apply negb_false_iff in Hu.
Qed.

(** ** Validation *)

Lemma rtc_others_calm a0 a :
  rtc (fun x y => others x y /\ calm y) a0 a -> calm a0 ->
  calm a /\ a_ts a0 <= a_ts a /\ (a_locker a = self -> a_locker a0 = self) /\ (a_held self a0 -> a = a0).
Proof.
  induction 1 as [a|a b c [Hab Hb] _ IH]; intros Ha; [done|].
  destruct (IH Hb) as (Hc & Ht & Hl & Hh). destruct (others_ts a b Ha Hab) as [Htab _].
  split_and!; [done|lia| |].
  - intros E. eapply others_locker; [exact Hab|]. by apply Hl.
  - intros Hheld. pose proof (others_held a b Hab Hheld) as ->. by apply Hh.
Qed.

Lemma known_rtc ver k v a0 a :
  rtc (fun x y => others x y /\ calm y) a0 a -> calm a0 -> known ver k v a0 -> calm a /\ known ver k v a.
Proof. induction 1 as [a|a b c [Hab Hb] _ IH]; intros Hc Hk; [done|]. apply IH; [done|]. by eapply known_others. Qed.

(** A second read whose answer agrees with what was noted at the first one: the
    value has not changed since the moment [a0], after which only others
    operated, and at that moment nobody else held the bucket. *)
Lemma validated ver k v a0 a r ts v' ver' :
  calm a0 -> rtc (fun x y => others x y /\ calm y) a0 a -> known ver k v a0 ->
  a_get self k a = (r, ts, v') ->
  r = (match v with Some _ => kSuccess | None => kNotFound end) ->
  (forall t, ts = Some t -> ver' = version (word_hdr t)) -> ver' = ver ->
  a_map a0 !! k = v /\ (is_unlocked (a_ts a0) = true \/ a_held self a0).
Proof.
  intros Hc0 Hs Hk Hg Hr Hts Hver. destruct (rtc_others_calm a0 a Hs Hc0) as (Hc & Hle & Hlk & Hheld).
  destruct Hk as [ts0 Hu Hrg Hv Hle0 Himp|]; [|by auto].
  pose proof Hc as ((_ & Hw) & _ & Hrga). unfold a_get in Hg.
  destruct (is_unlocked (a_ts a)) eqn:Hua.
  - assert (ts = Some (a_ts a)) as -> by (destruct (a_map a !! k); by simplify_eq).
    specialize (Hts _ eq_refl). destruct (version_even ts0 (a_ts a)) as [[_ E]|[E _]]; try done; try congruence.
    assert (a_ts a0 = ts0) as E0 by lia. split; [apply Himp; by left|left; by rewrite E0].
  - destruct (Z.eqb_spec (a_locker a) self) as [El|]; [|destruct v; by simplify_eq].
    assert (a_held self a0) as Hh0 by (apply locker_held; auto). split; [|by right]. rewrite <- (Hheld Hh0) in *.
    destruct (a_map a !! k) as [x|] eqn:Ex.
    + assert (ts = Some (a_ts a)) as -> by (by simplify_eq). specialize (Hts _ eq_refl).
      destruct (version_even ts0 (a_ts a)) as [[E _]|[_ E]]; try done; try congruence.
      apply Himp. by right.
    + destruct v; [by simplify_eq|done].
Qed.

End Self.
End TxBuckets.
