(* ===== verification/TxMem.v ===== *)
(** * The memory of a transaction's objects

    The objects of a transaction live in the memory of its coroutine and do not
    overlap.  Delivering the responses of a batch and noting them in the items of
    the read and write sets touches each object only in its own bytes; the result
    of the two loops of [do_read] in closed form. *)

From S2P Require Import Prelude Util Hots Datastore RpcDefs RpcBatch Tx.
From Stdlib Require Import ZArith Lia Bool.
From stdpp Require Import base numbers list sets.
#[local] Open Scope Z_scope.
Import RpcDefs RpcBatch Tx.

Module TxMem.

(** ** Layout *)

Definition obj_at (m : list byte) (o : Z) : Prop :=
  0 <= o /\ o + sizeof_hots_obj_t <= Z.of_nat (length m).
Definition apart (a b : Z) : Prop := a + sizeof_hots_obj_t <= b \/ b + sizeof_hots_obj_t <= a.

Fixpoint layout (m : list byte) (os : list Z) : Prop :=
  match os with
  | [] => True
  | o :: os => obj_at m o /\ Forall (apart o) os /\ layout m os
  end.

(** [m'] differs from [m] only inside the objects [os]. *)
Definition keeps (os : list Z) (m m' : list byte) : Prop :=
  length m' = length m /\
  forall off n, Forall (fun o => Z.of_nat (off + n) <= o \/ o + sizeof_hots_obj_t <= Z.of_nat off) os ->
    read_at off n m' = read_at off n m.

Lemma keeps_refl os m : keeps os m m.
Proof. done. Qed.

Lemma keeps_trans os m1 m2 m3 : keeps os m1 m2 -> keeps os m2 m3 -> keeps os m1 m3.
Proof. intros [L1 H1] [L2 H2]. split; [congruence|]. intros off n H. rewrite H2, H1; done. Qed.

Lemma keeps_cons o os m m' : keeps os m m' -> keeps (o :: os) m m'.
Proof. intros [L H]. split; [done|]. intros off n Hf. apply H. by apply Forall_cons in Hf as [_ Hf]. Qed.

Lemma keeps_app_l os os' m m' : keeps os m m' -> keeps (os ++ os') m m'.
Proof. intros [L H]. split; [done|]. intros off n Hf. apply H. by apply Forall_app in Hf as [Hf _]. Qed.

Lemma keeps_app_r os os' m m' : keeps os' m m' -> keeps (os ++ os') m m'.
Proof. intros [L H]. split; [done|]. intros off n Hf. apply H. by apply Forall_app in Hf as [_ Hf]. Qed.

Lemma layout_ext m m' os : length m' = length m -> layout m os -> layout m' os.
Proof. intros E. induction os as [|o os IH]; simpl; [done|]. unfold obj_at. rewrite E. naive_solver. Qed.

Lemma layout_app m os os' :
  layout m (os ++ os') <-> layout m os /\ layout m os' /\ Forall (fun o => Forall (apart o) os') os.
Proof.
  induction os as [|o os IH]; simpl; [naive_solver|]. rewrite IH, Forall_app, Forall_cons. naive_solver.
Qed.

(** A write inside an object. *)
Lemma write_obj o off bs m :
  obj_at m o -> 0 <= off -> off + Z.of_nat (length bs) <= sizeof_hots_obj_t ->
  exists m', write_at (Z.to_nat (o + off)) bs m = Ok m' /\ keeps [o] m m' /\
    read_at (Z.to_nat (o + off)) (length bs) m' = Ok bs /\
    forall off' n, 0 <= off' -> (off' + Z.of_nat n <= off \/ off + Z.of_nat (length bs) <= off') ->
      read_at (Z.to_nat (o + off')) n m' = read_at (Z.to_nat (o + off')) n m.
Proof.
  intros [H0 H1] Ho Hl. destruct (write_at_some (Z.to_nat (o + off)) bs m) as (m' & Hw & Ll); [lia|].
  exists m'. split; [done|]. split; [split; [done|]|split].
  - intros off' n Hf. apply Forall_cons in Hf as [Hf _]. apply (read_write_at_ne _ _ _ _ _ _ Hw). lia.
  - by apply read_write_at in Hw.
  - intros off' n Ho' Hd. apply (read_write_at_ne _ _ _ _ _ _ Hw). lia.
Qed.

(** A range inside one object is not touched by writes in others. *)
Lemma keeps_obj o os m m' off n :
  keeps os m m' -> Forall (apart o) os -> 0 <= o -> 0 <= off -> off + Z.of_nat n <= sizeof_hots_obj_t ->
  read_at (Z.to_nat (o + off)) n m' = read_at (Z.to_nat (o + off)) n m.
Proof.
  intros [_ H] Ha H0 Ho Hn. apply H. eapply Forall_impl; [exact Ha|]. unfold apart. intros o' ?. lia.
Qed.

(** ** Delivery *)

Definition short (r : resp) : Prop := 8 + Z.of_nat (length r.2) <= sizeof_hots_obj_t.

Lemma deliver_ok os rs m :
  layout m os -> length rs = length os -> Forall short rs ->
  exists m', deliver (map (fun o => Some (o + 8)) os) rs m = Ok m' /\ keeps os m m' /\
    forall i o r, os !! i = Some o -> rs !! i = Some r ->
      read_at (Z.to_nat (o + 8)) (length r.2) m' = Ok r.2.
Proof.
  revert rs m. induction os as [|o os IH]; intros [|[ty bs] rs] m Hly Hl Hs; simpl in Hl; try lia.
  { exists m. split_and!; try done. }
  destruct Hly as (Ho & Ha & Hly). apply Forall_cons in Hs as [Hs Hss]. unfold short in Hs. simpl in Hs.
  destruct (write_obj o 8 bs m Ho) as (m1 & Hw & Hk & Hr & _); [lia|lia|].
  destruct (IH rs m1) as (m2 & Hd & Hk2 & Hall); [eapply layout_ext; [apply Hk|done]|lia|done|].
  exists m2. cbn [map deliver]. rewrite Hw. cbn [mbind res_bind]. split; [done|]. split.
  - eapply keeps_trans; [apply (keeps_app_l [o] os); exact Hk|apply (keeps_app_r [o] os); exact Hk2].
  - intros [|i] o' r Hi Hr'; simpl in Hi, Hr'; [|by eapply Hall]. simplify_eq. simpl.
    rewrite <- Hr. apply (keeps_obj o' os _ _ 8 (length bs) Hk2 Ha); [apply Ho|lia|lia].
Qed.

(** ** The loops of [do_read] *)

(** The header a response starts with. *)
Definition resp_version (r : resp) : Z := version (word_hdr (le_val (take 8 r.2))).

Definition note_read (it : tx_rwset_item_t) (r : resp) : tx_rwset_item_t :=
  if r.1 =? resptype_code get_rdonly_success then mark_read true (resp_version r) it
  else if r.1 =? resptype_code get_rdonly_not_found then mark_read false (resp_version r) it
  else it.
Definition lock_code (it : tx_rwset_item_t) : Z :=
  resptype_code (if decide (write_mode it <> wm_insert) then get_for_upd_success else lock_for_ins_success).
Definition note_write (it : tx_rwset_item_t) (r : resp) : tx_rwset_item_t :=
  mark_locked (r.1 =? lock_code it) it.

(** The memory holds the response of an object: its header and value, and the
    value size the loops compute for it. *)
Definition obj_holds (m : list byte) (o : Z) (bs : list byte) : Prop :=
  read_at (Z.to_nat (o + 8)) (length bs) m = Ok bs.
Definition obj_sized (m : list byte) (o vs : Z) : Prop := read_at (Z.to_nat o) 8 m = Ok (le_bytes 8 vs).

Lemma obj_hdr_holds m o bs :
  0 <= o -> (8 <= length bs)%nat -> obj_holds m o bs -> obj_hdr m o = Ok (word_hdr (le_val (take 8 bs))).
Proof.
  intros H0 Hl Hh. unfold obj_holds in Hh. unfold obj_hdr.
  unfold read_at in Hh. case_in Hh; [|done]. bool_prop. injection Hh as Hh.
  rewrite read_at_ok by lia. cbn [mbind res_bind]. rewrite <- Hh. by rewrite take_take, Nat.min_l by lia.
Qed.

Lemma set_val_size_ok m o vs bs :
  obj_at m o -> u 64 vs -> obj_holds m o bs -> 8 + Z.of_nat (length bs) <= sizeof_hots_obj_t ->
  exists m', set_val_size vs o m = Ok m' /\ keeps [o] m m' /\ obj_holds m' o bs /\ obj_sized m' o vs.
Proof.
  intros Ho Hvs Hh Hl. pose proof (length_le_bytes 8 vs) as L8.
  destruct (write_obj o 0 (le_bytes 8 vs) m Ho) as (m' & Hw & Hk & Hr & Hne);
    [lia|rewrite L8; done|]. rewrite Z.add_0_r in *.
  exists m'. split; [done|]. split; [done|]. split.
  - unfold obj_holds. rewrite Hne; [done|lia|right; rewrite L8; lia].
  - unfold obj_sized. by rewrite L8 in Hr.
Qed.

Definition read_codes : list Z :=
  map resptype_code [get_rdonly_success; get_rdonly_not_found; get_rdonly_locked].

(** A response to a read is well formed. *)
Definition read_resp (r : resp) : Prop :=
  r.1 ∈ read_codes /\ short r /\ (r.1 <> resptype_code get_rdonly_locked -> (8 <= length r.2)%nat).

Definition reads_status (rs : list resp) (st : tx_status_t) : tx_status_t :=
  if existsb (fun r => r.1 =? resptype_code get_rdonly_locked) rs then must_abort else st.

(** The value size noted for a read. *)
Definition read_size (r : resp) : Z :=
  if r.1 =? resptype_code get_rdonly_success then Z.of_nat (length r.2) - 8 else 0.

Lemma reads_status_cons r rs st :
  reads_status (r :: rs) st =
  reads_status rs (if r.1 =? resptype_code get_rdonly_locked then must_abort else st).
Proof.
  unfold reads_status. cbn [existsb]. destruct (r.1 =? resptype_code get_rdonly_locked); simpl; by case_match.
Qed.

Lemma holds_keeps o os m m' bs :
  keeps os m m' -> Forall (apart o) os -> 0 <= o -> 8 + Z.of_nat (length bs) <= sizeof_hots_obj_t ->
  obj_holds m o bs -> obj_holds m' o bs.
Proof. intros Hk Ha H0 Hl H. unfold obj_holds. rewrite (keeps_obj o os m m' 8); done || lia. Qed.

Lemma sized_keeps o os m m' vs :
  keeps os m m' -> Forall (apart o) os -> 0 <= o -> obj_sized m o vs -> obj_sized m' o vs.
Proof.
  intros Hk Ha H0 H. unfold obj_sized.
  pose proof (keeps_obj o os m m' 0 8 Hk Ha H0) as E. rewrite Z.add_0_r in E. by rewrite E.
Qed.

(** Writes in some objects leave what is known of the others in place. *)
Lemma all_keep (P : list byte -> tx_rwset_item_t -> resp -> Prop) os its rs m m' :
  (forall it r, 0 <= obj it -> Forall (apart (obj it)) os -> short r -> P m it r -> P m' it r) ->
  Forall (fun o => Forall (apart o) (map obj its)) os -> layout m (map obj its) -> Forall short rs ->
  Forall2 (P m) its rs -> Forall2 (P m') its rs.
Proof.
  intros HP Ha Hly Hs H. induction H as [|it r its rs H _ IH]; [constructor|].
  simpl in Ha, Hly. apply Forall_cons in Hs as [Hs Hss]. destruct Hly as ([H0 _] & _ & Hly).
  constructor; [apply HP; try done|apply IH; try done]; (eapply Forall_impl; [exact Ha|]);
    intros o Ho; apply Forall_cons in Ho as [Ho Hos]; [|done]. unfold apart in *. lia.
Qed.

Lemma all_hold_keeps os its rs m m' :
  keeps os m m' -> Forall (fun o => Forall (apart o) (map obj its)) os -> layout m (map obj its) -> Forall short rs ->
  Forall2 (fun it r => obj_holds m (obj it) r.2) its rs ->
  Forall2 (fun it r => obj_holds m' (obj it) r.2) its rs.
Proof.
  intros Hk. apply (all_keep (fun m it r => obj_holds m (obj it) r.2)).
  intros it r H0 Ha Hs. by apply (holds_keeps _ os m).
Qed.

Lemma note_reads_ok its rs more st m :
  layout m (map obj its) -> length rs = length its -> Forall read_resp rs ->
  Forall2 (fun it r => obj_holds m (obj it) r.2) its rs ->
  exists m', note_reads its (rs ++ more) st m =
      Ok (zip_with note_read its rs, more, reads_status rs st, m') /\
    keeps (map obj its) m m' /\
    Forall2 (fun it r => obj_holds m' (obj it) r.2 /\
      (r.1 <> resptype_code get_rdonly_locked -> obj_sized m' (obj it) (read_size r))) its rs.
Proof.
  revert rs st m. induction its as [|it its IH]; intros [|[ty bs] rs] st m Hly Hl Hwf Hh; simpl in Hl; try lia.
  { exists m. split_and!; try done. }
  destruct Hly as (Ho & Ha & Hly). apply Forall_cons in Hwf as [(Hc & Hsh & H8) Hwf].
  apply Forall2_cons in Hh as [Hb Hh]. unfold short in Hsh. simpl in Hsh, H8, Hb. cbn [fst] in Hc.
  assert (exists m1, (if ty =? resptype_code get_rdonly_success then
               m ← set_val_size (wrap 64 (Z.of_nat (length bs) - 8)) (obj it) m;
               h ← obj_hdr m (obj it);
               Ok (mark_read true (version h) it, st, m)
             else if ty =? resptype_code get_rdonly_not_found then
               m ← set_val_size 0 (obj it) m;
               h ← obj_hdr m (obj it);
               Ok (mark_read false (version h) it, st, m)
             else if ty =? resptype_code get_rdonly_locked then Ok (it, must_abort, m)
             else Ok (it, st, m)) =
    Ok (note_read it (ty, bs), (if ty =? resptype_code get_rdonly_locked then must_abort else st), m1) /\
    keeps [obj it] m m1 /\ obj_holds m1 (obj it) bs /\
    (ty <> resptype_code get_rdonly_locked -> obj_sized m1 (obj it) (read_size (ty, bs))))
    as (m1 & E1 & Hk1 & Hb1 & Hs1).
  { change sizeof_hots_obj_t with 56 in *. unfold note_read, read_size. cbn [fst snd].
    apply elem_of_cons in Hc as [->|Hc]; [|apply elem_of_cons in Hc as [->|Hc];
      [|apply list_elem_of_singleton in Hc as ->]].
    - specialize (H8 ltac:(done)).
      destruct (set_val_size_ok m (obj it) (Z.of_nat (length bs) - 8) bs Ho) as (m1 & E & K & B & Z1);
        [unfold u; lia|done|done|].
      exists m1. cbn [resptype_code Z.eqb]. rewrite wrap_id, E by (unfold u; lia). cbn [mbind res_bind].
      rewrite (obj_hdr_holds m1 (obj it) bs) by (done || apply Ho). cbn [mbind res_bind]. done.
    - specialize (H8 ltac:(done)).
      destruct (set_val_size_ok m (obj it) 0 bs Ho) as (m1 & E & K & B & Z1); [done|done|done|].
      exists m1. cbn [resptype_code Z.eqb]. rewrite E. cbn [mbind res_bind].
      rewrite (obj_hdr_holds m1 (obj it) bs) by (done || apply Ho). cbn [mbind res_bind]. done.
    - exists m. split_and!; try done. }
  destruct (IH rs (if ty =? resptype_code get_rdonly_locked then must_abort else st) m1)
    as (m2 & E2 & Hk2 & Hall); [eapply layout_ext; [apply Hk1|done]|lia|done| |].
  { apply (all_hold_keeps [obj it] its rs m); try done; [by constructor|].
    eapply Forall_impl; [exact Hwf|]. by intros r (_ & ? & _). }
  exists m2. cbn [app note_reads]. rewrite E1. cbn [mbind res_bind]. rewrite E2. cbn [mbind res_bind].
  rewrite reads_status_cons. split; [done|]. split.
  - eapply keeps_trans; [apply (keeps_app_l [obj it]); exact Hk1|apply (keeps_app_r [obj it]); exact Hk2].
  - constructor; [|done]. cbn [snd fst]. destruct Ho as [H0 _]. split.
    + by apply (holds_keeps _ (map obj its) m1).
    + intros Hty. by apply (sized_keeps _ (map obj its) m1), Hs1.
Qed.

(** Responses to the locking reads. *)
Definition write_resp (it : tx_rwset_item_t) (r : resp) : Prop :=
  r.1 ∈ map resptype_code
    (if decide (write_mode it <> wm_insert)
     then [get_for_upd_success; get_for_upd_not_found; get_for_upd_locked]
     else [lock_for_ins_success; lock_for_ins_exists; lock_for_ins_locked]) /\
  short r /\ (r.1 = lock_code it -> (8 <= length r.2)%nat).

Fixpoint writes_status (its : list tx_rwset_item_t) (rs : list resp) (st : tx_status_t) : tx_status_t :=
  match its, rs with
  | it :: its, r :: rs => writes_status its rs (if r.1 =? lock_code it then st else must_abort)
  | _, _ => st
  end.

Lemma writes_status_abort its rs : writes_status its rs must_abort = must_abort.
Proof. revert rs. induction its as [|it its IH]; intros [|r rs]; simpl; try done. by case_match. Qed.

Lemma writes_status_ok its rs st :
  length rs = length its -> st <> must_abort -> writes_status its rs st = st ->
  Forall2 (fun it r => r.1 = lock_code it) its rs.
Proof.
  revert rs. induction its as [|it its IH]; intros [|r rs] Hl Hst H; simpl in *; try lia; [constructor|].
  destruct (Z.eqb_spec r.1 (lock_code it)); [constructor; [done|]; apply IH; [lia|done..]|].
  rewrite writes_status_abort in H. by destruct Hst.
Qed.

Lemma note_writes_ok its rs st m :
  layout m (map obj its) -> Forall2 write_resp its rs ->
  Forall2 (fun it r => obj_holds m (obj it) r.2) its rs ->
  exists m', note_writes its rs st m = Ok (zip_with note_write its rs, [], writes_status its rs st, m') /\
    keeps (map obj its) m m' /\
    Forall2 (fun it r => obj_holds m' (obj it) r.2 /\
      (write_mode it <> wm_insert -> r.1 = lock_code it ->
         obj_sized m' (obj it) (Z.of_nat (length r.2) - 8))) its rs.
Proof.
  intros Hly Hwf Hh. revert st m Hly Hh.
  induction Hwf as [|it [ty bs] its rs (Hc & Hsh & H8) Hwf IH]; intros st m Hly Hh.
  { exists m. split_and!; try done. }
  destruct Hly as (Ho & Ha & Hly). apply Forall2_cons in Hh as [Hb Hh].
  unfold short in Hsh. cbn [fst snd] in *. change sizeof_hots_obj_t with 56 in *.
  assert (exists m1, (if decide (write_mode it <> wm_insert) then
               if ty =? resptype_code get_for_upd_success then
                 m ← set_val_size (wrap 64 (Z.of_nat (length bs) - 8)) (obj it) m;
                 Ok (mark_locked true it, st, m)
               else if (ty =? resptype_code get_for_upd_not_found) || (ty =? resptype_code get_for_upd_locked) then
                 Ok (mark_locked false it, must_abort, m)
               else Err ExitFail
             else
               if ty =? resptype_code lock_for_ins_success then Ok (mark_locked true it, st, m)
               else if (ty =? resptype_code lock_for_ins_exists) || (ty =? resptype_code lock_for_ins_locked) then
                 Ok (mark_locked false it, must_abort, m)
               else Err ExitFail) =
      Ok (note_write it (ty, bs), (if ty =? lock_code it then st else must_abort), m1) /\
    keeps [obj it] m m1 /\ obj_holds m1 (obj it) bs /\
    (write_mode it <> wm_insert -> ty = lock_code it -> obj_sized m1 (obj it) (Z.of_nat (length bs) - 8)))
    as (m1 & E1 & Hk1 & Hb1 & Hs1).
  { unfold note_write, lock_code in *. cbn [fst snd]. destruct (decide (write_mode it <> wm_insert)) as [Hm|Hm].
    - apply elem_of_cons in Hc as [->|Hc];
        [|exists m; apply elem_of_cons in Hc as [->|Hc]; [|apply list_elem_of_singleton in Hc as ->];
          split_and!; done].
      specialize (H8 eq_refl).
      destruct (set_val_size_ok m (obj it) (Z.of_nat (length bs) - 8) bs Ho) as (m1 & E & K & B & Z1);
        [unfold u; lia|done|change sizeof_hots_obj_t with 56; lia|].
      exists m1. cbn [resptype_code Z.eqb]. rewrite wrap_id, E by (unfold u; lia). cbn [mbind res_bind]. done.
    - exists m. apply elem_of_cons in Hc as [->|Hc];
        [|apply elem_of_cons in Hc as [->|Hc]; [|apply list_elem_of_singleton in Hc as ->]];
        split_and!; done. }
  destruct (IH (if ty =? lock_code it then st else must_abort) m1) as (m2 & E2 & Hk2 & Hall);
    [eapply layout_ext; [apply Hk1|done]| |].
  { apply (all_hold_keeps [obj it] its rs m); try done; [by constructor|]. clear -Hwf. induction Hwf as [|? ? ? ? (_ & ? & _)]; by constructor. }
  exists m2. cbn [note_writes]. rewrite E1. cbn [mbind res_bind]. rewrite E2. cbn [mbind res_bind writes_status fst].
  split; [done|]. split.
  - eapply keeps_trans; [apply (keeps_app_l [obj it]); exact Hk1|apply (keeps_app_r [obj it]); exact Hk2].
  - constructor; [|done]. cbn [snd fst]. destruct Ho as [H0 _]. split.
    + by apply (holds_keeps _ (map obj its) m1).
    + intros Hm Hty. by apply (sized_keeps _ (map obj its) m1), Hs1.
Qed.

(** ** The loop of [validate] *)

Definition read_valid (it : tx_rwset_item_t) (r : resp) : bool :=
  (r.1 =? resptype_code (if exec_rs_exists it then get_rdonly_success else get_rdonly_not_found)) &&
  (resp_version r =? exec_rs_version it).

Lemma check_reads_ok its rs m :
  layout m (map obj its) -> Forall read_resp rs ->
  Forall2 (fun it r => obj_holds m (obj it) r.2) its rs ->
  exists ok, check_reads its rs m = Ok ok /\
    (ok = true <-> Forall2 (fun it r => read_valid it r = true) its rs).
Proof.
  intros Hly Hwf Hh. induction Hh as [|it [ty bs] its rs Hb Hh IH]; [exists true; by repeat constructor|].
  destruct Hly as (Ho & Ha & Hly). apply Forall_cons in Hwf as [(Hc & _ & H8) Hwf]. cbn [fst snd] in *.
  destruct (IH Hly Hwf) as (ok & E & Hok). cbn [check_reads].
  replace (if exec_rs_exists it then ty =? resptype_code get_rdonly_success
           else ty =? resptype_code get_rdonly_not_found)
    with (ty =? resptype_code (if exec_rs_exists it then get_rdonly_success else get_rdonly_not_found))
    by (by destruct (exec_rs_exists it)).
  assert (read_valid it (ty, bs) = false -> false = true <-> Forall2 (fun it r => read_valid it r = true) (it :: its) ((ty, bs) :: rs)) as Hno.
  { intros E'. split; [done|]. intros H. apply Forall2_cons in H as [H _]. congruence. }
  unfold read_valid, resp_version in Hno. cbn [fst snd] in Hno.
  destruct (ty =? _) eqn:Et; [|exists false; split; [done|by apply Hno]].
  rewrite (obj_hdr_holds m (obj it) bs); [|apply Ho| |done].
  2:{ apply H8. apply Z.eqb_eq in Et as ->. by destruct (exec_rs_exists it). }
  cbn [mbind res_bind]. destruct (version _ =? exec_rs_version it) eqn:Ev; simpl; [|exists false; split; [done|by apply Hno]].
  exists ok. split; [done|]. rewrite Hok. split; [|by intros H; apply Forall2_cons in H as [_ H]].
  intros H. constructor; [|done]. unfold read_valid, resp_version. cbn [fst snd]. by rewrite Et, Ev.
Qed.

End TxMem.
