(* ===== verification/TxSpec.v ===== *)
(** * Specifications of the transaction methods: locks, facts and execution

    The locks a coroutine holds and the facts it knows, as invariants under the
    operations of all other callers; the requests the methods build; and the
    specification of [do_read]. *)

From S2P Require Import Prelude Util Hots Mappings FixedTable FixedTableInv FixedTableOps FixedTableSteps Datastore DatastoreSpec.
From S2P Require Import RpcDefs RpcBatch Tx TxWorld TxBuckets TxMem.
From Stdlib Require Import ZArith Lia Bool.
From stdpp Require Import base numbers list gmap sets relations.
#[local] Open Scope Z_scope.
Import FixedTable FixedTableInv FixedTableOps FixedTableSteps DatastoreSpec RpcDefs RpcBatch Tx TxWorld TxBuckets TxMem.

Module TxSpec.
Section Spec.
Context (C : cluster) (HC : cluster_wf C) (self pkt : Z) (Hself : caller_wf self).

(** The bucket of an item at its primary. *)
Definition iloc (it : tx_rwset_item_t) : loc := loc_of C (primary_mn it) (rpc_reqtype it) (keyhash it).

Record item_wf (it : tx_rwset_item_t) : Prop := {
  iw_key : u 64 (key it) /\ key it <> kFtInvalidKey;
  iw_hash : u 48 (keyhash it);
  iw_prim : cl_prim C (rpc_reqtype it) = true;
  iw_home : keyhash it = cl_hash C (key it) /\ primary_mn it = cl_mn C (keyhash it);
  iw_backs r : 1 <= r <= cl_nback C ->
    backup_mn it !! Z.to_nat (r - 1) = Some (cl_back C (keyhash it) r);
  iw_shape : Z.of_nat (length (backup_mn it)) = HOTS_MAX_BACKUPS /\ length (pad it) = 14%nat
}.

Lemma iw_type it : item_wf it -> RPC_MICA_REQ_BASE <= rpc_reqtype it.
Proof. intros H. apply (cw_type C HC), H. Qed.
Lemma iw_vsz it : item_wf it -> 0 <= cl_vsz C (rpc_reqtype it) <= HOTS_MAX_VALUE.
Proof. intros H. apply (cw_vsz C HC), H. Qed.
Lemma iloc_ploc it : item_wf it -> iloc it = ploc C (rpc_reqtype it) (key it).
Proof. intros [_ _ _ [E1 E2] _ _]. unfold iloc, ploc. by rewrite E2, E1. Qed.

Definition ivsz (it : tx_rwset_item_t) : Z := cl_vsz C (rpc_reqtype it).

(** ** Locks and facts *)

Definition occ (l : loc) (L : list loc) : Z := Z.of_nat (length (filter (fun l' => l' = l) L)).

(** The coroutine holds exactly the locks [L], counted with multiplicity. *)
Definition owns (L : list loc) (w : world) : Prop :=
  forall mn ty i, cl_prim C ty = true ->
    (occ (mn, ty, i) L = 0 -> ~ a_held self (w (mn, ty, i))) /\
    (0 < occ (mn, ty, i) L -> a_held self (w (mn, ty, i)) /\ a_cnt (w (mn, ty, i)) = occ (mn, ty, i) L).

(** What has been read with a version, where a table that is only read still has the
    same version and value; and what is known because it is locked. *)
Inductive fact : Type :=
| Fread (ver k : Z) (v : option (list byte)) (l : loc)
| Fsure (k : Z) (v : option (list byte)) (l : loc).

Definition holds (w : world) (f : fact) : Prop :=
  match f with
  | Fread ver k v l => cl_prim C l.1.2 = true /\ known self ver k v (w l) /\
      (cl_ro C l.1.2 = true -> ver = version (word_hdr (a_ts (w l))) /\ a_map (w l) !! k = v)
  | Fsure k v l => cl_prim C l.1.2 = true /\ a_held self (w l) /\ a_map (w l) !! k = v
  end.

Lemma occ_cons l l' L : occ l (l' :: L) = (if decide (l' = l) then 1 else 0) + occ l L.
Proof. unfold occ. rewrite filter_cons. case_decide; simpl; lia. Qed.

Lemma occ_nonneg l L : 0 <= occ l L.
Proof. unfold occ. lia. Qed.

Lemma occ_perm l L L' : L ≡ₚ L' -> occ l L = occ l L'.
Proof. intros H. unfold occ. by rewrite H. Qed.

#[global] Instance owns_proper : Proper ((≡ₚ) ==> eq ==> iff) owns.
Proof. intros L L' HL w ? <-. unfold owns. by setoid_rewrite (fun l => occ_perm l L L' HL). Qed.

Lemma owns_ext L w w' : (forall l, w' l = w l) -> owns L w -> owns L w'.
Proof. intros E H mn ty i. rewrite E. apply H. Qed.

Lemma holds_ext w w' f : (forall l, w' l = w l) -> holds w f -> holds w' f.
Proof. intros E. destruct f; simpl; by rewrite E. Qed.

Lemma peaceful_calm w l : peaceful C w -> cl_prim C l.1.2 = true -> calm (w l).
Proof. intros H Hp. destruct l as [[mn ty] i]. by apply H. Qed.

(** What is locked is not in a table that is only read. *)
Lemma held_mutable w l : peaceful C w -> cl_prim C l.1.2 = true -> a_held self (w l) -> cl_ro C l.1.2 = false.
Proof.
  intros (_ & _ & H) Hp Hh. destruct (cl_ro C l.1.2) eqn:E; [|done]. destruct l as [[mn ty] i]. apply held_unlocked in Hh.
  by rewrite H in Hh.
Qed.

Lemma wupd_eq l a w : wupd l a w l = a.
Proof. unfold wupd. by rewrite decide_True. Qed.
Lemma wupd_ne l l' a w : l' <> l -> wupd l a w l' = w l'.
Proof. intros. unfold wupd. by rewrite decide_False. Qed.
Lemma wupd_same l w l' : wupd l (w l) w l' = w l'.
Proof. unfold wupd. by case_decide; subst. Qed.

(** A step of the environment, seen from one primary bucket. *)
Lemma env_at w w' l :
  env C self w w' -> cl_prim C l.1.2 = true -> w' l = w l \/ others self (w l) (w' l).
Proof.
  intros He Hp. destruct He as [w' E|mn ty i c a' Hp' _ Hc Hb|mn ty i a' Hp']; [by left| |].
  - destruct (decide (l = (mn, ty, i))) as [->|Hne].
    + right. exists c. by rewrite wupd_eq.
    + left. by apply wupd_ne.
  - left. apply wupd_ne. intros ->. simpl in Hp. congruence.
Qed.

(** Nobody changes a table that is only read. *)
Lemma env_ro w w' l : env C self w w' -> cl_prim C l.1.2 = true -> cl_ro C l.1.2 = true -> w' l = w l.
Proof.
  intros He Hp Hr. destruct He as [w' E|mn ty i c a' Hp' Hr' Hc Hb|mn ty i a' Hp']; [done| |]; apply wupd_ne; intros ->; simpl in *; congruence.
Qed.

Lemma owns_env L w w' :
  peaceful C w -> peaceful C w' -> env C self w w' -> owns L w -> owns L w'.
Proof.
  intros Hw Hw' He H mn ty i Hp. destruct (H mn ty i Hp) as [H0 H1].
  destruct (env_at w w' (mn, ty, i) He Hp) as [->|Ho]; [done|]. split.
  - intros E Hh. apply (H0 E). apply locker_held; [done|by apply Hw|]. eapply others_locker; [done|exact Ho|apply Hh].
  - intros E. destruct (H1 E) as [Hh Hc]. by rewrite (others_held self _ _ Ho Hh).
Qed.

Lemma holds_env w w' f :
  peaceful C w -> peaceful C w' -> env C self w w' -> holds w f -> holds w' f.
Proof.
  intros Hw Hw' He H. destruct f as [ver k v l|k v l]; simpl in *.
  - destruct H as (Hp & Hk & Hro). split; [done|]. split; [|intros Hr; rewrite (env_ro w w' l He Hp Hr); auto].
    destruct (env_at w w' l He Hp) as [->|Ho]; [done|]. apply (known_others self Hself ver k v (w l) (w' l)); try done; by apply peaceful_calm.
  - destruct H as (Hp & Hh & Hm). destruct (env_at w w' l He Hp) as [->|Ho]; [done|].
    by rewrite (others_held self _ _ Ho Hh).
Qed.

(** Taking a lock. *)
Lemma owns_lock L w l a' :
  cl_prim C l.1.2 = true -> a_lock self (w l) = Some a' -> owns L w -> owns (l :: L) (wupd l a' w).
Proof.
  intros Hp Hl H mn ty i Hp'. rewrite occ_cons. destruct (H mn ty i Hp') as [H0 H1].
  pose proof (occ_nonneg (mn, ty, i) L). destruct (decide (l = (mn, ty, i))) as [->|Hne].
  - rewrite wupd_eq. split; [lia|]. intros _.
    destruct (lock_self self (w (mn, ty, i)) a' Hl) as (_ & El & [(Hu & Et & Ec)|(Hu & Els & Et & Ec)]).
    + split; [split; [|done]|].
      * rewrite Et. apply negb_false_iff. rewrite <- unlocked_not_locked.
        rewrite is_unlocked_even, Z.negb_odd in *. by rewrite Z.even_add, Hu.
      * rewrite Ec. destruct (Z.eq_dec (occ (mn, ty, i) L) 0); [lia|]. destruct H1 as [Hh _]; [lia|].
        apply held_unlocked in Hh. congruence.
    + assert (a_held self (w (mn, ty, i))) as Hh.
      { split; [|done]. rewrite unlocked_not_locked in Hu. by apply negb_false_iff in Hu. }
      split; [split; [rewrite Et; apply Hh|done]|]. rewrite Ec. destruct H1 as [_ ->]; [|lia].
      destruct (Z.eq_dec (occ (mn, ty, i) L) 0) as [E|]; [by apply H0 in E|lia].
  - rewrite wupd_ne by done. by rewrite Z.add_0_l.
Qed.

Lemma holds_lock w l a' f :
  cl_ro C l.1.2 = false -> a_lock self (w l) = Some a' -> holds w f -> holds (wupd l a' w) f.
Proof.
  intros Hro Hl H. destruct f as [ver k v l'|k v l']; simpl in *; destruct (decide (l' = l)) as [->|Hne].
  - rewrite wupd_eq. destruct H as (Hp & Hk & _). split; [done|]. split; [by eapply known_lock|by rewrite Hro].
  - by rewrite wupd_ne.
  - rewrite wupd_eq. destruct H as (Hp & Hh & Hm).
    destruct (lock_self self _ a' Hl) as (-> & El & [(Hu & _ & _)|(Hu & Els & Et & Ec)]).
    + apply held_unlocked in Hh. congruence.
    + split_and!; try done. split; [rewrite Et; apply Hh|done].
  - by rewrite wupd_ne.
Qed.

(** A lock that is released again. *)
Lemma try_self a a' :
  a_lock self a = Some a' -> calm a ->
  (is_unlocked (a_ts a) = true /\ ~ a_held self (a_unlock a')) \/
  (is_unlocked (a_ts a) = false /\ a_unlock a' = a).
Proof.
  intros Hl ((Hw0 & Hw) & Hcnt & Hrg). destruct (lock_self self a a' Hl) as (Em & El & [(Hu & Et & Ec)|(Hu & Els & Et & Ec)]).
  - left. split; [done|]. unfold a_unlock. rewrite Ec. simpl. intros [_ E]. simpl in E.
    by apply (self_valid self Hself).
  - right. split; [done|]. rewrite unlocked_not_locked in Hu. apply negb_false_iff in Hu. rewrite Hu in Hw.
    unfold a_unlock. rewrite Ec, (proj2 (Z.eqb_neq _ 1)) by lia. destruct a, a'. simpl in *. subst. f_equal. lia.
Qed.

Lemma owns_try L w l a' :
  cl_prim C l.1.2 = true -> calm (w l) -> a_lock self (w l) = Some a' -> owns L w ->
  owns L (wupd l (a_unlock a') w).
Proof.
  intros Hp Hc Hl H mn ty i Hp'. destruct (H mn ty i Hp') as [H0 H1].
  destruct (decide ((mn, ty, i) = l)) as [<-|Hne]; [|by rewrite wupd_ne].
  rewrite wupd_eq. destruct (try_self _ a' Hl Hc) as [[Hu Hn]|[_ ->]]; [|done].
  split; [done|]. intros E. destruct (H1 E) as [Hh _]. apply held_unlocked in Hh. congruence.
Qed.

Lemma holds_try w l a' f :
  cl_ro C l.1.2 = false -> calm (w l) -> a_lock self (w l) = Some a' -> holds w f -> holds (wupd l (a_unlock a') w) f.
Proof.
  intros Hro Hc Hl H. destruct f as [ver k v l'|k v l']; simpl in *; destruct (decide (l' = l)) as [->|Hne];
    try by rewrite wupd_ne.
  - rewrite wupd_eq. destruct H as (Hp & Hk & _). split; [done|]. split; [by eapply known_try|by rewrite Hro].
  - rewrite wupd_eq. destruct H as (Hp & Hh & Hm).
    destruct (try_self _ a' Hl Hc) as [[Hu Hn]|[_ ->]]; [|done]. apply held_unlocked in Hh. congruence.
Qed.

(** ** Good worlds *)

(** The backups agree on every key whose primary bucket is free or held by this
    coroutine. *)
Definition insync (w : world) : Prop :=
  forall ty k, cl_prim C ty = true ->
    is_unlocked (a_ts (w (ploc C ty k))) = true \/ a_held self (w (ploc C ty k)) -> agree C w ty k.

Definition good (w : world) : Prop := peaceful C w /\ insync w.

Lemma good_peaceful w : good w -> peaceful C w.
Proof. by intros []. Qed.
Lemma good_calm w l : good w -> cl_prim C l.1.2 = true -> calm (w l).
Proof. intros [H _]. by apply peaceful_calm. Qed.

Lemma bloc_prim ty k r : cl_prim C ty = true -> 1 <= r <= cl_nback C -> cl_prim C (bloc C ty k r).1.2 = false.
Proof. intros Hp Hr. by apply (cw_back C HC). Qed.

Lemma good_synced w : good w -> synced C w.
Proof. intros [_ H] ty k Hty Hu. apply H; auto. Qed.

Lemma good_env w w' : good w -> env C self w w' -> tidy C w w' -> good w'.
Proof.
  intros Hg He [Hp' Hs']. specialize (Hs' (good_synced w Hg)). destruct Hg as [Hp Hs]. specialize (Hp' Hp).
  split; [done|]. intros ty k Hty [Hu|Hh]; [by apply Hs'|].
  assert (w' (ploc C ty k) = w (ploc C ty k)) as Ew.
  { destruct (env_at w w' (ploc C ty k) He Hty) as [|Ho]; [done|]. apply (others_held self); [done|].
    apply locker_held; [done|by apply Hp|]. eapply (others_locker self Hself); [exact Ho|apply Hh]. }
  intros r Hr. rewrite Ew in Hh |- *. rewrite <- (Hs ty k Hty (or_intror Hh) r Hr).
  destruct He as [w' E|mn ty' i c a' Hp1 _ Hc Hb|mn ty' i a' Hp1 Hk].
  - by rewrite E.
  - rewrite wupd_ne; [done|]. intros E. pose proof (bloc_prim ty k r Hty Hr) as Hf. rewrite E in Hf. simpl in Hf. congruence.
  - destruct (decide (bloc C ty k r = (mn, ty', i))) as [E|E].
    + rewrite E, wupd_eq. by apply (Hk ty k r).
    + by rewrite wupd_ne.
Qed.

(** Own operations on primary buckets are what the others expect. *)
Lemma fair_good w w' :
  good w' -> (forall c, caller_wf c -> c <> self -> env C c w w') -> fair C self w w'.
Proof. intros Hg He. split; [|done]. split; intros _; [apply Hg|by apply good_synced]. Qed.

Lemma fair_idle w w' : good w' -> (forall l, w' l = w l) -> fair C self w w'.
Proof. intros Hg E. apply fair_good; [done|]. intros. by apply env_idle. Qed.

Lemma env_self l a' w c :
  cl_prim C l.1.2 = true -> cl_ro C l.1.2 = false -> bstep self (w l) a' -> c <> self -> env C c w (wupd l a' w).
Proof. intros Hp Hr Hb Hc. destruct l as [[mn ty] i]. by apply (env_prim C c w mn ty i self). Qed.

(** A change that moves no value and frees or takes only what was free or own. *)
Lemma insync_maps w w' :
  (forall l, a_map (w' l) = a_map (w l)) ->
  (forall l, cl_prim C l.1.2 = true -> is_unlocked (a_ts (w' l)) = true \/ a_held self (w' l) ->
     is_unlocked (a_ts (w l)) = true \/ a_held self (w l)) ->
  insync w -> insync w'.
Proof. intros Hm Hl H ty k Hty Hf r Hr. rewrite !Hm. apply H; [done| |done]. by apply Hl. Qed.

Lemma peaceful_wupd l a w :
  cl_ro C l.1.2 = false -> peaceful C w -> calm a ->
  (forall k, cl_prim C l.1.2 = true -> ploc C l.1.2 k = l -> cl_ok C l.1.2 k (a_map a !! k)) ->
  peaceful C (wupd l a w).
Proof.
  intros Hro (H1 & H2 & H3) Hc Hv. split; [|split].
  - intros mn ty i Hp. unfold wupd. case_decide; [done|by apply H1].
  - intros ty k Hp. unfold wupd. case_decide as E; [|by apply H2]. rewrite <- E in Hv. by apply Hv.
  - intros mn ty i Hp Hr. rewrite wupd_ne; [by apply H3|]. intros <-. simpl in Hro. congruence.
Qed.

(** A bucket that keeps its contents. *)
Lemma peaceful_same l a w : cl_ro C l.1.2 = false -> peaceful C w -> calm a -> a_map a = a_map (w l) -> peaceful C (wupd l a w).
Proof.
  intros Hro H Hc E. apply peaceful_wupd; [done..|]. intros k Hp El. rewrite E, <- El. simpl. by apply H.
Qed.

(** Only the primary buckets matter. *)
Lemma peaceful_prim w w' : (forall l, cl_prim C l.1.2 = true -> w' l = w l) -> peaceful C w -> peaceful C w'.
Proof. intros E (H1 & H2 & H3). split; [|split]; intros; rewrite E by done; auto. Qed.

Lemma peaceful_ext w w' : (forall l, w' l = w l) -> peaceful C w -> peaceful C w'.
Proof. intros E. by apply peaceful_prim. Qed.

Lemma good_ext w w' : (forall l, w' l = w l) -> good w -> good w'.
Proof.
  intros E [Hp Hs]. split; [by eapply peaceful_ext|]. eapply insync_maps; [| |exact Hs].
  - intros l. by rewrite E.
  - intros l _. by rewrite E.
Qed.

Lemma unlocked_succ ts : is_unlocked (ts + 1) = negb (is_unlocked ts).
Proof. rewrite !is_unlocked_even, !Z.negb_odd, Z.even_add. by destruct (Z.even ts). Qed.

Lemma locked_false ts : is_unlocked ts = false -> is_locked ts = true.
Proof. rewrite unlocked_not_locked. apply negb_false_iff. Qed.

Lemma range_u64 ts : ts_range ts -> u 64 ts.
Proof. unfold ts_range, u. change kTimestampCanary with 5. lia. Qed.

Lemma calm_lock a a' :
  calm a -> a_lock self a = Some a' -> a_cnt a + 1 < kMaxNumLocks -> ts_range (a_ts a') -> calm a'.
Proof.
  intros ((_ & Hw) & Hc & Hr) Hl Hcnt Hr'. destruct (lock_self self a a' Hl) as (_ & _ & Hts).
  split; [|split; [|done]]; [split; [by apply range_u64|]|].
  - destruct Hts as [(Hu & Et & Ec)|(Hu & _ & Et & Ec)]; rewrite Et, Ec.
    + rewrite (locked_false (a_ts a + 1)) by (by rewrite unlocked_succ, Hu). done.
    + rewrite (locked_false _ Hu) in *. lia.
  - destruct Hts as [(Hu & Et & Ec)|(Hu & _ & Et & Ec)]; rewrite Ec; [done|lia].
Qed.

(** Releasing one lock of a held bucket, possibly with new contents. *)
Lemma calm_unlock a a1 :
  calm a -> a_held self a -> a_ts a1 = a_ts a -> a_locker a1 = a_locker a -> a_cnt a1 = a_cnt a ->
  ts_range (a_ts (a_unlock a1)) -> calm (a_unlock a1).
Proof.
  intros ((_ & Hw) & Hc & Hr) [Hl _] Et El Ec Hr'. rewrite Hl in Hw.
  split; [|split; [|done]]; [split; [by apply range_u64|]|]; revert Hr'; unfold a_unlock; rewrite Ec;
    destruct (Z.eqb_spec (a_cnt a) 1) as [E|E]; simpl; intros Hr'.
  - assert (is_locked (wrap 64 (a_ts a1 + 1)) = false) as ->; [|done].
    assert (u 64 (a_ts a1 + 1)) as Hu by (rewrite Et; unfold ts_range, u in *; change kTimestampCanary with 5 in *; lia).
    rewrite wrap_id, Et by done. pose proof (unlocked_succ (a_ts a)) as Hs. rewrite !unlocked_not_locked, Hl in Hs.
    simpl in Hs. by apply negb_true_iff in Hs.
  - rewrite Et, Hl. lia.
  - done.
  - lia.
Qed.

Lemma occ_length l L : occ l L <= Z.of_nat (length L).
Proof. unfold occ. pose proof (length_filter (fun l' => l' = l) L). lia. Qed.

(** A coroutine's own lock counts are bounded by the number of its locks. *)
Lemma own_count L w l a' :
  owns L w -> cl_prim C l.1.2 = true -> calm (w l) -> Z.of_nat (length L) + 1 < kMaxNumLocks -> a_lock self (w l) = Some a' ->
  a_cnt (w l) + 1 < kMaxNumLocks.
Proof.
  intros Ho Hp ((_ & Hw) & _) HL Hl. destruct (lock_self self (w l) a' Hl) as (_ & _ & Hts).
  destruct Hts as [(Hu & _)|(Hu & Els & _)].
  - rewrite unlocked_not_locked in Hu. apply negb_true_iff in Hu. rewrite Hu in Hw. destruct Hw as [_ ->]. done.
  - destruct l as [[mn ty] i]. destruct (Ho mn ty i Hp) as [H0 H1]. pose proof (occ_length (mn, ty, i) L).
    pose proof (occ_nonneg (mn, ty, i) L). destruct (Z.eq_dec (occ (mn, ty, i) L) 0) as [E|E].
    + exfalso. apply (H0 E). split; [by apply locked_false|done].
    + destruct H1 as [_ ->]; lia.
Qed.

(** ** Histories *)

Definition held (L : list loc) (w : world) : Prop :=
  forall l, l ∈ L -> cl_prim C l.1.2 = true -> a_held self (w l).

(** A step that leaves the coroutine with the locks [L] and in which the coroutine
    itself changes no value of a primary store. *)
Definition quiet (L : list loc) (e : TxWorld.entry) : Prop :=
  (is_Some (e_req e) -> forall l, cl_prim C l.1.2 = true -> a_map (e_to e l) = a_map (e_from e l)) /\
  held L (e_to e).

(** Since history [h], all steps have been quiet. *)
Definition after (L : list loc) (h : list TxWorld.entry) (s : state) : Prop :=
  exists h1, s.2 = h1 ++ h /\ Forall (quiet L) h1.

Lemma occ_pos l L : l ∈ L -> 0 < occ l L.
Proof.
  intros H. unfold occ. assert (l ∈ filter (fun l' => l' = l) L) as H' by (by apply list_elem_of_filter).
  destruct (filter _ L); [by apply not_elem_of_nil in H'|simpl; lia].
Qed.

Lemma owns_held L w : owns L w -> held L w.
Proof. intros H [[mn ty] i] Hl Hp. by apply (H mn ty i Hp), occ_pos. Qed.

Lemma held_mono L L' w : L ⊆ L' -> held L' w -> held L w.
Proof. intros HL H l Hl. by apply H, HL. Qed.

Lemma after_refl L w h : after L h (w, h).
Proof. by exists []. Qed.

Lemma after_env L w0 w h h' : held L w -> after L h (w0, h') -> after L h (w, mk_entry None w0 w :: h').
Proof.
  intros Hh (h1 & E & H). simpl in E. subst h'. exists (mk_entry None w0 w :: h1). split; [done|]. constructor; [|done].
  split; [|done]. by intros [].
Qed.

Lemma after_own L q w0 w h h' :
  held L w -> (forall l, cl_prim C l.1.2 = true -> a_map (w l) = a_map (w0 l)) ->
  after L h (w0, h') -> after L h (w, mk_entry (Some q) w0 w :: h').
Proof.
  intros Hh Hm (h1 & E & H). simpl in E. subst h'. exists (mk_entry (Some q) w0 w :: h1). split; [done|]. by constructor.
Qed.

Lemma after_trans L h0 h s : after L h0 s -> (exists w, after L h (w, h0)) -> after L h s.
Proof.
  intros (h1 & E1 & H1) (w & h2 & E2 & H2). simpl in E2. exists (h1 ++ h2). rewrite E1, E2, app_assoc.
  split; [done|]. by apply Forall_app.
Qed.

Lemma after_mono L L' h s : L ⊆ L' -> after L' h s -> after L h s.
Proof.
  intros HL (h1 & E & H). exists h1. split; [done|]. eapply Forall_impl; [exact H|].
  intros e [H1 H2]. split; [done|]. by eapply held_mono.
Qed.

(** ** Requests *)

(** The bytes of the message for a machine. *)
Definition wt (mn : Z) (rs : list ureq) : Z := Z.of_nat (length (msg_bytes (entries_for mn 0 rs))).

Lemma wt_snoc mn rs r :
  wt mn (rs ++ [r]) = wt mn rs + (if u_mn r =? mn then 4 + Z.of_nat (length (u_payload r)) else 0).
Proof.
  unfold wt. rewrite entries_for_app, msg_bytes_app, length_app. destruct (u_mn r =? mn); [|cbn; lia].
  unfold msg_bytes at 2. cbn [map concat]. rewrite app_nil_r, entry_length. lia.
Qed.

Lemma wt_snoc_le mn rs r : wt mn (rs ++ [r]) <= wt mn rs + 4 + Z.of_nat (length (u_payload r)).
Proof. rewrite wt_snoc. case_match; lia. Qed.

Lemma wt_le mn rs n :
  Forall (fun r => Z.of_nat (length (u_payload r)) <= n) rs -> wt mn rs <= (4 + n) * Z.of_nat (length rs).
Proof.
  induction rs as [|r rs IH] using rev_ind; intros H; [unfold wt; simpl; lia|].
  apply Forall_app in H as [H Hr]. apply Forall_cons in Hr as [Hr _]. specialize (IH H).
  pose proof (wt_snoc_le mn rs r). rewrite length_app. simpl. lia.
Qed.

(** A GET-like request of type [ty] for an item. *)
Definition get_sent (ty : ds_reqtype_t) (it : tx_rwset_item_t) (q : ureq * option Z) : Prop :=
  u_mn q.1 = primary_mn it /\ u_type q.1 = rpc_reqtype it /\ length (u_payload q.1) = 24%nat /\
  (exists vs, parse_req (u_payload q.1) = Ok (mk_req self (reqtype_code ty) vs (keyhash it) (key it))) /\
  q.2 = Some (obj it + 8).

Lemma self_u32 : u 32 self.
Proof. unfold caller_wf in Hself. assert (kInvalidCallerId <= 2 ^ 32) by (vm_compute; done).
  unfold u. lia. Qed.

Lemma wp_start sofar mn (Q : list byte -> state -> Prop) s :
  (forall buf, pkt - wt mn (map fst sofar) - 4 <= Z.of_nat (length buf) -> Q buf s) ->
  wp C self pkt (start_new_req sofar mn) Q s.
Proof. intros H buf Hb. by apply H. Qed.

Lemma wp_get_req ty it sofar Q s :
  item_wf it -> wt (primary_mn it) (map fst sofar) + 28 <= pkt ->
  (forall q, get_sent ty it q -> Q q s) -> wp C self pkt (get_req self ty it sofar) Q s.
Proof.
  intros Hit Hr HQ. unfold get_req. apply wp_bind, wp_start. intros buf Hb.
  destruct (get_forge_ok buf self (key it) (keyhash it) ty) as (buf' & vs & E & Hp & _ & Hl);
    [lia|apply self_u32|apply Hit..|].
  apply wp_bind. eapply wp_lift; [exact E|]. apply HQ. unfold get_sent. cbn [fst snd u_mn u_type u_payload].
  change (Z.to_nat sizeof_get_req) with 24%nat.
  split_and!; try done; [rewrite length_take; lia|]. exists vs. by rewrite parse_req_take by lia.
Qed.

Lemma wp_get_reqs ty its sofar Q s :
  Forall item_wf its ->
  (forall mn, wt mn (map fst sofar) + 28 * Z.of_nat (length its) <= pkt) ->
  (forall qs, Forall2 (fun it q => get_sent (ty it) it q) its qs -> Q (sofar ++ qs) s) ->
  wp C self pkt (get_reqs self ty its sofar) Q s.
Proof.
  intros Hits. revert sofar Q. induction Hits as [|it its Hit Hits IH]; intros sofar Q Hr HQ.
  { simpl. specialize (HQ [] ltac:(constructor)). by rewrite app_nil_r in HQ. }
  cbn [get_reqs]. apply wp_bind. apply wp_get_req; [done| |].
  { specialize (Hr (primary_mn it)). simpl in Hr. lia. }
  intros q Hq. apply IH.
  - intros mn. specialize (Hr mn). rewrite map_app. cbn [map].
    pose proof (wt_snoc_le mn (map fst sofar) q.1) as Hw. destruct Hq as (_ & _ & Hl & _). simpl in Hr. lia.
  - intros qs Hqs. rewrite <- app_assoc. apply HQ. by constructor.
Qed.

(** What a server does with such a request. *)
Lemma answers_get ty it q w r w' :
  item_wf it -> get_sent ty it q -> ty <> put -> answers C w q.1 r w' ->
  exists vs rs a' v, a_handle true (ivsz it) (mk_req self (reqtype_code ty) vs (keyhash it) (key it)) v (w (iloc it)) = Some (rs, a') /\
    r.1 = Datastore.resptype_code (rs_type rs) /\ carries rs r.2 /\ w' = wupd (iloc it) a' w.
Proof.
  intros Hit (Emn & Ety & _ & (vs & Hp) & _) _ Ha.
  destruct Ha as [rq rs a' bs Hb [Hq _] _ l Hh Hc|E _].
  - rewrite Hp in Hq. injection Hq as <-. rewrite Ety in Hh. rewrite (iw_prim it Hit) in Hh.
    subst l. rewrite Emn, Ety in *. cbn [rq_keyhash] in *. do 4 eexists. split; [exact Hh|]. done.
  - exfalso. pose proof (iw_type it Hit) as Ht. rewrite <- Ety, E in Ht. by vm_compute in Ht.
Qed.

Lemma get_accepted ty it q w :
  item_wf it -> get_sent ty it q -> ty <> put ->
  (forall vs v, exists rs a', a_handle true (ivsz it) (mk_req self (reqtype_code ty) vs (keyhash it) (key it)) v (w (iloc it)) = Some (rs, a') /\
     exists bs, carries rs bs) ->
  accepted C w q.1.
Proof.
  intros Hit (Emn & Ety & _ & (vs & Hp) & _) Hne H.
  destruct (H vs (take (Z.to_nat (cl_vsz C (u_type q.1))) (drop 24 (u_payload q.1)))) as (rs & a' & Ha & bs & Hc).
  do 2 eexists. eapply (ans_ds C w q.1 _ rs a' bs); [|split; [exact Hp|]| | |exact Hc].
  - rewrite Emn, Ety. split; [by apply iw_type|]. rewrite (proj2 (iw_home it Hit)). by apply (cw_home C HC), Hit.
  - split; [apply Hit|done].
  - cbn [rq_type]. destruct ty; done.
  - rewrite Ety, (iw_prim it Hit). cbn [rq_keyhash]. rewrite Emn, Ety in *. exact Ha.
Qed.

(** ** Reads and locking reads *)

(** What the coroutine knows from the response to a read of an item, and from the
    response to a locking read; the lock it takes. *)
Definition rfacts (it : tx_rwset_item_t) (r : resp) : list fact :=
  if r.1 =? Datastore.resptype_code get_rdonly_success
  then [Fread (resp_version r) (key it) (Some (drop 8 r.2)) (iloc it)]
  else if r.1 =? Datastore.resptype_code get_rdonly_not_found
  then [Fread (resp_version r) (key it) None (iloc it)] else [].
Definition locked_value (it : tx_rwset_item_t) (r : resp) : option (list byte) :=
  if decide (write_mode it <> wm_insert) then Some (drop 8 r.2) else None.
Definition wfacts (it : tx_rwset_item_t) (r : resp) : list fact :=
  if r.1 =? lock_code it then [Fsure (key it) (locked_value it r) (iloc it)] else [].
Definition wlocks (it : tx_rwset_item_t) (r : resp) : list loc :=
  if r.1 =? lock_code it then [iloc it] else [].

(** A response carries a value that the store can hold. *)
Definition full (it : tx_rwset_item_t) (r : resp) : Prop :=
  Z.of_nat (length r.2) = 8 + ivsz it /\ cl_ok C (rpc_reqtype it) (key it) (Some (drop 8 r.2)).

(** The value a response to a read carries. *)
Definition read_value (r : resp) : option (list byte) :=
  if r.1 =? Datastore.resptype_code get_rdonly_success then Some (drop 8 r.2) else None.

(** The key of an item has value [v], and nobody else holds its bucket. *)
Definition current (w : world) (it : tx_rwset_item_t) (v : option (list byte)) : Prop :=
  a_map (w (iloc it)) !! key it = v /\
  (is_unlocked (a_ts (w (iloc it))) = true \/ a_held self (w (iloc it))).

(** What the response to a read tells of the contents of its key; a table that is only
    read is never locked. *)
Definition found (it : tx_rwset_item_t) (r : resp) : Prop :=
  (r.1 = Datastore.resptype_code get_rdonly_success -> full it r) /\
  (r.1 = Datastore.resptype_code get_rdonly_not_found -> cl_ok C (rpc_reqtype it) (key it) None) /\
  (cl_ro C (rpc_reqtype it) = true -> r.1 <> Datastore.resptype_code get_rdonly_locked).

Lemma stored_ok it w v :
  item_wf it -> peaceful C w -> a_map (w (iloc it)) !! key it = v ->
  cl_ok C (rpc_reqtype it) (key it) v /\ forall x, v = Some x -> Z.of_nat (length x) = ivsz it.
Proof.
  intros Hit (_ & Hpc & _) <-. rewrite (iloc_ploc it Hit).
  assert (cl_ok C (rpc_reqtype it) (key it) (a_map (w (ploc C (rpc_reqtype it) (key it))) !! key it)) as H by (apply Hpc, Hit).
  split; [done|]. intros x E. rewrite E in H. by apply (cw_ok C HC _ _ _ (iw_prim it Hit)) in H.
Qed.

Lemma iloc_prim it : item_wf it -> cl_prim C (iloc it).1.2 = true.
Proof. apply iw_prim. Qed.

(** Response bytes exist whenever header and value have their sizes. *)
Lemma carries_ex rs :
  0 <= rs_len rs -> (8 <= rs_len rs \/ rs_len rs = 0) ->
  (forall v, rs_val rs = Some v -> 8 <= rs_len rs -> Z.of_nat (length v) = rs_len rs - 8) ->
  exists bs, carries rs bs.
Proof.
  intros H0 H8 Hv. pose proof (length_le_bytes 8) as L8.
  exists (if decide (rs_len rs = 0) then [] else le_bytes 8 (default 0 (rs_hdr rs)) ++
      (if decide (8 <= rs_len rs) then default (replicate (Z.to_nat (rs_len rs - 8)) 0) (rs_val rs) else [])).
  unfold carries. destruct (decide (rs_len rs = 0)) as [E|E]; [rewrite E; split_and!; try done; lia|].
  split; [|split].
  - rewrite length_app, L8. case_decide; simpl; [|lia].
    destruct (rs_val rs) as [v|]; simpl; [specialize (Hv v eq_refl ltac:(done)); lia|rewrite length_replicate; lia].
  - intros ts -> _. apply take_app_length'. by rewrite L8.
  - intros v -> Hl. rewrite drop_app_length' by (by rewrite L8). by rewrite decide_True.
Qed.

Lemma resp_version_hdr rs r ts :
  carries rs r.2 -> 8 <= rs_len rs -> rs_hdr rs = Some ts -> u 64 ts -> resp_version r = version (word_hdr ts).
Proof.
  intros (_ & Hh & _) H8 E Hu. unfold resp_version. rewrite (Hh ts E H8). by rewrite le_val_bytes.
Qed.

Lemma calm_u64 a : calm a -> u 64 (a_ts a).
Proof. by intros ((? & _) & _). Qed.

Ltac in_codes := repeat first [exact (list_elem_of_here _ _) | apply list_elem_of_further].

(** The read of an item. *)
Lemma serve_read it q w :
  item_wf it -> get_sent get_rdonly it q -> peaceful C w ->
  accepted C w q.1 /\
  forall r w', answers C w q.1 r w' ->
    (forall l, w' l = w l) /\ read_resp r /\
    found it r /\ Forall (holds w) (rfacts it r) /\
    (r.1 <> Datastore.resptype_code get_rdonly_locked -> current w it (read_value r)) /\
    exists rt ts v, a_get self (key it) (w (iloc it)) = (rt, ts, v) /\
      (r.1 = Datastore.resptype_code get_rdonly_success <-> rt = kSuccess) /\
      (r.1 = Datastore.resptype_code get_rdonly_not_found <-> rt = kNotFound) /\
      (rt <> kLocked -> forall t, ts = Some t -> resp_version r = version (word_hdr t)).
Proof.
  intros Hit Hq Hpc. pose proof (iw_vsz it Hit) as Hvs. pose proof (iloc_prim it Hit) as Hprim.
  pose proof (peaceful_calm w _ Hpc Hprim) as Hcalm.
  pose proof (fun v => stored_ok it w v Hit Hpc) as Hsz.
  change (cl_vsz C (rpc_reqtype it)) with (ivsz it) in Hvs. change HOTS_MAX_VALUE with 40 in Hvs.
  assert (forall r ts v, a_get self (key it) (w (iloc it)) = (r, ts, v) ->
    (r = kSuccess /\ ts = Some (a_ts (w (iloc it))) /\ exists x, v = Some x /\ Z.of_nat (length x) = ivsz it /\ cl_ok C (rpc_reqtype it) (key it) (Some x)) \/
    (r = kNotFound /\ v = None /\ (forall t, ts = Some t -> t = a_ts (w (iloc it))) /\ cl_ok C (rpc_reqtype it) (key it) None) \/
    (r = kLocked /\ v = None)) as Hcases.
  { intros r ts v. unfold a_get. repeat case_match; intros; simplify_eq; naive_solver. }
  split.
  - apply (get_accepted get_rdonly it); try done. intros vs v.
    unfold a_handle. cbn [rq_type rq_caller_id rq_key]. rewrite reqtype_of_code_code.
    destruct (a_get self (key it) (w (iloc it))) as [[r ts] x] eqn:Eg.
    eexists _, _. split; [done|]. apply carries_ex.
    + destruct (Hcases _ _ _ eq_refl) as [(-> & _)|[(-> & _)|(-> & _)]]; simpl; lia.
    + destruct (Hcases _ _ _ eq_refl) as [(-> & _)|[(-> & _)|(-> & _)]]; simpl; lia.
    + destruct (Hcases _ _ _ eq_refl) as [(-> & _ & y & -> & E & _)|[(-> & -> & _)|(-> & ->)]]; simpl; try done.
      intros ? [= <-]. lia.
  - intros [rt bs] w' Ha. destruct (answers_get get_rdonly it q w _ w' Hit Hq ltac:(done) Ha) as (vs & rs & a' & v & Hh & Ert & Hc & ->).
    unfold a_handle in Hh. cbn [rq_type rq_caller_id rq_key] in Hh. rewrite reqtype_of_code_code in Hh.
    destruct (a_get self (key it) (w (iloc it))) as [[r ts] x] eqn:Eg.
    injection Hh as Ers <-. split; [apply wupd_same|].
    pose proof (calm_u64 _ Hcalm) as Hu64.
    assert (forall t, ts = Some t -> t = a_ts (w (iloc it))) as Htst.
    { intros t ->. revert Eg. unfold a_get. repeat case_match; intros; by simplify_eq. }
    assert (r <> kLocked -> forall t, ts = Some t -> resp_version (rt, bs) = version (word_hdr t)) as Hver.
    { intros Hne t E. apply (resp_version_hdr rs); [done| |by rewrite <- Ers; destruct r; simpl|].
      - rewrite <- Ers. destruct (Hcases _ _ _ eq_refl) as [(-> & _)|[(-> & _)|(-> & _)]]; simpl; [lia|lia|done].
      - by rewrite (Htst t E). }
    assert (cl_ro C (rpc_reqtype it) = true -> r <> kLocked /\ ts = Some (a_ts (w (iloc it))) /\ a_map (w (iloc it)) !! key it = x) as Hro.
    { intros Hr. assert (is_unlocked (a_ts (w (iloc it))) = true) as Hu by (by apply Hpc). revert Eg. unfold a_get. rewrite Hu.
      destruct (a_map (w (iloc it)) !! key it); intros [= <- <- <-]; done. }
    assert (r <> kLocked -> known self (resp_version (rt, bs)) (key it) x (w (iloc it)) /\
      (cl_ro C (rpc_reqtype it) = true -> resp_version (rt, bs) = version (word_hdr (a_ts (w (iloc it)))) /\ a_map (w (iloc it)) !! key it = x)) as Hkn.
    { intros Hne. split; [eapply (get_known self Hself); [exact Hcalm|exact Eg|done|]; by apply Hver|].
      intros Hr. destruct (Hro Hr) as (_ & Et & Em). split; [by apply Hver|done]. }
    assert (r <> kLocked -> current w it x) as Hcur.
    { intros Hne. revert Eg. unfold current, a_get. destruct (is_unlocked (a_ts (w (iloc it)))) eqn:Hu.
      - destruct (a_map (w (iloc it)) !! key it); intros [= <- <- <-]; auto.
      - destruct (Z.eqb_spec (a_locker (w (iloc it))) self) as [El|]; [|intros [= <- <- <-]; done].
        destruct (a_map (w (iloc it)) !! key it); intros [= <- <- <-]; (split; [done|right; by apply locker_held]). }
    cbn [fst snd] in *. unfold rfacts, found, full, read_resp, short, read_value. cbn [fst snd].
    change sizeof_hots_obj_t with 56. destruct Hc as (Hl & _ & Hval).
    destruct (Hcases _ _ _ eq_refl) as [(-> & _ & y & -> & E & Eok)|[(-> & -> & _ & Eok)|(-> & ->)]]; subst rt rs;
      cbn [rs_len rs_val rs_hdr rs_type Datastore.resptype_code Z.eqb] in Hl, Hval |- *.
    + split; [split; [in_codes|split; lia]|]. split; [split; [intros _; rewrite (Hval y eq_refl) by lia; split; [lia|done]|done]|]. split.
      * constructor; [|constructor]. simpl. split; [done|]. rewrite (Hval y eq_refl) by lia. by apply Hkn.
      * split; [intros _; rewrite (Hval y eq_refl) by lia; by apply Hcur|]. by exists kSuccess, ts, (Some y).
    + split; [split; [in_codes|split; lia]|]. split; [done|]. split.
      * constructor; [|constructor]. simpl. split; [done|]. by apply Hkn.
      * split; [intros _; by apply Hcur|]. by exists kNotFound, ts, None.
    + split; [split; [in_codes|split; lia]|]. split; [split; [done|split; [done|]]; by intros Hr; destruct (Hro Hr)|]. split; [constructor|]. split; [done|].
      by exists kLocked, ts, None.
Qed.

(** The three outcomes of a locking read at bucket [l]: refused, given up, kept. *)
Inductive lock_outcome (l : loc) (w w' : world) : bool -> Prop :=
| lo_same : (forall l', w' l' = w l') -> lock_outcome l w w' false
| lo_try a1 : a_lock self (w l) = Some a1 -> w' = wupd l (a_unlock a1) w -> lock_outcome l w w' false
| lo_kept a1 : a_lock self (w l) = Some a1 -> w' = wupd l a1 w -> lock_outcome l w w' true.

Lemma lock_outcome_keeps l w w' b :
  lock_outcome l w w' b -> cl_prim C l.1.2 = true -> cl_ro C l.1.2 = false -> calm (w l) ->
  (forall L, owns L w -> owns ((if b then [l] else []) ++ L) w') /\ (forall f, holds w f -> holds w' f).
Proof.
  intros H Hp Hro Hc. destruct H as [E|a1 Hl ->|a1 Hl ->]; simpl; split; intros.
  - by eapply owns_ext.
  - by eapply holds_ext.
  - by apply owns_try.
  - by apply holds_try.
  - by apply owns_lock.
  - by apply holds_lock.
Qed.

Lemma lock_outcome_good L l w w' b :
  lock_outcome l w w' b -> cl_prim C l.1.2 = true -> cl_ro C l.1.2 = false -> good w -> owns L w ->
  Z.of_nat (length L) + 1 < kMaxNumLocks -> in_range C w' -> good w'.
Proof.
  intros Ho Hp Hro Hg Hown HL Hr. pose proof Hg as [Hpc Hs]. pose proof (good_calm w l Hg Hp) as Hc.
  assert (ts_range (a_ts (w' l))) as Hr' by (destruct l as [[mn ty] i]; by apply Hr).
  assert (forall a1 a', a_lock self (w l) = Some a1 -> a_map a' = a_map a1 -> calm a' -> good (wupd l a' w)) as Hupd.
  { intros a1 a' Hl Em Hca. destruct (lock_self self (w l) a1 Hl) as (Em1 & El & Hts). split.
    - apply peaceful_same; [done|done|done|]. by rewrite Em, Em1.
    - eapply insync_maps; [| |exact Hs].
      + intros l'. unfold wupd. case_decide as E; [|done]. by rewrite Em, Em1, E.
      + intros l' _. unfold wupd. case_decide as E; [|done]. intros _. rewrite E.
        destruct Hts as [(Hu & _)|(Hu & Els & _)]; [by left|right]. split; [by apply locked_false|done]. }
  destruct Ho as [E|a1 Hl ->|a1 Hl ->].
  - by eapply good_ext.
  - rewrite wupd_eq in Hr'. apply (Hupd a1); [done|by unfold a_unlock; case_match|].
    destruct (try_self (w l) a1 Hl Hc) as [[Hu _]|[_ E]]; [|by rewrite E].
    destruct (lock_self self (w l) a1 Hl) as (_ & El & [(_ & Et & Ec)|(Hu' & _)]); [|congruence].
    apply (calm_unlock a1); try done.
    + apply (calm_lock (w l)); [done|done| |].
      * by eapply own_count.
      * rewrite Et. destruct Hc as (_ & _ & Hrc). revert Hr'. unfold a_unlock. rewrite Ec. simpl.
        rewrite Et. unfold ts_range in *. change kTimestampCanary with 5 in *.
        rewrite wrap_id by (unfold u; lia). lia.
    + split; [|done]. rewrite Et. apply locked_false. by rewrite unlocked_succ, Hu.
  - rewrite wupd_eq in Hr'. apply (Hupd a1); [done|done|]. apply (calm_lock (w l)); try done. by eapply own_count.
Qed.

Lemma lock_outcome_maps l w w' b l' : lock_outcome l w w' b -> a_map (w' l') = a_map (w l').
Proof.
  intros Ho. destruct Ho as [E|a1 Hl ->|a1 Hl ->]; [by rewrite E|..]; unfold wupd; case_decide as E; try done;
    destruct (lock_self self (w l) a1 Hl) as (Em & _); rewrite E, <- Em; [|done].
  unfold a_unlock. by case_match.
Qed.

Lemma lock_outcome_fair l w w' b :
  lock_outcome l w w' b -> cl_prim C l.1.2 = true -> cl_ro C l.1.2 = false -> good w' -> fair C self w w'.
Proof.
  intros Ho Hp Hro Hg. apply fair_good; [done|]. intros c _ Hc. destruct Ho as [E|a1 Hl ->|a1 Hl ->].
  - by apply env_idle.
  - apply env_self; [done|done| |done]. by apply bstep_try.
  - apply env_self; [done|done| |done]. by apply bstep_lock.
Qed.

(** The outcome of a locking read, with the value found or not found. *)
Definition lock_result (it : tx_rwset_item_t) (a : abucket) (r : resp) (b : bool) : Prop :=
  write_resp it r /\ (r.1 =? lock_code it) = b /\
  (b = true -> a_map a !! key it = locked_value it r /\
     if decide (write_mode it <> wm_insert) then full it r else Z.of_nat (length r.2) = 8).

Lemma serve_write_upd it q w :
  item_wf it -> write_mode it <> wm_insert -> get_sent get_for_upd it q -> peaceful C w ->
  accepted C w q.1 /\
  forall r w', answers C w q.1 r w' ->
    exists b, lock_result it (w (iloc it)) r b /\ lock_outcome (iloc it) w w' b.
Proof.
  intros Hit Hmode Hq Hpc. pose proof (iw_vsz it Hit) as Hvs. pose proof (iloc_prim it Hit) as Hprim.
  pose proof (peaceful_calm w _ Hpc Hprim) as (_ & Hcnt & _). apply Z.ltb_lt in Hcnt.
  pose proof (fun v => stored_ok it w v Hit Hpc) as Hsz.
  change (cl_vsz C (rpc_reqtype it)) with (ivsz it) in Hvs. change HOTS_MAX_VALUE with 40 in Hvs.
  split.
  - apply (get_accepted get_for_upd it); try done. intros vs v.
    unfold a_handle. cbn [rq_type rq_caller_id rq_key]. rewrite reqtype_of_code_code, Hcnt. cbn [andb].
    unfold a_lock_get. destruct (a_lock self (w (iloc it))) as [a1|].
    + destruct (a_map (w (iloc it)) !! key it) as [x|] eqn:Ex; eexists _, _; (split; [done|]);
        apply carries_ex; cbn [rs_len rs_val]; try lia; intros ? [= <-] _; rewrite (proj2 (Hsz _ eq_refl) x eq_refl); lia.
    + eexists _, _. split; [done|]. apply carries_ex; cbn [rs_len rs_val]; done || lia.
  - intros [rt bs] w' Ha.
    destruct (answers_get get_for_upd it q w _ w' Hit Hq ltac:(done) Ha) as (vs & rs & a' & v & Hh & Ert & (Hl & _ & Hval) & ->).
    unfold a_handle in Hh. cbn [rq_type rq_caller_id rq_key] in Hh. rewrite reqtype_of_code_code, Hcnt in Hh. cbn [andb] in Hh.
    unfold lock_result, write_resp, short, lock_code, locked_value. rewrite !decide_True by done. cbn [fst snd] in *.
    change sizeof_hots_obj_t with 56. unfold a_lock_get in Hh. destruct (a_lock self (w (iloc it))) as [a1|] eqn:El.
    + destruct (a_map (w (iloc it)) !! key it) as [x|] eqn:Ex; injection Hh as <- <-; subst rt;
        cbn [rs_len rs_val rs_type] in Hl, Hval |- *; [exists true|exists false].
      * split; [|by econstructor 3]. split; [split; [in_codes|split; lia]|]. split; [done|]. intros _.
        rewrite (Hval x eq_refl) by lia. split; [done|]. unfold full. cbn [snd]. rewrite (Hval x eq_refl) by lia. split; [lia|]. exact (proj1 (Hsz _ eq_refl)).
      * split; [|by econstructor 2]. split; [split; [in_codes|split; [lia|done]]|done].
    + injection Hh as <- <-. subst rt. exists false. cbn [rs_len rs_type] in Hl |- *.
      split; [|constructor 1; apply wupd_same]. split; [split; [in_codes|split; [lia|done]]|done].
Qed.

Lemma serve_write_ins it q w :
  item_wf it -> write_mode it = wm_insert -> get_sent lock_for_ins it q -> peaceful C w ->
  accepted C w q.1 /\
  forall r w', answers C w q.1 r w' ->
    exists b, lock_result it (w (iloc it)) r b /\ lock_outcome (iloc it) w w' b.
Proof.
  intros Hit Hmode Hq Hpc. pose proof (iloc_prim it Hit) as Hprim.
  pose proof (peaceful_calm w _ Hpc Hprim) as (_ & Hcnt & _). apply Z.ltb_lt in Hcnt.
  split.
  - apply (get_accepted lock_for_ins it); try done. intros vs v.
    unfold a_handle. cbn [rq_type rq_caller_id rq_key]. rewrite reqtype_of_code_code, Hcnt. cbn [andb].
    unfold a_lock_ins. destruct (a_lock self (w (iloc it))) as [a1|];
      [destruct (a_map (w (iloc it)) !! key it)|]; eexists _, _; (split; [done|]);
      apply carries_ex; cbn [rs_len rs_val]; done || lia.
  - intros [rt bs] w' Ha.
    destruct (answers_get lock_for_ins it q w _ w' Hit Hq ltac:(done) Ha) as (vs & rs & a' & v & Hh & Ert & (Hl & _ & Hval) & ->).
    unfold a_handle in Hh. cbn [rq_type rq_caller_id rq_key] in Hh. rewrite reqtype_of_code_code, Hcnt in Hh. cbn [andb] in Hh.
    unfold lock_result, write_resp, short, lock_code, locked_value. rewrite !decide_False by (by intros []). cbn [fst snd] in *.
    change sizeof_hots_obj_t with 56. unfold a_lock_ins in Hh. destruct (a_lock self (w (iloc it))) as [a1|] eqn:El.
    + destruct (a_map (w (iloc it)) !! key it) as [x|] eqn:Ex; injection Hh as <- <-; subst rt;
        cbn [rs_len rs_val rs_type] in Hl, Hval |- *; [exists false|exists true].
      * split; [|by econstructor 2]. split; [split; [in_codes|split; [lia|done]]|done].
      * split; [|by econstructor 3]. split; [split; [in_codes|split; lia]|]. split; [done|]. intros _. split; [done|lia].
    + injection Hh as <- <-. subst rt. exists false. cbn [rs_len rs_type] in Hl |- *.
      split; [|constructor 1; apply wupd_same]. split; [split; [in_codes|split; [lia|done]]|done].
Qed.

(** The locking read of an item. *)
Lemma serve_write it q w :
  item_wf it -> cl_ro C (rpc_reqtype it) = false -> get_sent (exec_reqtype it) it q -> good w ->
  accepted C w q.1 /\
  forall r w', answers C w q.1 r w' -> exists b, lock_result it (w (iloc it)) r b /\
    (forall L, owns L w -> owns (wlocks it r ++ L) w' /\
       (Z.of_nat (length L) + 1 < kMaxNumLocks -> in_range C w' -> good w' /\ fair C self w w')) /\
    (forall f, holds w f -> holds w' f) /\ Forall (holds w') (wfacts it r) /\
    (forall l, a_map (w' l) = a_map (w l)).
Proof.
  intros Hit Hro Hq Hg. pose proof (iloc_prim it Hit) as Hprim. pose proof (good_calm w _ Hg Hprim) as Hcalm.
  assert (accepted C w q.1 /\ forall r w', answers C w q.1 r w' ->
    exists b, lock_result it (w (iloc it)) r b /\ lock_outcome (iloc it) w w' b) as [Hacc H].
  { unfold exec_reqtype in Hq. destruct (decide (write_mode it <> wm_insert)) as [Hm|Hm].
    - apply serve_write_upd; try done. apply Hg.
    - apply serve_write_ins; try done; [|apply Hg]. by destruct (write_mode it); try (destruct Hm; discriminate). }
  split; [done|]. intros r w' Ha. destruct (H r w' Ha) as (b & Hr & Ho). exists b. split; [done|].
  destruct (lock_outcome_keeps _ _ _ _ Ho Hprim Hro Hcalm) as [Hown Hhold]. destruct Hr as (_ & Eb & Hb).
  unfold wlocks, wfacts. rewrite Eb.
  split.
  { intros L HL. split; [by apply Hown|]. intros Hlen Hr.
    assert (good w') by (by apply (lock_outcome_good L _ _ _ _ Ho)). split; [done|].
    by apply (lock_outcome_fair _ _ _ _ Ho). }
  split; [done|]. split; [|intros l; by apply (lock_outcome_maps _ _ _ _ l Ho)]. destruct b; [|constructor].
  constructor; [|constructor]. simpl. split; [done|]. destruct (Hb eq_refl) as [Hm _].
  inversion Ho as [| |a1 Hl Ew]; subst. rewrite wupd_eq.
  destruct (lock_self self _ a1 Hl) as (-> & El & Hts). split; [|done]. split; [|done].
  destruct Hts as [(Hu & Et & _)|(Hu & _ & Et & _)]; rewrite Et; apply locked_false; [by rewrite unlocked_succ, Hu|done].
Qed.

End Spec.
End TxSpec.
