(* ===== verification/TxExec.v ===== *)
(** * Execution and validation

    The specification of [do_read]: in every interleaving it takes locks only on
    the keys it marks as locked, and what it reports as read is known from then
    on.  The specification of [validate]: when it succeeds, every key of the read
    set had the value that was read at the moment [validate] was called. *)

From S2P Require Import Prelude Util Hots Mappings FixedTable FixedTableInv FixedTableOps FixedTableSteps Datastore DatastoreSpec.
From S2P Require Import RpcDefs RpcBatch Tx TxWorld TxBuckets TxMem TxSpec.
From Stdlib Require Import ZArith Lia Bool.
From stdpp Require Import base numbers list gmap sets relations.
#[local] Open Scope Z_scope.
Import FixedTable FixedTableInv FixedTableOps FixedTableSteps DatastoreSpec RpcDefs RpcBatch Tx TxWorld TxBuckets TxMem TxSpec.

Module TxExec.

(** ** Responses received so far *)

Section Flatten.
Context {P R X : Type} (f : P -> R -> list X).

Definition flatten (plan : list P) (ps : list (option R)) : list X :=
  concat (zip_with (fun p o => match o with Some r => f p r | None => [] end) plan ps).

Lemma flatten_insert plan ps i p r :
  plan !! i = Some p -> ps !! i = Some None ->
  flatten plan (<[i := Some r]> ps) ≡ₚ f p r ++ flatten plan ps.
Proof.
  revert ps i. induction plan as [|p0 plan IH]; intros ps [|i] Hp Hi; simpl in Hp; try done.
  - simplify_eq. destruct ps as [|o ps]; [done|]. simpl in Hi. simplify_eq. done.
  - destruct ps as [|o ps]; [done|]. simpl in Hi. unfold flatten in *. simpl.
    rewrite (IH ps i Hp Hi). by rewrite !(Permutation_app_swap_app (f p r)).
Qed.

Lemma flatten_none plan n : flatten plan (replicate n None) = [].
Proof. unfold flatten. revert n. induction plan as [|p plan IH]; intros [|n]; simpl; auto. Qed.

Lemma flatten_all plan rs : flatten plan (map Some rs) = concat (zip_with f plan rs).
Proof.
  unfold flatten. revert rs. induction plan as [|p plan IH]; intros [|r rs]; simpl; try done. by rewrite IH.
Qed.
End Flatten.

Section Exec.
Context (C : cluster) (HC : cluster_wf C) (self pkt : Z) (Hself : caller_wf self).
Notation iloc := (iloc C).
Notation item_wf := (item_wf C).
Notation owns := (owns C self).
Notation holds := (holds C self).
Notation get_sent := (get_sent self).
Notation good := (good C self).
Notation after := (after C self).
Notation current := (current C self).
Notation fact := TxSpec.fact.

(** ** Batches of reads and locking reads *)

(** A batch of [do_read]: a read of an item of the read set, or a locking read of
    an item of the write set. *)
Notation pitem := (tx_rwset_item_t + tx_rwset_item_t)%type.
Definition the_item (p : pitem) : tx_rwset_item_t := match p with inl it | inr it => it end.
Definition the_type (p : pitem) : ds_reqtype_t :=
  match p with inl _ => get_rdonly | inr it => exec_reqtype it end.
Definition pitem_wf (p : pitem) : Prop :=
  item_wf (the_item p) /\ match p with inl _ => True | inr it => cl_ro C (rpc_reqtype it) = false end.
Definition shape (p : pitem) (r : resp) : Prop :=
  match p with
  | inl it => read_resp r /\ found C it r
  | inr it => write_resp it r /\ (r.1 = lock_code it ->
      if decide (write_mode it <> wm_insert) then full C it r else Z.of_nat (length r.2) = 8)
  end.
Definition facts_of (p : pitem) (r : resp) : list fact :=
  match p with inl it => rfacts C it r | inr it => wfacts C it r end.
(** What a read returns is current at that moment. *)
Definition fresh_read (w : world) (p : pitem) (r : resp) : Prop :=
  match p with
  | inl it => r.1 <> Datastore.resptype_code get_rdonly_locked -> current w it (read_value r)
  | inr _ => True
  end.
Definition locks_of (p : pitem) (r : resp) : list loc :=
  match p with inl _ => [] | inr it => wlocks C it r end.

Lemma serve_plan p q w :
  pitem_wf p -> get_sent (the_type p) (the_item p) q -> good w ->
  accepted C w q.1 /\
  forall r w', answers C w q.1 r w' ->
    shape p r /\ fresh_read w p r /\ (forall L, owns L w -> owns (locks_of p r ++ L) w' /\
      (Z.of_nat (length L) + 1 < kMaxNumLocks -> in_range C w' -> good w' /\ fair C self w w')) /\
    (forall f, holds w f -> holds w' f) /\ Forall (holds w') (facts_of p r) /\
    (forall l, a_map (w' l) = a_map (w l)).
Proof.
  intros [Hit Hro] Hq Hg. destruct p as [it|it]; simpl in *.
  - destruct (serve_read C HC self Hself it q w Hit Hq (proj1 Hg)) as [Hacc H]. split; [done|].
    intros r w' Ha. destruct (H r w' Ha) as (Ew & Hr & Hf & Hfacts & Hcur & _). split; [done|]. split; [done|]. split; [|split; [|split]].
    + intros L HL. split; [by eapply owns_ext|]. intros _ _.
      assert (good w') by (by eapply good_ext). split; [done|]. by apply fair_idle.
    + intros f. by apply holds_ext.
    + eapply Forall_impl; [exact Hfacts|]. intros f. by apply holds_ext.
    + intros l. by rewrite Ew.
  - destruct (serve_write C HC self Hself it q w Hit Hro Hq Hg) as [Hacc H]. split; [done|].
    intros r w' Ha. destruct (H r w' Ha) as (b & (Hw & Eb & Hb) & Hown & Hhold & Hfacts & Hmaps).
    split; [|split; [done|done]]. split; [done|]. intros E. rewrite E, Z.eqb_refl in Eb. subst b. by apply Hb.
Qed.

Lemma short_shape p r : shape p r -> short r.
Proof. destruct p; simpl; intros [(_ & H & _) _]; done. Qed.

Lemma flatten_locks plan ps : (length (flatten locks_of plan ps) <= length plan)%nat.
Proof.
  unfold flatten. revert ps. induction plan as [|p plan IH]; intros [|o ps]; simpl; try lia.
  rewrite length_app. specialize (IH ps). destruct o as [r|]; simpl; [|lia].
  destruct p as [it|it]; simpl; [lia|]. unfold wlocks. case_match; simpl; lia.
Qed.

(** What a batch of responses to [plan] leaves, and the response buffers. *)
Lemma deliver_plan {P} (o : P -> Z) (R : P -> resp -> Prop) plan (qs : list (ureq * option Z)) rs m :
  layout m (map o plan) -> (forall p r, R p r -> short r) -> Forall2 R plan rs ->
  Forall2 (fun p q => q.2 = Some (o p + 8)) plan qs ->
  exists m', deliver (map snd qs) rs m = Ok m' /\ keeps (map o plan) m m' /\
    Forall2 (fun p r => obj_holds m' (o p) r.2) plan rs.
Proof.
  intros Hly HR Hrs Hqs.
  assert (map snd qs = map (fun a => Some (a + 8)) (map o plan)) as ->.
  { clear -Hqs. induction Hqs as [|p q plan qs E _ IH]; simpl; congruence. }
  destruct (deliver_ok (map o plan) rs m) as (m' & Hd & Hk & Hall); [done| | |].
  - rewrite length_map. symmetry. by eapply Forall2_length.
  - clear -HR Hrs. induction Hrs; constructor; eauto.
  - exists m'. split; [done|]. split; [done|]. apply Forall2_same_length_lookup. split; [by eapply Forall2_length|].
    intros i p r Hp Hr. apply (Hall i); [|done]. by rewrite list_lookup_fmap, Hp.
Qed.

Lemma Forall2_none {P R} (T : P -> R -> Prop) plan n :
  n = length plan -> Forall2 (fun p o => forall r, o = Some r -> T p r) plan (replicate n None).
Proof. intros ->. induction plan; simpl; constructor; done. Qed.

Lemma Forall2_all {P R} (T : P -> R -> Prop) plan rs :
  Forall2 (fun p o => forall r, o = Some r -> T p r) plan (map Some rs) -> Forall2 T plan rs.
Proof.
  revert rs. induction plan as [|p plan IH]; intros [|r rs] H; simpl in H; inversion H; subst; constructor; auto.
Qed.

Lemma Forall2_got {P R} (T : P -> R -> Prop) plan ps i p r :
  plan !! i = Some p -> T p r ->
  Forall2 (fun p o => forall r, o = Some r -> T p r) plan ps ->
  Forall2 (fun p o => forall r, o = Some r -> T p r) plan (<[i := Some r]> ps).
Proof.
  intros Ep HT H. rewrite <- (list_insert_id plan i p Ep). apply Forall2_insert; [done|]. by intros ? [= <-].
Qed.

(** Since world [w] and history [h], an item has had value [v] at some moment. *)
Definition glimpsed (w : world) (h : list TxWorld.entry) (s : state) (it : tx_rwset_item_t) (v : option (list byte)) : Prop :=
  exists hc hb, s.2 = hc ++ hb ++ h /\ current (top w hb) it v.
Definition glimpse (w : world) (h : list TxWorld.entry) (s : state) (p : pitem) (r : resp) : Prop :=
  match p with
  | inl it => r.1 <> Datastore.resptype_code get_rdonly_locked -> glimpsed w h s it (read_value r)
  | inr _ => True
  end.

Lemma glimpse_more w h s s' e p r : s'.2 = e :: s.2 -> glimpse w h s p r -> glimpse w h s' p r.
Proof.
  intros E. destruct p as [it|]; [|done]. intros H Hne. destruct (H Hne) as (hc & hb & Eh & Hc). exists (e :: hc), hb. by rewrite E, Eh.
Qed.

Lemma wp_plan plan qs m L F w h (Q : list resp * list byte -> state -> Prop) :
  Forall pitem_wf plan ->
  Forall2 (fun p q => get_sent (the_type p) (the_item p) q) plan qs ->
  Z.of_nat (length plan + length L) <= RPC_MAX_MSG_CORO ->
  layout m (map (fun p => obj (the_item p)) plan) ->
  good w -> owns L w -> Forall (holds w) F ->
  (forall rs m' w' h', Forall2 shape plan rs -> good w' ->
     owns (concat (zip_with locks_of plan rs) ++ L) w' ->
     Forall (holds w') (concat (zip_with facts_of plan rs) ++ F) ->
     keeps (map (fun p => obj (the_item p)) plan) m m' ->
     Forall2 (fun p r => obj_holds m' (obj (the_item p)) r.2) plan rs ->
     Forall2 (glimpse w h (w', h')) plan rs -> after L h (w', h') -> Q (rs, m') (w', h')) ->
  wp C self pkt (send_and_yield qs m) Q (w, h).
Proof.
  intros Hits Hqs Hn Hly Hg Hown Hf HQ. pose proof (Forall2_length _ _ _ Hqs) as Hlq.
  apply (wp_send C self pkt _ _ _ _ (fun ps s => good s.1 /\ owns (flatten locks_of plan ps ++ L) s.1 /\
    Forall (holds s.1) (flatten facts_of plan ps ++ F) /\
    Forall2 (fun p o => forall r, o = Some r -> shape p r) plan ps /\
    Forall2 (fun p o => forall r, o = Some r -> glimpse w h s p r) plan ps /\
    (exists h1, s.2 = h1 ++ h /\ s.1 = top w h1) /\ after L h s)).
  - lia.
  - rewrite !flatten_none. simpl. split; [done|]. split; [done|]. split; [done|].
    split; [by apply Forall2_none|]. split; [by apply Forall2_none|]. split; [by exists []|apply after_refl].
  - intros ps w1 h1 w2 Hl (Hg1 & Ho1 & Hf1 & Hs1 & Hgl & (hx & Ehx & _) & Hh1) He Ht. simpl in *.
    assert (good w2) as Hg2 by (by eapply (good_env C HC self Hself)).
    assert (owns (flatten locks_of plan ps ++ L) w2) as Ho2 by (apply (owns_env C self Hself _ w1); [apply Hg1|apply Hg2|done..]).
    split; [done|]. split; [done|].
    split; [|split; [done|split; [|split; [|apply after_env; [|done]]]]]; [| | |eapply held_mono; [|by apply owns_held]; set_solver].
    2: { eapply Forall2_impl; [exact Hgl|]. intros p o Hp r E. by eapply glimpse_more; [|apply Hp]. }
    2: { eexists (_ :: hx). by rewrite Ehx. }
    eapply Forall_impl; [exact Hf1|]. intros f. apply (holds_env C self Hself w1); [apply Hg1|apply Hg2|done..].
  - intros ps w1 h1 i q Hl (Hg1 & Ho1 & Hf1 & Hs1 & Hgl & (hx & Ehx & Ewx) & Hh1) Hq Hi. simpl in *.
    destruct (Forall2_lookup_r _ _ _ _ _ Hqs Hq) as (p & Ep & Hsent).
    destruct (serve_plan p q w1 ltac:(by eapply Forall_lookup_1 in Hits) Hsent Hg1) as [Hacc H].
    split; [done|]. intros r w2 Ha Hr2. destruct (H r w2 Ha) as (Hsh & Hfr & Hown2 & Hhold2 & Hfacts & Hmaps).
    destruct (Hown2 _ Ho1) as [Ho2 Hg2]. destruct Hg2 as [Hg2 Hfair]; [|done|].
    { pose proof (flatten_locks plan ps). rewrite length_app.
      change kMaxNumLocks with (2 ^ kNumLocksBits - 1). unfold kNumLocksBits. change RPC_MAX_MSG_CORO with 16 in *. lia. }
    split; [done|]. split; [done|]. split; [|split; [|split; [|split; [|split]]]].
    + by rewrite (flatten_insert _ _ _ _ _ _ Ep Hi), <- app_assoc.
    + rewrite (flatten_insert _ _ _ _ _ _ Ep Hi), <- app_assoc. apply Forall_app. split; [done|].
      eapply Forall_impl; [exact Hf1|]. exact Hhold2.
    + by eapply Forall2_got.
    + eapply (Forall2_got (glimpse w h _)); [exact Ep| |].
      * destruct p as [it|]; [|done]. intros Hne. exists [mk_entry (Some q.1) w1 w2], hx. simpl. rewrite Ehx, <- Ewx. split; [done|]. by apply Hfr.
      * eapply Forall2_impl; [exact Hgl|]. intros p' o Hp' r' E. by eapply glimpse_more; [|apply Hp'].
    + eexists (_ :: hx). by rewrite Ehx.
    + apply after_own; [|by intros l _|done]. eapply held_mono; [|by apply owns_held]. set_solver.
  - intros rs [w' h'] Hl (Hp' & Ho' & Hf' & Hs' & Hgl & _ & Hh'). simpl in *. apply Forall2_all in Hs'. apply Forall2_all in Hgl.
    rewrite flatten_all in Ho'. rewrite flatten_all in Hf'.
    destruct (deliver_plan (fun p => obj (the_item p)) shape plan qs rs m Hly short_shape Hs') as (m' & Hd & Hk & Hh).
    { eapply Forall2_impl; [exact Hqs|]. by intros p q (_ & _ & _ & _ & E). }
    exists m'. split; [done|]. by apply HQ.
Qed.

(** ** What a transaction knows *)

(** The value of a read item, and of a locked item. *)
Definition read_fact (it : tx_rwset_item_t) (v : option (list byte)) : fact :=
  Fread (exec_rs_version it) (key it) v (iloc it).
Definition lock_fact (it : tx_rwset_item_t) (v : option (list byte)) : fact :=
  Fsure (key it) v (iloc it).
Definition read_known (w : world) (it : tx_rwset_item_t) (v : option (list byte)) : Prop :=
  holds w (read_fact it v) /\ exec_rs_exists it = bool_decide (is_Some v).
Definition write_known (w : world) (it : tx_rwset_item_t) (v : option (list byte)) : Prop :=
  holds w (lock_fact it v) /\ (exec_ws_locked it = true /\ (v = None <-> write_mode it = wm_insert)).

Definition locked_locs (ws : list tx_rwset_item_t) : list loc :=
  map iloc (filter (fun it => exec_ws_locked it = true) ws).

(** The application finds value [v] in the object of an item. *)
Definition obj_has (m : list byte) (o : Z) (v : list byte) : Prop :=
  read_at (Z.to_nat (o + 16)) (length v) m = Ok v /\ obj_sized m o (Z.of_nat (length v)).
Definition mem_read (m : list byte) (it : tx_rwset_item_t) (v : option (list byte)) : Prop :=
  match v with Some b => obj_has m (obj it) b | None => obj_sized m (obj it) 0 end /\
  cl_ok C (rpc_reqtype it) (key it) v.
Definition mem_write (m : list byte) (it : tx_rwset_item_t) (v : option (list byte)) : Prop :=
  if decide (write_mode it <> wm_insert)
  then exists b, v = Some b /\ obj_has m (obj it) b /\ cl_ok C (rpc_reqtype it) (key it) v else v = None.

(** The user-supplied part of an item. *)
Definition same_key (it it' : tx_rwset_item_t) : Prop :=
  rpc_reqtype it' = rpc_reqtype it /\ key it' = key it /\ obj it' = obj it /\ write_mode it' = write_mode it /\
  keyhash it' = keyhash it /\ primary_mn it' = primary_mn it /\ backup_mn it' = backup_mn it /\ pad it' = pad it.

Lemma note_read_same it r : same_key it (note_read it r).
Proof. unfold note_read. by repeat case_match. Qed.

Lemma Forall2_facts {A B} (g : A -> B -> fact) (R : A -> B -> Prop) w xs ys :
  Forall2 (fun x y => holds w (g x y) /\ R x y) xs ys <->
  Forall (holds w) (zip_with g xs ys) /\ Forall2 R xs ys.
Proof.
  split.
  - induction 1 as [|x y xs ys [H1 H2] _ [IH1 IH2]]; simpl; split; constructor; auto.
  - intros [H HR]. induction HR as [|x y xs ys HR _ IH]; [constructor|]. simpl in H.
    apply Forall_cons in H as [H Hs]. constructor; auto.
Qed.

Lemma obj_has_holds m o bs :
  0 <= o -> (8 <= length bs)%nat -> obj_holds m o bs -> obj_sized m o (Z.of_nat (length bs) - 8) ->
  obj_has m o (drop 8 bs).
Proof.
  intros H0 Hl Hh Hs. unfold obj_holds, read_at in Hh. case_in Hh; [|done]. bool_prop. injection Hh as Hh.
  split; [|rewrite length_drop; by replace (Z.of_nat (length bs - 8)) with (Z.of_nat (length bs) - 8) by lia].
  rewrite length_drop, read_at_ok by lia. f_equal. rewrite <- Hh at 2.
  rewrite skipn_firstn_comm, drop_drop. do 2 f_equal. lia.
Qed.

Lemma reads_known w m its rs :
  Forall (fun it => 0 <= obj it) its ->
  Forall2 (fun it r => shape (inl it) r) its rs -> Forall (holds w) (concat (zip_with (rfacts C) its rs)) ->
  Forall2 (fun it r => obj_holds m (obj it) r.2 /\
    (r.1 <> Datastore.resptype_code get_rdonly_locked -> obj_sized m (obj it) (read_size r))) its rs ->
  reads_status rs in_progress = in_progress ->
  Forall2 (read_known w) (zip_with note_read its rs) (map read_value rs) /\
  Forall2 (mem_read m) (zip_with note_read its rs) (map read_value rs).
Proof.
  intros H0 Hsh. induction Hsh as [|it r its rs [(Hc & _ & H8) Hfull] Hsh IH]; [by intros; split; constructor|].
  simpl. intros Hf Hm Hst. apply Forall_cons in H0 as [H0 H0s]. apply Forall_app in Hf as [Hf Hfs].
  apply Forall2_cons in Hm as [[Hh Hsz] Hm]. rewrite reads_status_cons in Hst.
  destruct (r.1 =? Datastore.resptype_code get_rdonly_locked) eqn:El.
  { exfalso. revert Hst. unfold reads_status. by case_match. }
  destruct (IH H0s Hfs Hm Hst) as [IH1 IH2]. apply Z.eqb_neq in El. specialize (H8 El). specialize (Hsz El).
  assert (r.1 = Datastore.resptype_code get_rdonly_success \/ r.1 = Datastore.resptype_code get_rdonly_not_found) as [E|E].
  { unfold read_codes in Hc. simpl in Hc. set_solver. }
  - assert (note_read it r = mark_read true (resp_version r) it) as En by (unfold note_read; by rewrite E).
    unfold rfacts in Hf. unfold read_size in Hsz. unfold read_value. rewrite E in *. rewrite En. cbn [Z.eqb Datastore.resptype_code] in *.
    apply Forall_cons in Hf as [Hf _]. split; constructor; try done.
    split; [by apply obj_has_holds|by apply Hfull].
  - assert (note_read it r = mark_read false (resp_version r) it) as En by (unfold note_read; by rewrite E).
    unfold rfacts in Hf. unfold read_size in Hsz. unfold read_value. rewrite E in *. rewrite En. cbn [Z.eqb Datastore.resptype_code] in *.
    apply Forall_cons in Hf as [Hf _]. split; constructor; try done. split; [done|by apply Hfull].
Qed.

Lemma writes_known w m its rs :
  Forall (fun it => 0 <= obj it) its ->
  Forall2 (fun it r => shape (inr it) r) its rs -> Forall (holds w) (concat (zip_with (wfacts C) its rs)) ->
  Forall2 (fun it r => obj_holds m (obj it) r.2 /\ (write_mode it <> wm_insert -> r.1 = lock_code it ->
    obj_sized m (obj it) (Z.of_nat (length r.2) - 8))) its rs ->
  Forall2 (fun it r => r.1 = lock_code it) its rs ->
  Forall2 (write_known w) (zip_with note_write its rs) (zip_with locked_value its rs) /\
  Forall2 (mem_write m) (zip_with note_write its rs) (zip_with locked_value its rs).
Proof.
  intros H0 Hsh. induction Hsh as [|it r its rs [(Hc & _ & H8) Hfull] Hsh IH]; [by intros; split; constructor|].
  simpl. intros Hf Hm Hl. apply Forall_cons in H0 as [H0 H0s]. apply Forall_app in Hf as [Hf Hfs].
  apply Forall2_cons in Hm as [[Hh Hsz] Hm], Hl as [El Hl]. destruct (IH H0s Hfs Hm Hl) as [IH1 IH2].
  unfold wfacts in Hf. rewrite El, Z.eqb_refl in Hf. apply Forall_cons in Hf as [Hf _].
  assert (note_write it r = mark_locked true it) as En by (unfold note_write; by rewrite El, Z.eqb_refl).
  rewrite En. split; constructor; try done.
  - split; [exact Hf|]. split; [done|]. unfold locked_value. simpl. case_decide as Hd; [done|]. split; [|done]. intros _.
    destruct (write_mode it); try done; by destruct Hd.
  - specialize (Hfull El). unfold mem_write, locked_value. simpl. case_decide as Hd; [|done]. eexists. split; [done|]. split; [apply obj_has_holds; auto|apply Hfull].
Qed.

Lemma locks_noted its rs :
  Forall2 (fun it r => shape (inr it) r) its rs ->
  locked_locs (zip_with note_write its rs) = concat (zip_with (wlocks C) its rs).
Proof.
  unfold locked_locs. induction 1 as [|it r its rs _ _ IH]; simpl; [done|].
  rewrite filter_cons. unfold wlocks at 1, note_write at 1. simpl. destruct (r.1 =? lock_code it); simpl; [|done].
  by rewrite IH.
Qed.

(** ** [do_read] *)

(** An item of a table that is only read, and one of a table that may be written. *)
Definition fixed (it : tx_rwset_item_t) : Prop := cl_ro C (rpc_reqtype it) = true.
Definition mutable (it : tx_rwset_item_t) : Prop := cl_ro C (rpc_reqtype it) = false.

(** A transaction in progress: the values of what has been read ([vr]) and locked
    ([vw]) so far. *)
Record running (x : tx) (vr vw : list (option (list byte))) (w : world) : Prop := {
  run_caller : caller_id x = self;
  run_status : tx_status x = in_progress;
  run_ritems : Forall item_wf (read_set x);
  run_witems : Forall item_wf (write_set x);
  run_mutable : Forall mutable (write_set x);
  run_count : Z.of_nat (length (read_set x) + length (write_set x)) <= RPC_MAX_MSG_CORO;
  run_index : (rs_index x <= length (read_set x))%nat /\ (ws_index x <= length (write_set x))%nat;
  run_good : good w;
  run_locks : owns (locked_locs (take (ws_index x) (write_set x))) w;
  run_reads : Forall2 (read_known w) (take (rs_index x) (read_set x)) vr;
  run_writes : Forall2 (write_known w) (take (ws_index x) (write_set x)) vw
}.

(** The transaction [x'] has the keys of [x] and belongs to the same coroutine. *)
Definition same_tx (x x' : tx) : Prop :=
  coro_id x' = coro_id x /\ mappings x' = mappings x /\ caller_id x' = caller_id x /\
  local_log_record x' = local_log_record x /\
  Forall2 same_key (read_set x) (read_set x') /\ Forall2 same_key (write_set x) (write_set x').

(** The transaction object [x'] of the same coroutine, with the memory for its log
    record. *)
Definition kin (x x' : tx) : Prop :=
  coro_id x' = coro_id x /\ mappings x' = mappings x /\ caller_id x' = caller_id x /\
  length (local_log_record x') = length (local_log_record x).

(** Everything in the sets has been read. *)
Definition all_read (x : tx) : Prop :=
  rs_index x = length (read_set x) /\ ws_index x = length (write_set x).

(** The outcome of [do_read] on [x]: it fails only if it reads from a table that may be
    written, or locks. *)
Definition read_post (x : tx) (m : list byte) (vr vw : list (option (list byte))) (w : world) (h : list TxWorld.entry)
    (o : tx_status_t * tx * list byte) (s : state) : Prop :=
  let '(st, x', m') := o in
  after (locked_locs (take (ws_index x) (write_set x))) h s /\ tx_status x' = st /\ same_tx x x' /\ all_read x' /\
  keeps (map obj (drop (rs_index x) (read_set x) ++ drop (ws_index x) (write_set x))) m m' /\
  good s.1 /\ owns (locked_locs (write_set x')) s.1 /\
  ((st = must_abort /\ ~ (Forall fixed (drop (rs_index x) (read_set x)) /\ drop (ws_index x) (write_set x) = [])) \/
   (st = in_progress /\ exists nr nw, running x' (vr ++ nr) (vw ++ nw) s.1 /\
      Forall2 (mem_read m') (drop (rs_index x) (read_set x')) nr /\
      Forall2 (mem_write m') (drop (ws_index x) (write_set x')) nw /\
      Forall2 (glimpsed w h s) (drop (rs_index x) (read_set x')) nr)).

Lemma Forall2_same_refl its : Forall2 same_key its its.
Proof. induction its; constructor; done. Qed.

Lemma note_reads_same its rs : length rs = length its -> Forall2 same_key its (zip_with note_read its rs).
Proof.
  revert rs. induction its as [|it its IH]; intros [|r rs] Hl; simpl in *; try lia; constructor;
    [apply note_read_same|apply IH; lia].
Qed.
Lemma note_writes_same its rs : length rs = length its -> Forall2 same_key its (zip_with note_write its rs).
Proof.
  revert rs. induction its as [|it its IH]; intros [|r rs] Hl; simpl in *; try lia; constructor; [done|apply IH; lia].
Qed.

Lemma item_wf_same its its' : Forall2 same_key its its' -> Forall item_wf its -> Forall item_wf its'.
Proof.
  induction 1 as [|it it' its its' (E1 & E2 & _ & _ & E5 & E6 & E7 & E8) _ IH]; intros H; [constructor|].
  apply Forall_cons in H as [[H1 H2 H3 H4 H5 H6] Hs]. constructor; [|by apply IH].
  constructor; rewrite ?E1, ?E2, ?E5, ?E6, ?E7, ?E8; done.
Qed.

Lemma mutable_same its its' : Forall2 same_key its its' -> Forall mutable its -> Forall mutable its'.
Proof.
  unfold mutable. induction 1 as [|it it' its its' (E & _) _ IH]; intros H; [constructor|].
  apply Forall_cons in H as [H Hs]. constructor; [by rewrite E|by apply IH].
Qed.

(** Reads of tables that are only read find no lock. *)
Lemma fixed_status its rs st :
  Forall fixed its -> Forall2 (fun it r => shape (inl it) r) its rs -> reads_status rs st = st.
Proof.
  intros Hf Hs. induction Hs as [|it r its rs [_ (_ & _ & Hne)] _ IH]; [done|]. apply Forall_cons in Hf as [Hf Hfs].
  rewrite reads_status_cons, (proj2 (Z.eqb_neq _ _)); [by apply IH|by apply Hne].
Qed.

(** What the responses to reads show, for the items as they are noted. *)
Lemma noted_glimpses w h s its rs :
  Forall2 (fun it r => shape (inl it) r) its rs -> reads_status rs in_progress = in_progress ->
  Forall2 (fun it r => glimpse w h s (inl it) r) its rs ->
  Forall2 (glimpsed w h s) (zip_with note_read its rs) (map read_value rs).
Proof.
  intros Hsh. induction Hsh as [|it r its rs _ Hsh IH]; intros Hst Hg; [constructor|]. apply Forall2_cons in Hg as [Hg Hgs].
  rewrite reads_status_cons in Hst. destruct (r.1 =? Datastore.resptype_code get_rdonly_locked) eqn:El.
  { exfalso. revert Hst. unfold reads_status. by case_match. }
  apply Z.eqb_neq in El. constructor; [|by apply IH]. destruct (Hg El) as (hc & hb & Eh & Hc). exists hc, hb. split; [done|].
  unfold note_read. by repeat case_match.
Qed.

Lemma locked_locs_app a b : locked_locs (a ++ b) = locked_locs a ++ locked_locs b.
Proof. unfold locked_locs. by rewrite filter_app, map_app. Qed.

Lemma locked_length ws : (length (locked_locs ws) <= length ws)%nat.
Proof. unfold locked_locs. rewrite length_map. apply length_filter. Qed.

(** The plan of a call: the new items of both sets. *)
Lemma zip_plan {X} (f : pitem -> resp -> list X) rd wr r1 r2 :
  length r1 = length rd ->
  concat (zip_with f (map inl rd ++ map inr wr) (r1 ++ r2)) =
  concat (zip_with (fun it => f (inl it)) rd r1) ++ concat (zip_with (fun it => f (inr it)) wr r2).
Proof.
  revert r1. induction rd as [|it rd IH]; intros [|r r1] Hl; simpl in *; try lia.
  - revert r2. induction wr as [|it wr IHw]; intros [|r r2]; simpl; try done. by rewrite IHw.
  - rewrite IH by lia. by rewrite app_assoc.
Qed.

Lemma locks_of_reads rd r1 : concat (zip_with (fun it => locks_of (inl it)) rd r1) = [].
Proof. revert r1. induction rd as [|it rd IH]; intros [|r r1]; simpl; auto. Qed.

Lemma wt_sent (ty : tx_rwset_item_t -> ds_reqtype_t) its qs mn :
  Forall2 (fun it q => get_sent (ty it) it q) its qs ->
  wt mn (map fst qs) <= 28 * Z.of_nat (length its).
Proof.
  intros H. rewrite (Forall2_length _ _ _ H), <- (length_map fst qs). apply (wt_le mn _ 24).
  induction H as [|it q its qs (_ & _ & Hl & _) _ IH]; constructor; [lia|done].
Qed.

Section DoRead.
Context (x : tx) (m : list byte) (vr vw : list (option (list byte))) (w : world) (h : list TxWorld.entry).
Context (Hrun : running x vr vw w).
Context (Hpkt : 28 * Z.of_nat (length (read_set x) + length (write_set x)) <= pkt).

Let rd := drop (rs_index x) (read_set x).
Let wr := drop (ws_index x) (write_set x).
Context (Hly : layout m (map obj (rd ++ wr))).

(** The transaction after the responses [r1] and [r2] have been noted. *)
Let rset (r1 : list resp) := take (rs_index x) (read_set x) ++ zip_with note_read rd r1.
Let wset (r2 : list resp) := take (ws_index x) (write_set x) ++ zip_with note_write wr r2.

Lemma noted_post r1 r2 m1 w' h' :
  length r1 = length rd -> length r2 = length wr ->
  Forall2 (fun it r => shape (inl it) r) rd r1 -> Forall2 (fun it r => shape (inr it) r) wr r2 ->
  good w' ->
  owns (concat (zip_with (wlocks C) wr r2) ++ locked_locs (take (ws_index x) (write_set x))) w' ->
  Forall (holds w') (concat (zip_with (rfacts C) rd r1) ++ concat (zip_with (wfacts C) wr r2)) ->
  Forall2 (read_known w') (take (rs_index x) (read_set x)) vr ->
  Forall2 (write_known w') (take (ws_index x) (write_set x)) vw ->
  keeps (map obj (rd ++ wr)) m m1 ->
  Forall2 (fun it r => obj_holds m1 (obj it) r.2 /\
    (r.1 <> Datastore.resptype_code get_rdonly_locked -> obj_sized m1 (obj it) (read_size r))) rd r1 ->
  Forall2 (fun it r => obj_holds m1 (obj it) r.2 /\ (write_mode it <> wm_insert -> r.1 = lock_code it ->
    obj_sized m1 (obj it) (Z.of_nat (length r.2) - 8))) wr r2 ->
  Forall2 (fun it r => glimpse w h (w', h') (inl it) r) rd r1 ->
  after (locked_locs (take (ws_index x) (write_set x))) h (w', h') ->
  let st := writes_status wr r2 (reads_status r1 in_progress) in
  read_post x m vr vw w h
    (st, with_status st (with_sets (rset r1) (wset r2) (length (rset r1)) (length (wset r2)) x), m1) (w', h').
Proof.
  intros L1 L2 S1 S2 Hpc Hown Hf Hkr Hkw Hk M1 M2 Hgl Hh' st. destruct Hrun as [Hc _ Hri Hwi Hmu Hn [Hi1 Hi2] _ _ _ _].
  assert (Forall2 same_key (read_set x) (rset r1)) as Sr.
  { rewrite <- (take_drop (rs_index x) (read_set x)) at 1. apply Forall2_app; [apply Forall2_same_refl|by apply note_reads_same]. }
  assert (Forall2 same_key (write_set x) (wset r2)) as Sw.
  { rewrite <- (take_drop (ws_index x) (write_set x)) at 1. apply Forall2_app; [apply Forall2_same_refl|by apply note_writes_same]. }
  assert (owns (locked_locs (wset r2)) w') as Hown'.
  { unfold wset. rewrite locked_locs_app, locks_noted by done. by rewrite Permutation_app_comm. }
  pose proof (Forall2_length _ _ _ Sr) as Lr. pose proof (Forall2_length _ _ _ Sw) as Lw.
  split; [done|]. split; [done|]. split; [done|]. split; [done|]. split; [done|].
  split; [done|]. split; [done|].
  assert (st = must_abort \/ (reads_status r1 in_progress = in_progress /\ st = in_progress)) as [Hst|[Hst1 Hst2]].
  { unfold st. destruct (reads_status r1 in_progress) eqn:E; try (unfold reads_status in E; by case_match).
    - clear. revert r2. induction wr as [|it its IH]; intros [|r r2]; simpl; auto.
      destruct (r.1 =? lock_code it); [apply IH|]. rewrite writes_status_abort. by left.
    - rewrite writes_status_abort. by left. }
  { left. split; [done|]. intros [Hfix Hwr]. fold rd in Hfix. fold wr in Hwr. revert Hst. unfold st. rewrite (fixed_status rd r1), Hwr by done.
    rewrite Hwr in L2. by apply nil_length_inv in L2 as ->. }
  right. split; [done|]. apply Forall_app in Hf as [Hf1 Hf2].
  assert (Forall (fun it => 0 <= obj it) rd /\ Forall (fun it => 0 <= obj it) wr) as [P1 P2].
  { apply Forall_app. clear -Hly. induction (rd ++ wr) as [|it its IH]; simpl in *; constructor; [apply Hly|apply IH, Hly]. }
  destruct (reads_known w' m1 rd r1 P1 S1 Hf1 M1 Hst1) as [K1 MM1].
  destruct (writes_known w' m1 wr r2 P2 S2 Hf2 M2) as [K2 MM2].
  { unfold st in Hst2. rewrite Hst1 in Hst2. by apply (writes_status_ok _ _ in_progress). }
  exists (map read_value r1), (zip_with locked_value wr r2). split; [constructor; simpl; try done|].
  - by eapply item_wf_same.
  - by eapply item_wf_same.
  - by eapply mutable_same.
  - by rewrite <- Lr, <- Lw.
  - by rewrite firstn_all.
  - rewrite firstn_all. by apply Forall2_app.
  - rewrite firstn_all. by apply Forall2_app.
  - simpl. unfold rset, wset. rewrite !drop_app_length' by (rewrite length_take; lia). split; [done|]. split; [done|]. by apply noted_glimpses.
Qed.

Let plan : list pitem := map inl rd ++ map inr wr.

Lemma plan_objs : map (fun p => obj (the_item p)) plan = map obj (rd ++ wr).
Proof. unfold plan. by rewrite !map_app, !map_map. Qed.

Lemma plan_split (R : pitem -> resp -> Prop) rs :
  Forall2 R plan rs ->
  exists r1 r2, rs = r1 ++ r2 /\ Forall2 (fun it => R (inl it)) rd r1 /\ Forall2 (fun it => R (inr it)) wr r2.
Proof.
  unfold plan. intros H. apply Forall2_app_inv_l in H as (r1 & r2 & H1 & H2 & ->).
  exists r1, r2. split; [done|]. by rewrite Forall2_fmap_l in H1, H2.
Qed.

Lemma read_keys_ok : wp C self pkt (read_keys x m) (read_post x m vr vw w h) (w, h).
Proof.
  pose proof Hrun as [Hc Hst Hri Hwi Hmu Hn [Hi1 Hi2] Hpc Hown Hkr Hkw].
  assert (Forall item_wf rd) as Hrd by (by apply Forall_drop).
  assert (Forall item_wf wr) as Hwr by (by apply Forall_drop).
  assert (length rd + length wr <= length (read_set x) + length (write_set x))%nat as Hlen
    by (unfold rd, wr; rewrite !length_drop; lia).
  unfold read_keys. fold rd wr. rewrite Hc, Hst.
  apply wp_bind, wp_get_reqs; [done|done|intros mn; unfold wt; simpl; lia|]. intros q1 Hq1. simpl.
  apply wp_bind, wp_get_reqs; [done|done| |].
  { intros mn. pose proof (wt_sent _ rd q1 mn Hq1). lia. }
  intros q2 Hq2. apply wp_bind.
  apply (wp_plan plan _ m (locked_locs (take (ws_index x) (write_set x)))
    (zip_with read_fact (take (rs_index x) (read_set x)) vr ++ zip_with lock_fact (take (ws_index x) (write_set x)) vw)).
  - unfold plan. apply Forall_app. rewrite !Forall_fmap. split; [by eapply Forall_impl; [exact Hrd|]|].
    apply Forall_and. split; [done|]. by apply Forall_drop.
  - unfold plan. apply Forall2_app; by rewrite Forall2_fmap_l.
  - unfold plan. rewrite length_app, !length_map. pose proof (locked_length (take (ws_index x) (write_set x))) as Hll.
    rewrite length_take in Hll. unfold rd, wr. rewrite !length_drop. lia.
  - by rewrite plan_objs.
  - done.
  - done.
  - apply Forall_app. split; [by apply Forall2_facts in Hkr as [? _]|by apply Forall2_facts in Hkw as [? _]].
  - intros rs m1 w' h' Hsh Hpc' Hown' Hf' Hk Hh Hgl Hh'. rewrite plan_objs in Hk.
    destruct (plan_split _ _ Hsh) as (r1 & r2 & -> & S1 & S2).
    pose proof (Forall2_length _ _ _ S1) as L1. pose proof (Forall2_length _ _ _ S2) as L2.
    destruct (plan_split _ _ Hh) as (r1' & r2' & E & H1 & H2).
    apply app_inj_1 in E as [<- <-]; [|by rewrite <- (Forall2_length _ _ _ H1)].
    destruct (plan_split _ _ Hgl) as (g1 & g2 & E & G1 & _). apply app_inj_1 in E as [<- <-]; [|by rewrite <- (Forall2_length _ _ _ G1)].
    unfold plan in Hown', Hf'. rewrite zip_plan, locks_of_reads in Hown' by done. rewrite zip_plan in Hf' by done.
    pose proof Hly as Hly'. rewrite map_app in Hly'. apply layout_app in Hly' as (Ly1 & Ly2 & Lap).
    assert (Forall short r1) as Sh1 by (clear -S1; induction S1; constructor; eauto using short_shape).
    assert (Forall short r2) as Sh2 by (clear -S2; induction S2; constructor; eauto using short_shape).
    destruct (note_reads_ok rd r1 r2 in_progress m1) as (m2 & E2 & Hk2 & M1);
      [eapply layout_ext; [apply Hk|done]|done| |done|].
    { clear -S1. induction S1 as [|? ? ? ? [? _]]; by constructor. }
    apply wp_bind. eapply wp_lift; [exact E2|]. cbn beta iota.
    assert (Forall2 (fun it r => obj_holds m2 (obj it) r.2) wr r2) as H2'.
    { apply (all_hold_keeps (map obj rd) wr r2 m1); try done. eapply layout_ext; [apply Hk|done]. }
    destruct (note_writes_ok wr r2 (reads_status r1 in_progress) m2) as (m3 & E3 & Hk3 & M2); [| |done|].
    { eapply layout_ext; [|exact Ly2]. etransitivity; [apply Hk2|apply Hk]. }
    { clear -S2. induction S2 as [|? ? ? ? [? _]]; by constructor. }
    apply wp_bind. eapply wp_lift; [exact E3|]. cbn beta iota. apply Forall_app in Hf' as [Hnew Hold].
    apply Forall_app in Hold as [Ho1 Ho2].
    apply (noted_post r1 r2 m3 w' h'); try done.
    + apply Forall2_facts. split; [done|]. by apply Forall2_facts in Hkr as [_ ?].
    + apply Forall2_facts. split; [done|]. by apply Forall2_facts in Hkw as [_ ?].
    + rewrite map_app in *. eapply keeps_trans; [exact Hk|]. eapply keeps_trans; [by apply keeps_app_l|by apply keeps_app_r].
    + revert M1. apply (all_keep (fun m it r => obj_holds m (obj it) r.2 /\
        (r.1 <> Datastore.resptype_code get_rdonly_locked -> obj_sized m (obj it) (read_size r))) (map obj wr)).
      * intros it r H0 Ha Hs [Hb Hz]. split; [by apply (holds_keeps _ (map obj wr) m2)|].
        intros Hne. apply (sized_keeps _ (map obj wr) m2); auto.
      * clear -Lap. induction wr as [|it its IH]; constructor; [|apply IH].
        -- eapply Forall_impl; [exact Lap|]. intros o H. apply Forall_cons in H as [H _]. unfold apart in *. lia.
        -- eapply Forall_impl; [exact Lap|]. intros o H. by apply Forall_cons in H as [_ H].
      * eapply layout_ext; [|exact Ly1]. etransitivity; [apply Hk2|apply Hk].
      * done.
Qed.

End DoRead.

(** ** [validate] *)

Section Validate.
Context (its : list tx_rwset_item_t) (m : list byte) (L : list loc) (F : list fact) (w0 : world) (h : list TxWorld.entry).

(** The bucket [a] is [w0]'s after operations of others only, which leave alone what is
    only read. *)
Definition since (l : loc) (a : abucket) : Prop :=
  rtc (fun a b => others self a b /\ calm b) (w0 l) a /\ (cl_ro C l.1.2 = true -> a = w0 l).

(** What a response of the validation batch tells about a time after [w0]. *)
Definition rechecked (it : tx_rwset_item_t) (r : resp) : Prop :=
  read_resp r /\ exists a rt ts v, since (iloc it) a /\ a_get self (key it) a = (rt, ts, v) /\
    (r.1 = Datastore.resptype_code get_rdonly_success <-> rt = kSuccess) /\
    (r.1 = Datastore.resptype_code get_rdonly_not_found <-> rt = kNotFound) /\
    (rt <> kLocked -> forall t, ts = Some t -> resp_version r = version (word_hdr t)) /\
    (r.1 <> Datastore.resptype_code get_rdonly_locked -> a_map a !! key it = read_value r).

Lemma since_ext l a b : since l a -> (b = a \/ (others self a b /\ calm b)) -> (cl_ro C l.1.2 = true -> b = a) -> since l b.
Proof. intros [H He] Hab Hr. split; [destruct Hab as [->|Hab]; [done|by eapply rtc_r]|]. intros E. rewrite Hr; auto. Qed.

(** A valid response certifies the value at [w0], and that nobody else was about
    to change it. *)
Lemma rechecked_valid it r v :
  item_wf it -> good w0 -> read_known w0 it v -> rechecked it r -> read_valid it r = true ->
  current w0 it v.
Proof.
  intros Hit Hpc [(Hp & Hk & _) Hex] (_ & a & rt & ts & v' & [Hs _] & Hg & H1 & H2 & Hver & _) Hv.
  unfold read_valid in Hv. apply andb_true_iff in Hv as [Hc Hv]. apply Z.eqb_eq in Hc, Hv.
  assert (rt = match v with Some _ => kSuccess | None => kNotFound end) as Hrt.
  { rewrite Hex in Hc. destruct v; simpl in Hc; [by apply H1|by apply H2]. }
  apply (validated self Hself (exec_rs_version it) (key it) v _ a rt ts v' (resp_version r)); try done.
  - by eapply good_calm.
  - apply Hver. rewrite Hrt. by destruct v.
Qed.

(** It carries the same value. *)
Lemma rechecked_value it r v :
  item_wf it -> good w0 -> read_known w0 it v -> rechecked it r -> read_valid it r = true -> read_value r = v.
Proof.
  intros Hit Hpc [(Hp & Hk & _) Hex] (_ & a & rt & ts & v' & [Hs _] & Hg & H1 & H2 & Hver & Hval) Hv.
  unfold read_valid in Hv. apply andb_true_iff in Hv as [Hc Hv]. apply Z.eqb_eq in Hc, Hv.
  assert (rt = match v with Some _ => kSuccess | None => kNotFound end) as Hrt.
  { rewrite Hex in Hc. destruct v; simpl in Hc; [by apply H1|by apply H2]. }
  destruct (known_rtc self Hself (exec_rs_version it) (key it) v _ a Hs) as [Hca Hka]; [by eapply good_calm|exact Hk|].
  rewrite <- Hval by (rewrite Hc; by destruct (exec_rs_exists it)).
  apply (validated self Hself (exec_rs_version it) (key it) v a a rt ts v' (resp_version r)); try done.
  apply Hver. rewrite Hrt. by destruct v.
Qed.

(** What is only read is still valid. *)
Lemma rechecked_fixed it r v :
  item_wf it -> good w0 -> read_known w0 it v -> rechecked it r -> fixed it -> read_valid it r = true.
Proof.
  intros Hit Hg [(Hp & _ & Hro) Hex] (_ & a & rt & ts & v' & [_ Hs] & Hget & H1 & H2 & Hver & _) Hfix.
  destruct (Hro Hfix) as [Ever Em]. rewrite (Hs Hfix) in Hget.
  assert (is_unlocked (a_ts (w0 (iloc it))) = true) as Hu by (by apply Hg). unfold a_get in Hget. rewrite Hu, Em in Hget.
  unfold read_valid. rewrite Hex, Ever.
  destruct v as [b|]; injection Hget as <- <- <-; apply andb_true_iff; rewrite !Z.eqb_eq; (split; [by apply H1 || by apply H2|by apply Hver]).
Qed.

Lemma wp_validate qs (Q : list resp * list byte -> state -> Prop) :
  Forall item_wf its -> Forall2 (fun it q => get_sent get_rdonly it q) its qs ->
  Z.of_nat (length its) <= RPC_MAX_MSG_CORO -> layout m (map obj its) ->
  good w0 -> owns L w0 -> Forall (holds w0) F ->
  (forall rs m' w' h', Forall2 rechecked its rs -> good w' -> owns L w' -> Forall (holds w') F ->
     keeps (map obj its) m m' -> Forall2 (fun it r => obj_holds m' (obj it) r.2) its rs ->
     after L h (w', h') -> Q (rs, m') (w', h')) ->
  wp C self pkt (send_and_yield qs m) Q (w0, h).
Proof.
  intros Hits Hqs Hn Hly Hg Hown Hf HQ. pose proof (Forall2_length _ _ _ Hqs) as Hlq.
  apply (wp_send C self pkt _ _ _ _ (fun ps s => good s.1 /\ owns L s.1 /\ Forall (holds s.1) F /\
    (forall l, cl_prim C l.1.2 = true -> since l (s.1 l)) /\
    Forall2 (fun it o => forall r, o = Some r -> rechecked it r) its ps /\ after L h s)).
  - lia.
  - simpl. split; [done|]. split; [done|]. split; [done|]. split; [by repeat constructor|].
    split; [by apply Forall2_none|apply after_refl].
  - intros ps w1 h1 w2 Hl (Hg1 & Ho1 & Hf1 & Hs1 & Hr1 & Hh1) He Ht. simpl in *.
    assert (good w2) as Hg2 by (by eapply (good_env C HC self Hself)).
    assert (owns L w2) as Ho2 by (apply (owns_env C self Hself _ w1); [apply Hg1|apply Hg2|done..]).
    split; [done|]. split; [done|]. split; [|split; [|split; [done|apply after_env; [by apply owns_held|done]]]].
    + eapply Forall_impl; [exact Hf1|]. intros f. apply (holds_env C self Hself w1); [apply Hg1|apply Hg2|done..].
    + intros l Hl'. eapply since_ext; [by apply Hs1| |].
      * destruct (env_at C self w1 w2 l He Hl'); [by left|right]. split; [done|]. by eapply good_calm.
      * intros Hr. by apply (env_ro C self w1 w2).
  - intros ps w1 h1 i q Hl (Hg1 & Ho1 & Hf1 & Hs1 & Hr1 & Hh1) Hq Hi. simpl in *.
    destruct (Forall2_lookup_r _ _ _ _ _ Hqs Hq) as (it & Eit & Hsent).
    assert (item_wf it) as Hit by (by eapply Forall_lookup_1 in Hits).
    destruct (serve_read C HC self Hself it q w1 Hit Hsent (proj1 Hg1)) as [Hacc H].
    split; [done|]. intros r w2 Ha _. destruct (H r w2 Ha) as (Ew & Hrr & _ & _ & Hcur & rt & ts & v & Hget & H1 & H2 & H3).
    assert (good w2) as Hg2 by (by eapply good_ext). split; [by apply fair_idle|].
    split; [done|]. split; [by eapply owns_ext|]. split; [|split; [|split]].
    + eapply Forall_impl; [exact Hf1|]. intros f. by apply holds_ext.
    + intros l Hl'. rewrite Ew. by apply Hs1.
    + eapply Forall2_got; [exact Eit| |done]. split; [done|].
      exists (w1 (iloc it)), rt, ts, v. split_and!; try done; [apply Hs1, Hit|]. intros Hr. by apply Hcur.
    + apply after_own; [by apply owns_held; eapply owns_ext|by intros l _; rewrite Ew|done].
  - intros rs [w' h'] Hl (Hg' & Ho' & Hf' & _ & Hs' & Hh'). simpl in *. apply Forall2_all in Hs'.
    destruct (deliver_plan obj rechecked its qs rs m Hly) as (m' & Hd & Hk & Hh); [by intros it r ((_ & ? & _) & _)|done| |].
    { eapply Forall2_impl; [exact Hqs|]. by intros p q (_ & _ & _ & _ & E). }
    exists m'. split; [done|]. by apply HQ.
Qed.
End Validate.

(** The object of an item holds the value that was read. *)
Definition reads_back (m : list byte) (it : tx_rwset_item_t) (v : option (list byte)) : Prop :=
  forall b, v = Some b -> read_at (Z.to_nat (obj it + 16)) (length b) m = Ok b.

Lemma held_back m it r v :
  0 <= obj it -> read_resp r -> obj_holds m (obj it) r.2 -> read_value r = v -> reads_back m it v.
Proof.
  intros H0 (_ & _ & H8) Hh Hv b ->. unfold read_value in Hv. destruct (Z.eqb_spec r.1 (Datastore.resptype_code get_rdonly_success)) as [E|]; [|done].
  injection Hv as <-. specialize (H8 ltac:(by rewrite E)). unfold obj_holds in Hh.
  replace (Z.to_nat (obj it + 16)) with (Z.to_nat (obj it + 8) + 8)%nat by lia.
  rewrite (read_at_sub _ _ _ _ 8 (length (drop 8 r.2)) Hh) by (rewrite length_drop; lia). by rewrite firstn_all.
Qed.

Lemma validate_ok x m L F vr w h :
  caller_id x = self -> Forall item_wf (read_set x) ->
  Z.of_nat (length (read_set x)) <= RPC_MAX_MSG_CORO -> 28 * Z.of_nat (length (read_set x)) <= pkt ->
  layout m (map obj (read_set x)) -> good w -> owns L w -> Forall (holds w) F ->
  Forall2 (read_known w) (read_set x) vr ->
  wp C self pkt (validate x m) (fun '(ok, m') s =>
    after L h s /\ good s.1 /\ owns L s.1 /\ Forall (holds s.1) F /\
    keeps (map obj (read_set x)) m m' /\
    (ok = true -> Forall2 (current w) (read_set x) vr /\ Forall2 (reads_back m') (read_set x) vr) /\ (Forall fixed (read_set x) -> ok = true)) (w, h).
Proof.
  intros Hc Hits Hn Hpkt Hly Hpc Hown Hf Hk. unfold validate. rewrite Hc.
  apply wp_bind, wp_get_reqs; [done|done|intros mn; unfold wt; simpl; lia|]. intros qs Hqs. simpl.
  apply wp_bind. apply (wp_validate (read_set x) m L F w h); try done.
  intros rs m' w' h' Hr Hpc' Hown' Hf' Hkp Hh Hh'.
  destruct (check_reads_ok (read_set x) rs m') as (ok & E & Hok); [eapply layout_ext; [apply Hkp|done]| |done|].
  { clear -Hr. induction Hr as [|? ? ? ? [? _]]; by constructor. }
  apply wp_bind. eapply wp_lift; [exact E|]. simpl. split; [done|]. split_and!; try done.
  2: { intros Hfix. apply Hok. clear -Hself Hits Hpc Hk Hr Hfix. revert rs Hr. induction Hk as [|it v its vr Hkv Hk IH]; intros rs Hr; inversion Hr as [|? r ? rs' Hr1 Hrs]; subst; [constructor|].
       apply Forall_cons in Hits as [Hit Hits], Hfix as [Hf Hfix]. constructor; [by apply (rechecked_fixed w it r v)|by apply IH]. }
  intros Eok. apply Hok in Eok. clear Hok. rename Eok into Hok. assert (layout m' (map obj (read_set x))) as Hly' by (eapply layout_ext; [apply Hkp|done]).
  clear -Hself Hits Hpc Hk Hr Hok Hh Hly'.
  revert rs Hr Hok Hh. induction Hk as [|it v its vr Hkv Hk IH]; intros rs Hr Hok Hh; [by split; constructor|].
  inversion Hr as [|? r ? rs' Hr1 Hrs]; subst. apply Forall2_cons in Hok as [Hv Hok], Hh as [Hh1 Hh]. apply Forall_cons in Hits as [Hit Hits].
  destruct Hly' as ([Ho _] & _ & Hly'). destruct (IH Hits Hly' rs' Hrs Hok Hh) as [IH1 IH2].
  split; (constructor; [|done]); [by apply (rechecked_valid w it r v)|].
  apply (held_back m' it r v); [lia|apply Hr1|done|by apply (rechecked_value w it r v)].
Qed.

End Exec.
End TxExec.
