(* ===== verification/TxRelease.v ===== *)
(** * Releasing locks

    What is left of a batch, releasing one lock of a bucket, and the
    specification of [abort]: it gives back every lock and changes nothing
    else. *)

From S2P Require Import Prelude Util Hots Mappings FixedTable FixedTableInv FixedTableOps FixedTableSteps Datastore DatastoreSpec.
From S2P Require Import RpcDefs RpcBatch Tx TxWorld TxBuckets TxMem TxSpec TxExec.
From Stdlib Require Import ZArith Lia Bool.
From stdpp Require Import base numbers list gmap sets relations.
#[local] Open Scope Z_scope.
Import FixedTable FixedTableInv FixedTableOps FixedTableSteps DatastoreSpec RpcDefs RpcBatch Tx TxWorld TxBuckets TxMem TxSpec TxExec.

Module TxRelease.

(** ** What is left of a batch *)

Section Pending.
Context {P R X : Type} (f : P -> X).

Definition pending (plan : list P) (ps : list (option R)) : list X :=
  concat (zip_with (fun p o => match o with Some _ => [] | None => [f p] end) plan ps).

Lemma pending_insert plan ps i p r :
  plan !! i = Some p -> ps !! i = Some None ->
  pending plan ps ≡ₚ f p :: pending plan (<[i := Some r]> ps).
Proof.
  revert ps i. induction plan as [|p0 plan IH]; intros ps [|i] Hp Hi; simpl in Hp; try done.
  - simplify_eq. destruct ps as [|o ps]; [done|]. simpl in Hi. by simplify_eq.
  - destruct ps as [|o ps]; [done|]. simpl in Hi. unfold pending in *. simpl.
    rewrite (IH ps i Hp Hi). by rewrite Permutation_middle.
Qed.

Lemma pending_none plan : pending plan (replicate (length plan) None) = map f plan.
Proof. unfold pending. induction plan as [|p plan IH]; simpl; [done|]. by rewrite IH. Qed.

Lemma pending_all plan (rs : list R) : pending plan (map Some rs) = [].
Proof. unfold pending. revert rs. induction plan as [|p plan IH]; intros [|r rs]; simpl; auto. Qed.
End Pending.

Lemma pending_map {P R X Y} (f : P -> X) (g : X -> Y) plan (ps : list (option R)) :
  map g (pending f plan ps) = pending (fun p => g (f p)) plan ps.
Proof.
  unfold pending. revert ps. induction plan as [|p plan IH]; intros [|[r|] ps]; simpl; try done.
  by f_equal.
Qed.

(** Responses without bytes change no memory. *)
Lemma deliver_empty bufs (rs : list resp) m :
  length rs = length bufs -> Forall (fun r => r.2 = []) rs ->
  Forall (fun b => forall a, b = Some a -> (Z.to_nat a <= length m)%nat) bufs ->
  deliver bufs rs m = Ok m.
Proof.
  intros Hl Hr Hb. revert rs Hl Hr. induction Hb as [|b bufs Hb _ IH]; intros [|[ty bs] rs] Hl Hr; simpl in Hl; try lia; [done|].
  apply Forall_cons in Hr as [Hr Hrs]. simpl in Hr. subst bs. cbn [deliver].
  assert (match b with Some a => write_at (Z.to_nat a) [] m | None => Ok m end = Ok m) as ->.
  { destruct b as [a|]; [|done]. specialize (Hb a eq_refl). rewrite write_at_ok by (simpl; lia).
    simpl. by rewrite Nat.add_0_r, take_drop. }
  cbn [mbind res_bind]. apply IH; [lia|done].
Qed.

Lemma Forall_sub {A} (P : A -> Prop) (Q : A -> Prop) `{forall x, Decision (Q x)} l : Forall P l -> Forall P (filter Q l).
Proof. rewrite !Forall_forall. intros Hl x Hx. apply Hl. by apply list_elem_of_filter in Hx as [_ ?]. Qed.

Section Release.
Context (C : cluster) (HC : cluster_wf C) (self pkt : Z) (Hself : caller_wf self).
Notation iloc := (iloc C).
Notation item_wf := (item_wf C).
Notation owns := (owns C self).
Notation holds := (holds C self).
Notation get_sent := (get_sent self).
Notation good := (good C self).
Notation after := (after C self).

(** A bucket with the lock word of [a]. *)
Definition same_lock (a a1 : abucket) : Prop :=
  a_ts a1 = a_ts a /\ a_locker a1 = a_locker a /\ a_cnt a1 = a_cnt a.

Lemma owns_release L w l a1 :
  cl_prim C l.1.2 = true -> same_lock (w l) a1 -> owns (l :: L) w -> owns L (wupd l (a_unlock a1) w).
Proof.
  intros Hp (Et & El & Ec) H mn ty i Hp'. specialize (H mn ty i Hp'). rewrite occ_cons in H.
  pose proof (occ_nonneg (mn, ty, i) L). destruct (decide (l = (mn, ty, i))) as [->|Hne].
  - rewrite wupd_eq. destruct H as [_ [Hh Hc]]; [lia|]. unfold a_unlock. rewrite Ec, Hc.
    destruct (Z.eqb_spec (1 + occ (mn, ty, i) L) 1); split; simpl; try lia.
    + intros _ [_ E]. simpl in E. by apply (self_valid self Hself).
    + intros _. split; [|lia]. unfold a_held in *. simpl. by rewrite Et, El.
  - rewrite wupd_ne by done. by rewrite Z.add_0_l in H.
Qed.

Lemma owns_at L w l : cl_prim C l.1.2 = true -> owns (l :: L) w -> a_held self (w l).
Proof. intros Hp H. apply owns_held in H. apply H; [apply list_elem_of_here|done]. Qed.

(** The value of a key in a bucket that stays locked. *)
Lemma sure_release w l a1 k v l' :
  same_lock (w l) a1 -> (l' = l -> a_map a1 !! k = a_map (w l) !! k) ->
  a_held self (wupd l (a_unlock a1) w l') -> holds w (Fsure k v l') -> holds (wupd l (a_unlock a1) w) (Fsure k v l').
Proof.
  intros Hsl Hk Hh (Hp & _ & Hm). split; [done|]. split; [done|].
  destruct (decide (l' = l)) as [->|Hne]; [|by rewrite wupd_ne]. rewrite wupd_eq.
  assert (a_map (a_unlock a1) = a_map a1) as -> by (unfold a_unlock; by case_match). by rewrite Hk.
Qed.

(** Releasing without a change of contents. *)
Lemma good_release L w l :
  cl_prim C l.1.2 = true -> good w -> owns (l :: L) w -> in_range C (wupd l (a_unlock (w l)) w) ->
  good (wupd l (a_unlock (w l)) w).
Proof.
  intros Hp Hg Hown Hr. pose proof (owns_at L w l Hp Hown) as Hh. pose proof Hg as [Hpc Hs].
  assert (a_map (a_unlock (w l)) = a_map (w l)) as Em by (unfold a_unlock; by case_match).
  assert (ts_range (a_ts (a_unlock (w l)))) as Hr'.
  { destruct l as [[mn ty] i]. specialize (Hr mn ty i Hp). by rewrite wupd_eq in Hr. }
  split.
  - apply peaceful_same; [by apply (held_mutable C self w)|done| |done].
    apply (calm_unlock self (w l)); try done. by eapply good_calm.
  - eapply insync_maps; [| |exact Hs].
    + intros l'. unfold wupd. case_decide as E; [|done]. by rewrite Em, E.
    + intros l' _. unfold wupd. case_decide as E; [|done]. intros _. right. by rewrite E.
Qed.

(** ** [abort] *)

Lemma serve_unlock it q w L :
  item_wf it -> get_sent unlock it q -> good w -> owns (iloc it :: L) w ->
  accepted C w q.1 /\
  forall r w', answers C w q.1 r w' -> in_range C w' ->
    r.2 = [] /\ fair C self w w' /\ good w' /\ owns L w' /\
    (forall l, a_map (w' l) = a_map (w l)).
Proof.
  intros Hit Hq Hg Hown. pose proof (iloc_prim C it Hit) as Hp. pose proof (owns_at L w _ Hp Hown) as Hh.
  apply a_heldb_held in Hh as Hb. split.
  - apply (get_accepted C HC self Hself unlock it); try done. intros vs v. unfold a_handle. cbn [rq_type rq_caller_id].
    rewrite reqtype_of_code_code, Hb. cbn [andb]. eexists _, _. split; [done|]. by exists [].
  - intros [rt bs] w' Ha Hr.
    destruct (answers_get C HC self unlock it q w _ w' Hit Hq ltac:(done) Ha) as (vs & rs & a' & v & Hh' & _ & (Hl & _) & ->).
    unfold a_handle in Hh'. cbn [rq_type rq_caller_id] in Hh'. rewrite reqtype_of_code_code, Hb in Hh'. cbn [andb] in Hh'.
    injection Hh' as <- <-. cbn [rs_len snd] in *. split; [by apply nil_length_inv, Nat2Z.inj|].
    assert (good (wupd (iloc it) (a_unlock (w (iloc it))) w)) as Hg' by (by eapply good_release).
    split; [|split; [done|split]].
    + apply fair_good; [done|]. intros c _ Hc. apply (env_self C self); [done|by apply (held_mutable C self w), Hh; [apply Hg|]| |done]. by apply bstep_unlock.
    + by apply owns_release.
    + intros l. unfold wupd. case_decide as E; [|done]. subst. unfold a_unlock. by case_match.
Qed.

Lemma wp_unlocks its qs m w h (Q : list resp * list byte -> state -> Prop) :
  Forall item_wf its -> Forall2 (fun it q => get_sent unlock it q) its qs ->
  Z.of_nat (length its) <= RPC_MAX_MSG_CORO -> Forall (fun it => obj_at m (obj it)) its ->
  good w -> owns (map iloc its) w ->
  (forall rs w' h', good w' -> owns [] w' -> after [] h (w', h') -> Q (rs, m) (w', h')) ->
  wp C self pkt (send_and_yield qs m) Q (w, h).
Proof.
  intros Hits Hqs Hn Hobj Hg Hown HQ. pose proof (Forall2_length _ _ _ Hqs) as Hlq.
  apply (wp_send C self pkt _ _ _ _ (fun ps s => good s.1 /\ owns (pending iloc its ps) s.1 /\
    Forall2 (fun _ o => forall r : resp, o = Some r -> r.2 = []) its ps /\ after [] h s)).
  - lia.
  - rewrite <- Hlq, pending_none. split; [done|]. split; [done|]. split; [|apply after_refl].
    by apply (Forall2_none (fun _ (r : resp) => r.2 = [])).
  - intros ps w1 h1 w2 Hl (Hg1 & Ho1 & Hs1 & Hh1) He Ht. simpl in *.
    assert (good w2) as Hg2 by (by eapply (good_env C HC self Hself)). split; [done|].
    split; [apply (owns_env C self Hself _ w1); [apply Hg1|apply Hg2|done..]|]. split; [done|].
    apply after_env; [|done]. intros l Hl'. by apply not_elem_of_nil in Hl'.
  - intros ps w1 h1 i q Hl (Hg1 & Ho1 & Hs1 & Hh1) Hq Hi. simpl in *.
    destruct (Forall2_lookup_r _ _ _ _ _ Hqs Hq) as (it & Eit & Hsent).
    rewrite (pending_insert iloc its ps i it (0, []) Eit Hi) in Ho1.
    destruct (serve_unlock it q w1 _ ltac:(by eapply Forall_lookup_1 in Hits) Hsent Hg1 Ho1) as [Hacc H].
    split; [done|]. intros r w2 Ha Hr. destruct (H r w2 Ha Hr) as (Er & Hf & Hg2 & Ho2 & Hm).
    split; [done|]. split; [done|]. split; [|split; [by eapply (Forall2_got (fun _ (r : resp) => r.2 = []))|]].
    + assert (pending iloc its (<[i := Some r]> ps) = pending iloc its (<[i := Some (0, [])]> ps)) as ->; [|done].
      unfold pending. clear. revert i ps. induction its as [|it its IH]; intros [|i] [|o ps]; simpl; try done. by rewrite IH.
    + apply after_own; [|by intros l _|done]. intros l Hl'. by apply not_elem_of_nil in Hl'.
  - intros rs [w' h'] Hl (Hg' & Ho' & Hs' & Hh'). simpl in *. exists m. rewrite pending_all in Ho'.
    split; [|by apply HQ]. apply deliver_empty; [by rewrite length_map| |].
    + apply (Forall2_all (fun _ (r : resp) => r.2 = [])) in Hs'. clear -Hs'. by induction Hs'; constructor.
    + apply Forall_map. clear -Hqs Hobj. induction Hqs as [|it q its qs (_ & _ & _ & _ & E) _ IH]; [constructor|].
      apply Forall_cons in Hobj as [[H0 H1] Hobj]. constructor; [|by apply IH]. rewrite E. intros ? [= <-].
      change sizeof_hots_obj_t with 56 in H1. lia.
Qed.

Lemma abort_ok x m w h :
  caller_id x = self -> Forall item_wf (write_set x) ->
  Z.of_nat (length (write_set x)) <= RPC_MAX_MSG_CORO -> 28 * Z.of_nat (length (write_set x)) <= pkt ->
  Forall (fun it => obj_at m (obj it)) (write_set x) ->
  good w -> owns (locked_locs C (write_set x)) w ->
  wp C self pkt (abort false x m) (fun '(x', m') s =>
    x' = with_status aborted x /\ m' = m /\ good s.1 /\ owns [] s.1 /\ after [] h s) (w, h).
Proof.
  intros Hc Hits Hn Hpkt Hobj Hg Hown. unfold abort. cbn [andb].
  set (its := filter (fun it => exec_ws_locked it = true) (write_set x)).
  assert (length its <= length (write_set x))%nat as Hlen by apply length_filter.
  assert (Forall item_wf its) as Hits' by (by apply Forall_sub).
  assert (Forall (fun it => obj_at m (obj it)) its) as Hobj' by (by apply Forall_sub).
  apply wp_bind. change (caller_id (with_status aborted x)) with (caller_id x). rewrite Hc.
  change (write_set (with_status aborted x)) with (write_set x). fold its.
  apply wp_get_reqs; [done|done|intros mn; change (wt mn (map fst [])) with 0; lia|]. intros qs Hqs. rewrite app_nil_l.
  destruct qs as [|q qs].
  - simpl. apply Forall2_nil_inv_r in Hqs. unfold locked_locs in Hown. fold its in Hown. rewrite Hqs in Hown.
    split_and!; try done. apply after_refl.
  - apply wp_bind. apply (wp_unlocks its (q :: qs) m w h); try done; lia.
Qed.

End Release.
End TxRelease.
