(* ===== verification/TxUpdate.v ===== *)
(** * The update requests of [commit]

    What [send_updates_to_replicas] puts into its requests, that the requests fit
    the message buffers, and what a server does with one of them at a backup and
    at the primary. *)

From S2P Require Import Prelude Util Hots Mappings FixedTable FixedTableInv FixedTableOps FixedTableSteps Datastore DatastoreSpec.
From S2P Require Import RpcDefs RpcBatch Tx TxWorld TxBuckets TxMem TxSpec TxExec TxRelease.
From Stdlib Require Import ZArith Lia Bool.
From stdpp Require Import base numbers list gmap sets relations.
#[local] Open Scope Z_scope.
Import FixedTable FixedTableInv FixedTableOps FixedTableSteps DatastoreSpec RpcDefs RpcBatch Tx TxWorld TxBuckets TxMem TxSpec TxExec TxRelease.

Module TxUpdate.

Section Update.
Context (C : cluster) (HC : cluster_wf C) (self pkt : Z) (Hself : caller_wf self).
Notation iloc := (iloc C).
Notation item_wf := (item_wf C).
Notation ivsz := (ivsz C).
Notation owns := (owns C self).
Notation holds := (holds C self).

(** ** Requests *)

(** The machine of replica [r] of an item. *)
Definition mach (r : Z) (it : tx_rwset_item_t) : Z :=
  if r =? 0 then primary_mn it else cl_back C (keyhash it) r.

(** The value an item is to get: the contents of its object, or none. *)
Definition value (m : list byte) (it : tx_rwset_item_t) : list byte :=
  take (Z.to_nat (ivsz it)) (drop (Z.to_nat (obj it + 16)) m).
Definition newv (m : list byte) (it : tx_rwset_item_t) : option (list byte) :=
  if decide (write_mode it <> wm_del) then Some (value m it) else None.

(** The object of an item can be sent: it has the value size of its table, the key may
    get its new contents, and the copy, which takes 16 bytes more than the value, stays
    in memory. *)
Definition writable (m : list byte) (it : tx_rwset_item_t) : Prop :=
  0 <= obj it /\ obj it + 32 + ivsz it <= Z.of_nat (length m) /\
  read_at (Z.to_nat (obj it)) 8 m = Ok (le_bytes 8 (ivsz it)) /\
  cl_ok C (rpc_reqtype it) (key it) (newv m it).

Definition upd_type (it : tx_rwset_item_t) : ds_reqtype_t :=
  if decide (write_mode it <> wm_del) then put else Datastore.del.

Definition upd_sent (m : list byte) (r : Z) (it : tx_rwset_item_t) (q : ureq * option Z) : Prop :=
  u_mn q.1 = mach r it /\ u_type q.1 = rpc_reqtype it + r /\ q.2 = Some (obj it + 16) /\
  Z.of_nat (length (u_payload q.1)) = 24 + (if decide (write_mode it <> wm_del) then ivsz it else 0) /\
  (exists vs, parse_req (u_payload q.1) = Ok (mk_req self (reqtype_code (upd_type it)) vs (keyhash it) (key it))) /\
  (write_mode it <> wm_del -> take (Z.to_nat (ivsz it)) (drop 24 (u_payload q.1)) = value m it).

Lemma wp_update_req r m it sofar Q s :
  item_wf it -> 0 <= r <= cl_nback C -> writable m it ->
  wt (mach r it) (map fst sofar) + 28 + ivsz it + 16 <= pkt ->
  (forall q, upd_sent m r it q -> Q q s) -> wp C self pkt (update_req self r m it sofar) Q s.
Proof.
  intros Hit Hr (H0 & Hlen & Hsz & _) Hroom HQ. unfold update_req.
  pose proof (iw_vsz C HC it Hit) as Hvs. change (cl_vsz C (rpc_reqtype it)) with (ivsz it) in Hvs.
  pose proof (cw_type C HC _ (iw_prim C it Hit)) as [Ht0 Ht1]. pose proof (cw_nback C HC) as Hnb.
  apply wp_bind. eapply (wp_lift C self pkt _ (mach r it)).
  { unfold mach. destruct (Z.eqb_spec r 0); [done|].
    by rewrite at_nonneg, (iw_backs C it Hit) by lia. }
  apply wp_bind, wp_start. intros buf Hb. apply wp_bind.
  assert (wrap 8 (rpc_reqtype it + r) = rpc_reqtype it + r) as Ewrap.
  { apply wrap_id. assert (0 <= RPC_MICA_REQ_BASE) by done. assert (RPC_MAX_REQ_TYPE = 255) by done. unfold u. lia. }
  unfold upd_sent, upd_type in HQ. destruct (decide (write_mode it <> wm_del)) as [Hm|Hm].
  - destruct (put_forge_ok buf self (key it) (keyhash it) (drop (Z.to_nat (obj it)) m) (ivsz it))
      as (buf' & E & Hp & Hv & Hl); try done; try lia; [| |by apply self_u32|apply Hit..|].
    + rewrite read_at_ok in Hsz |- * by (rewrite ?length_drop; lia). by rewrite drop_0.
    + rewrite length_drop. lia.
    + eapply wp_lift; [exact E|]. apply HQ. cbn [fst snd u_mn u_type u_payload].
      assert (Z.to_nat (ds_put_req_size (ivsz it)) = (24 + Z.to_nat (ivsz it))%nat) as ->.
      { unfold ds_put_req_size, sizeof_put_req. change sizeof_get_req with 24. lia. }
      split; [done|]. split; [done|]. split; [done|]. split; [rewrite length_take; lia|]. split.
      * exists (ivsz it). by rewrite parse_req_take by lia.
      * intros _. rewrite skipn_firstn_comm, take_take, Nat.min_l by lia. rewrite Hv. unfold value.
        rewrite drop_drop. do 2 f_equal. lia.
  - destruct (get_forge_ok buf self (key it) (keyhash it) Datastore.del) as (buf' & vs & E & Hp & _ & Hl);
      [lia|by apply self_u32|apply Hit..|].
    eapply wp_lift; [exact E|]. apply HQ. cbn [fst snd u_mn u_type u_payload].
    change (Z.to_nat sizeof_get_req) with 24%nat.
    split; [done|]. split; [done|]. split; [done|]. split; [rewrite length_take; lia|]. split; [|done].
    exists vs. by rewrite parse_req_take by lia.
Qed.

(** ** Batches *)

(** The bytes that the updates of some items take in a message, and those that the
    updates of replica [r] take in the message for [mn]. *)
Definition bulk (its : list tx_rwset_item_t) : Z := foldr (fun it n => 28 + ivsz it + n) 0 its.
Definition load (mn r : Z) (its : list tx_rwset_item_t) : Z := bulk (filter (fun it => mach r it = mn) its).
Definition loads (mn : Z) (repls : list Z) (its : list tx_rwset_item_t) : Z :=
  foldr (fun r n => load mn r its + n) 0 repls.

Lemma load_cons mn r it its :
  load mn r (it :: its) = (if decide (mach r it = mn) then 28 + ivsz it else 0) + load mn r its.
Proof. unfold load. rewrite filter_cons. case_decide; simpl; lia. Qed.

Lemma ivsz_nonneg it : item_wf it -> 0 <= ivsz it <= 40.
Proof. intros H. apply (iw_vsz C HC it H). Qed.

Lemma load_bulk mn r its : Forall item_wf its -> 0 <= load mn r its <= bulk its.
Proof.
  induction 1 as [|it its Hit _ IH]; [done|]. rewrite load_cons. simpl. pose proof (ivsz_nonneg it Hit). case_decide; lia.
Qed.

Lemma bulk_le its : Forall item_wf its -> 28 * Z.of_nat (length its) <= bulk its <= 68 * Z.of_nat (length its).
Proof. induction 1 as [|it its Hit _ IH]; [done|]. simpl bulk. simpl length. pose proof (ivsz_nonneg it Hit). lia. Qed.

Lemma loads_nonneg mn repls its : Forall item_wf its -> 0 <= loads mn repls its.
Proof. intros H. induction repls as [|r rs IH]; simpl; [done|]. pose proof (load_bulk mn r its H). lia. Qed.

(** No machine holds two backups of an item, so that the updates of all backups
    take no more than the updates of one. *)
Lemma loads_le mn repls its :
  Forall item_wf its -> NoDup repls -> Forall (fun r => 1 <= r <= cl_nback C) repls -> loads mn repls its <= bulk its.
Proof.
  intros Hits Hnd Hr. induction Hits as [|it its Hit Hits IH].
  { clear Hnd Hr. induction repls as [|r rs IH]; simpl; [lia|]. change (load mn r []) with 0. simpl in IH. lia. }
  set (here := filter (fun r => mach r it = mn) repls). pose proof (ivsz_nonneg it Hit) as Hv.
  assert (loads mn repls (it :: its) = (28 + ivsz it) * Z.of_nat (length here) + loads mn repls its) as ->.
  { unfold here. clear. induction repls as [|r rs IH]; [simpl; lia|]. simpl. rewrite IH, load_cons, filter_cons.
    case_decide; simpl length; lia. }
  assert (length here <= 1)%nat; [|simpl; nia].
  assert (forall r, r ∈ here -> mach r it = mn /\ 1 <= r <= cl_nback C) as Hin.
  { intros r [Hm Hin]%list_elem_of_filter. split; [done|]. by rewrite Forall_forall in Hr; apply Hr. }
  assert (NoDup here) as Hnd' by (by apply NoDup_filter).
  destruct here as [|r1 [|r2 rest]]; simpl; [lia|lia|exfalso].
  destruct (Hin r1) as [H1 ?]; [apply list_elem_of_here|].
  destruct (Hin r2) as [H2 ?]; [apply list_elem_of_further, list_elem_of_here|].
  apply NoDup_cons in Hnd' as [Hn _]. apply Hn. apply elem_of_cons. left.
  unfold mach in H1, H2. rewrite (proj2 (Z.eqb_neq r1 0)) in H1 by lia. rewrite (proj2 (Z.eqb_neq r2 0)) in H2 by lia.
  apply (cw_distinct C HC (keyhash it)); [done|done|congruence].
Qed.

Section Batch.
Context (m : list byte) (its : list tx_rwset_item_t).
Context (Hits : Forall item_wf its) (Hw : Forall (writable m) its).

Lemma wp_update_reqs r sofar Q s :
  0 <= r <= cl_nback C ->
  (forall mn, wt mn (map fst sofar) + load mn r its + 16 <= pkt) ->
  (forall qs, Forall2 (upd_sent m r) its qs ->
     (forall mn, wt mn (map fst (sofar ++ qs)) <= wt mn (map fst sofar) + load mn r its) -> Q (sofar ++ qs) s) ->
  wp C self pkt (update_reqs self r m its sofar) Q s.
Proof.
  intros Hr. revert sofar Q Hw. induction Hits as [|it its' Hit Hits' IH]; intros sofar Q Hw Hroom HQ.
  { simpl. specialize (HQ [] ltac:(constructor)). rewrite app_nil_r in HQ. apply HQ. intros mn.
    change (load mn r []) with 0. lia. }
  apply Forall_cons in Hw as [Hw1 Hw]. cbn [update_reqs]. apply wp_bind.
  apply wp_update_req; [done|done|done| |].
  { specialize (Hroom (mach r it)). rewrite load_cons, decide_True in Hroom by done.
    pose proof (load_bulk (mach r it) r its' Hits'). lia. }
  intros q Hq.
  assert (forall mn, wt mn (map fst (sofar ++ [q])) <= wt mn (map fst sofar) + if decide (mach r it = mn) then 28 + ivsz it else 0) as Hwt.
  { intros mn. rewrite map_app. cbn [map]. rewrite wt_snoc. destruct Hq as (-> & _ & _ & Hl & _).
    destruct (Z.eqb_spec (mach r it) mn); [rewrite decide_True by done|rewrite decide_False by done; lia].
    pose proof (ivsz_nonneg it Hit). case_decide; lia. }
  apply IH; [done|done| |].
  - intros mn. specialize (Hroom mn). specialize (Hwt mn). rewrite load_cons in Hroom. lia.
  - intros qs Hqs Hwt'. rewrite <- app_assoc. apply HQ; [by constructor|].
    intros mn. specialize (Hwt mn). specialize (Hwt' mn). rewrite <- app_assoc in Hwt'.
    rewrite load_cons. change ([q] ++ qs) with (q :: qs) in *. lia.
Qed.

(** The requests of a batch: replica and item. *)
Definition plan (repls : list Z) : list (Z * tx_rwset_item_t) := concat (map (fun r => map (pair r) its) repls).

Lemma wp_replica_reqs x repls sofar Q s :
  caller_id x = self -> write_set x = its -> Forall (fun r => 0 <= r <= cl_nback C) repls ->
  (forall mn, wt mn (map fst sofar) + loads mn repls its + 16 <= pkt) ->
  (forall qs, Forall2 (fun p => upd_sent m p.1 p.2) (plan repls) qs -> Q (sofar ++ qs) s) ->
  wp C self pkt (replica_reqs x repls m sofar) Q s.
Proof.
  intros Hc Hx Hr. revert sofar Q. induction Hr as [|r rs Hr Hrs IH]; intros sofar Q Hroom HQ.
  { simpl. specialize (HQ [] ltac:(constructor)). by rewrite app_nil_r in HQ. }
  cbn [replica_reqs]. rewrite Hc, Hx. apply wp_bind. apply wp_update_reqs; [done| |].
  { intros mn. specialize (Hroom mn). simpl in Hroom. pose proof (loads_nonneg mn rs its Hits). lia. }
  intros qs Hqs Hwt. apply IH.
  - intros mn. specialize (Hroom mn). specialize (Hwt mn). simpl in Hroom. lia.
  - intros qs' Hqs'. rewrite <- app_assoc. apply HQ. unfold plan. cbn [map concat]. apply Forall2_app; [|done].
    by rewrite Forall2_fmap_l.
Qed.
End Batch.

End Update.
End TxUpdate.
