(* ===== verification/TxStage.v ===== *)
(** * Replicated updates

    The state of the replicas while a transaction commits: some backups of its keys
    are ahead of the primary.  What the operations of others, an update at a backup
    and an update at the primary do to it. *)

From S2P Require Import Prelude Util Hots Mappings FixedTable FixedTableInv FixedTableOps FixedTableSteps Datastore DatastoreSpec.
From S2P Require Import RpcDefs RpcBatch Tx TxWorld TxBuckets TxMem TxSpec TxExec TxRelease TxUpdate.
From Stdlib Require Import ZArith Lia Bool.
From stdpp Require Import base numbers list gmap sets relations.
#[local] Open Scope Z_scope.
Import FixedTable FixedTableInv FixedTableOps FixedTableSteps DatastoreSpec RpcDefs RpcBatch Tx TxWorld TxBuckets TxMem TxSpec TxExec TxRelease TxUpdate.

Module TxStage.

(** ** Updates of a bucket *)

Definition a_upd (k : Z) (nv : option (list byte)) (a : abucket) : abucket :=
  match nv with Some v => a_put k v a | None => a_del k a end.

Lemma a_upd_eq k nv a : a_map (a_upd k nv a) !! k = nv.
Proof. destruct nv; simpl; [apply lookup_insert_eq|apply lookup_delete_eq]. Qed.
Lemma a_upd_ne k nv a k' : k' <> k -> a_map (a_upd k nv a) !! k' = a_map a !! k'.
Proof. intros H. destruct nv; simpl; [by apply lookup_insert_ne|by apply lookup_delete_ne]. Qed.
Lemma a_upd_lock k nv a : same_lock a (a_upd k nv a).
Proof. by destruct nv. Qed.
Lemma a_unlock_map a : a_map (a_unlock a) = a_map a.
Proof. unfold a_unlock. by case_match. Qed.

Section Stage.
Context (C : cluster) (HC : cluster_wf C) (self pkt : Z) (Hself : caller_wf self).
Notation iloc := (iloc C).
Notation item_wf := (item_wf C).
Notation ivsz := (ivsz C).
Notation owns := (owns C self).
Notation holds := (holds C self).
Notation good := (good C self).
Notation newv := (newv C).
Notation upd_sent := (upd_sent C self).

(** The service of an update request. *)
Lemma handle_upd prim vsz it vs kh v a :
  (prim = true -> a_held self a) -> (write_mode it = wm_del -> is_Some (a_map a !! key it)) ->
  let nv := if decide (write_mode it <> wm_del) then Some v else None in
  exists rs, a_handle prim vsz (mk_req self (reqtype_code (upd_type it)) vs kh (key it)) v a =
    Some (rs, if prim then a_unlock (a_upd (key it) nv a) else a_upd (key it) nv a) /\ rs_len rs = 0.
Proof.
  intros Hp Hd nv. unfold a_handle, nv, upd_type. cbn [rq_type rq_caller_id rq_key].
  assert (prim = true -> a_heldb self a = true) as Hb by (intros E; apply a_heldb_held; auto).
  destruct (decide (write_mode it <> wm_del)) as [Hm|Hm]; rewrite reqtype_of_code_code.
  - unfold a_update. destruct prim; [rewrite Hb by done|]; eexists; by split.
  - assert (write_mode it = wm_del) as E by (destruct (write_mode it); try done; by destruct Hm).
    destruct (Hd E) as [y ->]. unfold a_update. destruct prim; [rewrite Hb by done|]; eexists; by split.
Qed.

(** The bucket of replica [r] of an item. *)
Definition rloc (r : Z) (it : tx_rwset_item_t) : loc :=
  if r =? 0 then iloc it else bloc C (rpc_reqtype it) (key it) r.

Lemma rloc_eq r it : item_wf it -> rloc r it = loc_of C (mach C r it) (rpc_reqtype it + r) (keyhash it).
Proof.
  intros Hit. unfold rloc, mach. destruct (Z.eqb_spec r 0) as [->|]; [by rewrite Z.add_0_r|].
  unfold bloc. by destruct (iw_home C it Hit) as [-> _].
Qed.

Lemma replica_type r it :
  item_wf it -> 0 <= r <= cl_nback C ->
  cl_prim C (rpc_reqtype it + r) = (r =? 0) /\ cl_vsz C (rpc_reqtype it + r) = ivsz it.
Proof.
  intros Hit Hr. destruct (Z.eqb_spec r 0) as [->|].
  - rewrite Z.add_0_r. split; [apply Hit|done].
  - apply (cw_back C HC); [apply Hit|lia].
Qed.

Lemma replica_has r it :
  item_wf it -> 0 <= r <= cl_nback C -> cl_has C (mach C r it) (rpc_reqtype it + r) = true.
Proof.
  intros Hit Hr. unfold mach. destruct (Z.eqb_spec r 0) as [->|].
  - rewrite Z.add_0_r, (proj2 (iw_home C it Hit)). by apply (cw_home C HC), Hit.
  - apply (cw_backs C HC); [apply Hit|lia].
Qed.

(** What a server does with an update request, at any replica. *)
Lemma serve_upd m r it q w :
  item_wf it -> 0 <= r <= cl_nback C -> upd_sent m r it q ->
  (r = 0 -> a_held self (w (rloc r it))) -> (write_mode it = wm_del -> is_Some (a_map (w (rloc r it)) !! key it)) ->
  accepted C w q.1 /\
  forall p w', answers C w q.1 p w' ->
    let a := a_upd (key it) (newv m it) (w (rloc r it)) in
    p.2 = [] /\ w' = wupd (rloc r it) (if r =? 0 then a_unlock a else a) w.
Proof.
  intros Hit Hr (Emn & Ety & _ & Hlen & (vs & Hp) & Hv) Hh Hd.
  destruct (replica_type r it Hit Hr) as [Epr Evs]. rewrite (rloc_eq r it Hit) in *.
  pose proof (iw_vsz C HC it Hit) as Hvs. change (cl_vsz C (rpc_reqtype it)) with (ivsz it) in Hvs.
  set (v := take (Z.to_nat (ivsz it)) (drop 24 (u_payload q.1))) in *.
  assert (newv m it = if decide (write_mode it <> wm_del) then Some v else None) as Env.
  { unfold TxUpdate.newv. case_decide; [|done]. by rewrite Hv. }
  set (l := loc_of C (mach C r it) (rpc_reqtype it + r) (keyhash it)) in *.
  destruct (handle_upd (r =? 0) (ivsz it) it vs (keyhash it) v (w l)) as (rs & Ha & Hl); [|done|].
  { intros E. apply Hh. lia. }
  split.
  - eexists (_, []), _. eapply (ans_ds C w q.1 _ rs _ []); [|split; [exact Hp|]| | |by split_and!; rewrite ?Hl].
    + rewrite Ety, Emn. split; [pose proof (iw_type C HC it Hit); lia|]. by apply replica_has.
    + split; [apply Hit|done].
    + rewrite Ety, Evs. cbn [rq_type]. unfold upd_type. case_decide; [rewrite Hlen; lia|]. done.
    + rewrite Ety, Evs, Epr, Emn. cbn [rq_keyhash]. exact Ha.
  - intros [rt bs] w' Hans. inversion Hans as [rq rs' a' bs' [Hb _] [Hq _] _ l' Hh' (Hc & _)|E _]; subst.
    + rewrite Hp in Hq. injection Hq as <-. subst l'. rewrite Ety, Evs, Epr, Emn in Hh'. cbn [rq_keyhash] in Hh'.
      fold l v in Hh'. rewrite Ha in Hh'. injection Hh' as <- <-. cbn [snd]. rewrite Hl in Hc. rewrite Env.
      split; [by apply nil_length_inv, Nat2Z.inj|]. by rewrite Ety, Emn.
    + exfalso. pose proof (iw_type C HC it Hit) as Ht. assert (RPC_LOGGER_REQ < RPC_MICA_REQ_BASE) by done.
      rewrite Ety in *. lia.
Qed.

(** ** Staged updates *)

Definition ikey (it : tx_rwset_item_t) : Z * Z := (rpc_reqtype it, key it).

(** The replicas [D] have their new values, and the primaries do not yet; the other
    backups agree with the primaries that are free or held by this coroutine. *)
Record staged (m : list byte) (D : list (Z * tx_rwset_item_t)) (w : world) : Prop := {
  sg_peace : peaceful C w;
  sg_items r it : (r, it) ∈ D -> item_wf it /\ 1 <= r <= cl_nback C /\ a_held self (w (iloc it));
  sg_done r it : (r, it) ∈ D -> a_map (w (rloc r it)) !! key it = newv m it;
  sg_rest ty k r : cl_prim C ty = true -> 1 <= r <= cl_nback C ->
    is_unlocked (a_ts (w (ploc C ty k))) = true \/ a_held self (w (ploc C ty k)) ->
    (forall it, (r, it) ∈ D -> ikey it <> (ty, k)) ->
    a_map (w (bloc C ty k r)) !! k = a_map (w (ploc C ty k)) !! k
}.

Lemma staged_good m w : staged m [] w <-> good w.
Proof.
  split.
  - intros [Hp _ _ Hr]. split; [done|]. intros ty k Hty Hf r Hr'. apply Hr; try done.
    intros it Hin. by apply not_elem_of_nil in Hin.
  - intros [Hp Hs]. split; [done| | |].
    + intros r it Hin. by apply not_elem_of_nil in Hin.
    + intros r it Hin. by apply not_elem_of_nil in Hin.
    + intros ty k r Hty Hr Hf _. by apply Hs.
Qed.

Lemma staged_perm m D D' w : (forall x, x ∈ D' <-> x ∈ D) -> staged m D w -> staged m D' w.
Proof.
  intros E [H1 H2 H3 H4]. split; [done| | |].
  - intros r it Hin. by apply H2, E.
  - intros r it Hin. by apply H3, E.
  - intros ty k r Hty Hr Hf Hn. apply H4; try done. intros it Hin. by apply Hn, E.
Qed.

Lemma rloc_back r it : 1 <= r -> rloc r it = bloc C (rpc_reqtype it) (key it) r.
Proof. intros H. unfold rloc. by rewrite (proj2 (Z.eqb_neq r 0)) by lia. Qed.

Lemma ikey_ploc it ty k : item_wf it -> ikey it = (ty, k) -> ploc C ty k = iloc it.
Proof. intros Hit [= <- <-]. by rewrite iloc_ploc. Qed.

(** A free bucket has no staged key. *)
Lemma staged_synced m D w : staged m D w -> synced C w.
Proof.
  intros H ty k Hty Hu r Hr. apply (sg_rest _ _ _ H); auto.
  intros it Hin E. destruct (sg_items _ _ _ H _ _ Hin) as (Hit & _ & Hh).
  rewrite <- (ikey_ploc it ty k Hit E) in Hh. apply held_unlocked in Hh. congruence.
Qed.

(** Two replicas with a bucket in common belong to the same table and have the same
    number. *)
Lemma bloc_inj ty ty' k k' r r' :
  cl_prim C ty = true -> cl_prim C ty' = true -> 1 <= r <= cl_nback C -> 1 <= r' <= cl_nback C ->
  bloc C ty k r = bloc C ty' k' r' -> ty = ty' /\ r = r'.
Proof.
  intros Hp Hp' Hr Hr' E. unfold bloc, loc_of in E. injection E as _ Et _.
  assert (ty = ty') by (apply (cw_spacing C HC ty ty' r r'); done || lia). split; [done|lia].
Qed.

(** A bucket that this coroutine holds after a step of others. *)
Lemma env_held w w' l :
  peaceful C w -> env C self w w' -> cl_prim C l.1.2 = true -> a_held self (w' l) -> w' l = w l.
Proof.
  intros Hp He Hl Hh. destruct (env_at C self w w' l He Hl) as [|Ho]; [done|]. apply (others_held self); [done|].
  apply locker_held; [done|by apply peaceful_calm with (C := C)|]. eapply (others_locker self Hself); [exact Ho|apply Hh].
Qed.

Lemma env_back_key w w' ty k r :
  env C self w w' -> cl_prim C ty = true -> 1 <= r <= cl_nback C -> a_held self (w (ploc C ty k)) ->
  a_map (w' (bloc C ty k r)) !! k = a_map (w (bloc C ty k r)) !! k.
Proof.
  intros He Hty Hr Hh. destruct He as [w' E|mn ty' i c a' Hp1 Hc Hb|mn ty' i a' Hp1 Hk].
  - by rewrite E.
  - rewrite wupd_ne; [done|]. intros E. pose proof (bloc_prim C HC ty k r Hty Hr) as Hf. rewrite E in Hf. simpl in Hf. congruence.
  - destruct (decide (bloc C ty k r = (mn, ty', i))) as [E|E]; [|by rewrite wupd_ne].
    rewrite E, wupd_eq. by apply (Hk ty k r).
Qed.

Lemma staged_env m D w w' : staged m D w -> env C self w w' -> tidy C w w' -> staged m D w'.
Proof.
  intros Hst He [Hp' Hs']. pose proof (staged_synced m D w Hst) as Hsy. destruct Hst as [Hp Hi Hd Hr].
  specialize (Hp' Hp). specialize (Hs' Hsy).
  assert (forall r it, (r, it) ∈ D -> w' (iloc it) = w (iloc it)) as Ew.
  { intros r it Hin. destruct (Hi r it Hin) as (Hit & _ & Hh).
    destruct (env_at C self w w' (iloc it) He (iloc_prim C it Hit)) as [|Ho]; [done|]. by apply (others_held self). }
  split; [done| | |].
  - intros r it Hin. rewrite (Ew r it Hin). by apply Hi.
  - intros r it Hin. destruct (Hi r it Hin) as (Hit & Hr' & Hh). rewrite <- (Hd r it Hin), rloc_back by lia.
    apply env_back_key; [done|apply Hit|done|]. by rewrite <- iloc_ploc.
  - intros ty k r Hty Hr' [Hu|Hh] Hn; [by apply Hs'|].
    pose proof (env_held w w' (ploc C ty k) Hp He Hty Hh) as E. rewrite E in Hh |- *.
    rewrite (env_back_key w w' ty k r He Hty Hr' Hh). apply Hr; auto.
Qed.

(** ** An update at a backup *)

Lemma serve_backup m D r it v q w :
  item_wf it -> 1 <= r <= cl_nback C -> upd_sent m r it q ->
  staged m D w -> holds w (Fsure (key it) v (iloc it)) -> (write_mode it = wm_del -> is_Some v) ->
  (forall it', (r, it') ∈ D -> ikey it' <> ikey it) ->
  accepted C w q.1 /\
  forall p w', answers C w q.1 p w' ->
    p.2 = [] /\ fair C self w w' /\ staged m ((r, it) :: D) w' /\ (forall l, cl_prim C l.1.2 = true -> w' l = w l).
Proof.
  intros Hit Hr Hq Hst (Hprim & Hh & Hv) Hdel Hnew. pose proof (rloc_back r it ltac:(lia)) as El.
  pose proof (iloc_ploc C it Hit) as Eil. pose proof (iw_prim C it Hit) as Hty.
  assert (a_map (w (rloc r it)) !! key it = v) as Hold.
  { rewrite El, <- Hv, Eil. apply (sg_rest _ _ _ Hst); [done|done|right; by rewrite <- Eil|].
    intros it' Hin E. by apply (Hnew it' Hin). }
  destruct (serve_upd m r it q w Hit ltac:(lia) Hq) as [Hacc H]; [lia|by rewrite Hold|]. split; [done|].
  intros p w' Ha. destruct (H p w' Ha) as [Hp Ew]. rewrite (proj2 (Z.eqb_neq r 0)) in Ew by lia.
  assert (forall l, cl_prim C l.1.2 = true -> w' l = w l) as Hsame.
  { intros l Hl. rewrite Ew, El. apply wupd_ne. intros ->. rewrite (bloc_prim C HC) in Hl by done. done. }
  assert (forall ty k r', cl_prim C ty = true -> 1 <= r' <= cl_nback C -> (ty, k, r') <> (rpc_reqtype it, key it, r) ->
    a_map (w' (bloc C ty k r')) !! k = a_map (w (bloc C ty k r')) !! k) as Hother.
  { intros ty k r' Hty' Hr' Hne. rewrite Ew, El. unfold wupd. case_decide as E; [|done].
    destruct (bloc_inj _ _ _ _ _ _ Hty' Hty Hr' Hr E) as [-> ->]. rewrite <- E. apply a_upd_ne. congruence. }
  assert (staged m ((r, it) :: D) w') as Hst'.
  { destruct Hst as [Hpc Hi Hd Hrest]. split.
    - by eapply peaceful_prim.
    - intros r' it' [[= -> ->]|Hin]%elem_of_cons.
      + rewrite Hsame by done. done.
      + destruct (Hi r' it' Hin) as (Hit' & Hr' & Hh'). rewrite Hsame by (by apply iloc_prim). done.
    - intros r' it' [[= -> ->]|Hin]%elem_of_cons.
      + rewrite Ew, wupd_eq. apply a_upd_eq.
      + destruct (Hi r' it' Hin) as (Hit' & Hr' & _). rewrite <- (Hd r' it' Hin), (rloc_back r' it') by lia.
        apply Hother; [apply Hit'|done|]. intros [= E1 E2 E3]. subst r'. apply (Hnew it' Hin). unfold ikey. congruence.
    - intros ty k r' Hty' Hr' Hf Hn. rewrite (Hsame (ploc C ty k)) in Hf |- * by done.
      rewrite Hother; [|done|done|].
      + apply Hrest; try done. intros it' Hin. apply Hn. by apply elem_of_cons; right.
      + intros [= -> -> ->]. apply (Hn it); [by apply elem_of_cons; left|done]. }
  split; [done|]. split; [|done]. split; [split; intros _; [apply Hst'|by eapply staged_synced]|].
  intros c Hc Hne. rewrite Ew, El. destruct (bloc C (rpc_reqtype it) (key it) r) as [[mn ty] i] eqn:Eb.
  apply env_back; [pose proof (bloc_prim C HC (rpc_reqtype it) (key it) r Hty Hr) as E; by rewrite Eb in E|].
  intros ty' k' r' Hty' Hr' E Hhc. rewrite <- Eb in E. destruct (bloc_inj _ _ _ _ _ _ Hty' Hty Hr' Hr E) as [-> ->].
  apply a_upd_ne. intros ->. rewrite <- Eil in Hhc. destruct Hh as [_ E1], Hhc as [_ E2]. congruence.
Qed.

(** ** An update at the primary *)

Lemma value_length m it : item_wf it -> writable C m it -> Z.of_nat (length (value C m it)) = ivsz it.
Proof.
  intros Hit (H0 & Hl & _). pose proof (iw_vsz C HC it Hit) as Hvs. change (cl_vsz C (rpc_reqtype it)) with (ivsz it) in Hvs.
  unfold value. rewrite length_take, length_drop. lia.
Qed.

Lemma peaceful_upd m L it w :
  item_wf it -> writable C m it -> peaceful C w -> owns (iloc it :: L) w ->
  let w' := wupd (iloc it) (a_unlock (a_upd (key it) (newv m it) (w (iloc it)))) w in
  in_range C w' -> peaceful C w'.
Proof.
  intros Hit Hwr Hp Hown w' Hr. pose proof (iloc_prim C it Hit) as Hprim.
  pose proof (owns_at C self L w _ Hprim Hown) as Hh. destruct (a_upd_lock (key it) (newv m it) (w (iloc it))) as (E1 & E2 & E3).
  apply peaceful_wupd; [by apply (held_mutable C self w)|done| |].
  - apply (calm_unlock self (w (iloc it))); try done; [by apply peaceful_calm with (C := C)|].
    specialize (Hr (primary_mn it) (rpc_reqtype it) (cl_idx C (primary_mn it) (rpc_reqtype it) (keyhash it)) Hprim).
    change (primary_mn it, rpc_reqtype it, _) with (iloc it) in Hr. unfold w' in Hr. by rewrite wupd_eq in Hr.
  - intros k _ El. rewrite a_unlock_map. destruct (decide (k = key it)) as [->|Hne].
    + rewrite a_upd_eq. by apply Hwr.
    + rewrite a_upd_ne, <- El by done. by apply Hp.
Qed.

Lemma serve_primary m D D' L it v q w :
  item_wf it -> writable C m it -> upd_sent m 0 it q -> staged m D w ->
  holds w (Fsure (key it) v (iloc it)) -> (write_mode it = wm_del -> is_Some v) ->
  (forall r, 1 <= r <= cl_nback C -> (r, it) ∈ D) ->
  (forall r it', (r, it') ∈ D -> (r, it') ∈ D' \/ ikey it' = ikey it) ->
  (forall r it', (r, it') ∈ D' -> (r, it') ∈ D /\ iloc it' ∈ L) ->
  owns (iloc it :: L) w ->
  accepted C w q.1 /\
  forall p w', answers C w q.1 p w' -> in_range C w' ->
    w' = wupd (iloc it) (a_unlock (a_upd (key it) (newv m it) (w (iloc it)))) w /\
    p.2 = [] /\ fair C self w w' /\ staged m D' w' /\ owns L w'.
Proof.
  intros Hit Hwr Hq Hst (Hprim & Hh & Hv) Hdel Hall Hleft HD' Hown. pose proof (iloc_ploc C it Hit) as Eil.
  destruct (serve_upd m 0 it q w Hit) as [Hacc H]; try done; [pose proof (cw_nback C HC); lia|by rewrite <- Hv in Hdel|].
  split; [done|]. intros p w' Ha Hr. destruct (H p w' Ha) as [Hp Ew]. change (rloc 0 it) with (iloc it) in Ew. cbn [Z.eqb] in Ew.
  assert (owns L w') as Hown' by (rewrite Ew; apply owns_release; auto using a_upd_lock).
  assert (peaceful C w') as Hpc by (subst w'; apply (peaceful_upd m L); try done; apply Hst).
  assert (forall ty k r, cl_prim C ty = true -> 1 <= r <= cl_nback C -> w' (bloc C ty k r) = w (bloc C ty k r)) as Hback.
  { intros ty k r Hty Hr'. rewrite Ew. apply wupd_ne. intros E. rewrite <- E, (bloc_prim C HC) in Hprim by done. done. }
  destruct Hst as [Hpw Hi Hd Hrest].
  assert (staged m D' w') as Hst'.
  { split; [done| | |].
    - intros r it' Hin. destruct (HD' r it' Hin) as [Hin' HL]. destruct (Hi r it' Hin') as (Hit' & Hr' & _).
      split; [done|]. split; [done|]. apply (owns_held C self L w' Hown'); [done|by apply iloc_prim].
    - intros r it' Hin. destruct (HD' r it' Hin) as [Hin' _]. destruct (Hi r it' Hin') as (Hit' & Hr' & _).
      rewrite <- (Hd r it' Hin'), (rloc_back r it') by lia. rewrite Hback; [done|apply Hit'|done].
    - intros ty k r Hty Hr' Hf Hn. rewrite (Hback ty k r Hty Hr').
      destruct (decide ((ty, k) = ikey it)) as [[= -> ->]|Hne].
      + rewrite <- Eil, Ew, wupd_eq, a_unlock_map, a_upd_eq. rewrite <- rloc_back by lia. by apply Hd, Hall.
      + assert (a_map (w (bloc C ty k r)) !! k = a_map (w (ploc C ty k)) !! k) as ->.
        { apply Hrest; [done|done| |].
          - revert Hf. rewrite Ew. unfold wupd. case_decide as E; [|done]. intros _. right. by rewrite E.
          - intros it' Hin E. destruct (Hleft r it' Hin) as [Hin'|E']; [by apply (Hn it')|congruence]. }
        rewrite Ew. unfold wupd. case_decide as E; [|done]. rewrite a_unlock_map, E. symmetry. apply a_upd_ne.
        intros ->. apply Hne. rewrite Eil in E. unfold ploc, loc_of in E. unfold ikey. congruence. }
  split; [done|]. split; [done|]. split; [|done]. split; [split; intros _; [done|by eapply staged_synced]|].
  intros c _ Hc. rewrite Ew. apply (env_self C self); [done|by apply (held_mutable C self w)| |done].
  destruct (newv m it); simpl; [by apply bstep_put|by apply bstep_del].
Qed.

End Stage.
End TxStage.
