(* ===== verification/TxLog.v ===== *)
(** * The log phase of [commit]

    [log] builds its record within the record's memory, sends one request to each
    of the log replicas, and changes no table. *)

From S2P Require Import Prelude Util Hots Mappings FixedTable FixedTableInv FixedTableOps FixedTableSteps Datastore DatastoreSpec.
From S2P Require Import RpcDefs RpcBatch Logger Tx TxWorld TxBuckets TxMem TxSpec TxExec TxRelease.
From S2P Require Import TxUpdate.
From Stdlib Require Import ZArith Lia Bool.
From stdpp Require Import base numbers list gmap sets relations.
#[local] Open Scope Z_scope.
Import FixedTable FixedTableInv FixedTableOps FixedTableSteps DatastoreSpec RpcDefs RpcBatch Tx TxWorld TxBuckets TxMem TxSpec TxExec TxRelease TxUpdate.

Module TxLog.

Section Log.
Context (C : cluster) (HC : cluster_wf C) (self pkt : Z) (Hself : caller_wf self).
Notation item_wf := (item_wf C).
Notation ivsz := (ivsz C).
Notation owns := (owns C self).
Notation holds := (holds C self).
Notation good := (good C self).
Notation after := (after C self).

(** ** The record *)

Lemma item_bytes_length it : item_wf it -> length (item_bytes it) = 56%nat.
Proof.
  intros [_ _ _ _ _ [Hb Hp]]. change HOTS_MAX_BACKUPS with 2 in Hb. unfold item_bytes.
  assert (length (concat (map (le_bytes 4) (backup_mn it))) = 8%nat) as Hc.
  { destruct (backup_mn it) as [|b1 [|b2 [|b3 l]]]; simpl in Hb; try lia.
    cbn [map concat]. by rewrite !length_app, !length_le_bytes. }
  unfold byte in *. rewrite !length_app, !length_take, !length_drop, !length_le_bytes, Hc, !Hp. done.
Qed.

Lemma log_items_ok m its : forall off rec,
  Forall item_wf its -> Forall (writable C m) its ->
  Z.of_nat off + bulk C its <= Z.of_nat (length rec) + 4 * Z.of_nat (length its) ->
  exists off' rec', log_items its off m rec = Ok (off', rec') /\ length rec' = length rec /\
    (off <= off')%nat /\ Z.of_nat off' + 4 * Z.of_nat (length its) <= Z.of_nat off + bulk C its /\
    take off rec' = take off rec.
Proof.
  induction its as [|it its IH]; intros off rec Hwf Hw Hl.
  { exists off, rec. split_and!; try done; simpl; lia. }
  apply Forall_cons in Hwf as [Hit Hwf], Hw as [(H0 & _ & Hsz & _) Hw]. simpl length in *. simpl bulk in *. pose proof (bulk_le C HC its Hwf) as Hb.
  pose proof (iw_vsz C HC it Hit) as Hvs. change (cl_vsz C (rpc_reqtype it)) with (ivsz it) in Hvs. change HOTS_MAX_VALUE with 40 in Hvs.
  assert (Z.to_nat (hots_obj_size (ivsz it)) = (16 + Z.to_nat (ivsz it))%nat) as Es
    by (unfold hots_obj_size; change sizeof_hots_obj_t with 56; change HOTS_MAX_VALUE with 40; lia).
  pose proof (length_le_bytes 8 (key it)) as L8. pose proof (item_bytes_length it Hit) as L56.
  destruct (write_at_some off (le_bytes 8 (key it)) rec) as (r1 & W1 & L1); [nia|].
  set (bs := take (16 + Z.to_nat (ivsz it)) (item_bytes it)).
  assert (length bs = (16 + Z.to_nat (ivsz it))%nat) as Lbs by (unfold bs; rewrite length_take; lia).
  destruct (write_at_some (off + 8) bs r1) as (r2 & W2 & L2); [nia|].
  destruct (IH (off + 8 + (16 + Z.to_nat (ivsz it)))%nat r2 Hwf Hw) as (off' & rec' & E & L' & Ho & Ho' & Ht); [nia|].
  exists off', rec'. cbn [log_items]. rewrite W1, bind_Ok. unfold obj_val_size. rewrite Hsz, !bind_Ok.
  rewrite (le_val_bytes 8) by (unfold u; lia). rewrite Es, read_at_ok, bind_Ok, drop_0 by lia. fold bs. rewrite W2, bind_Ok.
  split; [done|]. split; [lia|]. split; [lia|]. split; [nia|].
  assert (forall k (a b : list byte) n, (n <= k)%nat -> take k a = take k b -> take n a = take n b) as Hsub.
  { intros k a b n Hn E'. rewrite <- (Nat.min_l n k), <- !take_take, E' by lia. done. }
  rewrite (Hsub (off + 8 + (16 + Z.to_nat (ivsz it)))%nat rec' r2 off) by (done || lia). rewrite (write_at_before _ _ _ _ off W2), (write_at_before _ _ _ _ off W1) by lia. done.
Qed.

(** The bit-fields of a header that is read fit their widths. *)
Lemma lhdr_fields w n : u 5 (Logger.magic (Logger.word_lhdr w n)) /\ u 13 (Logger.debug_size (Logger.word_lhdr w n)).
Proof. unfold Logger.word_lhdr. simpl. split; by apply wrap_u. Qed.

Lemma log_record_ok x m :
  Forall item_wf (write_set x) -> Forall (writable C m) (write_set x) ->
  8 + bulk C (write_set x) <= Z.of_nat (length (local_log_record x)) + 4 * Z.of_nat (length (write_set x)) ->
  exists n rec, log_record x m = Ok (n, rec) /\ length rec = length (local_log_record x) /\ (8 <= n)%nat /\
    Z.of_nat n + 4 * Z.of_nat (length (write_set x)) <= 8 + bulk C (write_set x) /\
    exists h rest, Logger.lhdr_wf h /\ take n rec = Logger.lhdr_bytes h ++ rest /\
      Logger.mchn_id h = wrap HOTS_MCHN_ID_BITS (Mappings.machine_id (mappings x)) /\
      Logger.coro_id h = wrap HOTS_CORO_ID_BITS (coro_id x).
Proof.
  intros Hwf Hw Hl. pose proof (bulk_le C HC _ Hwf) as Hb. unfold log_record, Logger.read_lhdr. rewrite !read_at_ok, !bind_Ok by lia.
  match goal with |- context [write_at 0 (Logger.lhdr_bytes ?x) _] => set (hd := x) end.
  assert (length (Logger.lhdr_bytes hd) = 8%nat) as Lh by (unfold Logger.lhdr_bytes; by rewrite length_app, !length_le_bytes).
  destruct (write_at_some 0 (Logger.lhdr_bytes hd) (local_log_record x)) as (r1 & W1 & L1); [nia|]. rewrite W1, bind_Ok.
  destruct (log_items_ok m (write_set x) 8 r1 Hwf Hw) as (n & rec & E & L & H8 & Hn & Ht); [lia|].
  exists n, rec. split; [done|]. split; [lia|]. split; [lia|]. split; [lia|].
  exists hd, (drop 8 (take n rec)). split; [|split; [|done]].
  - unfold hd. pose proof (lhdr_fields (le_val (take 4 (drop 0 (local_log_record x)))) (le_val (take 4 (drop 4 (local_log_record x))))) as [Hm Hd].
    split_and!; cbn [Logger.mchn_id Logger.coro_id Logger.magic Logger.debug_size Logger.num_keys]; try done; by apply wrap_u.
  - rewrite <- (take_drop 8 (take n rec)) at 1. f_equal. rewrite take_take, Nat.min_l, Ht by lia.
    rewrite (write_at_take _ _ _ _ 8 W1) by lia. done.
Qed.

(** ** The requests *)

Lemma wp_log_reqs mp bs payload sofar Q s :
  Z.of_nat (length payload) + 4 <= pkt -> NoDup (map (Mappings.get_log_mn mp) bs) ->
  (forall b, b ∈ bs -> wt (Mappings.get_log_mn mp b) (map fst sofar) = 0) ->
  (forall qs, length qs = length bs ->
     Forall (fun q => u_type q.1 = RPC_LOGGER_REQ /\ u_payload q.1 = payload /\ q.2 = None) qs -> Q (sofar ++ qs) s) ->
  wp C self pkt (log_reqs mp bs payload sofar) Q s.
Proof.
  intros Hp. revert sofar Q. induction bs as [|b bs IH]; intros sofar Q Hnd Hz HQ.
  { simpl. specialize (HQ [] eq_refl ltac:(constructor)). by rewrite app_nil_r in HQ. }
  cbn [log_reqs]. simpl in Hnd. apply NoDup_cons in Hnd as [Hn Hnd].
  apply wp_bind, wp_start. intros buf Hb. rewrite (Hz b (list_elem_of_here _ _)) in Hb.
  destruct (write_at_some 0 payload buf) as (buf' & Hw & _); [lia|]. apply wp_bind. eapply wp_lift; [exact Hw|].
  assert (take (length payload) buf' = payload) as Et by (by rewrite (write_at_take _ _ _ _ _ Hw)).
  rewrite Et. apply IH; [done| |].
  - intros b' Hb'. rewrite map_app. cbn [map]. rewrite wt_snoc. cbn [fst u_mn].
    rewrite (proj2 (Z.eqb_neq _ _)); [rewrite (Hz b' (list_elem_of_further _ _ _ Hb')); lia|].
    intros E. apply Hn. rewrite E. by apply list_elem_of_fmap_2.
  - intros qs Hl Hqs. rewrite <- app_assoc. apply HQ; [simpl; lia|]. by constructor.
Qed.

(** ** [log] *)

(** What [log] needs of a transaction: the memory of its record, and mappings with
    enough machines. *)
Record logs (x : tx) : Prop := {
  lg_record : Logger.sizeof_log_record_t <= Z.of_nat (length (local_log_record x));
  lg_maps : Mappings.replicated (mappings x);
  lg_ls : Mappings.use_lock_server (mappings x) = false;
  lg_home : 0 <= Mappings.machine_id (mappings x) < cl_machines C /\ cl_machines C <= HOTS_MAX_MACHINES /\
            1 <= coro_id x < cl_coros C /\ cl_coros C <= RPC_MAX_CORO;
  lg_items : Forall item_wf (write_set x);
  lg_count : Z.of_nat (length (write_set x)) <= RPC_MAX_MSG_CORO;
  lg_pkt : 12 + bulk C (write_set x) <= pkt + 4 * Z.of_nat (length (write_set x))
}.

Lemma log_ok x m L F w h :
  logs x -> Forall (writable C m) (write_set x) ->
  good w -> owns L w -> Forall (holds w) F ->
  wp C self pkt (log x m) (fun '(x', m') s =>
    (exists rec, x' = with_log rec x /\ length rec = length (local_log_record x)) /\ m' = m /\
    good s.1 /\ owns L s.1 /\ Forall (holds s.1) F /\ after L h s) (w, h).
Proof.
  intros [Hrec Hmp Hls Hhome Hits Hn Hpkt] Hw Hg Hown Hf. change Logger.sizeof_log_record_t with 4040 in Hrec.
  change RPC_MAX_MSG_CORO with 16 in *. pose proof (bulk_le C HC _ Hits) as Hbulk.
  destruct (log_record_ok x m Hits Hw) as (n & rec & E & Lr & H8 & Hlen & hd & rest & Hhd & Ehd & Em & Ec); [lia|]. unfold log.
  assert (loggable C (take n rec)) as Hlog.
  { exists hd. rewrite Ehd, (Logger.read_lhdr_bytes hd rest Hhd), <- Ehd, length_take. split; [done|].
    change HOTS_MAX_MACHINES with 126 in Hhome. change RPC_MAX_CORO with 32 in Hhome. change Logger.sizeof_log_record_t with 4040.
    rewrite Em, Ec, !wrap_id by (unfold u, HOTS_MCHN_ID_BITS, HOTS_CORO_ID_BITS; lia). split_and!; nia. }
  apply wp_bind. eapply wp_lift; [exact E|]. cbn beta iota.
  apply wp_bind. eapply wp_lift; [apply read_at_ok; nia|]. rewrite drop_0. apply wp_bind.
  apply wp_log_reqs; [rewrite length_take; lia|by apply Mappings.log_mns_distinct|done|].
  intros qs Lq Hqs. rewrite app_nil_l. apply wp_bind.
  assert (Z.of_nat (length qs) <= 16) as Hlq.
  { rewrite Lq, length_seqZ. destruct Hmp as [Hwf _]. pose proof (Mappings.wf_backups _ Hwf) as Hb.
    change HOTS_MAX_BACKUPS with 2 in Hb. lia. }
  apply (wp_send C self pkt _ _ _ _ (fun ps s => good s.1 /\ owns L s.1 /\ Forall (holds s.1) F /\
    Forall (fun o => forall r : resp, o = Some r -> r.2 = []) ps /\ after L h s)).
  - done.
  - simpl. split; [done|]. split; [done|]. split; [done|]. split; [|apply after_refl].
    apply Forall_replicate. done.
  - intros ps w1 h1 w2 Hl (Hg1 & Ho1 & Hf1 & Hr1 & Hh1) He Ht. simpl in *.
    assert (good w2) as Hg2 by (by eapply (good_env C HC self Hself)).
    assert (owns L w2) by (apply (owns_env C self Hself _ w1); [apply Hg1|apply Hg2|done..]).
    split; [done|]. split; [done|]. split; [|split; [done|apply after_env; [by apply owns_held|done]]].
    eapply Forall_impl; [exact Hf1|]. intros f. apply (holds_env C self Hself w1); [apply Hg1|apply Hg2|done..].
  - intros ps w1 h1 i q Hl (Hg1 & Ho1 & Hf1 & Hr1 & Hh1) Hq Hi. simpl in *.
    destruct (Forall_lookup_1 _ _ _ _ Hqs Hq) as (Ety & Epl & _). split; [eexists _, _; apply ans_log; [done|by rewrite Epl]|].
    intros r w2 Ha _. inversion Ha as [rq rs a' bs [Hb _] ? ? l0 ? ?|? ?]; subst; [by rewrite Ety in Hb|].
    split; [by apply fair_idle|]. split; [done|]. split; [done|]. split; [done|]. split.
    + apply Forall_insert; [done|]. by intros ? [= <-].
    + apply after_own; [by apply owns_held|done|done].
  - intros rs [w' h'] Hl (Hg' & Ho' & Hf' & Hr' & Hh'). simpl in *. exists m. split.
    + apply deliver_empty; [by rewrite length_map| |].
      * rewrite Forall_map in Hr'. eapply Forall_impl; [exact Hr'|]. simpl. auto.
      * apply Forall_map. eapply Forall_impl; [exact Hqs|]. intros q (_ & _ & ->). done.
    + split; [by exists rec|]. done.
Qed.

End Log.

(** ** What the record holds *)

Lemma log_items_values its m m' : forall off rec,
  Forall (fun it => obj_val_size m (obj it) = obj_val_size m' (obj it)) its -> log_items its off m rec = log_items its off m' rec.
Proof.
  induction its as [|it its IH]; intros off rec H; [done|]. apply Forall_cons in H as [E H]. cbn [log_items].
  destruct (write_at off _ rec) as [r1|]; [|done]. rewrite !bind_Ok, E. destruct (obj_val_size m' (obj it)) as [vs|]; [|done]. rewrite !bind_Ok.
  destruct (read_at 0 _ _) as [bs|]; [|done]. rewrite !bind_Ok. destruct (write_at (off + 8) bs r1) as [r2|]; [|done]. rewrite !bind_Ok. by apply IH.
Qed.

(** C21: the log record does not hold the values that the transaction writes.  The copy
    into the record starts at the address of the item's member [obj], a pointer, and
    not at the object it points to: objects that differ only in their header and value
    give the same record. *)
Theorem log_omits_values x m m' :
  Forall (fun it => obj_val_size m (obj it) = obj_val_size m' (obj it)) (write_set x) -> log_record x m = log_record x m'.
Proof.
  intros H. unfold log_record. destruct (Logger.read_lhdr _) as [h|]; [|done]. rewrite !bind_Ok.
  destruct (write_at 0 _ _) as [r|]; [|done]. rewrite !bind_Ok. by apply log_items_values.
Qed.
End TxLog.
