(* ===== verification/TxCommit.v ===== *)
(** * Commit

    The specification of the phases of [commit]: the log, the updates of the
    backups, the updates of the primaries, and the whole method. *)

From S2P Require Import Prelude Util Hots Mappings FixedTable FixedTableInv FixedTableOps FixedTableSteps Datastore DatastoreSpec.
From S2P Require Import RpcDefs RpcBatch Logger Tx TxWorld TxBuckets TxMem TxSpec TxExec TxRelease.
From S2P Require Import TxUpdate TxStage TxLog.
From Stdlib Require Import ZArith Lia Bool.
From stdpp Require Import base numbers list gmap sets relations.
#[local] Open Scope Z_scope.
Import FixedTable FixedTableInv FixedTableOps FixedTableSteps DatastoreSpec RpcDefs RpcBatch Tx TxWorld TxBuckets TxMem TxSpec TxExec TxRelease TxUpdate TxStage TxLog.

Module TxCommit.

Section Commit.
Context (C : cluster) (HC : cluster_wf C) (self pkt : Z) (Hself : caller_wf self).
Notation iloc := (iloc C).
Notation item_wf := (item_wf C).
Notation ivsz := (ivsz C).
Notation owns := (owns C self).
Notation holds := (holds C self).
Notation good := (good C self).
Notation newv := (newv C).
Notation upd_sent := (upd_sent C self).
Notation staged := (staged C self).
Notation after := (after C self).
Notation quiet := (quiet C self).
Notation held := (held C self).

(** ** What a committing transaction does to the primaries *)

Notation write := (loc * Z * option (list byte))%type.

Definition wr (m : list byte) (it : tx_rwset_item_t) : write := (iloc it, key it, newv m it).
Definition locs (R : list write) : list loc := map (fun x => x.1.1) R.

(** A step of this coroutine that applies a write and releases one lock. *)
Definition applies (x : write) (e : TxWorld.entry) : Prop :=
  is_Some (e_req e) /\ a_held self (e_from e x.1.1) /\
  e_to e = wupd x.1.1 (a_unlock (a_upd x.1.2 x.2 (e_from e x.1.1))) (e_from e).

(** Starting with the writes [P] to do, history [h] has left the writes [R]; the
    buckets of the writes that are left are locked all the time. *)
Inductive trail (P : list write) : list TxWorld.entry -> list write -> Prop :=
| trail_nil : trail P [] P
| trail_quiet e h R : trail P h R -> quiet (locs R) e -> trail P (e :: h) R
| trail_write e h x R R' :
    trail P h R -> R ≡ₚ x :: R' -> applies x e -> held (locs R') (e_to e) -> trail P (e :: h) R'.

Lemma trail_after P h1 h2 R : trail P h1 R -> Forall (quiet (locs R)) h2 -> trail P (h2 ++ h1) R.
Proof. intros Ht Hq. induction Hq as [|e h He _ IH]; [done|]. simpl. by apply trail_quiet. Qed.

(** ** The backups *)

Definition pkey (p : Z * tx_rwset_item_t) : Z * (Z * Z) := (p.1, ikey p.2).

(** A key to write: it is locked, with value [v] so far. *)
Definition to_write (w : world) (it : tx_rwset_item_t) : Prop :=
  exists v, holds w (Fsure (key it) v (iloc it)) /\ (write_mode it = wm_del -> is_Some v).

Lemma to_write_env w w' it :
  peaceful C w -> peaceful C w' -> env C self w w' -> to_write w it -> to_write w' it.
Proof. intros Hp Hp' He (v & Hf & Hd). exists v. split; [|done]. by apply (holds_env C self Hself w). Qed.

Lemma done_elem (plan : list (Z * tx_rwset_item_t)) (ps : list (option resp)) p :
  p ∈ flatten (fun p _ => [p]) plan ps -> exists j r, plan !! j = Some p /\ ps !! j = Some (Some r).
Proof.
  unfold flatten. revert ps. induction plan as [|p0 plan IH]; intros [|o ps] Hin; simpl in Hin;
    try by apply not_elem_of_nil in Hin.
  apply elem_of_app in Hin as [Hin|Hin].
  - destruct o as [r|]; [|by apply not_elem_of_nil in Hin]. apply list_elem_of_singleton in Hin as ->. by exists 0%nat, r.
  - destruct (IH ps Hin) as (j & r & H1 & H2). by exists (S j), r.
Qed.

Lemma wp_backups m D0 pl qs L w h (Q : list resp * list byte -> state -> Prop) :
  Forall (fun p => item_wf p.2 /\ 1 <= p.1 <= cl_nback C /\ 0 <= obj p.2 /\ obj p.2 + 16 <= Z.of_nat (length m)) pl ->
  NoDup (map pkey (pl ++ D0)) -> Forall2 (fun p => upd_sent m p.1 p.2) pl qs ->
  Z.of_nat (length pl) <= RPC_MAX_MSG_CORO ->
  staged m D0 w -> owns L w -> Forall (fun p => to_write w p.2) pl ->
  (forall rs w' h', staged m (pl ++ D0) w' -> owns L w' -> (forall it, to_write w it -> to_write w' it) ->
     after L h (w', h') -> Q (rs, m) (w', h')) ->
  wp C self pkt (send_and_yield qs m) Q (w, h).
Proof.
  intros Hpl Hnd Hqs Hn Hst Hown Htw HQ. pose proof (Forall2_length _ _ _ Hqs) as Hlq.
  set (f := fun (p : Z * tx_rwset_item_t) (_ : resp) => [p]).
  apply (wp_send C self pkt _ _ _ _ (fun ps s => staged m (flatten f pl ps ++ D0) s.1 /\ owns L s.1 /\
    (forall it, to_write w it -> to_write s.1 it) /\
    Forall2 (fun _ o => forall r : resp, o = Some r -> r.2 = []) pl ps /\ after L h s)).
  - lia.
  - rewrite flatten_none. simpl. split; [done|]. split; [done|]. split; [done|]. split; [|apply after_refl].
    by apply (Forall2_none (fun _ (r : resp) => r.2 = [])).
  - intros ps w1 h1 w2 Hl (Hs1 & Ho1 & Ht1 & Hr1 & Hh1) He Ht. simpl in *.
    assert (staged m (flatten f pl ps ++ D0) w2) as Hs2 by (by eapply (staged_env C HC self Hself)).
    assert (peaceful C w1) by apply Hs1. assert (peaceful C w2) by apply Hs2.
    assert (owns L w2) by (by apply (owns_env C self Hself _ w1)).
    split; [done|]. split; [done|]. split; [intros it Hit; by apply (to_write_env w1), Ht1|]. split; [done|].
    apply after_env; [by apply owns_held|done].
  - intros ps w1 h1 i q Hl (Hs1 & Ho1 & Ht1 & Hr1 & Hh1) Hq Hi. simpl in *.
    destruct (Forall2_lookup_r _ _ _ _ _ Hqs Hq) as ([r it] & Ep & Hsent). simpl in Hsent.
    destruct (Forall_lookup_1 _ _ _ _ Hpl Ep) as (Hit & Hr & _). simpl in Hit, Hr.
    destruct (Ht1 it (Forall_lookup_1 _ _ _ _ Htw Ep)) as (v & Hv & Hdel).
    destruct (serve_backup C HC self Hself m (flatten f pl ps ++ D0) r it v q w1 Hit Hr Hsent Hs1 Hv Hdel) as [Hacc H].
    { intros it' Hin E. assert (pkey (r, it') = pkey (r, it)) as Ek by (unfold pkey; simpl; congruence).
      rewrite map_app in Hnd. apply NoDup_app in Hnd as (Hnd1 & Hnd2 & _).
      apply elem_of_app in Hin as [Hin|Hin].
      - destruct (done_elem pl ps _ Hin) as (j & r' & Hj & Hpj).
        assert (j = i) as ->; [|congruence]. eapply NoDup_lookup; [exact Hnd1|..]; rewrite list_lookup_fmap.
        + by rewrite Hj. + by rewrite Ep, Ek.
      - apply (Hnd2 (pkey (r, it))).
        + apply list_elem_of_fmap. exists (r, it). split; [done|]. by eapply list_elem_of_lookup_2.
        + rewrite <- Ek. by apply list_elem_of_fmap_2. }
    split; [done|]. intros p w2 Ha Hrg. destruct (H p w2 Ha) as (Ep2 & Hf & Hs2 & Hsame).
    assert (owns L w2) as Ho2.
    { intros mn ty j Hp. rewrite Hsame by done. by apply Ho1. }
    split; [done|]. split; [|split; [done|split; [|split]]].
    + eapply staged_perm; [|exact Hs2]. intros x.
      rewrite (flatten_insert f pl ps i (r, it) p Ep Hi). unfold f at 1. simpl. done.
    + intros it' Hit'. destruct (Ht1 it' Hit') as (v' & (Hp' & Hh' & Hm') & Hd'). exists v'. split; [|done].
      simpl. rewrite Hsame by done. done.
    + by eapply (Forall2_got (fun _ (r : resp) => r.2 = [])).
    + apply after_own; [by apply owns_held|intros l Hp; by rewrite Hsame|done].
  - intros rs [w' h'] Hl (Hs' & Ho' & Ht' & Hr' & Hh'). simpl in *. exists m. split.
    + apply deliver_empty; [by rewrite length_map| |].
      * apply (Forall2_all (fun _ (r : resp) => r.2 = [])) in Hr'. clear -Hr'. by induction Hr'; constructor.
      * apply Forall_map. clear -Hqs Hpl. induction Hqs as [|p q pl qs (_ & _ & E & _) _ IH]; [constructor|].
        apply Forall_cons in Hpl as [(_ & _ & H0 & H1) Hpl]. constructor; [|by apply IH]. rewrite E. intros ? [= <-]. lia.
    + apply HQ; try done. rewrite flatten_all in Hs'.
      assert (concat (zip_with f pl rs) = pl) as E; [|by rewrite E in Hs'].
      rewrite <- Hlq in Hl. clear -Hl. revert rs Hl. induction pl as [|p pl IH]; intros [|r rs] Hl; simpl in *; try lia; [done|].
      f_equal. apply IH. lia.
Qed.

(** ** The primaries *)

(** All backups of some items. *)
Definition backs (its : list tx_rwset_item_t) : list (Z * tx_rwset_item_t) := plan its (seqZ 1 (cl_nback C)).

Lemma elem_plan r it its repls : (r, it) ∈ plan its repls <-> r ∈ repls /\ it ∈ its.
Proof.
  unfold plan. rewrite list_elem_of_In, in_concat. setoid_rewrite in_map_iff. split.
  - intros (l & (r' & <- & Hr) & Hin). apply in_map_iff in Hin as (it' & [= -> ->] & Hin).
    by apply list_elem_of_In in Hr, Hin.
  - intros [Hr Hin]. exists (map (pair r) its). split.
    + exists r. split; [done|]. by apply list_elem_of_In.
    + apply in_map_iff. exists it. split; [done|]. by apply list_elem_of_In.
Qed.

Lemma elem_backs r it its : (r, it) ∈ backs its <-> 1 <= r <= cl_nback C /\ it ∈ its.
Proof. unfold backs. rewrite elem_plan, elem_of_seqZ. intuition lia. Qed.

Lemma same_bucket it it' : iloc it = iloc it' -> rpc_reqtype it = rpc_reqtype it'.
Proof. unfold TxSpec.iloc, loc_of. by intros [= _ -> _]. Qed.

(** What is left to write after one write. *)
Lemma left_write m it R L w :
  let w' := wupd (iloc it) (a_unlock (a_upd (key it) (newv m it) (w (iloc it)))) w in
  NoDup (map ikey (it :: R)) -> Forall item_wf R -> L ≡ₚ map iloc R -> owns L w' ->
  Forall (to_write w) R -> Forall (to_write w') R.
Proof.
  intros w' Hnd Hwf HL Hown H. rewrite Forall_forall in *. intros it' Hin.
  destruct (H it' Hin) as (v & Hf & Hd). exists v. split; [|done].
  apply (sure_release C self); [apply a_upd_lock| |by apply (owns_held C self L w' Hown); [rewrite HL; by apply list_elem_of_fmap_2|apply iloc_prim, Hwf]|done].
  intros E. apply a_upd_ne. intros Ek. simpl in Hnd. apply NoDup_cons in Hnd as [Hn _]. apply Hn.
  apply same_bucket in E. replace (ikey it) with (ikey it') by (unfold ikey; congruence). by apply list_elem_of_fmap_2.
Qed.

Lemma pending_sub {R} (its : list tx_rwset_item_t) (ps : list (option R)) it : it ∈ pending id its ps -> it ∈ its.
Proof.
  unfold pending. revert ps. induction its as [|it0 its IH]; intros [|o ps] Hin; simpl in Hin; try by apply not_elem_of_nil in Hin.
  apply elem_of_app in Hin as [Hin|Hin]; [|apply elem_of_cons; right; by eapply IH].
  destruct o; [by apply not_elem_of_nil in Hin|]. apply list_elem_of_singleton in Hin as ->. apply list_elem_of_here.
Qed.

Lemma pending_any {P R X} (f : P -> X) plan (ps : list (option R)) i r r' :
  pending f plan (<[i := Some r]> ps) = pending f plan (<[i := Some r']> ps).
Proof.
  unfold pending. revert i ps. induction plan as [|p plan IH]; intros [|i] [|o ps]; simpl; try done. by rewrite (IH i ps).
Qed.

Lemma wp_primaries m its qs P w h h0 (Q : list resp * list byte -> state -> Prop) :
  Forall item_wf its -> Forall (writable C m) its -> NoDup (map ikey its) ->
  Forall2 (upd_sent m 0) its qs -> Z.of_nat (length its) <= RPC_MAX_MSG_CORO ->
  staged m (backs its) w -> owns (map iloc its) w -> Forall (to_write w) its ->
  (exists h1, h = h1 ++ h0 /\ trail P h1 (map (wr m) its)) ->
  (forall rs w' h', good w' -> owns [] w' ->
     (exists h1, h' = h1 ++ h0 /\ trail P h1 []) -> Q (rs, m) (w', h')) ->
  wp C self pkt (send_and_yield qs m) Q (w, h).
Proof.
  intros Hits Hwr Hnd Hqs Hn Hst Hown Htw Htr HQ. pose proof (Forall2_length _ _ _ Hqs) as Hlq.
  apply (wp_send C self pkt _ _ _ _ (fun ps s => let R := pending id its ps in
    staged m (backs R) s.1 /\ owns (map iloc R) s.1 /\ Forall (to_write s.1) R /\ NoDup (map ikey R) /\
    Forall2 (fun _ o => forall r : resp, o = Some r -> r.2 = []) its ps /\
    exists h1, s.2 = h1 ++ h0 /\ trail P h1 (map (wr m) R))).
  - lia.
  - rewrite <- Hlq, pending_none, map_id. simpl. split; [done|]. split; [done|]. split; [done|]. split; [done|].
    split; [|done]. by apply (Forall2_none (fun _ (r : resp) => r.2 = [])).
  - intros ps w1 h1 w2 Hl (Hs1 & Ho1 & Ht1 & Hn1 & Hr1 & h2 & Eh & Htr1) He Ht. cbn [fst snd] in *. set (R := pending id its ps) in *.
    assert (staged m (backs R) w2) as Hs2 by (by eapply (staged_env C HC self Hself)).
    assert (peaceful C w1) by apply Hs1. assert (peaceful C w2) by apply Hs2.
    assert (owns (map iloc R) w2) as Ho2 by (by apply (owns_env C self Hself _ w1)).
    split; [done|]. split; [done|]. split; [|split; [done|split; [done|]]].
    + eapply Forall_impl; [exact Ht1|]. intros it Hit. by apply (to_write_env w1).
    + eexists (_ :: h2). split; [by rewrite Eh|]. apply trail_quiet; [done|]. split; [by intros []|].
      unfold locs. rewrite map_map. by apply owns_held.
  - intros ps w1 h1 i q Hl (Hs1 & Ho1 & Ht1 & Hn1 & Hr1 & h2 & Eh & Htr1) Hq Hi. cbn [fst snd] in *.
    destruct (Forall2_lookup_r _ _ _ _ _ Hqs Hq) as (it & Ep & Hsent).
    pose proof (Forall_lookup_1 _ _ _ _ Hits Ep) as Hit. pose proof (Forall_lookup_1 _ _ _ _ Hwr Ep) as Hwi.
    pose proof (pending_insert id its ps i it (0, []) Ep Hi) as HR.
    set (R := pending id its ps) in *. set (R' := pending id its (<[i := Some (0, [])]> ps)) in *. simpl in HR.
    assert (Forall item_wf R') as HwR.
    { apply Forall_forall. intros x Hx. rewrite Forall_forall in Hits. apply Hits. by eapply pending_sub. }
    rewrite HR in Ho1, Ht1, Hn1. apply Forall_cons in Ht1 as [(v & Hv & Hdel) Ht1].
    destruct (serve_primary C HC self Hself m (backs R) (backs R') (map iloc R') it v q w1 Hit Hwi Hsent Hs1 Hv Hdel) as [Hacc H]; [| | |done|].
    { intros r Hr. apply elem_backs. split; [done|]. rewrite HR. apply list_elem_of_here. }
    { intros r it' Hin. apply elem_backs in Hin as [Hr Hin]. rewrite HR in Hin. apply elem_of_cons in Hin as [->|Hin]; [by right|].
      left. by apply elem_backs. }
    { intros r it' Hin. apply elem_backs in Hin as [Hr Hin]. split; [|by apply list_elem_of_fmap_2].
      apply elem_backs. split; [done|]. rewrite HR. by apply list_elem_of_further. }
    split; [done|]. intros p w2 Ha Hrg. destruct (H p w2 Ha Hrg) as (Ew & Ep2 & Hf & Hs2 & Ho2). split; [done|].
    rewrite (pending_any id its ps i p (0, [])). fold R'. split; [done|]. split; [done|].
    split; [|split; [|split; [by eapply (Forall2_got (fun _ (r : resp) => r.2 = []))|]]].
    + subst w2. by apply (left_write m it R' (map iloc R')).
    + by apply NoDup_cons in Hn1 as [_ ?].
    + eexists (_ :: h2). split; [by rewrite Eh|]. apply (trail_write P _ h2 (wr m it) (map (wr m) R)); [done| | |].
      * by rewrite HR.
      * split; [by eexists|]. split; [apply Hv|done].
      * unfold locs. rewrite map_map. by apply owns_held.
  - intros rs [w' h'] Hl (Hs' & Ho' & _ & _ & Hr' & Htr'). cbn [fst snd] in *. rewrite pending_all in *. exists m. split.
    + apply deliver_empty; [by rewrite length_map| |].
      * apply (Forall2_all (fun _ (r : resp) => r.2 = [])) in Hr'. clear -Hr'. by induction Hr'; constructor.
      * apply Forall_map. clear -Hqs Hwr HC Hits. induction Hqs as [|it q its qs (_ & _ & E & _) _ IH]; [constructor|].
        apply Forall_cons in Hwr as [(H0 & H1 & _) Hwr], Hits as [Hit Hits]. constructor; [|by apply IH]. rewrite E. intros ? [= <-].
        pose proof (iw_vsz C HC it Hit). unfold TxSpec.ivsz in *. lia.
    + apply HQ; [|done|done]. apply (staged_good C self m). eapply staged_perm; [|exact Hs']. intros [r it].
      rewrite elem_backs. split; [by intros ?%not_elem_of_nil|]. by intros [_ ?%not_elem_of_nil].
Qed.

(** ** The phases of [commit] *)

Lemma plan_keys its repls : NoDup repls -> NoDup (map ikey its) -> NoDup (map pkey (plan its repls)).
Proof.
  intros Hr Hi. unfold plan. induction Hr as [|r rs Hn _ IH]; simpl; [constructor|].
  rewrite map_app, map_map. apply NoDup_app. split; [|split; [|done]].
  - replace (map (fun it => pkey (r, it)) its) with (map (pair r) (map ikey its)) by (by rewrite map_map).
    apply NoDup_fmap; [|done]. by intros ? ? [= ->].
  - intros y Hy1 Hy2. apply list_elem_of_fmap in Hy1 as (it & -> & _). apply list_elem_of_fmap in Hy2 as ([r' it'] & [= E _] & Hin).
    fold (plan its rs) in Hin. apply elem_plan in Hin as [Hin _]. subst r'. done.
Qed.

Lemma plan_app its a b : plan its (a ++ b) = plan its a ++ plan its b.
Proof. unfold plan. by rewrite map_app, concat_app. Qed.

Lemma plan_length its repls : length (plan its repls) = (length its * length repls)%nat.
Proof. unfold plan. induction repls as [|r rs IH]; simpl; [lia|]. rewrite length_app, length_map, IH. lia. Qed.

(** A transaction that can commit: what it needs of its sets, its mappings and its
    objects. *)
Record ready (x : tx) (m : list byte) : Prop := {
  rd_logs : logs C pkt x;
  rd_caller : caller_id x = self;
  rd_backups : Mappings.num_backups (mappings x) = cl_nback C;
  rd_keys : NoDup (map ikey (write_set x));
  rd_objs : Forall (writable C m) (write_set x);
  rd_pkt : bulk C (write_set x) + 16 <= pkt
}.

Section Phases.
Context (x : tx) (m : list byte) (Hrd : ready x m).

Lemma send_backups_ok repls dn L w h :
  Forall (fun r => 1 <= r <= cl_nback C) repls -> NoDup (repls ++ dn) ->
  Z.of_nat (length (write_set x) * length repls) <= RPC_MAX_MSG_CORO ->
  staged m (plan (write_set x) dn) w -> owns L w -> Forall (to_write w) (write_set x) ->
  wp C self pkt (send_updates_to_replicas x repls m) (fun m' s =>
    m' = m /\ staged m (plan (write_set x) (repls ++ dn)) s.1 /\ owns L s.1 /\ Forall (to_write s.1) (write_set x) /\
    after L h s) (w, h).
Proof.
  intros Hr Hnd Hn Hst Hown Htw. destruct Hrd as [[_ _ _ _ Hits _ _] Hc _ Hk Ho Hpkt].
  unfold send_updates_to_replicas. apply wp_bind.
  apply (wp_replica_reqs C HC self pkt Hself m (write_set x)); try done.
  - eapply Forall_impl; [exact Hr|]. simpl. lia.
  - intros mn. change (wt mn (map fst [])) with 0.
    pose proof (loads_le C HC mn repls (write_set x) Hits ltac:(by apply NoDup_app in Hnd as [? _]) Hr). lia.
  - intros qs Hqs. rewrite app_nil_l. apply wp_bind.
    apply (wp_backups m (plan (write_set x) dn) (plan (write_set x) repls) qs L w h); try done.
    + apply Forall_forall. intros [r it] Hin. apply elem_plan in Hin as [Hr' Hit].
      pose proof (proj1 (Forall_forall _ _) Hits it Hit) as Hwf. destruct (proj1 (Forall_forall _ _) Ho it Hit) as (H0 & H1 & _).
      pose proof (iw_vsz C HC it Hwf). unfold TxSpec.ivsz in *.
      split; [done|]. split; [by apply (proj1 (Forall_forall _ _) Hr)|]. simpl. lia.
    + rewrite <- plan_app. by apply plan_keys.
    + by rewrite plan_length.
    + apply Forall_forall. intros [r it] Hin. apply elem_plan in Hin as [_ Hit]. rewrite Forall_forall in Htw. by apply Htw.
    + intros rs w' h' Hst' Ho' Htw' Hh'. simpl. split; [done|]. rewrite plan_app. split; [done|]. split; [done|].
      split; [|done]. eapply Forall_impl; [exact Htw|]. exact Htw'.
Qed.

Lemma one_by_one_ok repls : forall dn L w h,
  Forall (fun r => 1 <= r <= cl_nback C) repls -> NoDup (repls ++ dn) ->
  staged m (plan (write_set x) dn) w -> owns L w -> Forall (to_write w) (write_set x) ->
  wp C self pkt (send_updates_one_by_one x repls m) (fun m' s =>
    m' = m /\ staged m (plan (write_set x) (repls ++ dn)) s.1 /\ owns L s.1 /\ Forall (to_write s.1) (write_set x) /\
    after L h s) (w, h).
Proof.
  induction repls as [|r rs IH]; intros dn L w h Hr Hnd Hst Hown Htw.
  { simpl. split_and!; try done. apply after_refl. }
  apply Forall_cons in Hr as [Hr Hrs]. cbn [send_updates_one_by_one]. apply wp_bind.
  assert (NoDup (rs ++ r :: dn)) as Hnd'.
  { rewrite <- Permutation_middle. done. }
  eapply wp_mono.
  { apply (send_backups_ok [r] dn L w h); try done; [by constructor| |].
    - simpl in *. apply NoDup_cons in Hnd as [Hn Hnd]. apply NoDup_app in Hnd as (_ & _ & Hnd). apply NoDup_cons. split; [|done].
      intros Hin. apply Hn. apply elem_of_app. by right.
    - destruct Hrd as [[] ]. simpl. lia. }
  intros m' [w1 h1] (-> & Hst1 & Ho1 & Htw1 & Hh1). simpl in *.
  eapply wp_mono; [by apply (IH (r :: dn) L w1 h1)|]. simpl. intros m' s (-> & Hst2 & Ho2 & Htw2 & Hh2).
  split; [done|]. split; [|split; [done|split; [done|]]].
  - eapply staged_perm; [|exact Hst2]. intros [r' it]. change (plan (write_set x) ?l) with (plan (write_set x) l).
    rewrite (elem_plan r' it _ (r :: rs ++ dn)), elem_plan. by rewrite <- (Permutation_middle rs dn r).
  - eapply after_trans; [exact Hh2|]. by exists w1.
Qed.

Lemma update_backups_ok L w h :
  staged m [] w -> owns L w -> Forall (to_write w) (write_set x) ->
  wp C self pkt (update_backups x m) (fun m' s =>
    m' = m /\ staged m (backs (write_set x)) s.1 /\ owns L s.1 /\ Forall (to_write s.1) (write_set x) /\
    after L h s) (w, h).
Proof.
  intros Hst Hown Htw. unfold update_backups. rewrite (rd_backups _ _ Hrd).
  assert (Mappings.num_replicas (mappings x) - 1 = cl_nback C) as ->.
  { rewrite <- (rd_backups _ _ Hrd). destruct (lg_maps _ _ _ (rd_logs _ _ Hrd)) as [Hwf _].
    destruct (Mappings.wf_replicas _ Hwf) as [-> _]. lia. }
  assert (Forall (fun r => 1 <= r <= cl_nback C) (seqZ 1 (cl_nback C))) as Hr.
  { apply Forall_forall. intros r Hr%elem_of_seqZ. lia. }
  assert (NoDup (seqZ 1 (cl_nback C) ++ [])) as Hnd by (rewrite app_nil_r; apply NoDup_seqZ).
  pose proof (cw_nback C HC). eapply wp_mono.
  { case_match eqn:Ele.
    - apply Z.leb_le in Ele. apply (send_backups_ok (seqZ 1 (cl_nback C)) [] L w h); try done. rewrite length_seqZ. nia.
    - by apply (one_by_one_ok (seqZ 1 (cl_nback C)) [] L w h). }
  intros m' s. by rewrite app_nil_r.
Qed.

Lemma send_primaries_ok P w h h0 :
  staged m (backs (write_set x)) w -> owns (map iloc (write_set x)) w -> Forall (to_write w) (write_set x) ->
  (exists h1, h = h1 ++ h0 /\ trail P h1 (map (wr m) (write_set x))) ->
  wp C self pkt (send_updates_to_replicas x [0] m) (fun m' s =>
    m' = m /\ good s.1 /\ owns [] s.1 /\ exists h1, s.2 = h1 ++ h0 /\ trail P h1 []) (w, h).
Proof.
  intros Hst Hown Htw Htr. destruct Hrd as [[_ _ _ _ Hits Hn _] Hc _ Hk Ho Hpkt].
  unfold send_updates_to_replicas. apply wp_bind. pose proof (cw_nback C HC).
  apply (wp_replica_reqs C HC self pkt Hself m (write_set x)); try done; [by repeat constructor; lia| |].
  - intros mn. change (wt mn (map fst [])) with 0. simpl. pose proof (load_bulk C HC mn 0 (write_set x) Hits). lia.
  - intros qs Hqs. rewrite app_nil_l. apply wp_bind.
    apply (wp_primaries m (write_set x) qs P w h h0); try done.
    unfold plan in Hqs. simpl in Hqs. rewrite app_nil_r, Forall2_fmap_l in Hqs. done.
Qed.

End Phases.

Lemma ready_log x m rec : length rec = length (local_log_record x) -> ready x m -> ready (with_log rec x) m.
Proof. intros E [[] ? ? ? ? ?]. split; try done. split; try done. simpl. by rewrite E. Qed.

(** The outcome of the phases after validation. *)
Definition written (x : tx) (m : list byte) (h0 : list TxWorld.entry) (o : tx_status_t * tx * list byte) (s : state) : Prop :=
  let '(st, x', m') := o in
  st = committed /\ kin x x' /\ tx_status x' = committed /\ read_set x' = read_set x /\ write_set x' = write_set x /\
  m' = m /\ good s.1 /\ owns [] s.1 /\
  exists h1, s.2 = h1 ++ h0 /\ trail (map (wr m) (write_set x)) h1 [].

(** The phases after validation, for a transaction with a non-empty write set. *)
Lemma write_phases_ok x m w h :
  ready x m ->
  write_set x <> [] -> good w -> owns (map iloc (write_set x)) w ->
  (exists vs, Forall2 (fun it v => holds w (Fsure (key it) v (iloc it)) /\ (write_mode it = wm_del -> is_Some v)) (write_set x) vs) ->
  forall h0 h1, h = h1 ++ h0 -> Forall (quiet (map iloc (write_set x))) h1 ->
  wp C self pkt (commit_writes false x m) (written x m h0) (w, h).
Proof.
  intros Hrd Hne Hg Hown (vs & Hvs) h0 h1 Eh Hq. unfold commit_writes. cbn [andb].
  destruct (write_set x) as [|it0 its0] eqn:Ews; [done|]. rewrite <- Ews in *. clear Hne.
  set (L := map iloc (write_set x)) in *.
  assert (locs (map (wr m) (write_set x)) = L) as EL by (unfold locs, L; by rewrite map_map).
  set (F := zip_with (fun it v => Fsure (key it) v (iloc it)) (write_set x) vs).
  assert (forall w', Forall (holds w') F -> Forall (to_write w') (write_set x)) as HF.
  { unfold F. clear -Hvs. intros w'. induction Hvs as [|it v its vs [_ Hd] _ IH]; intros H; [constructor|].
    simpl in H. apply Forall_cons in H as [H Hs]. constructor; [by exists v|by apply IH]. }
  assert (Forall (holds w) F) as Hf.
  { unfold F. clear -Hvs. induction Hvs as [|it v its vs [H _] _ IH]; constructor; done. }
  apply wp_bind. eapply (wp_mono C self pkt _ (fun '(x', m') s =>
    (exists rec, x' = with_log rec x /\ length rec = length (local_log_record x)) /\ m' = m /\
    good s.1 /\ owns L s.1 /\ Forall (holds s.1) F /\ after L h s)).
  { case_match.
    - apply (log_ok C HC self pkt Hself); try done; apply Hrd.
    - simpl. split; [exists (local_log_record x); by destruct x|]. split_and!; try done. apply after_refl. }
  intros [x1 m1] [w1 ha] ((rec & -> & Lrec) & -> & Hg1 & Ho1 & Hf1 & Ha). simpl in Hg1, Ho1, Hf1. pose proof (ready_log x m rec Lrec Hrd) as Hrd1.
  change (mappings (with_log rec x)) with (mappings x). apply wp_bind.
  eapply (wp_mono C self pkt _ (fun m' s =>
    m' = m /\ staged m (backs (write_set x)) s.1 /\ owns L s.1 /\ Forall (to_write s.1) (write_set x) /\ after L h s)).
  { case_match eqn:Enb.
    - eapply wp_mono.
      { apply (update_backups_ok (with_log rec x) m Hrd1 L w1 ha); [by apply staged_good|done|by apply HF]. }
      intros m' s (-> & H1 & H2 & H3 & H4). split_and!; try done. eapply after_trans; [exact H4|]. by exists w1.
    - simpl. split; [done|]. split; [|split; [done|split; [by apply HF|done]]].
      apply (staged_perm C self m []); [|by apply staged_good]. intros [r it]. rewrite elem_backs.
      rewrite <- (rd_backups _ _ Hrd). apply Z.ltb_ge in Enb. split; [lia|by intros ?%not_elem_of_nil]. }
  intros m' [w2 hb] (-> & Hst & Ho2 & Htw & (h2 & Ehb & Hq2)). simpl in *. apply wp_bind.
  eapply wp_mono.
  { apply (send_primaries_ok (with_log rec x) m Hrd1 (map (wr m) (write_set x)) w2 hb h0); try done.
    exists (h2 ++ h1). split; [by rewrite Ehb, Eh, app_assoc|].
    rewrite <- (app_nil_r (h2 ++ h1)). apply trail_after; [constructor|]. change (write_set (with_log rec x)) with (write_set x). rewrite EL. by apply Forall_app. }
  intros m' s (-> & H1 & H2 & H3). simpl. split_and!; done.
Qed.

Lemma commit_writes_ok x m w h :
  ready x m -> good w -> owns (map iloc (write_set x)) w ->
  (exists vs, Forall2 (fun it v => holds w (Fsure (key it) v (iloc it)) /\ (write_mode it = wm_del -> is_Some v)) (write_set x) vs) ->
  forall h0 h1, h = h1 ++ h0 -> Forall (quiet (map iloc (write_set x))) h1 ->
  wp C self pkt (commit_writes false x m) (written x m h0) (w, h).
Proof.
  intros Hrd Hg Hown Hvs h0 h1 Eh Hq. destruct (decide (write_set x = [])) as [E|Hne]; [|by eapply write_phases_ok].
  unfold commit_writes. rewrite E in *. simpl. split_and!; try done. exists h1. split; [done|]. rewrite E.
  rewrite <- (app_nil_r h1). apply trail_after; [constructor|done].
Qed.

(** ** [commit] *)

Lemma writable_keeps os m m' it :
  item_wf it -> keeps os m m' -> Forall (apart (obj it)) os -> writable C m it ->
  writable C m' it /\ newv m' it = newv m it.
Proof.
  intros Hit Hk Ha (H0 & Hl & Hs & Hok). pose proof (iw_vsz C HC it Hit) as Hvs. change (cl_vsz C (rpc_reqtype it)) with (ivsz it) in Hvs.
  assert (sizeof_hots_obj_t = 16 + HOTS_MAX_VALUE) as Esz by done. pose proof (proj1 Hk) as El.
  assert (value C m' it = value C m it) as Ev.
  { pose proof (keeps_obj (obj it) os m m' 16 (Z.to_nat (ivsz it)) Hk Ha H0 ltac:(lia) ltac:(lia)) as E.
    unfold value. rewrite !read_at_ok in E by lia. by injection E. }
  split; [|unfold TxUpdate.newv; by rewrite Ev]. split; [done|]. split; [by rewrite El|]. split; [|unfold TxUpdate.newv; by rewrite Ev].
  rewrite <- Hs. pose proof (keeps_obj (obj it) os m m' 0 8 Hk Ha H0) as E. rewrite Z.add_0_r in E. by rewrite E.
Qed.

Lemma writes_keep os m m' its :
  Forall item_wf its -> keeps os m m' -> Forall (fun it => Forall (apart (obj it)) os) its -> Forall (writable C m) its ->
  Forall (writable C m') its /\ map (wr m') its = map (wr m) its.
Proof.
  intros Hwf Hk Ha Hw. induction Ha as [|it its Ha _ IH]; [done|].
  apply Forall_cons in Hwf as [Hit Hwf], Hw as [Hw1 Hw]. destruct (IH Hwf Hw) as [IH1 IH2].
  destruct (writable_keeps _ m m' it Hit Hk Ha Hw1) as [Hw2 En].
  split; [by constructor|]. simpl. f_equal; [|done]. unfold wr. by rewrite En.
Qed.

(** The key of an item has value [v], and this coroutine holds its bucket. *)
Definition locked (w : world) (it : tx_rwset_item_t) (v : option (list byte)) : Prop :=
  a_map (w (iloc it)) !! key it = v /\ a_held self (w (iloc it)).

(** The outcome of [commit] called in world [w]: it aborts only if it has read from a
    table that may be written. *)
Definition commit_post (x : tx) (m : list byte) (vr vw : list (option (list byte))) (w : world) (h : list TxWorld.entry)
    (o : tx_status_t * tx * list byte) (s : state) : Prop :=
  let '(st, x', m') := o in
  kin x x' /\ tx_status x' = st /\ read_set x' = read_set x /\ write_set x' = write_set x /\
  keeps (map obj (read_set x)) m m' /\ good s.1 /\ owns [] s.1 /\
  ((st = committed /\ Forall2 (current C self w) (read_set x) vr /\ Forall2 (locked w) (write_set x) vw /\
      Forall2 (reads_back m') (read_set x) vr /\ exists h1, s.2 = h1 ++ h /\ trail (map (wr m) (write_set x)) h1 []) \/
   (st = aborted /\ ~ Forall (fixed C) (read_set x) /\ after [] h s)).

Lemma all_locked its vw w : Forall2 (write_known C self w) its vw -> locked_locs C its = map iloc its.
Proof.
  unfold locked_locs. induction 1 as [|it v its vw (_ & Hl & _) _ IH]; simpl; [done|].
  rewrite filter_cons, decide_True by done. simpl. by rewrite IH.
Qed.

Lemma write_locked its vw w : Forall2 (write_known C self w) its vw -> Forall2 (locked w) its vw.
Proof. intros H. eapply Forall2_impl; [exact H|]. by intros it v ((_ & Hh & Hv) & _). Qed.

Lemma commit_ok x m vr vw w h :
  running C self x vr vw w -> all_read x -> ready x m ->
  layout m (map obj (read_set x ++ write_set x)) ->
  28 * Z.of_nat (length (read_set x) + length (write_set x)) <= pkt ->
  wp C self pkt (commit false x m) (commit_post x m vr vw w h) (w, h).
Proof.
  intros [Hc Hst Hri Hwi _ Hn _ Hg Hown Hkr Hkw] [Er Ew] Hrd Hly Hpkt.
  rewrite Er, firstn_all in Hkr. rewrite Ew, firstn_all in Hown, Hkw.
  pose proof Hown as HownL. rewrite (all_locked _ _ _ Hkw) in Hown. set (L := map iloc (write_set x)) in *.
  set (F := zip_with (lock_fact C) (write_set x) vw).
  apply Forall2_facts in Hkw as Hfw. destruct Hfw as [Hf Hmode]. fold F in Hf.
  assert (forall w', Forall (holds w') F -> exists vs,
    Forall2 (fun it v => holds w' (Fsure (key it) v (iloc it)) /\ (write_mode it = wm_del -> is_Some v)) (write_set x) vs) as HF.
  { intros w' Hf'. exists vw. apply (Forall2_facts C self (lock_fact C)). split; [done|].
    eapply Forall2_impl; [exact Hmode|]. intros it [b|] (_ & Hi) Hd; [by eexists|].
    exfalso. destruct Hi as [Hi _]. rewrite Hi in Hd; done. }
  rewrite map_app in Hly. apply layout_app in Hly as (Ly1 & Ly2 & Lap).
  assert (Forall (fun it => obj_at m (obj it)) (write_set x)) as Hobj.
  { clear -Ly2. induction (write_set x) as [|it its IH]; constructor; [apply Ly2|apply IH, Ly2]. }
  unfold commit. cbn [andb]. destruct (read_set x) as [|it0 its0] eqn:Ers.
  - eapply wp_mono; [apply (commit_writes_ok x m w h Hrd Hg Hown (HF w Hf) h [] eq_refl); constructor|].
    intros [[st x'] m'] s (-> & H0 & H1 & H2 & H3 & -> & H4 & H5 & H6). unfold commit_post. rewrite Ers in *.
    apply Forall2_nil_inv_l in Hkr as ->. split_and!; try done. left. split_and!; try done. by eapply write_locked.
  - rewrite <- Ers in *. clear Ers. apply wp_bind. eapply wp_mono.
    { apply (validate_ok C HC self pkt Hself x m L F vr w h); try done; lia. }
    intros [ok m1] [w1 h1] (Hq & Hg1 & Ho1 & Hf1 & Hk & Hok & Hfix). simpl in Hg1, Ho1, Hf1. destruct ok; simpl.
    + assert (Forall (fun it => Forall (apart (obj it)) (map obj (read_set x))) (write_set x)) as Hap.
      { apply Forall_forall. intros it Hit. apply Forall_forall. intros o Ho.
        pose proof (proj1 (Forall_forall _ _) (proj1 (Forall_forall _ _) Lap o Ho) (obj it) ltac:(by apply list_elem_of_fmap_2)).
        unfold apart in *. lia. }
      destruct (writes_keep (map obj (read_set x)) m m1 (write_set x) Hwi Hk Hap (rd_objs _ _ Hrd)) as [Hw1 Ewr].
      destruct Hq as (h2 & Eh & Hq). simpl in Eh.
      eapply wp_mono; [eapply (commit_writes_ok x m1 w1 h1); [|done|done|by apply HF|exact Eh|exact Hq]|].
      { destruct Hrd. by split. }
      intros [[st x'] m'] s (-> & H0 & H1 & H2 & H3 & -> & H4 & H5 & H6). unfold commit_post. rewrite Ewr in H6.
      split_and!; try done. left. split_and!; try done; [by apply Hok|by eapply write_locked|by apply Hok].
    + apply wp_bind. eapply wp_mono.
      { apply (abort_ok C HC self pkt Hself x m1 w1 h1); try done; try lia.
        - eapply Forall_impl; [exact Hobj|]. intros it. unfold obj_at. by rewrite (proj1 Hk).
        - by rewrite (all_locked _ _ _ Hkw). }
      intros [x' m'] s (-> & -> & H1 & H2 & H3). simpl. split_and!; try done. right. split; [done|]. split; [by intros ?%Hfix|].
      eapply after_trans; [exact H3|]. exists w1. eapply after_mono; [|exact Hq]. set_solver.
Qed.

End Commit.
End TxCommit.
