(* ===== verification/TxSystem.v ===== *)
(** * Coroutines in parallel

    A system of coroutines that share the world: each has sent a batch and waits
    for its answers, or has ended.  Every program that meets its specification
    among expected operations of others meets it in the system, because the
    operations of each are what the others expect. *)

From S2P Require Import Prelude Util Hots FixedTable FixedTableInv FixedTableOps FixedTableSteps Datastore DatastoreSpec RpcDefs.
From S2P Require Import RpcBatch Tx TxWorld.
From Stdlib Require Import ZArith Lia Bool.
From stdpp Require Import base numbers list gmap relations.
#[local] Open Scope Z_scope.
Import FixedTable FixedTableInv FixedTableOps FixedTableSteps DatastoreSpec RpcDefs RpcBatch Tx TxWorld.

Module TxSystem.

(** ** Steps of one element of a list *)

Section OneStep.
Context {T : Type} (R : relation T).

Definition one_steps (l l' : list T) : Prop := exists i x y, l !! i = Some x /\ R x y /\ l' = <[i := y]> l.

Lemma one_steps_sn l : Forall (fun x => sn R x) l -> sn one_steps l.
Proof.
  induction 1 as [|x l Hx Hl IH]; [constructor; by intros l' (i & x & y & Hi & _)|].
  revert l IH Hl. induction Hx as [x _ IHx]. intros l IH Hl. induction IH as [l Hacc IHl].
  constructor. intros l' ([|i] & x' & y & Hi & Hr & ->); simpl in Hi.
  - injection Hi as <-. apply (IHx y Hr); [by constructor|done].
  - assert (one_steps l (<[i := y]> l)) as Hs by (by exists i, x', y). apply (IHl _ Hs).
    apply Forall_insert; [done|]. eapply sn_step; [|exact Hr]. by eapply Forall_lookup_1 in Hl.
Qed.
End OneStep.

(** ** Systems *)

(** A served request: the coroutine, the request, and the worlds before and after. *)
Record event := mk_event { ev_who : nat; ev_req : ureq; ev_from : world; ev_to : world }.

(** The history as coroutine [i] sees it. *)
Definition view (i : nat) (tr : list event) : list TxWorld.entry :=
  map (fun e => mk_entry (if decide (ev_who e = i) then Some (ev_req e) else None) (ev_from e) (ev_to e)) tr.

Section System.
Context (C : cluster) (pkt : Z) (A : Type).

(** A coroutine waits for the rest of its answers, or has ended with a result, in a
    world and after a history. *)
Inductive tstate : Type :=
| T_wait (ps : list (ureq * option resp)) (k : list resp -> prog A)
| T_end (a : A) (w : world) (tr : list event)
| T_fault (e : fault).

Definition system : Type := world * list tstate * list event.

(** Between two batches a coroutine only fills message buffers. *)
Inductive starts : prog A -> prog A -> Prop :=
| starts_done a : starts (Done a) (Done a)
| starts_fault e : starts (Fault e) (Fault e)
| starts_yield reqs k : starts (Yield reqs k) (Yield reqs k)
| starts_start sofar mn k buf p :
    room pkt sofar mn <= Z.of_nat (length buf) -> starts (k buf) p -> starts (Start sofar mn k) p.

Definition settle (p : prog A) (w : world) (tr : list event) : tstate :=
  match p with
  | Done a => T_end a w tr
  | Fault e => T_fault e
  | Yield reqs k => T_wait (sent reqs) k
  | Start _ _ k => T_wait [] (fun _ => p)
  end.

(** A step: some server answers some request of some coroutine, or a coroutine
    whose requests have been answered goes on. *)
Inductive sys : system -> system -> Prop :=
| sys_serve w ths tr i ps k j q r w' :
    ths !! i = Some (T_wait ps k) -> ps !! j = Some (q, None) -> answers C w q r w' -> in_range C w' ->
    sys (w, ths, tr) (w', <[i := T_wait (<[j := (q, Some r)]> ps) k]> ths, mk_event i q w w' :: tr)
| sys_resume w ths tr i reqs rs k p :
    ths !! i = Some (T_wait (served reqs rs) k) -> length rs = length reqs -> starts (k rs) p ->
    sys (w, ths, tr) (w, <[i := settle p w tr]> ths, tr).

(** The initial states of the programs [ps] in world [w]. *)
Definition initial (ps : list (prog A)) (w : world) (s : system) : Prop :=
  exists ths, s = (w, ths, []) /\ Forall2 (fun p th => exists p', starts p p' /\ th = settle p' w []) ps ths.

Lemma starts_wp self p p' Q s : starts p p' -> wp C self pkt p Q s -> wp C self pkt p' Q s.
Proof.
  induction 1 as [| | |sofar mn k buf p Hb _ IH]; try done. intros H. apply IH. by apply H.
Qed.

Lemma starts_settled p p' : starts p p' -> forall sofar mn k, p' <> Start sofar mn k.
Proof. by induction 1. Qed.

(** ** The specifications hold in the system *)

Section Threads.
Context (callers : list Z) (Q : nat -> A -> state -> Prop).
Context (Hdist : NoDup callers) (Hcallers : Forall caller_wf callers).

(** The invariant of a coroutine: it has come to its state by steps that its
    specification covers. *)
Definition thread_ok (i : nat) (self : Z) (w : world) (tr : list event) (th : tstate) : Prop :=
  match th with
  | T_wait ps k => exists reqs s0, rtc (sstep C self) (sent reqs, s0) (ps, (w, view i tr)) /\
                     wp C self pkt (Yield reqs k) (Q i) s0
  | T_end a w1 tr1 => Q i a (w1, view i tr1) /\
                      exists tr2, tr = tr2 ++ tr1 /\ Forall (fun e => ev_who e <> i) tr2
  | T_fault _ => False
  end.

Definition system_ok (s : system) : Prop :=
  let '(w, ths, tr) := s in
  length ths = length callers /\
  forall i self th, callers !! i = Some self -> ths !! i = Some th -> thread_ok i self w tr th.

Lemma settle_ok i self p p' w tr :
  starts p p' -> wp C self pkt p (Q i) (w, view i tr) -> thread_ok i self w tr (settle p' w tr).
Proof.
  intros Hs Hwp. apply (starts_wp self p p') in Hwp; [|done]. pose proof (starts_settled p p' Hs) as Hn.
  destruct p' as [a|e|sofar mn k|reqs k]; simpl in *.
  - split; [done|]. by exists [].
  - done.
  - by destruct (Hn sofar mn k).
  - by exists reqs, (w, view i tr).
Qed.

Lemma initial_ok ps w s :
  length ps = length callers ->
  (forall i self p, callers !! i = Some self -> ps !! i = Some p -> wp C self pkt p (Q i) (w, [])) ->
  initial ps w s -> system_ok s.
Proof.
  intros Hl Hwp (ths & -> & H). split; [by rewrite <- (Forall2_length _ _ _ H)|].
  intros i self th Hc Hth. destruct (Forall2_lookup_r _ _ _ _ _ H Hth) as (p & Hp & p' & Hs & ->).
  apply (settle_ok i self p); [done|]. by apply Hwp.
Qed.

(** A step of one coroutine, seen by another. *)
Lemma other_ok i j ci cj q w w' tr th :
  i <> j -> caller_wf cj -> cj <> ci -> fair C ci w w' ->
  thread_ok j cj w tr th -> thread_ok j cj w' (mk_event i q w w' :: tr) th.
Proof.
  intros Hij Hcj Hne [Ht He] H. destruct th as [ps k|a w1 tr1|e]; simpl in *; [| |done].
  - destruct H as (reqs & s0 & Hr & Hwp). exists reqs, s0. split; [|done]. eapply rtc_r; [exact Hr|].
    rewrite decide_False by done. apply s_env; [by apply He|done].
  - destruct H as (HQ & tr2 & -> & Hf). split; [done|]. exists (mk_event i q w w' :: tr2). split; [done|]. by constructor.
Qed.

Lemma step_ok s s' : sys s s' -> system_ok s -> system_ok s'.
Proof.
  destruct 1 as [w ths tr i ps k j q r w' Hi Hj Ha Hr|w ths tr i reqs rs k p Hi Hl Hs]; intros [Hlen Hall].
  - destruct (lookup_lt_is_Some_2 callers i) as [ci Hci]; [rewrite <- Hlen; by eapply lookup_lt_Some|].
    destruct (Hall i ci _ Hci Hi) as (reqs & s0 & Hrtc & Hwp). pose proof (proj1 Hwp _ _ Hrtc j q Hj) as [_ Hfair].
    specialize (Hfair r w' Ha Hr). simpl in Hfair. split; [by rewrite length_insert|].
    intros i' c' th Hc' Hth. destruct (decide (i' = i)) as [->|Hne].
    + rewrite list_lookup_insert_eq in Hth by (by eapply lookup_lt_Some). simplify_eq.
      exists reqs, s0. split; [|done]. eapply rtc_r; [exact Hrtc|]. simpl. rewrite decide_True by done. by constructor.
    + rewrite list_lookup_insert_ne in Hth by done. apply (other_ok i i' ci c'); [done| | |done|by apply Hall].
      * by eapply Forall_lookup_1 in Hcallers.
      * intros ->. apply Hne. by eapply NoDup_lookup.
  - split; [by rewrite length_insert|]. intros i' c' th Hc' Hth. destruct (decide (i' = i)) as [->|Hne].
    + rewrite list_lookup_insert_eq in Hth by (by eapply lookup_lt_Some). simplify_eq.
      destruct (Hall i c' _ Hc' Hi) as (reqs' & s0 & Hrtc & Hwp). apply (settle_ok i c' (k rs)); [done|].
      assert (reqs' = reqs) as ->; [|by apply (proj2 Hwp)].
      assert (forall x y, rtc (sstep C c') x y -> x.1.*1 = y.1.*1) as Hkeep.
      { induction 1 as [|x y z Hxy _ IH]; [done|]. rewrite <- IH. destruct Hxy as [|ps ? ? n ? ? ? Hn]; simpl; [done|].
        rewrite list_fmap_insert. simpl. symmetry. apply list_insert_id. by rewrite list_lookup_fmap, Hn. }
      apply Hkeep in Hrtc. simpl in Hrtc. rewrite sent_fst in Hrtc. rewrite Hrtc. clear -Hl.
      revert rs Hl. induction reqs as [|q reqs IH]; intros [|r rs] Hl; simpl in *; try lia; [done|]. f_equal. apply IH. lia.
    + rewrite list_lookup_insert_ne in Hth by done. by apply Hall.
Qed.

(** Every step keeps the tables well formed and the free buckets replicated. *)
Lemma step_tidy s s' : sys s s' -> system_ok s -> tidy C s.1.1 s'.1.1.
Proof.
  destruct 1 as [w ths tr i ps k j q r w' Hi Hj Ha Hr|]; intros [Hlen Hall]; [|done].
  destruct (lookup_lt_is_Some_2 callers i) as [ci Hci]; [rewrite <- Hlen; by eapply lookup_lt_Some|].
  destruct (Hall i ci _ Hci Hi) as (reqs & s0 & Hrtc & Hwp). pose proof (proj1 Hwp _ _ Hrtc j q Hj) as [_ Hfair].
  apply (Hfair r w' Ha Hr).
Qed.

Lemma steps_tidy s s' : rtc sys s s' -> system_ok s -> tidy C s.1.1 s'.1.1.
Proof.
  induction 1 as [|s s1 s' Hs _ IH]; intros Hok; [done|]. destruct (step_tidy s s1 Hs Hok) as [H1 H2].
  destruct IH as [H3 H4]; [by eapply step_ok|]. split; auto.
Qed.

Lemma steps_ok s s' : rtc sys s s' -> system_ok s -> system_ok s'.
Proof. induction 1; eauto using step_ok. Qed.

End Threads.

(** ** Termination *)

(** A step of one coroutine, whatever the responses. *)
Inductive tstep : tstate -> tstate -> Prop :=
| t_serve ps k j q r : ps !! j = Some (q, None) -> tstep (T_wait ps k) (T_wait (<[j := (q, Some r)]> ps) k)
| t_resume reqs rs k p w tr : length rs = length reqs -> starts (k rs) p -> tstep (T_wait (served reqs rs) k) (settle p w tr).

Definition unanswered (ps : list (ureq * option resp)) : nat := length (filter (fun x => x.2 = None) ps).

Lemma answer_fewer ps j q r : ps !! j = Some (q, None) -> (unanswered (<[j := (q, Some r)]> ps) < unanswered ps)%nat.
Proof.
  revert j. induction ps as [|[q' o] ps IH]; intros [|j]; simpl; try done.
  - intros [= -> ->]. unfold unanswered. rewrite !filter_cons. simpl. lia.
  - intros H. apply IH in H. unfold unanswered in *. rewrite !filter_cons. destruct (decide _); simpl; lia.
Qed.

Lemma wait_sn ps k :
  (forall rs p w tr, starts (k rs) p -> sn tstep (settle p w tr)) -> sn tstep (T_wait ps k).
Proof.
  intros Hk. remember (unanswered ps) as n eqn:E. revert ps E. induction (lt_wf n) as [n _ IH]. intros ps ->.
  constructor. intros th Hs. unfold flip in Hs. inversion Hs as [ps' k' j q r Hj|reqs rs k' p w tr Hl Hst]; subst.
  - eapply IH; [|done]. by apply answer_fewer.
  - by eapply Hk.
Qed.

Lemma settle_sn p : forall p' w tr, starts p p' -> sn tstep (settle p' w tr).
Proof.
  induction p as [a|e|sofar mn k IH|reqs k IH]; intros p' w tr Hs; inversion Hs; subst.
  - constructor. intros th H. inversion H.
  - constructor. intros th H. inversion H.
  - by eapply IH.
  - apply wait_sn. intros rs p w' tr' Hp. by eapply IH.
Qed.

Lemma thread_sn th : sn tstep th.
Proof.
  destruct th as [ps k|a w tr|e].
  - apply wait_sn. intros rs p w tr Hp. by eapply settle_sn.
  - constructor. intros th H. inversion H.
  - constructor. intros th H. inversion H.
Qed.

(** Every run is finite, in any system whose steps are steps of its coroutines. *)
Lemma system_sn {W} (R : relation (W * list tstate * list event)) :
  (forall s s', R s s' -> one_steps tstep s.1.2 s'.1.2) -> forall s, sn R s.
Proof.
  intros HR [[w ths] tr]. assert (sn (one_steps tstep) ths) as H.
  { apply one_steps_sn, Forall_forall. intros th _. apply thread_sn. }
  revert w tr. induction H as [ths _ IH]. intros w tr. constructor. intros [[w' ths'] tr'] Hs. apply IH.
  apply (HR _ _ Hs).
Qed.

(** Between two batches a coroutine gets its buffers. *)
Lemma starts_total p : exists p', starts p p'.
Proof.
  induction p as [a|e|sofar mn k IH|reqs k IH]; [by eexists; constructor..| |by eexists; constructor].
  destruct (IH (replicate (Z.to_nat (room pkt sofar mn)) 0)) as [p' Hp]. exists p'. econstructor; [|exact Hp].
  rewrite length_replicate. lia.
Qed.

(** A batch that has been answered, or an open request. *)
Lemma batch_progress (ps : list (ureq * option resp)) :
  (exists reqs rs, ps = served reqs rs /\ length rs = length reqs) \/ exists j q, ps !! j = Some (q, None).
Proof.
  induction ps as [|[q [r|]] ps IH].
  - left. by exists [], [].
  - destruct IH as [(reqs & rs & -> & Hl)|(j & q' & Hj)]; [left|right].
    + exists (q :: reqs), (r :: rs). simpl. by rewrite Hl.
    + by exists (S j), q'.
  - right. by exists 0%nat, q.
Qed.

(** ** Traces *)

(** The events follow each other from world [w0] to world [w]. *)
Fixpoint chain (w0 : world) (tr : list event) (w : world) : Prop :=
  match tr with
  | [] => w = w0
  | e :: tr => ev_to e = w /\ chain w0 tr (ev_from e)
  end.

Lemma sys_chain w0 s s' :
  sys s s' -> chain w0 s.2 s.1.1 -> chain w0 s'.2 s'.1.1.
Proof. destruct 1; simpl; [done|done]. Qed.

Lemma sys_who s s' :
  sys s s' -> length s'.1.2 = length s.1.2 /\
  (Forall (fun e => ev_who e < length s.1.2)%nat s.2 -> Forall (fun e => ev_who e < length s'.1.2)%nat s'.2).
Proof.
  destruct 1 as [w ths tr i ps k j q r w' Hi|w ths tr i reqs rs k p Hi]; simpl; rewrite length_insert; split; try done.
  intros Hf. constructor; [|done]. simpl. by eapply lookup_lt_Some.
Qed.

Lemma run_trace w0 s s' :
  rtc sys s s' -> chain w0 s.2 s.1.1 -> Forall (fun e => ev_who e < length s.1.2)%nat s.2 ->
  chain w0 s'.2 s'.1.1 /\ length s'.1.2 = length s.1.2 /\ Forall (fun e => ev_who e < length s.1.2)%nat s'.2.
Proof.
  induction 1 as [s|s s1 s' Hs _ IH]; intros H1 H2; [done|].
  destruct (sys_who s s1 Hs) as [El Hw]. destruct IH as (I1 & I2 & I3); [by eapply sys_chain|by apply Hw|].
  rewrite El in *. done.
Qed.

End System.
End TxSystem.
