(* ===== verification/TxSerial.v ===== *)
(** * Serializability

    A trace in which every coroutine behaves as [commit] and [abort] promise is
    equivalent to a serial one: there is an order of the committed transactions in
    which each, run alone, reads what it has read and writes what it has written,
    and the last one leaves the contents of the primaries.  The order is that of the
    instants at which [commit] was called. *)

From S2P Require Import Prelude Util Hots FixedTable FixedTableInv FixedTableOps FixedTableSteps Datastore DatastoreSpec RpcDefs.
From S2P Require Import Tx TxWorld TxBuckets TxSpec TxStage TxCommit TxSystem.
From Stdlib Require Import ZArith Lia Bool.
From stdpp Require Import base numbers list gmap relations.
#[local] Open Scope Z_scope.
Import FixedTable FixedTableInv FixedTableOps FixedTableSteps DatastoreSpec Tx TxWorld TxBuckets TxSpec TxStage TxCommit TxSystem.

Module TxSerial.

(** ** Transactions run alone *)

Notation val := (option (list byte)).

(** What a transaction read (table, key and value) and what it wrote (table, key, old
    and new value). *)
Record txn := mk_txn { tr_reads : list (Z * Z * val); tr_writes : list (Z * Z * val * val) }.

(** The contents of the database: the values of the keys of each table. *)
Notation contents := (Z -> Z -> val).

Fixpoint wfind (ws : list (Z * Z * val * val)) (ty k : Z) : option val :=
  match ws with
  | [] => None
  | (ty', k', _, n) :: ws => if decide ((ty', k') = (ty, k)) then Some n else wfind ws ty k
  end.

Definition apply_txn (t : txn) (σ : contents) : contents :=
  fun ty k => default (σ ty k) (wfind (tr_writes t) ty k).

Definition enabled (t : txn) (σ : contents) : Prop :=
  Forall (fun '(ty, k, v) => σ ty k = v) (tr_reads t) /\
  Forall (fun '(ty, k, v, _) => σ ty k = v) (tr_writes t).

Fixpoint valid (σ : contents) (ts : list txn) : Prop :=
  match ts with
  | [] => True
  | t :: ts => enabled t σ /\ valid (apply_txn t σ) ts
  end.

Fixpoint final (σ : contents) (ts : list txn) : contents :=
  match ts with
  | [] => σ
  | t :: ts => final (apply_txn t σ) ts
  end.

(** The transaction that reads and writes given entries of a database, which has [e]
    before and [e'] after it. *)
Definition spec_txn (reads writes : list (Z * Z)) (e e' : Z * Z -> val) : txn :=
  mk_txn (map (fun tk => (tk.1, tk.2, e tk)) reads) (map (fun tk => (tk.1, tk.2, e tk, e' tk)) writes).

Lemma spec_enabled reads writes e e' σ :
  enabled (spec_txn reads writes e e') σ <-> Forall (fun tk => σ tk.1 tk.2 = e tk) (reads ++ writes).
Proof. unfold enabled. cbn [spec_txn tr_reads tr_writes]. by rewrite Forall_app, !Forall_map. Qed.

Lemma spec_apply reads writes e e' σ ty k :
  apply_txn (spec_txn reads writes e e') σ ty k = if decide ((ty, k) ∈ writes) then e' (ty, k) else σ ty k.
Proof.
  unfold apply_txn. cbn [spec_txn tr_writes]. induction writes as [|[ty' k'] writes IH]; [done|]. cbn [map wfind fst snd].
  destruct (decide ((ty', k') = (ty, k))) as [[= -> ->]|Hne]; [by rewrite decide_True by (by left)|].
  rewrite IH. apply decide_ext. rewrite elem_of_cons. split; [by right|]. by intros [[= -> ->]|].
Qed.

Section Serial.
Context (C : cluster).

Definition db (w : world) : contents := fun ty k => a_map (w (ploc C ty k)) !! k.

(** The writes of a transaction as [trail] counts them. *)
Definition todo (t : txn) : list (loc * Z * val) := map (fun '(ty, k, _, n) => (ploc C ty k, k, n)) (tr_writes t).

(** World [w] is one in which coroutine [c] can commit [t]: nobody else holds what [t]
    has read, and [c] holds what [t] writes. *)
Record snapshot (c : Z) (t : txn) (w : world) : Prop := {
  sn_reads : Forall (fun '(ty, k, v) => cl_prim C ty = true /\ db w ty k = v /\
    (is_unlocked (a_ts (w (ploc C ty k))) = true \/ a_held c (w (ploc C ty k)))) (tr_reads t);
  sn_writes : Forall (fun '(ty, k, v, _) => cl_prim C ty = true /\ db w ty k = v /\
    a_held c (w (ploc C ty k))) (tr_writes t);
  sn_keys : NoDup (map (fun '(ty, k, _, _) => (ty, k)) (tr_writes t))
}.

(** A history in which [c] commits the transactions [ts] one after another, and nothing
    else: what it does before, between and after them changes no value. *)
Fixpoint acts (c : Z) (ts : list txn) (w0 : world) (h : list TxWorld.entry) : Prop :=
  match ts with
  | [] => Forall (quiet C c []) h
  | t :: ts => exists hc ha hb, h = hc ++ ha ++ hb /\ Forall (quiet C c []) hb /\ snapshot c t (top w0 hb) /\
                 trail C c (todo t) ha [] /\ acts c ts (top w0 (ha ++ hb)) hc
  end.

(** ** The state of a trace *)

(** Where a coroutine is in the rest of the trace: it commits nothing any more, it
    commits [t] after [n] more steps, or it has committed and has writes left for [n]
    more steps; then the transactions [ts] follow. *)
Inductive status : Type :=
| S_quiet
| S_wait (t : txn) (n : nat) (ts : list txn)
| S_commit (R : list (loc * Z * val)) (n : nat) (ts : list txn).

Definition st_ok (c : Z) (w : world) (h : list TxWorld.entry) (st : status) : Prop :=
  match st with
  | S_quiet => Forall (quiet C c []) h
  | S_wait t n ts => exists hc ha hb, h = hc ++ ha ++ hb /\ length hb = n /\ Forall (quiet C c []) hb /\
      snapshot c t (top w hb) /\ trail C c (todo t) ha [] /\ acts c ts (top w (ha ++ hb)) hc
  | S_commit R n ts => held C c (locs R) w /\ Forall (fun x => cl_prim C x.1.1.1.2 = true) R /\
      exists hc ha, h = hc ++ ha /\ length ha = n /\ trail C c R ha [] /\ acts c ts (top w ha) hc
  end.

(** The writes that are left to be applied, the transactions that are left to be
    committed, and a measure of both. *)
Definition pend (st : status) : list (loc * Z * val) := match st with S_commit R _ _ => R | _ => [] end.
Definition left (st : status) : list txn :=
  match st with S_quiet => [] | S_wait t _ ts => t :: ts | S_commit _ _ ts => ts end.
Definition weight (st : status) : nat :=
  match st with S_quiet => 0 | S_wait _ _ ts => 2 * length ts + 2 | S_commit _ _ ts => 2 * length ts + 1 end.

(** The contents [σ] are those of world [w] with the writes that are left. *)
Definition overlay (sts : list status) (w : world) (σ : contents) : Prop :=
  forall ty k, cl_prim C ty = true ->
    (forall i st n, sts !! i = Some st -> (ploc C ty k, k, n) ∈ pend st -> σ ty k = n) /\
    ((forall i st n, sts !! i = Some st -> (ploc C ty k, k, n) ∉ pend st) -> σ ty k = db w ty k).

(** The transactions of coroutine [i] in an order of the transactions of all. *)
Definition of_coro {A} (i : nat) (order : list (nat * A)) : list A := (filter (fun x => x.1 = i) order).*2.

(** ** Lemmas *)

(** Other names for the transactions of each coroutine are other names in an order of
    all of them. *)
Lemma relabel {A B} (R : A -> B -> Prop) (order : list (nat * A)) : forall outs : nat -> list B,
  (forall i, Forall2 R (of_coro i order) (outs i)) ->
  exists order', Forall2 (fun x y => x.1 = y.1 /\ R x.2 y.2) order order' /\ forall i, of_coro i order' = outs i.
Proof.
  unfold of_coro. induction order as [|[i a] order IH]; intros outs H.
  { exists []. split; [constructor|]. intros i. specialize (H i). apply Forall2_nil_inv_l in H. by rewrite H. }
  pose proof (H i) as Hi. rewrite filter_cons_True in Hi by done. apply Forall2_cons_inv_l in Hi as (b & bs & Hab & Hbs & Ei).
  destruct (IH (fun j => if decide (j = i) then bs else outs j)) as (order' & H1 & H2).
  { intros j. specialize (H j). case_decide as E; [by subst|]. by rewrite filter_cons_False in H by (simpl; congruence). }
  exists ((i, b) :: order'). split; [by constructor|]. intros j. specialize (H2 j). destruct (decide (j = i)) as [->|E].
  - rewrite filter_cons_True, fmap_cons, H2 by done. done.
  - rewrite filter_cons_False by (simpl; congruence). done.
Qed.

(** The length of an order, by the coroutines. *)
Lemma order_length {A} n W : forall order : list (nat * A),
  Forall (fun x => x.1 < W)%nat order -> (forall i, length (of_coro i order) <= n)%nat -> (length order <= W * n)%nat.
Proof.
  induction W as [|W IH]; intros order Hlt Hn.
  { destruct order as [|x order]; [simpl; lia|]. apply Forall_cons in Hlt as [H _]. lia. }
  rewrite <- (filter_app_complement (fun x => x.1 = W) order), length_app.
  pose proof (Hn W) as Hw. unfold of_coro in Hw. rewrite length_fmap in Hw.
  assert (length (filter (fun x => ~ x.1 = W) order) <= W * n)%nat; [|lia]. apply IH.
  - apply Forall_forall. intros x [H1 H2]%list_elem_of_filter. rewrite Forall_forall in Hlt. specialize (Hlt x H2). lia.
  - intros i. etransitivity; [|apply (Hn i)]. unfold of_coro. rewrite !length_fmap, list_filter_filter.
    rewrite (list_filter_iff _ (fun x => ~ x.1 = W /\ x.1 = i)) by tauto. rewrite <- list_filter_filter. apply length_filter.
Qed.

Lemma ploc_type ty ty' k k' : ploc C ty k = ploc C ty' k' -> ty = ty'.
Proof. unfold ploc, loc_of. by intros [= _ -> _]. Qed.

Lemma trail_split c P a b R : trail C c P (a ++ b) R -> exists R1, trail C c P b R1 /\ trail C c R1 a R.
Proof.
  revert R. induction a as [|e a IH]; intros R H; simpl in H; [exists R; split; [done|constructor]|].
  inversion H as [|e' h R' Ht Hq|e' h x R' R'' Ht Hp Ha Hh]; subst.
  - destruct (IH R Ht) as (R1 & H1 & H2). exists R1. split; [done|]. by constructor.
  - destruct (IH R' Ht) as (R1 & H1 & H2). exists R1. split; [done|]. by econstructor.
Qed.

Lemma wfind_none ws ty k : (forall o n, (ty, k, o, n) ∉ ws) -> wfind ws ty k = None.
Proof.
  induction ws as [|[[[ty' k'] o] n] ws IH]; intros H; [done|]. simpl. case_decide as E.
  - injection E as -> ->. exfalso. apply (H o n). apply list_elem_of_here.
  - apply IH. intros o' n' Hin. apply (H o' n'). by apply list_elem_of_further.
Qed.

Lemma wfind_some ws ty k o n :
  NoDup (map (fun '(ty, k, _, _) => (ty, k)) ws) -> (ty, k, o, n) ∈ ws -> wfind ws ty k = Some n.
Proof.
  induction ws as [|[[[ty' k'] o'] n'] ws IH]; intros Hnd Hin; [by apply not_elem_of_nil in Hin|].
  simpl in Hnd. apply NoDup_cons in Hnd as [Hn Hnd]. simpl. apply elem_of_cons in Hin as [[= -> -> -> ->]|Hin].
  - by rewrite decide_True.
  - case_decide as E; [|by apply IH]. injection E as -> ->. exfalso. apply Hn.
    by apply (list_elem_of_fmap_2 (fun '(ty, k, _, _) => (ty, k)) ws (ty, k, o, n)).
Qed.

Lemma elem_todo t l k n : (l, k, n) ∈ todo t <-> exists ty o, (ty, k, o, n) ∈ tr_writes t /\ l = ploc C ty k.
Proof.
  unfold todo. rewrite list_elem_of_fmap. split.
  - intros ([[[ty k'] o] n'] & [= -> -> ->] & Hin). eauto.
  - intros (ty & o & Hin & ->). exists (ty, k, o, n). done.
Qed.

Lemma top_app w a b : top w (a ++ b) = top (top w b) a.
Proof. by destruct a. Qed.

(** ** Histories of transactions *)

Lemma acts_quiet c ts w0 h1 h2 : Forall (quiet C c []) h1 -> acts c ts (top w0 h1) h2 -> acts c ts w0 (h2 ++ h1).
Proof.
  intros H1. destruct ts as [|t ts]; simpl; [intros; by apply Forall_app|].
  intros (hc & ha & hb & -> & Hb & Hs & Ht & Ha). exists hc, ha, (hb ++ h1).
  rewrite <- !app_assoc. split; [done|]. split; [by apply Forall_app|]. rewrite !top_app in *. done.
Qed.

Lemma acts_app c ts1 ts2 w0 h1 h2 :
  acts c ts1 w0 h1 -> acts c ts2 (top w0 h1) h2 -> acts c (ts1 ++ ts2) w0 (h2 ++ h1).
Proof.
  revert w0 h1. induction ts1 as [|t ts1 IH]; intros w0 h1; simpl; [apply acts_quiet|].
  intros (hc & ha & hb & -> & Hb & Hs & Ht & Ha) H2. exists (h2 ++ hc), ha, hb. rewrite <- app_assoc. split_and!; try done.
  apply IH; [done|]. by rewrite <- top_app.
Qed.

(** The status of a coroutine that is to commit [ts]. *)
Lemma acts_status c ts w h :
  acts c ts w h -> exists st, st_ok c w h st /\ left st = ts /\ pend st = [] /\ weight st = (2 * length ts)%nat.
Proof.
  destruct ts as [|t ts]; simpl.
  - intros H. by exists S_quiet.
  - intros (hc & ha & hb & Eh & H). exists (S_wait t (length hb) ts). split; [by exists hc, ha, hb|]. simpl. split_and!; try done. lia.
Qed.

(** A write that is left keeps everybody else away from its key. *)
Lemma left_excludes ci cj i j (callers : list Z) (sts : list status) w tr st ty k n :
  NoDup callers -> callers !! i = Some ci -> callers !! j = Some cj ->
  (forall i c st, callers !! i = Some c -> sts !! i = Some st -> st_ok c w (view i tr) st) ->
  sts !! j = Some st -> (ploc C ty k, k, n) ∈ pend st -> cl_prim C ty = true ->
  is_unlocked (a_ts (w (ploc C ty k))) = true \/ a_held ci (w (ploc C ty k)) -> i = j.
Proof.
  intros Hnd Hi Hj Hok Hst Hin Hty Hf. specialize (Hok j cj _ Hj Hst).
  destruct st as [| |R m ts]; simpl in Hin; [by apply not_elem_of_nil in Hin..|]. destruct Hok as (Hh & _ & _).
  assert (a_held cj (w (ploc C ty k))) as Hhj.
  { apply Hh; [|done]. by apply (list_elem_of_fmap_2 (fun x : loc * Z * val => x.1.1) R (ploc C ty k, k, n)). }
  destruct Hf as [Hu|Hhi]; [apply held_unlocked in Hhj; congruence|].
  destruct Hhi as [_ E1], Hhj as [_ E2]. eapply NoDup_lookup; [done|exact Hi|]. by rewrite Hj, <- E1, <- E2.
Qed.

(** ** The equivalent serial run *)

Section Run.
Context (callers : list Z) (Hdist : NoDup callers).

Definition all_ok (w : world) (tr : list event) (sts : list status) : Prop :=
  length sts = length callers /\
  forall i c st, callers !! i = Some c -> sts !! i = Some st -> st_ok c w (view i tr) st.

Lemma all_caller w tr sts i st : all_ok w tr sts -> sts !! i = Some st -> exists c, callers !! i = Some c /\ st_ok c w (view i tr) st.
Proof.
  intros [Hlen Hok] Hi. destruct (lookup_lt_is_Some_2 callers i) as [c Hc]; [rewrite <- Hlen; by eapply lookup_lt_Some|]. eauto.
Qed.

Lemma all_insert w tr sts i c st :
  all_ok w tr sts -> callers !! i = Some c -> st_ok c w (view i tr) st -> all_ok w tr (<[i := st]> sts).
Proof.
  intros [Hlen Hok] Hc Hst. split; [by rewrite length_insert|]. intros j c' st' Hc' Hj.
  apply list_lookup_insert_Some in Hj as [(-> & -> & _)|[Hne Hj]]; [by simplify_eq|by eapply Hok].
Qed.

(** The keys of a transaction that can commit have no writes left. *)
Lemma snapshot_clear w tr sts i c st ty k :
  all_ok w tr sts -> callers !! i = Some c -> sts !! i = Some st -> pend st = [] -> cl_prim C ty = true ->
  is_unlocked (a_ts (w (ploc C ty k))) = true \/ a_held c (w (ploc C ty k)) ->
  forall j st' n, sts !! j = Some st' -> (ploc C ty k, k, n) ∉ pend st'.
Proof.
  intros Hok Hc Hi Hp Hty Hf j st' n Hj Hin. destruct (all_caller _ _ _ _ _ Hok Hj) as (cj & Hcj & _). destruct Hok as [_ Hok].
  assert (i = j) as <- by (by eapply (left_excludes c cj)). simplify_eq. rewrite Hp in Hin. by apply not_elem_of_nil in Hin.
Qed.

(** A coroutine calls [commit] now: its transaction is next in the order. *)
Lemma admit_one w tr sts σ i t ts :
  all_ok w tr sts -> overlay sts w σ -> sts !! i = Some (S_wait t 0 ts) ->
  enabled t σ /\ exists n, all_ok w tr (<[i := S_commit (todo t) n ts]> sts) /\
    overlay (<[i := S_commit (todo t) n ts]> sts) w (apply_txn t σ).
Proof.
  intros Hall Hov Hi. destruct (all_caller _ _ _ _ _ Hall Hi) as (c & Hc & (hc & ha & hb & Eh & Hb0 & _ & [Hr Hw Hk] & Htr & Hac)).
  apply nil_length_inv in Hb0 as ->. rewrite app_nil_r in Eh, Hac. simpl in Hr, Hw.
  pose proof (fun ty k => snapshot_clear w tr sts i c _ ty k Hall Hc Hi eq_refl) as Hexcl.
  assert (forall ty k o n, (ty, k, o, n) ∈ tr_writes t -> cl_prim C ty = true /\ db w ty k = o /\ a_held c (w (ploc C ty k))) as Hw'.
  { intros ty k o n Hin. by apply (proj1 (Forall_forall _ _) Hw (ty, k, o, n)). }
  split; [|exists (length ha); split].
  - split; apply Forall_forall.
    + intros [[ty k] v] Hin. destruct (proj1 (Forall_forall _ _) Hr _ Hin) as (Hty & Hv & Hf).
      rewrite <- Hv. apply (Hov ty k Hty). by apply Hexcl.
    + intros [[[ty k] v] n] Hin. destruct (Hw' ty k v n Hin) as (Hty & Hv & Hf).
      rewrite <- Hv. apply (Hov ty k Hty). apply Hexcl; auto.
  - eapply all_insert; [done|done|]. split; [|split; [|by exists hc, ha]].
    + intros l Hl _. unfold locs in Hl. apply list_elem_of_fmap in Hl as ([[l' k] n] & -> & Hin). simpl.
      apply elem_todo in Hin as (ty & o & Hin & ->). by apply (Hw' ty k o n).
    + apply Forall_forall. intros [[l k] n] Hin. apply elem_todo in Hin as (ty & o & Hin & ->). simpl. by apply (Hw' ty k o n).
  - intros ty k Hty. unfold apply_txn. split.
    + intros j st n Hst Hin. apply list_lookup_insert_Some in Hst as [(-> & <- & _)|[Hne Hst]].
      * apply elem_todo in Hin as (ty' & o & Hin & E). apply ploc_type in E as ->. by rewrite (wfind_some _ _ _ _ _ Hk Hin).
      * rewrite wfind_none; [by apply (Hov ty k Hty) with j st|].
        intros o n' Hin'. destruct (Hw' ty k o n' Hin') as (_ & _ & Hh). eapply Hexcl; eauto.
    + intros Hnone. rewrite wfind_none.
      * apply (Hov ty k Hty). intros j st n Hst. destruct (decide (j = i)) as [->|Hne]; [simplify_eq; apply not_elem_of_nil|].
        apply (Hnone j). by rewrite list_lookup_insert_ne.
      * intros o n Hin. apply (Hnone i (S_commit (todo t) (length ha) ts) n); [apply list_lookup_insert_eq; by eapply lookup_lt_Some|].
        apply elem_todo. eauto.
Qed.

(** A coroutine has no step left for its writes: they have all been applied. *)
Lemma settle_one w tr sts σ i R ts :
  all_ok w tr sts -> overlay sts w σ -> sts !! i = Some (S_commit R 0 ts) ->
  exists st, left st = ts /\ weight st = (2 * length ts)%nat /\ all_ok w tr (<[i := st]> sts) /\ overlay (<[i := st]> sts) w σ.
Proof.
  intros Hall Hov Hi. destruct (all_caller _ _ _ _ _ Hall Hi) as (c & Hc & (_ & _ & hc & ha & Eh & Hl & Ht & Hac)).
  apply nil_length_inv in Hl as ->. rewrite app_nil_r in Eh. subst hc. inversion Ht; subst.
  destruct (acts_status _ _ _ _ Hac) as (st & Hst & Hls & Hps & Hws). exists st. split; [done|]. split; [done|].
  split; [by eapply all_insert|]. intros ty k Hty. destruct (Hov ty k Hty) as [H1 H2]. split.
  - intros j st' n Hj Hin. apply list_lookup_insert_Some in Hj as [(-> & <- & _)|[Hne Hj]]; [|by eapply H1].
    rewrite Hps in Hin. by apply not_elem_of_nil in Hin.
  - intros Hn. apply H2. intros j st' n Hj. destruct (decide (j = i)) as [->|Hne]; [simplify_eq; apply not_elem_of_nil|].
    apply (Hn j). by rewrite list_lookup_insert_ne.
Qed.

(** The event changes no value of a primary. *)
Definition still (e : event) : Prop :=
  forall l, cl_prim C l.1.2 = true -> a_map (ev_to e l) = a_map (ev_from e l).

(** What an event does to the writes that are left to a coroutine: nothing, or one of
    them is applied. *)
Definition writes (e : event) (st st' : status) : Prop :=
  exists x, pend st ≡ₚ x :: pend st' /\ cl_prim C x.1.1.1.2 = true /\
    ev_to e = wupd x.1.1 (a_unlock (a_upd x.1.2 x.2 (ev_from e x.1.1))) (ev_from e).

(** Nothing is to be done before the next event. *)
Definition waiting (st : status) : Prop :=
  match st with S_quiet => True | S_wait _ n _ | S_commit _ n _ => n <> 0%nat end.

Definition seen (e : event) (i : nat) : TxWorld.entry :=
  mk_entry (if decide (ev_who e = i) then Some (ev_req e) else None) (ev_from e) (ev_to e).

Lemma view_snoc i tr e : view i (tr ++ [e]) = view i tr ++ [seen e i].
Proof. unfold view. by rewrite map_app. Qed.

Lemma seen_quiet e i c L : quiet C c L (seen e i) -> ev_who e = i -> still e.
Proof. intros [H _] Hi l Hl. unfold seen in H. simpl in H. rewrite decide_True in H by done. apply H; [by eexists|done]. Qed.

(** The first entry of a history belongs to its first part, unless that is empty. *)
Lemma snoc_split {A} (h a b : list A) e : b <> [] -> h ++ [e] = a ++ b -> exists b', b = b' ++ [e] /\ h = a ++ b'.
Proof.
  intros Hb E. destruct (exists_last Hb) as (b' & x & ->). rewrite app_assoc in E. apply app_inj_2 in E as [-> [= ->]]; [|done].
  by exists b'.
Qed.

Lemma move_one e tr i c st :
  st_ok c (ev_from e) (view i (tr ++ [e])) st -> waiting st ->
  exists st', left st' = left st /\ weight st' = weight st /\ st_ok c (ev_to e) (view i tr) st' /\
    ((pend st' = pend st /\ (ev_who e = i -> still e)) \/ (ev_who e = i /\ writes e st st')).
Proof.
  rewrite view_snoc. intros Hok Hne. destruct st as [|t n ts|R n ts]; simpl in Hok, Hne.
  - exists S_quiet. apply Forall_app in Hok as [H1 H2]. apply Forall_cons in H2 as [H2 _].
    split; [done|]. split; [done|]. split; [done|]. left. split; [done|]. by eapply seen_quiet.
  - destruct Hok as (hc & ha & hb & Eh & Hl & Hq & Hs & Ht & Hac). rewrite app_assoc in Eh.
    apply snoc_split in Eh as (hb' & -> & Eh); [|intros ->; by subst n].
    apply Forall_app in Hq as [Hq1 Hq2]. apply Forall_cons in Hq2 as [Hq2 _]. exists (S_wait t (length hb') ts).
    split; [done|]. split; [done|]. split; [|left; split; [done|by eapply seen_quiet]].
    exists hc, ha, hb'. rewrite Eh, <- app_assoc. rewrite app_assoc in Hac. rewrite top_app in Hs, Hac. done.
  - destruct Hok as (Hh & Hp & hc & ha & Eh & Hl & Ht & Hac). apply snoc_split in Eh as (ha' & -> & Eh); [|intros ->; by subst n].
    destruct (trail_split c R _ _ _ Ht) as (R1 & H1 & H2). exists (S_commit R1 (length ha') ts). split; [done|]. split; [done|].
    rewrite top_app in Hac. inversion H1 as [|e' h R' Hn Hq|e' h x R' R'' Hn Hpm Ha Hh']; subst; inversion Hn; subst.
    + split; [split; [apply Hq|]; split; [done|]; by exists hc, ha'|]. left. split; [done|]. by eapply seen_quiet.
    + destruct Ha as (Hs & _ & Hto). rewrite Hpm in Hp. apply Forall_cons in Hp as [Hpx Hp].
      split; [split; [done|]; split; [done|]; by exists hc, ha'|]. right. split; [|by exists x].
      unfold seen in Hs. simpl in Hs. case_decide; [done|by destruct Hs].
Qed.

Lemma list_choose {A B} (P : nat -> A -> B -> Prop) (l : list A) :
  (forall i x, l !! i = Some x -> exists y, P i x y) ->
  exists l', length l' = length l /\ forall i x y, l !! i = Some x -> l' !! i = Some y -> P i x y.
Proof.
  revert P. induction l as [|x l IH]; intros P H; [by exists []|].
  destruct (H 0%nat x eq_refl) as [y Hy]. destruct (IH (fun i => P (S i))) as (l' & Hl & Hall); [intros i; apply (H (S i))|].
  exists (y :: l'). split; [simpl; lia|]. intros [|i] x' y' Hi Hi'; simpl in *; [by simplify_eq|by apply Hall].
Qed.

(** Nothing is written: the overlay stays. *)
Lemma overlay_still e sts sts' σ :
  still e -> map pend sts' = map pend sts -> overlay sts (ev_from e) σ -> overlay sts' (ev_to e) σ.
Proof.
  intros Hs Hp Hov ty k Hty. destruct (Hov ty k Hty) as [H1 H2].
  assert (forall i st st', sts !! i = Some st -> sts' !! i = Some st' -> pend st' = pend st) as Hpe.
  { intros i st st' Hi Hi'. apply (f_equal (fun l => l !! i)) in Hp. rewrite !list_lookup_fmap, Hi, Hi' in Hp. by injection Hp. }
  assert (length sts' = length sts) as Hl by (by rewrite <- (length_map pend), Hp, length_map).
  split.
  - intros i st' n Hi' Hin. destruct (lookup_lt_is_Some_2 sts i) as [st Hi]; [rewrite <- Hl; by eapply lookup_lt_Some|].
    rewrite (Hpe i st st') in Hin by done. by eapply H1.
  - intros Hn. unfold db. rewrite Hs by done. apply H2. intros i st n Hi.
    destruct (lookup_lt_is_Some_2 sts' i) as [st' Hi']; [rewrite Hl; by eapply lookup_lt_Some|]. rewrite <- (Hpe i st st') by done. by eapply Hn.
Qed.

(** A write is applied: what was left of it is now in the world. *)
Lemma overlay_write e sts sts' σ j st st' :
  sts !! j = Some st -> sts' !! j = Some st' -> writes e st st' ->
  (forall i, i <> j -> pend <$> sts' !! i = pend <$> sts !! i) ->
  overlay sts (ev_from e) σ -> overlay sts' (ev_to e) σ.
Proof.
  intros Hj Hj' ([[l k0] n0] & Hp & Hl & Hto) Hst Hov ty k Hty. simpl in Hl, Hto. destruct (Hov ty k Hty) as [H1 H2].
  assert (forall i s n, i <> j -> sts' !! i = Some s -> (ploc C ty k, k, n) ∈ pend s ->
    exists s0, sts !! i = Some s0 /\ (ploc C ty k, k, n) ∈ pend s0) as Hback.
  { intros i s n Hne Hi Hin. specialize (Hst i Hne). rewrite Hi in Hst. destruct (sts !! i) as [s0|]; [|done].
    injection Hst as E. exists s0. by rewrite <- E. }
  split.
  - intros i s n Hi Hin. destruct (decide (i = j)) as [->|Hne].
    + simplify_eq. apply (H1 j st); [done|]. rewrite Hp. by apply list_elem_of_further.
    + destruct (Hback i s n Hne Hi Hin) as (s0 & Hi0 & Hin0). by apply (H1 i s0).
  - intros Hn. unfold db. rewrite Hto. destruct (decide ((ploc C ty k, k) = (l, k0))) as [[= <- <-]|Hd].
    + rewrite wupd_eq, a_unlock_map, a_upd_eq. apply (H1 j st); [done|]. rewrite Hp. apply list_elem_of_here.
    + assert (σ ty k = db (ev_from e) ty k) as ->.
      { apply H2. intros i s n Hi Hin. destruct (decide (i = j)) as [->|Hne].
        - simplify_eq. rewrite Hp in Hin. apply elem_of_cons in Hin as [[= E1 E2 _]|Hin]; [congruence|by apply (Hn j st' n)].
        - specialize (Hst i Hne). rewrite Hi in Hst. destruct (sts' !! i) as [s1|] eqn:Hi1; [|done].
          injection Hst as E. apply (Hn i s1 n Hi1). by rewrite E. }
      unfold db, wupd. case_decide as E; [|done]. rewrite a_unlock_map, a_upd_ne, E; [done|congruence].
Qed.

(** One event leaves the contents with the writes that are left as they are. *)
Lemma advance e tr sts σ :
  (ev_who e < length callers)%nat -> all_ok (ev_from e) (tr ++ [e]) sts -> overlay sts (ev_from e) σ -> Forall waiting sts ->
  exists sts', all_ok (ev_to e) tr sts' /\ overlay sts' (ev_to e) σ /\ map left sts' = map left sts /\ map weight sts' = map weight sts.
Proof.
  intros Hwho Hall Hov Hwt.
  destruct (list_choose (fun i st st' => left st' = left st /\ weight st' = weight st /\
    (forall c, callers !! i = Some c -> st_ok c (ev_to e) (view i tr) st') /\
    ((pend st' = pend st /\ (ev_who e = i -> still e)) \/ (ev_who e = i /\ writes e st st'))) sts) as (sts' & Hl' & Hmv).
  { intros i st Hi. destruct (all_caller _ _ _ _ _ Hall Hi) as (c & Hc & Hst).
    destruct (move_one e tr i c st Hst (Forall_lookup_1 _ _ _ _ Hwt Hi)) as (st' & H1 & H2 & H3 & H4).
    exists st'. split; [done|]. split; [done|]. split; [intros c' Hc'; by simplify_eq|done]. }
  destruct Hall as [Hlen _].
  assert (forall B (f : status -> B), (forall i st st', sts !! i = Some st -> sts' !! i = Some st' -> f st' = f st) -> map f sts' = map f sts) as Hmap.
  { intros B f Hf. change (@map status B) with (@fmap list _ status B). apply list_eq. intros i. rewrite !list_lookup_fmap.
    destruct (sts !! i) as [st|] eqn:Hi, (sts' !! i) as [st'|] eqn:Hi'; try done; [simpl; f_equal; by eapply Hf| |];
      [apply lookup_ge_None in Hi'; apply lookup_lt_Some in Hi|apply lookup_ge_None in Hi; apply lookup_lt_Some in Hi']; lia. }
  exists sts'. split; [|split; [|split]].
  - split; [congruence|]. intros i c st' Hc Hi'. destruct (lookup_lt_is_Some_2 sts i) as [st Hi]; [rewrite <- Hl'; by eapply lookup_lt_Some|].
    by apply (Hmv i st st').
  - destruct (lookup_lt_is_Some_2 sts (ev_who e)) as [st Hi]; [lia|]. destruct (lookup_lt_is_Some_2 sts' (ev_who e)) as [st' Hi']; [lia|].
    assert (forall i, i <> ev_who e -> pend <$> sts' !! i = pend <$> sts !! i) as Hoth.
    { intros i Hne. destruct (sts !! i) as [s|] eqn:Es, (sts' !! i) as [s'|] eqn:Es'; try done.
      - destruct (Hmv i s s' Es Es') as (_ & _ & _ & [[E _]|[E _]]); [simpl; by rewrite E|congruence].
      - apply lookup_ge_None in Es'. apply lookup_lt_Some in Es. lia.
      - apply lookup_ge_None in Es. apply lookup_lt_Some in Es'. lia. }
    destruct (Hmv _ _ _ Hi Hi') as (_ & _ & _ & [[Ep Hs]|[_ Hw]]); [|by apply (overlay_write e sts sts' σ (ev_who e) st st')].
    apply (overlay_still e sts); [by apply Hs| |done]. change (@map status (list (loc * Z * val))) with (@fmap list _ status (list (loc * Z * val))).
    apply list_eq. intros i. rewrite !list_lookup_fmap. destruct (decide (i = ev_who e)) as [->|Hd]; [|by apply Hoth].
    rewrite Hi, Hi'. simpl. by rewrite Ep.
  - apply Hmap. intros i st st' Hi Hi'. by apply (Hmv i).
  - apply Hmap. intros i st st' Hi Hi'. by apply (Hmv i).
Qed.

Lemma chain_snoc w0 tr e w : chain w0 (tr ++ [e]) w -> ev_from e = w0 /\ chain (ev_to e) tr w.
Proof. revert w. induction tr as [|e' tr IH]; simpl; intros w [H1 H2]; [done|]. destruct (IH _ H2). done. Qed.

Lemma find_now (sts : list status) : Forall waiting sts \/ exists i st, sts !! i = Some st /\ ~ waiting st.
Proof.
  induction sts as [|st sts IH]; [by left; constructor|]. destruct IH as [IH|(i & s & Hi & H)]; [|right; by exists (S i), s].
  destruct st as [|t [|n] ts|R [|n] ts]; try (left; constructor; [simpl; done|done]); (right; eexists 0%nat, _; split; [done|]; simpl; lia).
Qed.

Lemma weight_insert (sts : list status) i st st' :
  sts !! i = Some st -> (sum_list (map weight (<[i := st']> sts)) + weight st = sum_list (map weight sts) + weight st')%nat.
Proof.
  revert i. induction sts as [|s sts IH]; intros [|i] Hi; simpl in *; simplify_eq; [lia|]. specialize (IH i Hi). lia.
Qed.

(** No event is left: nobody has anything left to do. *)
Lemma last_quiet w sts i st : all_ok w [] sts -> Forall waiting sts -> sts !! i = Some st -> st = S_quiet.
Proof.
  intros Hall Hwt Hi. destruct (all_caller _ _ _ _ _ Hall Hi) as (c & _ & Hst). pose proof (Forall_lookup_1 _ _ _ _ Hwt Hi) as Hn.
  destruct st as [|t n ts|R n ts]; [done|..]; simpl in Hst, Hn.
  - destruct Hst as (hc & ha & hb & Eh & Hl & _). symmetry in Eh. apply app_nil in Eh as [_ Eh]. apply app_nil in Eh as [_ ->].
    simpl in Hl. congruence.
  - destruct Hst as (_ & _ & hc & ha & Eh & Hl & _). symmetry in Eh. apply app_nil in Eh as [_ ->]. simpl in Hl. congruence.
Qed.

Lemma serialize n : forall tr sts w wf σ,
  (length tr + sum_list (map weight sts) <= n)%nat -> chain w tr wf ->
  Forall (fun e => ev_who e < length callers)%nat tr -> all_ok w tr sts -> overlay sts w σ ->
  exists order, (forall i, of_coro i order = default [] (left <$> sts !! i)) /\ valid σ order.*2 /\
    forall ty k, cl_prim C ty = true -> final σ order.*2 ty k = db wf ty k.
Proof.
  induction n as [n IH] using lt_wf_ind. intros tr sts w wf σ Hn Hch Hwho Hok Hov.
  destruct (find_now sts) as [Hwt|(i & st & Hi & Hnow)].
  - destruct tr as [|e tr _] using rev_ind.
    + simpl in Hch. subst wf. exists []. split; [|split; [done|]].
      * intros i. destruct (sts !! i) as [st|] eqn:Hi; [|done]. by rewrite (last_quiet w sts i st Hok Hwt Hi).
      * intros ty k Hty. apply (Hov ty k Hty). intros i st m Hi. rewrite (last_quiet w sts i st Hok Hwt Hi). apply not_elem_of_nil.
    + apply chain_snoc in Hch as [<- Hch]. apply Forall_app in Hwho as [Hwho He]. apply Forall_cons in He as [He _].
      destruct (advance e tr sts σ He Hok Hov Hwt) as (sts' & Hok' & Hov' & El & Ew). rewrite length_app in Hn. simpl in Hn.
      destruct (IH (n - 1)%nat ltac:(lia) tr sts' (ev_to e) wf σ) as (order & Hp & Hv & Hf); try done; [rewrite Ew; lia|].
      exists order. split; [|done]. intros i. rewrite Hp. apply (f_equal (fun l => l !! i)) in El.
      rewrite !list_lookup_fmap in El. by rewrite El.
  - assert (i < length sts)%nat as Hlt by (by eapply lookup_lt_Some).
    destruct st as [|t [|m] ts|R [|m] ts]; simpl in Hnow; try (exfalso; apply Hnow; done).
    + destruct (admit_one w tr sts σ i t ts Hok Hov Hi) as (Hen & m & Hok' & Hov').
      pose proof (weight_insert sts i _ (S_commit (todo t) m ts) Hi) as Hw. simpl in Hw.
      destruct (IH (n - 1)%nat ltac:(lia) tr (<[i := S_commit (todo t) m ts]> sts) w wf (apply_txn t σ)) as (order & Hp & Hv & Hf); [lia|done..|].
      exists ((i, t) :: order). split; [|done]. intros j. specialize (Hp j). unfold of_coro in *. rewrite filter_cons.
      destruct (decide (j = i)) as [->|Hne].
      * rewrite list_lookup_insert_eq in Hp by done. rewrite decide_True by done. by rewrite fmap_cons, Hp, Hi.
      * rewrite list_lookup_insert_ne in Hp by done. rewrite decide_False by (simpl; congruence). done.
    + destruct (settle_one w tr sts σ i R ts Hok Hov Hi) as (st & Hl & Hws & Hok' & Hov').
      pose proof (weight_insert sts i _ st Hi) as Hw. simpl in Hw.
      destruct (IH (n - 1)%nat ltac:(lia) tr (<[i := st]> sts) w wf σ) as (order & Hp & Hv & Hf); [lia|done..|].
      exists order. split; [|done]. intros j. rewrite Hp. destruct (decide (j = i)) as [->|Hne].
      * rewrite list_lookup_insert_eq, Hi by done. simpl. by rewrite Hl.
      * by rewrite list_lookup_insert_ne.
Qed.

(** A trace in which every coroutine commits its transactions one after another is
    equivalent to a serial run of all of them, in which the transactions of each
    coroutine keep their order. *)
Lemma trace_serializable (outs : list (list txn)) tr w0 w :
  length outs = length callers -> chain w0 tr w -> Forall (fun e => ev_who e < length callers)%nat tr ->
  (forall i c ts, callers !! i = Some c -> outs !! i = Some ts -> acts c ts w0 (view i tr)) ->
  exists order, (forall i, of_coro i order = default [] (outs !! i)) /\ valid (db w0) order.*2 /\
    forall ty k, cl_prim C ty = true -> final (db w0) order.*2 ty k = db w ty k.
Proof.
  intros Hlen Hch Hwho Hall.
  destruct (list_choose (fun i ts st => left st = ts /\ pend st = [] /\ forall c, callers !! i = Some c -> st_ok c w0 (view i tr) st) outs)
    as (sts & Hl & Hst).
  { intros i ts Hi. destruct (lookup_lt_is_Some_2 callers i) as [c Hc]; [rewrite <- Hlen; by eapply lookup_lt_Some|].
    destruct (acts_status c ts w0 (view i tr)) as (st & H1 & H2 & H3 & _); [by apply (Hall i)|].
    exists st. split; [done|]. split; [done|]. intros c' Hc'. by simplify_eq. }
  assert (forall i st, sts !! i = Some st -> exists ts, outs !! i = Some ts /\ left st = ts /\ pend st = [] /\
    forall c, callers !! i = Some c -> st_ok c w0 (view i tr) st) as Hex.
  { intros i st Hi. destruct (lookup_lt_is_Some_2 outs i) as [ts Ho]; [rewrite <- Hl; by eapply lookup_lt_Some|].
    exists ts. split; [done|]. by apply (Hst i). }
  destruct (serialize _ tr sts w0 w (db w0) (Nat.le_refl _) Hch Hwho) as (order & Hp & H).
  - split; [congruence|]. intros i c st Hc Hi. destruct (Hex i st Hi) as (ts & _ & _ & _ & H). by apply H.
  - intros ty k Hty. split; [|done]. intros i st n Hi Hin. destruct (Hex i st Hi) as (ts & _ & _ & Ep & _).
    rewrite Ep in Hin. by apply not_elem_of_nil in Hin.
  - exists order. split; [|done]. intros i. rewrite Hp. destruct (sts !! i) as [st|] eqn:Hi.
    + destruct (Hex i st Hi) as (ts & Ho & El & _). by rewrite Ho, <- El.
    + apply lookup_ge_None in Hi. by rewrite lookup_ge_None_2 by lia.
Qed.

End Run.

End Serial.
End TxSerial.
