(* ===== verification/TxTransaction.v ===== *)
(** * Transactions

    A transaction of an application: its keys are read and locked by [do_read], the
    application computes new values, and the transaction is committed or aborted.
    Any number of such transactions that run in parallel are serializable. *)

From S2P Require Import Prelude Util Hots Mappings FixedTable FixedTableInv FixedTableOps FixedTableSteps Datastore DatastoreSpec.
From S2P Require Import RpcDefs RpcBatch Logger Tx TxWorld TxBuckets TxMem TxSpec TxExec TxRelease.
From S2P Require Import TxUpdate TxStage TxLog TxCommit TxSystem TxSerial.
From Stdlib Require Import ZArith Lia Bool.
From stdpp Require Import base numbers list gmap sets relations.
#[local] Open Scope Z_scope.
Import FixedTable FixedTableInv FixedTableOps FixedTableSteps DatastoreSpec RpcDefs RpcBatch Tx TxWorld TxBuckets TxMem TxSpec TxExec TxRelease TxUpdate TxStage TxLog TxCommit TxSystem TxSerial.

Module TxTransaction.

(** The application's part is a function of its memory: the new memory, or [None] for
    a transaction that the application aborts, or a fault. *)
Definition transaction (app : list byte -> res (option (list byte))) (x : tx) (m : list byte) : prog (tx_status_t * tx * list byte) :=
  '(st, x, m) ← do_read false x m;
  if decide (st = must_abort) then '(x, m) ← abort false x m; Done (aborted, x, m)
  else
    r ← lift (app m);
    match r with
    | None => '(x, m) ← abort false x m; Done (aborted, x, m)
    | Some m => commit false x m
    end.

(** ** Packet sizes *)

Lemma max_pkt_bound n V P :
  0 <= n <= RPC_MAX_MSG_CORO -> 0 <= V <= HOTS_MAX_VALUE -> max_pkt_size n V = Ok P ->
  (28 + V) * n <= P /\ 12 + (24 + V) * n <= P.
Proof.
  change RPC_MAX_MSG_CORO with 16. change HOTS_MAX_VALUE with 40. intros Hn HV. unfold max_pkt_size.
  assert (ds_put_req_size V = 24 + V) as -> by (unfold ds_put_req_size, sizeof_put_req; change sizeof_get_req with 24; lia).
  change (Z.of_nat sizeof_reqhdr) with 4. rewrite (wrap_id 64 n) by (unfold u; lia).
  rewrite (wrap_id 64 (n * _)) by (unfold u; nia). rewrite (wrap_id 64 (8 + 4 + _)) by (unfold u; nia).
  destruct (assert_ _); [|done]. rewrite bind_Ok. intros [= <-]. rewrite Z.gtb_ltb. case_match eqn:E; bool_prop; lia.
Qed.

Section Transaction.
Context (C : cluster) (HC : cluster_wf C) (self pkt : Z) (Hself : caller_wf self).
Notation item_wf := (item_wf C).
Notation good := (good C self).
Notation owns := (owns C self).

(** A transaction whose sets have been filled and whose keys have not been read. *)
Record tx_ok (x : tx) (m : list byte) : Prop := {
  ok_caller : caller_id x = self;
  ok_status : tx_status x = in_progress;
  ok_index : rs_index x = 0%nat /\ ws_index x = 0%nat;
  ok_ritems : Forall item_wf (read_set x);
  ok_witems : Forall item_wf (write_set x);
  ok_mutable : Forall (mutable C) (write_set x);
  ok_count : Z.of_nat (length (read_set x) + length (write_set x)) <= RPC_MAX_MSG_CORO;
  ok_keys : NoDup (map ikey (write_set x));
  ok_layout : layout m (map obj (read_set x ++ write_set x));
  ok_record : Logger.sizeof_log_record_t <= Z.of_nat (length (local_log_record x));
  ok_maps : Mappings.replicated (mappings x) /\ Mappings.use_lock_server (mappings x) = false /\
            Mappings.num_backups (mappings x) = cl_nback C;
  ok_home : 0 <= Mappings.machine_id (mappings x) < cl_machines C /\ cl_machines C <= HOTS_MAX_MACHINES /\
            1 <= coro_id x < cl_coros C /\ cl_coros C <= RPC_MAX_CORO;
  ok_pkt : 28 * Z.of_nat (length (read_set x) + length (write_set x)) <= pkt /\ bulk C (write_set x) + 16 <= pkt
}.

(** The application works on a memory that holds the values read, does not fail, and
    leaves objects that can be written. *)
Definition app_ok (app : list byte -> res (option (list byte))) (x : tx) (m0 : list byte) : Prop :=
  forall m vr vw, length m = length m0 ->
    Forall2 (mem_read C m) (read_set x) vr -> Forall2 (mem_write C m) (write_set x) vw ->
    exists r, app m = Ok r /\ forall m', r = Some m' -> length m' = length m /\ Forall (writable C m') (write_set x).

(** What the transaction did: it read [vr], it found [vw] in the keys to write, and it
    wrote what the application left in the objects. *)
Definition did (app : list byte -> res (option (list byte))) (x : tx) (m0 : list byte) (t : txn) : Prop :=
  exists m m' vr vw, length m = length m0 /\
    Forall2 (mem_read C m) (read_set x) vr /\ Forall2 (mem_write C m) (write_set x) vw /\ app m = Ok (Some m') /\
    t = mk_txn (zip_with (fun it v => (rpc_reqtype it, key it, v)) (read_set x) vr)
               (zip_with (fun it v => (rpc_reqtype it, key it, v, newv C m' it)) (write_set x) vw).

(** The transactions that an outcome stands for: one if it is a commit, none if not. *)
Definition does (app : list byte -> res (option (list byte))) (x : tx) (m0 : list byte)
    (o : tx_status_t * tx * list byte) (ts : list txn) : Prop :=
  (o.1.1 = committed /\ exists t, did app x m0 t /\ ts = [t]) \/ (o.1.1 = aborted /\ ts = []).

(** The outcome, for the history since the beginning in world [w0]. *)
Definition outcome (app : list byte -> res (option (list byte))) (x : tx) (m0 : list byte) (w0 : world)
    (o : tx_status_t * tx * list byte) (s : state) : Prop :=
  good s.1 /\ owns [] s.1 /\ exists ts, does app x m0 o ts /\ acts C self ts w0 s.2.

(** ** Items that differ in what execution notes *)

Lemma same_objs its its' : Forall2 same_key its its' -> map obj its' = map obj its.
Proof. induction 1 as [|it it' its its' (_ & _ & E & _) _ IH]; simpl; congruence. Qed.

Lemma same_ikeys its its' : Forall2 same_key its its' -> map ikey its' = map ikey its.
Proof. unfold ikey. induction 1 as [|it it' its its' (E1 & E2 & _) _ IH]; simpl; congruence. Qed.

Lemma same_bulk its its' : Forall2 same_key its its' -> bulk C its' = bulk C its.
Proof. unfold bulk, ivsz. induction 1 as [|it it' its its' (E & _) _ IH]; simpl; [done|]. by rewrite E, IH. Qed.

Lemma same_current w it it' v : same_key it it' -> current C self w it v -> current C self w it' v.
Proof. intros (E1 & E2 & _ & _ & E5 & E6 & _). unfold current, iloc. by rewrite E1, E2, E5, E6. Qed.

Lemma same_writable m its its' :
  Forall2 same_key its its' -> Forall (writable C m) its -> Forall (writable C m) its'.
Proof.
  induction 1 as [|it it' its its' (E1 & E2 & E3 & E4 & _) _ IH]; intros H; [constructor|]. apply Forall_cons in H as [H Hs].
  constructor; [|by apply IH]. unfold writable, newv, value, ivsz in *. by rewrite E1, E2, E3, E4.
Qed.

Lemma same_mem (P : list byte -> tx_rwset_item_t -> option (list byte) -> Prop) m its its' vs :
  (forall it it' v, same_key it it' -> P m it' v -> P m it v) ->
  Forall2 same_key its its' -> Forall2 (P m) its' vs -> Forall2 (P m) its vs.
Proof.
  intros HP H. revert vs. induction H as [|it it' its its' E _ IH]; intros vs Hv; inversion Hv; subst; [constructor|].
  constructor; [by eapply HP|by apply IH].
Qed.

Lemma same_mem_r (P : tx_rwset_item_t -> option (list byte) -> Prop) its its' vs :
  (forall it it' v, same_key it it' -> P it v -> P it' v) ->
  Forall2 same_key its its' -> Forall2 P its vs -> Forall2 P its' vs.
Proof.
  intros HP H. revert vs. induction H as [|it it' its its' E _ IH]; intros vs Hv; inversion Hv; subst; [constructor|].
  constructor; [by eapply HP|by apply IH].
Qed.

Lemma same_txn its its' m (vr : list (option (list byte))) :
  Forall2 same_key its its' ->
  zip_with (fun it v => (rpc_reqtype it, key it, v)) its' vr = zip_with (fun it v => (rpc_reqtype it, key it, v)) its vr /\
  zip_with (fun it v => (rpc_reqtype it, key it, v, newv C m it)) its' vr =
  zip_with (fun it v => (rpc_reqtype it, key it, v, newv C m it)) its vr.
Proof.
  intros H. revert vr. induction H as [|it it' its its' (E1 & E2 & E3 & E4 & _) _ IH]; intros [|v vr]; simpl; try done.
  destruct (IH vr) as [-> ->]. unfold newv, value, ivsz. by rewrite E1, E2, E3, E4.
Qed.

Lemma current_snapshot x m' vr vw w :
  Forall item_wf (read_set x) -> Forall item_wf (write_set x) -> NoDup (map ikey (write_set x)) ->
  Forall2 (current C self w) (read_set x) vr -> Forall2 (locked C self w) (write_set x) vw ->
  let t := mk_txn (zip_with (fun it v => (rpc_reqtype it, key it, v)) (read_set x) vr)
                  (zip_with (fun it v => (rpc_reqtype it, key it, v, newv C m' it)) (write_set x) vw) in
  snapshot C self t w /\ todo C t = map (wr C m') (write_set x).
Proof.
  intros Hr Hw Hk Hcr Hcw t. split; [split|]; simpl.
  - induction Hcr as [|it v its vs [Hv Hf] _ IH]; [constructor|]. apply Forall_cons in Hr as [Hit Hr]. simpl.
    constructor; [|by apply IH]. split; [apply Hit|]. unfold db. by rewrite <- (iloc_ploc C it Hit).
  - clear Hk. induction Hcw as [|it v its vs [Hv Hf] _ IH]; [constructor|]. apply Forall_cons in Hw as [Hit Hw]. simpl.
    constructor; [|by apply IH]. split; [apply Hit|]. unfold db. by rewrite <- (iloc_ploc C it Hit).
  - assert (map (fun '(ty, k, _, _) => (ty, k)) (zip_with (fun it v => (rpc_reqtype it, key it, v, newv C m' it)) (write_set x) vw)
      = map ikey (write_set x)) as ->; [|done].
    clear -Hcw. induction Hcw as [|it v its vs _ _ IH]; simpl; [done|]. by rewrite IH.
  - unfold todo. simpl. clear -Hcw Hw. induction Hcw as [|it v its vs _ _ IH]; [done|]. apply Forall_cons in Hw as [Hit Hw].
    simpl. rewrite IH by done. unfold wr. by rewrite (iloc_ploc C it Hit).
Qed.

(** ** Rules for the parts of a transaction *)

(** What the sizes, the log record and the mappings of a transaction must be. *)
Record fits (x : tx) : Prop := {
  ft_record : Logger.sizeof_log_record_t <= Z.of_nat (length (local_log_record x));
  ft_maps : Mappings.replicated (mappings x) /\ Mappings.use_lock_server (mappings x) = false /\
            Mappings.num_backups (mappings x) = cl_nback C;
  ft_home : 0 <= Mappings.machine_id (mappings x) < cl_machines C /\ cl_machines C <= HOTS_MAX_MACHINES /\
            1 <= coro_id x < cl_coros C /\ cl_coros C <= RPC_MAX_CORO;
  ft_pkt : 28 * Z.of_nat (length (read_set x) + length (write_set x)) <= pkt /\ bulk C (write_set x) + 16 <= pkt
}.

(** A transaction in progress that began in world [w0]: the keys that it has read or
    locked have the values [vr] and [vw], and so do their objects in memory [m]; what it
    has read was current at some moment. *)
Record phase (w0 : world) (x : tx) (m : list byte) (vr vw : list (option (list byte))) (s : state) : Prop := {
  ph_run : running C self x vr vw s.1;
  ph_keys : NoDup (map ikey (write_set x));
  ph_layout : layout m (map obj (read_set x ++ write_set x));
  ph_fits : fits x;
  ph_reads : Forall2 (mem_read C m) (take (rs_index x) (read_set x)) vr;
  ph_writes : Forall2 (mem_write C m) (take (ws_index x) (write_set x)) vw;
  ph_quiet : Forall (quiet C self []) s.2;
  ph_top : s.1 = top w0 s.2;
  ph_seen : Forall2 (glimpsed C self w0 [] s) (take (rs_index x) (read_set x)) vr
}.

(** A transaction that holds the locks its write set notes, and can be aborted. *)
Record pending (x : tx) (m : list byte) (s : state) : Prop := {
  pe_caller : caller_id x = self;
  pe_items : Forall item_wf (write_set x);
  pe_count : Z.of_nat (length (write_set x)) <= RPC_MAX_MSG_CORO /\ 28 * Z.of_nat (length (write_set x)) <= pkt;
  pe_objs : Forall (fun it => obj_at m (obj it)) (write_set x);
  pe_good : good s.1;
  pe_owns : owns (locked_locs C (write_set x)) s.1;
  pe_quiet : Forall (quiet C self []) s.2
}.

Lemma tx_fits x m : tx_ok x m -> fits x.
Proof. by intros []. Qed.

Lemma phase_start x m w : tx_ok x m -> good w -> owns [] w -> phase w x m [] [] (w, []).
Proof.
  intros Hx Hg Hown. pose proof (tx_fits x m Hx) as Hf. destruct Hx. destruct ok_index0 as [E1 E2].
  split; rewrite ?E1, ?E2; try done; try constructor; try done.
  - lia.
  - by rewrite E2.
  - rewrite E1. constructor.
  - rewrite E2. constructor.
Qed.

Lemma layout_objs m its : layout m (map obj its) -> Forall (fun it => obj_at m (obj it)) its.
Proof. induction its as [|it its IH]; constructor; [apply H|apply IH, H]. Qed.

Lemma layout_perm m os os' : os ≡ₚ os' -> layout m os -> layout m os'.
Proof.
  induction 1 as [|o os os' Hp IH|o o' os|os1 os2 os3 _ IH1 _ IH2]; simpl; [done| | |auto].
  - intros (H1 & H2 & H3). split; [done|]. split; [by rewrite <- Hp|auto].
  - intros (H1 & H2 & H3 & H4 & H5). apply Forall_cons in H2 as [H2 H2']. split; [done|]. split; [|done].
    apply Forall_cons. split; [unfold apart in *; lia|done].
Qed.

(** The objects that [do_read] fills are apart from each other and from those that have
    been filled before. *)
Lemma read_layout x m :
  layout m (map obj (read_set x ++ write_set x)) ->
  let unread := map obj (drop (rs_index x) (read_set x) ++ drop (ws_index x) (write_set x)) in
  layout m unread /\
  Forall (fun it => Forall (apart (obj it)) unread /\ 0 <= obj it) (take (rs_index x) (read_set x) ++ take (ws_index x) (write_set x)).
Proof.
  set (a := take (rs_index x) (read_set x)). set (b := drop (rs_index x) (read_set x)).
  set (c := take (ws_index x) (write_set x)). set (d := drop (ws_index x) (write_set x)).
  rewrite <- (take_drop (rs_index x) (read_set x)), <- (take_drop (ws_index x) (write_set x)). fold a b c d.
  assert ((a ++ b) ++ c ++ d ≡ₚ (a ++ c) ++ b ++ d) as Hp by solve_Permutation. intros Hly.
  apply (layout_perm m _ (map obj ((a ++ c) ++ b ++ d))) in Hly; [|by apply Permutation_map]. rewrite map_app in Hly.
  apply layout_app in Hly as (H1 & H2 & H3). simpl. split; [done|]. rewrite Forall_map in H3. apply layout_objs in H1.
  apply Forall_and. split; [done|]. eapply Forall_impl; [exact H1|]. by intros it [? _].
Qed.

(** A predicate on objects that is kept for the items that have been read before. *)
Lemma mem_kept (P : list byte -> tx_rwset_item_t -> option (list byte) -> Prop) os m m' its its' vs :
  (forall it it' v, same_key it it' -> P m' it v -> P m' it' v) ->
  (forall it v, item_wf it -> 0 <= obj it -> keeps os m m' -> Forall (apart (obj it)) os -> P m it v -> P m' it v) ->
  keeps os m m' -> Forall item_wf its -> Forall (fun it => Forall (apart (obj it)) os /\ 0 <= obj it) its ->
  Forall2 same_key its its' -> Forall2 (P m) its vs -> Forall2 (P m') its' vs.
Proof.
  intros HP Hkeep Hk Hwf Hap Hs. revert vs. induction Hs as [|it it' its its' E _ IH]; intros vs Hv; inversion Hv; subst; [constructor|].
  apply Forall_cons in Hwf as [Hit Hwf], Hap as [[Ha H0] Hap]. constructor; [|by apply IH]. eapply HP; [exact E|]. by apply Hkeep.
Qed.

(** What has been read stays in memory while other objects are filled. *)
Lemma mem_read_keeps os m m' it v :
  item_wf it -> 0 <= obj it -> keeps os m m' -> Forall (apart (obj it)) os -> mem_read C m it v -> mem_read C m' it v.
Proof.
  intros Hit H0 Hk Ha [Hm Hok]. pose proof (iw_vsz C HC it Hit) as Hvs. assert (sizeof_hots_obj_t = 16 + HOTS_MAX_VALUE) as Esz by done.
  split; [|done]. destruct v as [b|].
  - pose proof (cw_ok C HC _ _ _ (iw_prim C it Hit) Hok) as Hl. destruct Hm as [Hm Hs]. split.
    + rewrite <- Hm. apply (keeps_obj (obj it) os m m' 16 (length b) Hk Ha H0); lia.
    + by eapply sized_keeps.
  - by eapply sized_keeps.
Qed.

Lemma mem_write_keeps os m m' it v :
  item_wf it -> 0 <= obj it -> keeps os m m' -> Forall (apart (obj it)) os -> mem_write C m it v -> mem_write C m' it v.
Proof.
  intros Hit H0 Hk Ha. unfold mem_write. case_decide; [|done]. intros (b & -> & Hh & Hok). exists b. split; [done|].
  split; [|done]. by apply (mem_read_keeps os m m' it (Some b) Hit H0 Hk Ha).
Qed.

Lemma phase_pending w0 x m vr vw s : phase w0 x m vr vw s -> all_read x -> pending x m s.
Proof.
  intros [Hrun _ Hly [_ _ _ Hp] _ _ Hq _ _] [_ Ew]. rewrite map_app in Hly. apply layout_app in Hly as (_ & Hly & _).
  pose proof (run_locks _ _ _ _ _ _ Hrun) as Ho. rewrite Ew, firstn_all in Ho. pose proof (run_count _ _ _ _ _ _ Hrun).
  split; try done; try apply Hrun; [lia|by apply layout_objs].
Qed.

(** [do_read] reads and locks the keys that have been added since the last one, or
    the transaction must abort; which it need not if all that was added are reads of
    tables that are only read. *)
Lemma read_rule w0 x m vr vw s :
  phase w0 x m vr vw s ->
  wp C self pkt (do_read false x m) (fun '(st, x', m') s' =>
    same_tx x x' /\ all_read x' /\ length m' = length m /\ pending x' m' s' /\
    ((st = must_abort /\ ~ (Forall (fixed C) (drop (rs_index x) (read_set x)) /\ drop (ws_index x) (write_set x) = [])) \/
     st = in_progress /\ exists nr nw, phase w0 x' m' (vr ++ nr) (vw ++ nw) s')) s.
Proof.
  intros [Hrun Hkeys Hly Hfit Hmr Hmw Hq Htop Hseen]. destruct s as [w h]. simpl in *. pose proof (ft_pkt _ Hfit) as (Hp1 & Hp2).
  set (rd := drop (rs_index x) (read_set x)). set (wr := drop (ws_index x) (write_set x)).
  destruct (read_layout x m Hly) as (Hlyd & Hap). fold rd wr in Hlyd, Hap. eapply wp_mono.
  { apply (wp_top C self pkt w0 (do_read false x m) (read_post C self x m vr vw w h)); [done|].
    apply (read_keys_ok C HC self pkt Hself x m vr vw w h Hrun); [lia|done]. }
  intros [[st x'] m'] [w' h'] [(Ha & Est & Hsame & Hall & Hk & Hg' & Ho' & Hres) Htop']. simpl in Htop', Hg', Ho', Hres.
  pose proof Hsame as (Eco & Em & Ec & El & Sr & Sw). fold rd wr in Hk. pose proof (proj1 Hk) as Hlen.
  assert (Forall (quiet C self []) h') as Hq'.
  { destruct Ha as (h1 & Eh & Hq1). simpl in Eh. rewrite Eh. apply Forall_app. split; [|done].
    eapply Forall_impl; [exact Hq1|]. intros e [H1 H2]. split; [done|]. intros l Hl. by apply not_elem_of_nil in Hl. }
  assert (layout m' (map obj (read_set x' ++ write_set x'))) as Hly'.
  { rewrite map_app, (same_objs _ _ Sr), (same_objs _ _ Sw), <- map_app. by apply (layout_ext m). }
  pose proof (Forall2_length _ _ _ Sr) as Lr. pose proof (Forall2_length _ _ _ Sw) as Lw. pose proof (run_count _ _ _ _ _ _ Hrun) as Hn.
  split; [done|]. split; [done|]. split; [done|]. split.
  { split; rewrite <- ?Lw; try done; [rewrite Ec; apply Hrun|by eapply item_wf_same; [exact Sw|apply Hrun]|lia|].
    rewrite map_app in Hly'. apply layout_app in Hly' as (_ & Hly' & _). by apply layout_objs. }
  destruct Hres as [[-> Hno]|(-> & nr & nw & Hrun' & Hmr' & Hmw' & Hgl)]; [by left|right]. split; [done|]. exists nr, nw.
  destruct Hall as [E1 E2]. split; try done.
  - by rewrite (same_ikeys _ _ Sw).
  - destruct Hfit as [? ? ? ?]. split; rewrite ?Em, ?El, ?Eco, <- ?Lr, <- ?Lw; try done. by rewrite (same_bulk _ _ Sw).
  - rewrite E1, firstn_all, <- (take_drop (rs_index x) (read_set x')). apply Forall2_app; [|done].
    apply (mem_kept (mem_read C) (map obj (rd ++ wr)) m m' (take (rs_index x) (read_set x))); try done.
    + intros it it' v (K1 & K2 & K3 & _). unfold mem_read. by rewrite K1, K2, K3.
    + intros it v. by apply mem_read_keeps.
    + apply Forall_take, Hrun.
    + by apply Forall_app in Hap as [Hap _].
    + by apply Forall2_take.
  - rewrite E2, firstn_all, <- (take_drop (ws_index x) (write_set x')). apply Forall2_app; [|done].
    apply (mem_kept (mem_write C) (map obj (rd ++ wr)) m m' (take (ws_index x) (write_set x))); try done.
    + intros it it' v (K1 & K2 & K3 & K4 & _). unfold mem_write. by rewrite K1, K2, K3, K4.
    + intros it v. by apply mem_write_keeps.
    + apply Forall_take, Hrun.
    + by apply Forall_app in Hap as [_ Hap].
    + by apply Forall2_take.
  - destruct Ha as (h1 & Eh & _). simpl in Eh. rewrite E1, firstn_all, <- (take_drop (rs_index x) (read_set x')). apply Forall2_app.
    + apply (same_mem_r (glimpsed C self w0 [] (w', h')) (take (rs_index x) (read_set x))).
      * intros it it' v K (hc & hb & E & Hc). exists hc, hb. split; [done|]. by eapply same_current.
      * by apply Forall2_take.
      * eapply Forall2_impl; [exact Hseen|]. intros it v (hc & hb & E & Hc). exists (h1 ++ hc), hb. simpl in *. by rewrite Eh, E, app_assoc.
    + eapply Forall2_impl; [exact Hgl|]. intros it v (hc & hb & E & Hc). exists hc, (hb ++ h). simpl in *. rewrite app_nil_r, top_app, <- Htop. done.
Qed.

(** [abort] gives the locks back. *)
Lemma abort_rule x m s :
  pending x m s ->
  wp C self pkt (abort false x m) (fun '(x', m') s' =>
    x' = with_status aborted x /\ m' = m /\ good s'.1 /\ owns [] s'.1 /\ Forall (quiet C self []) s'.2) s.
Proof.
  intros [Hc Hits [Hn Hp] Hob Hg Ho Hq]. destruct s as [w h]. simpl in *. eapply wp_mono; [by apply (abort_ok C HC self pkt Hself x m w h)|].
  intros [x1 m1] s (-> & -> & Hg1 & Ho1 & (h1 & Eh & Hq1)). split_and!; try done. rewrite Eh. by apply Forall_app.
Qed.

(** A transaction without writes holds nothing. *)
Lemma rdonly_rule x m s : pending x m s -> write_set x = [] -> good s.1 /\ owns [] s.1 /\ Forall (quiet C self []) s.2.
Proof. intros [] E. rewrite E in *. done. Qed.

(** What a transaction that read [vr], found [vw] and left [m] in its objects did. *)
Definition txn_of (x : tx) (vr vw : list (option (list byte))) (m : list byte) : txn :=
  mk_txn (zip_with (fun it v => (rpc_reqtype it, key it, v)) (read_set x) vr)
         (zip_with (fun it v => (rpc_reqtype it, key it, v, newv C m it)) (write_set x) vw).

(** [commit] applies the writes of a transaction at an instant at which everything is
    as the transaction has read it; or it aborts, which a transaction that has read
    from no table that may be written does not. *)
Lemma commit_rule w0 x m vr vw m2 s :
  phase w0 x m vr vw s -> all_read x -> length m2 = length m -> Forall (writable C m2) (write_set x) ->
  wp C self pkt (commit false x m2) (fun '(st, x', m') s' =>
    kin x x' /\ tx_status x' = st /\ length m' = length m /\ good s'.1 /\ owns [] s'.1 /\
    ((st = committed /\ Forall2 (reads_back m') (read_set x) vr /\ acts C self [txn_of x vr vw m2] w0 s'.2) \/
     (st = aborted /\ ~ Forall (fixed C) (read_set x) /\ acts C self [] w0 s'.2))) s.
Proof.
  intros [Hrun Hkeys Hly [Hrec (Mr & Ml & Mb) Hhome (Hp1 & Hp2)] _ _ Hq Htop _] Hall Hl2 Hwr. destruct s as [w h]. simpl in *.
  pose proof (run_count _ _ _ _ _ _ Hrun) as Hn. eapply wp_mono.
  { apply (commit_ok C HC self pkt Hself x m2 vr vw w h Hrun Hall).
    - split; [split|..]; try done; try apply Hrun; lia.
    - by apply (layout_ext m).
    - done. }
  intros [[st x1] m1] s (Hkin & Hst & _ & _ & Hk & Hg1 & Ho1 & Hres). split; [done|]. split; [done|].
  split; [rewrite (proj1 Hk); lia|]. split; [done|]. split; [done|].
  destruct Hres as [(-> & Hcr & Hcw & Hrb & h1 & Eh & Htr)|(-> & Hne & (h1 & Eh & Hq1))]; [left|right]; split; try done.
  - split; [done|]. destruct (current_snapshot x m2 vr vw w) as [Hsn Htd]; try apply Hrun; try done.
    exists [], h1, h. split; [done|]. split; [done|]. split; [rewrite <- Htop; exact Hsn|]. split; [|constructor].
    unfold txn_of. by rewrite Htd.
  - split; [done|]. rewrite Eh. by apply Forall_app.
Qed.

(** A transaction that reads one key is committed by the read itself. *)
Lemma single_read_rule w0 x m v s :
  phase w0 x m [v] [] s -> all_read x -> write_set x = [] -> acts C self [txn_of x [v] [] m] w0 s.2.
Proof.
  intros [Hrun _ _ _ _ _ Hq _ Hseen] [Er _] Ew. rewrite Er, firstn_all in Hseen.
  apply Forall2_cons_inv_r in Hseen as (it & its & (hc & hb & Eh & Hc) & Hnil & Ers). apply Forall2_nil_inv_r in Hnil as ->.
  rewrite app_nil_r in Eh. rewrite Eh in Hq. apply Forall_app in Hq as [Hq1 Hq2].
  exists hc, [], hb. split; [done|]. split; [done|]. split; [|split; [|done]].
  - pose proof (run_ritems _ _ _ _ _ _ Hrun) as Hit. rewrite Ers in Hit. apply Forall_cons in Hit as [Hit _].
    destruct (current_snapshot x m [v] [] (top w0 hb)) as [H _]; [|rewrite Ew..|rewrite Ers|rewrite Ew|exact H]; try by constructor.
    rewrite Ers. by constructor.
  - unfold todo, txn_of. rewrite Ew. constructor.
Qed.

(** ** The outcome of a transaction *)

Section Run.
Context (app : list byte -> res (option (list byte))) (x : tx) (m : list byte).
Context (Hx : tx_ok x m) (Happ : app_ok app x m).

(** After [do_read], both ways to give up lead to an abort. *)
Lemma abort_after_read w0 x' m' s :
  pending x' m' s ->
  wp C self pkt ('(x, m) ← abort false x' m'; Done (aborted, x, m)) (outcome app x m w0) s.
Proof.
  intros Hp. apply wp_bind. eapply wp_mono; [by apply abort_rule|].
  intros [x1 m1] s1 (_ & _ & Hg & Ho & Hq). split; [done|]. split; [done|]. exists []. split; [by right|done].
Qed.

Lemma transaction_ok w :
  good w -> owns [] w -> wp C self pkt (transaction app x m) (outcome app x m w) (w, []).
Proof.
  intros Hg Hown. destruct (ok_index _ _ Hx) as [Er Ew]. unfold transaction. apply wp_bind.
  eapply wp_mono; [by apply (read_rule w x m [] []), phase_start|].
  intros [[st x'] m'] s (Hsame & Hall & Hlen & Hpe & Hres).
  destruct Hres as [[-> _]|(-> & nr & nw & Hph)]; [by apply abort_after_read|]. simpl in Hph |- *.
  pose proof Hsame as (_ & _ & _ & _ & Sr & Sw). pose proof Hph as [_ _ _ _ Hmr Hmw _ _ _]. destruct Hall as [E1 E2].
  rewrite E1, firstn_all in Hmr. rewrite E2, firstn_all in Hmw.
  assert (Forall2 (mem_read C m') (read_set x) nr) as Hmr'.
  { eapply (same_mem (mem_read C)); [|exact Sr|exact Hmr]. intros it it' v (K1 & K2 & K3 & _). unfold mem_read. by rewrite K1, K2, K3. }
  assert (Forall2 (mem_write C m') (write_set x) nw) as Hmw'.
  { eapply (same_mem (mem_write C)); [|exact Sw|exact Hmw]. intros it it' v (K1 & K2 & K3 & K4 & _). unfold mem_write. by rewrite K1, K2, K3, K4. }
  destruct (Happ m' nr nw Hlen Hmr' Hmw') as (r & Eapp & Hr). rewrite Eapp. simpl.
  destruct r as [m2|]; [|by apply abort_after_read]. destruct (Hr m2 eq_refl) as [Hl2 Hwr].
  eapply wp_mono; [by apply (commit_rule w x' m' nr nw m2 s Hph); [|lia|eapply same_writable]|].
  intros [[st x1] m1] s1 (_ & _ & _ & Hg1 & Ho1 & Hres). split; [done|]. split; [done|].
  destruct Hres as [(-> & _ & Hac)|(-> & _ & Hac)]; [|exists []; split; [by right|done]].
  exists [txn_of x' nr nw m2]. split; [|done]. left. split; [done|]. eexists. split; [|done].
  exists m', m2, nr, nw. split; [done|]. split; [done|]. split; [done|]. split; [done|]. unfold txn_of.
  destruct (same_txn _ _ m2 nr Sr) as [<- _]. destruct (same_txn _ _ m2 nw Sw) as [_ <-]. done.
Qed.

End Run.

End Transaction.
End TxTransaction.
