(* ===== verification/TxSession.v ===== *)
(** * Coroutines that run transactions

    What a coroutine that runs any number of transactions, one after another, promises
    ([behaves]), rules to show it, and what a system of such coroutines guarantees:
    the transactions of all coroutines are serializable, each coroutine's in its own
    order. *)

From S2P Require Import Prelude Util Hots FixedTable FixedTableInv FixedTableOps FixedTableSteps Datastore DatastoreSpec RpcDefs.
From S2P Require Import RpcBatch Tx TxWorld TxBuckets TxSpec TxStage TxCommit TxSystem TxSerial TxTransaction.
From Stdlib Require Import ZArith Lia Bool.
From stdpp Require Import base numbers list gmap sets relations.
#[local] Open Scope Z_scope.
Import FixedTable FixedTableInv FixedTableOps FixedTableSteps DatastoreSpec RpcDefs RpcBatch Tx TxWorld TxBuckets TxSpec TxStage TxCommit TxSystem TxSerial TxTransaction.

Module TxSession.

(** ** Coroutines *)

Section Behaviour.
Context (C : cluster) (pkt : Z).

(** From every world in which it holds no lock, the program of coroutine [c] runs
    without fault, does to the world only what other coroutines expect, and ends
    without locks; [does a ts] holds of its result and the transactions it has
    committed. *)
Definition behaves {A} (c : Z) (p : prog A) (does : A -> list txn -> Prop) : Prop :=
  forall w, good C c w -> owns C c [] w ->
    wp C c pkt p (fun a s => good C c s.1 /\ owns C c [] s.1 /\ exists ts, does a ts /\ acts C c ts w s.2) (w, []).

Lemma behaves_mono {A} c (p : prog A) (D D' : A -> list txn -> Prop) :
  behaves c p D -> (forall a ts, D a ts -> D' a ts) -> behaves c p D'.
Proof. intros H HD w Hg Ho. eapply wp_mono; [by apply H|]. intros a s (H1 & H2 & ts & H3 & H4). eauto 10. Qed.

Lemma behaves_done {A} c (a : A) (D : A -> list txn -> Prop) : D a [] -> behaves c (Done a) D.
Proof. intros H w Hg Ho. simpl. split; [done|]. split; [done|]. exists []. split; [done|constructor]. Qed.

Lemma behaves_lift {A} c (r : res A) a (D : A -> list txn -> Prop) : r = Ok a -> D a [] -> behaves c (lift r) D.
Proof. intros ->. by apply behaves_done. Qed.

Lemma behaves_bind {A B} c (p : prog A) (f : A -> prog B) (D1 : A -> list txn -> Prop) (D2 : B -> list txn -> Prop) :
  behaves c p D1 -> (forall a t1, D1 a t1 -> behaves c (f a) (fun b t2 => D2 b (t1 ++ t2))) -> behaves c (p ≫= f) D2.
Proof.
  intros Hp Hf w Hg Ho. apply wp_bind. eapply wp_mono; [apply (wp_top C c pkt w); [done|by apply Hp]|].
  intros a [w1 h1] [(Hg1 & Ho1 & t1 & HD1 & Ha1) Htop]. simpl in *. eapply wp_mono.
  { exact (wp_shift C c pkt h1 (f a) _ w1 [] (Hf a t1 HD1 w1 Hg1 Ho1)). }
  intros b [w2 h2] (h' & Eh & Hg2 & Ho2 & t2 & HD2 & Ha2). simpl in *. subst h2. split; [done|]. split; [done|].
  exists (t1 ++ t2). split; [done|]. apply acts_app; [done|]. by rewrite <- Htop.
Qed.

End Behaviour.

(** ** Sessions *)

(** A transaction of an application: its computation, the transaction with its sets
    filled, and the memory that holds its objects. *)
Record job := mk_job { j_app : list byte -> res (option (list byte)); j_tx : tx; j_mem : list byte }.
Notation outcome_t := (tx_status_t * tx * list byte)%type.
Definition j_caller (j : job) : Z := caller_id (j_tx j).
Definition j_prog (j : job) : prog outcome_t := transaction (j_app j) (j_tx j) (j_mem j).

(** A coroutine chooses its next transaction from what the earlier ones have returned. *)
Notation past := (list (job * outcome_t)).
Fixpoint session (n : nat) (next : past -> option job) (sofar : past) : prog past :=
  match n with
  | O => Done sofar
  | S n =>
      match next sofar with
      | None => Done sofar
      | Some j => o ← j_prog j; session n next (sofar ++ [(j, o)])
      end
  end.

Section Sessions.
Context (C : cluster) (pkt : Z).

Definition job_ok (c : Z) (j : job) : Prop :=
  j_caller j = c /\ caller_wf c /\ tx_ok C c pkt (j_tx j) (j_mem j) /\ app_ok C (j_app j) (j_tx j) (j_mem j).

(** What a transaction has done: committed [t], or aborted. *)
Definition result (jo : job * outcome_t) (o : option txn) : Prop :=
  match o with
  | Some t => jo.2.1.1 = committed /\ did C (j_app jo.1) (j_tx jo.1) (j_mem jo.1) t
  | None => jo.2.1.1 = aborted
  end.

(** What a session has done: the transactions were chosen by [next], and those that
    committed are [ts]. *)
Definition told (next : past -> option job) (l : past) (ts : list txn) : Prop :=
  (forall k jo, l !! k = Some jo -> next (take k l) = Some jo.1) /\
  exists outs, Forall2 result l outs /\ ts = omap id outs.

Lemma job_behaves c j : cluster_wf C -> job_ok c j -> behaves C pkt c (j_prog j) (does C (j_app j) (j_tx j) (j_mem j)).
Proof. intros HC (_ & Hc & Htx & Happ) w Hg Ho. by apply (transaction_ok C HC c pkt Hc (j_app j) (j_tx j) (j_mem j) Htx Happ). Qed.

Lemma session_behaves c next n : forall sofar ts,
  cluster_wf C -> (forall l j, next l = Some j -> job_ok c j) -> told next sofar ts ->
  behaves C pkt c (session n next sofar)
    (fun l ts' => told next l (ts ++ ts') /\ (length l = (length sofar + n)%nat \/ next l = None)).
Proof.
  induction n as [|n IH]; intros sofar ts HC Hnext [Hcho (outs & Hres & ->)]; simpl.
  { apply behaves_done. rewrite app_nil_r. split; [|left; lia]. split; [done|]. by exists outs. }
  destruct (next sofar) as [j|] eqn:Ej.
  2: { apply behaves_done. rewrite app_nil_r. split; [|by right]. split; [done|]. by exists outs. }
  eapply behaves_bind; [apply job_behaves; [done|by eapply Hnext]|]. intros o t1 Hdo.
  assert (exists r, result (j, o) r /\ t1 = omap id [r]) as (r & Hr & ->).
  { destruct Hdo as [(E & t & Hd & ->)|[E ->]]; [by exists (Some t)|by exists None]. }
  eapply behaves_mono; [apply (IH (sofar ++ [(j, o)]) (omap id outs ++ omap id [r])); try done|].
  - split.
    + intros k jo Hk. apply lookup_app_Some in Hk as [Hk|[Hle Hk]].
      * rewrite take_app_le by (apply lookup_lt_Some in Hk; lia). by apply Hcho.
      * destruct (k - length sofar)%nat eqn:E; [|done]. simpl in Hk. injection Hk as <-.
        replace k with (length sofar) by lia. by rewrite take_app_length.
    + exists (outs ++ [r]). split; [by apply Forall2_app; [|constructor]|by rewrite omap_app].
  - intros l ts'. rewrite app_assoc, length_app. simpl. intros [H1 H2]. split; [done|]. destruct H2; [left; lia|by right].
Qed.

(** A coroutine that runs at most [pl_max] transactions. *)
Record plan := mk_plan { pl_caller : Z; pl_next : past -> option job; pl_max : nat }.

Definition plan_ok (pl : plan) : Prop :=
  caller_wf (pl_caller pl) /\ forall l j, pl_next pl l = Some j -> job_ok (pl_caller pl) j.

(** It has run them all: as many as it may, or as many as it chooses. *)
Definition over (pl : plan) (l : past) (ts : list txn) : Prop :=
  told (pl_next pl) l ts /\ (length l = pl_max pl \/ pl_next pl l = None).

End Sessions.

(** ** Coroutines in parallel *)

Section Parallel.
Context (C : cluster) (pkt : Z) (A : Type).

Record coro := mk_coro { co_caller : Z; co_prog : prog A; co_does : A -> list txn -> Prop }.

Definition coro_ok (co : coro) : Prop := caller_wf (co_caller co) /\ behaves C pkt (co_caller co) (co_prog co) (co_does co).

(** The world between transactions: well formed, replicated, and nothing is locked. *)
Definition at_rest (w : world) : Prop :=
  peaceful C w /\ synced C w /\ forall mn ty i, cl_prim C ty = true -> is_unlocked (a_ts (w (mn, ty, i))) = true.

Lemma rest_good c w : at_rest w -> good C c w /\ owns C c [] w.
Proof.
  intros (Hp & Hs & Hu).
  assert (forall mn ty i, cl_prim C ty = true -> ~ a_held c (w (mn, ty, i))) as Hn.
  { intros mn ty i Hty Hh. apply held_unlocked in Hh. by rewrite Hu in Hh. }
  split; [split; [done|]|].
  - intros ty k Hty [Hf|Hh]; [by apply Hs|by apply Hn in Hh].
  - intros mn ty i Hty. split; [intros _; by apply Hn|]. change (occ (mn, ty, i) []) with 0. lia.
Qed.

(** What happens after a coroutine has ended does not concern it. *)
Lemma others_quiet c i tr : Forall (fun e => ev_who e <> i) tr -> Forall (quiet C c []) (view i tr).
Proof.
  intros H. unfold view. apply Forall_map. eapply Forall_impl; [exact H|]. intros e He. simpl. rewrite decide_False by done.
  split; [by intros []|]. intros l Hl. by apply not_elem_of_nil in Hl.
Qed.

Lemma acts_more c ts w0 i tr1 tr2 :
  Forall (fun e => ev_who e <> i) tr2 -> acts C c ts w0 (view i tr1) -> acts C c ts w0 (view i (tr2 ++ tr1)).
Proof.
  intros Ho Ha. unfold view. rewrite map_app, <- (app_nil_r ts). eapply acts_app; [exact Ha|]. by apply others_quiet.
Qed.

(** The specification of the coroutines. *)
Definition spec (cos : list coro) (w0 : world) (i : nat) (a : A) (s : state) : Prop :=
  match cos !! i with
  | Some co => exists ts, co_does co a ts /\ acts C (co_caller co) ts w0 s.2
  | None => False
  end.

Lemma coros_initial cos w0 s :
  Forall coro_ok cos -> at_rest w0 -> initial pkt A (map co_prog cos) w0 s ->
  Forall caller_wf (map co_caller cos) /\ system_ok C pkt A (map co_caller cos) (spec cos w0) s.
Proof.
  intros Hcos Hrest Hinit. split.
  { apply Forall_map. eapply Forall_impl; [exact Hcos|]. by intros co (H & _). }
  apply (initial_ok C pkt A (map co_caller cos) (spec cos w0) (map co_prog cos) w0 s); [by rewrite !length_map| |done].
  intros i c p Hc Hp. rewrite list_lookup_fmap in Hc. rewrite list_lookup_fmap in Hp.
  destruct (cos !! i) as [co|] eqn:Ec; [|done]. simpl in Hc, Hp. injection Hc as <-. injection Hp as <-.
  destruct (Forall_lookup_1 _ _ _ _ Hcos Ec) as (Hwf & Hb). destruct (rest_good (co_caller co) w0 Hrest) as [Hg Hown].
  eapply wp_mono; [by apply Hb|]. intros a s1 (_ & _ & ts & Hd & Ha). unfold spec. rewrite Ec. eauto.
Qed.

Lemma coros_ok cos w0 s s' :
  NoDup (map co_caller cos) -> Forall coro_ok cos -> at_rest w0 ->
  initial pkt A (map co_prog cos) w0 s -> rtc (sys C pkt A) s s' ->
  system_ok C pkt A (map co_caller cos) (spec cos w0) s' /\ peaceful C s'.1.1 /\ synced C s'.1.1 /\
  chain w0 s'.2 s'.1.1 /\ length s'.1.2 = length cos /\ Forall (fun e => ev_who e < length cos)%nat s'.2.
Proof.
  intros Hnd Hcos Hrest Hinit Hrun. destruct (coros_initial cos w0 s Hcos Hrest Hinit) as [Hcl Hok].
  destruct Hinit as (ths & -> & Hths). pose proof (Forall2_length _ _ _ Hths) as Hl. rewrite length_map in Hl.
  destruct (run_trace C pkt _ w0 _ _ Hrun) as (H1 & H2 & H3); [done|constructor|]. simpl in H2, H3.
  destruct (steps_tidy C pkt _ _ _ Hnd Hcl _ _ Hrun Hok) as [T1 T2]. destruct Hrest as (R1 & R2 & _).
  split; [by eapply steps_ok|]. split; [by apply T1|]. split; [by apply T2|]. split; [done|]. rewrite Hl. done.
Qed.

(** What an ended coroutine has done in the whole trace. *)
Lemma ended_ok co cos w0 i w tr a w1 tr1 :
  cos !! i = Some co -> thread_ok C pkt A (spec cos w0) i (co_caller co) w tr (T_end _ a w1 tr1) ->
  exists ts, co_does co a ts /\ acts C (co_caller co) ts w0 (view i tr).
Proof.
  intros Hj [HQ (tr2 & -> & Ho)]. unfold spec in HQ. rewrite Hj in HQ. destruct HQ as (ts & Hd & Ha).
  exists ts. split; [done|]. by apply acts_more.
Qed.

(** The transactions that the coroutines have committed, and an order of all of them:
    it keeps that of each coroutine, every transaction is one that can run alone at its
    place in it, and it leads from the contents [σ] to [σ']. *)
Definition serial (cos : list coro) (ths : list (tstate A)) (σ σ' : Z -> Z -> option (list byte)) (order : list (nat * txn)) : Prop :=
  (forall i co th, cos !! i = Some co -> ths !! i = Some th ->
     exists a w1 tr1, th = T_end _ a w1 tr1 /\ co_does co a (of_coro i order)) /\
  Forall (fun x => x.1 < length cos)%nat order /\
  valid σ order.*2 /\ (forall ty k, cl_prim C ty = true -> final σ order.*2 ty k = σ' ty k).

(** When all coroutines have ended, their transactions are serializable. *)
Lemma serializable_ok cos w0 s w ths tr :
  NoDup (map co_caller cos) -> Forall coro_ok cos -> at_rest w0 ->
  initial pkt _ (map co_prog cos) w0 s -> rtc (sys C pkt _) s (w, ths, tr) ->
  Forall (fun th => exists a w1 tr1, th = T_end _ a w1 tr1) ths ->
  exists order, serial cos ths (db C w0) (db C w) order.
Proof.
  intros Hnd Hcos Hrest Hinit Hrun Hend.
  destruct (coros_ok cos w0 s _ Hnd Hcos Hrest Hinit Hrun) as ([Hlen Hall] & _ & _ & Hch & Hl & Hwho). simpl in Hch, Hl, Hwho.
  destruct (list_choose (fun i co ts => acts C (co_caller co) ts w0 (view i tr) /\ forall th, ths !! i = Some th ->
    exists a w1 tr1, th = T_end _ a w1 tr1 /\ co_does co a ts) cos) as (outs & Hlo & Hout).
  { intros i co Hj. destruct (lookup_lt_is_Some_2 ths i) as [th Hth]; [rewrite Hl; by eapply lookup_lt_Some|].
    destruct (Forall_lookup_1 _ _ _ _ Hend Hth) as (a & w1 & tr1 & ->).
    destruct (ended_ok co cos w0 i w tr a w1 tr1 Hj) as (ts & Hd & Ha).
    - apply (Hall i); [by rewrite list_lookup_fmap, Hj|done].
    - exists ts. split; [done|]. intros th' Hth'. simplify_eq. eauto. }
  destruct (trace_serializable C (map co_caller cos) Hnd outs tr w0 w) as (order & Hp & Hv & Hf).
  - by rewrite length_map.
  - done.
  - by rewrite length_map.
  - intros i c ts Hc Ho. rewrite list_lookup_fmap in Hc. destruct (cos !! i) as [co|] eqn:Ej; [|done]. simpl in Hc. injection Hc as <-.
    by apply (Hout i co ts).
  - exists order. split; [|split; [|done]].
    + intros i co th Hi Hth. destruct (lookup_lt_is_Some_2 outs i) as [ts Ho]; [rewrite Hlo; by eapply lookup_lt_Some|].
      rewrite Hp, Ho. simpl. by apply (Hout i co ts).
    + apply Forall_forall. intros [i t] Hin. simpl. destruct (decide (i < length cos)%nat) as [|Hge]; [done|].
      specialize (Hp i). rewrite lookup_ge_None_2 in Hp by lia. simpl in Hp. exfalso.
      assert (t ∈ of_coro i order) as Ht.
      { unfold of_coro. apply (list_elem_of_fmap_2 snd _ (i, t)). by apply list_elem_of_filter. }
      rewrite Hp in Ht. by apply not_elem_of_nil in Ht.
Qed.

End Parallel.

(** ** Sessions as coroutines *)

Definition plan_coro (C : cluster) (pl : plan) : coro past :=
  mk_coro past (pl_caller pl) (session (pl_max pl) (pl_next pl) []) (over C pl).

Lemma plan_coro_ok C pkt pl : cluster_wf C -> plan_ok C pkt pl -> coro_ok C pkt past (plan_coro C pl).
Proof.
  intros HC [Hc Hn]. split; [done|]. eapply behaves_mono; [apply (session_behaves C pkt _ _ _ [] []); try done|].
  - split; [done|]. by exists [].
  - done.
Qed.
End TxSession.
