(* ===== verification/TxCluster.v ===== *)
(** * The cluster of a mapping, and the transactions of its coroutines

    The placement that [Mappings] computes meets what the transactions rely on, and
    the items that [add_to_read_set] and [add_to_write_set] build are on the machines
    of that placement. *)

From S2P Require Import Prelude Util City Hots Mappings FixedTable FixedTableInv FixedTableOps FixedTableSteps Datastore.
From S2P Require Import DatastoreSpec RpcDefs RpcBatch Logger Tx TxWorld TxMem TxSpec TxExec TxUpdate TxStage TxTransaction.
From Stdlib Require Import ZArith Lia Bool.
From stdpp Require Import base numbers list gmap sets relations.
#[local] Open Scope Z_scope.
Import FixedTable FixedTableOps DatastoreSpec RpcDefs RpcBatch Tx TxWorld TxMem TxSpec TxExec TxUpdate TxStage TxTransaction.

Module TxCluster.

(** ** Placement *)

(** The RPC types of the stores: the primaries, and [ty + r] for the [r]-th backup of
    primary type [ty]; which of them are only read; and the values that the applications store in them. *)
Record types := mk_types { ty_prim : Z -> bool; ty_ro : Z -> bool; ty_vsz : Z -> Z; ty_ok : Z -> Z -> option (list byte) -> Prop }.

Record types_ok (T : types) (nback : Z) : Prop := {
  tk_range ty : ty_prim T ty = true -> RPC_MICA_REQ_BASE <= ty /\ ty + HOTS_MAX_BACKUPS <= RPC_MAX_REQ_TYPE;
  tk_vsz ty : ty_prim T ty = true -> 0 <= ty_vsz T ty <= HOTS_MAX_VALUE;
  tk_ok ty k v : ty_prim T ty = true -> ty_ok T ty k (Some v) -> Z.of_nat (length v) = ty_vsz T ty;
  tk_back ty r : ty_prim T ty = true -> 1 <= r <= nback -> ty_prim T (ty + r) = false /\ ty_vsz T (ty + r) = ty_vsz T ty;
  tk_spacing ty ty' r r' : ty_prim T ty = true -> ty_prim T ty' = true ->
    0 <= r <= nback -> 0 <= r' <= nback -> ty + r = ty' + r' -> ty = ty'
}.

(** A type that is a primary or a backup of one. *)
Definition in_use (T : types) (nback ty : Z) : bool := existsb (fun r => ty_prim T (ty - r)) (seqZ 0 (1 + nback)).

(** Every data machine has a store of each type in use. *)
Definition cluster_of (mp : Mappings.t) (T : types) (idx : Z -> Z -> Z -> nat) (coros : Z) : cluster :=
  mk_cluster
    (fun mn ty => (0 <=? mn) && (mn <? Mappings.tot_primary_machines mp) && in_use T (Mappings.num_backups mp) ty)
    idx (ty_vsz T) (ty_prim T) (ty_ro T) DatastoreSpec.keyhash
    (Mappings.get_primary_mn mp) (fun kh r => Mappings.get_backup_mn mp kh (r - 1))
    (Mappings.num_backups mp) (Mappings.num_machines mp) coros (ty_ok T).

Section Placement.
Context (mp : Mappings.t) (T : types) (idx : Z -> Z -> Z -> nat) (coros : Z).
Context (HM : Mappings.replicated mp) (HT : types_ok T (Mappings.num_backups mp)).
Notation C := (cluster_of mp T idx coros).

Lemma in_use_replica ty r : ty_prim T ty = true -> 0 <= r <= Mappings.num_backups mp -> in_use T (Mappings.num_backups mp) (ty + r) = true.
Proof.
  intros Hp Hr. unfold in_use. apply existsb_exists. exists r. split; [|by replace (ty + r - r) with ty by lia].
  apply list_elem_of_In, elem_of_seqZ. lia.
Qed.

Lemma cluster_of_wf : cluster_wf C.
Proof.
  destruct HM as [Hwf Hr]. pose proof (Mappings.wf_backups mp Hwf) as Hb. pose proof (Mappings.wf_replicas mp Hwf) as [Hn _].
  split; cbn [cl_nback cl_prim cl_vsz cl_has cl_mn cl_back cl_ok cluster_of].
  - done.
  - apply HT.
  - apply HT.
  - apply HT.
  - apply HT.
  - apply HT.
  - intros ty kh Hp. pose proof (Mappings.primary_range mp kh ltac:(lia)) as Hm.
    pose proof (in_use_replica ty 0 Hp ltac:(lia)) as Hu. rewrite Z.add_0_r in Hu. rewrite Hu.
    rewrite (proj2 (Z.leb_le _ _)), (proj2 (Z.ltb_lt _ _)) by lia. done.
  - intros ty kh r Hp Hr'. pose proof (Mappings.primary_range mp kh ltac:(lia)) as Hm. unfold Mappings.get_backup_mn.
    pose proof (Mappings.backup_range mp (Mappings.get_primary_mn mp kh) (r - 1) Hm ltac:(lia) ltac:(lia)).
    rewrite in_use_replica, (proj2 (Z.leb_le _ _)), (proj2 (Z.ltb_lt _ _)) by (done || lia). done.
  - intros kh r r' Hr1 Hr2. unfold Mappings.get_backup_mn. pose proof (Mappings.primary_range mp kh ltac:(lia)) as Hm.
    rewrite !Mappings.backup_mod by lia. intros E. apply Mappings.ring_shift_inj in E; lia.
Qed.

(** ** Items *)

(** What the constructor of an item finds in the memory it is placed in. *)
Definition uninit_ok (un : uninit) : Prop :=
  Z.of_nat (length (un_backup un)) = HOTS_MAX_BACKUPS /\ length (un_pad un) = 14%nat.

Lemma new_item_ok ty k o mode un :
  u 64 k -> k <> kFtInvalidKey -> ty_prim T ty = true -> uninit_ok un ->
  exists it, new_item mp ty k o mode un = Ok it /\ item_wf C it /\
    rpc_reqtype it = ty /\ key it = k /\ obj it = o /\ write_mode it = mode.
Proof.
  intros Hk Hne Hp [Hub Hup]. destruct HM as [Hwf Hr]. pose proof (Mappings.wf_backups mp Hwf) as Hb.
  pose proof (Mappings.wf_replicas mp Hwf) as [Hn _]. destruct (ds_keyhash_ok k) as (kh & Ek & Hu).
  unfold new_item. rewrite Ek, bind_Ok. destruct (Z.eqb_spec (Mappings.tot_primary_machines mp) 0); [lia|].
  eexists. split; [done|]. split; [|done].
  split; cbn [key keyhash rpc_reqtype primary_mn backup_mn pad cluster_of cl_prim cl_hash cl_mn cl_nback cl_back]; try done.
  - unfold DatastoreSpec.keyhash. by rewrite Ek.
  - intros r Hr'. rewrite lookup_app_l by (rewrite length_map, length_seqZ; lia).
    change (@map Z Z) with (@fmap list _ Z Z). rewrite list_lookup_fmap, lookup_seqZ_lt by lia. simpl.
    unfold Mappings.get_backup_mn. do 2 f_equal. lia.
  - rewrite length_app, length_drop, !length_map, !length_seqZ. split; [lia|done].
Qed.

(** ** Filling the sets *)

Inductive add_op : Type :=
| add_read (reqtype key obj : Z) (un : uninit)
| add_write (reqtype key obj : Z) (mode : tx_write_mode_t) (un : uninit).

Definition run_add (o : add_op) (x : tx) : res (Z * tx) :=
  match o with
  | add_read ty k ob un => add_to_read_set ty k ob un x
  | add_write ty k ob mode un => add_to_write_set ty k ob mode un x
  end.

Fixpoint run_adds (ops : list add_op) (x : tx) : res tx :=
  match ops with
  | [] => Ok x
  | o :: ops => '(_, x) ← run_add o x; run_adds ops x
  end.

Definition add_ok (o : add_op) : Prop :=
  match o with
  | add_read ty k _ un => u 64 k /\ k <> kFtInvalidKey /\ ty_prim T ty = true /\ uninit_ok un
  | add_write ty k _ _ un => u 64 k /\ k <> kFtInvalidKey /\ (ty_prim T ty = true /\ ty_ro T ty = false) /\ uninit_ok un
  end.

Definition read_objs (ops : list add_op) : list Z := omap (fun o => match o with add_read _ _ ob _ => Some ob | _ => None end) ops.
Definition write_objs (ops : list add_op) : list Z := omap (fun o => match o with add_write _ _ ob _ _ => Some ob | _ => None end) ops.
Definition keys_read (ops : list add_op) : list (Z * Z) :=
  omap (fun o => match o with add_read ty k _ _ => Some (ty, k) | _ => None end) ops.
Definition write_keys (ops : list add_op) : list (Z * Z) :=
  omap (fun o => match o with add_write ty k _ _ _ => Some (ty, k) | _ => None end) ops.
Definition write_modes (ops : list add_op) : list tx_write_mode_t :=
  omap (fun o => match o with add_write _ _ _ mode _ => Some mode | _ => None end) ops.

(** What the calls add to a transaction. *)
Record added (ops : list add_op) (x x' : tx) : Prop := {
  ad_rest : x' = with_sets (read_set x') (write_set x') (rs_index x) (ws_index x) x;
  ad_reads : exists its, read_set x' = read_set x ++ its /\ Forall (item_wf C) its /\ map obj its = read_objs ops /\
    map ikey its = keys_read ops;
  ad_writes : exists its, write_set x' = write_set x ++ its /\ Forall (item_wf C) its /\ Forall (mutable C) its /\ map obj its = write_objs ops /\
    map ikey its = write_keys ops /\ map write_mode its = write_modes ops
}.

Lemma run_adds_ok ops : forall x,
  mappings x = mp -> Forall add_ok ops -> exists x', run_adds ops x = Ok x' /\ added ops x x'.
Proof.
  induction ops as [|o ops IH]; intros x Hx Ho.
  { exists x. split; [done|]. split; [by destruct x|exists []..]; rewrite app_nil_r; done. }
  apply Forall_cons in Ho as [Ho Hops].
  assert (exists mn x1, run_add o x = Ok (mn, x1) /\ added [o] x x1) as (mn & x1 & E & [A1 (ir & R1 & R2 & R3 & R4) (iw & W1 & W2 & W2' & W3 & W4 & W5)]).
  { destruct o as [ty k ob un|ty k ob mode un]; destruct Ho as (H1 & H2 & H3 & H4); simpl;
      unfold add_to_read_set, add_to_write_set; rewrite Hx.
    - destruct (new_item_ok ty k ob wm_ignore un H1 H2 H3 H4) as (it & E & Hit & Et & Ek & Eo & _). rewrite E, bind_Ok.
      do 2 eexists. split; [done|]. split; [done|exists [it]; simpl; unfold ikey; rewrite Eo, Et, Ek; by rewrite Forall_singleton|].
      exists []. simpl. by rewrite app_nil_r.
    - destruct (new_item_ok ty k ob mode un H1 H2 (proj1 H3) H4) as (it & E & Hit & Et & Ek & Eo & Em). rewrite E, bind_Ok.
      do 2 eexists. split; [done|]. split; [done|exists []; simpl; by rewrite app_nil_r|].
      exists [it]. simpl. unfold ikey, mutable. rewrite Eo, Et, Ek, Em, !Forall_singleton, Et. by destruct H3. }
  cbn [run_adds]. rewrite E, bind_Ok. destruct (IH x1) as (x' & E' & [B1 (jr & S1 & S2 & S3 & S4) (jw & V1 & V2 & V2' & V3 & V4 & V5)]); [by rewrite A1|done|].
  exists x'. split; [done|]. split.
  - rewrite B1, A1. done.
  - exists (ir ++ jr). rewrite S1, R1, app_assoc, !map_app, R3, S3, R4, S4. split; [done|]. split; [by apply Forall_app|]. by destruct o.
  - exists (iw ++ jw). rewrite V1, W1, app_assoc, !map_app, W3, W4, W5, V3, V4, V5. split; [done|]. split; [by apply Forall_app|].
    split; [by apply Forall_app|]. by destruct o.
Qed.

(** ** Built transactions *)

(** The bytes that the updates of all keys take in a message. *)
Definition ops_bulk (ops : list add_op) : Z := foldr (fun tk n => 28 + ty_vsz T tk.1 + n) 0 (write_keys ops).

(** What an application sees to: its keys and objects, how many there are, and that
    their requests fit the packets. *)
Record ops_fit (pkt : Z) (m : list byte) (ops : list add_op) : Prop := {
  of_each : Forall add_ok ops;
  of_count : Z.of_nat (length ops) <= RPC_MAX_MSG_CORO;
  of_keys : NoDup (write_keys ops);
  of_layout : layout m (read_objs ops ++ write_objs ops);
  of_pkt : 28 * Z.of_nat (length ops) <= pkt /\ ops_bulk ops + 16 <= pkt
}.

(** The same with packets of the size that [max_pkt_size] computes for the largest
    value. *)
Record ops_ok (V pkt : Z) (m : list byte) (ops : list add_op) : Prop := {
  op_each : Forall add_ok ops;
  op_count : Z.of_nat (length ops) <= RPC_MAX_MSG_CORO;
  op_keys : NoDup (write_keys ops);
  op_layout : layout m (read_objs ops ++ write_objs ops);
  op_value : 0 <= V <= HOTS_MAX_VALUE /\ Forall (fun tk => ty_vsz T tk.1 <= V) (write_keys ops);
  op_pkt : exists P, max_pkt_size (Z.of_nat (length ops)) V = Ok P /\ P + 16 <= pkt
}.

Lemma ops_split ops : length ops = (length (read_objs ops) + length (write_objs ops))%nat.
Proof. induction ops as [|[] ops IH]; simpl; lia. Qed.

Lemma ops_ok_fit V pkt m ops : ops_ok V pkt m ops -> ops_fit pkt m ops.
Proof.
  intros [H1 H2 H3 H4 [HV HVs] (P & HP & Hle)]. split; try done.
  destruct (max_pkt_bound (Z.of_nat (length ops)) V P ltac:(lia) HV HP) as [B1 _]. split; [nia|].
  assert (ops_bulk ops <= (28 + V) * Z.of_nat (length (write_keys ops))) as Hb.
  { unfold ops_bulk. clear -HVs. induction HVs as [|tk tks H _ IH]; [simpl; lia|]. simpl foldr. simpl length. lia. }
  assert (length (write_keys ops) <= length ops)%nat as Hl by (clear; induction ops as [|[] ops IH]; simpl; lia). nia.
Qed.

Lemma caller_id_wf coro g :
  0 <= coro < RPC_MAX_CORO -> 0 <= g < HOTS_MAX_WORKERS -> int_rep (mk_crid coro g) = coro + 32 * g /\ caller_wf (int_rep (mk_crid coro g)).
Proof.
  change RPC_MAX_CORO with 32. change HOTS_MAX_WORKERS with 8192. intros Hc Hg.
  assert (int_rep (mk_crid coro g) = coro + 32 * g) as E.
  { unfold int_rep. simpl. change (2 ^ HOTS_CORO_ID_BITS) with 32.
    rewrite !wrap_id by (unfold u, HOTS_CORO_ID_BITS; lia). lia. }
  split; [done|]. rewrite E. unfold caller_wf. change kInvalidCallerId with 134217727. lia.
Qed.

(** A transaction object of a coroutine, as the constructor makes it and as earlier
    transactions leave it. *)
Record tx_base (self : Z) (x : tx) : Prop := {
  tb_caller : caller_id x = self /\ caller_wf self;
  tb_maps : mappings x = mp /\ Mappings.use_lock_server mp = false /\ Mappings.num_machines mp <= HOTS_MAX_MACHINES;
  tb_coro : 1 <= coro_id x < coros /\ coros <= RPC_MAX_CORO;
  tb_record : Logger.sizeof_log_record_t <= Z.of_nat (length (local_log_record x))
}.

Lemma base_kin self x x' : kin x x' -> tx_base self x -> tx_base self x'.
Proof. intros (E1 & E2 & E3 & E4) []. split; by rewrite ?E1, ?E2, ?E3, ?E4. Qed.

Lemma make_base coro rec x0 :
  Mappings.use_lock_server mp = false -> Mappings.num_machines mp <= HOTS_MAX_MACHINES -> coro < coros <= RPC_MAX_CORO ->
  Logger.sizeof_log_record_t <= Z.of_nat (length rec) -> Tx.make false coro true mp rec = Ok x0 ->
  caller_id x0 = int_rep (mk_crid coro (Mappings.wrkr_gid mp)) /\ tx_base (caller_id x0) x0.
Proof.
  intros Hls Hnm Hco Hrec Hmk. unfold Tx.make in Hmk. rewrite Hls in Hmk. run_ok Hmk. bool_prop.
  pose proof HM as [Hwf _]. pose proof (Mappings.wf_workers mp Hwf). pose proof (Mappings.wf_gid mp Hwf) as Hg.
  pose proof (Mappings.wf_max mp Hwf). destruct (caller_id_wf coro (Mappings.wrkr_gid mp)) as [_ Hcw]; [lia|lia|].
  split; [done|]. split; try done. simpl. lia.
Qed.

Lemma bulk_keys its : foldr (fun tk n => 28 + ty_vsz T tk.1 + n) 0 (map ikey its) = bulk C its.
Proof. unfold bulk, ivsz. induction its as [|it its IH]; [done|]. cbn [map foldr]. by rewrite IH. Qed.

(** Filled with keys, it is a transaction that can run. *)
Lemma base_filled self pkt m ops x0 :
  tx_base self x0 -> ops_fit pkt m ops ->
  exists x, run_adds ops (start x0) = Ok x /\ added ops (start x0) x /\ tx_ok C self pkt x m.
Proof.
  intros [[Hc Hw] (Hmp & Hls & Hnm) [Hco Hcs] Hrec] [Heach Hcnt Hkeys Hlay Hpkt]. pose proof HM as [Hwf _].
  pose proof (Mappings.wf_workers mp Hwf). pose proof (Mappings.wf_gid mp Hwf) as Hg. pose proof (Mappings.wf_max mp Hwf).
  destruct (run_adds_ok ops (start x0) Hmp Heach) as (x & E & Had). exists x. split; [done|]. split; [done|].
  destruct Had as [Er (ir & Rr & Ri & Ro & Rk) (iw & Wr & Wi & Wm & Wo & Wk & _)]. simpl in Rr, Wr. rewrite Er.
  pose proof (f_equal length Ro) as Lr. pose proof (f_equal length Wo) as Lw. rewrite length_map in Lr, Lw. pose proof (ops_split ops) as Lo.
  rewrite <- Lr, <- Lw in Lo. split; simpl; rewrite ?Rr, ?Wr, ?Hmp; try done.
  - by rewrite <- Lo.
  - by rewrite Wk.
  - by rewrite map_app, Ro, Wo.
  - rewrite (Mappings.wf_machine mp Hwf). split; [|split; [done|lia]]. split; [apply Z.div_pos; lia|apply Z.div_lt_upper_bound; lia].
  - rewrite <- Lo. destruct Hpkt as [P1 P2]. split; [done|]. rewrite <- bulk_keys, Wk in *. done.
Qed.

Lemma built_ok V pkt m ops coro rec x0 :
  Mappings.use_lock_server mp = false -> Mappings.num_machines mp <= HOTS_MAX_MACHINES -> coro < coros <= RPC_MAX_CORO ->
  ops_ok V pkt m ops -> Logger.sizeof_log_record_t <= Z.of_nat (length rec) ->
  Tx.make false coro true mp rec = Ok x0 ->
  exists x, run_adds ops (start x0) = Ok x /\ caller_id x = int_rep (mk_crid coro (Mappings.wrkr_gid mp)) /\
    caller_wf (caller_id x) /\ tx_ok C (caller_id x) pkt x m.
Proof.
  intros Hls Hnm Hco Hops Hrec Hmk. destruct (make_base coro rec x0 Hls Hnm Hco Hrec Hmk) as [Ec Hb].
  destruct (base_filled _ pkt m ops x0 Hb (ops_ok_fit V pkt m ops Hops)) as (x & E & [Er _ _] & Hx). exists x. split; [done|].
  assert (caller_id x = caller_id x0) as -> by (by rewrite Er). split; [done|]. split; [apply Hb|done].
Qed.

End Placement.

(** C19: a transaction that a coroutine builds meets what the transactions rely on.  For
    every mapping that the constructor of [Mappings] accepts, the placement of keys is
    well formed (replicas of a key on different machines that have a store for it); a
    transaction object can be constructed and filled with keys, and its items name the
    machines and backups of that placement, its caller identifier is valid, and its
    requests fit the packets. *)
Theorem built_transactions_ok g nm wpm nb mp T idx coros V pkt m ops coro rec :
  Mappings.make g nm wpm nb false = Ok mp -> nm <= HOTS_MAX_MACHINES -> types_ok T nb ->
  1 <= coro < coros -> coros <= RPC_MAX_CORO -> ops_ok T V pkt m ops -> Logger.sizeof_log_record_t <= Z.of_nat (length rec) ->
  cluster_wf (cluster_of mp T idx coros) /\
  exists x0 x, Tx.make false coro true mp rec = Ok x0 /\ run_adds ops (start x0) = Ok x /\
    caller_id x = int_rep (mk_crid coro g) /\ caller_wf (caller_id x) /\
    tx_ok (cluster_of mp T idx coros) (caller_id x) pkt x m.
Proof.
  intros Hm Hnm HT Hc Hcs Hops Hrec. pose proof (Mappings.make_replicated _ _ _ _ _ _ Hm (or_introl eq_refl)) as HM.
  apply Mappings.make_fields in Hm as (Eg & En & _ & Eb & El). rewrite <- Eb in HT. split; [by apply cluster_of_wf|].
  assert (exists x0, Tx.make false coro true mp rec = Ok x0) as [x0 Hmk].
  { unfold Tx.make. rewrite El, (proj2 (Z.leb_le _ _)), (proj2 (Z.ltb_lt _ _)) by lia. simpl. eauto. }
  destruct (built_ok mp T idx coros HM V pkt m ops coro rec x0) as (x & E & Ec & Hw & Hx); try done; [by rewrite En|lia|].
  exists x0, x. rewrite <- Eg. done.
Qed.
End TxCluster.
