(* ===== verification/TxStore.v ===== *)
(** * Transactions on concrete stores

    The same system with the data structures of the code in place of the abstract
    buckets: every request is served by the RPC handler of a MICA table or of a
    logger.  The tables implement the buckets that the transactions are specified
    with, so transactions that run on them are serializable. *)

From S2P Require Import Prelude Util Hots Mappings FixedTable FixedTableInv FixedTableOps FixedTableInit FixedTableSteps Datastore.
From S2P Require Import DatastoreSpec RpcDefs RpcBatch Logger Tx TxWorld TxBuckets TxSpec TxSystem TxSerial.
From S2P Require Import TxTransaction TxSession.
From Stdlib Require Import ZArith Lia Bool FunctionalExtensionality.
From stdpp Require Import base numbers list gmap sets relations.
#[local] Open Scope Z_scope.
Import RpcDefs RpcBatch Tx TxWorld TxSystem TxSerial TxTransaction TxSession FixedTable FixedTableInv FixedTableOps FixedTableInit FixedTableSteps DatastoreSpec.

Module TxStore.

(** The tables of the cluster, by machine and RPC type, and the loggers, by machine
    and the index of the worker on it. *)
Record stores := mk_stores { st_table : Z -> Z -> table; st_log : Z -> Z -> Logger.t }.

Definition upd2 {T} (f : Z -> Z -> T) (a b : Z) (x : T) : Z -> Z -> T :=
  fun a' b' => if decide ((a', b') = (a, b)) then x else f a' b'.
Definition set_table (mn ty : Z) (t : table) (st : stores) : stores := mk_stores (upd2 (st_table st) mn ty t) (st_log st).
Definition set_log (mn l : Z) (s : Logger.t) (st : stores) : stores := mk_stores (st_table st) (upd2 (st_log st) mn l s).

Section Stores.
Context (C : cluster).

(** The buckets that the tables stand for. *)
Definition contents (st : stores) : world := fun '(mn, ty, i) =>
  let t := st_table st mn ty in
  if cl_has C mn ty && (i <? Z.to_nat (num_buckets_ t))%nat then view t i else abucket0.

(** The request is handed to the handler of its type; a worker's requests go to the
    worker of the same index [l].  The response buffer has room for a header and a
    value. *)
Inductive handles (l : Z) (st : stores) (q : ureq) : resp -> stores -> Prop :=
| h_ds buf buf' rt len t' :
    RPC_MICA_REQ_BASE <= u_type q -> cl_has C (u_mn q) (u_type q) = true ->
    (8 + Z.to_nat (val_size (st_table st (u_mn q) (u_type q))) <= length buf)%nat ->
    ds_fixedtable_rpc_handler buf (u_payload q) (st_table st (u_mn q) (u_type q)) = Ok (buf', rt, len, t') ->
    handles l st q (Datastore.resptype_code rt, take (Z.to_nat len) buf') (set_table (u_mn q) (u_type q) t' st)
| h_log rt len s' :
    u_type q = RPC_LOGGER_REQ ->
    Logger.logger_rpc_handler (u_payload q) (Z.of_nat (length (u_payload q))) (st_log st (u_mn q) l) = Ok (rt, len, s') ->
    handles l st q (rt, replicate (Z.to_nat len) 0) (set_log (u_mn q) l s' st).

(** ** Well-formed stores *)

Record table_ok (mn ty : Z) (t : table) : Prop := {
  to_inv : Inv t;
  to_prim : is_primary t = cl_prim C ty;
  to_vsz : val_size t = cl_vsz C ty;
  to_idx kh : bidx t kh = cl_idx C mn ty kh;
  to_free i : cl_prim C ty = false -> (i < Z.to_nat (num_buckets_ t))%nat -> is_locked (a_ts (view t i)) = false
}.

Record log_ok (s : Logger.t) : Prop := {
  lo_wf : Logger.wf s;
  lo_size : Logger.num_machines s = cl_machines C /\ Logger.num_coro s = cl_coros C
}.

Record stores_ok (st : stores) : Prop := {
  so_table mn ty : cl_has C mn ty = true -> table_ok mn ty (st_table st mn ty);
  so_log mn l : log_ok (st_log st mn l)
}.

(** ** The handlers implement the service *)

(** A response of the service, as it is sent. *)
Lemma shows_carries rs buf :
  0 <= rs_len rs <= Z.of_nat (length buf) ->
  (forall v, rs_val rs = Some v -> 8 <= rs_len rs -> rs_len rs = 8 + Z.of_nat (length v)) ->
  shows rs buf -> carries rs (take (Z.to_nat (rs_len rs)) buf).
Proof.
  intros Hl Hv [Hts Hval]. split; [rewrite length_take; lia|]. split.
  - intros ts E H8. specialize (Hts ts E). rewrite read_at_ok in Hts by lia. injection Hts as <-.
    by rewrite drop_0, take_take, Nat.min_l by lia.
  - intros v E H8. specialize (Hval v E). pose proof (Hv v E H8) as El. rewrite read_at_ok in Hval by lia. injection Hval as E2.
    rewrite skipn_firstn_comm. etransitivity; [|exact E2]. f_equal. lia.
Qed.

(** The length of a response is that of the header and the value. *)
Lemma handle_length prim vsz rq v a rs a' :
  0 <= vsz -> a_handle prim vsz rq v a = Some (rs, a') ->
  (forall x, a_map a !! rq_key rq = Some x -> Z.of_nat (length x) = vsz) ->
  0 <= rs_len rs <= 8 + vsz /\
  (forall x, rs_val rs = Some x -> 8 <= rs_len rs -> rs_len rs = 8 + Z.of_nat (length x)).
Proof.
  intros Hvs Hh Hval. unfold a_handle, a_get, a_lock_get, a_lock_ins, a_update in Hh.
  repeat (simplify_eq/=; case_match); simplify_eq/=; split; try lia; try done;
    intros x [= <-] _; by rewrite Hval.
Qed.

(** Backups do not touch the lock word. *)
Lemma handle_backup vsz rq v a rs a' : a_handle false vsz rq v a = Some (rs, a') -> a_ts a' = a_ts a.
Proof. unfold a_handle, a_update. intros Hh. repeat (simplify_eq/=; case_match); by simplify_eq/=. Qed.

Lemma contents_at st mn ty kh :
  cl_has C mn ty = true -> table_ok mn ty (st_table st mn ty) ->
  contents st (loc_of C mn ty kh) = view (st_table st mn ty) (bidx (st_table st mn ty) kh).
Proof.
  intros Hh Ht. unfold contents, loc_of. rewrite Hh, <- (to_idx _ _ _ Ht kh). simpl.
  destruct (Inv_bucket _ kh (to_inv _ _ _ Ht)) as (_ & Hlt & _). by rewrite (proj2 (Nat.ltb_lt _ _)).
Qed.

Lemma contents_upd st mn ty kh t' a' :
  cl_has C mn ty = true -> table_ok mn ty (st_table st mn ty) ->
  view_upd (bidx (st_table st mn ty) kh) a' (st_table st mn ty) t' ->
  contents (set_table mn ty t' st) = wupd (loc_of C mn ty kh) a' (contents st).
Proof.
  intros Hh Ht (Hv & Hc & Ho). apply functional_extensionality. intros [[mn' ty'] i]. unfold wupd, loc_of.
  unfold contents, set_table, upd2. cbn [st_table]. destruct (decide ((mn', ty') = (mn, ty))) as [E|E].
  - injection E as -> ->. rewrite Hh, (cfg_nb_eq _ _ Hc), <- (to_idx _ _ _ Ht kh). cbn [andb]. case_decide as Ei.
    + injection Ei as ->. destruct (Inv_bucket _ kh (to_inv _ _ _ Ht)) as (_ & Hlt & _). by rewrite (proj2 (Nat.ltb_lt _ _)).
    + destruct (Nat.ltb_spec i (Z.to_nat (num_buckets_ (st_table st mn ty)))); [|done]. apply Ho; congruence.
  - rewrite decide_False by congruence. done.
Qed.

Lemma table_ok_upd mn ty t kh t' a' :
  table_ok mn ty t -> Inv t' -> view_upd (bidx t kh) a' t t' ->
  (cl_prim C ty = false -> is_locked (a_ts a') = false) -> table_ok mn ty t'.
Proof.
  intros Ht HI (Hv & Hc & Ho) Hts. pose proof Hc as Hc'. unfold cfg in Hc'. injection Hc' as E1 E2 E3 _ _. split.
  - done.
  - rewrite E1. apply Ht.
  - rewrite E2. apply Ht.
  - intros kh'. rewrite (cfg_bidx t t') by done. apply Ht.
  - intros i Hp Hi. rewrite E3 in Hi. destruct (decide (i = bidx t kh)) as [->|Hne].
    + rewrite Hv. by apply Hts.
    + rewrite Ho by done. by apply (to_free _ _ _ Ht).
Qed.

(** What the handler of a table does with a request that the service accepts. *)
Lemma table_serves mn ty t rq payload buf rs a' :
  table_ok mn ty t -> parse_req payload = Ok rq -> addressed rq ->
  (8 + Z.to_nat (val_size t) <= length buf)%nat ->
  (rq_type rq = reqtype_code put -> 24 + val_size t <= Z.of_nat (length payload)) ->
  a_handle (cl_prim C ty) (cl_vsz C ty) rq (take (Z.to_nat (cl_vsz C ty)) (drop 24 payload)) (view t (bidx t (rq_keyhash rq))) = Some (rs, a') ->
  (exists buf' t', ds_fixedtable_rpc_handler buf payload t = Ok (buf', rs_type rs, rs_len rs, t') /\
     carries rs (take (Z.to_nat (rs_len rs)) buf') /\ table_ok mn ty t' /\ view_upd (bidx t (rq_keyhash rq)) a' t t') \/
  (is_ok (ds_fixedtable_rpc_handler buf payload t) = false /\ rq_type rq = reqtype_code put /\
   a_map (view t (bidx t (rq_keyhash rq))) !! rq_key rq = None /\ fl_head t = 0).
Proof.
  intros Ht Hp [Hk Hcl] Hb Hput Hh. pose proof (to_inv _ _ _ Ht) as HI.
  rewrite <- (to_prim _ _ _ Ht), <- (to_vsz _ _ _ Ht) in Hh. fold (stored t (drop 24 payload)) in Hh.
  destruct (Inv_bucket t (rq_keyhash rq) HI) as (_ & Hlt & _).
  destruct (handler_serves t rq payload buf rs a') as [(buf' & t' & E & El & Hs & HI' & Hv)|(E1 & E2 & E3 & E4)]; try done.
  - intros E. apply (to_free _ _ _ Ht); [|done]. by rewrite <- (to_prim _ _ _ Ht).
  - left. exists buf', t'. split; [done|]. assert (0 <= val_size t) as Hvs.
    { destruct HI as [sh (Hc & _)]. destruct (cfg_val t Hc). lia. }
    destruct (handle_length _ _ _ _ _ _ _ Hvs Hh) as [Hl Hx].
    { intros x. by apply (view_val_length t (rq_keyhash rq)). }
    split; [apply shows_carries; [lia|done|done]|]. split; [|done].
    eapply table_ok_upd; [done|done|exact Hv|]. intros Hpr. rewrite (to_prim _ _ _ Ht), Hpr in Hh.
    rewrite (handle_backup _ _ _ _ _ _ Hh). by apply (to_free _ _ _ Ht).
  - by right.
Qed.

Lemma stores_ok_table st mn ty t' :
  stores_ok st -> table_ok mn ty t' -> stores_ok (set_table mn ty t' st).
Proof.
  intros [Ht Hl] H. split; [|done]. intros mn' ty' Hh. simpl. unfold upd2. case_decide as E; [by injection E as -> ->|by apply Ht].
Qed.

Lemma stores_ok_log st mn l s' : stores_ok st -> log_ok s' -> stores_ok (set_log mn l s' st).
Proof. intros [Ht Hl] H. split; [done|]. intros mn' l'. simpl. unfold upd2. by case_decide. Qed.

Lemma log_serves s payload :
  log_ok s -> loggable C payload ->
  exists s', Logger.logger_rpc_handler payload (Z.of_nat (length payload)) s = Ok (Logger.resptype_code Logger.success, 0, s') /\ log_ok s'.
Proof.
  intros [Hwf [Em Ec]] (h & Hr & Hm & Hc & Hl).
  destruct (Logger.save_ok s payload h Hwf) as (s' & Hs & Hwf' & Ec' & Em' & _).
  { split; [done|]. split; [|done]. split; [by rewrite Em|by rewrite Ec]. }
  exists s'. unfold Logger.logger_rpc_handler. rewrite Hs, bind_Ok. split; [done|]. split; [done|]. by rewrite Em', Ec'.
Qed.

(** A request that would end the server's process: a PUT of a new key into a table
    without free buckets. *)
Definition full (st : stores) (q : ureq) : Prop :=
  exists rq, parse_req (u_payload q) = Ok rq /\ rq_type rq = reqtype_code put /\
    let t := st_table st (u_mn q) (u_type q) in
    a_map (view t (bidx t (rq_keyhash rq))) !! rq_key rq = None /\ fl_head t = 0.

(** Requests that the service accepts are handled as it says. *)
Lemma handles_answers l st q r st' :
  stores_ok st -> accepted C (contents st) q -> handles l st q r st' ->
  answers C (contents st) q r (contents st') /\ stores_ok st'.
Proof.
  intros Hst (r0 & w0 & Ha) Hh. destruct Ha as [rq rs a' bs [Hb Hhas] [Hp Had] Hput l0 Hh0 _|Ety Hlg].
  - pose proof (so_table _ Hst _ _ Hhas) as Ht. subst l0. rewrite (contents_at st _ _ _ Hhas Ht) in Hh0.
    destruct Hh as [buf buf' rt len t' _ _ Hbuf E|rt len s' Ety _]; [|rewrite Ety in Hb; by vm_compute in Hb].
    destruct (table_serves _ _ _ rq (u_payload q) buf rs a' Ht Hp Had Hbuf) as [(buf1 & t1 & E1 & Hc & Ht1 & Hv)|(E1 & _)];
      [by rewrite (to_vsz _ _ _ Ht)|done| |by rewrite E in E1].
    rewrite E in E1. injection E1 as <- -> -> <-. split; [|by apply stores_ok_table].
    rewrite (contents_upd st _ _ (rq_keyhash rq) t' a') by done.
    apply (ans_ds C (contents st) q rq rs a' (take (Z.to_nat (rs_len rs)) buf')); try done. by rewrite (contents_at st _ _ _ Hhas Ht).
  - destruct Hh as [buf buf' rt len t' Hb _ _ _|rt len s' _ E]; [rewrite Ety in Hb; by vm_compute in Hb|].
    destruct (log_serves (st_log st (u_mn q) l) (u_payload q)) as (s1 & E1 & Hok); [apply Hst|done|].
    rewrite E in E1. injection E1 as -> -> <-. split; [|by apply stores_ok_log]. by apply ans_log.
Qed.

(** And they are handled, unless a table is full. *)
Lemma handles_some l st q :
  stores_ok st -> accepted C (contents st) q -> (exists r st', handles l st q r st') \/ full st q.
Proof.
  intros Hst (r0 & w0 & Ha). destruct Ha as [rq rs a' bs [Hb Hhas] [Hp Had] Hput l0 Hh0 _|Ety Hlg].
  - pose proof (so_table _ Hst _ _ Hhas) as Ht. subst l0. rewrite (contents_at st _ _ _ Hhas Ht) in Hh0.
    set (t := st_table st (u_mn q) (u_type q)) in *. set (buf := replicate (8 + Z.to_nat (val_size t)) 0).
    assert (8 + Z.to_nat (val_size t) <= length buf)%nat as Hbuf by (unfold buf; by rewrite length_replicate).
    destruct (table_serves _ _ t rq (u_payload q) buf rs a' Ht Hp Had Hbuf) as [(buf1 & t1 & E1 & _)|(_ & H)];
      [by rewrite (to_vsz _ _ _ Ht)|done| |right; by exists rq].
    left. do 2 eexists. by eapply h_ds.
  - left. destruct (log_serves (st_log st (u_mn q) l) (u_payload q)) as (s1 & E1 & _); [apply Hst|done|].
    do 2 eexists. by eapply h_log.
Qed.

(** Stores whose tables are as they were created. *)
Definition fresh_stores (st : stores) : Prop :=
  forall mn ty i, cl_has C mn ty = true -> (i < Z.to_nat (num_buckets_ (st_table st mn ty)))%nat -> view (st_table st mn ty) i = abucket0.

Lemma fresh_contents st l : fresh_stores st -> contents st l = abucket0.
Proof.
  intros Hf. destruct l as [[mn ty] i]. unfold contents. case_match eqn:E; [|done]. apply andb_true_iff in E as [E1 E2].
  apply Nat.ltb_lt in E2. by apply Hf.
Qed.

End Stores.

(** ** The system on concrete stores *)

Section System.
Context (C : cluster) (pkt : Z) (A : Type) (lid : nat -> Z).

(** Coroutine [i] belongs to a worker of index [lid i]. *)
Inductive csys : stores * list (tstate A) * list event -> stores * list (tstate A) * list event -> Prop :=
| c_serve st ths tr i ps k j q r st' :
    ths !! i = Some (T_wait A ps k) -> ps !! j = Some (q, None) -> handles C (lid i) st q r st' ->
    in_range C (contents C st') ->
    csys (st, ths, tr) (st', <[i := T_wait A (<[j := (q, Some r)]> ps) k]> ths, mk_event i q (contents C st) (contents C st') :: tr)
| c_resume st ths tr i reqs rs k p :
    ths !! i = Some (T_wait A (served reqs rs) k) -> length rs = length reqs -> starts pkt A (k rs) p ->
    csys (st, ths, tr) (st, <[i := settle A p (contents C st) tr]> ths, tr).

Definition abs_sys (s : stores * list (tstate A) * list event) : system A :=
  (contents C s.1.1, s.1.2, s.2).

Section Simulation.
Context (callers : list Z) (Q : nat -> A -> state -> Prop) (Hdist : NoDup callers) (Hcallers : Forall caller_wf callers).

Lemma pending_accepted s i ps k j q :
  system_ok C pkt A callers Q s -> s.1.2 !! i = Some (T_wait A ps k) -> ps !! j = Some (q, None) -> accepted C s.1.1 q.
Proof.
  destruct s as [[w ths] tr]. intros [Hl Hall] Hi Hj.
  destruct (lookup_lt_is_Some_2 callers i) as [c Hc]; [rewrite <- Hl; by eapply lookup_lt_Some|].
  destruct (Hall i c _ Hc Hi) as (reqs & s0 & Hr & Hwp). by apply (proj1 Hwp _ _ Hr j q).
Qed.

Lemma csys_sim s s' :
  csys s s' -> stores_ok C s.1.1 -> system_ok C pkt A callers Q (abs_sys s) ->
  sys C pkt A (abs_sys s) (abs_sys s') /\ stores_ok C s'.1.1.
Proof.
  destruct 1 as [st ths tr i ps k j q r st' Hi Hj Hh Hr|st ths tr i reqs rs k p Hi Hl Hs]; intros Hst Hok.
  - destruct (handles_answers C (lid i) st q r st' Hst) as [Ha Hst']; [|done|].
    { by apply (pending_accepted (abs_sys (st, ths, tr)) i ps k j q). }
    split; [|done]. by eapply sys_serve.
  - split; [|done]. by eapply sys_resume.
Qed.

Lemma csys_rtc s s' :
  rtc csys s s' -> stores_ok C s.1.1 -> system_ok C pkt A callers Q (abs_sys s) ->
  rtc (sys C pkt A) (abs_sys s) (abs_sys s') /\ stores_ok C s'.1.1.
Proof.
  induction 1 as [s|s s1 s' Hs _ IH]; intros Hst Hok; [done|].
  destruct (csys_sim s s1 Hs Hst Hok) as [H1 H2]. destruct IH as [H3 H4]; [done|by eapply step_ok|].
  split; [by eapply rtc_l|done].
Qed.

End Simulation.
End System.
(** ** Coroutines on stores *)

Section Coroutines.
Context (C : cluster) (pkt : Z) (A : Type) (lid : nat -> Z).
Notation csys := (csys C pkt A lid).

(** The initial states of the coroutines [cos] on the stores [st]. *)
Definition begins (cos : list (coro A)) (st : stores) (s : stores * list (tstate A) * list event) : Prop :=
  s.1.1 = st /\ initial pkt A (map (co_prog A) cos) (contents C st) (abs_sys C A s).

(** What is asked of a cluster and its coroutines. *)
Record setting (cos : list (coro A)) (st : stores) : Prop := {
  se_callers : NoDup (map (co_caller A) cos);
  se_coros : Forall (coro_ok C pkt A) cos;
  se_stores : stores_ok C st;
  se_rest : at_rest C (contents C st)
}.

(** The states that are reached are those of the abstract system. *)
Lemma reached cos st s s' :
  setting cos st -> begins cos st s -> rtc csys s s' ->
  rtc (sys C pkt A) (abs_sys C A s) (abs_sys C A s') /\ stores_ok C s'.1.1.
Proof.
  intros [Hnd Hcos Hst Hrest] [E Hinit] Hrun.
  destruct (coros_initial C pkt A cos (contents C st) _ Hcos Hrest Hinit) as [Hcl Hok].
  apply (csys_rtc C pkt A lid (map (co_caller A) cos) (spec C A cos (contents C st)) Hnd Hcl s s' Hrun); [by rewrite E|done].
Qed.

Lemma csys_steps s s' : csys s s' -> one_steps (tstep pkt A) s.1.2 s'.1.2.
Proof.
  destruct 1 as [st ths tr i ps k j q r st' Hi Hj Hh Hr|st ths tr i reqs rs k p Hi Hl Hs];
    exists i; do 2 eexists; (split; [exact Hi|]; split; [by econstructor|done]).
Qed.

(** A coroutine that has ended with a result it promises. *)
Definition ended (cos : list (coro A)) (i : nat) (th : tstate A) : Prop :=
  exists co a w tr ts, cos !! i = Some co /\ th = T_end _ a w tr /\ co_does A co a ts.

(** A server has run out of buckets for a key it is to insert, or of versions. *)
Definition exhausted (st : stores) : Prop :=
  (exists q, full st q) \/ exists i q r st', handles C (lid i) st q r st' /\ ~ in_range C (contents C st').

Lemma stuck_thread cos w0 st ths tr i th :
  stores_ok C st -> system_ok C pkt A (map (co_caller A) cos) (spec C A cos w0) (contents C st, ths, tr) ->
  nf csys (st, ths, tr) -> ths !! i = Some th -> ended cos i th \/ exhausted st.
Proof.
  intros Hst Hok Hnf Hi. pose proof Hok as [Hlen Hall].
  destruct (lookup_lt_is_Some_2 (map (co_caller A) cos) i) as [c Hc]; [rewrite <- Hlen; by eapply lookup_lt_Some|].
  pose proof (Hall i c th Hc Hi) as Hth. destruct th as [ps k|a w1 tr1|e]; [right| |done].
  - destruct (batch_progress ps) as [(reqs & rs & -> & Hl)|(j & q & Hj)].
    { destruct Hnf. destruct (starts_total pkt A (k rs)) as [p Hp]. eexists. by eapply c_resume. }
    destruct (handles_some C (lid i) st q Hst) as [(r & st' & Hh)|Hf]; [|right|by left; exists q].
    + by apply (pending_accepted C pkt A _ _ _ i ps k j q Hok).
    + exists i, q, r, st'. split; [done|]. intros Hr. destruct Hnf. eexists. by eapply c_serve.
  - left. rewrite list_lookup_fmap in Hc. destruct (cos !! i) as [co|] eqn:Ej; [|done]. injection Hc as <-.
    destruct (ended_ok C pkt A co cos w0 i (contents C st) tr a w1 tr1 Ej Hth) as (ts & Hd & _).
    by exists co, a, w1, tr1, ts.
Qed.

Lemma coros_count cos st s st' ths tr :
  setting cos st -> begins cos st s -> rtc csys s (st', ths, tr) -> length ths = length cos.
Proof.
  intros Hs Hb Hrun. destruct (reached cos st s _ Hs Hb Hrun) as [Hrun' _]. destruct Hs as [Hnd Hcos _ Hrest].
  apply (coros_ok C pkt A cos (contents C st) _ _ Hnd Hcos Hrest (proj2 Hb) Hrun').
Qed.

Lemma coros_serializable cos st s st' ths tr :
  setting cos st -> begins cos st s -> rtc csys s (st', ths, tr) ->
  Forall (fun th => exists a w1 tr1, th = T_end _ a w1 tr1) ths ->
  exists order, serial C A cos ths (db C (contents C st)) (db C (contents C st')) order.
Proof.
  intros Hs Hb Hrun Hend. destruct (reached cos st s _ Hs Hb Hrun) as [Hrun' _]. destruct Hs as [Hnd Hcos _ Hrest].
  apply (serializable_ok C pkt A cos (contents C st) (abs_sys C A s) (contents C st') ths tr); try done. apply Hb.
Qed.

Lemma coros_safe cos st s st' ths tr :
  setting cos st -> begins cos st s -> rtc csys s (st', ths, tr) ->
  (forall i e, ths !! i <> Some (T_fault _ e)) /\
  (forall i ps k n q, ths !! i = Some (T_wait _ ps k) -> ps !! n = Some (q, None) ->
     (exists r st'', handles C (lid i) st' q r st'') \/ full st' q) /\
  stores_ok C st' /\ synced C (contents C st') /\ peaceful C (contents C st').
Proof.
  intros Hs Hb Hrun. destruct (reached cos st s _ Hs Hb Hrun) as [Hrun' Hst']. destruct Hs as [Hnd Hcos _ Hrest].
  destruct (coros_ok C pkt A cos (contents C st) _ _ Hnd Hcos Hrest (proj2 Hb) Hrun') as (Hok & Hp & Hsy & _).
  split; [|split; [|done]].
  - intros i e Hi. destruct Hok as [Hlen Hall].
    destruct (lookup_lt_is_Some_2 (map (co_caller A) cos) i) as [c Hc]; [rewrite <- Hlen; by eapply lookup_lt_Some|].
    apply (Hall i c _ Hc Hi).
  - intros i ps k n q Hi Hq. apply handles_some; [done|]. by apply (pending_accepted C pkt A _ _ _ i ps k n q Hok).
Qed.

Lemma coros_terminate cos st s :
  setting cos st -> begins cos st s ->
  sn csys s /\
  forall st' ths tr, rtc csys s (st', ths, tr) -> nf csys (st', ths, tr) ->
    (forall i th, ths !! i = Some th -> ended cos i th) \/ exhausted st'.
Proof.
  intros Hs Hb. split; [apply (system_sn pkt A _ csys_steps)|]. intros st' ths tr Hrun Hnf.
  destruct (reached cos st s _ Hs Hb Hrun) as [Hrun' Hst']. destruct Hs as [Hnd Hcos _ Hrest].
  destruct (coros_ok C pkt A cos (contents C st) _ _ Hnd Hcos Hrest (proj2 Hb) Hrun') as (Hok & _).
  pose proof (fun i th => stuck_thread cos (contents C st) st' ths tr i th Hst' Hok Hnf) as Hth. clear -Hth.
  revert Hth. generalize (ended cos) as P. induction ths as [|th ths IH]; intros P Hth; [by left|].
  destruct (Hth 0%nat th eq_refl) as [H|H]; [|by right].
  destruct (IH (fun i => P (S i))) as [IH'|IH']; [intros i th' Hi; by apply (Hth (S i))|left|by right].
  intros [|i] th' Hi; [by injection Hi as <-|by apply IH'].
Qed.

End Coroutines.

(** ** Theorems *)

Section Theorems.
Context (C : cluster) (pkt : Z) (lid : nat -> Z).
Notation csys := (csys C pkt past lid).

(** What the theorems ask of a cluster and of the coroutines, each of which chooses its
    transactions one after another. *)
Record hosted (pls : list plan) (st : stores) : Prop := {
  sv_cluster : cluster_wf C;
  sv_callers : NoDup (map pl_caller pls);
  sv_plans : Forall (plan_ok C pkt) pls;
  sv_stores : stores_ok C st;
  sv_rest : at_rest C (contents C st)
}.

Lemma hosted_setting pls st : hosted pls st -> setting C pkt past (map (plan_coro C) pls) st.
Proof.
  intros [HC Hnd Hpl Hst Hr]. split; [|apply Forall_map; eapply Forall_impl; [exact Hpl|]; intros pl; by apply plan_coro_ok|done|done].
  by rewrite map_map.
Qed.

(** C1: transactions on MICA tables are serializable.  Any number of coroutines run any
    number of transactions one after another: each is [do_read], the application's
    computation, and [commit] or [abort], and the application may choose the next one
    from the outcomes so far; the requests are answered by the RPC handlers of the
    tables and loggers in any order.  When all have ended there is an order of the
    committed transactions, which keeps the order of those of each coroutine, such that
    each of them, run alone in that order, reads the values it has read, finds the
    values it has found in the keys it writes, and writes the values the application
    computed from them, and the contents of the primary tables are those after the last
    one.  Aborted transactions leave no trace in the contents. *)
Theorem transactions_serializable pls st s st' ths tr :
  hosted pls st -> begins C pkt past (map (plan_coro C) pls) st s -> rtc csys s (st', ths, tr) ->
  Forall (fun th => exists l w1 tr1, th = T_end _ l w1 tr1) ths ->
  exists order,
    (forall i pl th, pls !! i = Some pl -> ths !! i = Some th ->
       exists l w1 tr1, th = T_end _ l w1 tr1 /\ over C pl l (of_coro i order)) /\
    Forall (fun x => x.1 < length pls)%nat order /\ valid (db C (contents C st)) order.*2 /\
    (forall ty k, cl_prim C ty = true -> final (db C (contents C st)) order.*2 ty k = db C (contents C st') ty k).
Proof.
  intros Hs Hb Hrun Hend.
  destruct (coros_serializable C pkt past lid _ st s st' ths tr (hosted_setting _ _ Hs) Hb Hrun Hend) as (order & H1 & H2 & H3).
  exists order. rewrite length_map in H2. split; [|done]. intros i pl th Hi Hth. apply (H1 i (plan_coro C pl) th); [|done].
  by rewrite list_lookup_fmap, Hi.
Qed.

(** C2: in every state that transactions on MICA tables can reach, no coroutine has
    failed an assertion or left the bounds of its buffers, the handler of every request
    that waits succeeds unless it has to insert a key into a table without free buckets,
    all tables satisfy their invariant, and the backups of every key whose bucket is not
    locked hold what the primary holds. *)
Theorem transactions_safe pls st s st' ths tr :
  hosted pls st -> begins C pkt past (map (plan_coro C) pls) st s -> rtc csys s (st', ths, tr) ->
  (forall i e, ths !! i <> Some (T_fault _ e)) /\
  (forall i ps k n q, ths !! i = Some (T_wait _ ps k) -> ps !! n = Some (q, None) ->
     (exists r st'', handles C (lid i) st' q r st'') \/ full st' q) /\
  stores_ok C st' /\ synced C (contents C st').
Proof.
  intros Hs Hb Hrun. destruct (coros_safe C pkt past lid _ st s st' ths tr (hosted_setting _ _ Hs) Hb Hrun) as (H1 & H2 & H3 & H4 & _).
  done.
Qed.

(** C3: transactions terminate.  No run is infinite, whatever the order in which the
    requests are answered, and in a run that cannot go on all coroutines have ended all
    their transactions with commit or abort, or a server has run out of buckets or of
    version numbers. *)
Theorem transactions_terminate pls st s :
  hosted pls st -> begins C pkt past (map (plan_coro C) pls) st s ->
  sn csys s /\
  forall st' ths tr, rtc csys s (st', ths, tr) -> nf csys (st', ths, tr) ->
    (forall i th, ths !! i = Some th -> exists pl l w1 tr1,
       pls !! i = Some pl /\ th = T_end _ l w1 tr1 /\ (length l = pl_max pl \/ pl_next pl l = None) /\
       Forall (fun jo => jo.2.1.1 = committed \/ jo.2.1.1 = aborted) l) \/
    exhausted C lid st'.
Proof.
  intros Hs Hb. destruct (coros_terminate C pkt past lid _ st s (hosted_setting _ _ Hs) Hb) as [H1 H2].
  split; [done|]. intros st' ths tr Hrun Hnf. destruct (H2 st' ths tr Hrun Hnf) as [H|H]; [left|by right].
  intros i th Hi. destruct (H i th Hi) as (co & l & w1 & tr1 & ts & Hco & -> & Hd).
  rewrite list_lookup_fmap in Hco. destruct (pls !! i) as [pl|]; [|done]. injection Hco as <-.
  exists pl, l, w1, tr1. split; [done|]. split; [done|]. destruct Hd as [[_ (outs & Hr & _)] Hov]. split; [done|].
  clear -Hr. induction Hr as [|jo o l outs Hr _ IH]; constructor; [|done]. destruct o; [left; apply Hr|by right].
Qed.

End Theorems.
End TxStore.
