(* ===== verification/TxDemo.v ===== *)
(** * Running transactions

    An executable scheduler that runs the coroutines of a system one after the other
    on concrete stores, and a cluster of two machines on which it is run: the
    instances at which the theorems on transactions are applied. *)

From S2P Require Import Prelude Util City Hots Mappings FixedTable FixedTableInv FixedTableOps FixedTableInit FixedTableSteps.
From S2P Require Import Datastore DatastoreSpec RpcDefs RpcBatch Logger Tx TxWorld TxMem TxSpec TxExec.
From S2P Require Import TxUpdate TxStage TxLog TxSystem TxSerial TxTransaction TxSession TxCluster TxStore.
From Stdlib Require Import ZArith Lia Bool.
From stdpp Require Import base numbers list gmap sets relations.
#[local] Open Scope Z_scope.
Import RpcDefs RpcBatch Tx TxWorld TxMem TxLog TxSystem TxSerial TxTransaction TxSession TxCluster TxStore.
Import FixedTable FixedTableInv FixedTableOps FixedTableInit DatastoreSpec.

Module TxDemo.

(** ** An executable scheduler *)

Section Drive.
Context (C : cluster) (pkt : Z) {A : Type}.

Definition ts_rangeb (ts : Z) : bool :=
  (kTimestampCanary * 2 ^ 61 <=? ts) && (ts <? kTimestampCanary * 2 ^ 61 + 2 ^ 61 - 4).

(** The versions of all buckets of a table are in range. *)
Definition table_range (t : table) : bool :=
  (num_buckets_ t <=? Z.of_nat (length (buckets_ t))) && forallb (fun b => ts_rangeb (timestamp b)) (buckets_ t).

Definition serve_one (l : Z) (st : stores) (q : ureq) : option (resp * stores) :=
  let t := st_table st (u_mn q) (u_type q) in
  if (RPC_MICA_REQ_BASE <=? u_type q) && cl_has C (u_mn q) (u_type q) then
    match ds_fixedtable_rpc_handler (replicate (8 + Z.to_nat (val_size t)) 0) (u_payload q) t with
    | Ok (buf, rt, len, t') =>
        if table_range t' then Some ((Datastore.resptype_code rt, take (Z.to_nat len) buf), set_table (u_mn q) (u_type q) t' st)
        else None
    | Err _ => None
    end
  else if u_type q =? RPC_LOGGER_REQ then
    match Logger.logger_rpc_handler (u_payload q) (Z.of_nat (length (u_payload q))) (st_log st (u_mn q) l) with
    | Ok (rt, len, s') => Some ((rt, replicate (Z.to_nat len) 0), set_log (u_mn q) l s' st)
    | Err _ => None
    end
  else None.

Fixpoint serve_all (l : Z) (st : stores) (qs : list ureq) : option (list resp * stores) :=
  match qs with
  | [] => Some ([], st)
  | q :: qs =>
      '(r, st) ← serve_one l st q;
      '(rs, st) ← serve_all l st qs;
      Some (r :: rs, st)
  end.

(** A program up to its next batch, with zeroed buffers. *)
Fixpoint advance (p : prog A) : prog A :=
  match p with
  | Start sofar mn k => advance (k (replicate (Z.to_nat (room pkt sofar mn)) 0))
  | _ => p
  end.

Fixpoint drive (l : Z) (p : prog A) (st : stores) : option (A * stores) :=
  match p with
  | Done a => Some (a, st)
  | Fault _ => None
  | Start sofar mn k => drive l (k (replicate (Z.to_nat (room pkt sofar mn)) 0)) st
  | Yield reqs k => '(rs, st) ← serve_all l st reqs; drive l (k rs) st
  end.

(** ** The scheduler runs the system *)

Lemma ts_rangeb_ok ts : ts_rangeb ts = true -> ts_range ts.
Proof. unfold ts_rangeb, ts_range. rewrite andb_true_iff, Z.leb_le, Z.ltb_lt. done. Qed.

Lemma range_bucket0 : ts_range (a_ts abucket0).
Proof. by apply ts_rangeb_ok. Qed.

Lemma table_range_ok t i :
  table_range t = true -> (i < Z.to_nat (num_buckets_ t))%nat -> ts_range (a_ts (view t i)).
Proof.
  unfold table_range. rewrite andb_true_iff, Z.leb_le, forallb_forall. intros [Hl H] Hi.
  destruct (lookup_lt_is_Some_2 (buckets_ t) i) as [b Hb]; [lia|]. unfold view. rewrite Hb. simpl.
  apply ts_rangeb_ok, H. apply list_elem_of_lookup_2 in Hb. by apply list_elem_of_In.
Qed.

Lemma range_set st mn ty t :
  in_range C (contents C st) -> table_range t = true -> in_range C (contents C (set_table mn ty t st)).
Proof.
  intros Hr Ht mn' ty' i Hp. specialize (Hr mn' ty' i Hp). unfold contents, set_table, upd2 in *. cbn [st_table].
  case_decide as E; [|done]. clear Hr. case_match eqn:Eh; [|apply range_bucket0].
  apply andb_true_iff in Eh as [_ Hi]. apply Nat.ltb_lt in Hi. by apply table_range_ok.
Qed.

Lemma serve_one_ok l st q r st' :
  serve_one l st q = Some (r, st') -> in_range C (contents C st) ->
  handles C l st q r st' /\ in_range C (contents C st').
Proof.
  unfold serve_one. intros H Hr. case_match eqn:Eb.
  - apply andb_true_iff in Eb as [Eb Eh]. apply Z.leb_le in Eb.
    destruct (ds_fixedtable_rpc_handler _ _ _) as [[[[buf rt] len] t']|] eqn:E; [|done]. case_match eqn:Er; [|done].
    injection H as <- <-. split; [|by apply range_set].
    eapply h_ds; [done|done| |exact E]. by rewrite length_replicate.
  - case_match eqn:El; [|done]. apply Z.eqb_eq in El.
    destruct (Logger.logger_rpc_handler _ _ _) as [[[rt len] s']|] eqn:E; [|done]. injection H as <- <-.
    split; [|done]. by eapply h_log.
Qed.

Lemma advance_starts (p : prog A) : starts pkt A p (advance p).
Proof.
  induction p as [a|e|sofar mn k IH|reqs k IH]; simpl; [constructor..| |constructor].
  econstructor; [|apply IH]. rewrite length_replicate. lia.
Qed.

Section Runs.
Context (lid : nat -> Z).
Notation csys := (csys C pkt A lid).

(** The requests of a batch are served in order. *)
Lemma serve_all_rtc i k qs : forall done st st' rs ths tr,
  serve_all (lid i) st qs = Some (rs, st') -> in_range C (contents C st) ->
  ths !! i = Some (T_wait A (done ++ sent qs) k) ->
  exists tr', rtc csys (st, ths, tr) (st', <[i := T_wait A (done ++ served qs rs) k]> ths, tr') /\
    in_range C (contents C st') /\ length rs = length qs.
Proof.
  induction qs as [|q qs IH]; intros dn st st' rs ths tr H Hr Hi; simpl in H.
  { injection H as <- <-. exists tr. simpl in *. rewrite list_insert_id by done. split; [apply rtc_refl|done]. }
  destruct (serve_one (lid i) st q) as [[r st1]|] eqn:E1; [|done]. simpl in H.
  destruct (serve_all (lid i) st1 qs) as [[rs1 st2]|] eqn:E2; [|done]. simpl in H. injection H as <- <-.
  destruct (serve_one_ok _ _ _ _ _ E1 Hr) as [Hh Hr1].
  assert ((dn ++ sent (q :: qs)) !! length dn = Some (q, None)) as Hj by (by apply list_lookup_middle).
  pose proof (c_serve C pkt A lid st ths tr i _ k _ q r st1 Hi Hj Hh Hr1) as Hstep.
  assert (<[length dn := (q, Some r)]> (dn ++ sent (q :: qs)) = (dn ++ [(q, Some r)]) ++ sent qs) as Ei.
  { simpl. rewrite <- app_assoc. rewrite <- (Nat.add_0_r (length dn)), insert_app_r. done. }
  rewrite Ei in Hstep.
  destruct (IH (dn ++ [(q, Some r)]) st1 st2 rs1 (<[i := T_wait A ((dn ++ [(q, Some r)]) ++ sent qs) k]> ths)
    (mk_event i q (contents C st) (contents C st1) :: tr)) as (tr' & Hrun & Hr2 & Hl); [done|done| |].
  { rewrite list_lookup_insert_eq; [done|]. by eapply lookup_lt_Some. }
  exists tr'. split; [|simpl; by rewrite Hl]. eapply rtc_l; [exact Hstep|].
  rewrite list_insert_insert_eq, <- (app_assoc dn _ (served _ _)) in Hrun. exact Hrun.
Qed.

(** A coroutine runs to its end. *)
Lemma drive_rtc i p : forall st a st' w0 tr0 ths tr,
  drive (lid i) p st = Some (a, st') -> in_range C (contents C st) -> ths !! i = Some (settle A (advance p) w0 tr0) ->
  exists w1 tr1 tr', rtc csys (st, ths, tr) (st', <[i := T_end A a w1 tr1]> ths, tr') /\ in_range C (contents C st').
Proof.
  induction p as [b|e|sofar mn k IH|reqs k IH]; intros st a st' w0 tr0 ths tr H Hr Hi; simpl in H; [|done| |].
  - injection H as -> ->. exists w0, tr0, tr. simpl in Hi. rewrite list_insert_id by done. split; [apply rtc_refl|done].
  - by apply (IH _ _ _ _ w0 tr0 ths tr) in H.
  - destruct (serve_all (lid i) st reqs) as [[rs st1]|] eqn:E; [|done]. simpl in H, Hi.
    destruct (serve_all_rtc i k reqs [] st st1 rs ths tr E Hr Hi) as (tr1 & Hrun & Hr1 & Hl). simpl in Hrun.
    assert (i < length ths)%nat as Hlt by (by eapply lookup_lt_Some).
    pose proof (c_resume C pkt A lid st1 (<[i := T_wait A (served reqs rs) k]> ths) tr1 i reqs rs k (advance (k rs))) as Hres.
    rewrite list_lookup_insert_eq in Hres by done. specialize (Hres eq_refl Hl (advance_starts (k rs))).
    rewrite list_insert_insert_eq in Hres.
    destruct (IH rs st1 a st' (contents C st1) tr1 (<[i := settle A (advance (k rs)) (contents C st1) tr1]> ths) tr1 H Hr1)
      as (w2 & tr2 & tr' & Hrun' & Hr2); [by apply list_lookup_insert_eq|].
    rewrite list_insert_insert_eq in Hrun'. exists w2, tr2, tr'. split; [|done].
    etransitivity; [exact Hrun|]. eapply rtc_l; [exact Hres|exact Hrun'].
Qed.

(** Two coroutines, one after the other. *)
Lemma drive_two p1 p2 st a st1 b st2 w0 :
  drive (lid 0) p1 st = Some (a, st1) -> drive (lid 1) p2 st1 = Some (b, st2) -> in_range C (contents C st) ->
  exists w1 w2 tr1 tr2 tr,
    rtc csys (st, [settle A (advance p1) w0 []; settle A (advance p2) w0 []], []) (st2, [T_end A a w1 tr1; T_end A b w2 tr2], tr).
Proof.
  intros E1 E2 Hr. destruct (drive_rtc 0 p1 st a st1 w0 [] [settle A (advance p1) w0 []; settle A (advance p2) w0 []] [] E1 Hr eq_refl)
    as (w1 & tr1 & tr & R1 & Hr1).
  destruct (drive_rtc 1 p2 st1 b st2 w0 [] [T_end A a w1 tr1; settle A (advance p2) w0 []] tr E2 Hr1 eq_refl) as (w2 & tr2 & tr' & R2 & _).
  exists w1, w2, tr1, tr2, tr'. etransitivity; [exact R1|exact R2].
Qed.

End Runs.
End Drive.

(** ** Fresh stores *)

Section Fresh.
Context (C : cluster) (st : stores) (Hfresh : fresh_stores C st).

Lemma fresh_rest : (forall ty k, cl_prim C ty = true -> cl_ok C ty k None) -> at_rest C (contents C st).
Proof.
  intros Hnone. split; [|split].
  - split; [|split; [intros ty k Hty; rewrite (fresh_contents C st _ Hfresh); by apply Hnone|intros mn ty i _ _; by rewrite (fresh_contents C st _ Hfresh)]].
    intros mn ty i _. rewrite (fresh_contents C st _ Hfresh). split; [by vm_compute|]. split; [by vm_compute|apply range_bucket0].
  - intros ty k _ _ r _. by rewrite !(fresh_contents C st _ Hfresh).
  - intros mn ty i _. by rewrite (fresh_contents C st _ Hfresh).
Qed.

Lemma fresh_range : in_range C (contents C st).
Proof. intros mn ty i _. rewrite (fresh_contents C st _ Hfresh). apply range_bucket0. Qed.
End Fresh.

(** ** A cluster of two machines

    One worker per machine, one backup per key, one table of 8-byte values (RPC type
    20, its backup 21). *)

Definition mp (g : Z) : Mappings.t := Mappings.mk g 2 1 1 false g 2 2 2 Mappings.INT_MIN false.

Definition tys : types := mk_types (fun ty => ty =? 20) (fun _ => false) (fun _ => 8) (fun _ _ v => forall x, v = Some x -> length x = 8%nat).

Definition tab_of (vsz : Z) (prim : bool) : table :=
  match make 60 vsz 1 prim with Ok t => t | Err _ => mkTable prim 0 0 0 0 0 0 [] end.
Notation tab := (tab_of 8).

Definition C0 : cluster := cluster_of (mp 0) tys (fun _ _ kh => bidx (tab true) kh) 3.

(** New tables, of the sizes and kinds of [T], and new logs. *)
Definition made_idx (T : types) (mn ty kh : Z) : nat := bidx (tab_of (ty_vsz T ty) true) kh.
Definition made_stores (T : types) : stores :=
  mk_stores (fun _ ty => tab_of (ty_vsz T ty) (ty_prim T ty))
    (fun _ _ => Logger.mk 0 0 2 3 (replicate (Z.to_nat (6 * Logger.sizeof_log_record_t)) 0)).

Definition st0 : stores := made_stores tys.

Lemma mp_made g : 0 <= g < 2 -> Mappings.make g 2 1 1 false = Ok (mp g).
Proof. intros H. assert (g = 0 \/ g = 1) as [-> | ->] by lia; reflexivity. Qed.

Lemma mp_replicated g : 0 <= g < 2 -> Mappings.replicated (mp g).
Proof. intros H. eapply Mappings.make_replicated; [by apply mp_made|by left]. Qed.

Lemma tys_ok : types_ok tys 1.
Proof.
  split; unfold tys; cbn [ty_prim ty_vsz ty_ok].
  - intros ty H%Z.eqb_eq. subst ty. split; vm_compute; discriminate.
  - intros ty _. split; vm_compute; discriminate.
  - intros ty k v _ H. by rewrite (H v eq_refl).
  - intros ty r H%Z.eqb_eq Hr. subst ty. split; [apply Z.eqb_neq; lia|done].
  - intros ty ty' r r' H1%Z.eqb_eq H2%Z.eqb_eq _ _ _. congruence.
Qed.

Lemma C0_wf : cluster_wf C0.
Proof. apply cluster_of_wf; [by apply mp_replicated|apply tys_ok]. Qed.

Lemma tab_of_ok vsz prim :
  vsz = 8 \/ vsz = 16 \/ vsz = 40 ->
  let t := tab_of vsz prim in
  Inv t /\ is_primary t = prim /\ val_size t = vsz /\
  (forall i, (i < Z.to_nat (num_buckets_ t))%nat -> view t i = abucket0) /\ num_buckets_mask_ t = num_buckets_mask_ (tab_of vsz true).
Proof.
  intros Hvsz. cbv zeta. unfold tab_of at 1 2 3 4 5 6. destruct (make 60 vsz 1 prim) as [t|] eqn:E.
  2: { exfalso. destruct Hvsz as [-> | [-> | ->]]; destruct prim; vm_compute in E; discriminate. }
  assert (num_buckets_ t + num_extra_buckets_ t < 2 ^ 32 /\ num_buckets_mask_ t = num_buckets_mask_ (tab_of vsz true)) as [H1 H2].
  { destruct Hvsz as [-> | [-> | ->]]; destruct prim; vm_compute in E; injection E as <-; by vm_compute. }
  destruct (make_ok 60 vsz 1 prim t) as (HI & Hp & Hv & Hview); [by destruct Hvsz as [-> | [-> | ->]]|exact E|exact H1|]. split_and!; assumption.
Qed.

Lemma made_ok T :
  (forall ty, ty_vsz T ty = 8 \/ ty_vsz T ty = 16 \/ ty_vsz T ty = 40) ->
  let C := cluster_of (mp 0) T (made_idx T) 3 in stores_ok C (made_stores T) /\ fresh_stores C (made_stores T).
Proof.
  intros Hvsz. split; [split|].
  - intros mn ty _. destruct (tab_of_ok (ty_vsz T ty) (ty_prim T ty) (Hvsz ty)) as (HI & Hp & Hv & Hview & Hm).
    split; cbn [made_stores st_table]; [exact HI|exact Hp|exact Hv| |].
    + intros kh. cbn [cl_idx cluster_of]. unfold made_idx, bidx, calc_bucket_index. by rewrite Hm.
    + intros i _ Hi. by rewrite Hview.
  - intros mn l. split; [|done]. split; cbn; rewrite ?length_replicate; vm_compute; try done; split; discriminate.
  - intros mn ty i _ Hi. destruct (tab_of_ok (ty_vsz T ty) (ty_prim T ty) (Hvsz ty)) as (_ & _ & _ & Hview & _). by apply Hview.
Qed.

Lemma st0_ok : stores_ok C0 st0.
Proof. apply (made_ok tys). by left. Qed.

Lemma st0_fresh : fresh_stores C0 st0.
Proof. apply (made_ok tys). by left. Qed.

(** ** Two coroutines

    The first inserts key 5, twice; the second reads key 5 and, if it is there, inserts
    key 6 with its value. *)

Definition un0 : uninit := mk_uninit [0; 0] false 0 false (replicate 14 0).
Definition mem0 : list byte := replicate 256 0.
Definition rec0 : list byte := replicate (Z.to_nat Logger.sizeof_log_record_t) 0.

Definition tx_of (g : Z) (ops : list add_op) : tx :=
  let x0 := mk_tx 1 (mp g) 0 [] aborted false [] 0 [] 0 0 0 0 in
  match Tx.make false 1 true (mp g) rec0 with
  | Ok x1 => match run_adds ops (start x1) with Ok x => x | Err _ => x0 end
  | Err _ => x0
  end.

(** The application fills in an object of 8 bytes. *)
Definition put_obj (o : nat) (v m : list byte) : option (list byte) :=
  match write_at o (le_bytes 8 8) m with
  | Ok m1 => match write_at (o + 16) v m1 with Ok m2 => Some m2 | Err _ => None end
  | Err _ => None
  end.

Definition ops1 : list add_op := [add_write 20 5 0 wm_insert un0].
Definition app1 (m : list byte) : res (option (list byte)) := Ok (put_obj 0 (le_bytes 8 42) m).
Definition ops2 : list add_op := [add_read 20 5 0 un0; add_write 20 6 64 wm_insert un0].
Definition app2 (m : list byte) : res (option (list byte)) :=
  match obj_val_size m 0, read_at 16 8 m with
  | Ok vs, Ok v => Ok (if vs =? 8 then put_obj 64 v m else None)
  | _, _ => Ok None
  end.

Definition job1 : job := mk_job app1 (tx_of 0 ops1) mem0.
Definition job2 : job := mk_job app2 (tx_of 1 ops2) mem0.
Definition plan1 : plan := mk_plan (j_caller job1) (fun _ => Some job1) 2.
Definition plan2 : plan := mk_plan (j_caller job2) (fun _ => Some job2) 1.
Definition pls : list plan := [plan1; plan2].

Lemma put_obj_ok o v m m' :
  put_obj o v m = Some m' -> length m' = length m /\ read_at o 8 m' = Ok (le_bytes 8 8).
Proof.
  unfold put_obj. destruct (write_at o _ m) as [m1|] eqn:E1; [|done]. destruct (write_at (o + 16) v m1) as [m2|] eqn:E2; [|done].
  intros [= <-]. rewrite (write_at_length _ _ _ _ E2), (write_at_length _ _ _ _ E1). split; [done|].
  rewrite (read_write_at_ne _ _ _ _ o 8 E2) by lia. apply (read_write_at _ (le_bytes 8 8)) in E1. exact E1.
Qed.

Lemma un0_ok : uninit_ok un0.
Proof. done. Qed.

Lemma tx_of_ok g ops :
  0 <= g < 2 -> ops_ok tys 8 1000 mem0 ops ->
  caller_id (tx_of g ops) = int_rep (mk_crid 1 g) /\ caller_wf (caller_id (tx_of g ops)) /\
  tx_ok (cluster_of (mp g) tys (fun _ _ kh => bidx (tab true) kh) 3) (caller_id (tx_of g ops)) 1000 (tx_of g ops) mem0.
Proof.
  intros Hg Hops. unfold tx_of. destruct (Tx.make false 1 true (mp g) rec0) as [x1|] eqn:E; [|done].
  destruct (built_ok (mp g) tys (fun _ _ kh => bidx (tab true) kh) 3 (mp_replicated g Hg) 8 1000 mem0 ops 1 rec0 x1)
    as (x & -> & Hc & Hw & Hx); try done.
Qed.

Lemma same_cluster g : cluster_of (mp g) tys (fun _ _ kh => bidx (tab true) kh) 3 = C0.
Proof. reflexivity. Qed.

Lemma apps_ok g ops app o :
  (forall m, exists r, app m = Ok r /\ forall m', r = Some m' -> exists v, put_obj o v m = Some m') -> (o + 40 <= 256)%nat ->
  Forall (fun it => obj it = Z.of_nat o /\ rpc_reqtype it = 20) (write_set (tx_of g ops)) -> app_ok C0 app (tx_of g ops) mem0.
Proof.
  intros Happ Ho Hits m vr vw Hl _ _. destruct (Happ m) as (r & E & Hp). exists r. split; [done|]. intros m' Em.
  destruct (Hp m' Em) as (v & Hp'). apply put_obj_ok in Hp' as [Hl' Hr].
  split; [done|]. eapply Forall_impl; [exact Hits|]. intros it [Eo _]. unfold TxUpdate.writable. rewrite Eo, Nat2Z.id, Hl', Hl.
  unfold mem0. rewrite length_replicate. unfold TxSpec.ivsz. cbn [C0 cluster_of cl_vsz tys ty_vsz cl_ok ty_ok]. split; [lia|]. split; [lia|]. split; [done|].
  intros x. unfold TxUpdate.newv. case_decide; [|done]. intros [= <-]. unfold TxUpdate.value, TxSpec.ivsz. cbn [C0 cluster_of cl_vsz tys ty_vsz]. rewrite Eo, length_take, length_drop, Hl', Hl.
  unfold mem0. rewrite length_replicate. lia.
Qed.

Lemma ops1_ok : ops_ok tys 8 1000 mem0 ops1.
Proof.
  split.
  - by repeat constructor.
  - by vm_compute.
  - apply NoDup_singleton.
  - by repeat constructor.
  - split; [done|]. by repeat constructor.
  - eexists. split; [reflexivity|done].
Qed.

Lemma ops2_ok : ops_ok tys 8 1000 mem0 ops2.
Proof.
  split.
  - by repeat constructor.
  - by vm_compute.
  - apply NoDup_singleton.
  - split; [done|]. split; [apply Forall_singleton; by left|]. by repeat constructor.
  - split; [done|]. by repeat constructor.
  - eexists. split; [reflexivity|done].
Qed.

Lemma plans_are_ok : Forall (plan_ok C0 1000) pls.
Proof.
  destruct (tx_of_ok 0 ops1 ltac:(lia) ops1_ok) as (_ & W1 & T1). destruct (tx_of_ok 1 ops2 ltac:(lia) ops2_ok) as (_ & W2 & T2).
  rewrite same_cluster in T1, T2. apply Forall_cons. rewrite Forall_singleton.
  split; (split; [assumption|]); cbn [plan1 plan2 pl_caller pl_next]; intros l j [= <-];
    (split; [reflexivity|split; [assumption|split; [assumption|]]]); cbn [job1 job2 j_app j_tx j_mem].
  - apply (apps_ok 0 ops1 app1 0); [|lia|vm_compute; by repeat constructor]. intros m. eexists. split; [reflexivity|].
    intros m' H. by exists (le_bytes 8 42).
  - apply (apps_ok 1 ops2 app2 64); [|lia|vm_compute; by repeat constructor]. intros m. unfold app2.
    destruct (obj_val_size m 0) as [vs|]; [|by exists None]. destruct (read_at 16 8 m) as [v|]; [|by exists None].
    eexists. split; [reflexivity|]. intros m'. case_match; [|done]. intros Hp. by exists v.
Qed.

Lemma demo_hosted : hosted C0 1000 pls st0.
Proof.
  split.
  - apply C0_wf.
  - destruct (tx_of_ok 0 ops1 ltac:(lia) ops1_ok) as (E1 & _). destruct (tx_of_ok 1 ops2 ltac:(lia) ops2_ok) as (E2 & _).
    unfold pls, plan1, plan2, job1, job2, j_caller. cbn [map pl_caller j_tx]. rewrite E1, E2. apply NoDup_cons. split; [|apply NoDup_singleton].
    rewrite list_elem_of_singleton. done.
  - apply plans_are_ok.
  - apply st0_ok.
  - by apply (fresh_rest C0 st0 st0_fresh).
Qed.

(** ** The run *)

Definition lid0 (i : nat) : Z := 0.

Definition prog1 : prog past := session 2 (pl_next plan1) [].
Definition prog2 : prog past := session 1 (pl_next plan2) [].
Definition ths0 : list (tstate past) :=
  [settle past (advance 1000 prog1) (contents C0 st0) []; settle past (advance 1000 prog2) (contents C0 st0) []].
Definition s0 : stores * list (tstate past) * list event := (st0, ths0, []).
Notation cos0 := (map (plan_coro C0) pls).

Lemma demo_begins : begins C0 1000 past cos0 st0 s0.
Proof.
  split; [reflexivity|]. exists ths0. split; [reflexivity|]. unfold ths0, pls. cbn [map].
  repeat (constructor; [eexists; split; [apply advance_starts|reflexivity]|]). constructor.
Qed.

(** The first coroutine runs to its end, then the second one.  The first commits its
    first transaction and aborts the second one. *)
Definition statuses (l : past) : list tx_status_t := map (fun jo => jo.2.1.1) l.

Lemma demo_run :
  exists a b st w1 w2 tr1 tr2 tr,
    rtc (csys C0 1000 past lid0) s0 (st, [T_end _ a w1 tr1; T_end _ b w2 tr2], tr) /\
    statuses a = [committed; aborted] /\ statuses b = [committed].
Proof.
  assert (match drive C0 1000 (lid0 0) prog1 st0 with
          | Some (a, st) =>
              match drive C0 1000 (lid0 1) prog2 st with Some (b, _) => (statuses a, statuses b) | None => ([], []) end
          | None => ([], [])
          end = ([committed; aborted], [committed])) as Hc by (vm_compute; reflexivity).
  destruct (drive C0 1000 (lid0 0) prog1 st0) as [[a st1]|] eqn:E1; [|discriminate].
  destruct (drive C0 1000 (lid0 1) prog2 st1) as [[b st]|] eqn:E2; [|discriminate]. injection Hc as Ha Hb.
  destruct (drive_two C0 1000 lid0 prog1 prog2 st0 a st1 b st (contents C0 st0) E1 E2 (fresh_range C0 st0 st0_fresh))
    as (w1 & w2 & tr1 & tr2 & tr & R).
  exists a, b, st, w1, w2, tr1, tr2, tr. split; [exact R|split; [exact Ha|exact Hb]].
Qed.

(** The number of committed transactions of a session. *)
Lemma over_length pl l ts : over C0 pl l ts -> length ts = length (filter (fun st => st = committed) (statuses l)).
Proof.
  intros [[_ (outs & Hr & ->)] _]. unfold statuses. induction Hr as [|jo o l outs Hr _ IH]; [done|].
  cbn [map]. rewrite filter_cons. destruct o as [t|]; simpl in Hr.
  - destruct Hr as [-> _]. rewrite decide_True by done. exact (f_equal S IH).
  - rewrite Hr, decide_False by done. exact IH.
Qed.

Lemma transactions_serializable_witness :
  exists st order, (length (of_coro 0 order) = 1 /\ length (of_coro 1 order) = 1)%nat /\
    valid (db C0 (contents C0 st0)) order.*2 /\
    (forall ty k, ty_prim tys ty = true -> final (db C0 (contents C0 st0)) order.*2 ty k = db C0 (contents C0 st) ty k).
Proof.
  destruct demo_run as (a & b & st & w1 & w2 & tr1 & tr2 & tr & Hrun & Ha & Hb).
  destruct (transactions_serializable C0 1000 lid0 pls st0 s0 st _ tr demo_hosted demo_begins Hrun)
    as (order & Hres & _ & Hv & Hf).
  - repeat constructor; eauto.
  - exists st, order.
    destruct (Hres 0%nat _ _ eq_refl eq_refl) as (l1 & v1 & r1 & E1 & R1). injection E1 as -> _ _.
    destruct (Hres 1%nat _ _ eq_refl eq_refl) as (l2 & v2 & r2 & E2 & R2). injection E2 as -> _ _.
    split; [|split; [exact Hv|exact Hf]].
    rewrite (over_length _ _ _ R1), (over_length _ _ _ R2), Ha, Hb. split; reflexivity.
Defined.

Lemma transactions_safe_witness :
  exists s, rtc (csys C0 1000 past lid0) s0 s /\ stores_ok C0 s.1.1 /\ synced C0 (contents C0 s.1.1).
Proof.
  destruct demo_run as (a & b & st & w1 & w2 & tr1 & tr2 & tr & Hrun & _).
  destruct (transactions_safe C0 1000 lid0 pls st0 s0 st _ tr demo_hosted demo_begins Hrun) as (_ & _ & H1 & H2).
  eexists. split; [exact Hrun|]. split; [exact H1|exact H2].
Defined.

Lemma transactions_terminate_witness : sn (csys C0 1000 past lid0) s0.
Proof. apply (transactions_terminate C0 1000 lid0 pls st0 s0 demo_hosted demo_begins). Defined.

Lemma built_transactions_ok_witness :
  exists x, run_adds ops2 (start (mk_tx 1 (mp 1) 33 rec0 aborted false [] 0 [] 0 0 0 0)) = Ok x /\ tx_ok C0 33 1000 x mem0.
Proof.
  destruct (built_transactions_ok 1 2 1 1 (mp 1) tys (fun _ _ kh => bidx (tab true) kh) 3 8 1000 mem0 ops2 1 rec0)
    as (_ & x0 & x & Hm & Hx & Hc & _ & Ht).
  - reflexivity.
  - vm_compute. discriminate.
  - apply tys_ok.
  - lia.
  - vm_compute. discriminate.
  - apply ops2_ok.
  - unfold rec0. rewrite length_replicate. vm_compute. discriminate.
  - exists x. assert (x0 = mk_tx 1 (mp 1) 33 rec0 aborted false [] 0 [] 0 0 0 0) as -> by (injection Hm as <-; reflexivity).
    split; [exact Hx|]. rewrite Hc in Ht. exact Ht.
Defined.

(** Two memories whose objects hold different values of 8 bytes. *)
Lemma log_omits_values_witness :
  log_record (tx_of 0 ops1) (le_bytes 8 8 ++ replicate 48 1) = log_record (tx_of 0 ops1) (le_bytes 8 8 ++ replicate 48 2).
Proof. apply (log_omits_values (tx_of 0 ops1)). vm_compute. repeat constructor. Defined.

End TxDemo.
