(* ===== verification/TxApp.v ===== *)
(** * Rules for applications

    What the parts of a transaction of an application do, in terms of the keys it has
    added to its sets and of the local objects it has given for them: the execute phase
    fills the objects, the application changes them, and [commit] writes what they
    hold. *)

From S2P Require Import Prelude Util Hots Mappings FixedTable FixedTableInv FixedTableOps FixedTableSteps Datastore DatastoreSpec.
From S2P Require Import RpcDefs RpcBatch Logger Tx TxWorld TxMem TxSpec TxExec TxUpdate TxStage.
From S2P Require Import TxSerial TxTransaction TxSession TxCluster.
From Stdlib Require Import ZArith Lia Bool.
From stdpp Require Import base numbers list gmap sets relations.
#[local] Open Scope Z_scope.
Import FixedTable FixedTableOps DatastoreSpec RpcDefs RpcBatch Tx TxWorld TxMem TxSpec TxExec TxUpdate TxStage TxSerial TxTransaction TxSession TxCluster.

Module TxApp.

(** The elements of a list, one by one. *)
Ltac each := repeat (apply Forall_cons; split); try apply Forall_nil_2.

Lemma lift_Ok {A B} (a : A) (f : A -> prog B) : lift (Ok a) ≫= f = f a.
Proof. reflexivity. Qed.

(** ** Objects *)

Lemma apart_sym a b : apart a b -> apart b a.
Proof. unfold apart. lia. Qed.

Lemma obj_has_read m o v : obj_has m o v -> read_at (Z.to_nat (o + 16)) (length v) m = Ok v.
Proof. by intros [? _]. Qed.

(** The bytes of a value that an object holds. *)
Lemma obj_has_take m o v : obj_has m o v -> take (length v) (drop (Z.to_nat (o + 16)) m) = v.
Proof. intros [H _]. unfold read_at in H. case_in H; [|done]. by injection H. Qed.

(** A part of the value is overwritten. *)
Lemma obj_has_write m o v k src :
  0 <= o -> obj_has m o v -> (k + length src <= length v)%nat -> Z.of_nat (length v) <= HOTS_MAX_VALUE ->
  exists m', write_at (Z.to_nat (o + 16) + k) src m = Ok m' /\ keeps [o] m m' /\
    obj_has m' o (take k v ++ src ++ drop (k + length src) v).
Proof.
  intros H0 [Hv Hs] Hk Hl. pose proof (read_at_bound _ _ _ _ Hv) as Hb.
  change HOTS_MAX_VALUE with 40 in Hl.
  destruct (write_at_some (Z.to_nat (o + 16) + k) src m) as (m' & Hw & Hl'); [lia|]. exists m'. split; [done|].
  assert (keeps [o] m m') as Hkp.
  { split; [done|]. intros off n Ho. apply Forall_cons in Ho as [Ho _]. change sizeof_hots_obj_t with 56 in Ho.
    apply (read_write_at_ne _ _ _ _ off n Hw). lia. }
  split; [done|]. set (v' := take k v ++ src ++ drop (k + length src) v).
  assert (length v' = length v) as Lv by (unfold v'; rewrite !length_app, length_take, length_drop; lia).
  split; rewrite Lv.
  - by apply (read_write_at_in _ k src m).
  - unfold obj_sized in *. by rewrite (read_write_at_ne _ _ _ _ _ 8 Hw) by lia.
Qed.

Lemma obj_has_keeps m m' os o v :
  keeps os m m' -> Forall (apart o) os -> 0 <= o -> Z.of_nat (length v) <= HOTS_MAX_VALUE -> obj_has m o v -> obj_has m' o v.
Proof.
  intros Hk Ha H0 Hl [Hv Hs]. assert (sizeof_hots_obj_t = 16 + HOTS_MAX_VALUE) as Esz by done. split; [|by eapply sized_keeps].
  rewrite <- Hv. apply (keeps_obj o os m m' 16 (length v) Hk Ha H0); lia.
Qed.

(** A member of the value, between what is before and what is after it. *)
Lemma obj_load m o pre x post :
  0 <= o -> obj_has m o (pre ++ x ++ post) -> read_at (Z.to_nat (o + 16 + Z.of_nat (length pre))) (length x) m = Ok x.
Proof.
  intros H0 [H _]. replace (Z.to_nat (o + 16 + Z.of_nat (length pre))) with (Z.to_nat (o + 16) + length pre)%nat by lia.
  rewrite (read_at_sub _ _ _ _ (length pre) (length x) H) by (rewrite !length_app; lia). by rewrite drop_app_length, take_app_length.
Qed.

Lemma obj_store m o pre x post src :
  0 <= o -> obj_has m o (pre ++ x ++ post) -> length src = length x -> Z.of_nat (length (pre ++ x ++ post)) <= HOTS_MAX_VALUE ->
  exists m', write_at (Z.to_nat (o + 16 + Z.of_nat (length pre))) src m = Ok m' /\ keeps [o] m m' /\ obj_has m' o (pre ++ src ++ post).
Proof.
  intros H0 H Hl Hsz. destruct (obj_has_write m o (pre ++ x ++ post) (length pre) src H0 H) as (m' & E & Hk & Hh); [rewrite !length_app; lia|done|].
  replace (Z.to_nat (o + 16 + Z.of_nat (length pre))) with (Z.to_nat (o + 16) + length pre)%nat by lia.
  exists m'. split; [done|]. split; [done|]. rewrite take_app_length in Hh.
  rewrite Hl, (app_assoc pre x post), <- (length_app pre x), drop_app_length in Hh. done.
Qed.

(** ** Rows in objects *)

(** An object that holds a row. *)
Definition row_at (m : list byte) (o : Z) (bs : list byte) : Prop :=
  obj_at m o /\ obj_has m o bs /\ Z.of_nat (length bs) <= HOTS_MAX_VALUE.

Lemma le_bytes_wrap n x : le_bytes n x = le_bytes n (wrap (8 * Z.of_nat n) x).
Proof.
  revert x. induction n as [|n IH]; intros x; [done|]. unfold le_bytes in *. cbn [replicate unpack]. f_equal.
  - unfold wrap. rewrite Z.mod_mod_divide; [done|]. exists (2 ^ (8 * Z.of_nat n)). rewrite <- Z.pow_add_r by lia. f_equal. lia.
  - rewrite (IH (x / 2 ^ 8)), (IH (wrap _ x / 2 ^ 8)). f_equal. unfold wrap.
    replace (8 * Z.of_nat (S n)) with (8 + 8 * Z.of_nat n) by lia. rewrite Z.pow_add_r, Z.rem_mul_r by lia.
    rewrite (Z.mul_comm (2 ^ 8)), Z.div_add by lia.
    by rewrite (Z.div_small (x mod 2 ^ 8)), Z.add_0_l, Z.mod_mod by (lia || by apply Z.mod_pos_bound).
Qed.

Lemma load_row n m o pre x post :
  row_at m o (pre ++ x ++ post) -> length x = n -> load_le n (o + 16 + Z.of_nat (length pre)) m = Ok (le_val x).
Proof. intros ([H0 _] & Hh & _) <-. unfold load_le. by rewrite (obj_load m o pre x post H0 Hh), bind_Ok. Qed.

Lemma store_row n m o pre x post v :
  row_at m o (pre ++ x ++ post) -> length x = n ->
  exists m', store_le n (o + 16 + Z.of_nat (length pre)) v m = Ok m' /\ keeps [o] m m' /\ row_at m' o (pre ++ le_bytes n v ++ post).
Proof.
  intros ([H0 H1] & Hh & Hl) <-. destruct (obj_store m o pre x post (le_bytes (length x) v) H0 Hh) as (m' & E & Hk & Hh'); [by rewrite length_le_bytes|done|].
  exists m'. split; [done|]. split; [done|]. split; [unfold obj_at; by rewrite (proj1 Hk)|]. split; [done|].
  rewrite !length_app, length_le_bytes in *. lia.
Qed.

Lemma row_keeps m m' o' o bs : keeps [o'] m m' -> apart o o' -> row_at m o bs -> row_at m' o bs.
Proof.
  intros Hk Ha (Hat & Hh & Hl). split; [unfold obj_at; by rewrite (proj1 Hk)|]. split; [|done].
  eapply obj_has_keeps; [exact Hk|by apply Forall_singleton|apply Hat|done|done].
Qed.

Lemma layout_prefix m l l' : layout m (l ++ l') -> layout m l.
Proof. induction l as [|o l IH]; [done|]. cbn [app layout]. intros (H1 & H2 & H3). apply Forall_app in H2 as [H2 _]. split; [done|]. split; [done|by apply IH]. Qed.

(** ** Slots: the keys of a transaction and their objects *)

Notation rslot := (Z * Z * Z)%type.
Notation wslot := (Z * Z * Z * tx_write_mode_t)%type.

Definition rslots (ops : list add_op) : list rslot :=
  omap (fun o => match o with add_read ty k ob _ => Some (ty, k, ob) | _ => None end) ops.
Definition wslots (ops : list add_op) : list wslot :=
  omap (fun o => match o with add_write ty k ob mode _ => Some (ty, k, ob, mode) | _ => None end) ops.

(** The sets of a transaction are those that [ops] have filled. *)
Definition shaped (ops : list add_op) (x : tx) : Prop :=
  map (fun it => (rpc_reqtype it, key it, obj it)) (read_set x) = rslots ops /\
  map (fun it => (rpc_reqtype it, key it, obj it, write_mode it)) (write_set x) = wslots ops.

Lemma slots_concat a b : rslots (a ++ b) = rslots a ++ rslots b /\ wslots (a ++ b) = wslots a ++ wslots b.
Proof. unfold rslots, wslots. by rewrite !omap_app. Qed.

Lemma slots_robjs ops : map (fun sl : rslot => sl.2) (rslots ops) = read_objs ops.
Proof. induction ops as [|[] ops IH]; [done|..]; [|done]. unfold rslots, read_objs in *. simpl. f_equal. exact IH. Qed.
Lemma slots_wobjs ops : map (fun sl : wslot => sl.1.2) (wslots ops) = write_objs ops.
Proof. induction ops as [|[] ops IH]; [done|..]; [done|]. unfold wslots, write_objs in *. simpl. f_equal. exact IH. Qed.
Lemma slots_wkeys ops : map (fun sl : wslot => sl.1.1) (wslots ops) = write_keys ops.
Proof. induction ops as [|[] ops IH]; [done|..]; [done|]. unfold wslots, write_keys in *. simpl. f_equal. exact IH. Qed.

Lemma same_shaped ops x x' : same_tx x x' -> shaped ops x -> shaped ops x'.
Proof.
  intros (_ & _ & _ & _ & Sr & Sw) [Hr Hw]. split.
  - rewrite <- Hr. clear -Sr. induction Sr as [|it it' its its' (E1 & E2 & E3 & _) _ IH]; simpl; congruence.
  - rewrite <- Hw. clear -Sw. induction Sw as [|it it' its its' (E1 & E2 & E3 & E4 & _) _ IH]; simpl; congruence.
Qed.

Section App.
Context (mp : Mappings.t) (T : types) (idx : Z -> Z -> Z -> nat) (coros : Z).
Context (HM : Mappings.replicated mp) (HT : types_ok T (Mappings.num_backups mp)).
Context (self pkt : Z).
Notation C := (cluster_of mp T idx coros).
Notation tx_base := (tx_base mp coros self).

Lemma added_shaped ops x x' : added mp T idx coros ops x x' -> forall ops0, shaped ops0 x -> shaped (ops0 ++ ops) x'.
Proof.
  intros [_ (ir & Er & _ & Or & Kr) (iw & Ew & _ & _ & Ow & Kw & Mw)] ops0 [Hr Hw]. unfold shaped.
  destruct (slots_concat ops0 ops) as [-> ->]. rewrite Er, Ew, !map_app, Hr, Hw. split; f_equal.
  - clear -Or Kr. revert ops Or Kr. induction ir as [|it ir IH]; intros ops Or Kr.
    + induction ops as [|[] ops IHo]; simpl in *; try done. by apply IHo.
    + induction ops as [|[ty k ob un|ty k ob mode un] ops IHo]; simpl in *; try done; [|by apply IHo].
      injection Or as Eo Or. injection Kr as Et Ek Kr. simpl. rewrite Eo, Et, Ek. f_equal. by apply IH.
  - clear -Ow Kw Mw. revert ops Ow Kw Mw. induction iw as [|it iw IH]; intros ops Ow Kw Mw.
    + induction ops as [|[] ops IHo]; simpl in *; try done. by apply IHo.
    + induction ops as [|[ty k ob un|ty k ob mode un] ops IHo]; simpl in *; try done; [by apply IHo|].
      injection Ow as Eo Ow. injection Kw as Et Ek Kw. injection Mw as Em Mw. simpl. rewrite Eo, Et, Ek, Em. f_equal. by apply IH.
Qed.

(** The constructor, for a coroutine of a worker. *)
Lemma coro_base coro_id rec :
  Mappings.use_lock_server mp = false -> Mappings.num_machines mp <= HOTS_MAX_MACHINES -> 1 <= coro_id < coros -> coros <= RPC_MAX_CORO ->
  Logger.sizeof_log_record_t <= Z.of_nat (length rec) ->
  exists x0, Tx.make false coro_id true mp rec = Ok x0 /\ TxCluster.tx_base mp coros (int_rep (mk_crid coro_id (Mappings.wrkr_gid mp))) x0.
Proof.
  intros Hls Hnm Hco Hcs Hrec. destruct (Tx.make false coro_id true mp rec) as [x0|] eqn:E.
  - exists x0. destruct (make_base mp coros HM coro_id rec x0 Hls Hnm ltac:(lia) Hrec E) as [<- Hb]. done.
  - exfalso. unfold Tx.make in E. rewrite Hls in E. cbn [assert_ mbind res_bind] in E.
    rewrite (proj2 (Z.leb_le 1 coro_id)), (proj2 (Z.ltb_lt coro_id RPC_MAX_CORO)) in E by lia. done.
Qed.

(** What the execute phase leaves in the object of a key. *)
Definition slot_read (m : list byte) (sl : rslot) (v : option (list byte)) : Prop :=
  let '(ty, k, o) := sl in
  match v with Some b => obj_has m o b | None => obj_sized m o 0 end /\ cl_ok C ty k v.
Definition slot_write (m : list byte) (sl : wslot) (v : option (list byte)) : Prop :=
  let '(ty, k, o, mode) := sl in
  if decide (mode <> wm_insert) then exists b, v = Some b /\ obj_has m o b /\ cl_ok C ty k v else v = None.

(** What [commit] writes for a key, and what the object must be for that. *)
Definition slot_new (m : list byte) (sl : wslot) : option (list byte) :=
  let '(ty, k, o, mode) := sl in
  if decide (mode <> wm_del) then Some (take (Z.to_nat (ty_vsz T ty)) (drop (Z.to_nat (o + 16)) m)) else None.
Definition slot_ready (m : list byte) (sl : wslot) : Prop :=
  let '(ty, k, o, mode) := sl in
  0 <= o /\ o + 32 + ty_vsz T ty <= Z.of_nat (length m) /\
  read_at (Z.to_nat o) 8 m = Ok (le_bytes 8 (ty_vsz T ty)) /\ cl_ok C ty k (slot_new m sl).

Definition slot_txn (ops : list add_op) (vr vw : list (option (list byte))) (m : list byte) : txn :=
  mk_txn (zip_with (fun '(ty, k, _) v => (ty, k, v)) (rslots ops) vr)
         (zip_with (fun sl v => (sl.1.1.1, sl.1.1.2, v, slot_new m sl)) (wslots ops) vw).

Lemma reads_slots m its vr :
  Forall2 (mem_read C m) its vr -> Forall2 (slot_read m) (map (fun it => (rpc_reqtype it, key it, obj it)) its) vr.
Proof. induction 1 as [|it v its vr H _ IH]; constructor; done. Qed.
Lemma writes_slots m its vw :
  Forall2 (mem_write C m) its vw -> Forall2 (slot_write m) (map (fun it => (rpc_reqtype it, key it, obj it, write_mode it)) its) vw.
Proof. induction 1 as [|it v its vw H _ IH]; constructor; done. Qed.

Lemma ready_writable m its :
  Forall (slot_ready m) (map (fun it => (rpc_reqtype it, key it, obj it, write_mode it)) its) -> Forall (writable C m) its.
Proof. rewrite Forall_map. intros H. eapply Forall_impl; [exact H|]. intros it Hs. exact Hs. Qed.

(** ** The parts of a transaction *)

(** A transaction in progress whose keys [ops] have been read or locked. *)
Record executed (w0 : world) (ops : list add_op) (x0 x : tx) (m : list byte) (vr vw : list (option (list byte))) (s : state) : Prop := {
  ex_phase : phase C self pkt w0 x m vr vw s;
  ex_all : all_read x;
  ex_shape : shaped ops x;
  ex_kin : kin x0 x
}.

(** A key of a table that is only read. *)
Definition ro_add (o : add_op) : Prop := match o with add_read ty _ _ _ => ty_ro T ty = true | add_write _ _ _ _ _ => False end.

(** The result of [do_read], after the keys [new] have been added to the keys [ops] of a
    transaction: it need not abort if all of them are only read. *)
Definition read_done (w0 : world) (ops new : list add_op) (x0 : tx) (m : list byte) (P : list (option (list byte)) -> list (option (list byte)) -> Prop)
    (o : tx_status_t * tx * list byte) (s : state) : Prop :=
  let '(st, x', m') := o in
  kin x0 x' /\ length m' = length m /\ pending C self pkt x' m' s /\ shaped (ops ++ new) x' /\
  ((st = must_abort /\ ~ Forall ro_add new) \/
   st = in_progress /\ exists vr vw, P vr vw /\ executed w0 (ops ++ new) x0 x' m' vr vw s).

Lemma same_kin x x' : same_tx x x' -> kin x x'.
Proof. intros (E1 & E2 & E3 & E4 & _). unfold kin. by rewrite E4. Qed.

Lemma kin_trans x y z : kin x y -> kin y z -> kin x z.
Proof. intros (E1 & E2 & E3 & E4) (F1 & F2 & F3 & F4). unfold kin. by rewrite F1, F2, F3, F4. Qed.

(** The keys that have been added to a transaction whose keys had all been read. *)
Lemma added_ro ops x x' :
  added mp T idx coros ops x x' -> all_read x -> Forall ro_add ops ->
  Forall (fixed C) (drop (rs_index x') (read_set x')) /\ drop (ws_index x') (write_set x') = [].
Proof.
  intros [E (ir & Er & _ & _ & Kr) (iw & Ew & _ & _ & _ & Kw & _)] [A1 A2] Hro.
  assert (rs_index x' = length (read_set x) /\ ws_index x' = length (write_set x)) as [-> ->] by (rewrite E; done).
  rewrite Er, Ew, !drop_app_length. split.
  - assert (Forall (fun tk => ty_ro T tk.1 = true) (keys_read ops)) as Hk.
    { clear -Hro. induction Hro as [|[] ops Ho _ IH]; simpl; [constructor|by constructor|done]. }
    rewrite <- Kr in Hk. by rewrite Forall_map in Hk.
  - assert (write_keys ops = []) as Hk; [|rewrite Hk in Kw; by destruct iw].
    clear -Hro. induction Hro as [|[] ops Ho _ IH]; simpl; done.
Qed.

Lemma read_keys_rule w0 ops new x0 y x m vr vw s :
  caller_wf self -> phase C self pkt w0 x m vr vw s -> added mp T idx coros new y x -> all_read y -> shaped ops y -> kin x0 x ->
  wp C self pkt (do_read false x m) (read_done w0 ops new x0 m (fun vr' vw' => exists nr nw, vr' = vr ++ nr /\ vw' = vw ++ nw)) s.
Proof.
  intros Hself Hph Had Hy Hsh Hk. pose proof (added_shaped new y x Had ops Hsh) as Hsx.
  eapply wp_mono; [by apply (read_rule C (cluster_of_wf mp T idx coros HM HT) self pkt Hself w0 x m vr vw)|].
  intros [[st x'] m'] s' (Hsame & Hall & Hl & Hpe & Hres). unfold read_done.
  split; [by eapply kin_trans; [|apply same_kin]|]. split; [done|]. split; [done|]. split; [by eapply same_shaped|].
  destruct Hres as [[-> Hno]|(-> & nr & nw & Hph')]; [left|right]; (split; [done|]).
  - intros Hro. apply Hno. by apply (added_ro new y x).
  - exists (vr ++ nr), (vw ++ nw). split; [by exists nr, nw|].
    split; try done; [by eapply same_shaped|by eapply kin_trans; [|apply same_kin]].
Qed.

(** The first execute phase. *)
Lemma first_read w ops x0 x m :
  tx_base x0 -> ops_fit T pkt m ops -> run_adds ops (start x0) = Ok x -> good C self w -> owns C self [] w ->
  wp C self pkt (do_read false x m) (read_done w [] ops x0 m (fun _ _ => True)) (w, []).
Proof.
  intros Hb Hops E Hg Ho. destruct (base_filled mp T idx coros HM self pkt m ops x0 Hb Hops) as (x1 & E1 & Had & Hx).
  assert (x1 = x) as -> by congruence. pose proof Hb as [[_ Hself] _ _ _].
  eapply wp_mono; [apply (read_keys_rule w [] ops x0 (start x0) x m [] [] (w, []) Hself); [by apply phase_start|done|done|done|]|].
  - destruct Had as [Er _ _]. rewrite Er. by destruct x0.
  - intros [[st x'] m'] s (H1 & H2 & H3 & H4 & H5). split; [done|]. split; [done|]. split; [done|]. split; [done|].
    destruct H5 as [[-> Hno]|(-> & vr & vw & _ & Hex)]; [by left|right]. split; [done|]. by exists vr, vw.
Qed.

(** More keys are added to a transaction in progress. *)
Lemma executed_added w0 ops new x0 x m vr vw s :
  tx_base x0 -> executed w0 ops x0 x m vr vw s -> ops_fit T pkt m (ops ++ new) ->
  exists x', run_adds new x = Ok x' /\ added mp T idx coros new x x' /\ kin x0 x' /\ phase C self pkt w0 x' m vr vw s.
Proof.
  intros Hb [Hph Hall Hsh Hk] [Heach Hcnt Hkeys Hly Hpkt]. pose proof Hk as (K1 & K2 & K3 & K4).
  destruct Hb as [_ (Hmp & _) _ _]. apply Forall_app in Heach as [_ Heach].
  destruct (run_adds_ok mp T idx coros HM new x) as (x' & E & Had); [congruence|done|]. exists x'. split; [done|]. split; [done|].
  pose proof (added_shaped new x x' Had ops Hsh) as [Sr Sw].
  assert (map obj (read_set x') = read_objs (ops ++ new) /\ map obj (write_set x') = write_objs (ops ++ new)) as [Or Ow].
  { split; [rewrite <- (slots_robjs (ops ++ new)), <- Sr|rewrite <- (slots_wobjs (ops ++ new)), <- Sw]; by rewrite map_map. }
  assert (map ikey (write_set x') = write_keys (ops ++ new)) as Kw.
  { rewrite <- (slots_wkeys (ops ++ new)), <- Sw. by rewrite map_map. }
  assert (length (read_set x') + length (write_set x') = length (ops ++ new))%nat as Hlen.
  { rewrite (ops_split (ops ++ new)), <- Or, <- Ow. by rewrite !length_map. }
  destruct Had as [Er (ir & Rr & Ri & _) (iw & Wr & Wi & Wm & _)]. destruct Hall as [A1 A2].
  assert (take (rs_index x) (read_set x') = read_set x /\ take (ws_index x) (write_set x') = write_set x) as [Tr Tw].
  { rewrite Rr, Wr, A1, A2, !take_app_length. done. }
  destruct Hph as [Hrun _ _ [F1 F2 F3 F4] Hmr Hmw Hq Htop Hseen]. destruct Hrun as [R1 R2 R3 R4 R5 _ _ R8 R9 R10 R11].
  rewrite A1, firstn_all in R10, Hmr, Hseen. rewrite A2, firstn_all in R9, R11, Hmw.
  rewrite Er. split; [exact Hk|]. split; try done.
  - split; cbn [caller_id tx_status read_set write_set rs_index ws_index with_sets]; rewrite ?Tr, ?Tw; try done.
    + rewrite Rr. by apply Forall_app.
    + rewrite Wr. by apply Forall_app.
    + rewrite Wr. by apply Forall_app.
    + by rewrite Hlen.
    + rewrite A1, A2, Rr, Wr, !length_app. lia.
  - cbn [write_set with_sets]. by rewrite Kw.
  - cbn [read_set write_set with_sets]. by rewrite map_app, Or, Ow.
  - split; try done. cbn [read_set write_set with_sets]. rewrite Hlen. destruct Hpkt as [P1 P2]. split; [done|].
    rewrite <- (bulk_keys mp T idx coros), Kw. exact P2.
  - cbn [read_set rs_index with_sets]. by rewrite Tr.
  - cbn [write_set ws_index with_sets]. by rewrite Tw.
  - cbn [read_set rs_index with_sets]. by rewrite Tr.
Qed.

(** A further execute phase. *)
Lemma next_read w0 ops new x0 x x' m vr vw s :
  tx_base x0 -> executed w0 ops x0 x m vr vw s -> ops_fit T pkt m (ops ++ new) -> run_adds new x = Ok x' ->
  wp C self pkt (do_read false x' m) (read_done w0 ops new x0 m (fun vr' vw' => exists nr nw, vr' = vr ++ nr /\ vw' = vw ++ nw)) s.
Proof.
  intros Hb Hex Hops E. destruct (executed_added w0 ops new x0 x m vr vw s Hb Hex Hops) as (x1 & E1 & Had & Hk & Hph).
  assert (x1 = x') as -> by congruence. pose proof Hb as [[_ Hself] _ _ _]. destruct Hex as [_ Hall Hsh _].
  by apply (read_keys_rule w0 ops new x0 x x' m vr vw s).
Qed.

(** A program that fills the sets and executes the transaction; [k] is what follows. *)
Lemma first_runs {A} w ops x0 m (p : prog A) (k : tx_status_t * tx * list byte -> prog A) (Q : A -> state -> Prop) :
  tx_base x0 -> ops_fit T pkt m ops -> good C self w -> owns C self [] w ->
  (forall x, run_adds ops (start x0) = Ok x -> p = do_read false x m ≫= k) ->
  (forall o s1, read_done w [] ops x0 m (fun _ _ => True) o s1 -> wp C self pkt (k o) Q s1) ->
  wp C self pkt p Q (w, []).
Proof.
  intros Hb Hops Hg Ho Hp Hk. destruct (base_filled mp T idx coros HM self pkt m ops x0 Hb Hops) as (x & E & _).
  rewrite (Hp x E). apply wp_bind. eapply wp_mono; [by apply (first_read w ops x0 x m)|]. exact Hk.
Qed.

Lemma next_runs {A} w0 ops new x0 x m vr vw s (p : prog A) (k : tx_status_t * tx * list byte -> prog A) (Q : A -> state -> Prop) :
  tx_base x0 -> executed w0 ops x0 x m vr vw s -> ops_fit T pkt m (ops ++ new) ->
  (forall x', run_adds new x = Ok x' -> p = do_read false x' m ≫= k) ->
  (forall o s1, read_done w0 ops new x0 m (fun vr' vw' => exists nr nw, vr' = vr ++ nr /\ vw' = vw ++ nw) o s1 -> wp C self pkt (k o) Q s1) ->
  wp C self pkt p Q s.
Proof.
  intros Hb Hex Hops Hp Hk. destruct (executed_added w0 ops new x0 x m vr vw s Hb Hex Hops) as (x' & E & _).
  rewrite (Hp x' E). apply wp_bind. eapply wp_mono; [by apply (next_read w0 ops new x0 x x' m vr vw s)|]. exact Hk.
Qed.

Lemma executed_slots w0 ops x0 x m vr vw s :
  executed w0 ops x0 x m vr vw s -> Forall2 (slot_read m) (rslots ops) vr /\ Forall2 (slot_write m) (wslots ops) vw.
Proof.
  intros [Hph [E1 E2] [Sr Sw] _]. destruct Hph as [_ _ _ _ Hr Hw _ _ _].
  rewrite E1, firstn_all in Hr. rewrite E2, firstn_all in Hw. rewrite <- Sr, <- Sw. split; [by apply reads_slots|by apply writes_slots].
Qed.

Lemma shaped_txn ops x vr vw m : shaped ops x -> txn_of C x vr vw m = slot_txn ops vr vw m.
Proof.
  intros [Sr Sw]. unfold txn_of, slot_txn. rewrite <- Sr, <- Sw. f_equal.
  - clear Sr. revert vr. induction (read_set x) as [|it its IH]; intros [|v vr]; simpl; try done. by rewrite IH.
  - clear Sw. revert vw. induction (write_set x) as [|it its IH]; intros [|v vw]; simpl; try done. by rewrite IH.
Qed.

(** After a commit the object of a key that was read holds its value. *)
Definition slot_back (m : list byte) (sl : rslot) (v : option (list byte)) : Prop :=
  forall b, v = Some b -> read_at (Z.to_nat (sl.2 + 16)) (length b) m = Ok b.

Lemma back_slots m its vr :
  Forall2 (reads_back m) its vr -> Forall2 (slot_back m) (map (fun it => (rpc_reqtype it, key it, obj it)) its) vr.
Proof. induction 1 as [|it v its vr H _ IH]; constructor; done. Qed.

(** [commit], for a memory that the application has changed. *)
Lemma commit_app w0 ops x0 x m vr vw s m2 :
  caller_wf self -> executed w0 ops x0 x m vr vw s -> length m2 = length m -> Forall (slot_ready m2) (wslots ops) ->
  wp C self pkt (commit false x m2) (fun '(st, x', m') s' =>
    kin x0 x' /\ length m' = length m /\ good C self s'.1 /\ owns C self [] s'.1 /\
    ((st = committed /\ Forall2 (slot_back m') (rslots ops) vr /\ acts C self [slot_txn ops vr vw m2] w0 s'.2) \/
     (st = aborted /\ ~ Forall (fun sl => ty_ro T sl.1.1 = true) (rslots ops) /\ acts C self [] w0 s'.2))) s.
Proof.
  intros Hself [Hph Hall Hsh Hk] Hl Hrd. pose proof Hsh as [Sr Sw]. eapply wp_mono.
  { apply (commit_rule C (cluster_of_wf mp T idx coros HM HT) self pkt Hself w0 x m vr vw m2 s Hph Hall Hl). apply ready_writable. by rewrite Sw. }
  intros [[st x'] m'] s' (Hk' & _ & Hl' & Hg & Ho & Hres). split; [by eapply kin_trans|]. split; [done|]. split; [done|]. split; [done|].
  rewrite (shaped_txn ops) in Hres by done. destruct Hres as [(-> & Hb & H)|(-> & Hne & H)]; [left|right]; (split; [done|]); (split; [|done]).
  { rewrite <- Sr. by apply back_slots. }
  intros Hro. apply Hne. rewrite <- Sr in Hro. by rewrite Forall_map in Hro.
Qed.

(** [commit_single_read], for a transaction that has read one key. *)
Lemma single_read_app w0 ops x0 x m v s :
  executed w0 ops x0 x m [v] [] s -> wslots ops = [] ->
  good C self s.1 /\ owns C self [] s.1 /\ acts C self [slot_txn ops [v] [] m] w0 s.2.
Proof.
  intros [Hph Hall Hsh Hk] E. pose proof Hsh as [_ Sw]. rewrite E in Sw. assert (write_set x = []) as Ew by (by destruct (write_set x)).
  destruct (rdonly_rule C self pkt x m s (phase_pending C self pkt w0 x m _ _ s Hph Hall) Ew) as (Hg & Ho & _).
  split; [done|]. split; [done|]. rewrite <- (shaped_txn ops x) by done. by apply (single_read_rule C self pkt w0 x m v s).
Qed.

Lemma abort_app x0 x m s :
  caller_wf self -> pending C self pkt x m s -> kin x0 x ->
  wp C self pkt (abort false x m) (fun '(x', m') s' =>
    kin x0 x' /\ m' = m /\ good C self s'.1 /\ owns C self [] s'.1 /\ Forall (TxSpec.quiet C self []) s'.2) s.
Proof.
  intros Hself Hpe Hk. eapply wp_mono; [by apply (abort_rule C (cluster_of_wf mp T idx coros HM HT) self pkt Hself x m s)|].
  intros [x' m'] s' (-> & -> & H). done.
Qed.

(** A transaction that has locked nothing has nothing to give back. *)
Lemma rdonly_app ops x m s :
  pending C self pkt x m s -> shaped ops x -> wslots ops = [] ->
  good C self s.1 /\ owns C self [] s.1 /\ Forall (TxSpec.quiet C self []) s.2.
Proof. intros Hpe [_ Sw] E. apply (rdonly_rule C self pkt x m s Hpe). rewrite E in Sw. by destruct (write_set x). Qed.

(** A slot that is locked for an update or a deletion has been read. *)
Lemma write_read m ty k o mode v : mode <> wm_insert -> slot_write m (ty, k, o, mode) v -> slot_read m (ty, k, o) v /\ v <> None.
Proof. intros Hm H. unfold slot_write in H. rewrite decide_True in H by done. destruct H as (b & -> & Hh & Hok). done. Qed.

(** ** The specification of a transaction *)

(** What the slots of a transaction are for its specification. *)
Record made (reads writes : list (Z * Z)) (ops : list add_op) (e : Z * Z -> option (list byte)) (vr vw : list (option (list byte))) : Prop := {
  md_reads : map fst (rslots ops) = reads;
  md_writes : map (fun sl : wslot => sl.1.1) (wslots ops) = writes;
  md_vr : vr = map e reads;
  md_vw : vw = map e writes
}.

Lemma made_txn reads writes ops e e' vr vw m :
  made reads writes ops e vr vw -> Forall (fun sl => slot_new m sl = e' sl.1.1) (wslots ops) -> slot_txn ops vr vw m = spec_txn reads writes e e'.
Proof.
  intros [<- <- -> ->] Hn. unfold slot_txn, spec_txn. f_equal.
  - clear. induction (rslots ops) as [|[[ty k] o] l IH]; [done|]. cbn [map zip_with]. f_equal. exact IH.
  - clear -Hn. induction Hn as [|[[[ty k] o] mode] l H _ IH]; [done|]. cbn [map zip_with]. f_equal; [by rewrite H|exact IH].
Qed.

(** [commit] of a transaction whose objects hold the entries of the database after it. *)
Lemma commit_made w reads writes ops x0 x m s1 m2 vr vw e e' :
  tx_base x0 -> executed w ops x0 x m vr vw s1 -> made reads writes ops e vr vw -> length m2 = length m ->
  Forall (fun sl => slot_ready m2 sl /\ slot_new m2 sl = e' sl.1.1) (wslots ops) ->
  wp C self pkt (commit false x m2) (fun '(st, x', m') s' =>
    kin x0 x' /\ length m' = length m /\ good C self s'.1 /\ owns C self [] s'.1 /\
    ((st = committed /\ Forall2 (slot_back m') (rslots ops) vr /\ acts C self [spec_txn reads writes e e'] w s'.2) \/
     (st = aborted /\ ~ Forall (fun sl => ty_ro T sl.1.1 = true) (rslots ops) /\ acts C self [] w s'.2))) s1.
Proof.
  intros [[_ Hself] _ _ _] Hex Hm Hl Hsl. rewrite <- (made_txn reads writes ops e e' vr vw m2 Hm).
  - apply (commit_app w ops x0 x m vr vw s1 m2 Hself Hex Hl). eapply Forall_impl; [exact Hsl|]. by intros sl [? _].
  - eapply Forall_impl; [exact Hsl|]. by intros sl [_ ?].
Qed.

(** ** The ends of a transaction *)

Section Ends.

(** The results of transactions, the operations they stand for, and what an operation is on the tables. *)
Context {R Op : Type} (does : txn -> Op -> Prop) (ops_of : R -> list Op).

(** What a transaction has done when it returns. *)
Definition txn_does (x : tx) (m : list byte) (r : R * tx * list byte) (ts : list txn) : Prop :=
  let '(o, x', m') := r in
  kin x x' /\ length m' = length m /\ Forall2 does ts (ops_of o).

Definition ends (w : world) (x : tx) (m : list byte) (r : R * tx * list byte) (s1 : state) : Prop :=
  good C self s1.1 /\ owns C self [] s1.1 /\ exists ts, txn_does x m r ts /\ acts C self ts w s1.2.

Lemma ends_none w o x0 m0 x m s1 :
  ops_of o = [] -> kin x0 x -> length m = length m0 -> good C self s1.1 -> owns C self [] s1.1 -> Forall (TxSpec.quiet C self []) s1.2 ->
  ends w x0 m0 (o, x, m) s1.
Proof. intros E **. split; [done|]. split; [done|]. exists []. split; [|done]. split; [done|]. split; [done|]. rewrite E. constructor. Qed.

Lemma ends_one w op o x0 m0 x m s1 t :
  ops_of o = [op] -> kin x0 x -> length m = length m0 -> good C self s1.1 -> owns C self [] s1.1 -> does t op -> acts C self [t] w s1.2 ->
  ends w x0 m0 (o, x, m) s1.
Proof. intros E **. split; [done|]. split; [done|]. exists [t]. split; [|done]. split; [done|]. split; [done|]. rewrite E. constructor; [done|constructor]. Qed.

Lemma ends_abort w o x0 m0 x m s1 :
  ops_of o = [] -> tx_base x0 -> kin x0 x -> length m = length m0 -> pending C self pkt x m s1 ->
  wp C self pkt ('(x, m) ← abort false x m; Done (o, x, m)) (ends w x0 m0) s1.
Proof.
  intros E [[_ Hself] _ _ _] Hk Hl Hpe. apply wp_bind. eapply wp_mono; [by apply (abort_app x0 x m s1 Hself Hpe Hk)|].
  intros [x' m'] s' (H1 & -> & H3 & H4 & H5). by apply ends_none.
Qed.

Lemma ends_rdonly w o ops x0 m0 x m s1 :
  ops_of o = [] -> kin x0 x -> length m = length m0 -> pending C self pkt x m s1 -> shaped ops x -> wslots ops = [] ->
  ends w x0 m0 (o, abort_rdonly x, m) s1.
Proof. intros E Hk Hl Hpe Hsh Hw. destruct (rdonly_app ops x m s1 Hpe Hsh Hw) as (G1 & G2 & G3). by apply ends_none. Qed.

End Ends.
End App.

(** The program has filled the sets. *)
Ltac filled_with tac :=
  let x := fresh "x" in let E := fresh "E" in intros x E;
  try match type of E with run_adds ?ops _ = _ => unfold ops in E end; tac E; cbn [run_adds run_add] in E;
  repeat match type of E with
  | context [add_to_write_set ?a ?b ?c ?d ?e ?y] =>
      destruct (add_to_write_set a b c d e y) as [[? ?]|]; [|discriminate E]; cbn [mbind res_bind] in E; rewrite lift_Ok
  | context [add_to_read_set ?a ?b ?c ?d ?y] =>
      destruct (add_to_read_set a b c d y) as [[? ?]|]; [|discriminate E]; cbn [mbind res_bind] in E; rewrite lift_Ok
  end; injection E as ->; reflexivity.
Ltac filled := filled_with ltac:(fun _ => idtac).

End TxApp.
