(* ===== verification/TxClients.v ===== *)
(** * Client coroutines on the cluster

    The coroutines of an application that each run a number of transactions and keep a
    ledger of them: what is common to the applications in the step from the program of
    one coroutine to any number of them on the tables of a cluster. *)

From S2P Require Import Prelude Util Hots Mappings FixedTable FixedTableInv FixedTableOps FixedTableSteps Datastore.
From S2P Require Import DatastoreSpec RpcDefs RpcBatch Logger Tx TxWorld TxMem TxSpec TxSystem TxSerial.
From S2P Require Import TxTransaction TxSession TxCluster TxStore.
From Stdlib Require Import ZArith Lia Bool.
From stdpp Require Import base functions numbers sets list gmap relations.
#[local] Open Scope Z_scope.
Import FixedTable FixedTableInv FixedTableOps DatastoreSpec RpcDefs RpcBatch Tx TxWorld TxMem TxSpec TxSystem.
Import TxSerial TxTransaction TxSession TxCluster TxStore.

Module TxClients.

(** ** Definitions *)

(** A coroutine: the mappings of its worker, its identifier, its log record, its memory,
    and what the calls of its transactions find. *)
Record client (F : Type) := mk_client {
  ct_mp : Mappings.t; ct_coro : Z; ct_rec : list byte; ct_frames : list F; ct_mem : list byte
}.
Arguments mk_client {F}.
Arguments ct_mp {F}.
Arguments ct_coro {F}.
Arguments ct_rec {F}.
Arguments ct_frames {F}.
Arguments ct_mem {F}.

(** The coroutine has run all its transactions. *)
Definition all_run {F R} (ct : client F) (l : list R) : Prop := length l = length (ct_frames ct).

Section Clients.
Context {F R Op : Type}.
Context (mp : Mappings.t) (T : types) (idx : Z -> Z -> Z -> nat) (coros pkt : Z) (lid : nat -> Z).
Notation C := (cluster_of mp T idx coros).

(** The program of a coroutine, the operations that its ledger counts as committed, what
    the ledger is when it has ended, what an operation is on the tables, and what a frame
    must be. *)
Context (run : client F -> prog (list R)) (done_ops : list R -> list Op) (finished : client F -> list R -> Prop).
Context (does_op : txn -> Op -> Prop) (frame_ok : list byte -> F -> Prop).

Definition ct_id (ct : client F) : Z := int_rep (mk_crid (ct_coro ct) (Mappings.wrkr_gid (ct_mp ct))).

Definition ct_does (ct : client F) (l : list R) (ts : list txn) : Prop :=
  finished ct l /\ Forall2 does_op ts (done_ops l).

Definition client_coro (ct : client F) : coro (list R) := mk_coro (list R) (ct_id ct) (run ct) (ct_does ct).

(** A coroutine of a worker of the same cluster. *)
Record client_ok (ct : client F) : Prop := {
  co_worker : Mappings.at_worker mp (Mappings.wrkr_gid (ct_mp ct)) = Ok (ct_mp ct);
  co_coro : 1 <= ct_coro ct < coros;
  co_record : Logger.sizeof_log_record_t <= Z.of_nat (length (ct_rec ct));
  co_frames : Forall (frame_ok (ct_mem ct)) (ct_frames ct)
}.

Record deployed (cts : list (client F)) (st : stores) : Prop := {
  dp_maps : Mappings.replicated mp /\ Mappings.use_lock_server mp = false /\ Mappings.num_machines mp <= HOTS_MAX_MACHINES;
  dp_coros : coros <= RPC_MAX_CORO;
  dp_clients : Forall client_ok cts;
  dp_ids : NoDup (map (fun ct => (Mappings.wrkr_gid (ct_mp ct), ct_coro ct)) cts);
  dp_stores : stores_ok C st;
  dp_rest : at_rest C (contents C st)
}.

(** A coroutine does what its ledger says, on the cluster of its mappings. *)
Definition honest : Prop := forall ct,
  Mappings.replicated (ct_mp ct) -> Mappings.use_lock_server (ct_mp ct) = false -> Mappings.num_machines (ct_mp ct) <= HOTS_MAX_MACHINES ->
  1 <= ct_coro ct < coros -> coros <= RPC_MAX_CORO -> Logger.sizeof_log_record_t <= Z.of_nat (length (ct_rec ct)) ->
  Forall (frame_ok (ct_mem ct)) (ct_frames ct) ->
  behaves (cluster_of (ct_mp ct) T idx coros) pkt (ct_id ct) (run ct) (ct_does ct).

(** ** Lemmas *)

Lemma worker_cluster g mp' : Mappings.wf mp -> Mappings.at_worker mp g = Ok mp' -> cluster_of mp' T idx coros = C.
Proof.
  intros Hw H. pose proof (Mappings.make_wf _ _ _ _ _ _ H) as Hw'. pose proof (Mappings.make_fields _ _ _ _ _ _ H) as (_ & E1 & E2 & E3 & E4).
  unfold cluster_of, Mappings.get_backup_mn, Mappings.get_backup_mn_from_primary, Mappings.get_primary_mn.
  pose proof (Mappings.wf_primary mp' Hw') as P'. pose proof (Mappings.wf_primary mp Hw) as P. rewrite E1, E4, <- P in P'.
  by rewrite P', E1, E3.
Qed.

Context (Hrun : honest).

Lemma client_coro_ok cts st ct : deployed cts st -> client_ok ct -> coro_ok C pkt (list R) (client_coro ct).
Proof.
  intros [(HM & Hls & Hnm) Hcs _ _ _ _] [Hw Hco Hrec Hfr]. pose proof HM as [Hwf _].
  pose proof (Mappings.make_fields _ _ _ _ _ _ Hw) as (_ & E1 & _ & _ & E4).
  pose proof (Mappings.make_wf _ _ _ _ _ _ Hw) as Hw'.
  assert (Mappings.replicated (ct_mp ct)) as HM' by (eapply Mappings.make_replicated; [exact Hw|by left]).
  split.
  - cbn [co_caller client_coro]. unfold ct_id. pose proof (Mappings.wf_gid _ Hw'). pose proof (Mappings.wf_max _ Hw').
    destruct (caller_id_wf (ct_coro ct) (Mappings.wrkr_gid (ct_mp ct))) as [_ H1]; [lia|lia|done].
  - cbn [co_caller co_prog co_does client_coro]. rewrite <- (worker_cluster _ _ Hwf Hw). apply Hrun; done || congruence.
Qed.

Lemma deployed_setting cts st : deployed cts st -> setting C pkt (list R) (map client_coro cts) st.
Proof.
  intros Hdp. pose proof Hdp as [(HM & Hls & Hnm) Hcs Hct Hnd Hst Hrest]. split; [| |done|done].
  - rewrite map_map. cbn [co_caller client_coro].
    assert (Forall (fun ct => ct_id ct = ct_coro ct + 32 * Mappings.wrkr_gid (ct_mp ct) /\ 0 <= ct_coro ct < 32) cts) as Hid.
    { eapply Forall_impl; [exact Hct|]. intros ct [Hw Hco _ _]. pose proof (Mappings.make_wf _ _ _ _ _ _ Hw) as Hw'.
      pose proof (Mappings.wf_gid _ Hw'). pose proof (Mappings.wf_max _ Hw'). change RPC_MAX_CORO with 32 in Hcs. split; [|lia].
      apply (caller_id_wf (ct_coro ct) (Mappings.wrkr_gid (ct_mp ct))); [change RPC_MAX_CORO with 32; lia|lia]. }
    clear -Hnd Hid. induction Hid as [|ct cts [E Hc] Hid IH]; [constructor|]. cbn [map] in *. apply NoDup_cons in Hnd as [Hni Hnd].
    apply NoDup_cons. split; [|by apply IH]. intros Hin. apply Hni. apply list_elem_of_fmap in Hin as (ct' & Et & Hin).
    apply list_elem_of_fmap. exists ct'. split; [|done]. rewrite Forall_forall in Hid. destruct (Hid _ Hin) as [E' Hc'].
    rewrite E, E' in Et. f_equal; lia.
  - apply Forall_map. eapply Forall_impl; [exact Hct|]. intros ct. by apply (client_coro_ok cts st).
Qed.

(** The ledgers of the coroutines name the transactions of an order. *)
Lemma ledgers cts ths (order : list (nat * txn)) :
  (forall i co th, map client_coro cts !! i = Some co -> ths !! i = Some th ->
     exists a w1 tr1, th = T_end _ a w1 tr1 /\ co_does (list R) co a (of_coro i order)) ->
  Forall (fun x => x.1 < length cts)%nat order -> length ths = length cts ->
  exists outs : nat -> list Op, (forall i, Forall2 does_op (of_coro i order) (outs i)) /\
    forall i ct th, cts !! i = Some ct -> ths !! i = Some th ->
      exists l w1 tr1, th = T_end _ l w1 tr1 /\ finished ct l /\ outs i = done_ops l.
Proof.
  intros Hdo Hlt Hl.
  set (outs := fun i => match ths !! i with Some (T_end _ l _ _) => done_ops l | _ => [] end). exists outs.
  assert (forall i ct th, cts !! i = Some ct -> ths !! i = Some th ->
    exists l w1 tr1, th = T_end _ l w1 tr1 /\ finished ct l /\ Forall2 does_op (of_coro i order) (done_ops l)) as Hc.
  { intros i ct th Hi Hth. destruct (Hdo i (client_coro ct) th) as (l & w1 & tr1 & -> & [H1 H2]); [by rewrite list_lookup_fmap, Hi|done|].
    by exists l, w1, tr1. }
  split.
  - intros i. unfold outs. cbn beta. destruct (cts !! i) as [ct|] eqn:Hi.
    + destruct (lookup_lt_is_Some_2 ths i) as [th Hth]; [rewrite Hl; by eapply lookup_lt_Some|].
      destruct (Hc i ct th Hi Hth) as (l & w1 & tr1 & -> & _ & H). by rewrite Hth.
    + apply lookup_ge_None in Hi. rewrite (lookup_ge_None_2 ths i) by lia.
      replace (of_coro i order) with (@nil txn); [constructor|]. clear -Hlt Hi. induction Hlt as [|[j t] order Hj _ IH]; [done|].
      unfold of_coro. simpl in Hj. rewrite filter_cons_False by (simpl; lia). exact IH.
  - intros i ct th Hi Hth. destruct (Hc i ct th Hi Hth) as (l & w1 & tr1 & -> & H1 & _). exists l, w1, tr1. split; [done|]. split; [done|].
    unfold outs. cbn beta. by rewrite Hth.
Qed.

Notation csys := (csys C pkt (list R) lid).
Notation begun cts := (begins C pkt (list R) (map client_coro cts)).

(** When all coroutines have ended, the operations of their ledgers have an order in
    which they are the transactions that lead from the first tables to the last. *)
Lemma clients_serializable cts st s0 st' ths tr :
  deployed cts st -> begun cts st s0 -> rtc csys s0 (st', ths, tr) ->
  Forall (fun th => exists l w1 tr1, th = T_end _ l w1 tr1) ths ->
  exists (ts : list txn) (order : list (nat * Op)),
    (forall i ct th, cts !! i = Some ct -> ths !! i = Some th ->
       exists l w1 tr1, th = T_end _ l w1 tr1 /\ finished ct l /\ of_coro i order = done_ops l) /\
    Forall (fun x => x.1 < length cts)%nat order /\ Forall2 does_op ts order.*2 /\ valid (db C (contents C st)) ts /\
    forall ty k, cl_prim C ty = true -> final (db C (contents C st)) ts ty k = db C (contents C st') ty k.
Proof.
  intros Hdp Hb Hr Hend. pose proof (deployed_setting cts st Hdp) as Hset.
  destruct (coros_serializable C pkt (list R) lid _ st s0 st' ths tr Hset Hb Hr Hend) as (order & Hdo & Hlt & Hv & Hf).
  rewrite length_map in Hlt. pose proof (coros_count C pkt (list R) lid _ st s0 st' ths tr Hset Hb Hr) as Hlen.
  rewrite length_map in Hlen. destruct (ledgers cts ths order Hdo Hlt Hlen) as (outs & Hout & Hled).
  destruct (relabel does_op order outs Hout) as (order' & Hre & Hof). exists order.*2, order'. split; [|split; [|split; [|split; [done|exact Hf]]]].
  - intros i ct th Hi Hth. destruct (Hled i ct th Hi Hth) as (l & w1 & tr1 & E1 & E2 & E3). exists l, w1, tr1. by rewrite Hof.
  - clear -Hre Hlt. induction Hre as [|x y o o' [E _] _ IH]; [constructor|]. apply Forall_cons in Hlt as [H Hlt]. constructor; [by rewrite <- E|by apply IH].
  - clear -Hre. induction Hre as [|x y o o' [_ H] _ IH]; [constructor|]. by constructor.
Qed.

(** A coroutine that has ended stays so. *)
Lemma end_stays s1 s2 i l w1 tr1 : rtc csys s1 s2 -> s1.1.2 !! i = Some (T_end _ l w1 tr1) -> s2.1.2 !! i = Some (T_end _ l w1 tr1).
Proof.
  induction 1 as [s|s s' s'' Hs _ IH]; [done|]. intros Hi. apply IH. destruct Hs as [j ps k n q r st st' ths tr Hj|j ps k p st ths tr Hj]; cbn [fst snd] in *;
    (rewrite list_lookup_insert_ne; [done|]; intros ->; congruence).
Qed.

(** No coroutine fails, requests are answered, and the tables stay in order. *)
Lemma clients_safe cts st s0 st' ths tr :
  deployed cts st -> begun cts st s0 -> rtc csys s0 (st', ths, tr) ->
  (forall i e, ths !! i <> Some (T_fault _ e)) /\
  (forall i ps k n q, ths !! i = Some (T_wait _ ps k) -> ps !! n = Some (q, None) ->
     (exists r st'', handles C (lid i) st' q r st'') \/ full st' q) /\
  peaceful C (contents C st') /\ synced C (contents C st').
Proof.
  intros Hdp Hb Hr. destruct (coros_safe C pkt (list R) lid _ st s0 st' ths tr (deployed_setting cts st Hdp) Hb Hr) as (H1 & H2 & _ & H4 & H5). done.
Qed.

(** No run is infinite, and one that cannot go on has ended or lacks room. *)
Lemma clients_terminate cts st s0 :
  deployed cts st -> begun cts st s0 ->
  sn csys s0 /\
  forall st' ths tr, rtc csys s0 (st', ths, tr) -> nf csys (st', ths, tr) ->
    (forall i th, ths !! i = Some th -> exists ct l w1 tr1,
       cts !! i = Some ct /\ th = T_end _ l w1 tr1 /\ finished ct l) \/
    exhausted C lid st'.
Proof.
  intros Hdp Hb. destruct (coros_terminate C pkt (list R) lid _ st s0 (deployed_setting cts st Hdp) Hb) as [H1 H2].
  split; [done|]. intros st' ths tr Hr Hnf. destruct (H2 st' ths tr Hr Hnf) as [H|H]; [left|by right].
  intros i th Hi. destruct (H i th Hi) as (co & l & w1 & tr1 & ts & Hco & -> & Hd).
  rewrite list_lookup_fmap in Hco. destruct (cts !! i) as [ct|]; [|done]. injection Hco as <-. destruct Hd as [Hl _]. by exists ct, l, w1, tr1.
Qed.

End Clients.
End TxClients.
