(* ===== verification/TxPopulate.v ===== *)
(** * Population

    Before the transactions start, the workers of all machines insert the initial
    entries of the tables: each worker goes over all entries and all replicas, and
    inserts what the mappings make it responsible for.  The insertions of different
    workers interleave in any order. *)

From S2P Require Import Prelude Util City Hots Mappings FixedTable FixedTableInv FixedTableOps FixedTableInit FixedTableSteps.
From S2P Require Import Datastore DatastoreSpec RpcDefs Tx TxWorld TxSpec TxSerial TxSession TxCluster TxStore.
From Stdlib Require Import ZArith Lia Bool FunctionalExtensionality.
From stdpp Require Import base numbers list gmap sets relations.
#[local] Open Scope Z_scope.
Import RpcDefs Tx TxWorld TxSpec TxSerial TxSession TxCluster TxStore.
Import FixedTable FixedTableInv FixedTableOps FixedTableInit FixedTableSteps DatastoreSpec.

Module TxPopulate.

(** ** Definitions *)

Section Loads.

(** Some applications check the size of the values. *)
Context (strict : bool).

(** The insertion of replica [repl_i] of a key by the worker that is responsible for it,
    as the applications do it. *)
Definition load_key (mp : Mappings.t) (t : table) (repl_i key : Z) (val : list byte) : res (Z * table) :=
  let vs := Z.of_nat (length val) in
  _ ← assert_ (vs <=? HOTS_MAX_VALUE);
  _ ← assert_ (negb strict || (vs =? val_size t));
  kh ← ds_keyhash key;
  if negb (Mappings.should_i_populate mp kh repl_i) then Ok (0, t)
  else
    '(out_result, t) ← set_spinlock (Mappings.wrkr_gid mp) kh key val t;
    if decide (out_result = kSuccess) then Ok (1, t) else Err ExitFail.

(** An insertion: the RPC type of the primary, the replica, the key and its value. *)
Record load := mk_load { ld_ty : Z; ld_repl : Z; ld_key : Z; ld_val : list byte }.

Definition run_load (mp : Mappings.t) (ld : load) (st : stores) : res stores :=
  let mn := Mappings.machine_id mp in
  let ty := ld_ty ld + ld_repl ld in
  '(_, t) ← load_key mp (st_table st mn ty) (ld_repl ld) (ld_key ld) (ld_val ld);
  Ok (set_table mn ty t st).

(** The insertions of all workers, each by the number of its worker. *)
Fixpoint run_loads (mps : nat -> Mappings.t) (order : list (nat * load)) (st : stores) : res stores :=
  match order with
  | [] => Ok st
  | (j, ld) :: order => st ← run_load (mps j) ld st; run_loads mps order st
  end.

(** The calls of one worker, in order. *)
Fixpoint run_worker (mp : Mappings.t) (lds : list load) (st : stores) : res stores :=
  match lds with
  | [] => Ok st
  | ld :: lds => st ← run_load mp ld st; run_worker mp lds st
  end.

(** The loops of the applications over the replicas of a key. *)
Fixpoint load_replicas (mp : Mappings.t) (repls : list Z) (key : Z) (val : list byte) (tbl : list table) : res (list table) :=
  match repls with
  | [] => Ok tbl
  | repl_i :: repls =>
      t ← at_ tbl repl_i;
      '(_, t) ← load_key mp t repl_i key val;
      load_replicas mp repls key val (<[Z.to_nat repl_i := t]> tbl)
  end.
Definition load_all (mp : Mappings.t) (key : Z) (val : list byte) (tbl : list table) : res (list table) :=
  load_replicas mp (seqZ 0 (Mappings.num_replicas mp)) key val tbl.

End Loads.

(** The tables of a machine for a primary type, by replica. *)
Definition replicas_of (nr mn ty : Z) (st : stores) : list table := map (fun r => st_table st mn (ty + r)) (seqZ 0 nr).

(** The calls of one worker, for entries (type, key, value) of the tables. *)
Notation tab_entry := (Z * Z * list byte)%type.
Definition all_loads (nrepl : Z) (entries : list tab_entry) : list load :=
  flat_map (fun r => map (fun e => mk_load e.1.1 r e.1.2 e.2) entries) (seqZ 0 nrepl).

(** The same, with the replicas of an entry one after another. *)
Definition entry_loads (nrepl : Z) (e : tab_entry) : list load := map (fun r => mk_load e.1.1 r e.1.2 e.2) (seqZ 0 nrepl).

(** ** A worker and the tables of its machine *)

Section Worker.
Context (strict : bool) (mp : Mappings.t) (nr : Z).
Notation load_key := (load_key strict).
Notation run_load := (run_load strict).
Notation run_worker := (run_worker strict).
Notation load_all := (load_all strict).
Notation mn := (Mappings.machine_id mp).

Lemma map_seqZ_lookup {A} (f : Z -> A) r : 0 <= r < nr -> map f (seqZ 0 nr) !! Z.to_nat r = Some (f r).
Proof.
  intros Hr. change (@map Z A) with (@fmap list _ Z A). rewrite list_lookup_fmap, lookup_seqZ_lt by lia. simpl. do 2 f_equal. lia.
Qed.

Lemma map_seqZ_insert {A} (f g : Z -> A) r x :
  0 <= r < nr -> g r = x -> (forall r', 0 <= r' < nr -> r' <> r -> g r' = f r') -> <[Z.to_nat r := x]> (map f (seqZ 0 nr)) = map g (seqZ 0 nr).
Proof.
  intros Hr Hx Hg. apply list_eq. intros i. destruct (decide (i < Z.to_nat nr)%nat) as [Hi|Hi].
  2: { rewrite !lookup_ge_None_2; [done|..]; rewrite ?length_insert, length_map, length_seqZ; lia. }
  replace i with (Z.to_nat (Z.of_nat i)) by lia. rewrite (map_seqZ_lookup g) by lia. destruct (decide (Z.of_nat i = r)) as [->|Hne].
  - rewrite list_lookup_insert_eq by (rewrite length_map, length_seqZ; lia). by rewrite Hx.
  - rewrite list_lookup_insert_ne, (map_seqZ_lookup f) by lia. f_equal. symmetry. apply Hg; lia.
Qed.

Lemma replicas_at ty st r : 0 <= r < nr -> at_ (replicas_of nr mn ty st) r = Ok (st_table st mn (ty + r)).
Proof. intros Hr. unfold replicas_of. rewrite at_nonneg by lia. by rewrite map_seqZ_lookup by lia. Qed.

Lemma replicas_set ty st r t :
  0 <= r < nr -> replicas_of nr mn ty (set_table mn (ty + r) t st) = <[Z.to_nat r := t]> (replicas_of nr mn ty st).
Proof.
  intros Hr. unfold replicas_of. cbn [set_table st_table]. symmetry. apply map_seqZ_insert; [done| |].
  - unfold upd2. by rewrite decide_True.
  - intros r' Hr' Hne. unfold upd2. rewrite decide_False; [done|]. intros [= E]. lia.
Qed.

(** The tables of a type that is at least [nr] away are others. *)
Lemma replicas_other ty ty' st r t :
  ty' + nr <= ty \/ ty + nr <= ty' -> 0 <= r < nr -> replicas_of nr mn ty' (set_table mn (ty + r) t st) = replicas_of nr mn ty' st.
Proof.
  intros Ht Hr. unfold replicas_of. cbn [set_table st_table]. apply map_ext_in. intros b Hb%list_elem_of_In%elem_of_seqZ.
  unfold upd2. rewrite decide_False; [done|]. intros [= E]. lia.
Qed.

Lemma run_worker_app l l' st : run_worker mp (l ++ l') st = st1 ← run_worker mp l st; run_worker mp l' st1.
Proof.
  revert st. induction l as [|ld l IH]; intros st; [done|]. cbn [TxPopulate.run_worker app]. destruct (run_load mp ld st) as [st1|]; [|done].
  rewrite !bind_Ok. apply IH.
Qed.

(** A load in terms of the tables of its type, and the tables of other types after it. *)
Lemma load_runs ty r key val st :
  0 <= r < nr ->
  (t ← at_ (replicas_of nr mn ty st) r; '(_, t) ← load_key mp t r key val; Ok (<[Z.to_nat r := t]> (replicas_of nr mn ty st))) =
    (st' ← run_load mp (mk_load ty r key val) st; Ok (replicas_of nr mn ty st')).
Proof.
  intros Hr. rewrite replicas_at by done. unfold TxPopulate.run_load. cbn [ld_ty ld_repl ld_key ld_val]. rewrite bind_Ok.
  destruct (load_key mp _ r key val) as [[n t]|]; [|done]. rewrite !bind_Ok. by rewrite replicas_set.
Qed.

Lemma load_others ty ty' r key val st st' :
  ty' + nr <= ty \/ ty + nr <= ty' -> 0 <= r < nr -> run_load mp (mk_load ty r key val) st = Ok st' ->
  replicas_of nr mn ty' st' = replicas_of nr mn ty' st.
Proof.
  intros Ht Hr H. unfold TxPopulate.run_load in H. cbn [ld_ty ld_repl ld_key ld_val] in H. apply bind_ok in H as ([n t] & _ & H). injection H as <-.
  by apply replicas_other.
Qed.

Lemma load_all_runs ty k v st :
  Mappings.num_replicas mp = nr ->
  load_all mp k v (replicas_of nr mn ty st) = st' ← run_worker mp (entry_loads nr (ty, k, v)) st; Ok (replicas_of nr mn ty st').
Proof.
  intros Hmp. unfold TxPopulate.load_all, entry_loads. rewrite Hmp. cbn [fst snd].
  assert (Forall (fun r => 0 <= r < nr) (seqZ 0 nr)) as Hr by (apply Forall_forall; intros r Hr%elem_of_seqZ; lia). revert st.
  induction Hr as [|r rs Hr _ IH]; intros st; [done|]. cbn [TxPopulate.load_replicas map TxPopulate.run_worker]. 
  pose proof (load_runs ty r k v st Hr) as E. rewrite replicas_at in E |- * by done. rewrite bind_Ok in E |- *.
  destruct (load_key mp (st_table st mn (ty + r)) r k v) as [[n t]|] eqn:El.
  - rewrite bind_Ok in E |- *. destruct (run_load mp (mk_load ty r k v) st) as [st1|]; [|done]. rewrite bind_Ok in E. injection E as E. rewrite E, IH. done.
  - cbn [mbind res_bind] in E |- *. by destruct (run_load mp (mk_load ty r k v) st).
Qed.

(** A list of rows of one type. *)
Fixpoint load_rows (es : list tab_entry) (tbl : list table) : res (list table) :=
  match es with
  | [] => Ok tbl
  | (_, k, v) :: es => tbl ← load_all mp k v tbl; load_rows es tbl
  end.

Lemma load_rows_runs ty es st : Mappings.num_replicas mp = nr -> Forall (fun e : tab_entry => e.1.1 = ty) es ->
  load_rows es (replicas_of nr mn ty st) = st' ← run_worker mp (flat_map (entry_loads nr) es) st; Ok (replicas_of nr mn ty st').
Proof.
  intros Hmp Hes. revert st. induction Hes as [|[[ty0 k] v] es E _ IH]; intros st; [done|]. cbn [fst] in E. subst ty0. cbn [load_rows flat_map].
  rewrite load_all_runs, run_worker_app by done. destruct (run_worker mp (entry_loads nr (ty, k, v)) st) as [st1|]; [|done]. rewrite !bind_Ok. apply IH.
Qed.

Lemma load_rows_app es es' tbl : load_rows (es ++ es') tbl = tbl ← load_rows es tbl; load_rows es' tbl.
Proof. revert tbl. induction es as [|[[ty k] v] es IH]; intros tbl; [done|]. cbn [app load_rows]. destruct (load_all mp k v tbl); [|done]. rewrite !bind_Ok. apply IH. Qed.
End Worker.

(** The two orders of loads. *)
Lemma flat_map_swap {X Y Z0} (f : X -> Y -> Z0) (xs : list X) (ys : list Y) :
  flat_map (fun x => map (f x) ys) xs ≡ₚ flat_map (fun y => map (fun x => f x y) xs) ys.
Proof.
  induction xs as [|x xs IH]; cbn [flat_map].
  - induction ys as [|y ys IH]; [done|]. exact IH.
  - rewrite IH. clear IH. induction ys as [|y ys IH]; [done|]. cbn [map flat_map app]. rewrite <- IH. constructor.
    rewrite !app_assoc. apply Permutation_app_tail, Permutation_app_comm.
Qed.

Lemma entries_all_loads nr es : flat_map (entry_loads nr) es ≡ₚ all_loads nr es.
Proof. apply (flat_map_swap (fun e r => mk_load e.1.1 r e.1.2 e.2)). Qed.

Section Population.
Context (strict : bool).
Notation load_key := (load_key strict).
Notation run_load := (run_load strict).
Notation run_loads := (run_loads strict).
Context (mp : Mappings.t) (T : types) (idx : Z -> Z -> Z -> nat) (coros : Z).
Context (HM : Mappings.replicated mp) (HT : types_ok T (Mappings.num_backups mp)) (Hls : Mappings.use_lock_server mp = false).
Context (mps : nat -> Mappings.t) (W : nat) (HW : Z.of_nat W = Mappings.tot_primary_workers mp).
Context (Hmps : forall j, (j < W)%nat -> Mappings.at_worker mp (Z.of_nat j) = Ok (mps j)).
Context (val : Z -> Z -> list byte).
Notation C := (cluster_of mp T idx coros).

(** An insertion of the value [val] of its key. *)
Record load_ok (ld : load) : Prop := {
  lo_ty : ty_prim T (ld_ty ld) = true;
  lo_repl : 0 <= ld_repl ld <= Mappings.num_backups mp;
  lo_key : 0 <= ld_key ld < kFtInvalidKey;
  lo_val : ld_val ld = val (ld_ty ld) (ld_key ld) /\ Z.of_nat (length (ld_val ld)) = ty_vsz T (ld_ty ld)
}.

(** Nobody holds a lock, and at most [n] insertions have been made. *)
Definition base_ts : Z := kTimestampCanary * 2 ^ 61.
Definition settled (n : nat) (a : abucket) : Prop :=
  a_locker a = kInvalidCallerId /\ a_cnt a = 0 /\ Z.odd (a_ts a) = false /\ base_ts <= a_ts a <= base_ts + 2 * Z.of_nat n.

Definition lloc (j : nat) (ld : load) : loc := loc_of C (Mappings.machine_id (mps j)) (ld_ty ld + ld_repl ld) (keyhash (ld_key ld)).
Definition mine (j : nat) (ld : load) : bool := Mappings.should_i_populate (mps j) (keyhash (ld_key ld)) (ld_repl ld).

(** What the insertions [done] have made of the world. *)
Record loaded (done : list (nat * load)) (w : world) : Prop := {
  ld_settled l : settled (length done) (w l);
  ld_there j ld : (j, ld) ∈ done -> mine j ld = true -> a_map (w (lloc j ld)) !! ld_key ld = Some (ld_val ld);
  ld_only mn ty i k v : a_map (w (mn, ty, i)) !! k = Some v -> exists j ld, (j, ld) ∈ done /\ ty = ld_ty ld + ld_repl ld /\ k = ld_key ld /\ v = ld_val ld
}.

(** ** One insertion *)

Lemma worker_facts j : (j < W)%nat ->
  Mappings.wrkr_gid (mps j) = Z.of_nat j /\ 0 <= Mappings.machine_id (mps j) < Mappings.tot_primary_machines mp /\ caller_wf (Mappings.wrkr_gid (mps j)).
Proof.
  intros Hj. pose proof (Hmps j Hj) as H. destruct HM as [Hwf _]. pose proof (Mappings.make_wf _ _ _ _ _ _ H) as Hw'.
  pose proof (Mappings.make_fields _ _ _ _ _ _ H) as (E1 & E2 & E3 & _ & E4).
  pose proof (Mappings.wf_workers _ Hwf). pose proof (Mappings.wf_gid _ Hw') as Hg. pose proof (Mappings.wf_max _ Hw') as Hm.
  pose proof (Mappings.wf_primary _ Hwf) as Hp. rewrite Hls in Hp. rewrite E2, E3 in *. split; [done|]. split.
  - rewrite (Mappings.wf_machine _ Hw'), Hp, Z.sub_0_r, E3. split; [apply Z.div_pos; lia|apply Z.div_lt_upper_bound; lia].
  - change HOTS_MAX_WORKERS with 8192 in Hm. unfold caller_wf. change kInvalidCallerId with 134217727. lia.
Qed.

Lemma load_has j ld : (j < W)%nat -> load_ok ld -> cl_has C (Mappings.machine_id (mps j)) (ld_ty ld + ld_repl ld) = true.
Proof.
  intros Hj [Hty Hr _ _]. destruct (worker_facts j Hj) as (_ & Hm & _). cbn [cl_has cluster_of].
  rewrite in_use_replica, (proj2 (Z.leb_le _ _)), (proj2 (Z.ltb_lt _ _)) by (done || lia). done.
Qed.

Lemma settled_mono n n' a : (n <= n')%nat -> settled n a -> settled n' a.
Proof. unfold settled. intros Hn (H1 & H2 & H3 & H4). split_and!; done || lia. Qed.

Lemma same_table mn ty st : set_table mn ty (st_table st mn ty) st = st.
Proof.
  destruct st as [tb lg]. unfold set_table, upd2. cbn [st_table st_log]. f_equal. apply functional_extensionality. intros a.
  apply functional_extensionality. intros b. case_decide as E; [by injection E as -> ->|done].
Qed.

(** The bucket after an insertion. *)
Definition inserted (k : Z) (v : list byte) (a : abucket) : abucket := mkA (<[k := v]> (a_map a)) (a_ts a + 2) kInvalidCallerId 0.

Lemma inserted_settled n k v a : settled n a -> settled (S n) (inserted k v a).
Proof. unfold settled, inserted. cbn. intros (H1 & H2 & H3 & H4). rewrite Z.odd_add, H3. split_and!; done || lia. Qed.

(** [set_spinlock] on a bucket that nobody holds. *)
Lemma set_settled n t gid kh k v :
  Inv t -> settled n (view t (bidx t kh)) -> Z.of_nat n < 2 ^ 59 -> caller_wf gid -> 0 <= k < kFtInvalidKey -> Z.of_nat (length v) = val_size t ->
  exists r t', set_spinlock gid kh k v t = Ok (r, t') /\
    ((r = kSuccess /\ Inv t' /\ view_upd (bidx t kh) (inserted k v (view t (bidx t kh))) t t') \/
     (r = kInsufficientSpaceIndex /\ fl_head t = 0)).
Proof.
  intros HI (S1 & S2 & S3 & S4) Hn Hcl Hk Hv. set (a0 := view t (bidx t kh)) in *.
  destruct (set_spinlock_ok t gid kh k v (mkA (a_map a0) (a_ts a0 + 1) gid 1) HI ltac:(lia) Hcl ltac:(lia)) as (r & t' & E & HI' & Hr).
  { fold a0. by rewrite S2. }
  { fold a0. unfold a_lock. by rewrite is_unlocked_even, S3. }
  exists r, t'. split; [done|]. destruct Hr as [(-> & Hu)|(-> & _ & Hf & _)]; [left|by right]. split; [done|]. split; [done|].
  replace (inserted k v a0) with (a_unlock (a_put k (stored t v) (mkA (a_map a0) (a_ts a0 + 1) gid 1))); [done|].
  unfold a_unlock, a_put, inserted, stored. cbn. rewrite take_ge by lia. f_equal.
  rewrite wrap_id; [lia|]. unfold u, base_ts in *. change kTimestampCanary with 5 in *. lia.
Qed.

Lemma loaded_skip done w j ld : loaded done w -> mine j ld = false -> loaded (done ++ [(j, ld)]) w.
Proof.
  intros [H1 H2 H3] Hm. split.
  - intros l. rewrite length_app. cbn. eapply settled_mono; [|apply H1]. lia.
  - intros j' ld' [Hin|Hin]%elem_of_app; [by apply H2|]. apply list_elem_of_singleton in Hin as [= -> ->]. congruence.
  - intros mn ty i k v Hv. destruct (H3 mn ty i k v Hv) as (j' & ld' & Hin & H). exists j', ld'. split; [|done]. apply elem_of_app. by left.
Qed.

Lemma loaded_insert done w j ld :
  loaded done w -> load_ok ld -> Forall (fun x => load_ok x.2) done ->
  loaded (done ++ [(j, ld)]) (wupd (lloc j ld) (inserted (ld_key ld) (ld_val ld) (w (lloc j ld))) w).
Proof.
  intros [H1 H2 H3] Hld Hdone. split.
  - intros l. rewrite length_app, Nat.add_1_r. unfold wupd. case_decide; [by apply inserted_settled|]. eapply settled_mono; [|apply H1]. lia.
  - intros j' ld' [Hin|Hin]%elem_of_app Hm.
    + specialize (H2 j' ld' Hin Hm). unfold wupd. case_decide as El; [|done]. cbn [inserted a_map]. rewrite El in H2.
      destruct (decide (ld_key ld' = ld_key ld)) as [Ek|Hne]; [|by rewrite lookup_insert_ne by congruence].
      rewrite Ek, lookup_insert_eq. f_equal. unfold lloc, loc_of in El. injection El as _ Et _.
      rewrite Forall_forall in Hdone. destruct (Hdone _ Hin) as [T1 R1 _ [V1 _]]. cbn [snd] in *. destruct Hld as [T2 R2 _ [V2 _]].
      rewrite V1, V2, Ek. f_equal. symmetry. by apply (tk_spacing T (Mappings.num_backups mp) HT _ _ (ld_repl ld') (ld_repl ld)).
    + apply list_elem_of_singleton in Hin as [= -> ->]. unfold wupd. rewrite decide_True by done. cbn [inserted a_map]. by rewrite lookup_insert_eq.
  - intros mn ty i k v. unfold wupd. case_decide as El; [|].
    + cbn [inserted a_map]. rewrite <- El. rewrite lookup_insert_Some. intros [[<- <-]|[_ Hv]].
      * exists j, ld. split; [apply elem_of_app; right; by apply list_elem_of_singleton|]. unfold lloc, loc_of in El. by injection El as _ -> _.
      * destruct (H3 mn ty i k v Hv) as (j' & ld' & Hin & H). exists j', ld'. split; [|done]. apply elem_of_app. by left.
    + intros Hv. destruct (H3 mn ty i k v Hv) as (j' & ld' & Hin & H). exists j', ld'. split; [|done]. apply elem_of_app. by left.
Qed.

Lemma run_load_ok done st j ld :
  (j < W)%nat -> load_ok ld -> Forall (fun x => load_ok x.2) done -> stores_ok C st -> loaded done (contents C st) -> Z.of_nat (length done) < 2 ^ 59 ->
  (exists st', run_load (mps j) ld st = Ok st' /\ stores_ok C st' /\ loaded (done ++ [(j, ld)]) (contents C st')) \/
  (run_load (mps j) ld st = Err ExitFail /\ fl_head (st_table st (Mappings.machine_id (mps j)) (ld_ty ld + ld_repl ld)) = 0).
Proof.
  intros Hj Hld Hdone Hst Hw Hn. pose proof (load_has j ld Hj Hld) as Hhas. destruct (worker_facts j Hj) as (_ & _ & Hcl).
  pose proof (so_table _ _ Hst _ _ Hhas) as Ht. unfold TxPopulate.run_load. set (mn := Mappings.machine_id (mps j)) in *. set (ty := ld_ty ld + ld_repl ld) in *.
  set (t := st_table st mn ty) in *. destruct (ds_keyhash_ok (ld_key ld)) as (kh & Ekh & _).
  assert (keyhash (ld_key ld) = kh) as Ek by (unfold keyhash; by rewrite Ekh).
  pose proof Hld as [Hty Hr Hk [_ Hv]]. pose proof (tk_vsz T _ HT _ Hty) as Hvs.
  assert (val_size t = ty_vsz T (ld_ty ld)) as Evs.
  { rewrite (to_vsz _ _ _ _ Ht). cbn [cl_vsz cluster_of]. unfold ty. destruct (decide (ld_repl ld = 0)) as [->|]; [by rewrite Z.add_0_r|].
    apply (tk_back T _ HT); [done|lia]. }
  unfold TxPopulate.load_key. rewrite (proj2 (Z.leb_le _ _)), (proj2 (Z.eqb_eq _ _)), orb_true_r by lia. unfold assert_. rewrite !bind_Ok, Ekh, bind_Ok.
  rewrite <- Ek. fold (mine j ld). destruct (mine j ld) eqn:Em; cbn [negb].
  2: { left. rewrite bind_Ok. unfold t. rewrite same_table. exists st. split; [done|]. split; [done|]. by apply loaded_skip. }
  pose proof (contents_at C st mn ty (keyhash (ld_key ld)) Hhas Ht) as Ec. fold t in Ec.
  destruct (set_settled (length done) t (Mappings.wrkr_gid (mps j)) (keyhash (ld_key ld)) (ld_key ld) (ld_val ld)) as (r & t' & E & Hres); try done.
  - apply (to_inv _ _ _ _ Ht).
  - rewrite <- Ec. apply (ld_settled _ _ Hw).
  - lia.
  - rewrite E, bind_Ok. destruct Hres as [(-> & HI' & Hu)|(-> & Hf)]; [left|by right]. rewrite decide_True, bind_Ok by done.
    eexists. split; [done|]. split.
    + apply stores_ok_table; [done|]. eapply table_ok_upd; [exact Ht|done|exact Hu|]. intros _. rewrite is_locked_odd.
      pose proof (ld_settled _ _ Hw (loc_of C mn ty (keyhash (ld_key ld)))) as Hs. rewrite Ec in Hs.
      by apply (inserted_settled _ (ld_key ld) (ld_val ld)) in Hs as (_ & _ & Ho & _).
    + rewrite (contents_upd C st mn ty (keyhash (ld_key ld)) t' _ Hhas Ht Hu), <- Ec.
      change (loc_of C mn ty (keyhash (ld_key ld))) with (lloc j ld). by apply loaded_insert.
Qed.

(** ** All insertions *)

Lemma run_loads_ok order : forall done st,
  Forall (fun x => (x.1 < W)%nat /\ load_ok x.2) order -> Forall (fun x => load_ok x.2) done -> stores_ok C st -> loaded done (contents C st) ->
  Z.of_nat (length done + length order) < 2 ^ 59 ->
  (exists st', run_loads mps order st = Ok st' /\ stores_ok C st' /\ loaded (done ++ order) (contents C st')) \/
  (run_loads mps order st = Err ExitFail /\
   exists pre st1 mn ty, pre `prefix_of` order /\ run_loads mps pre st = Ok st1 /\ cl_has C mn ty = true /\ fl_head (st_table st1 mn ty) = 0).
Proof.
  induction order as [|[j ld] order IH]; intros done st Ho Hd Hst Hw Hn.
  { left. exists st. by rewrite app_nil_r. }
  apply Forall_cons in Ho as [[Hj Hld] Ho]. cbn [fst snd length] in *. cbn [TxPopulate.run_loads].
  destruct (run_load_ok done st j ld Hj Hld Hd Hst Hw ltac:(lia)) as [(st1 & E & Hst1 & Hw1)|[E Hf]]; rewrite E.
  2: { right. split; [done|]. exists [], st. do 2 eexists. split; [apply prefix_nil|]. split; [done|]. split; [by apply load_has|exact Hf]. }
  rewrite bind_Ok. destruct (IH (done ++ [(j, ld)]) st1) as [(st' & E' & Hst' & Hw')|(E' & pre & st2 & mn & ty & Hp & Hr & H)]; try done.
  - apply Forall_app. split; [done|]. by apply Forall_singleton.
  - rewrite length_app. cbn. lia.
  - left. exists st'. by rewrite <- app_assoc in Hw'.
  - right. split; [done|]. exists ((j, ld) :: pre), st2, mn, ty. split; [by apply prefix_cons|]. cbn [TxPopulate.run_loads]. by rewrite E, bind_Ok.
Qed.

(** The worker that inserts replica [r] of a key, and where it does so. *)
Lemma owner_loads ty r k :
  ty_prim T ty = true -> 0 <= r <= Mappings.num_backups mp ->
  exists j, (j < W)%nat /\ forall v, mine j (mk_load ty r k v) = true /\
    lloc j (mk_load ty r k v) = (if r =? 0 then ploc C ty k else bloc C ty k r).
Proof.
  intros Hty Hr. destruct HM as [Hwf Hrep]. pose proof (Mappings.wf_replicas mp Hwf) as [Hn _]. pose proof (Mappings.wf_workers mp Hwf) as Hwk.
  destruct (Mappings.owner_of mp (keyhash k) r HM ltac:(lia)) as (mn & Hmn & Hrange & Ho).
  pose proof (Z.mod_pos_bound (Z.shiftr (keyhash k) 20) (Mappings.workers_per_machine mp) ltac:(lia)) as Hx.
  set (x := Z.shiftr (keyhash k) 20 mod Mappings.workers_per_machine mp) in *. pose proof (Mappings.wf_tot mp Hwf) as Htot.
  exists (Z.to_nat (mn * Mappings.workers_per_machine mp + x)).
  assert (0 <= mn * Mappings.workers_per_machine mp + x < Z.of_nat W) as Hg by nia. split; [lia|]. intros v.
  set (j := Z.to_nat (mn * Mappings.workers_per_machine mp + x)). assert (j < W)%nat as Hj by lia. pose proof (Hmps j Hj) as Hat.
  destruct (Mappings.at_worker_owner mp _ _ (keyhash k) r Hwf Hat) as [Eg Eo].
  pose proof (Mappings.make_wf _ _ _ _ _ _ Hat) as Hw'. pose proof (Mappings.make_fields _ _ _ _ _ _ Hat) as (_ & _ & Ew & _ & _).
  split; [unfold mine, Mappings.should_i_populate; cbn [ld_key ld_repl]; rewrite Eg, Eo, Ho; apply Z.eqb_eq; lia|].
  assert (Mappings.machine_id (mps j) = mn) as Em.
  { rewrite (Mappings.wf_machine _ Hw'), Eg, Ew. replace (Z.of_nat j) with (x + mn * Mappings.workers_per_machine mp) by lia.
    rewrite Z.div_add, Z.div_small by lia. done. }
  unfold lloc. cbn [ld_ty ld_repl ld_key]. rewrite Em. unfold Mappings.replica_mns in Hmn. destruct (Z.eqb_spec r 0) as [->|Hne].
  - simpl in Hmn. injection Hmn as <-. rewrite Z.add_0_r. unfold ploc. cbn [cl_mn cl_hash cluster_of]. reflexivity.
  - unfold bloc. cbn [cl_back cl_hash cluster_of]. replace (Z.to_nat r) with (S (Z.to_nat (r - 1))) in Hmn by lia. simpl in Hmn.
    change (@map Z Z) with (@fmap list _ Z Z) in Hmn. rewrite list_lookup_fmap, lookup_seqZ_lt in Hmn by lia. simpl in Hmn. injection Hmn as <-.
    replace (0 + Z.of_nat (Z.to_nat (r - 1))) with (r - 1) by lia. reflexivity.
Qed.

Section Entries.
Context (entries : list tab_entry).
Definition entry_ok (e : tab_entry) : Prop :=
  let '(ty, k, v) := e in ty_prim T ty = true /\ 0 <= k < kFtInvalidKey /\ v = val ty k /\ Z.of_nat (length v) = ty_vsz T ty.

(** The contents of the tables when all entries are in. *)
Definition contents_of (ty k : Z) : option (list byte) := if decide ((ty, k) ∈ entries.*1) then Some (val ty k) else None.

Context (Hentries : Forall entry_ok entries) (Hcount : Z.of_nat (length entries) <= 2 ^ 40).
Context (Hok : forall ty k, ty_prim T ty = true -> ty_ok T ty k (contents_of ty k)).

Lemma all_loads_elem ld : ld ∈ all_loads (Mappings.num_replicas mp) entries <->
  0 <= ld_repl ld < Mappings.num_replicas mp /\ (ld_ty ld, ld_key ld, ld_val ld) ∈ entries.
Proof.
  unfold all_loads. rewrite list_elem_of_In, in_flat_map. split.
  - intros (r & Hr & Hin). apply list_elem_of_In, elem_of_seqZ in Hr. apply in_map_iff in Hin as ([[ty k] v] & <- & Hin). cbn.
    split; [lia|]. by apply list_elem_of_In.
  - intros [Hr Hin]. exists (ld_repl ld). split; [apply list_elem_of_In, elem_of_seqZ; lia|]. apply in_map_iff.
    exists (ld_ty ld, ld_key ld, ld_val ld). split; [by destruct ld|]. by apply list_elem_of_In.
Qed.

Lemma entry_load ld : ld ∈ all_loads (Mappings.num_replicas mp) entries -> load_ok ld.
Proof.
  intros [Hr Hin]%all_loads_elem. rewrite Forall_forall in Hentries. destruct (Hentries _ Hin) as (H1 & H2 & H3 & H4).
  destruct HM as [Hwf _]. pose proof (Mappings.wf_replicas mp Hwf) as [Hn _]. split; done || lia.
Qed.

(** What the insertions leave in the buckets of a key. *)
Lemma loaded_contents order w ty r k :
  (forall j, (j < W)%nat -> of_coro j order ≡ₚ all_loads (Mappings.num_replicas mp) entries) -> Forall (fun x => x.1 < W)%nat order ->
  loaded order w -> ty_prim T ty = true -> 0 <= r <= Mappings.num_backups mp ->
  a_map (w (if r =? 0 then ploc C ty k else bloc C ty k r)) !! k = contents_of ty k.
Proof.
  intros Hord Hlt [_ Hthere Honly] Hty Hr. destruct HM as [Hwf _]. pose proof (Mappings.wf_replicas mp Hwf) as [Hn _].
  assert (forall j ld, (j, ld) ∈ order <-> (j < W)%nat /\ ld ∈ all_loads (Mappings.num_replicas mp) entries) as Hel.
  { intros j ld. split.
    - intros Hin. rewrite Forall_forall in Hlt. specialize (Hlt _ Hin). cbn in Hlt. split; [done|]. rewrite <- (Hord j Hlt). unfold of_coro.
      apply (list_elem_of_fmap_2 snd _ (j, ld)). by apply list_elem_of_filter.
    - intros [Hj Hin]. rewrite <- (Hord j Hj) in Hin. unfold of_coro in Hin. apply list_elem_of_fmap in Hin as ([j' ld'] & -> & Hin).
      apply list_elem_of_filter in Hin as [E Hin]. cbn in E. by subst j'. }
  unfold contents_of. case_decide as Hk.
  - apply list_elem_of_fmap in Hk as ([[ty' k'] v] & E & Hin). cbn in E. injection E as <- <-.
    pose proof Hentries as He. rewrite Forall_forall in He. destruct (He _ Hin) as (_ & _ & Ev & _). rewrite <- Ev.
    destruct (owner_loads ty r k Hty Hr) as (j & Hj & Hm). destruct (Hm v) as [Hm1 Hm2]. rewrite <- Hm2. apply (Hthere j (mk_load ty r k v)); [|done].
    apply Hel. split; [done|]. apply all_loads_elem. cbn. split; [lia|done].
  - destruct (_ !! k) as [v|] eqn:E; [exfalso|done]. apply Hk.
    assert (exists mn i, (if r =? 0 then ploc C ty k else bloc C ty k r) = (mn, ty + r, i)) as (mn & i & El).
    { unfold ploc, bloc, loc_of. destruct (Z.eqb_spec r 0) as [->|]; rewrite ?Z.add_0_r; eauto. }
    rewrite El in E. apply Honly in E as (j & ld & [_ Hin]%Hel & Et & -> & _). pose proof (entry_load ld Hin) as [T1 R1 _ _].
    apply all_loads_elem in Hin as [_ Hin]. rewrite (tk_spacing T _ HT ty (ld_ty ld) r (ld_repl ld)) by (done || lia).
    apply list_elem_of_fmap. by exists (ld_ty ld, ld_key ld, ld_val ld).
Qed.

Lemma order_bound order :
  (forall j, (j < W)%nat -> of_coro j order ≡ₚ all_loads (Mappings.num_replicas mp) entries) -> Forall (fun x => x.1 < W)%nat order ->
  Z.of_nat (length order) < 2 ^ 59.
Proof.
  intros Hord Hlt. destruct HM as [Hwf _]. pose proof (Mappings.wf_replicas mp Hwf) as [Hn _]. pose proof (Mappings.wf_backups mp Hwf) as Hb.
  pose proof (Mappings.wf_max mp Hwf) as Hx. pose proof (Mappings.wf_tot mp Hwf) as Ht. pose proof (Mappings.wf_primary mp Hwf) as Hp.
  change HOTS_MAX_BACKUPS with 2 in Hb. change HOTS_MAX_WORKERS with 8192 in Hx. rewrite Hls, Z.sub_0_r in Hp.
  assert (length (all_loads (Mappings.num_replicas mp) entries) <= 3 * length entries)%nat as Hl.
  { unfold all_loads. rewrite (flat_map_constant_length (c := length entries)) by (intros; by rewrite length_map). rewrite length_seqZ. apply Nat.mul_le_mono_r. lia. }
  pose proof (order_length (3 * length entries) W order Hlt) as H.
  assert (length order <= W * (3 * length entries))%nat as H2.
  { apply H. intros i. destruct (decide (i < W)%nat) as [Hi|Hi]; [by rewrite (Hord i Hi)|].
    replace (of_coro i order) with (@nil load); [cbn; lia|]. clear -Hlt Hi. induction Hlt as [|[j t] order Hj _ IH]; [done|].
    unfold of_coro. cbn in Hj. rewrite filter_cons_False by (cbn; lia). exact IH. }
  assert (Z.of_nat W <= 8192) as HWb by (rewrite HW, Ht, Hp; lia). nia.
Qed.

(** Nothing is locked when the insertions are done. *)
Lemma loaded_rest order w :
  loaded order w -> Z.of_nat (length order) < 2 ^ 59 ->
  (forall ty k r, ty_prim T ty = true -> 0 <= r <= Mappings.num_backups mp ->
     a_map (w (if r =? 0 then ploc C ty k else bloc C ty k r)) !! k = contents_of ty k) -> at_rest C w.
Proof.
  intros [Hs _ _] Hlen Hc. pose proof HM as [Hwf _]. pose proof (Mappings.wf_backups mp Hwf) as Hb. split; [split; [|split]|split].
  - intros mn ty i _. destruct (Hs (mn, ty, i)) as (S1 & S2 & S3 & S4). unfold base_ts in S4. split; [|split].
    + split; [unfold u; change kTimestampCanary with 5 in S4; lia|]. by rewrite is_locked_odd, S3.
    + rewrite S2. done.
    + unfold ts_range. lia.
  - intros ty k Hty. pose proof (Hc ty k 0 Hty ltac:(lia)) as E. cbn [Z.eqb] in E. rewrite E. by apply Hok.
  - intros mn ty i _ _. destruct (Hs (mn, ty, i)) as (_ & _ & S3 & _). by rewrite is_unlocked_even, S3.
  - intros ty k Hty _ r Hr. pose proof (Hc ty k 0 Hty ltac:(lia)) as E0. cbn [Z.eqb] in E0. cbn [cl_nback cluster_of] in Hr.
    pose proof (Hc ty k r Hty ltac:(lia)) as E. rewrite (proj2 (Z.eqb_neq r 0)) in E by lia. by rewrite E, E0.
  - intros mn ty i _. destruct (Hs (mn, ty, i)) as (_ & _ & S3 & _). by rewrite is_unlocked_even, S3.
Qed.

(** Population from fresh tables. *)
Lemma population order st :
  stores_ok C st -> fresh_stores C st ->
  (forall j, (j < W)%nat -> of_coro j order ≡ₚ all_loads (Mappings.num_replicas mp) entries) -> Forall (fun x => x.1 < W)%nat order ->
  (exists st', run_loads mps order st = Ok st' /\ stores_ok C st' /\ at_rest C (contents C st') /\
     forall ty k, ty_prim T ty = true -> db C (contents C st') ty k = contents_of ty k) \/
  (run_loads mps order st = Err ExitFail /\
   exists pre st1 mn ty, pre `prefix_of` order /\ run_loads mps pre st = Ok st1 /\ cl_has C mn ty = true /\ fl_head (st_table st1 mn ty) = 0).
Proof.
  intros Hst Hf Hord Hlt. pose proof HM as [Hwf _]. pose proof (Mappings.wf_replicas mp Hwf) as [Hn _]. pose proof (Mappings.wf_backups mp Hwf) as Hb.
  pose proof (order_bound order Hord Hlt) as Hlen.
  assert (loaded [] (contents C st)) as Hw0.
  { split.
    - intros l. rewrite (fresh_contents C st l Hf). by vm_compute.
    - intros j ld Hin. by apply not_elem_of_nil in Hin.
    - intros mn ty i k v. rewrite (fresh_contents C st _ Hf). cbn. by rewrite lookup_empty. }
  assert (Forall (fun x => (x.1 < W)%nat /\ load_ok x.2) order) as Ho.
  { apply Forall_forall. intros [j ld] Hin. rewrite Forall_forall in Hlt. specialize (Hlt _ Hin). cbn in *. split; [done|]. apply entry_load.
    rewrite <- (Hord j Hlt). unfold of_coro. apply (list_elem_of_fmap_2 snd _ (j, ld)). by apply list_elem_of_filter. }
  destruct (run_loads_ok order [] st Ho) as [(st' & E & Hst' & Hw)|H]; try done; [left|by right].
  exists st'. split; [done|]. split; [done|]. cbn [app] in Hw.
  assert (forall ty k r, ty_prim T ty = true -> 0 <= r <= Mappings.num_backups mp ->
    a_map (contents C st' (if r =? 0 then ploc C ty k else bloc C ty k r)) !! k = contents_of ty k) as Hc.
  { intros ty k r Hty Hr. by apply (loaded_contents order). }
  split; [|intros ty k Hty; apply (Hc ty k 0 Hty); lia]. by apply loaded_rest with order.
Qed.
End Entries.
End Population.

(** ** All workers of a cluster *)

Record staff (mp : Mappings.t) (mps : nat -> Mappings.t) (W : nat) : Prop := {
  sf_maps : Mappings.replicated mp /\ Mappings.use_lock_server mp = false;
  sf_count : Z.of_nat W = Mappings.tot_primary_workers mp;
  sf_worker j : (j < W)%nat -> Mappings.at_worker mp (Z.of_nat j) = Ok (mps j)
}.

Lemma staff_replicas mp mps W j :
  staff mp mps W -> (j < W)%nat -> Mappings.num_replicas (mps j) = Mappings.num_replicas mp /\ 0 <= Mappings.num_replicas mp <= 10.
Proof.
  intros [[HM _] _ Hmps] Hj. pose proof HM as [Hwf _]. pose proof (Mappings.wf_backups mp Hwf) as Hb. pose proof (Mappings.wf_replicas mp Hwf) as [Hn _].
  pose proof (Hmps j Hj) as Hat. pose proof (Mappings.make_wf _ _ _ _ _ _ Hat) as Hw'. pose proof (Mappings.make_fields _ _ _ _ _ _ Hat) as (_ & _ & _ & E & _).
  pose proof (Mappings.wf_replicas _ Hw') as [Hn' _]. change HOTS_MAX_BACKUPS with 2 in Hb. lia.
Qed.
End TxPopulate.
