(* ===== verification/Smallbank.v ===== *)
(** * SmallBank

    The banking application of [src/app/smallbank]: accounts with a savings and a
    checking balance, six kinds of transactions on them, the generators that choose
    them, the coroutines that run them, and the population of the tables. *)

From S2P Require Import Prelude Util Float32 Random Hots Mappings FixedTable Datastore RpcDefs RpcBatch Tx.
From Stdlib Require Import ZArith Lia Bool.
From stdpp Require Import base numbers list.
#[local] Open Scope Z_scope.
Import Random FixedTable RpcDefs RpcBatch Tx.

Module Smallbank.

(** ** [sb_defs.h] *)

Definition FREQUENCY_AMALGAMATE : Z := 15.
Definition FREQUENCY_BALANCE : Z := 15.
Definition FREQUENCY_DEPOSIT_CHECKING : Z := 15.
Definition FREQUENCY_SEND_PAYMENT : Z := 25.
Definition FREQUENCY_TRANSACT_SAVINGS : Z := 15.
Definition FREQUENCY_WRITE_CHECK : Z := 15.

Definition DEFAULT_NUM_ACCOUNTS : Z := 100000.
Definition DEFAULT_NUM_HOT : Z := 4000.
Definition TX_HOT : Z := 90.

Definition SAVING_BASE_SHM_KEY : Z := 2000.
Definition CHECKING_BASE_SHM_KEY : Z := 4000.

Definition SB_MAGIC : Z := 97.
Definition sb_sav_magic : Z := SB_MAGIC.
Definition sb_chk_magic : Z := SB_MAGIC + 1.

Inductive sb_txn_type_t : Type :=
| amalgamate | balance | deposit_checking | send_payment | transact_saving | write_check.

#[global] Instance sb_txn_type_eq_dec : EqDecision sb_txn_type_t.
Proof. solve_decision. Defined.

(** The key of an account, by the union of [acct_id] and [hots_key]. *)
Definition sb_key (acct_id : Z) : Z := acct_id.

(** The bytes of [sb_sav_val_t] and [sb_chk_val_t]: the magic number and the balance. *)
Definition sizeof_sb_val : Z := 8.
Definition sb_val (magic bal : Z) : list byte := le_bytes 4 magic ++ le_bytes 4 bal.

(** ** [sb.h] *)

Record sb := mk_sb {
  num_machines : Z; workers_per_machine : Z; num_replicas : Z;
  tot_primary_workers : Z; num_accounts_global : Z; num_hot_global : Z
}.

(** The constructor without the tables; [int] products must not overflow, the account
    numbers are [uint32_t]. *)
Definition make (num_machines workers_per_machine num_replicas : Z) : res sb :=
  tot ← chk_int (num_machines * workers_per_machine);
  let tot := wrap 32 tot in
  _ ← assert_ (wrap 64 (tot * DEFAULT_NUM_ACCOUNTS) <=? 2 * 1024 * 1024 * 1024);
  Ok (mk_sb num_machines workers_per_machine num_replicas tot
        (wrap 32 (tot * DEFAULT_NUM_ACCOUNTS)) (wrap 32 (tot * DEFAULT_NUM_HOT))).

(** The loops fill the array from the index that the one before has left. *)
Definition create_workgen_array : res (list sb_txn_type_t) :=
  let fill n (ty : sb_txn_type_t) arr := arr ++ replicate (Z.to_nat n) ty in
  let arr := fill FREQUENCY_AMALGAMATE amalgamate [] in
  let arr := fill FREQUENCY_BALANCE balance arr in
  let arr := fill FREQUENCY_DEPOSIT_CHECKING deposit_checking arr in
  let arr := fill FREQUENCY_SEND_PAYMENT send_payment arr in
  let arr := fill FREQUENCY_TRANSACT_SAVINGS transact_saving arr in
  let arr := fill FREQUENCY_WRITE_CHECK write_check arr in
  _ ← assert_ (Z.of_nat (length arr) =? 100);
  Ok arr.

Section Generators.
Context (s : sb).

(** A random account below [n]. *)
Definition draw (n seed : Z) : res (Z * Z) :=
  let '(r, seed) := hrd_fastrand seed in
  if n =? 0 then Err DivByZero else Ok (r mod n, seed).

Definition get_account (seed : Z) : res (Z * Z) :=
  let '(r, seed) := hrd_fastrand seed in
  if r mod 100 <? TX_HOT then draw (num_hot_global s) seed else draw (num_accounts_global s) seed.

(** The loop that draws a second account until it differs from the first; the generator
    draws every number within [2^64] steps. *)
Definition draw_other (n acct_id_0 seed : Z) : res (Z * Z) :=
  let again seed := let '(r, seed) := hrd_fastrand seed in
                    if r mod n =? acct_id_0 then inl seed else inr (r mod n, seed) in
  match loop (2 ^ 64) again (inl seed) with
  | inr r => Ok r
  | inl _ => Err Diverge
  end.

Definition draw_two (n seed : Z) : res (Z * Z * Z) :=
  '(acct_id_0, seed) ← draw n seed;
  '(acct_id_1, seed) ← draw_other n acct_id_0 seed;
  Ok (acct_id_0, acct_id_1, seed).

Definition get_two_accounts (seed : Z) : res (Z * Z * Z) :=
  let '(r, seed) := hrd_fastrand seed in
  if r mod 100 <? TX_HOT then draw_two (num_hot_global s) seed else draw_two (num_accounts_global s) seed.

End Generators.

(** ** [worker.cc] *)

(** What a call of a transaction finds: the seed of the thread, which all its coroutines
    advance; the addresses of its local objects, on the stack of the coroutine; and what
    the items that are added to the transaction leave uninitialised. *)
Record frame := mk_frame { fr_seed : Z; fr_obj : nat -> Z; fr_un : nat -> uninit }.

(** A transaction with its parameters, for the record of what was executed. *)
Inductive sb_op : Type :=
| Amalgamate (acct_id_0 acct_id_1 : Z)
| Balance (acct_id : Z)
| Deposit_checking (acct_id : Z)
| Send_payment (acct_id_0 acct_id_1 : Z)
| Transact_saving (acct_id : Z)
| Write_check (acct_id : Z).

(** The members of the value of an object: [val] is 16 bytes into it, and [bal] 4 bytes
    into the value. *)
Definition load32 (a : Z) (m : list byte) : res Z :=
  bs ← read_at (Z.to_nat a) 4 m; Ok (le_val bs).
Definition store32 (a v : Z) (m : list byte) : res (list byte) :=
  write_at (Z.to_nat a) (le_bytes 4 v) m.
Definition get_magic (o : Z) (m : list byte) : res Z := load32 (o + 16) m.
Definition get_bal (o : Z) (m : list byte) : res Z := load32 (o + 20) m.
Definition set_bal (o v : Z) (m : list byte) : res (list byte) := store32 (o + 20) v m.

Definition assert_magic (magic o : Z) (m : list byte) : res unit :=
  g ← get_magic o m; assert_ (g =? magic).

(** [sb_dassert] that the execute phase has ended in one of two ways. *)
Definition assert_executed (st : tx_status_t) : res unit :=
  assert_ (bool_decide (st = in_progress \/ st = must_abort)).

(** The amounts are converted from [double] constants. *)
Definition amount_1_3 : Z := Float32.of_literal 13 10.
Definition amount_5_0 : Z := Float32.of_int 5.
Definition amount_20_20 : Z := Float32.of_literal 2020 100.

(** A result: the transaction, whether the statistics count it as committed, and the
    transaction object and memory it leaves. *)
Notation sb_result := (sb_op * bool * tx * list byte)%type.

Section Transactions.
Context (s : sb).

Definition txn_amalgamate (f : frame) (x : tx) (m : list byte) : prog sb_result :=
  let x := start x in
  '(acct_id_0, acct_id_1, _) ← lift (get_two_accounts s (fr_seed f));
  let op := Amalgamate acct_id_0 acct_id_1 in
  let sav_obj_0 := fr_obj f 0 in
  '(_, x) ← lift (add_to_write_set RPC_SAVING_REQ (sb_key acct_id_0) sav_obj_0 wm_update (fr_un f 0) x);
  let chk_obj_0 := fr_obj f 1 in
  '(_, x) ← lift (add_to_write_set RPC_CHECKING_REQ (sb_key acct_id_0) chk_obj_0 wm_update (fr_un f 1) x);
  let chk_obj_1 := fr_obj f 2 in
  '(_, x) ← lift (add_to_write_set RPC_CHECKING_REQ (sb_key acct_id_1) chk_obj_1 wm_update (fr_un f 2) x);
  '(ex_result, x, m) ← do_read false x m;
  _ ← lift (assert_executed ex_result);
  if decide (ex_result = must_abort) then '(x, m) ← abort false x m; Done (op, false, x, m)
  else
    _ ← lift (assert_magic sb_sav_magic sav_obj_0 m);
    _ ← lift (assert_magic sb_chk_magic chk_obj_0 m);
    _ ← lift (assert_magic sb_chk_magic chk_obj_1 m);
    b1 ← lift (get_bal chk_obj_1 m);
    s0 ← lift (get_bal sav_obj_0 m);
    b0 ← lift (get_bal chk_obj_0 m);
    m ← lift (set_bal chk_obj_1 (Float32.add b1 (Float32.add s0 b0)) m);
    m ← lift (set_bal sav_obj_0 (Float32.of_int 0) m);
    m ← lift (set_bal chk_obj_0 (Float32.of_int 0) m);
    '(commit_status, x, m) ← commit false x m;
    _ ← lift (assert_ (bool_decide (commit_status = committed)));
    Done (op, true, x, m).

Definition txn_balance (f : frame) (x : tx) (m : list byte) : prog sb_result :=
  let x := start x in
  '(acct_id, _) ← lift (get_account s (fr_seed f));
  let op := Balance acct_id in
  let sav_obj := fr_obj f 0 in
  '(_, x) ← lift (add_to_read_set RPC_SAVING_REQ (sb_key acct_id) sav_obj (fr_un f 0) x);
  let chk_obj := fr_obj f 1 in
  '(_, x) ← lift (add_to_read_set RPC_CHECKING_REQ (sb_key acct_id) chk_obj (fr_un f 1) x);
  '(ex_result, x, m) ← do_read false x m;
  if decide (ex_result <> in_progress) then Done (op, false, abort_rdonly x, m)
  else
    _ ← lift (assert_magic sb_sav_magic sav_obj m);
    _ ← lift (assert_magic sb_chk_magic chk_obj m);
    '(commit_result, x, m) ← commit false x m;
    if decide (commit_result = committed) then Done (op, true, x, m)
    else Done (op, false, abort_rdonly x, m).

Definition txn_deposit_checking (f : frame) (x : tx) (m : list byte) : prog sb_result :=
  let x := start x in
  '(acct_id, _) ← lift (get_account s (fr_seed f));
  let op := Deposit_checking acct_id in
  let chk_obj := fr_obj f 0 in
  '(_, x) ← lift (add_to_write_set RPC_CHECKING_REQ (sb_key acct_id) chk_obj wm_update (fr_un f 0) x);
  '(ex_result, x, m) ← do_read false x m;
  _ ← lift (assert_executed ex_result);
  if decide (ex_result = must_abort) then '(x, m) ← abort false x m; Done (op, false, x, m)
  else
    _ ← lift (assert_magic sb_chk_magic chk_obj m);
    b ← lift (get_bal chk_obj m);
    m ← lift (set_bal chk_obj (Float32.add b amount_1_3) m);
    '(commit_status, x, m) ← commit false x m;
    _ ← lift (assert_ (bool_decide (commit_status = committed)));
    Done (op, true, x, m).

Definition txn_send_payment (f : frame) (x : tx) (m : list byte) : prog sb_result :=
  let x := start x in
  '(acct_id_0, acct_id_1, _) ← lift (get_two_accounts s (fr_seed f));
  let op := Send_payment acct_id_0 acct_id_1 in
  let chk_obj_0 := fr_obj f 0 in
  let chk_obj_1 := fr_obj f 1 in
  '(_, x) ← lift (add_to_write_set RPC_CHECKING_REQ (sb_key acct_id_0) chk_obj_0 wm_update (fr_un f 0) x);
  '(_, x) ← lift (add_to_write_set RPC_CHECKING_REQ (sb_key acct_id_1) chk_obj_1 wm_update (fr_un f 1) x);
  '(ex_result, x, m) ← do_read false x m;
  _ ← lift (assert_executed ex_result);
  if decide (ex_result = must_abort) then '(x, m) ← abort false x m; Done (op, false, x, m)
  else
    _ ← lift (assert_magic sb_chk_magic chk_obj_0 m);
    _ ← lift (assert_magic sb_chk_magic chk_obj_1 m);
    b0 ← lift (get_bal chk_obj_0 m);
    if Float32.ltb b0 amount_5_0 then '(x, m) ← abort false x m; Done (op, false, x, m)
    else
      m ← lift (set_bal chk_obj_0 (Float32.sub b0 amount_5_0) m);
      b1 ← lift (get_bal chk_obj_1 m);
      m ← lift (set_bal chk_obj_1 (Float32.add b1 amount_5_0) m);
      '(commit_status, x, m) ← commit false x m;
      _ ← lift (assert_ (bool_decide (commit_status = committed)));
      Done (op, true, x, m).

Definition txn_transact_saving (f : frame) (x : tx) (m : list byte) : prog sb_result :=
  let x := start x in
  '(acct_id, _) ← lift (get_account s (fr_seed f));
  let op := Transact_saving acct_id in
  let sav_obj := fr_obj f 0 in
  '(_, x) ← lift (add_to_write_set RPC_SAVING_REQ (sb_key acct_id) sav_obj wm_update (fr_un f 0) x);
  '(ex_result, x, m) ← do_read false x m;
  _ ← lift (assert_executed ex_result);
  if decide (ex_result = must_abort) then '(x, m) ← abort false x m; Done (op, false, x, m)
  else
    _ ← lift (assert_magic sb_sav_magic sav_obj m);
    b ← lift (get_bal sav_obj m);
    m ← lift (set_bal sav_obj (Float32.add b amount_20_20) m);
    '(commit_status, x, m) ← commit false x m;
    _ ← lift (assert_ (bool_decide (commit_status = committed)));
    Done (op, true, x, m).

Definition txn_write_check (f : frame) (x : tx) (m : list byte) : prog sb_result :=
  let x := start x in
  '(acct_id, _) ← lift (get_account s (fr_seed f));
  let op := Write_check acct_id in
  let sav_obj := fr_obj f 0 in
  '(_, x) ← lift (add_to_read_set RPC_SAVING_REQ (sb_key acct_id) sav_obj (fr_un f 0) x);
  let chk_obj := fr_obj f 1 in
  '(_, x) ← lift (add_to_write_set RPC_CHECKING_REQ (sb_key acct_id) chk_obj wm_update (fr_un f 1) x);
  '(ex_result, x, m) ← do_read false x m;
  _ ← lift (assert_executed ex_result);
  if decide (ex_result = must_abort) then '(x, m) ← abort false x m; Done (op, false, x, m)
  else
    _ ← lift (assert_magic sb_sav_magic sav_obj m);
    _ ← lift (assert_magic sb_chk_magic chk_obj m);
    sv ← lift (get_bal sav_obj m);
    b ← lift (get_bal chk_obj m);
    m ← lift (if Float32.ltb (Float32.add sv b) amount_5_0
              then set_bal chk_obj (Float32.sub b (Float32.add amount_5_0 (Float32.of_int 1))) m
              else set_bal chk_obj (Float32.sub b amount_5_0) m);
    '(commit_result, x, m) ← commit false x m;
    Done (op, bool_decide (commit_result = committed), x, m).

Definition run_txn (ty : sb_txn_type_t) (f : frame) (x : tx) (m : list byte) : prog sb_result :=
  match ty with
  | amalgamate => txn_amalgamate f x m
  | balance => txn_balance f x m
  | deposit_checking => txn_deposit_checking f x m
  | send_payment => txn_send_payment f x m
  | transact_saving => txn_transact_saving f x m
  | write_check => txn_write_check f x m
  end.

(** The loop of [slave_func], for as many transactions as there are frames: it chooses a
    type with the seed it finds, and the transaction goes on with the next one. *)
Fixpoint slave_loop (workgen_arr : list sb_txn_type_t) (fs : list frame) (x : tx) (m : list byte) (sofar : list (sb_op * bool)) :
    prog (list (sb_op * bool)) :=
  match fs with
  | [] => Done sofar
  | f :: fs =>
      let '(r, seed) := hrd_fastrand (fr_seed f) in
      txn_type ← lift (at_ workgen_arr (r mod 100));
      '(op, ok, x, m) ← run_txn txn_type (mk_frame seed (fr_obj f) (fr_un f)) x m;
      slave_loop workgen_arr fs x m (sofar ++ [(op, ok)])
  end.

(** [rec] is the log record of the coroutine and [m] its memory. *)
Definition slave_func (coro_id : Z) (mp : Mappings.t) (rec : list byte) (workgen_arr : list sb_txn_type_t)
    (fs : list frame) (m : list byte) : prog (list (sb_op * bool)) :=
  _ ← lift (assert_ (negb (coro_id =? RPC_MASTER_CORO_ID)));
  x ← lift (Tx.make false coro_id true mp rec);
  slave_loop workgen_arr fs x m [].

End Transactions.

(** ** [sb_utils.cc] *)

(** The tables of a machine, one per replica. *)
Record tables := mk_tables { saving_table : list table; checking_table : list table }.

Fixpoint init_tables (cr cw : bool) (item_count base : Z) (repls : list Z) : res (list table) :=
  match repls with
  | [] => Ok []
  | repl_i :: repls =>
      t ← ds_fixedtable_init cr cw item_count sizeof_sb_val (base + repl_i) (repl_i =? 0);
      ts ← init_tables cr cw item_count base repls;
      Ok (t :: ts)
  end.

(** The two flags and the number of items come from the configuration of each table. *)
Definition init_all_tables (sav chk : bool * bool * Z) (num_replicas : Z) : res tables :=
  let '(cr, cw, n) := sav in
  s ← init_tables cr cw n SAVING_BASE_SHM_KEY (seqZ 0 num_replicas);
  let '(cr, cw, n) := chk in
  c ← init_tables cr cw n CHECKING_BASE_SHM_KEY (seqZ 0 num_replicas);
  Ok (mk_tables s c).

Definition load_into_table (mp : Mappings.t) (t : table) (repl_i hots_key : Z) (val : list byte) : res (Z * table) :=
  let val_size := Z.of_nat (length val) in
  _ ← assert_ (val_size <=? HOTS_MAX_VALUE);
  _ ← assert_ (val_size =? FixedTable.val_size t);
  keyhash ← ds_keyhash hots_key;
  if negb (Mappings.should_i_populate mp keyhash repl_i) then Ok (0, t)
  else
    '(out_result, t) ← set_spinlock (Mappings.wrkr_gid mp) keyhash hots_key val t;
    if decide (out_result = kSuccess) then Ok (1, t) else Err ExitFail.

Definition initial_bal : Z := Float32.of_int 1000000000.

(** The body of the population loops. *)
Definition populate_account (mp : Mappings.t) (repl_i acct_id : Z) (ts : tables) : res tables :=
  st ← at_ (saving_table ts) repl_i;
  '(_, st) ← load_into_table mp st repl_i (sb_key acct_id) (sb_val sb_sav_magic initial_bal);
  ct ← at_ (checking_table ts) repl_i;
  '(_, ct) ← load_into_table mp ct repl_i (sb_key acct_id) (sb_val sb_chk_magic initial_bal);
  Ok (mk_tables (<[Z.to_nat repl_i := st]> (saving_table ts)) (<[Z.to_nat repl_i := ct]> (checking_table ts))).

Fixpoint populate_accounts (mp : Mappings.t) (repl_i : Z) (accts : list Z) (ts : tables) : res tables :=
  match accts with
  | [] => Ok ts
  | a :: accts => ts ← populate_account mp repl_i a ts; populate_accounts mp repl_i accts ts
  end.

Fixpoint populate_replicas (mp : Mappings.t) (repls accts : list Z) (ts : tables) : res tables :=
  match repls with
  | [] => Ok ts
  | r :: repls => ts ← populate_accounts mp r accts ts; populate_replicas mp repls accts ts
  end.

Definition populate_savings_and_checking_table (s : sb) (mp : Mappings.t) (ts : tables) : res tables :=
  populate_replicas mp (seqZ 0 (Mappings.num_replicas mp)) (seqZ 0 (num_accounts_global s)) ts.

End Smallbank.
