(* ===== verification/SmallbankSpec.v ===== *)
(** * SmallBank: accounts and the bank

    The generators choose accounts that exist, and two different ones where two are
    needed; and the specification of the transactions: what each does to a bank that
    is nothing but the balances of its accounts. *)

From S2P Require Import Prelude Util Float32 Random Hots RpcDefs Tx TxSerial Smallbank.
From Stdlib Require Import ZArith Lia Bool.
From stdpp Require Import base functions numbers sets list.
#[local] Open Scope Z_scope.
Import Random RpcDefs TxSerial Smallbank.

Module SmallbankSpec.

(** ** Definitions *)

(** The sizes that the constructor computes. *)
Record sb_ok (s : sb) : Prop := {
  sk_hot : 1 < num_hot_global s <= num_accounts_global s;
  sk_bound : num_accounts_global s <= 2 ^ 31
}.

(** A bank: the balances, as bit patterns, of the accounts. *)
Record bank := mk_bank { b_sav : Z -> Z; b_chk : Z -> Z }.

Definition set_sav (a v : Z) (b : bank) : bank := mk_bank (<[a := v]> (b_sav b)) (b_chk b).
Definition set_chk (a v : Z) (b : bank) : bank := mk_bank (b_sav b) (<[a := v]> (b_chk b)).

(** What a transaction does to the bank, if it commits at all. *)
Definition run_op (op : sb_op) (b : bank) : option bank :=
  match op with
  | Amalgamate a0 a1 =>
      let total := Float32.add (b_chk b a1) (Float32.add (b_sav b a0) (b_chk b a0)) in
      let zero := Float32.of_int 0 in
      Some (set_chk a0 zero (set_sav a0 zero (set_chk a1 total b)))
  | Balance _ => Some b
  | Deposit_checking a => Some (set_chk a (Float32.add (b_chk b a) amount_1_3) b)
  | Send_payment a0 a1 =>
      if Float32.ltb (b_chk b a0) amount_5_0 then None
      else Some (set_chk a1 (Float32.add (b_chk b a1) amount_5_0) (set_chk a0 (Float32.sub (b_chk b a0) amount_5_0) b))
  | Transact_saving a => Some (set_sav a (Float32.add (b_sav b a) amount_20_20) b)
  | Write_check a =>
      let fee := if Float32.ltb (Float32.add (b_sav b a) (b_chk b a)) amount_5_0
                 then Float32.add amount_5_0 (Float32.of_int 1) else amount_5_0 in
      Some (set_chk a (Float32.sub (b_chk b a) fee) b)
  end.

Fixpoint run_ops (ops : list sb_op) (b : bank) : option bank :=
  match ops with
  | [] => Some b
  | op :: ops => b ← run_op op b; run_ops ops b
  end.

(** The accounts of a transaction exist, and two are different. *)
Definition op_ok (N : Z) (op : sb_op) : Prop :=
  match op with
  | Amalgamate a0 a1 | Send_payment a0 a1 => 0 <= a0 < N /\ 0 <= a1 < N /\ a0 <> a1
  | Balance a | Deposit_checking a | Transact_saving a | Write_check a => 0 <= a < N
  end.

(** The table entries that a transaction reads, and those that it writes. *)
Definition op_reads (op : sb_op) : list (Z * Z) :=
  match op with
  | Balance a => [(RPC_SAVING_REQ, a); (RPC_CHECKING_REQ, a)]
  | Write_check a => [(RPC_SAVING_REQ, a)]
  | _ => []
  end.
Definition op_writes (op : sb_op) : list (Z * Z) :=
  match op with
  | Amalgamate a0 a1 => [(RPC_SAVING_REQ, a0); (RPC_CHECKING_REQ, a0); (RPC_CHECKING_REQ, a1)]
  | Balance _ => []
  | Deposit_checking a | Write_check a => [(RPC_CHECKING_REQ, a)]
  | Send_payment a0 a1 => [(RPC_CHECKING_REQ, a0); (RPC_CHECKING_REQ, a1)]
  | Transact_saving a => [(RPC_SAVING_REQ, a)]
  end.

(** The entry of a table for an account of a bank. *)
Definition magic_of (ty : Z) : Z := if ty =? RPC_SAVING_REQ then sb_sav_magic else sb_chk_magic.
Definition bal_of (b : bank) (ty a : Z) : Z := if ty =? RPC_SAVING_REQ then b_sav b a else b_chk b a.
Definition entry (b : bank) (tk : Z * Z) : list byte := sb_val (magic_of tk.1) (bal_of b tk.1 tk.2).

(** The transaction on the tables that takes bank [b] to bank [b']. *)
Definition op_txn (op : sb_op) (b b' : bank) : txn :=
  mk_txn (map (fun tk => (tk.1, tk.2, Some (entry b tk))) (op_reads op))
         (map (fun tk => (tk.1, tk.2, Some (entry b tk), Some (entry b' tk))) (op_writes op)).

(** The tables hold the balances of the bank. *)
Definition is_sb (ty : Z) : Prop := ty = RPC_SAVING_REQ \/ ty = RPC_CHECKING_REQ.
Definition represents (N : Z) (σ : Z -> Z -> option (list byte)) (b : bank) : Prop :=
  forall ty a, is_sb ty -> 0 <= a < N -> u 32 (bal_of b ty a) /\ σ ty a = Some (entry b (ty, a)).

(** A transaction on the tables that is [op] on some bank. *)
Definition does_op (N : Z) (t : txn) (op : sb_op) : Prop :=
  op_ok N op /\ exists b b', run_op op b = Some b' /\ Forall (fun tk => u 32 (bal_of b tk.1 tk.2)) (op_reads op ++ op_writes op) /\
    t = op_txn op b b'.

(** The transactions that a coroutine has counted as committed. *)
Definition done_ops (l : list (sb_op * bool)) : list sb_op := omap (fun x : sb_op * bool => if x.2 then Some x.1 else None) l.

(** The bank after the population. *)
Definition bank0 : bank := mk_bank (fun _ => initial_bal) (fun _ => initial_bal).

(** ** Generators *)

Lemma sb_make_ok nm wpm nr s :
  0 < nm -> 0 < wpm -> make nm wpm nr = Ok s -> sb_ok s /\ num_accounts_global s = nm * wpm * DEFAULT_NUM_ACCOUNTS.
Proof.
  intros Hn Hw H. unfold make in H. destruct (chk_int (nm * wpm)) as [tot|] eqn:E; [|done]. apply chk_int_ok in E as [-> Hi].
  change DEFAULT_NUM_ACCOUNTS with 100000 in *. change DEFAULT_NUM_HOT with 4000 in *. rewrite bind_Ok in H.
  set (tot := nm * wpm) in *. assert (0 < tot) as Ht by (unfold tot; nia). clearbody tot.
  rewrite (wrap_id 32 tot) in H by (unfold u; lia). rewrite (wrap_id 64) in H by (unfold u; lia).
  unfold assert_ in H. destruct (Z.leb_spec (tot * 100000) (2 * 1024 * 1024 * 1024)) as [Hle|]; [|done]. cbn [mbind res_bind] in H.
  rewrite !(wrap_id 32) in H by (unfold u; lia). injection H as <-. split; [|done].
  split; cbn [num_hot_global num_accounts_global]; lia.
Qed.

Section Generators.
Context (s : sb) (Hs : sb_ok s).
Notation N := (num_accounts_global s).

Lemma draw_ok n seed : 0 < n -> exists a seed', draw n seed = Ok (a, seed') /\ 0 <= a < n.
Proof.
  intros Hn. unfold draw. destruct (hrd_fastrand seed) as [r seed']. destruct (Z.eqb_spec n 0); [lia|].
  do 2 eexists. split; [done|]. by apply Z.mod_pos_bound.
Qed.

Lemma get_account_ok seed : exists a seed', get_account s seed = Ok (a, seed') /\ 0 <= a < N.
Proof.
  pose proof (sk_hot s Hs) as Hh. unfold get_account. destruct (hrd_fastrand seed) as [r seed1]. case_match.
  - destruct (draw_ok (num_hot_global s) seed1) as (a & seed' & E & Ha); [lia|]. exists a, seed'. split; [done|lia].
  - apply draw_ok. lia.
Qed.

#[local] Opaque Nat.pow Nat.iter.

(** One step of the loop that draws the second account. *)
Definition again (n a seed : Z) : Z + Z * Z :=
  let '(r, seed) := hrd_fastrand seed in if r mod n =? a then inl seed else inr (r mod n, seed).

Lemma again_step n a seed :
  again n a seed = if (hrd_fastrand seed).1 mod n =? a then inl (next seed) else inr ((hrd_fastrand seed).1 mod n, next seed).
Proof. unfold again, next. by destruct (hrd_fastrand seed). Qed.

(** It ends when 0 or 1 is drawn, the one of them that is not the first account. *)
Lemma draw_other_ok n a seed : 1 < n -> exists b seed', draw_other n a seed = Ok (b, seed') /\ 0 <= b < n /\ b <> a.
Proof.
  intros Hn. unfold draw_other. fold (again n a).
  destruct (loop_draws (again n a) (if a =? 0 then 1 else 0) seed) as (sd & b & -> & E).
  - unfold u. case_match; lia.
  - intros sd. rewrite again_step. case_match; [by left|right; by eexists].
  - intros sd E. rewrite again_step, E, Z.mod_small by (case_match; lia).
    destruct (Z.eqb_spec a 0) as [->|]; [by eexists|]. destruct (Z.eqb_spec 0 a); [lia|by eexists].
  - rewrite again_step in E. destruct (Z.eqb_spec ((hrd_fastrand sd).1 mod n) a); [done|]. injection E as <-.
    do 2 eexists. split; [done|]. split; [apply Z.mod_pos_bound; lia|done].
Qed.

Lemma draw_two_ok n seed :
  1 < n -> exists a b seed', draw_two n seed = Ok (a, b, seed') /\ 0 <= a < n /\ 0 <= b < n /\ a <> b.
Proof.
  intros Hn. unfold draw_two. destruct (draw_ok n seed ltac:(lia)) as (a & seed1 & -> & Ha). rewrite bind_Ok.
  destruct (draw_other_ok n a seed1 Hn) as (b & seed2 & -> & Hb & Hne). rewrite bind_Ok. eauto 10.
Qed.

Lemma two_accounts_ok seed :
  exists a b seed', get_two_accounts s seed = Ok (a, b, seed') /\ 0 <= a < N /\ 0 <= b < N /\ a <> b.
Proof.
  pose proof (sk_hot s Hs) as Hh. unfold get_two_accounts.
  destruct (hrd_fastrand seed) as [r seed1]. case_match; [|apply draw_two_ok; lia].
  destruct (draw_two_ok (num_hot_global s) seed1) as (a & b & seed' & -> & Ha & Hb & Hne); [lia|].
  exists a, b, seed'. split; [done|]. split; [lia|]. split; [lia|done].
Qed.

End Generators.

(** ** The bank behind the tables *)

Lemma sb_val_inj g a b : u 32 a -> u 32 b -> sb_val g a = sb_val g b -> a = b.
Proof.
  intros Ha Hb E. unfold sb_val in E. apply app_inv_head in E. apply (f_equal le_val) in E. by rewrite !le_val_bytes in E.
Qed.

Lemma sb_val_length g b : length (sb_val g b) = 8%nat.
Proof. unfold sb_val. by rewrite length_app, !length_le_bytes. Qed.

Lemma writes_sb op ty a : (ty, a) ∈ op_writes op -> is_sb ty.
Proof. unfold is_sb. destruct op; simpl; set_solver. Qed.

Lemma writes_nodup N op : op_ok N op -> NoDup (op_writes op).
Proof.
  unfold op_writes, op_ok, RPC_SAVING_REQ, RPC_CHECKING_REQ. destruct op; intros H; destruct_and?; repeat (apply NoDup_cons; split);
    first [apply NoDup_nil_2|set_solver].
Qed.

#[local] Opaque Float32.add Float32.sub Float32.ltb Float32.of_int amount_1_3 amount_5_0 amount_20_20.

(** A transaction depends only on the balances it reads or writes, and changes only
    those it writes. *)
Lemma op_local N op b b' β :
  op_ok N op -> run_op op b = Some b' ->
  Forall (fun tk => bal_of b tk.1 tk.2 = bal_of β tk.1 tk.2) (op_reads op ++ op_writes op) ->
  exists β', run_op op β = Some β' /\ forall ty a, is_sb ty ->
    ((ty, a) ∈ op_writes op -> bal_of β' ty a = bal_of b' ty a /\ u 32 (bal_of b' ty a)) /\
    ((ty, a) ∉ op_writes op -> bal_of β' ty a = bal_of β ty a).
Proof.
  intros Hop Hrun Heq. destruct op as [a0 a1|a0|a0|a0 a1|a0|a0]; cbn [op_reads op_writes app] in *; rewrite ?Forall_cons in Heq; unfold bal_of in *;
    cbn in Heq; repeat match goal with H : _ /\ _ |- _ => destruct H end; cbn [run_op] in *.
  all: repeat match goal with
       | H : b_chk _ _ = b_chk _ _ |- _ => rewrite H in *; clear H
       | H : b_sav _ _ = b_sav _ _ |- _ => rewrite H in *; clear H
       end.
  all: try (case_match; [done|]); injection Hrun as <-; eexists; (split; [reflexivity|]).
  all: intros ty a [-> | ->]; cbn [Z.eqb b_sav b_chk set_sav set_chk RPC_SAVING_REQ RPC_CHECKING_REQ Pos.eqb]; unfold insert, fn_insert.
  all: split; intros Hel; set_unfold in Hel; repeat case_decide; subst.
  all: try reflexivity; try (split; [reflexivity|first [apply Float32.add_range|apply Float32.sub_range|apply Float32.of_int_range]]).
  all: exfalso; clear Hop; repeat match goal with F : Forall _ _ |- _ => clear F end;
    unfold RPC_SAVING_REQ, RPC_CHECKING_REQ in Hel; first [apply Hel; by auto 6|by destruct_or?; simplify_eq].
Qed.

(** The tables after a transaction are those of the bank after it. *)
Lemma op_refines N op b b' σ β :
  op_ok N op -> run_op op b = Some b' -> Forall (fun tk => u 32 (bal_of b tk.1 tk.2)) (op_reads op ++ op_writes op) ->
  represents N σ β -> enabled (op_txn op b b') σ ->
  exists β', run_op op β = Some β' /\ represents N (apply_txn (op_txn op b b') σ) β'.
Proof.
  intros Hop Hrun Hu Hrep [Hr Hw].
  assert (Forall (fun tk => is_sb tk.1 /\ 0 <= tk.2 < N) (op_reads op ++ op_writes op)) as Hin.
  { clear -Hop. unfold is_sb. destruct op; cbn in Hop |- *; repeat (apply Forall_cons; split); try apply Forall_nil_2; cbn; intuition. }
  assert (Forall (fun tk => bal_of b tk.1 tk.2 = bal_of β tk.1 tk.2) (op_reads op ++ op_writes op)) as Heq.
  { assert (Forall (fun tk => σ tk.1 tk.2 = Some (entry b tk)) (op_reads op ++ op_writes op)) as Hen.
    { apply Forall_app. cbn [op_txn tr_reads tr_writes] in Hr, Hw. by rewrite !Forall_map in Hr, Hw. }
    apply Forall_forall. intros [ty a] Hel. rewrite Forall_forall in Hu, Hin, Hen. specialize (Hu _ Hel). specialize (Hen _ Hel).
    destruct (Hin _ Hel) as [Hty Ha]. destruct (Hrep ty a Hty Ha) as [Hub E]. cbn [fst snd] in *. rewrite E in Hen. apply (inj Some) in Hen.
    by apply sb_val_inj in Hen. }
  destruct (op_local N op b b' β Hop Hrun Heq) as (β' & Hrun' & Hloc). exists β'. split; [done|]. intros ty a Hty Ha.
  destruct (Hloc ty a Hty) as [H1 H2]. destruct (Hrep ty a Hty Ha) as [Hub E]. unfold apply_txn. cbn [op_txn tr_writes].
  destruct (decide ((ty, a) ∈ op_writes op)) as [Hel|Hel].
  - destruct (H1 Hel) as [Eb Hu']. rewrite Eb. split; [done|].
    erewrite (wfind_some _ ty a); [cbn [from_option id]; unfold entry; cbn [fst snd]; by rewrite Eb| |].
    + rewrite map_map, (map_ext _ (fun tk => tk)), map_id by (by intros [? ?]). by eapply writes_nodup.
    + apply (list_elem_of_fmap_2 (fun tk => (tk.1, tk.2, Some (entry b tk), Some (entry b' tk))) _ (ty, a) Hel).
  - rewrite wfind_none; [cbn [from_option id]; unfold entry in *; cbn [fst snd] in *; by rewrite H2|].
    intros o n Hx. apply list_elem_of_fmap in Hx as ([ty' a'] & Hx & Hel'). cbn in Hx. injection Hx as -> -> _ _. done.
Qed.

(** Transactions on the tables, one after another, are transactions on the bank. *)
Lemma ops_refine N ts ops : Forall2 (does_op N) ts ops -> forall σ β,
  valid σ ts -> represents N σ β -> exists β', run_ops ops β = Some β' /\ represents N (final σ ts) β'.
Proof.
  induction 1 as [|t op ts ops (Hop & b & b' & Hrun & Hu & ->) _ IH]; intros σ β Hv Hrep; [by exists β|].
  destruct Hv as [Hen Hv]. destruct (op_refines N op b b' σ β Hop Hrun Hu Hrep Hen) as (β1 & E1 & Hrep1).
  destruct (IH _ β1 Hv Hrep1) as (β' & E' & Hrep'). exists β'. split; [|done]. cbn [run_ops]. by rewrite E1.
Qed.

(** A bank with given entries in some accounts. *)
Lemma bank_of_entries (tks : list (Z * Z)) (vs : list (option (list byte))) :
  NoDup tks -> Forall (fun tk => is_sb tk.1) tks ->
  Forall2 (fun tk v => exists bal, u 32 bal /\ v = Some (sb_val (magic_of tk.1) bal)) tks vs ->
  exists b, vs = map (fun tk => Some (entry b tk)) tks /\ Forall (fun tk => u 32 (bal_of b tk.1 tk.2)) tks.
Proof.
  intros Hnd Hsb H. induction H as [|[ty a] v tks vs (bal & Hb & ->) H IH]; [by exists bank0|].
  apply NoDup_cons in Hnd as [Hni Hnd]. apply Forall_cons in Hsb as [Hty Hsb]. destruct (IH Hnd Hsb) as (b & -> & Hu).
  set (b' := if ty =? RPC_SAVING_REQ then set_sav a bal b else set_chk a bal b).
  assert (bal_of b' ty a = bal) as E1.
  { unfold b', bal_of. destruct (ty =? RPC_SAVING_REQ); cbn; by rewrite fn_lookup_insert. }
  assert (forall tk, tk ∈ tks -> bal_of b' tk.1 tk.2 = bal_of b tk.1 tk.2) as E2.
  { intros [ty' a'] Hin. assert ((ty', a') <> (ty, a)) as Hne by (intros E; apply Hni; by rewrite <- E).
    rewrite Forall_forall in Hsb. specialize (Hsb _ Hin). clear -Hne Hty Hsb. unfold b', bal_of. cbn [fst snd] in *.
    destruct Hty as [-> | ->], Hsb as [-> | ->]; cbn; try done; apply fn_lookup_insert_ne; congruence. }
  exists b'. split.
  - cbn [map]. f_equal; [unfold entry; cbn [fst snd]; by rewrite E1|]. apply map_ext_in. intros tk Hin. apply list_elem_of_In in Hin.
    unfold entry. by rewrite E2.
  - apply Forall_cons. split; [cbn [fst snd]; by rewrite E1|]. apply Forall_forall. intros tk Hin. rewrite E2 by done. rewrite Forall_forall in Hu. by apply Hu.
Qed.

(** ** Balances of the populated bank *)

(** A balance of [10^9] is not changed by the amounts that the transactions add and
    subtract: neighbouring numbers of type [float] are 64 apart there. *)
Lemma absorbed :
  Float32.add initial_bal amount_1_3 = initial_bal /\ Float32.add initial_bal amount_20_20 = initial_bal /\
  Float32.add initial_bal amount_5_0 = initial_bal /\ Float32.sub initial_bal amount_5_0 = initial_bal /\
  Float32.ltb initial_bal amount_5_0 = false /\ Float32.ltb (Float32.add initial_bal initial_bal) amount_5_0 = false.
Proof. vm_compute. done. Qed.

#[local] Opaque initial_bal.

Definition untouched (b : bank) : Prop := forall a, b_sav b a = initial_bal /\ b_chk b a = initial_bal.
Definition amalgamates (op : sb_op) : bool := match op with Amalgamate _ _ => true | _ => false end.

Lemma untouched_set b a : untouched b -> untouched (set_sav a initial_bal b) /\ untouched (set_chk a initial_bal b).
Proof.
  intros H. split; intros a'; destruct (H a') as [H1 H2]; cbn [set_sav set_chk b_sav b_chk]; unfold insert, fn_insert; by case_decide.
Qed.

Lemma untouched_op b op : untouched b -> amalgamates op = false -> exists b', run_op op b = Some b' /\ untouched b'.
Proof.
  intros H Hop. pose proof absorbed as (E1 & E2 & E3 & E4 & E5 & E6).
  assert (forall a, b_sav b a = initial_bal) as Hsv by (intros a; apply H). assert (forall a, b_chk b a = initial_bal) as Hck by (intros a; apply H).
  destruct op as [a0 a1|a|a|a0 a1|a|a]; [discriminate Hop|..]; cbn [run_op].
  - exists b. split; [reflexivity|exact H].
  - rewrite Hck, E1. eexists. split; [reflexivity|]. apply untouched_set, H.
  - rewrite !Hck, E5, E3, E4. eexists. split; [reflexivity|]. apply untouched_set, untouched_set, H.
  - rewrite Hsv, E2. eexists. split; [reflexivity|]. apply untouched_set, H.
  - rewrite Hsv, Hck, E6, E4. eexists. split; [reflexivity|]. apply untouched_set, H.
Qed.



(** C16: SmallBank finds the accounts of its transactions: in a database that the
    constructor accepts, whatever the seed, [get_account] returns an account that
    exists, and the loop of [get_two_accounts] that draws until the second account
    differs from the first ends and returns two different accounts that exist. *)
Theorem accounts_exist nm wpm nr s seed :
  0 < nm -> 0 < wpm -> make nm wpm nr = Ok s ->
  (exists a seed', get_account s seed = Ok (a, seed') /\ 0 <= a < num_accounts_global s) /\
  (exists a b seed', get_two_accounts s seed = Ok (a, b, seed') /\
     0 <= a < num_accounts_global s /\ 0 <= b < num_accounts_global s /\ a <> b).
Proof.
  intros Hn Hw H. destruct (sb_make_ok _ _ _ _ Hn Hw H) as [Hs _]. split; [by apply get_account_ok|by apply two_accounts_ok].
Qed.

Lemma accounts_exist_witness :
  exists s a b seed', make 2 3 1 = Ok s /\ get_two_accounts s 57 = Ok (a, b, seed') /\ a <> b.
Proof.
  destruct (make 2 3 1) as [s|] eqn:E; [|by vm_compute in E].
  destruct (accounts_exist 2 3 1 s 57 ltac:(lia) ltac:(lia) E) as [_ (a & b & seed' & H & _ & _ & Hne)].
  exists s, a, b, seed'. done.
Defined.

End SmallbankSpec.
