(* ===== verification/SmallbankTx.v ===== *)
(** * SmallBank: the transactions

    Each transaction of the application runs without a failed assertion, and when it
    commits it is a transaction of the bank; so a coroutine that runs any number of them
    does what its ledger says. *)

From S2P Require Import Prelude Util Float32 Random Hots Mappings FixedTable FixedTableInv FixedTableOps FixedTableSteps Datastore.
From S2P Require Import DatastoreSpec RpcDefs RpcBatch Logger Tx TxWorld TxMem TxSpec TxExec TxUpdate TxStage.
From S2P Require Import TxSerial TxTransaction TxSession TxCluster TxApp Smallbank SmallbankSpec.
From Stdlib Require Import ZArith Lia Bool.
From stdpp Require Import base functions numbers sets list gmap relations.
#[local] Open Scope Z_scope.
Import FixedTable FixedTableOps DatastoreSpec RpcDefs RpcBatch Tx TxWorld TxMem TxSpec TxExec TxUpdate TxStage.
Import TxSerial TxTransaction TxSession TxCluster TxApp Smallbank SmallbankSpec.

Module SmallbankTx.

#[local] Opaque Float32.add Float32.sub Float32.ltb Float32.of_int amount_1_3 amount_5_0 amount_20_20.

(** ** Definitions *)

(** Every account has an entry in both tables. *)
Definition value_ok (N ty k : Z) (v : option (list byte)) : Prop :=
  (0 <= k < N -> exists bal, u 32 bal /\ v = Some (sb_val (magic_of ty) bal)) /\
  (forall x, v = Some x -> Z.of_nat (length x) = sizeof_sb_val).

Definition sb_types (N : Z) : types :=
  mk_types (fun ty => (ty =? RPC_SAVING_REQ) || (ty =? RPC_CHECKING_REQ)) (fun _ => false) (fun _ => sizeof_sb_val) (value_ok N).

Lemma sb_types_ok N nback : nback <= HOTS_MAX_BACKUPS -> types_ok (sb_types N) nback.
Proof.
  assert (forall ty, ty_prim (sb_types N) ty = true <-> is_sb ty) as Hp.
  { intros ty. unfold is_sb. cbn [ty_prim sb_types]. by rewrite orb_true_iff, !Z.eqb_eq. }
  change HOTS_MAX_BACKUPS with 2. unfold is_sb, RPC_SAVING_REQ, RPC_CHECKING_REQ in Hp. intros Hn. split.
  - intros ty H%Hp. change RPC_MICA_REQ_BASE with 20. change HOTS_MAX_BACKUPS with 2. change RPC_MAX_REQ_TYPE with 255. lia.
  - intros ty _. done.
  - intros ty k v _ [_ H]. by rewrite (H v).
  - intros ty r H%Hp Hr. split; [|done]. apply not_true_iff_false. rewrite Hp. lia.
  - intros ty ty' r r' H1%Hp H2%Hp Hr Hr' E. lia.
Qed.

(** The calls that fill the sets of a transaction. *)
Definition op_adds (op : sb_op) (f : frame) : list add_op :=
  match op with
  | Amalgamate a0 a1 =>
      [add_write RPC_SAVING_REQ a0 (fr_obj f 0) wm_update (fr_un f 0); add_write RPC_CHECKING_REQ a0 (fr_obj f 1) wm_update (fr_un f 1);
       add_write RPC_CHECKING_REQ a1 (fr_obj f 2) wm_update (fr_un f 2)]
  | Balance a => [add_read RPC_SAVING_REQ a (fr_obj f 0) (fr_un f 0); add_read RPC_CHECKING_REQ a (fr_obj f 1) (fr_un f 1)]
  | Deposit_checking a => [add_write RPC_CHECKING_REQ a (fr_obj f 0) wm_update (fr_un f 0)]
  | Send_payment a0 a1 =>
      [add_write RPC_CHECKING_REQ a0 (fr_obj f 0) wm_update (fr_un f 0); add_write RPC_CHECKING_REQ a1 (fr_obj f 1) wm_update (fr_un f 1)]
  | Transact_saving a => [add_write RPC_SAVING_REQ a (fr_obj f 0) wm_update (fr_un f 0)]
  | Write_check a => [add_read RPC_SAVING_REQ a (fr_obj f 0) (fr_un f 0); add_write RPC_CHECKING_REQ a (fr_obj f 1) wm_update (fr_un f 1)]
  end.

(** What a call finds: three objects of its own in memory. *)
Record frame_ok (m : list byte) (f : frame) : Prop := {
  fo_objs : layout m [fr_obj f 0; fr_obj f 1; fr_obj f 2];
  fo_un i : uninit_ok (fr_un f i)
}.

(** An object that holds an entry. *)
Record acct (m : list byte) (o magic bal : Z) : Prop := {
  ac_at : obj_at m o;
  ac_has : obj_has m o (sb_val magic bal);
  ac_u32 : u 32 magic /\ u 32 bal
}.

(** ** Objects *)

Lemma acct_load m o g b k n : acct m o g b -> (k + n <= 8)%nat ->
  read_at (Z.to_nat (o + 16 + Z.of_nat k)) n m = Ok (take n (drop k (sb_val g b))).
Proof.
  intros [[H0 _] [H _] _] Hk. rewrite sb_val_length in H. replace (Z.to_nat (o + 16 + Z.of_nat k)) with (Z.to_nat (o + 16) + k)%nat by lia.
  by apply (read_at_sub _ 8).
Qed.

Lemma acct_magic m o g b : acct m o g b -> assert_magic g o m = Ok tt.
Proof.
  intros H. pose proof (acct_load m o g b 0 4 H ltac:(lia)) as E. rewrite Z.add_0_r in E. unfold assert_magic, get_magic, load32. rewrite E, !bind_Ok.
  unfold sb_val. rewrite drop_0, take_app_length' by (by rewrite length_le_bytes). rewrite le_val_bytes by apply H. unfold assert_. by rewrite Z.eqb_refl.
Qed.

Lemma acct_bal m o g b : acct m o g b -> get_bal o m = Ok b.
Proof.
  intros H. pose proof (acct_load m o g b 4 4 H ltac:(lia)) as E. unfold get_bal, load32. replace (o + 20) with (o + 16 + Z.of_nat 4) by lia.
  rewrite E, bind_Ok. unfold sb_val. rewrite drop_app_length' by (by rewrite length_le_bytes). rewrite take_ge by (by rewrite length_le_bytes).
  by rewrite le_val_bytes by apply H.
Qed.

Lemma acct_set m o g b v :
  acct m o g b -> u 32 v -> exists m', set_bal o v m = Ok m' /\ keeps [o] m m' /\ acct m' o g v.
Proof.
  intros [Hat Hh [Hg Hb]] Hv. destruct (obj_has_write m o (sb_val g b) 4 (le_bytes 4 v)) as (m' & E & Hk & Hh').
  - apply Hat.
  - done.
  - by rewrite sb_val_length, length_le_bytes.
  - by rewrite sb_val_length.
  - exists m'. unfold set_bal, store32. replace (Z.to_nat (o + 20)) with (Z.to_nat (o + 16) + 4)%nat by (destruct Hat; lia). split; [done|]. split; [done|].
    split; [unfold obj_at; by rewrite (proj1 Hk)| |done]. rewrite length_le_bytes in Hh'. unfold sb_val in Hh' at 1 2.
    rewrite take_app_length' in Hh' by (by rewrite length_le_bytes). rewrite drop_ge, app_nil_r in Hh'; [done|].
    by rewrite length_app, !length_le_bytes.
Qed.

Lemma acct_keeps m m' o' o g b : keeps [o'] m m' -> apart o o' -> acct m o g b -> acct m' o g b.
Proof.
  intros Hk Ha [Hat Hh Hu]. split; [unfold obj_at; by rewrite (proj1 Hk)| |done].
  eapply obj_has_keeps; [exact Hk|by apply Forall_singleton|apply Hat|by rewrite sb_val_length|done].
Qed.

(** ** Keys and slots *)

(** The objects of a transaction, with the entries they are for. *)
Definition op_objs (op : sb_op) (f : frame) : list (Z * Z * Z) := rslots (op_adds op f) ++ (wslots (op_adds op f)).*1.

Lemma op_objs_keys op f : (op_objs op f).*1 = op_reads op ++ op_writes op.
Proof. by destruct op. Qed.

Lemma reads_writes_nodup N op : op_ok N op -> NoDup (op_reads op ++ op_writes op) /\ Forall (fun tk => is_sb tk.1 /\ 0 <= tk.2 < N) (op_reads op ++ op_writes op).
Proof.
  intros Hop. split.
  - destruct op; try by apply (writes_nodup N); unfold op_reads, op_writes, app, RPC_SAVING_REQ, RPC_CHECKING_REQ.
    all: cbn [op_reads op_writes app]; apply NoDup_cons; split; [|apply NoDup_singleton]; rewrite list_elem_of_singleton; by intros [= ?].
  - unfold is_sb. destruct op; cbn in Hop |- *; each; cbn; intuition.
Qed.

(** The entries of bank [b] are in the objects of memory [m]. *)
Definition in_mem (b : bank) (m : list byte) (objs : list (Z * Z * Z)) : Prop :=
  Forall (fun '(ty, k, o) => acct m o (magic_of ty) (bal_of b ty k)) objs.

Section Transactions.
Context (mp : Mappings.t) (s : sb) (idx : Z -> Z -> Z -> nat) (coros self pkt : Z).
Context (HM : Mappings.replicated mp) (Hs : sb_ok s) (Hpkt : 400 <= pkt).
Notation N := (num_accounts_global s).
Notation T := (sb_types N).
Notation C := (cluster_of mp T idx coros).
Notation tx_base := (tx_base mp coros self).

Lemma HT : types_ok T (Mappings.num_backups mp).
Proof. apply sb_types_ok. destruct HM as [Hwf _]. apply (Mappings.wf_backups mp Hwf). Qed.

Lemma op_adds_ok op f m : op_ok N op -> frame_ok m f -> ops_ok T 8 pkt m (op_adds op f).
Proof.
  intros Hop [(O0 & A0 & O1 & A1 & O2 & _) Hun]. apply Forall_cons in A0 as [A01 A0]. apply Forall_cons in A0 as [A02 _]. apply Forall_cons in A1 as [A12 _].
  pose proof (sk_bound s Hs) as HN.
  assert (forall a ty un, 0 <= a < N -> is_sb ty -> uninit_ok un -> u 64 a /\ a <> kFtInvalidKey /\ ty_prim T ty = true /\ uninit_ok un) as Hk.
  { intros a ty un Ha Hty Hu. change kFtInvalidKey with (2 ^ 64 - 1). split; [unfold u; lia|]. split; [lia|]. split; [|done].
    unfold is_sb in Hty. cbn [ty_prim sb_types]. rewrite orb_true_iff, !Z.eqb_eq. done. }
  assert (is_sb RPC_SAVING_REQ /\ is_sb RPC_CHECKING_REQ) as [HS HC] by (by split; [left|right]).
  split.
  - assert (forall a ty un, 0 <= a < N -> is_sb ty -> uninit_ok un ->
      u 64 a /\ a <> kFtInvalidKey /\ (ty_prim T ty = true /\ ty_ro T ty = false) /\ uninit_ok un) as Hk'.
    { intros a ty un Ha Hty Hu. destruct (Hk a ty un Ha Hty Hu) as (? & ? & ? & ?). done. }
    destruct op; cbn in Hop |- *; each; (apply Hk || apply Hk'); first [done|lia|by apply Hop|apply Hun].
  - destruct op; by vm_compute.
  - replace (write_keys (op_adds op f)) with (op_writes op) by (by destruct op). by apply (writes_nodup N).
  - destruct op; cbn; repeat split; each; try done; apply O0 || apply O1 || apply O2.
  - split; [done|]. apply Forall_true. done.
  - assert (length (op_adds op f) = 1 \/ length (op_adds op f) = 2 \/ length (op_adds op f) = 3)%nat as Hl by (destruct op; cbn; lia).
    destruct Hl as [-> | [-> | ->]]; eexists; (split; [vm_compute; reflexivity|lia]).
Qed.

Lemma op_objs_at op f m : frame_ok m f -> Forall (fun x => obj_at m x.2) (op_objs op f).
Proof. intros [(O0 & _ & O1 & _ & O2 & _) _]. destruct op; cbn; each; done. Qed.

Definition entries (b : bank) (tks : list (Z * Z)) : list (option (list byte)) := map (fun tk => Some (entry b tk)) tks.
Notation executed := (executed mp T idx coros self pkt).

(** The objects of a transaction that has been executed hold entries of a bank. *)
Lemma objs_bank op f m vr vw :
  op_ok N op -> frame_ok m f ->
  Forall2 (slot_read mp T idx coros m) (rslots (op_adds op f)) vr -> Forall2 (slot_write mp T idx coros m) (wslots (op_adds op f)) vw ->
  exists b, in_mem b m (op_objs op f) /\ vr = entries b (op_reads op) /\ vw = entries b (op_writes op) /\
    Forall (fun tk => u 32 (bal_of b tk.1 tk.2)) (op_reads op ++ op_writes op).
Proof.
  intros Hop [Hly Hun] Hr Hw. destruct (reads_writes_nodup N op Hop) as [Hnd Hin]. rewrite <- (op_objs_keys op f) in *.
  assert (Forall2 (fun '(ty, k, o) v => exists bal, u 32 bal /\ v = Some (sb_val (magic_of ty) bal) /\ obj_has m o (sb_val (magic_of ty) bal))
            (op_objs op f) (vr ++ vw)) as H.
  { unfold op_objs in *. rewrite fmap_app in Hin. apply Forall_app in Hin as [Hin1 Hin2]. rewrite Forall_fmap in Hin1, Hin2. apply Forall2_app.
    - clear -Hr Hin1. induction Hr as [|[[ty k] o] v sls vs [Hv [Hok _]] Hr IH]; constructor; apply Forall_cons in Hin1 as [[_ Ha] Hin1]; [|by apply IH].
      destruct (Hok Ha) as (bal & Hu & ->). by exists bal.
    - rewrite Forall_fmap in Hin2. assert (Forall (fun sl => sl.2 = wm_update) (wslots (op_adds op f))) as Hm by (destruct op; by repeat constructor).
      clear -Hw Hin2 Hm. induction Hw as [|[[[ty k] o] mode] v sls vs Hv Hw IH]; [constructor|]. apply Forall_cons in Hin2 as [[_ Ha] Hin2], Hm as [Em Hm].
      constructor; [|by apply IH]. cbn in Em, Ha. subst mode. destruct Hv as (x & -> & Hh & [Hok _]). cbn [fst].
      destruct (Hok Ha) as (bal & Hu & [= ->]). by exists bal. }
  destruct (bank_of_entries (op_objs op f).*1 (vr ++ vw) Hnd) as (b & Eb & Hu).
  { eapply Forall_impl; [exact Hin|]. by intros tk [? _]. }
  { clear -H. induction H as [|[[ty k] o] v sls vs (bal & Hu & Ev & _) H IH]; constructor; [by exists bal|done]. }
  exists b. split.
  - pose proof (op_objs_at op f m (Build_frame_ok m f Hly ltac:(assumption))) as Hat. clear -H Eb Hu Hat.
    unfold in_mem. revert H Eb. generalize (vr ++ vw) as vs. intros vs Hvs. induction Hvs as [|[[ty k] o] v sls vs (bal & Hb & Ev & Hh) Hvs IH]; [done|].
    rewrite fmap_cons. cbn [map]. intros [= E1 E2]. apply Forall_cons in Hat as [Ha Hat], Hu as [Hu1 Hu].
    assert (bal_of b ty k = bal) as Ebal.
    { rewrite Ev in E1. apply (inj Some) in E1. by apply sb_val_inj in E1. }
    constructor; [|by apply IH]. rewrite Ebal. split; [done|done|]. split; [|done]. unfold magic_of. by destruct (ty =? RPC_SAVING_REQ).
  - rewrite (op_objs_keys op f), map_app in Eb. apply app_inj_1 in Eb as [E1 E2]; [done|].
    rewrite <- (Forall2_length _ _ _ Hr), length_map. by destruct op.
Qed.

Lemma frame_ext m m' f : length m' = length m -> frame_ok m f -> frame_ok m' f.
Proof. intros E [H1 H2]. split; [by apply (layout_ext m)|done]. Qed.

(** The execute phase of a transaction. *)
Lemma op_read w op f x0 x m :
  tx_base x0 -> op_ok N op -> frame_ok m f -> run_adds (op_adds op f) (start x0) = Ok x -> good C self w -> owns C self [] w ->
  wp C self pkt (do_read false x m) (fun '(st, x', m') s' =>
    kin x0 x' /\ length m' = length m /\ pending C self pkt x' m' s' /\ shaped (op_adds op f) x' /\
    (st = must_abort \/ st = in_progress /\ exists b, in_mem b m' (op_objs op f) /\
       executed w (op_adds op f) x0 x' m' (entries b (op_reads op)) (entries b (op_writes op)) s' /\
       Forall (fun tk => u 32 (bal_of b tk.1 tk.2)) (op_reads op ++ op_writes op))) (w, []).
Proof.
  intros Hb Hop Hf E Hg Ho. eapply wp_mono.
  { by apply (first_read mp T idx coros HM HT self pkt w (op_adds op f) x0 x m Hb (ops_ok_fit T 8 pkt m _ (op_adds_ok op f m Hop Hf)) E). }
  intros [[st x'] m'] s' (H1 & H2 & H3 & H4 & H5). split; [done|]. split; [done|]. split; [done|]. split; [done|].
  destruct H5 as [[-> _]|(-> & vr & vw & _ & Hex)]; [by left|right]. split; [done|]. cbn [app] in Hex.
  destruct (executed_slots mp T idx coros self pkt w _ x0 x' m' vr vw s' Hex) as [Hr Hw].
  destruct (objs_bank op f m' vr vw Hop (frame_ext m m' f H2 Hf) Hr Hw) as (b & Hm & -> & -> & Hu). by exists b.
Qed.

(** [commit] of a transaction whose objects hold the entries of the bank after it. *)
Lemma op_commit w op f x0 x m s1 m2 b b' :
  tx_base x0 -> op_ok N op -> executed w (op_adds op f) x0 x m (entries b (op_reads op)) (entries b (op_writes op)) s1 ->
  run_op op b = Some b' -> Forall (fun tk => u 32 (bal_of b tk.1 tk.2)) (op_reads op ++ op_writes op) ->
  length m2 = length m -> in_mem b' m2 (wslots (op_adds op f)).*1 ->
  wp C self pkt (commit false x m2) (fun '(st, x', m') s' =>
    kin x0 x' /\ length m' = length m /\ good C self s'.1 /\ owns C self [] s'.1 /\
    ((st = committed /\ exists t, does_op N t op /\ acts C self [t] w s'.2) \/
     (st = aborted /\ op_reads op <> [] /\ acts C self [] w s'.2))) s1.
Proof.
  intros Hb Hop Hex Hrun Hu Hl Hm.
  assert (Forall (fun '(ty, k, o, mode) => mode = wm_update /\ obj_at m2 o /\ obj_sized m2 o 8 /\ slot_new T m2 (ty, k, o, mode) = Some (entry b' (ty, k)) /\
    u 32 (bal_of b' ty k)) (wslots (op_adds op f))) as Hsl.
  { unfold in_mem in Hm. rewrite Forall_fmap in Hm. assert (Forall (fun sl => sl.2 = wm_update) (wslots (op_adds op f))) as Hmd by (destruct op; by repeat constructor).
    apply Forall_forall. intros [[[ty k] o] mode] Hin. rewrite Forall_forall in Hm, Hmd. specialize (Hm _ Hin). specialize (Hmd _ Hin). cbn in Hmd, Hm. subst mode.
    destruct Hm as [Hat Hh [_ Hu']]. split; [done|]. split; [done|]. split; [apply (proj2 Hh)|]. split; [|done].
    pose proof (obj_has_take _ _ _ Hh) as Et. rewrite sb_val_length in Et. cbn [slot_new ty_vsz sb_types]. change (Z.to_nat sizeof_sb_val) with 8%nat.
    rewrite decide_True by done. by rewrite Et. }
  pose proof Hb as [[_ Hself] _ _ _]. eapply wp_mono.
  { apply (commit_app mp T idx coros HM HT self pkt w (op_adds op f) x0 x m _ _ s1 m2 Hself Hex Hl).
    eapply Forall_impl; [exact Hsl|]. intros [[[ty k] o] mode] (-> & [Ho1 Ho2] & Hsz & Hn & Hu'). change sizeof_hots_obj_t with 56 in Ho2.
    split; [done|]. cbn [ty_vsz sb_types]. change sizeof_sb_val with 8. split; [lia|]. split; [done|]. rewrite Hn. split.
    - intros _. by exists (bal_of b' ty k).
    - intros v Ev. apply (inj Some) in Ev as <-. unfold entry. by rewrite sb_val_length. }
  intros [[st x'] m'] s' (H1 & H2 & H3 & H4 & H5). split; [done|]. split; [done|]. split; [done|]. split; [done|].
  destruct H5 as [(-> & _ & Ha)|(-> & Hne & Ha)]; [left|right]; (split; [done|]).
  - exists (op_txn op b b'). split; [split; [done|]; by exists b, b'|].
    replace (op_txn op b b') with (slot_txn T (op_adds op f) (entries b (op_reads op)) (entries b (op_writes op)) m2); [done|].
    unfold slot_txn, op_txn. f_equal; [by destruct op|]. replace (op_writes op) with (wslots (op_adds op f)).*1.*1 by (by destruct op).
    clear -Hsl. unfold entries. induction Hsl as [|[[[ty k] o] mode] sls (_ & _ & _ & Hn & _) Hsl IH]; [done|]. rewrite !fmap_cons. cbn [map zip_with].
    f_equal; [by rewrite Hn|exact IH].
  - split; [|done]. intros E. apply Hne. destruct op; try discriminate E; constructor.
Qed.

(** ** The transactions *)

(** What a transaction has done when it returns. *)
Definition txn_does (x : tx) (m : list byte) (r : sb_op * bool * tx * list byte) (ts : list txn) : Prop :=
  let '(op, ok, x', m') := r in
  kin x x' /\ length m' = length m /\ op_ok N op /\ Forall2 (does_op N) ts (done_ops [(op, ok)]).

Definition ends (w : world) (x : tx) (m : list byte) (r : sb_op * bool * tx * list byte) (s1 : state) : Prop :=
  good C self s1.1 /\ owns C self [] s1.1 /\ exists ts, txn_does x m r ts /\ acts C self ts w s1.2.

Lemma op_ends_none w op x0 m0 x m s1 :
  op_ok N op -> kin x0 x -> length m = length m0 -> good C self s1.1 -> owns C self [] s1.1 -> Forall (TxSpec.quiet C self []) s1.2 ->
  ends w x0 m0 (op, false, x, m) s1.
Proof. intros. split; [done|]. split; [done|]. exists []. split; [|done]. split; [done|]. split; [done|]. split; [done|constructor]. Qed.

Lemma op_ends_one w op x0 m0 x m s1 t :
  op_ok N op -> kin x0 x -> length m = length m0 -> good C self s1.1 -> owns C self [] s1.1 -> does_op N t op -> acts C self [t] w s1.2 ->
  ends w x0 m0 (op, true, x, m) s1.
Proof. intros. split; [done|]. split; [done|]. exists [t]. split; [|done]. split; [done|]. split; [done|]. split; [done|]. constructor; [done|constructor]. Qed.

Lemma op_aborts w op x0 m0 x m s1 :
  tx_base x0 -> op_ok N op -> kin x0 x -> length m = length m0 -> pending C self pkt x m s1 ->
  wp C self pkt ('(x, m) ← abort false x m; Done (op, false, x, m)) (ends w x0 m0) s1.
Proof.
  intros [[_ Hself] _ _ _] Hop Hk Hl Hpe. apply wp_bind. eapply wp_mono.
  { apply (abort_app mp T idx coros HM HT self pkt x0 x m s1 Hself Hpe Hk). }
  intros [x' m'] s' (H1 & -> & H3 & H4 & H5). by apply op_ends_none.
Qed.

(** A transaction without reads commits. *)
Lemma op_commits w op f x0 m0 x m s1 m2 b b' :
  tx_base x0 -> op_ok N op -> op_reads op = [] -> length m = length m0 ->
  executed w (op_adds op f) x0 x m (entries b (op_reads op)) (entries b (op_writes op)) s1 ->
  run_op op b = Some b' -> Forall (fun tk => u 32 (bal_of b tk.1 tk.2)) (op_reads op ++ op_writes op) ->
  length m2 = length m -> in_mem b' m2 (wslots (op_adds op f)).*1 ->
  wp C self pkt ('(st, x, m) ← commit false x m2; _ ← lift (assert_ (bool_decide (st = committed))); Done (op, true, x, m)) (ends w x0 m0) s1.
Proof.
  intros Hb Hop Hr Hl Hex Hrun Hu Hl2 Hm. apply wp_bind. eapply wp_mono; [by apply (op_commit w op f x0 x m s1 m2 b b')|].
  intros [[st x'] m'] s' (H1 & H2 & H3 & H4 & [(-> & t & Hd & Ha)|(_ & Hne & _)]); [|done].
  apply (op_ends_one w op x0 m0 x' m' s' t); try done. lia.
Qed.

(** The program fills the sets and executes the transaction; [k] is what follows. *)
Lemma op_runs {A} w op f x0 m (p : prog A) (k : tx_status_t * tx * list byte -> prog A) (Q : A -> state -> Prop) :
  tx_base x0 -> op_ok N op -> frame_ok m f -> good C self w -> owns C self [] w ->
  (forall x, run_adds (op_adds op f) (start x0) = Ok x -> p = do_read false x m ≫= k) ->
  (forall x m' s1, kin x0 x -> length m' = length m -> pending C self pkt x m' s1 -> shaped (op_adds op f) x -> wp C self pkt (k (must_abort, x, m')) Q s1) ->
  (forall x m' b s1, kin x0 x -> length m' = length m -> pending C self pkt x m' s1 -> shaped (op_adds op f) x ->
     in_mem b m' (op_objs op f) -> executed w (op_adds op f) x0 x m' (entries b (op_reads op)) (entries b (op_writes op)) s1 ->
     Forall (fun tk => u 32 (bal_of b tk.1 tk.2)) (op_reads op ++ op_writes op) -> wp C self pkt (k (in_progress, x, m')) Q s1) ->
  wp C self pkt p Q (w, []).
Proof.
  intros Hb Hop Hf Hg Ho Hp H1 H2. destruct (base_filled mp T idx coros HM self pkt m _ x0 Hb (ops_ok_fit T 8 pkt m _ (op_adds_ok op f m Hop Hf))) as (x & E & _).
  rewrite (Hp x E). apply wp_bind. eapply wp_mono; [by apply (op_read w op f x0 x m)|].
  intros [[st x'] m'] s' (K1 & K2 & K3 & K4 & [->|(-> & b & K5 & K6 & K7)]); [by apply H1|by apply (H2 x' m' b)].
Qed.

Lemma executed_abort : assert_executed must_abort = Ok tt.
Proof. reflexivity. Qed.
Lemma executed_go_on : assert_executed in_progress = Ok tt.
Proof. reflexivity. Qed.

Ltac filled :=
  let x := fresh "x" in let E := fresh "E" in intros x E; cbn [op_adds run_adds run_add] in E; unfold sb_key;
  repeat match type of E with
  | context [add_to_write_set ?a ?b ?c ?d ?e ?y] =>
      destruct (add_to_write_set a b c d e y) as [[? ?]|]; [|discriminate E]; cbn [mbind res_bind] in E; rewrite lift_Ok
  | context [add_to_read_set ?a ?b ?c ?d ?y] =>
      destruct (add_to_read_set a b c d y) as [[? ?]|]; [|discriminate E]; cbn [mbind res_bind] in E; rewrite lift_Ok
  end; injection E as ->; reflexivity.

(** The next assertion or load, on an object that is known. *)
Ltac loads := repeat (cbn beta iota;
  match goal with
  | H : acct ?m ?o ?g _ |- wp _ _ _ (lift (assert_magic ?g ?o ?m) ≫= _) _ _ => rewrite (acct_magic m o g _ H), lift_Ok
  | H : acct ?m ?o _ _ |- wp _ _ _ (lift (get_bal ?o ?m) ≫= _) _ _ => rewrite (acct_bal m o _ _ H), lift_Ok
  end).

(** The next store; what is known of the other objects still holds. *)
Ltac stores :=
  cbn beta iota;
  match goal with
  | H : acct ?m ?o ?g _ |- wp _ _ _ (lift (set_bal ?o ?v ?m) ≫= _) _ _ =>
      let m2 := fresh "m" in let E := fresh "E" in let K := fresh "K" in let H2 := fresh "Hm" in
      destruct (acct_set m o g _ v H) as (m2 & E & K & H2);
        [first [apply Float32.add_range|apply Float32.sub_range|apply Float32.of_int_range]|];
      rewrite E, lift_Ok; clear H E;
      repeat match goal with
      | H' : acct m _ _ _ |- _ => apply (acct_keeps m m2 o _ _ _ K) in H'; [|solve [assumption|by apply apart_sym]]
      end; apply proj1 in K
  end.

(** The objects hold the entries of the bank after the transaction. *)
Ltac entered :=
  cbn; each; unfold bal_of; cbn; repeat first [rewrite fn_lookup_insert | rewrite fn_lookup_insert_ne by congruence]; assumption.

(** The objects of a frame are apart from each other. *)
Lemma frame_apart m f : frame_ok m f ->
  apart (fr_obj f 0) (fr_obj f 1) /\ apart (fr_obj f 0) (fr_obj f 2) /\ apart (fr_obj f 1) (fr_obj f 2).
Proof.
  intros [(_ & A0 & _ & A1 & _) _]. apply Forall_cons in A0 as [A01 A0]. apply Forall_cons in A0 as [A02 _]. by apply Forall_cons in A1 as [A12 _].
Qed.

Lemma amalgamate_behaves f x m : tx_base x -> frame_ok m f -> behaves C pkt self (txn_amalgamate s f x m) (txn_does x m).
Proof.
  intros Hb Hf w Hg Ho. unfold txn_amalgamate. destruct (two_accounts_ok s Hs (fr_seed f)) as (a0 & a1 & sd & -> & H0 & H1 & Hne).
  rewrite lift_Ok. assert (op_ok N (Amalgamate a0 a1)) as Hop by done.
  eapply (op_runs w (Amalgamate a0 a1) f x m); [done..|filled| |].
  - intros x' m' s1 Hk Hl Hpe _. cbn beta iota. rewrite executed_abort, lift_Ok, decide_True by done. by apply op_aborts.
  - intros x' m' b s1 Hk Hl Hpe _ Hm Hex Hu. cbn beta iota. rewrite executed_go_on, lift_Ok, decide_False by done. destruct (frame_apart m f Hf) as (A01 & A02 & A12).
    apply Forall_cons in Hm as [Hs0 Hm]. apply Forall_cons in Hm as [Hc0 Hm]. apply Forall_cons in Hm as [Hc1 _]. cbn in Hs0, Hc0, Hc1. loads.
    do 3 stores. eapply (op_commits w (Amalgamate a0 a1) f x m x' m' s1 _ b); [done..|lia| ].
    entered.
Qed.

Lemma deposit_checking_behaves f x m : tx_base x -> frame_ok m f -> behaves C pkt self (txn_deposit_checking s f x m) (txn_does x m).
Proof.
  intros Hb Hf w Hg Ho. unfold txn_deposit_checking. destruct (get_account_ok s Hs (fr_seed f)) as (a & sd & -> & Ha).
  rewrite lift_Ok. assert (op_ok N (Deposit_checking a)) as Hop by done. eapply (op_runs w (Deposit_checking a) f x m); [done..|filled| |].
  - intros x' m' s1 Hk Hl Hpe _. cbn beta iota. rewrite executed_abort, lift_Ok, decide_True by done. by apply op_aborts.
  - intros x' m' b s1 Hk Hl Hpe _ Hm Hex Hu. cbn beta iota. rewrite executed_go_on, lift_Ok, decide_False by done.
    apply Forall_cons in Hm as [Hc _]. cbn in Hc. loads. stores.
    eapply (op_commits w (Deposit_checking a) f x m x' m' s1 _ b); [done..|entered].
Qed.

Lemma transact_saving_behaves f x m : tx_base x -> frame_ok m f -> behaves C pkt self (txn_transact_saving s f x m) (txn_does x m).
Proof.
  intros Hb Hf w Hg Ho. unfold txn_transact_saving. destruct (get_account_ok s Hs (fr_seed f)) as (a & sd & -> & Ha).
  rewrite lift_Ok. assert (op_ok N (Transact_saving a)) as Hop by done. eapply (op_runs w (Transact_saving a) f x m); [done..|filled| |].
  - intros x' m' s1 Hk Hl Hpe _. cbn beta iota. rewrite executed_abort, lift_Ok, decide_True by done. by apply op_aborts.
  - intros x' m' b s1 Hk Hl Hpe _ Hm Hex Hu. cbn beta iota. rewrite executed_go_on, lift_Ok, decide_False by done.
    apply Forall_cons in Hm as [Hc _]. cbn in Hc. loads. stores.
    eapply (op_commits w (Transact_saving a) f x m x' m' s1 _ b); [done..|entered].
Qed.

(** A payment that is not covered is given up. *)
Lemma send_payment_behaves f x m : tx_base x -> frame_ok m f -> behaves C pkt self (txn_send_payment s f x m) (txn_does x m).
Proof.
  intros Hb Hf w Hg Ho. unfold txn_send_payment. destruct (two_accounts_ok s Hs (fr_seed f)) as (a0 & a1 & sd & -> & H0 & H1 & Hne).
  rewrite lift_Ok. assert (op_ok N (Send_payment a0 a1)) as Hop by done. eapply (op_runs w (Send_payment a0 a1) f x m); [done..|filled| |].
  - intros x' m' s1 Hk Hl Hpe _. cbn beta iota. rewrite executed_abort, lift_Ok, decide_True by done. by apply op_aborts.
  - intros x' m' b s1 Hk Hl Hpe _ Hm Hex Hu. cbn beta iota. rewrite executed_go_on, lift_Ok, decide_False by done.
    destruct (frame_apart m f Hf) as (A01 & _ & _). apply Forall_cons in Hm as [Hc0 Hm]. apply Forall_cons in Hm as [Hc1 _]. cbn in Hc0, Hc1.
    loads. destruct (Float32.ltb (b_chk b a0) amount_5_0) eqn:El; [by apply op_aborts|].
    stores. loads. stores. eapply (op_commits w (Send_payment a0 a1) f x m x' m' s1 _ b); [done..| |done|lia|].
    + cbn [run_op]. by rewrite El.
    + entered.
Qed.

Lemma balance_behaves f x m : tx_base x -> frame_ok m f -> behaves C pkt self (txn_balance s f x m) (txn_does x m).
Proof.
  intros Hb Hf w Hg Ho. unfold txn_balance. destruct (get_account_ok s Hs (fr_seed f)) as (a & sd & -> & Ha).
  rewrite lift_Ok. assert (op_ok N (Balance a)) as Hop by done. eapply (op_runs w (Balance a) f x m); [done..|filled| |].
  - intros x' m' s1 Hk Hl Hpe Hsh. cbn beta iota. rewrite decide_True by done.
    destruct (rdonly_app mp T idx coros self pkt _ x' m' s1 Hpe Hsh) as (G1 & G2 & G3); [done|]. by apply op_ends_none.
  - intros x' m' b s1 Hk Hl Hpe _ Hm Hex Hu. cbn beta iota. rewrite decide_False by (by intros []).
    apply Forall_cons in Hm as [Hs0 Hm]. apply Forall_cons in Hm as [Hc0 _]. cbn in Hs0, Hc0. loads.
    apply wp_bind. eapply wp_mono; [apply (op_commit w (Balance a) f x x' m' s1 m' b b); try done; apply Forall_nil_2|].
    intros [[st x2] m2] s' (K1 & K2 & K3 & K4 & [(-> & t & Hd & Ht)|(-> & _ & Hq)]).
    + apply (op_ends_one w (Balance a) x m x2 m2 s' t); try done. lia.
    + apply op_ends_none; try done. cbn [abort_rdonly]. lia.
Qed.

Lemma write_check_behaves f x m : tx_base x -> frame_ok m f -> behaves C pkt self (txn_write_check s f x m) (txn_does x m).
Proof.
  intros Hb Hf w Hg Ho. unfold txn_write_check. destruct (get_account_ok s Hs (fr_seed f)) as (a & sd & -> & Ha).
  rewrite lift_Ok. assert (op_ok N (Write_check a)) as Hop by done. eapply (op_runs w (Write_check a) f x m); [done..|filled| |].
  - intros x' m' s1 Hk Hl Hpe _. cbn beta iota. rewrite executed_abort, lift_Ok, decide_True by done. by apply op_aborts.
  - intros x' m' b s1 Hk Hl Hpe _ Hm Hex Hu. cbn beta iota. rewrite executed_go_on, lift_Ok, decide_False by done.
    destruct (frame_apart m f Hf) as (A01 & _ & _). apply Forall_cons in Hm as [Hs0 Hm]. apply Forall_cons in Hm as [Hc0 _]. cbn in Hs0, Hc0. loads.
    set (fee := if Float32.ltb (Float32.add (b_sav b a) (b_chk b a)) amount_5_0 then Float32.add amount_5_0 (Float32.of_int 1) else amount_5_0).
    match goal with |- wp _ _ _ (lift ?r ≫= _) _ _ => replace r with (set_bal (fr_obj f 1) (Float32.sub (b_chk b a) fee) m') end.
    2: { unfold fee. by destruct (Float32.ltb _ _). }
    stores. apply wp_bind. eapply wp_mono; [eapply (op_commit w (Write_check a) f x x' m' s1 _ b); [done..|entered]|].
    intros [[st x2] m2] s' (K1 & K2 & K3 & K4 & [(-> & t & Hd & Ht)|(-> & _ & Hq)]).
    + apply (op_ends_one w (Write_check a) x m x2 m2 s' t); try done. lia.
    + apply op_ends_none; try done. lia.
Qed.

Lemma run_txn_behaves ty f x m : tx_base x -> frame_ok m f -> behaves C pkt self (run_txn s ty f x m) (txn_does x m).
Proof.
  destruct ty; [apply amalgamate_behaves|apply balance_behaves|apply deposit_checking_behaves|apply send_payment_behaves|
    apply transact_saving_behaves|apply write_check_behaves].
Qed.

(** ** The coroutine *)

Lemma workgen_length : match create_workgen_array with Ok arr => length arr = 100%nat | Err _ => False end.
Proof. reflexivity. Qed.

Lemma done_ops_app l l' : done_ops (l ++ l') = done_ops l ++ done_ops l'.
Proof. apply omap_app. Qed.

(** The transactions of a coroutine are those it counts as committed. *)
Lemma slave_loop_behaves arr fs : length arr = 100%nat -> forall x m sofar,
  tx_base x -> Forall (frame_ok m) fs ->
  behaves C pkt self (slave_loop s arr fs x m sofar)
    (fun l ts => exists l', l = sofar ++ l' /\ length l' = length fs /\ Forall2 (does_op N) ts (done_ops l')).
Proof.
  intros Harr. induction fs as [|f fs IH]; intros x m sofar Hb Hfs; cbn [slave_loop].
  { apply behaves_done. exists []. by rewrite app_nil_r. }
  apply Forall_cons in Hfs as [Hf Hfs]. destruct (hrd_fastrand (fr_seed f)) as [r seed].
  assert (exists ty, at_ arr (r mod 100) = Ok ty) as (ty & ->).
  { pose proof (Z.mod_pos_bound r 100 ltac:(lia)) as Hr. destruct (lookup_lt_is_Some_2 arr (Z.to_nat (r mod 100))) as [ty Hty]; [lia|].
    exists ty. rewrite at_nonneg by lia. by rewrite Hty. }
  rewrite lift_Ok. eapply behaves_bind; [apply run_txn_behaves; [done|by destruct Hf]|].
  intros [[[op ok] x'] m'] t1 (Hk & Hl & _ & Ht). eapply behaves_mono.
  { apply IH; [by eapply base_kin|]. eapply Forall_impl; [exact Hfs|]. intros f'. by apply frame_ext. }
  intros l t2 (l' & -> & El & Ht2). exists ((op, ok) :: l'). rewrite <- app_assoc. split; [done|]. split; [simpl; by rewrite El|].
  change ((op, ok) :: l') with ([(op, ok)] ++ l'). rewrite done_ops_app. by apply Forall2_app.
Qed.

Lemma slave_func_behaves coro_id rec arr fs m :
  create_workgen_array = Ok arr -> Mappings.use_lock_server mp = false -> Mappings.num_machines mp <= HOTS_MAX_MACHINES ->
  1 <= coro_id < coros -> coros <= RPC_MAX_CORO -> Logger.sizeof_log_record_t <= Z.of_nat (length rec) ->
  self = int_rep (mk_crid coro_id (Mappings.wrkr_gid mp)) -> Forall (frame_ok m) fs ->
  behaves C pkt self (slave_func s coro_id mp rec arr fs m)
    (fun l ts => length l = length fs /\ Forall2 (does_op N) ts (done_ops l)).
Proof.
  intros Harr Hls Hnm Hco Hcs Hrec Hself Hfs. unfold slave_func.
  assert (assert_ (negb (coro_id =? RPC_MASTER_CORO_ID)) = Ok tt) as ->.
  { change RPC_MASTER_CORO_ID with 0. by destruct (Z.eqb_spec coro_id 0); [lia|]. }
  rewrite lift_Ok. destruct (coro_base mp coros HM coro_id rec Hls Hnm Hco Hcs Hrec) as (x0 & -> & Hb).
  rewrite lift_Ok. rewrite <- Hself in Hb. pose proof workgen_length as Hw. rewrite Harr in Hw.
  eapply behaves_mono; [by apply (slave_loop_behaves arr fs Hw x0 m [])|]. intros l ts (l' & -> & H1 & H2). done.
Qed.

End Transactions.
End SmallbankTx.
