(* ===== verification/SmallbankStore.v ===== *)
(** * SmallBank on the cluster

    Coroutines that run SmallBank on the tables of a cluster: what they have done to the
    tables is what a bank does to its balances, one transaction after another. *)

From S2P Require Import Prelude Util Float32 Random Hots Mappings FixedTable FixedTableInv FixedTableOps FixedTableSteps Datastore.
From S2P Require Import DatastoreSpec RpcDefs RpcBatch Logger Tx TxWorld TxMem TxSpec TxSystem TxSerial.
From S2P Require Import TxTransaction TxSession TxCluster TxApp TxStore TxClients Smallbank SmallbankSpec SmallbankTx.
From Stdlib Require Import ZArith Lia Bool.
From stdpp Require Import base functions numbers sets list gmap relations.
#[local] Open Scope Z_scope.
Import FixedTable FixedTableInv FixedTableOps DatastoreSpec RpcDefs RpcBatch Tx TxWorld TxMem TxSpec TxSystem.
Import TxSerial TxTransaction TxSession TxCluster TxApp TxStore TxClients Smallbank SmallbankSpec SmallbankTx.

Module SmallbankStore.

(** ** Definitions *)

(** The bank that the tables hold. *)
Definition bank_of (σ : Z -> Z -> option (list byte)) : bank :=
  let bal ty a := match σ ty a with Some v => le_val (drop 4 v) | None => 0 end in
  mk_bank (bal RPC_SAVING_REQ) (bal RPC_CHECKING_REQ).

Notation ledger := (list (sb_op * bool)).

(** The program of a coroutine. *)
Definition teller_prog (s : sb) (tl : client frame) : prog ledger :=
  arr ← lift create_workgen_array;
  slave_func s (ct_coro tl) (ct_mp tl) (ct_rec tl) arr (ct_frames tl) (ct_mem tl).

Section Deployment.
Context (mp : Mappings.t) (s : sb) (idx : Z -> Z -> Z -> nat) (coros pkt : Z) (lid : nat -> Z).
Notation N := (num_accounts_global s).
Notation C := (cluster_of mp (sb_types N) idx coros).

Definition teller_coro (tl : client frame) : coro ledger := client_coro (teller_prog s) done_ops all_run (does_op N) tl.

Record branch (tls : list (client frame)) (st : stores) : Prop := {
  br_bank : sb_ok s;
  br_pkt : 400 <= pkt;
  br_deployed : deployed mp (sb_types N) idx coros frame_ok tls st
}.

(** ** Lemmas *)

Lemma teller_honest : sb_ok s -> 400 <= pkt -> honest (sb_types N) idx coros pkt (teller_prog s) done_ops all_run (does_op N) frame_ok.
Proof.
  intros Hs Hpkt tl HM Hls Hnm Hco Hcs Hrec Hfr. unfold teller_prog. destruct create_workgen_array as [arr|] eqn:Ea; [|done].
  rewrite lift_Ok. by apply slave_func_behaves.
Qed.

(** Tables whose accounts all have their entries hold a bank. *)
Lemma bank_represents w : peaceful C w -> represents N (db C w) (bank_of (db C w)).
Proof.
  intros (_ & Hp & _) ty a Hty Ha.
  assert (bal_of (bank_of (db C w)) ty a = match db C w ty a with Some v => le_val (drop 4 v) | None => 0 end) as E.
  { destruct Hty as [-> | ->]; reflexivity. }
  destruct (Hp ty a) as [Hv _]; [by destruct Hty as [-> | ->]|]. destruct (Hv Ha) as (bal & Hb & Ev).
  change (db C w ty a = Some (sb_val (magic_of ty) bal)) in Ev. unfold entry. cbn [fst snd]. rewrite E, Ev.
  unfold sb_val. rewrite drop_app_length' by (by rewrite length_le_bytes). by rewrite le_val_bytes.
Qed.

(** ** Theorems *)

Notation csys := (csys C pkt ledger lid).
Notation begun tls := (begins C pkt ledger (map teller_coro tls)).

(** C4: SmallBank is a bank.  Any number of coroutines of any workers run any number of
    SmallBank transactions, of random types on random accounts, on replicated tables.
    When all have ended there is an order of the transactions they count as committed,
    which keeps the order of those of each coroutine, in which the bank that the tables
    held at the beginning can run them one after another, each as its specification
    says, and the tables hold the bank that results. *)
Theorem smallbank_serializable tls st s0 st' ths tr :
  branch tls st -> begun tls st s0 -> rtc csys s0 (st', ths, tr) ->
  Forall (fun th => exists l w1 tr1, th = T_end _ l w1 tr1) ths ->
  exists (order : list (nat * sb_op)) b',
    (forall i tl th, tls !! i = Some tl -> ths !! i = Some th ->
       exists l w1 tr1, th = T_end _ l w1 tr1 /\ length l = length (ct_frames tl) /\ of_coro i order = done_ops l) /\
    Forall (fun x => x.1 < length tls)%nat order /\
    run_ops order.*2 (bank_of (db C (contents C st))) = Some b' /\ represents N (db C (contents C st')) b'.
Proof.
  intros [Hs Hpkt Hdp] Hb Hrun Hend.
  destruct (clients_serializable mp (sb_types N) idx coros pkt lid _ _ _ _ _ (teller_honest Hs Hpkt) tls st s0 st' ths tr Hdp Hb Hrun Hend)
    as (ts & order & Hled & Hlt & Hops & Hv & Hf).
  destruct (ops_refine N _ _ Hops (db C (contents C st)) (bank_of (db C (contents C st))) Hv) as (b' & Hrun' & Hrep).
  { apply bank_represents. apply (dp_rest _ _ _ _ _ tls st Hdp). }
  exists order, b'. split; [done|]. split; [done|]. split; [done|].
  intros ty a Hty Ha. destruct (Hrep ty a Hty Ha) as [H1 H2]. split; [done|]. rewrite <- H2. symmetry. apply Hf. by destruct Hty as [-> | ->].
Qed.

(** C5: SmallBank never fails an assertion.  In every state that its coroutines can
    reach, none has failed an assertion, of the transaction library or on the magic
    numbers and results that the application checks, or left the bounds of its memory;
    requests are answered unless a table has no free buckets; and at every moment every
    account has an entry with its magic number in both tables, and so do the backups of
    every account that is not locked. *)
Theorem smallbank_safe tls st s0 st' ths tr :
  branch tls st -> begun tls st s0 -> rtc csys s0 (st', ths, tr) ->
  (forall i e, ths !! i <> Some (T_fault _ e)) /\
  (forall i ps k n q, ths !! i = Some (T_wait _ ps k) -> ps !! n = Some (q, None) ->
     (exists r st'', handles C (lid i) st' q r st'') \/ full st' q) /\
  represents N (db C (contents C st')) (bank_of (db C (contents C st'))) /\ synced C (contents C st').
Proof.
  intros [Hs Hpkt Hdp] Hb Hrun.
  destruct (clients_safe mp (sb_types N) idx coros pkt lid _ _ _ _ _ (teller_honest Hs Hpkt) tls st s0 st' ths tr Hdp Hb Hrun) as (H1 & H2 & H3 & H4).
  split; [done|]. split; [done|]. split; [by apply bank_represents|done].
Qed.


End Deployment.
End SmallbankStore.
