(* ===== verification/SmallbankPopulate.v ===== *)
(** * SmallBank: population

    The workers insert the accounts into the tables of their machines.  However their
    insertions interleave, the tables then hold a bank in which every balance is the
    initial one, replicated, and transactions can begin. *)

From S2P Require Import Prelude Util City Float32 Hots Mappings FixedTable FixedTableInv FixedTableOps FixedTableInit FixedTableSteps.
From S2P Require Import Datastore DatastoreSpec RpcDefs Tx TxWorld TxSpec TxSerial TxSession TxCluster TxStore TxPopulate.
From S2P Require Import Smallbank SmallbankSpec SmallbankTx SmallbankStore.
From Stdlib Require Import ZArith Lia Bool FunctionalExtensionality.
From stdpp Require Import base functions numbers sets list gmap relations.
#[local] Open Scope Z_scope.
Import FixedTable FixedTableInv FixedTableOps FixedTableInit DatastoreSpec RpcDefs Tx TxWorld TxSpec TxSerial TxSession TxCluster TxStore.
Import TxPopulate Smallbank SmallbankSpec SmallbankTx SmallbankStore.

Module SmallbankPopulate.

(** ** Definitions *)

(** What the loops go over, and the initial value of an entry. *)
Definition sb_value (ty : Z) : list byte := sb_val (magic_of ty) initial_bal.
Definition sb_entries (N : Z) : list (Z * Z * list byte) :=
  flat_map (fun a => [(RPC_SAVING_REQ, a, sb_value RPC_SAVING_REQ); (RPC_CHECKING_REQ, a, sb_value RPC_CHECKING_REQ)]) (seqZ 0 N).

(** The tables of a machine, by replica. *)
Definition tables_of (nr mn : Z) (st : stores) : tables :=
  mk_tables (replicas_of nr mn RPC_SAVING_REQ st) (replicas_of nr mn RPC_CHECKING_REQ st).

(** ** A worker's program *)

Section Worker.
Context (mp : Mappings.t) (nr : Z) (Hnr : 0 <= nr <= 10).
Notation mn := (Mappings.machine_id mp).

(** The account's loads at replica [r]. *)
Definition acct_loads (r a : Z) : list load :=
  [mk_load RPC_SAVING_REQ r a (sb_value RPC_SAVING_REQ); mk_load RPC_CHECKING_REQ r a (sb_value RPC_CHECKING_REQ)].

Lemma populate_account_runs r a st :
  0 <= r < nr -> populate_account mp r a (tables_of nr mn st) = st' ← run_worker true mp (acct_loads r a) st; Ok (tables_of nr mn st').
Proof.
  intros Hr. unfold populate_account, tables_of. cbn [saving_table checking_table acct_loads run_worker]. unfold sb_key.
  change (load_into_table mp) with (load_key true mp). change (sb_val sb_sav_magic initial_bal) with (sb_value RPC_SAVING_REQ).
  change (sb_val sb_chk_magic initial_bal) with (sb_value RPC_CHECKING_REQ).
  rewrite (replicas_at mp nr RPC_SAVING_REQ st r Hr), (replicas_at mp nr RPC_CHECKING_REQ st r Hr), bind_Ok.
  unfold run_load. cbn [ld_ty ld_repl ld_key ld_val].
  destruct (load_key true mp (st_table st mn (RPC_SAVING_REQ + r)) r a (sb_value RPC_SAVING_REQ)) as [[n t]|]; [|done]. rewrite !bind_Ok.
  assert (st_table (set_table mn (RPC_SAVING_REQ + r) t st) mn (RPC_CHECKING_REQ + r) = st_table st mn (RPC_CHECKING_REQ + r)) as ->.
  { cbn [set_table st_table]. unfold upd2, RPC_SAVING_REQ, RPC_CHECKING_REQ. rewrite decide_False; [done|]. intros [= E]. lia. }
  destruct (load_key true mp (st_table st mn (RPC_CHECKING_REQ + r)) r a (sb_value RPC_CHECKING_REQ)) as [[n' t']|]; [|done]. rewrite !bind_Ok.
  f_equal. f_equal.
  - rewrite (replicas_other mp nr RPC_CHECKING_REQ), replicas_set; [done|lia|unfold RPC_SAVING_REQ, RPC_CHECKING_REQ; lia|lia].
  - rewrite replicas_set, (replicas_other mp nr RPC_SAVING_REQ); [done|unfold RPC_SAVING_REQ, RPC_CHECKING_REQ; lia|lia|lia].
Qed.

Lemma populate_accounts_runs r accts : 0 <= r < nr -> forall st,
  populate_accounts mp r accts (tables_of nr mn st) = st' ← run_worker true mp (flat_map (acct_loads r) accts) st; Ok (tables_of nr mn st').
Proof.
  intros Hr. induction accts as [|a accts IH]; intros st; [done|]. cbn [populate_accounts flat_map].
  rewrite populate_account_runs, run_worker_app by done. destruct (run_worker true mp (acct_loads r a) st) as [st1|]; [|done]. rewrite !bind_Ok. apply IH.
Qed.

Lemma populate_replicas_runs repls accts : Forall (fun r => 0 <= r < nr) repls -> forall st,
  populate_replicas mp repls accts (tables_of nr mn st) =
    st' ← run_worker true mp (flat_map (fun r => flat_map (acct_loads r) accts) repls) st; Ok (tables_of nr mn st').
Proof.
  induction 1 as [|r repls Hr _ IH]; intros st; [done|]. cbn [populate_replicas flat_map].
  rewrite populate_accounts_runs, run_worker_app by done. destruct (run_worker true mp (flat_map (acct_loads r) accts) st) as [st1|]; [|done].
  rewrite !bind_Ok. apply IH.
Qed.

Lemma loads_flat N : all_loads nr (sb_entries N) = flat_map (fun r => flat_map (acct_loads r) (seqZ 0 N)) (seqZ 0 nr).
Proof.
  unfold all_loads, sb_entries. apply flat_map_ext. intros r. induction (seqZ 0 N) as [|a l IH]; [done|]. cbn [flat_map]. by rewrite map_app, IH.
Qed.

(** The program of a worker runs its loads one after another. *)
Lemma populate_runs s st :
  Mappings.num_replicas mp = nr ->
  populate_savings_and_checking_table s mp (tables_of nr mn st) =
    st' ← run_worker true mp (all_loads nr (sb_entries (num_accounts_global s))) st; Ok (tables_of nr mn st').
Proof.
  intros E. unfold populate_savings_and_checking_table. rewrite E, loads_flat. apply populate_replicas_runs.
  apply Forall_forall. intros r Hr%elem_of_seqZ. lia.
Qed.

End Worker.

(** ** All workers *)

Lemma initial_bal_u32 : u 32 initial_bal.
Proof. apply Float32.of_int_range. Qed.

Lemma entries_elem N ty k v :
  (ty, k, v) ∈ sb_entries N <-> is_sb ty /\ 0 <= k < N /\ v = sb_value ty.
Proof.
  unfold sb_entries, is_sb. rewrite list_elem_of_In, in_flat_map. split.
  - intros (a & Ha%list_elem_of_In%elem_of_seqZ & [[= <- <- <-]|[[= <- <- <-]|[]]]); (split; [|split; [lia|done]]); auto.
  - intros ([-> | ->] & Hk & ->); exists k; (split; [apply list_elem_of_In, elem_of_seqZ; lia|]); cbn [In]; auto.
Qed.

Lemma entries_keys N ty k : (ty, k) ∈ (sb_entries N).*1 <-> is_sb ty /\ 0 <= k < N.
Proof.
  split.
  - intros ([[ty' k'] v] & E & Hin)%list_elem_of_fmap. cbn in E. injection E as -> ->. by apply entries_elem in Hin as (H1 & H2 & _).
  - intros [H1 H2]. apply list_elem_of_fmap. exists (ty, k, sb_value ty). split; [done|]. by apply entries_elem.
Qed.

Lemma entries_length N : 0 <= N -> Z.of_nat (length (sb_entries N)) = 2 * N.
Proof. intros HN. unfold sb_entries. rewrite (flat_map_constant_length (c := 2%nat)) by done. rewrite length_seqZ. lia. Qed.

Section Workers.
Context (mp : Mappings.t) (s : sb) (idx : Z -> Z -> Z -> nat) (coros : Z) (mps : nat -> Mappings.t) (W : nat).
Notation N := (num_accounts_global s).
Notation nr := (Mappings.num_replicas mp).
Notation C := (cluster_of mp (sb_types N) idx coros).

(** The insertions of all workers, in any order. *)
Lemma all_workers order st :
  sb_ok s -> staff mp mps W -> stores_ok C st -> fresh_stores C st ->
  (forall j, (j < W)%nat -> of_coro j order = all_loads nr (sb_entries N)) -> Forall (fun x => x.1 < W)%nat order ->
  (exists st', run_loads true mps order st = Ok st' /\ stores_ok C st' /\ at_rest C (contents C st') /\
     represents N (db C (contents C st')) bank0) \/
  (run_loads true mps order st = Err ExitFail /\
   exists pre st1 mn ty, pre `prefix_of` order /\ run_loads true mps pre st = Ok st1 /\ cl_has C mn ty = true /\ fl_head (st_table st1 mn ty) = 0).
Proof.
  intros Hs [[HM Hls] HW Hmps] Hst Hf Hord Hlt.
  assert (forall j, (j < W)%nat -> of_coro j order ≡ₚ all_loads nr (sb_entries N)) as Hord' by (intros j Hj; by rewrite (Hord j Hj)).
  pose proof HM as [Hwf _]. pose proof (Mappings.wf_backups mp Hwf) as Hb.
  pose proof (sk_bound s Hs) as HN. pose proof (sk_hot s Hs) as Hh.
  assert (forall ty k, contents_of (fun ty _ => sb_value ty) (sb_entries N) ty k =
    if decide (is_sb ty /\ 0 <= k < N) then Some (sb_value ty) else None) as Hc.
  { intros ty k. unfold contents_of. destruct (decide ((ty, k) ∈ (sb_entries N).*1)) as [Hd|Hd]; rewrite entries_keys in Hd; by case_decide. }
  destruct (population true mp (sb_types N) idx coros HM (sb_types_ok N _ (proj2 Hb)) Hls mps W HW Hmps (fun ty _ => sb_value ty) (sb_entries N))
    with (order := order) (st := st) as [(st' & E & Hst' & Hrest & Hdb)|H]; try done; [| | |left|by right].
  + apply Forall_forall. intros [[ty k] v] (Hty & Hk & ->)%entries_elem.
    split; [by destruct Hty as [-> | ->]|]. change kFtInvalidKey with (2 ^ 64 - 1). split; [lia|]. split; [done|]. cbn [ty_vsz sb_types]. unfold sb_value. by rewrite sb_val_length.
  + rewrite entries_length by lia. lia.
  + intros ty k Hty. rewrite Hc. split.
    * intros Hk. exists initial_bal. split; [apply initial_bal_u32|]. rewrite decide_True; [done|]. split; [|done].
      cbn [ty_prim sb_types] in Hty. by rewrite orb_true_iff, !Z.eqb_eq in Hty.
    * intros x. case_decide; [|done]. intros Ex. apply (inj Some) in Ex as <-. unfold sb_value. by rewrite sb_val_length.
  + exists st'. split; [done|]. split; [done|]. split; [done|]. intros ty a Hty Ha.
    assert (bal_of bank0 ty a = initial_bal) as Eb by (by destruct Hty as [-> | ->]). rewrite Eb. split; [apply initial_bal_u32|].
    rewrite Hdb, Hc, decide_True by (done || by destruct Hty as [-> | ->]). unfold entry. cbn [fst snd]. by rewrite Eb.
Qed.

(** C13: SmallBank's population.  The program of a worker makes its insertions one after
    another; and when those of all workers of the cluster are made, interleaved in any
    order, on new tables, then every table satisfies its invariant, nothing is locked,
    every backup holds what its primary holds, and the tables hold a bank in which every
    account has the initial balance: the state from which transactions may begin.  The
    process ends only when a table has run out of extra buckets. *)
Theorem smallbank_populated order st :
  sb_ok s -> staff mp mps W -> stores_ok C st -> fresh_stores C st ->
  (forall j, (j < W)%nat -> of_coro j order = all_loads nr (sb_entries N)) -> Forall (fun x => x.1 < W)%nat order ->
  (forall j st1, (j < W)%nat ->
     populate_savings_and_checking_table s (mps j) (tables_of nr (Mappings.machine_id (mps j)) st1) =
       st2 ← run_worker true (mps j) (all_loads nr (sb_entries N)) st1; Ok (tables_of nr (Mappings.machine_id (mps j)) st2)) /\
  ((exists st', run_loads true mps order st = Ok st' /\ stores_ok C st' /\ at_rest C (contents C st') /\
      represents N (db C (contents C st')) bank0) \/
   (run_loads true mps order st = Err ExitFail /\
    exists pre st1 mn ty, pre `prefix_of` order /\ run_loads true mps pre st = Ok st1 /\ cl_has C mn ty = true /\ fl_head (st_table st1 mn ty) = 0)).
Proof.
  intros Hs Hsf Hst Hf Hord Hlt. split; [|by apply all_workers]. intros j st1 Hj. destruct (staff_replicas mp mps W j Hsf Hj). by apply populate_runs.
Qed.

End Workers.
End SmallbankPopulate.
