(* ===== verification/SmallbankDemo.v ===== *)
(** * Running SmallBank

    A cluster of two machines with one worker each and a bank of two accounts: it is
    populated, and two coroutines run transactions on it.  The instances at which the
    theorems on SmallBank are applied. *)

From S2P Require Import Prelude Util City Float32 Hots Mappings FixedTable FixedTableInv FixedTableOps FixedTableInit FixedTableSteps.
From S2P Require Import Datastore DatastoreSpec RpcDefs RpcBatch Logger Tx TxWorld TxMem TxSpec TxSystem TxSerial.
From S2P Require Import TxSession TxCluster TxStore TxClients TxDemo TxPopulate Smallbank SmallbankSpec SmallbankTx SmallbankStore SmallbankPopulate.
From Stdlib Require Import ZArith Lia Bool.
From stdpp Require Import base numbers sets list gmap relations.
#[local] Open Scope Z_scope.
Import RpcDefs RpcBatch Tx TxWorld TxMem TxSpec TxSystem TxSerial TxSession TxCluster TxStore TxClients TxDemo TxPopulate.
Import FixedTable FixedTableInv FixedTableOps FixedTableInit DatastoreSpec Smallbank SmallbankSpec SmallbankTx SmallbankStore SmallbankPopulate.

Module SmallbankDemo.

(** ** The bank *)

Definition sb2 : sb := mk_sb 2 1 2 2 2 2.
Definition mps (j : nat) : Mappings.t := mp (Z.of_nat j).
Notation idx2 := (made_idx (sb_types 2)).
Definition C2 : cluster := cluster_of (mp 0) (sb_types 2) idx2 3.
Definition st2 : stores := made_stores (sb_types 2).

Lemma sb2_ok : sb_ok sb2.
Proof. by repeat split. Qed.

Lemma st2_ok : stores_ok C2 st2 /\ fresh_stores C2 st2.
Proof. apply made_ok. by left. Qed.

(** ** Population: first all of worker 0, then all of worker 1 *)

Definition loads2 : list load := all_loads 2 (sb_entries 2).
Definition order2 : list (nat * load) := map (pair 0%nat) loads2 ++ map (pair 1%nat) loads2.
Definition st3 : stores := match run_loads true mps order2 st2 with Ok st => st | Err _ => st2 end.

Lemma staff2 : staff (mp 0) mps 2.
Proof.
  split; [split; [by apply mp_replicated|done]|done|].
  intros j Hj. assert (j = 0 \/ j = 1)%nat as [-> | ->] by lia; reflexivity.
Qed.

Lemma order2_workers j : (j < 2)%nat -> of_coro j order2 = all_loads (Mappings.num_replicas (mp 0)) (sb_entries (num_accounts_global sb2)).
Proof. intros Hj. assert (j = 0 \/ j = 1)%nat as [-> | ->] by lia; reflexivity. Qed.

Lemma order2_range : Forall (fun x => x.1 < 2)%nat order2.
Proof. unfold order2. apply Forall_app. split; apply Forall_map, Forall_true; intros; cbn; lia. Qed.

Lemma st3_ok : stores_ok C2 st3 /\ at_rest C2 (contents C2 st3).
Proof.
  assert (is_ok (run_loads true mps order2 st2) = true) as Hr by (vm_compute; reflexivity).
  pose proof (all_workers (mp 0) sb2 idx2 3 mps 2 order2 st2 sb2_ok staff2 (proj1 st2_ok) (proj2 st2_ok) order2_workers order2_range) as H.
  unfold st3. destruct (run_loads true mps order2 st2) as [st|] eqn:E; [|discriminate Hr].
  destruct H as [(st' & E' & H1 & H2 & _)|(E' & _)]; [|discriminate E']. injection E' as <-. split; [exact H1|exact H2].
Qed.

Lemma smallbank_populated_witness :
  run_loads true mps order2 st2 = Ok st3 /\ stores_ok C2 st3 /\ at_rest C2 (contents C2 st3) /\ represents 2 (db C2 (contents C2 st3)) bank0.
Proof.
  assert (is_ok (run_loads true mps order2 st2) = true) as Hr by (vm_compute; reflexivity).
  destruct (smallbank_populated (mp 0) sb2 idx2 3 mps 2 order2 st2 sb2_ok staff2 (proj1 st2_ok) (proj2 st2_ok) order2_workers order2_range) as [_ H].
  unfold st3. destruct (run_loads true mps order2 st2) as [st|] eqn:E; [|discriminate Hr].
  destruct H as [(st' & E' & H)|(E' & _)]; [|discriminate E']. injection E' as <-. split; [reflexivity|exact H].
Defined.

(** ** Two coroutines *)

Definition frame2 (seed : Z) : frame := mk_frame seed (fun i => 64 * Z.of_nat i) (fun _ => un0).
Definition tellers : list (client frame) :=
  [mk_client (mp 0) 1 rec0 [frame2 1; frame2 2; frame2 3] mem0; mk_client (mp 1) 2 rec0 [frame2 4; frame2 5] mem0].

Lemma frame2_ok seed : frame_ok mem0 (frame2 seed).
Proof.
  split; [|intros i; apply un0_ok]. cbn [frame2 fr_obj]. unfold obj_at, apart. change sizeof_hots_obj_t with 56. unfold mem0.
  repeat (split || apply Forall_cons || apply Forall_nil_2); unfold apart; change sizeof_hots_obj_t with 56; rewrite ?length_replicate; lia.
Qed.

Lemma branch2 : branch (mp 0) sb2 idx2 3 400 tellers st3.
Proof.
  split; [apply sb2_ok|done|]. split.
  - split; [by apply mp_replicated|]. by vm_compute.
  - by vm_compute.
  - repeat (apply Forall_cons; split); try apply Forall_nil_2; (split; [reflexivity|done|by vm_compute|]); cbn [ct_frames ct_mem];
      repeat (apply Forall_cons; split); try apply Forall_nil_2; apply frame2_ok.
  - repeat (apply NoDup_cons; split); [|by apply not_elem_of_nil|apply NoDup_nil_2]. rewrite list_elem_of_singleton. done.
  - apply st3_ok.
  - apply st3_ok.
Qed.

(** ** The run *)

Notation ledger := (list (sb_op * bool)).
Definition prog_a : prog ledger := teller_prog sb2 (mk_client (mp 0) 1 rec0 [frame2 1; frame2 2; frame2 3] mem0).
Definition prog_b : prog ledger := teller_prog sb2 (mk_client (mp 1) 2 rec0 [frame2 4; frame2 5] mem0).
Definition ths2 : list (tstate ledger) :=
  [settle ledger (advance 400 prog_a) (contents C2 st3) []; settle ledger (advance 400 prog_b) (contents C2 st3) []].
Definition s2 : stores * list (tstate ledger) * list event := (st3, ths2, []).

Lemma demo2_begins : begins C2 400 ledger (map (teller_coro sb2) tellers) st3 s2.
Proof.
  split; [reflexivity|]. exists ths2. split; [reflexivity|]. unfold ths2, tellers. cbn [map].
  repeat (constructor; [eexists; split; [apply advance_starts|reflexivity]|]). constructor.
Qed.

Lemma st3_range : in_range C2 (contents C2 st3).
Proof. destruct st3_ok as [_ [[Hc _] _]]. intros mn ty i Hty. by destruct (Hc mn ty i Hty) as (_ & _ & H). Qed.

(** Both coroutines run to their ends, one after the other, and commit everything. *)
Lemma demo2_run :
  exists a b st w1 w2 tr1 tr2 tr,
    rtc (csys C2 400 ledger lid0) s2 (st, [T_end _ a w1 tr1; T_end _ b w2 tr2], tr) /\
    length (done_ops a) = 3%nat /\ length (done_ops b) = 2%nat.
Proof.
  assert (match drive C2 400 (lid0 0) prog_a st3 with
          | Some (a, st) =>
              match drive C2 400 (lid0 1) prog_b st with Some (b, _) => (length (done_ops a), length (done_ops b)) | None => (0, 0)%nat end
          | None => (0, 0)%nat
          end = (3, 2)%nat) as Hc by (vm_compute; reflexivity).
  destruct (drive C2 400 (lid0 0) prog_a st3) as [[a st4]|] eqn:E1; [|discriminate].
  destruct (drive C2 400 (lid0 1) prog_b st4) as [[b st]|] eqn:E2; [|discriminate]. injection Hc as Ha Hb.
  destruct (drive_two C2 400 lid0 prog_a prog_b st3 a st4 b st (contents C2 st3) E1 E2 st3_range) as (w1 & w2 & tr1 & tr2 & tr & R).
  exists a, b, st, w1, w2, tr1, tr2, tr. split; [exact R|split; [exact Ha|exact Hb]].
Qed.

Lemma smallbank_serializable_witness :
  exists st order b', (length (of_coro 0 order) = 3 /\ length (of_coro 1 order) = 2)%nat /\
    run_ops order.*2 (bank_of (db C2 (contents C2 st3))) = Some b' /\ represents 2 (db C2 (contents C2 st)) b'.
Proof.
  destruct demo2_run as (a & b & st & w1 & w2 & tr1 & tr2 & tr & Hrun & Ha & Hb).
  destruct (smallbank_serializable (mp 0) sb2 idx2 3 400 lid0 tellers st3 s2 st _ tr branch2 demo2_begins Hrun)
    as (order & b' & Hres & _ & Hr & Hrep).
  - repeat constructor; eauto.
  - exists st, order, b'.
    destruct (Hres 0%nat _ _ eq_refl eq_refl) as (l1 & v1 & r1 & E1 & _ & R1). injection E1 as -> _ _.
    destruct (Hres 1%nat _ _ eq_refl eq_refl) as (l2 & v2 & r2 & E2 & _ & R2). injection E2 as -> _ _.
    rewrite R1, R2. split; [split; assumption|]. split; [exact Hr|exact Hrep].
Defined.

Lemma smallbank_safe_witness :
  exists s, rtc (csys C2 400 ledger lid0) s2 s /\
    represents 2 (db C2 (contents C2 s.1.1)) (bank_of (db C2 (contents C2 s.1.1))) /\ synced C2 (contents C2 s.1.1).
Proof.
  destruct demo2_run as (a & b & st & w1 & w2 & tr1 & tr2 & tr & Hrun & _).
  destruct (smallbank_safe (mp 0) sb2 idx2 3 400 lid0 tellers st3 s2 st _ tr branch2 demo2_begins Hrun) as (_ & _ & H1 & H2).
  eexists. split; [exact Hrun|]. split; [exact H1|exact H2].
Defined.

End SmallbankDemo.
