(* ===== verification/Tatp.v ===== *)
(** * TATP

    The telecommunication benchmark of [src/app/tatp]: subscribers with their secondary
    index, special facilities, access information and call forwardings, seven kinds of
    transactions on them, the coroutines that run them, and the population of the
    tables. *)

From S2P Require Import Prelude Util Random Hots Mappings FixedTable Datastore RpcDefs RpcBatch Tx.
From Stdlib Require Import ZArith Lia Bool.
From stdpp Require Import base numbers list.
#[local] Open Scope Z_scope.
Import Random FixedTable RpcDefs RpcBatch Tx.

Module Tatp.

(** ** [tatp_defs.h] and [tatp_string.h] *)

Definition TATP_MAX_SUBSCRIBERS : Z := 1000000000.

Definition FREQUENCY_GET_SUBSCRIBER_DATA : Z := 35.
Definition FREQUENCY_GET_ACCESS_DATA : Z := 35.
Definition FREQUENCY_GET_NEW_DESTINATION : Z := 10.
Definition FREQUENCY_UPDATE_SUBSCRIBER_DATA : Z := 2.
Definition FREQUENCY_UPDATE_LOCATION : Z := 14.
Definition FREQUENCY_INSERT_CALL_FORWARDING : Z := 2.
Definition FREQUENCY_DELETE_CALL_FORWARDING : Z := 2.

Definition SUBSCRIBERS_PER_MACHINE : Z := 1000000.

Definition SUBSCRIBER_BASE_SHM_KEY : Z := 2000.
Definition SEC_SUBSCRIBER_BASE_SHM_KEY : Z := 4000.
Definition ACCESS_INFO_BASE_SHM_KEY : Z := 6000.
Definition SPECIAL_FACILTY_BASE_SHM_KEY : Z := 8000.
Definition CALL_FORWARDING_BASE_SHM_KEY : Z := 10000.

(** A member of a union: [w] bits of word [x] from bit [lo] on are set to [v]. *)
Definition set_field (lo w v x : Z) : Z := x - 2 ^ lo * wrap w (x / 2 ^ lo) + 2 ^ lo * wrap w v.

(** [tatp_sub_nbr_t]: the decimal digits of a number, in 4 bits each; digit [i], and the
    three digits from digit [3 * i] on. *)
Definition set_dec (i v x : Z) : Z := set_field (4 * i) 4 v x.
Definition set_dec3 (i v x : Z) : Z := set_field (12 * i) 12 v x.

(** The keys: members of unions with [hots_key], which the constructors set to 0. *)
Definition tatp_sub_key (s_id : Z) : Z := set_field 0 32 s_id 0.
Definition tatp_sec_sub_key (sub_nbr : Z) : Z := sub_nbr.
Definition tatp_accinf_key (s_id ai_type : Z) : Z := set_field 32 8 ai_type (set_field 0 32 s_id 0).
Definition tatp_specfac_key (s_id sf_type : Z) : Z := set_field 32 8 sf_type (set_field 0 32 s_id 0).
Definition tatp_callfwd_key (s_id sf_type start_time : Z) : Z :=
  set_field 40 8 start_time (set_field 32 8 sf_type (set_field 0 32 s_id 0)).

(** The rows, and their bytes in memory. *)
Record tatp_sub_val_t := mk_sub {
  sub_nbr : Z; sub_nbr_unused : list byte; hex : list byte; bytes : list byte;
  bits : Z; msc_location : Z; vlr_location : Z
}.
Definition sub_bytes (v : tatp_sub_val_t) : list byte :=
  le_bytes 8 (sub_nbr v) ++ sub_nbr_unused v ++ hex v ++ bytes v ++ le_bytes 2 (bits v) ++
  le_bytes 4 (msc_location v) ++ le_bytes 4 (vlr_location v).

Record tatp_sec_sub_val_t := mk_sec { sec_s_id : Z; sec_magic : Z; sec_unused : list byte }.
Definition sec_bytes (v : tatp_sec_sub_val_t) : list byte := le_bytes 4 (sec_s_id v) ++ le_bytes 1 (sec_magic v) ++ sec_unused v.

Record tatp_accinf_val_t := mk_accinf { data1 : Z; data2 : Z; data3 : list byte; data4 : list byte; acc_unused : list byte }.
Definition accinf_bytes (v : tatp_accinf_val_t) : list byte :=
  le_bytes 1 (data1 v) ++ le_bytes 1 (data2 v) ++ data3 v ++ data4 v ++ acc_unused v.

Record tatp_specfac_val_t := mk_specfac { is_active : Z; error_cntl : Z; data_a : Z; data_b : list byte }.
Definition specfac_bytes (v : tatp_specfac_val_t) : list byte :=
  le_bytes 1 (is_active v) ++ le_bytes 1 (error_cntl v) ++ le_bytes 1 (data_a v) ++ data_b v.

Record tatp_callfwd_val_t := mk_callfwd { end_time : Z; numberx : list byte }.
Definition callfwd_bytes (v : tatp_callfwd_val_t) : list byte := le_bytes 1 (end_time v) ++ numberx v.

Definition sizeof_sub_val : Z := 40.
Definition sizeof_sec_sub_val : Z := 8.
Definition sizeof_accinf_val : Z := 16.
Definition sizeof_specfac_val : Z := 8.
Definition sizeof_callfwd_val : Z := 16.

Definition TATP_MAGIC : Z := 97.
Definition tatp_sub_msc_location_magic : Z := TATP_MAGIC.
Definition tatp_sec_sub_magic : Z := TATP_MAGIC + 1.
Definition tatp_accinf_data1_magic : Z := TATP_MAGIC + 2.
Definition tatp_specfac_data_b0_magic : Z := TATP_MAGIC + 3.
Definition tatp_callfwd_numberx0_magic : Z := TATP_MAGIC + 4.

Inductive tatp_txn_type_t : Type :=
| get_subsciber_data | get_access_data | get_new_destination | update_subscriber_data
| update_location | insert_call_forwarding | delete_call_forwarding.

#[global] Instance tatp_txn_type_eq_dec : EqDecision tatp_txn_type_t.
Proof. solve_decision. Defined.

(** ** [tatp.h] *)

Record tatp := mk_tatp {
  num_machines : Z; workers_per_machine : Z; num_replicas : Z;
  subscriber_size : Z; A : Z; map_1000 : list Z
}.

Definition make_map_1000 : list Z :=
  map (fun i =>
    let dig_1 := i / 1 mod 10 in
    let dig_2 := i / 10 mod 10 in
    let dig_3 := i / 100 mod 10 in
    wrap 16 (Z.lor (Z.lor (Z.shiftl dig_3 8) (Z.shiftl dig_2 4)) dig_1)) (seqZ 0 1000).

(** The constructor without the tables; the product is an [int]. *)
Definition make (num_machines workers_per_machine num_replicas : Z) : res tatp :=
  _ ← assert_ (wrap 64 (wrap 64 num_machines * SUBSCRIBERS_PER_MACHINE) <=? TATP_MAX_SUBSCRIBERS);
  size ← chk_int (num_machines * SUBSCRIBERS_PER_MACHINE);
  let subscriber_size := wrap 32 size in
  let A := if subscriber_size <=? 1000000 then 65535
           else if subscriber_size <=? 10000000 then 1048575 else 2097151 in
  Ok (mk_tatp num_machines workers_per_machine num_replicas subscriber_size A make_map_1000).

(** The loops fill the array from the index that the one before has left. *)
Definition create_workgen_array : res (list tatp_txn_type_t) :=
  let fill n (ty : tatp_txn_type_t) arr := arr ++ replicate (Z.to_nat n) ty in
  let arr := fill FREQUENCY_GET_SUBSCRIBER_DATA get_subsciber_data [] in
  let arr := fill FREQUENCY_GET_ACCESS_DATA get_access_data arr in
  let arr := fill FREQUENCY_GET_NEW_DESTINATION get_new_destination arr in
  let arr := fill FREQUENCY_UPDATE_SUBSCRIBER_DATA update_subscriber_data arr in
  let arr := fill FREQUENCY_UPDATE_LOCATION update_location arr in
  let arr := fill FREQUENCY_INSERT_CALL_FORWARDING insert_call_forwarding arr in
  let arr := fill FREQUENCY_DELETE_CALL_FORWARDING delete_call_forwarding arr in
  _ ← assert_ (Z.of_nat (length arr) =? 100);
  Ok arr.

(** The two draws are operands of [|], which the compiler may evaluate in either order:
    with [lr] the left one comes first. *)
Definition get_nurand_subscriber (lr : bool) (tp : tatp) (tg_seed : Z) : res (Z * Z) :=
  if subscriber_size tp =? 0 then Err DivByZero
  else
    let '(r1, tg_seed) := hrd_fastrand tg_seed in
    let '(r2, tg_seed) := hrd_fastrand tg_seed in
    let '(l, r) := if lr then (r1, r2) else (r2, r1) in
    Ok (Z.lor (l mod subscriber_size tp) (Z.land r (A tp)) mod subscriber_size tp, tg_seed).

Definition tatp_sub_nbr_from_sid_fast (tp : tatp) (s_id : Z) : res Z :=
  let sub_nbr := 0 in
  d ← at_ (map_1000 tp) (s_id mod 1000);
  let sub_nbr := set_dec3 0 d sub_nbr in
  let s_id := s_id / 1000 in
  d ← at_ (map_1000 tp) (s_id mod 1000);
  let sub_nbr := set_dec3 1 d sub_nbr in
  let s_id := s_id / 1000 in
  d ← at_ (map_1000 tp) (s_id mod 1000);
  Ok (set_dec3 2 d sub_nbr).

(** One digit after another, until none is left. *)
Fixpoint sid_digits (digits : list Z) (s_id sub_nbr : Z) : res Z :=
  match digits with
  | [] => _ ← assert_ (s_id =? 0); Ok sub_nbr
  | i :: digits =>
      let sub_nbr := set_dec i (s_id mod 10) sub_nbr in
      let s_id := s_id / 10 in
      if s_id =? 0 then Ok sub_nbr else sid_digits digits s_id sub_nbr
  end.
Definition tatp_sub_nbr_from_sid (s_id : Z) : res Z := sid_digits (seqZ 0 11) s_id 0.

(** ** [worker.cc] *)

(** What a call of a transaction finds: the seed of the thread, which all its coroutines
    advance, when it begins and when it goes on after its last read; the addresses of its
    local objects, on the stack of the coroutine; and what the items that are added to the
    transaction leave uninitialised. *)
Record frame := mk_frame { fr_seed : Z; fr_resume : Z; fr_obj : nat -> Z; fr_un : nat -> uninit }.

(** A transaction that has committed, with its parameters and what it has stored. *)
Inductive tatp_op : Type :=
| Get_subscriber_data (s_id : Z)
| Get_new_destination (s_id sf_type start_time end_time : Z)
| Get_access_data (s_id ai_type : Z)
| Update_subscriber_data (s_id sf_type bits data_a : Z)
| Update_location (s_id vlr_location : Z)
| Insert_call_forwarding (s_id sf_type start_time : Z) (val : tatp_callfwd_val_t)
| Delete_call_forwarding (s_id sf_type start_time : Z).

(** Members of an object: [val_size] is its first one, [val] is 16 bytes into it. *)
Definition get_val_size (o : Z) (m : list byte) : res Z := load_le 8 o m.
Definition set_val_size (o v : Z) (m : list byte) : res (list byte) := store_le 8 o v m.

(** Members of the rows in an object. *)
Definition get_msc_location (o : Z) (m : list byte) : res Z := load_le 4 (o + 16 + 32) m.
Definition set_bits (o v : Z) (m : list byte) : res (list byte) := store_le 2 (o + 16 + 30) v m.
Definition set_vlr_location (o v : Z) (m : list byte) : res (list byte) := store_le 4 (o + 16 + 36) v m.
Definition get_sec_s_id (o : Z) (m : list byte) : res Z := load_le 4 (o + 16) m.
Definition get_sec_magic (o : Z) (m : list byte) : res Z := load_le 1 (o + 16 + 4) m.
Definition get_data1 (o : Z) (m : list byte) : res Z := load_le 1 (o + 16) m.
Definition get_is_active (o : Z) (m : list byte) : res Z := load_le 1 (o + 16) m.
Definition get_data_b0 (o : Z) (m : list byte) : res Z := load_le 1 (o + 16 + 3) m.
Definition set_data_a (o v : Z) (m : list byte) : res (list byte) := store_le 1 (o + 16 + 2) v m.
Definition get_end_time (o : Z) (m : list byte) : res Z := load_le 1 (o + 16) m.
Definition set_end_time (o v : Z) (m : list byte) : res (list byte) := store_le 1 (o + 16) v m.
Definition get_numberx0 (o : Z) (m : list byte) : res Z := load_le 1 (o + 16 + 1) m.
Definition set_numberx0 (o v : Z) (m : list byte) : res (list byte) := store_le 1 (o + 16 + 1) v m.

(** The row that an object holds, for the record of what was inserted. *)
Definition get_callfwd (o : Z) (m : list byte) : tatp_callfwd_val_t :=
  let bs := take (Z.to_nat sizeof_callfwd_val) (drop (Z.to_nat (o + 16)) m) in
  mk_callfwd (le_val (take 1 bs)) (drop 1 bs).

(** [tatp_dassert] that a member has a value. *)
Definition assert_is (get : res Z) (v : Z) : res unit := g ← get; assert_ (g =? v).
Definition assert_exists (o : Z) (m : list byte) : res unit := n ← get_val_size o m; assert_ (0 <? n).
Definition assert_executed (st : tx_status_t) : res unit :=
  assert_ (bool_decide (st = in_progress \/ st = must_abort)).

(** The condition under which a transaction that reads a facility gives up. *)
Definition not_found (st : tx_status_t) (o : Z) (m : list byte) : res bool :=
  if decide (st <> in_progress) then Ok true else n ← get_val_size o m; Ok (n =? 0).

(** A result: the transaction if it is counted as committed, and the transaction object
    and memory it leaves. *)
Notation tatp_result := (option tatp_op * tx * list byte)%type.

Section Transactions.
Context (lr : bool) (tp : tatp).

Definition txn_get_subscriber_data (f : frame) (x : tx) (m : list byte) : prog tatp_result :=
  let x := start x in
  '(s_id, _) ← lift (get_nurand_subscriber lr tp (fr_seed f));
  let obj := fr_obj f 0 in
  '(_, x) ← lift (add_to_read_set RPC_SUBSCRIBER_REQ (tatp_sub_key s_id) obj (fr_un f 0) x);
  '(ex_result, x, m) ← do_read false x m;
  if decide (ex_result <> in_progress) then Done (None, abort_rdonly x, m)
  else
    _ ← lift (assert_exists obj m);
    _ ← lift (assert_is (get_msc_location obj m) tatp_sub_msc_location_magic);
    Done (Some (Get_subscriber_data s_id), commit_single_read x, m).

(** The loops over the call forwardings of a facility, which start at [8 * i]. *)
Fixpoint add_callfwds (f : frame) (s_id sf_type : Z) (ks : list Z) (x : tx) : res tx :=
  match ks with
  | [] => Ok x
  | i :: ks =>
      let n := Z.to_nat (i + 1) in
      '(_, x) ← add_to_read_set RPC_CALL_FORWARDING_REQ (tatp_callfwd_key s_id sf_type (i * 8)) (fr_obj f n) (fr_un f n) x;
      add_callfwds f s_id sf_type ks x
  end.

Fixpoint check_callfwds (f : frame) (start_time end_time : Z) (ks : list Z) (callfwd_success : bool) (m : list byte) : res bool :=
  match ks with
  | [] => Ok callfwd_success
  | i :: ks =>
      let callfwd_obj := fr_obj f (Z.to_nat (i + 1)) in
      n ← get_val_size callfwd_obj m;
      if n =? 0 then check_callfwds f start_time end_time ks callfwd_success m
      else
        _ ← assert_is (get_numberx0 callfwd_obj m) tatp_callfwd_numberx0_magic;
        e ← get_end_time callfwd_obj m;
        check_callfwds f start_time end_time ks
          (if (i * 8 <=? start_time) && (end_time <? e) then true else callfwd_success) m
  end.

Definition txn_get_new_destination (f : frame) (x : tx) (m : list byte) : prog tatp_result :=
  let x := start x in
  '(s_id, tg_seed) ← lift (get_nurand_subscriber lr tp (fr_seed f));
  let '(r, tg_seed) := hrd_fastrand tg_seed in
  let sf_type := r mod 4 + 1 in
  let '(r, tg_seed) := hrd_fastrand tg_seed in
  let start_time := r mod 3 * 8 in
  let '(r, tg_seed) := hrd_fastrand tg_seed in
  let end_time := r mod 24 * 1 in
  let cf_to_fetch := start_time / 8 + 1 in
  _ ← lift (assert_ ((1 <=? cf_to_fetch) && (cf_to_fetch <=? 3)));
  let specfac_obj := fr_obj f 0 in
  '(_, x) ← lift (add_to_read_set RPC_SPECIAL_FACILITY_REQ (tatp_specfac_key s_id sf_type) specfac_obj (fr_un f 0) x);
  '(ex_result, x, m) ← do_read false x m;
  none ← lift (not_found ex_result specfac_obj m);
  if none : bool then Done (None, abort_rdonly x, m)
  else
    _ ← lift (assert_is (get_data_b0 specfac_obj m) tatp_specfac_data_b0_magic);
    active ← lift (get_is_active specfac_obj m);
    if active =? 0 then Done (None, abort_rdonly x, m)
    else
      x ← lift (add_callfwds f s_id sf_type (seqZ 0 cf_to_fetch) x);
      '(ex_result, x, m) ← do_read false x m;
      if decide (ex_result <> in_progress) then Done (None, abort_rdonly x, m)
      else
        callfwd_success ← lift (check_callfwds f start_time end_time (seqZ 0 cf_to_fetch) false m);
        if callfwd_success : bool then
          '(commit_result, x, m) ← commit false x m;
          Done (if decide (commit_result = committed) then Some (Get_new_destination s_id sf_type start_time end_time) else None, x, m)
        else Done (None, abort_rdonly x, m).

Definition txn_get_access_data (f : frame) (x : tx) (m : list byte) : prog tatp_result :=
  let x := start x in
  let obj := fr_obj f 0 in
  '(s_id, tg_seed) ← lift (get_nurand_subscriber lr tp (fr_seed f));
  let '(r, tg_seed) := hrd_fastrand tg_seed in
  let ai_type := Z.land r 3 + 1 in
  '(_, x) ← lift (add_to_read_set RPC_ACCESS_INFO_REQ (tatp_accinf_key s_id ai_type) obj (fr_un f 0) x);
  '(ex_result, x, m) ← do_read false x m;
  _ ← lift (assert_ (bool_decide (ex_result = in_progress)));
  n ← lift (get_val_size obj m);
  if 0 <? n then
    _ ← lift (assert_is (get_data1 obj m) tatp_accinf_data1_magic);
    Done (Some (Get_access_data s_id ai_type), commit_single_read x, m)
  else Done (None, abort_rdonly x, m).

Definition txn_update_subscriber_data (f : frame) (x : tx) (m : list byte) : prog tatp_result :=
  let x := start x in
  '(s_id, tg_seed) ← lift (get_nurand_subscriber lr tp (fr_seed f));
  let '(r, tg_seed) := hrd_fastrand tg_seed in
  let sf_type := r mod 4 + 1 in
  let sub_obj := fr_obj f 0 in
  '(_, x) ← lift (add_to_write_set RPC_SUBSCRIBER_REQ (tatp_sub_key s_id) sub_obj wm_update (fr_un f 0) x);
  let specfac_obj := fr_obj f 1 in
  '(_, x) ← lift (add_to_write_set RPC_SPECIAL_FACILITY_REQ (tatp_specfac_key s_id sf_type) specfac_obj wm_update (fr_un f 1) x);
  '(ex_result, x, m) ← do_read false x m;
  _ ← lift (assert_executed ex_result);
  if decide (ex_result = must_abort) then '(x, m) ← abort false x m; Done (None, x, m)
  else
    _ ← lift (assert_is (get_msc_location sub_obj m) tatp_sub_msc_location_magic);
    let '(r1, tg_seed) := hrd_fastrand (fr_resume f) in
    m ← lift (set_bits sub_obj r1 m);
    _ ← lift (assert_is (get_data_b0 specfac_obj m) tatp_specfac_data_b0_magic);
    let '(r2, tg_seed) := hrd_fastrand tg_seed in
    m ← lift (set_data_a specfac_obj r2 m);
    '(commit_status, x, m) ← commit false x m;
    _ ← lift (assert_ (bool_decide (commit_status = committed)));
    Done (Some (Update_subscriber_data s_id sf_type (wrap 16 r1) (wrap 8 r2)), x, m).

Definition txn_update_location (f : frame) (x : tx) (m : list byte) : prog tatp_result :=
  let x := start x in
  '(s_id, tg_seed) ← lift (get_nurand_subscriber lr tp (fr_seed f));
  let '(vlr_location, tg_seed) := hrd_fastrand tg_seed in
  let sec_sub_obj := fr_obj f 0 in
  sub_nbr ← lift (tatp_sub_nbr_from_sid_fast tp s_id);
  '(_, x) ← lift (add_to_read_set RPC_SEC_SUBSCRIBER_REQ (tatp_sec_sub_key sub_nbr) sec_sub_obj (fr_un f 0) x);
  '(ex_result, x, m) ← do_read false x m;
  _ ← lift (assert_ (bool_decide (ex_result = in_progress)));
  _ ← lift (assert_exists sec_sub_obj m);
  _ ← lift (assert_is (get_sec_magic sec_sub_obj m) tatp_sec_sub_magic);
  _ ← lift (assert_is (get_sec_s_id sec_sub_obj m) s_id);
  let sub_obj := fr_obj f 1 in
  s ← lift (get_sec_s_id sec_sub_obj m);
  '(_, x) ← lift (add_to_write_set RPC_SUBSCRIBER_REQ (tatp_sub_key s) sub_obj wm_update (fr_un f 1) x);
  '(ex_result, x, m) ← do_read false x m;
  _ ← lift (assert_executed ex_result);
  if decide (ex_result = in_progress) then
    _ ← lift (assert_is (get_msc_location sub_obj m) tatp_sub_msc_location_magic);
    m ← lift (set_vlr_location sub_obj vlr_location m);
    '(commit_status, x, m) ← commit false x m;
    _ ← lift (assert_ (bool_decide (commit_status = committed)));
    Done (Some (Update_location s_id vlr_location), x, m)
  else '(x, m) ← abort false x m; Done (None, x, m).

Definition txn_insert_call_forwarding (f : frame) (x : tx) (m : list byte) : prog tatp_result :=
  let x := start x in
  '(s_id, tg_seed) ← lift (get_nurand_subscriber lr tp (fr_seed f));
  let '(r, tg_seed) := hrd_fastrand tg_seed in
  let sf_type := r mod 4 + 1 in
  let '(r, tg_seed) := hrd_fastrand tg_seed in
  let start_time := r mod 3 * 8 in
  let '(r, tg_seed) := hrd_fastrand tg_seed in
  let end_time := r mod 24 * 1 in
  let sec_sub_obj := fr_obj f 0 in
  sub_nbr ← lift (tatp_sub_nbr_from_sid_fast tp s_id);
  '(_, x) ← lift (add_to_read_set RPC_SEC_SUBSCRIBER_REQ (tatp_sec_sub_key sub_nbr) sec_sub_obj (fr_un f 0) x);
  '(ex_result, x, m) ← do_read false x m;
  _ ← lift (assert_ (bool_decide (ex_result = in_progress)));
  _ ← lift (assert_exists sec_sub_obj m);
  _ ← lift (assert_is (get_sec_magic sec_sub_obj m) tatp_sec_sub_magic);
  _ ← lift (assert_is (get_sec_s_id sec_sub_obj m) s_id);
  let specfac_obj := fr_obj f 1 in
  '(_, x) ← lift (add_to_read_set RPC_SPECIAL_FACILITY_REQ (tatp_specfac_key s_id sf_type) specfac_obj (fr_un f 1) x);
  '(ex_result, x, m) ← do_read false x m;
  none ← lift (not_found ex_result specfac_obj m);
  if none : bool then Done (None, abort_rdonly x, m)
  else
    _ ← lift (assert_is (get_data_b0 specfac_obj m) tatp_specfac_data_b0_magic);
    let callfwd_obj := fr_obj f 2 in
    '(_, x) ← lift (add_to_write_set RPC_CALL_FORWARDING_REQ (tatp_callfwd_key s_id sf_type start_time) callfwd_obj wm_insert (fr_un f 2) x);
    '(ex_result, x, m) ← do_read false x m;
    _ ← lift (assert_executed ex_result);
    if decide (ex_result = in_progress) then
      m ← lift (set_val_size callfwd_obj sizeof_callfwd_val m);
      m ← lift (set_numberx0 callfwd_obj tatp_callfwd_numberx0_magic m);
      m ← lift (set_end_time callfwd_obj end_time m);
      let val := get_callfwd callfwd_obj m in
      '(commit_status, x, m) ← commit false x m;
      Done (if decide (commit_status = committed) then Some (Insert_call_forwarding s_id sf_type start_time val) else None, x, m)
    else '(x, m) ← abort false x m; Done (None, x, m).

Definition txn_delete_call_forwarding (f : frame) (x : tx) (m : list byte) : prog tatp_result :=
  let x := start x in
  '(s_id, tg_seed) ← lift (get_nurand_subscriber lr tp (fr_seed f));
  let '(r, tg_seed) := hrd_fastrand tg_seed in
  let sf_type := r mod 4 + 1 in
  let '(r, tg_seed) := hrd_fastrand tg_seed in
  let start_time := r mod 3 * 8 in
  let sec_sub_obj := fr_obj f 0 in
  sub_nbr ← lift (tatp_sub_nbr_from_sid_fast tp s_id);
  '(_, x) ← lift (add_to_read_set RPC_SEC_SUBSCRIBER_REQ (tatp_sec_sub_key sub_nbr) sec_sub_obj (fr_un f 0) x);
  '(ex_result, x, m) ← do_read false x m;
  if decide (ex_result <> in_progress) then Done (None, abort_rdonly x, m)
  else
    _ ← lift (assert_exists sec_sub_obj m);
    _ ← lift (assert_is (get_sec_magic sec_sub_obj m) tatp_sec_sub_magic);
    _ ← lift (assert_is (get_sec_s_id sec_sub_obj m) s_id);
    let callfwd_obj := fr_obj f 1 in
    '(_, x) ← lift (add_to_write_set RPC_CALL_FORWARDING_REQ (tatp_callfwd_key s_id sf_type start_time) callfwd_obj wm_del (fr_un f 1) x);
    '(ex_result, x, m) ← do_read false x m;
    _ ← lift (assert_executed ex_result);
    if decide (ex_result = in_progress) then
      _ ← lift (assert_is (get_numberx0 callfwd_obj m) tatp_callfwd_numberx0_magic);
      '(commit_status, x, m) ← commit false x m;
      Done (if decide (commit_status = committed) then Some (Delete_call_forwarding s_id sf_type start_time) else None, x, m)
    else '(x, m) ← abort false x m; Done (None, x, m).

Definition run_txn (ty : tatp_txn_type_t) (f : frame) (x : tx) (m : list byte) : prog tatp_result :=
  match ty with
  | get_subsciber_data => txn_get_subscriber_data f x m
  | get_new_destination => txn_get_new_destination f x m
  | get_access_data => txn_get_access_data f x m
  | update_subscriber_data => txn_update_subscriber_data f x m
  | update_location => txn_update_location f x m
  | insert_call_forwarding => txn_insert_call_forwarding f x m
  | delete_call_forwarding => txn_delete_call_forwarding f x m
  end.

(** The loop of [slave_func], for as many transactions as there are frames: it chooses a
    type with the seed it finds, and the transaction goes on with the next one. *)
Fixpoint slave_loop (workgen_arr : list tatp_txn_type_t) (fs : list frame) (x : tx) (m : list byte)
    (sofar : list (tatp_txn_type_t * option tatp_op)) : prog (list (tatp_txn_type_t * option tatp_op)) :=
  match fs with
  | [] => Done sofar
  | f :: fs =>
      let '(r, tg_seed) := hrd_fastrand (fr_seed f) in
      txn_type ← lift (at_ workgen_arr (r mod 100));
      '(op, x, m) ← run_txn txn_type (mk_frame tg_seed (fr_resume f) (fr_obj f) (fr_un f)) x m;
      slave_loop workgen_arr fs x m (sofar ++ [(txn_type, op)])
  end.

(** [rec] is the log record of the coroutine and [m] its memory. *)
Definition slave_func (coro_id : Z) (mp : Mappings.t) (rec : list byte) (workgen_arr : list tatp_txn_type_t)
    (fs : list frame) (m : list byte) : prog (list (tatp_txn_type_t * option tatp_op)) :=
  _ ← lift (assert_ (negb (coro_id =? RPC_MASTER_CORO_ID)));
  x ← lift (Tx.make false coro_id true mp rec);
  slave_loop workgen_arr fs x m [].

End Transactions.

(** The largest packet, of [run_thread]. *)
Definition tatp_max_pkt_size : Z := (ds_put_req_size HOTS_MAX_VALUE + Z.of_nat sizeof_reqhdr) * 2.

(** ** [tatp_utils.cc] *)

(** The tables of a machine, one per replica. *)
Record tables := mk_tables {
  subscriber_table : list table; sec_subscriber_table : list table; special_facility_table : list table;
  access_info_table : list table; call_forwarding_table : list table
}.

Fixpoint init_tables (cr cw : bool) (item_count val_size base : Z) (repls : list Z) : res (list table) :=
  match repls with
  | [] => Ok []
  | repl_i :: repls =>
      t ← ds_fixedtable_init cr cw item_count val_size (base + repl_i) (repl_i =? 0);
      ts ← init_tables cr cw item_count val_size base repls;
      Ok (t :: ts)
  end.

(** The two flags and the number of items come from the configuration of each table. *)
Definition init_all_tables (sub sec acc fac fwd : bool * bool * Z) (num_replicas : Z) : res tables :=
  let '(cr, cw, n) := sub in
  t_sub ← init_tables cr cw n sizeof_sub_val SUBSCRIBER_BASE_SHM_KEY (seqZ 0 num_replicas);
  let '(cr, cw, n) := sec in
  t_sec ← init_tables cr cw n sizeof_sec_sub_val SEC_SUBSCRIBER_BASE_SHM_KEY (seqZ 0 num_replicas);
  let '(cr, cw, n) := acc in
  t_acc ← init_tables cr cw n sizeof_accinf_val ACCESS_INFO_BASE_SHM_KEY (seqZ 0 num_replicas);
  let '(cr, cw, n) := fac in
  t_fac ← init_tables cr cw n sizeof_specfac_val SPECIAL_FACILTY_BASE_SHM_KEY (seqZ 0 num_replicas);
  let '(cr, cw, n) := fwd in
  t_fwd ← init_tables cr cw n sizeof_callfwd_val CALL_FORWARDING_BASE_SHM_KEY (seqZ 0 num_replicas);
  Ok (mk_tables t_sub t_sec t_fac t_acc t_fwd).

Definition load_into_table (mp : Mappings.t) (t : table) (repl_i hots_key : Z) (val : list byte) : res (Z * table) :=
  let val_size := Z.of_nat (length val) in
  _ ← assert_ (val_size <=? HOTS_MAX_VALUE);
  _ ← assert_ (val_size =? FixedTable.val_size t);
  keyhash ← ds_keyhash hots_key;
  if negb (Mappings.should_i_populate mp keyhash repl_i) then Ok (0, t)
  else
    '(out_result, t) ← set_spinlock (Mappings.wrkr_gid mp) keyhash hots_key val t;
    if decide (out_result = kSuccess) then Ok (1, t) else Err ExitFail.

(** One step of the loop that draws a value that has not been used; the generator draws
    every number within [2^64] steps. *)
Definition draw_value (values : list Z) (used : list bool) (tmp_seed : Z) : Z + res (Z * Z) :=
  let '(r, tmp_seed) := hrd_fastrand tmp_seed in
  match (if Z.of_nat (length values) =? 0 then Err DivByZero
         else value ← at_ values (r mod Z.of_nat (length values));
              _ ← assert_ (value <? 32);
              u ← at_ used value; Ok (value, u)) with
  | Ok (value, true) => inl tmp_seed
  | Ok (value, false) => inr (Ok (value, tmp_seed))
  | Err e => inr (Err e)
  end.

(** The loop over [i]: a value that has been used is drawn again for the same [i]. *)
Fixpoint select_loop (values : list Z) (to_select : nat) (used : list bool) (ret : list Z) (tmp_seed : Z) : res (list Z * Z) :=
  match to_select with
  | O => Ok (ret, tmp_seed)
  | S n =>
      match loop (2 ^ 64) (draw_value values used) (inl tmp_seed) with
      | inl _ => Err Diverge
      | inr r =>
          '(value, tmp_seed) ← r;
          select_loop values n (<[Z.to_nat value := true]> used) (ret ++ [value]) tmp_seed
      end
  end.

Definition select_between_n_and_m_from (tmp_seed : Z) (values : list Z) (N M : Z) : res (list Z * Z) :=
  _ ← assert_ (N <=? M);
  _ ← assert_ (Z.of_nat (length values) <=? M);
  let '(r, tmp_seed) := hrd_fastrand tmp_seed in
  let n := wrap 32 (M - N + 1) in
  if n =? 0 then Err DivByZero
  else select_loop values (Z.to_nat (r mod n + N)) (replicate 32 false) [] tmp_seed.

(** Draws into an array of [char]. *)
Fixpoint draw_bytes (n : nat) (tmp_seed : Z) : list byte * Z :=
  match n with
  | O => ([], tmp_seed)
  | S n =>
      let '(r, tmp_seed) := hrd_fastrand tmp_seed in
      let '(bs, tmp_seed) := draw_bytes n tmp_seed in
      (wrap 8 r :: bs, tmp_seed)
  end.

(** The loop over the replicas in the bodies of the population loops. *)
Fixpoint load_replicas (mp : Mappings.t) (repls : list Z) (key : Z) (val : list byte) (tbl : list table) : res (list table) :=
  match repls with
  | [] => Ok tbl
  | repl_i :: repls =>
      t ← at_ tbl repl_i;
      '(_, t) ← load_into_table mp t repl_i key val;
      load_replicas mp repls key val (<[Z.to_nat repl_i := t]> tbl)
  end.

Definition load_all (mp : Mappings.t) (key : Z) (val : list byte) (tbl : list table) : res (list table) :=
  load_replicas mp (seqZ 0 (Mappings.num_replicas mp)) key val tbl.

Section Population.

(** What the local row of a table, by its RPC type and key, holds where the population
    leaves it uninitialised. *)
Context (raw : Z -> Z -> list byte) (mp : Mappings.t) (tp : tatp).

Definition initial_seed : Z := 3735928559.
Definition raw_part (ty key : Z) (off n : nat) : list byte := take n (drop off (raw ty key)).

Definition new_sub_val (s_id tmp_seed : Z) : res (tatp_sub_val_t * Z) :=
  nbr ← tatp_sub_nbr_from_sid s_id;
  let '(hex, tmp_seed) := draw_bytes 5 tmp_seed in
  let '(bytes, tmp_seed) := draw_bytes 10 tmp_seed in
  let '(r, tmp_seed) := hrd_fastrand tmp_seed in
  let '(vlr, tmp_seed) := hrd_fastrand tmp_seed in
  Ok (mk_sub nbr (raw_part RPC_SUBSCRIBER_REQ (tatp_sub_key s_id) 8 7) hex bytes (wrap 16 r) tatp_sub_msc_location_magic vlr, tmp_seed).

Fixpoint populate_subscribers (s_ids : list Z) (tmp_seed : Z) (tbl : list table) : res (list table) :=
  match s_ids with
  | [] => Ok tbl
  | s_id :: s_ids =>
      '(sub_val, tmp_seed) ← new_sub_val s_id tmp_seed;
      tbl ← load_all mp (tatp_sub_key s_id) (sub_bytes sub_val) tbl;
      populate_subscribers s_ids tmp_seed tbl
  end.
Definition populate_subscriber_table (tbl : list table) : res (list table) :=
  populate_subscribers (seqZ 0 (subscriber_size tp)) initial_seed tbl.

Definition new_sec_val (key s_id : Z) : tatp_sec_sub_val_t :=
  mk_sec s_id tatp_sec_sub_magic (raw_part RPC_SEC_SUBSCRIBER_REQ key 5 3).

Fixpoint populate_secondaries (s_ids : list Z) (tbl : list table) : res (list table) :=
  match s_ids with
  | [] => Ok tbl
  | s_id :: s_ids =>
      nbr ← tatp_sub_nbr_from_sid s_id;
      let key := tatp_sec_sub_key nbr in
      tbl ← load_all mp key (sec_bytes (new_sec_val key s_id)) tbl;
      populate_secondaries s_ids tbl
  end.
Definition populate_secondary_subscriber_table (tbl : list table) : res (list table) :=
  populate_secondaries (seqZ 0 (subscriber_size tp)) tbl.

Definition ai_type_values : list Z := [1; 2; 3; 4].
Definition new_accinf_val (key : Z) : tatp_accinf_val_t :=
  let r := raw_part RPC_ACCESS_INFO_REQ key in
  mk_accinf tatp_accinf_data1_magic (le_val (r 1%nat 1%nat)) (r 2%nat 3%nat) (r 5%nat 5%nat) (r 10%nat 6%nat).

Fixpoint load_accinfs (s_id : Z) (ai_type_vec : list Z) (tbl : list table) : res (list table) :=
  match ai_type_vec with
  | [] => Ok tbl
  | ai_type :: ai_type_vec =>
      let key := tatp_accinf_key s_id ai_type in
      tbl ← load_all mp key (accinf_bytes (new_accinf_val key)) tbl;
      load_accinfs s_id ai_type_vec tbl
  end.

Fixpoint populate_accinfs (s_ids : list Z) (tmp_seed : Z) (tbl : list table) : res (list table) :=
  match s_ids with
  | [] => Ok tbl
  | s_id :: s_ids =>
      '(ai_type_vec, tmp_seed) ← select_between_n_and_m_from tmp_seed ai_type_values 1 4;
      tbl ← load_accinfs s_id ai_type_vec tbl;
      populate_accinfs s_ids tmp_seed tbl
  end.
Definition populate_access_info_table (tbl : list table) : res (list table) :=
  populate_accinfs (seqZ 0 (subscriber_size tp)) initial_seed tbl.

Definition sf_type_values : list Z := [1; 2; 3; 4].
Definition new_specfac_val (key r : Z) : tatp_specfac_val_t :=
  let raw_at := raw_part RPC_SPECIAL_FACILITY_REQ key in
  mk_specfac (if r mod 100 <? 85 then 1 else 0) (le_val (raw_at 1%nat 1%nat)) (le_val (raw_at 2%nat 1%nat))
    (tatp_specfac_data_b0_magic :: raw_at 4%nat 4%nat).
Definition new_callfwd_val (key r : Z) : tatp_callfwd_val_t :=
  mk_callfwd (r mod 24 + 1) (tatp_callfwd_numberx0_magic :: raw_part RPC_CALL_FORWARDING_REQ key 2 14).

(** The loop over [start_time]: 0, 8 and 16. *)
Fixpoint load_callfwds (s_id sf_type : Z) (start_times : list Z) (tmp_seed : Z) (fwd : list table) : res (Z * list table) :=
  match start_times with
  | [] => Ok (tmp_seed, fwd)
  | start_time :: start_times =>
      let '(r, tmp_seed) := hrd_fastrand tmp_seed in
      if r mod 2 =? 0 then load_callfwds s_id sf_type start_times tmp_seed fwd
      else
        let key := tatp_callfwd_key s_id sf_type start_time in
        let '(r, tmp_seed) := hrd_fastrand tmp_seed in
        fwd ← load_all mp key (callfwd_bytes (new_callfwd_val key r)) fwd;
        load_callfwds s_id sf_type start_times tmp_seed fwd
  end.

Fixpoint load_specfacs (s_id : Z) (sf_type_vec : list Z) (tmp_seed : Z) (fac fwd : list table) : res (Z * list table * list table) :=
  match sf_type_vec with
  | [] => Ok (tmp_seed, fac, fwd)
  | sf_type :: sf_type_vec =>
      let key := tatp_specfac_key s_id sf_type in
      let '(r, tmp_seed) := hrd_fastrand tmp_seed in
      fac ← load_all mp key (specfac_bytes (new_specfac_val key r)) fac;
      '(tmp_seed, fwd) ← load_callfwds s_id sf_type [0; 8; 16] tmp_seed fwd;
      load_specfacs s_id sf_type_vec tmp_seed fac fwd
  end.

Fixpoint populate_specfacs (s_ids : list Z) (tmp_seed : Z) (fac fwd : list table) : res (list table * list table) :=
  match s_ids with
  | [] => Ok (fac, fwd)
  | s_id :: s_ids =>
      '(sf_type_vec, tmp_seed) ← select_between_n_and_m_from tmp_seed sf_type_values 1 4;
      '(tmp_seed, fac, fwd) ← load_specfacs s_id sf_type_vec tmp_seed fac fwd;
      populate_specfacs s_ids tmp_seed fac fwd
  end.
Definition populate_specfac_and_callfwd_table (fac fwd : list table) : res (list table * list table) :=
  populate_specfacs (seqZ 0 (subscriber_size tp)) initial_seed fac fwd.

(** [populate_all_tables_barrier] up to the barrier. *)
Definition populate_all_tables (ts : tables) : res tables :=
  sub ← populate_subscriber_table (subscriber_table ts);
  sec ← populate_secondary_subscriber_table (sec_subscriber_table ts);
  acc ← populate_access_info_table (access_info_table ts);
  '(fac, fwd) ← populate_specfac_and_callfwd_table (special_facility_table ts) (call_forwarding_table ts);
  Ok (mk_tables sub sec fac acc fwd).

End Population.

(** The test of the two routines that compute subscriber numbers, for the [s_id]s it goes
    over; it ends the process in any case. *)
Fixpoint test_sids (tp : tatp) (s_ids : list Z) : res unit :=
  match s_ids with
  | [] => Ok tt
  | s_id :: s_ids =>
      a ← tatp_sub_nbr_from_sid s_id;
      b ← tatp_sub_nbr_from_sid_fast tp s_id;
      if negb (a =? b) then Err ExitFail else test_sids tp s_ids
  end.

End Tatp.
