(* ===== verification/TatpSpec.v ===== *)
(** * TATP: numbers, rows and the database

    The two routines that compute subscriber numbers agree, the generators choose
    subscribers that exist and end; and the specification of the transactions: what each
    does to a database of five tables of rows. *)

From S2P Require Import Prelude Util Random Hots FixedTable RpcDefs Tx TxSerial Tatp.
From Stdlib Require Import ZArith Lia Bool.
From stdpp Require Import base functions numbers sets list.
#[local] Open Scope Z_scope.
Import Random FixedTable RpcDefs TxSerial Tatp.

Module TatpSpec.

(** ** Definitions *)

(** The last [n] decimal digits of a number, in 4 bits each. *)
Fixpoint dec_word (n : nat) (s : Z) : Z :=
  match n with O => 0 | S n => s mod 10 + 16 * dec_word n (s / 10) end.
Definition nbr_of (s_id : Z) : Z := dec_word 9 s_id.

(** What the constructor promises. *)
Record tatp_ok (tp : tatp) : Prop := {
  tk_size : 0 < subscriber_size tp <= TATP_MAX_SUBSCRIBERS;
  tk_A : 0 <= A tp;
  tk_map : map_1000 tp = make_map_1000
}.

(** Rows as the tables hold them: their members have the widths of the source, and the
    magic numbers are there. *)
Record sub_ok (v : tatp_sub_val_t) : Prop := {
  su_nbr : u 64 (sub_nbr v);
  su_lens : length (sub_nbr_unused v) = 7%nat /\ length (hex v) = 5%nat /\ length (bytes v) = 10%nat;
  su_bits : u 16 (bits v);
  su_msc : msc_location v = tatp_sub_msc_location_magic;
  su_vlr : u 32 (vlr_location v)
}.
Record sec_ok (v : tatp_sec_sub_val_t) : Prop := {
  se_s_id : u 32 (sec_s_id v); se_magic : sec_magic v = tatp_sec_sub_magic; se_len : length (sec_unused v) = 3%nat
}.
Record acc_ok (v : tatp_accinf_val_t) : Prop := {
  ai_data1 : data1 v = tatp_accinf_data1_magic; ai_data2 : u 8 (data2 v);
  ai_lens : length (data3 v) = 3%nat /\ length (data4 v) = 5%nat /\ length (acc_unused v) = 6%nat
}.
Record fac_ok (v : tatp_specfac_val_t) : Prop := {
  fa_bytes : u 8 (is_active v) /\ u 8 (error_cntl v) /\ u 8 (data_a v);
  fa_len : length (data_b v) = 5%nat; fa_magic : data_b v !! 0%nat = Some tatp_specfac_data_b0_magic
}.
Record fwd_ok (v : tatp_callfwd_val_t) : Prop := {
  cf_end : u 8 (end_time v); cf_len : length (numberx v) = 15%nat;
  cf_magic : numberx v !! 0%nat = Some tatp_callfwd_numberx0_magic
}.

(** A database: five tables of rows by key. *)
Record tdb := mk_tdb {
  d_sub : Z -> option tatp_sub_val_t; d_sec : Z -> option tatp_sec_sub_val_t; d_fac : Z -> option tatp_specfac_val_t;
  d_acc : Z -> option tatp_accinf_val_t; d_fwd : Z -> option tatp_callfwd_val_t
}.
Definition set_sub (k : Z) (v : tatp_sub_val_t) (D : tdb) : tdb := mk_tdb (<[k := Some v]> (d_sub D)) (d_sec D) (d_fac D) (d_acc D) (d_fwd D).
Definition set_fac (k : Z) (v : tatp_specfac_val_t) (D : tdb) : tdb := mk_tdb (d_sub D) (d_sec D) (<[k := Some v]> (d_fac D)) (d_acc D) (d_fwd D).
Definition set_fwd (k : Z) (v : option tatp_callfwd_val_t) (D : tdb) : tdb := mk_tdb (d_sub D) (d_sec D) (d_fac D) (d_acc D) (<[k := v]> (d_fwd D)).

Definition with_bits (b : Z) (v : tatp_sub_val_t) : tatp_sub_val_t :=
  mk_sub (sub_nbr v) (sub_nbr_unused v) (hex v) (bytes v) b (msc_location v) (vlr_location v).
Definition with_vlr (l : Z) (v : tatp_sub_val_t) : tatp_sub_val_t :=
  mk_sub (sub_nbr v) (sub_nbr_unused v) (hex v) (bytes v) (bits v) (msc_location v) l.
Definition with_data_a (a : Z) (v : tatp_specfac_val_t) : tatp_specfac_val_t := mk_specfac (is_active v) (error_cntl v) a (data_b v).

(** The call forwarding that starts at [8 * i] lets a call through. *)
Definition forwards (D : tdb) (s_id sf_type start_time end_ i : Z) : bool :=
  match d_fwd D (tatp_callfwd_key s_id sf_type (i * 8)) with
  | Some v => (i * 8 <=? start_time) && (end_ <? end_time v)
  | None => false
  end.

(** What a transaction does to the database, if it commits at all. *)
Definition run_op (op : tatp_op) (D : tdb) : option tdb :=
  match op with
  | Get_subscriber_data s_id => _ ← d_sub D (tatp_sub_key s_id); Some D
  | Get_new_destination s_id sf_type start_time end_ =>
      fac ← d_fac D (tatp_specfac_key s_id sf_type);
      if negb (is_active fac =? 0) && existsb (forwards D s_id sf_type start_time end_) (seqZ 0 (start_time / 8 + 1)) then Some D else None
  | Get_access_data s_id ai_type => _ ← d_acc D (tatp_accinf_key s_id ai_type); Some D
  | Update_subscriber_data s_id sf_type b a =>
      sub ← d_sub D (tatp_sub_key s_id);
      fac ← d_fac D (tatp_specfac_key s_id sf_type);
      Some (set_fac (tatp_specfac_key s_id sf_type) (with_data_a a fac) (set_sub (tatp_sub_key s_id) (with_bits b sub) D))
  | Update_location s_id l =>
      sec ← d_sec D (tatp_sec_sub_key (nbr_of s_id));
      if negb (sec_s_id sec =? s_id) then None
      else sub ← d_sub D (tatp_sub_key s_id); Some (set_sub (tatp_sub_key s_id) (with_vlr l sub) D)
  | Insert_call_forwarding s_id sf_type start_time v =>
      _ ← d_sec D (tatp_sec_sub_key (nbr_of s_id));
      _ ← d_fac D (tatp_specfac_key s_id sf_type);
      match d_fwd D (tatp_callfwd_key s_id sf_type start_time) with
      | Some _ => None
      | None => Some (set_fwd (tatp_callfwd_key s_id sf_type start_time) (Some v) D)
      end
  | Delete_call_forwarding s_id sf_type start_time =>
      _ ← d_sec D (tatp_sec_sub_key (nbr_of s_id));
      _ ← d_fwd D (tatp_callfwd_key s_id sf_type start_time);
      Some (set_fwd (tatp_callfwd_key s_id sf_type start_time) None D)
  end.

Fixpoint run_ops (ops : list tatp_op) (D : tdb) : option tdb :=
  match ops with
  | [] => Some D
  | op :: ops => D ← run_op op D; run_ops ops D
  end.

(** The parameters of a transaction are in their ranges. *)
Definition sf_ok (sf_type : Z) : Prop := 1 <= sf_type <= 4.
Definition start_ok (t : Z) : Prop := t = 0 \/ t = 8 \/ t = 16.
Definition op_ok (N : Z) (op : tatp_op) : Prop :=
  match op with
  | Get_subscriber_data s => 0 <= s < N
  | Get_new_destination s sf st e => 0 <= s < N /\ sf_ok sf /\ start_ok st /\ 0 <= e < 24
  | Get_access_data s ai => 0 <= s < N /\ sf_ok ai
  | Update_subscriber_data s sf b a => 0 <= s < N /\ sf_ok sf /\ u 16 b /\ u 8 a
  | Update_location s l => 0 <= s < N /\ u 32 l
  | Insert_call_forwarding s sf st v => 0 <= s < N /\ sf_ok sf /\ start_ok st /\ fwd_ok v
  | Delete_call_forwarding s sf st => 0 <= s < N /\ sf_ok sf /\ start_ok st
  end.

(** The table entries that a transaction reads, and those that it writes. *)
Definition op_reads (op : tatp_op) : list (Z * Z) :=
  match op with
  | Get_subscriber_data s => [(RPC_SUBSCRIBER_REQ, tatp_sub_key s)]
  | Get_new_destination s sf st _ =>
      (RPC_SPECIAL_FACILITY_REQ, tatp_specfac_key s sf) ::
      map (fun i => (RPC_CALL_FORWARDING_REQ, tatp_callfwd_key s sf (i * 8))) (seqZ 0 (st / 8 + 1))
  | Get_access_data s ai => [(RPC_ACCESS_INFO_REQ, tatp_accinf_key s ai)]
  | Update_subscriber_data _ _ _ _ => []
  | Update_location s _ | Delete_call_forwarding s _ _ => [(RPC_SEC_SUBSCRIBER_REQ, tatp_sec_sub_key (nbr_of s))]
  | Insert_call_forwarding s sf _ _ =>
      [(RPC_SEC_SUBSCRIBER_REQ, tatp_sec_sub_key (nbr_of s)); (RPC_SPECIAL_FACILITY_REQ, tatp_specfac_key s sf)]
  end.
Definition op_writes (op : tatp_op) : list (Z * Z) :=
  match op with
  | Get_subscriber_data _ | Get_new_destination _ _ _ _ | Get_access_data _ _ => []
  | Update_subscriber_data s sf _ _ => [(RPC_SUBSCRIBER_REQ, tatp_sub_key s); (RPC_SPECIAL_FACILITY_REQ, tatp_specfac_key s sf)]
  | Update_location s _ => [(RPC_SUBSCRIBER_REQ, tatp_sub_key s)]
  | Insert_call_forwarding s sf st _ | Delete_call_forwarding s sf st => [(RPC_CALL_FORWARDING_REQ, tatp_callfwd_key s sf st)]
  end.

(** The entry of a table of a database. *)
Definition entry (D : tdb) (tk : Z * Z) : option (list byte) :=
  let '(ty, k) := tk in
  if ty =? RPC_SUBSCRIBER_REQ then sub_bytes <$> d_sub D k
  else if ty =? RPC_SEC_SUBSCRIBER_REQ then sec_bytes <$> d_sec D k
  else if ty =? RPC_SPECIAL_FACILITY_REQ then specfac_bytes <$> d_fac D k
  else if ty =? RPC_ACCESS_INFO_REQ then accinf_bytes <$> d_acc D k
  else if ty =? RPC_CALL_FORWARDING_REQ then callfwd_bytes <$> d_fwd D k
  else None.

(** The transaction on the tables that takes database [D] to [D']. *)
Definition op_txn (op : tatp_op) (D D' : tdb) : txn := spec_txn (op_reads op) (op_writes op) (entry D) (entry D').

Definition is_tatp (ty : Z) : Prop :=
  ty = RPC_SUBSCRIBER_REQ \/ ty = RPC_SEC_SUBSCRIBER_REQ \/ ty = RPC_SPECIAL_FACILITY_REQ \/
  ty = RPC_ACCESS_INFO_REQ \/ ty = RPC_CALL_FORWARDING_REQ.

Record db_ok (D : tdb) : Prop := {
  do_sub k v : d_sub D k = Some v -> sub_ok v;
  do_sec k v : d_sec D k = Some v -> sec_ok v;
  do_fac k v : d_fac D k = Some v -> fac_ok v;
  do_acc k v : d_acc D k = Some v -> acc_ok v;
  do_fwd k v : d_fwd D k = Some v -> fwd_ok v
}.

(** The tables hold the database. *)
Definition represents (σ : Z -> Z -> option (list byte)) (D : tdb) : Prop :=
  db_ok D /\ forall ty k, is_tatp ty -> σ ty k = entry D (ty, k).

(** A transaction on the tables that is [op] on some database. *)
Definition does_op (N : Z) (t : txn) (op : tatp_op) : Prop :=
  op_ok N op /\ exists D D', db_ok D /\ run_op op D = Some D' /\ t = op_txn op D D'.

(** Every subscriber has a row, with its number, and an entry of the secondary index that
    leads to it. *)
Record complete (N : Z) (D : tdb) : Prop := {
  cp_sub s : 0 <= s < N -> exists v, d_sub D (tatp_sub_key s) = Some v /\ sub_nbr v = nbr_of s;
  cp_sec s : 0 <= s < N -> exists v, d_sec D (tatp_sec_sub_key (nbr_of s)) = Some v /\ sec_s_id v = s
}.

(** The integrity of the database: besides, a call forwarding is for a special facility
    that the subscriber has. *)
Record sound (N : Z) (D : tdb) : Prop := {
  so_complete : complete N D;
  so_fwd s sf st v : 0 <= s < N -> sf_ok sf -> start_ok st ->
    d_fwd D (tatp_callfwd_key s sf st) = Some v -> exists fac, d_fac D (tatp_specfac_key s sf) = Some fac
}.

(** The rows that bytes hold, member by member, and the database that tables hold. *)
Definition sub_of (bs : list byte) : tatp_sub_val_t :=
  let r1 := drop 8 bs in let r2 := drop 7 r1 in let r3 := drop 5 r2 in let r4 := drop 10 r3 in let r5 := drop 2 r4 in let r6 := drop 4 r5 in
  mk_sub (le_val (take 8 bs)) (take 7 r1) (take 5 r2) (take 10 r3) (le_val (take 2 r4)) (le_val (take 4 r5)) (le_val (take 4 r6)).
Definition sec_of (bs : list byte) : tatp_sec_sub_val_t :=
  let r1 := drop 4 bs in mk_sec (le_val (take 4 bs)) (le_val (take 1 r1)) (drop 1 r1).
Definition acc_of (bs : list byte) : tatp_accinf_val_t :=
  let r1 := drop 1 bs in let r2 := drop 1 r1 in let r3 := drop 3 r2 in let r4 := drop 5 r3 in
  mk_accinf (le_val (take 1 bs)) (le_val (take 1 r1)) (take 3 r2) (take 5 r3) r4.
Definition fac_of (bs : list byte) : tatp_specfac_val_t :=
  let r1 := drop 1 bs in let r2 := drop 1 r1 in let r3 := drop 1 r2 in
  mk_specfac (le_val (take 1 bs)) (le_val (take 1 r1)) (le_val (take 1 r2)) r3.
Definition fwd_of (bs : list byte) : tatp_callfwd_val_t := mk_callfwd (le_val (take 1 bs)) (drop 1 bs).
Definition db_of (σ : Z -> Z -> option (list byte)) : tdb :=
  mk_tdb (fun k => sub_of <$> σ RPC_SUBSCRIBER_REQ k) (fun k => sec_of <$> σ RPC_SEC_SUBSCRIBER_REQ k)
    (fun k => fac_of <$> σ RPC_SPECIAL_FACILITY_REQ k) (fun k => acc_of <$> σ RPC_ACCESS_INFO_REQ k)
    (fun k => fwd_of <$> σ RPC_CALL_FORWARDING_REQ k).

(** Two databases have the same row for an entry. *)
Definition same_row (D B : tdb) (tk : Z * Z) : Prop :=
  let '(ty, k) := tk in
  (ty = RPC_SUBSCRIBER_REQ -> d_sub D k = d_sub B k) /\ (ty = RPC_SEC_SUBSCRIBER_REQ -> d_sec D k = d_sec B k) /\
  (ty = RPC_SPECIAL_FACILITY_REQ -> d_fac D k = d_fac B k) /\ (ty = RPC_ACCESS_INFO_REQ -> d_acc D k = d_acc B k) /\
  (ty = RPC_CALL_FORWARDING_REQ -> d_fwd D k = d_fwd B k).

(** The transactions that a coroutine has counted as committed. *)
Definition done_ops (l : list (tatp_txn_type_t * option tatp_op)) : list tatp_op := omap snd l.

(** ** Subscriber numbers *)

(** A field above the bits that are in use. *)
Lemma set_field_new lo w v x : 0 <= lo -> u lo x -> set_field lo w v x = x + 2 ^ lo * wrap w v.
Proof. intros Hl [H0 H1]. unfold set_field. rewrite Z.div_small by lia. unfold wrap at 1. rewrite Zmod_0_l. lia. Qed.

Lemma dec_word_range n : forall s, u (4 * Z.of_nat n) (dec_word n s).
Proof.
  induction n as [|n IH]; intros s; [done|]. cbn [dec_word]. specialize (IH (s / 10)). pose proof (Z.mod_pos_bound s 10 ltac:(lia)) as Hd.
  unfold u in *. replace (4 * Z.of_nat (S n)) with (4 + 4 * Z.of_nat n) by lia. rewrite Z.pow_add_r by lia. change (2 ^ 4) with 16. lia.
Qed.

Lemma dec_word_0 n : dec_word n 0 = 0.
Proof. induction n as [|n IH]; [done|]. cbn [dec_word]. change (0 / 10) with 0. by rewrite IH. Qed.

Lemma dec_word_app a b s : dec_word (a + b) s = dec_word a s + 16 ^ Z.of_nat a * dec_word b (s / 10 ^ Z.of_nat a).
Proof.
  revert s. induction a as [|a IH]; intros s.
  { cbn [Nat.add dec_word]. change (10 ^ Z.of_nat 0) with 1. change (16 ^ Z.of_nat 0) with 1. rewrite Z.div_1_r. lia. }
  cbn [dec_word Nat.add]. rewrite IH, Nat2Z.inj_succ, !Z.pow_succ_r by lia.
  rewrite Z.div_div by lia. lia.
Qed.

Lemma dec_word_mod n s : dec_word n (s mod 10 ^ Z.of_nat n) = dec_word n s.
Proof.
  revert s. induction n as [|n IH]; intros s; [done|]. cbn [dec_word]. rewrite Nat2Z.inj_succ, Z.pow_succ_r by lia.
  rewrite Z.rem_mul_r by lia. rewrite <- (IH (s / 10)). pose proof (Z.mod_pos_bound s 10 ltac:(lia)) as Hd.
  replace ((s mod 10 + 10 * ((s / 10) mod 10 ^ Z.of_nat n)) / 10) with ((s / 10) mod 10 ^ Z.of_nat n).
  2: { rewrite (Z.mul_comm 10), Z.div_add, (Z.div_small (s mod 10)) by lia. done. }
  f_equal. rewrite (Z.mul_comm 10), Z.mod_add, Z.mod_mod by lia. done.
Qed.

Lemma dec_word_inj n : forall s t, 0 <= s < 10 ^ Z.of_nat n -> 0 <= t < 10 ^ Z.of_nat n -> dec_word n s = dec_word n t -> s = t.
Proof.
  induction n as [|n IH]; intros s t Hs Ht E; [change (10 ^ Z.of_nat 0) with 1 in *; lia|].
  rewrite Nat2Z.inj_succ, Z.pow_succ_r in Hs, Ht by lia. cbn [dec_word] in E.
  pose proof (Z.mod_pos_bound s 10 ltac:(lia)) as Hd. pose proof (Z.mod_pos_bound t 10 ltac:(lia)) as Hd'.
  assert (s / 10 = t / 10) as Eq; [apply IH|].
  - split; [apply Z.div_pos; lia|apply Z.div_lt_upper_bound; lia].
  - split; [apply Z.div_pos; lia|apply Z.div_lt_upper_bound; lia].
  - lia.
  - rewrite (Z.div_mod s 10), (Z.div_mod t 10), Eq by lia. rewrite Eq in E. lia.
Qed.

(** The simple routine. *)
Lemma sid_digits_ok n : forall i s x,
  0 <= i -> 0 <= s < 10 ^ Z.of_nat n -> u (4 * i) x -> sid_digits (seqZ i (Z.of_nat n)) s x = Ok (x + 2 ^ (4 * i) * dec_word n s).
Proof.
  induction n as [|n IH]; intros i s x Hi Hs Hx.
  { change (10 ^ Z.of_nat 0) with 1 in Hs. replace s with 0 by lia. cbn. f_equal. lia. }
  rewrite seqZ_cons by lia. cbn [sid_digits]. unfold set_dec. rewrite set_field_new by (done || lia).
  pose proof (Z.mod_pos_bound s 10 ltac:(lia)) as Hd. rewrite (wrap_id 4) by (unfold u; lia).
  rewrite Nat2Z.inj_succ, Z.pow_succ_r in Hs by lia. cbn [dec_word]. destruct (Z.eqb_spec (s / 10) 0) as [E|E].
  { rewrite E, dec_word_0. f_equal. lia. }
  replace (Z.pred (Z.of_nat (S n))) with (Z.of_nat n) by lia. replace (Z.succ i) with (i + 1) by lia. rewrite IH.
  - f_equal. replace (4 * (i + 1)) with (4 * i + 4) by lia. rewrite Z.pow_add_r by lia. lia.
  - lia.
  - split; [apply Z.div_pos; lia|apply Z.div_lt_upper_bound; lia].
  - unfold u in *. replace (4 * (i + 1)) with (4 * i + 4) by lia. rewrite Z.pow_add_r by lia. change (2 ^ 4) with 16. nia.
Qed.

Lemma nbr_range s : u 36 (nbr_of s).
Proof. apply (dec_word_range 9). Qed.

Lemma from_sid_ok s : 0 <= s < TATP_MAX_SUBSCRIBERS -> tatp_sub_nbr_from_sid s = Ok (nbr_of s).
Proof.
  change TATP_MAX_SUBSCRIBERS with (10 ^ 9). intros Hs. unfold tatp_sub_nbr_from_sid. change 11 with (Z.of_nat 11). rewrite sid_digits_ok by (done || lia).
  change 11%nat with (9 + 2)%nat. rewrite dec_word_app, Z.div_small, dec_word_0, Z.mul_0_r by done. unfold nbr_of. change (2 ^ (4 * 0)) with 1. f_equal. lia.
Qed.

(** The fast one: every entry of the map has the three digits of its index. *)
Lemma map_1000_ok i : 0 <= i < 1000 -> at_ make_map_1000 i = Ok (dec_word 3 i).
Proof.
  assert (make_map_1000 = map (dec_word 3) (seqZ 0 1000)) as -> by (vm_compute; reflexivity). intros Hi. rewrite at_nonneg by lia.
  change (@map Z Z) with (@fmap list _ Z Z). rewrite list_lookup_fmap, lookup_seqZ_lt by lia. by rewrite Z.add_0_l, Z2Nat.id by lia.
Qed.

Lemma from_sid_fast_ok tp s : map_1000 tp = make_map_1000 -> tatp_sub_nbr_from_sid_fast tp s = Ok (nbr_of s).
Proof.
  intros Hm. unfold tatp_sub_nbr_from_sid_fast. rewrite Hm. rewrite !map_1000_ok by (apply Z.mod_pos_bound; lia). rewrite !bind_Ok.
  unfold set_dec3. change 1000 with (10 ^ Z.of_nat 3). rewrite !dec_word_mod, Z.div_div by lia.
  pose proof (dec_word_range 3) as Hr. change (4 * Z.of_nat 3) with 12 in Hr.
  rewrite (set_field_new (12 * 0)) by done. rewrite (wrap_id 12 _ (Hr s)). rewrite (set_field_new (12 * 1)).
  2: lia. 2: { specialize (Hr s). change (12 * 1) with 12. change (2 ^ (12 * 0)) with 1. unfold u in *. lia. }
  rewrite (wrap_id 12 _ (Hr _)). rewrite set_field_new.
  2: lia. 2: { pose proof (Hr s). specialize (Hr (s / 10 ^ Z.of_nat 3)). change (12 * 2) with 24. change (2 ^ (12 * 0)) with 1. change (2 ^ (12 * 1)) with (2 ^ 12). unfold u in *. lia. }
  rewrite (wrap_id 12 _ (Hr _)). unfold nbr_of. change 9%nat with (3 + (3 + 3))%nat. rewrite !dec_word_app, Z.div_div by lia. f_equal.
  change (2 ^ (12 * 0)) with 1. change (2 ^ (12 * 1)) with 4096. change (2 ^ (12 * 2)) with (4096 * 4096). change (16 ^ Z.of_nat 3) with 4096. lia.
Qed.

Lemma tatp_make_ok nm wpm nr tp :
  0 < nm -> make nm wpm nr = Ok tp -> tatp_ok tp /\ subscriber_size tp = nm * SUBSCRIBERS_PER_MACHINE.
Proof.
  intros Hn H. unfold make in H. apply bind_ok in H as ([] & Ha & H). apply bind_ok in H as (size & Hs & H). apply chk_int_ok in Hs as [-> Hi].
  change SUBSCRIBERS_PER_MACHINE with 1000000 in *. unfold assert_ in Ha. destruct (Z.leb_spec (wrap 64 (wrap 64 nm * 1000000)) TATP_MAX_SUBSCRIBERS) as [Hle|]; [|done].
  rewrite (wrap_id 64 nm) in Hle by (unfold u; lia). rewrite (wrap_id 64) in Hle by (unfold u; lia). rewrite (wrap_id 32) in H by (unfold u; lia). injection H as <-.
  split; [|done]. split; cbn [subscriber_size A map_1000]; [lia| |done]. by repeat case_match.
Qed.

Lemma test_sids_ok tp l : map_1000 tp = make_map_1000 -> Forall (fun s => 0 <= s < TATP_MAX_SUBSCRIBERS) l -> test_sids tp l = Ok tt.
Proof.
  intros Hm. induction 1 as [|s l Hs _ IH]; [done|]. cbn [test_sids]. rewrite from_sid_ok, from_sid_fast_ok by done.
  rewrite !bind_Ok, Z.eqb_refl. exact IH.
Qed.

(** ** Generators *)

Lemma nurand_ok lr tp seed :
  tatp_ok tp -> exists s seed', get_nurand_subscriber lr tp seed = Ok (s, seed') /\ 0 <= s < subscriber_size tp.
Proof.
  intros [Hs _ _]. unfold get_nurand_subscriber. destruct (Z.eqb_spec (subscriber_size tp) 0); [lia|].
  destruct (hrd_fastrand seed) as [r1 s1]. destruct (hrd_fastrand s1) as [r2 s2]. destruct (if lr then _ else _) as [l r].
  do 2 eexists. split; [done|]. apply Z.mod_pos_bound. lia.
Qed.

Section Select.
Context (values : list Z) (Hlen : length values = 4%nat) (Hnd : NoDup values) (Hval : Forall (fun v => 0 <= v < 32) values).

(** The array marks the values that have been selected. *)
Definition marks (used : list bool) (ret : list Z) : Prop := forall v, 0 <= v < 32 -> used !! Z.to_nat v = Some (bool_decide (v ∈ ret)).

Definition drawn (seed : Z) : nat := Z.to_nat ((hrd_fastrand seed).1 mod 4).

Lemma draw_value_step used ret seed :
  marks used ret -> exists v, values !! drawn seed = Some v /\
    draw_value values used seed = if decide (v ∈ ret) then inl (next seed) else inr (Ok (v, next seed)).
Proof.
  intros Hm. unfold drawn, draw_value, next. destruct (hrd_fastrand seed) as [r seed']. cbn [fst snd]. pose proof (Z.mod_pos_bound r 4 ltac:(lia)) as Hr.
  destruct (lookup_lt_is_Some_2 values (Z.to_nat (r mod 4))) as [v Hv]; [lia|]. exists v. split; [done|].
  rewrite Hlen. change (Z.of_nat 4) with 4. cbn [Z.eqb Pos.eqb]. rewrite at_nonneg by lia. rewrite Hv. cbn [of_option]. rewrite bind_Ok.
  rewrite Forall_forall in Hval. specialize (Hval v (list_elem_of_lookup_2 _ _ _ Hv)). rewrite (proj2 (Z.ltb_lt v 32)) by lia. cbn [assert_]. rewrite bind_Ok.
  rewrite at_nonneg by lia. rewrite (Hm v Hval). cbn [of_option]. rewrite bind_Ok. destruct (decide (v ∈ ret)) as [H|H].
  - by rewrite bool_decide_true.
  - by rewrite bool_decide_false.
Qed.

(** The loop ends when the index of a value is drawn that has not been selected. *)
Lemma draw_ends used ret seed :
  marks used ret -> (length ret < 4)%nat ->
  exists v seed', loop (2 ^ 64) (draw_value values used) (inl seed) = inr (Ok (v, seed')) /\ v ∈ values /\ v ∉ ret.
Proof.
  intros Hm Hl. assert (exists i v, values !! i = Some v /\ v ∉ ret) as (i & v0 & Hv0 & Hn0).
  { destruct (decide (Forall (fun v => v ∈ ret) values)) as [Hall|Hex].
    - exfalso. rewrite Forall_forall in Hall. apply (NoDup_submseteq _ ret) in Hall; [|done]. apply submseteq_length in Hall. lia.
    - apply not_Forall_Exists in Hex; [|intros ?; apply _]. apply Exists_exists in Hex as (v & Hin & Hn).
      apply list_elem_of_lookup in Hin as (i & Hi). by exists i, v. }
  pose proof (lookup_lt_Some _ _ _ Hv0) as Hi.
  destruct (loop_draws (draw_value values used) (Z.of_nat i) seed) as (sd & b & -> & E).
  - unfold u. lia.
  - intros sd. destruct (draw_value_step used ret sd Hm) as (v & _ & ->). case_decide; [by left|right; by eexists].
  - intros sd Ed. destruct (draw_value_step used ret sd Hm) as (v & Hv & ->). unfold drawn in Hv. rewrite Ed, Z.mod_small, Nat2Z.id, Hv0 in Hv by lia.
    injection Hv as <-. rewrite decide_False by done. by eexists.
  - destruct (draw_value_step used ret sd Hm) as (v & Hv & Ev). rewrite Ev in E. case_decide; [done|]. injection E as <-.
    exists v, (next sd). split; [done|]. split; [|done]. by eapply list_elem_of_lookup_2.
Qed.

Lemma select_loop_ok n : forall used ret seed,
  marks used ret -> NoDup ret -> Forall (fun v => v ∈ values) ret -> (length ret + n <= 4)%nat ->
  exists ret' seed', select_loop values n used ret seed = Ok (ret', seed') /\ NoDup ret' /\ Forall (fun v => v ∈ values) ret' /\ length ret' = (length ret + n)%nat.
Proof.
  induction n as [|n IH]; intros used ret seed Hm Hr Hin Hl; cbn [select_loop].
  { exists ret, seed. by rewrite Nat.add_0_r. }
  destruct (draw_ends used ret seed Hm ltac:(lia)) as (v & seed' & -> & Hv & Hnv). rewrite bind_Ok.
  pose proof Hval as Hv32. rewrite Forall_forall in Hv32. specialize (Hv32 v Hv).
  destruct (IH (<[Z.to_nat v := true]> used) (ret ++ [v]) seed') as (ret' & seed2 & E & H1 & H2 & H3).
  - intros w Hw. destruct (decide (w = v)) as [->|Hne].
    + rewrite list_lookup_insert_eq by (eapply lookup_lt_Some, Hm; done). f_equal. symmetry. apply bool_decide_eq_true. set_solver.
    + rewrite list_lookup_insert_ne by lia. rewrite (Hm w Hw). f_equal. apply bool_decide_ext. set_solver.
  - apply NoDup_app. split; [done|]. split; [set_solver|apply NoDup_singleton].
  - apply Forall_app. split; [done|]. by apply Forall_singleton.
  - rewrite length_app. cbn. lia.
  - exists ret', seed2. rewrite length_app in H3. cbn in H3. split; [done|]. split; [done|]. split; [done|lia].
Qed.

Lemma select_ok N seed :
  0 <= N <= 4 -> exists ret seed', select_between_n_and_m_from seed values N 4 = Ok (ret, seed') /\
    NoDup ret /\ Forall (fun v => v ∈ values) ret /\ N <= Z.of_nat (length ret) <= 4.
Proof.
  intros HN. unfold select_between_n_and_m_from. rewrite Hlen, (proj2 (Z.leb_le N 4)) by lia. change (Z.of_nat 4 <=? 4) with true. cbn [assert_]. rewrite !bind_Ok.
  destruct (hrd_fastrand seed) as [r seed1]. rewrite (wrap_id 32) by (unfold u; lia). rewrite (proj2 (Z.eqb_neq (4 - N + 1) 0)) by lia.
  pose proof (Z.mod_pos_bound r (4 - N + 1) ltac:(lia)) as Hr.
  destruct (select_loop_ok (Z.to_nat (r mod (4 - N + 1) + N)) (replicate 32 false) [] seed1) as (ret & seed' & E & H1 & H2 & H3).
  - intros v Hv. rewrite lookup_replicate_2 by lia. done.
  - apply NoDup_nil_2.
  - apply Forall_nil_2.
  - cbn. lia.
  - exists ret, seed'. cbn in H3. split; [done|]. split; [done|]. split; [done|lia].
Qed.
End Select.

(** ** Keys *)

Lemma keys_ok s t st :
  u 32 s -> u 8 t -> u 8 st ->
  tatp_sub_key s = s /\ tatp_accinf_key s t = s + 2 ^ 32 * t /\ tatp_specfac_key s t = s + 2 ^ 32 * t /\
  tatp_callfwd_key s t st = s + 2 ^ 32 * t + 2 ^ 40 * st.
Proof.
  intros Hs Ht Hst. assert (set_field 0 32 s 0 = s) as E1.
  { rewrite set_field_new by done. rewrite wrap_id by done. change (2 ^ 0) with 1. lia. }
  assert (set_field 32 8 t s = s + 2 ^ 32 * t) as E2 by (rewrite set_field_new by done; by rewrite wrap_id).
  unfold tatp_sub_key, tatp_accinf_key, tatp_specfac_key, tatp_callfwd_key. rewrite E1, E2. split; [done|]. split; [done|]. split; [done|].
  rewrite set_field_new; [by rewrite wrap_id|lia|]. unfold u in *. lia.
Qed.

(** ** Rows *)

Ltac split_row :=
  repeat first [rewrite take_app_length' by (rewrite ?length_le_bytes; done || lia)
              | rewrite drop_app_length' by (rewrite ?length_le_bytes; done || lia)].

Lemma sub_of_bytes v : sub_ok v -> sub_of (sub_bytes v) = v /\ length (sub_bytes v) = 40%nat.
Proof.
  intros [Hn (L1 & L2 & L3) Hb Hm Hv]. split; [|unfold sub_bytes; rewrite !length_app, !length_le_bytes; lia].
  unfold sub_of, sub_bytes. split_row. rewrite (take_ge (le_bytes 4 (vlr_location v))) by (by rewrite length_le_bytes).
  rewrite !le_val_bytes by (done || by rewrite Hm). by destruct v.
Qed.

Lemma sec_of_bytes v : sec_ok v -> sec_of (sec_bytes v) = v /\ length (sec_bytes v) = 8%nat.
Proof.
  intros [Hs Hm L]. split; [|unfold sec_bytes; rewrite !length_app, !length_le_bytes; lia].
  unfold sec_of, sec_bytes. split_row. rewrite !le_val_bytes by (done || by rewrite Hm). by destruct v.
Qed.

Lemma acc_of_bytes v : acc_ok v -> acc_of (accinf_bytes v) = v /\ length (accinf_bytes v) = 16%nat.
Proof.
  intros [Hm Hd (L1 & L2 & L3)]. split; [|unfold accinf_bytes; rewrite !length_app, !length_le_bytes; lia].
  unfold acc_of, accinf_bytes. split_row. rewrite !le_val_bytes by (done || by rewrite Hm). by destruct v.
Qed.

Lemma fac_of_bytes v : fac_ok v -> fac_of (specfac_bytes v) = v /\ length (specfac_bytes v) = 8%nat.
Proof.
  intros [(H1 & H2 & H3) L _]. split; [|unfold specfac_bytes; rewrite !length_app, !length_le_bytes; lia].
  unfold fac_of, specfac_bytes. split_row. rewrite !le_val_bytes by done. by destruct v.
Qed.

Lemma fwd_of_bytes v : fwd_ok v -> fwd_of (callfwd_bytes v) = v /\ length (callfwd_bytes v) = 16%nat.
Proof.
  intros [H1 L _]. split; [|unfold callfwd_bytes; rewrite !length_app, !length_le_bytes; lia].
  unfold fwd_of, callfwd_bytes. split_row. rewrite !le_val_bytes by done. by destruct v.
Qed.

(** ** The database behind the tables *)

(** What the five kinds of rows have in common: a table of the database and its RPC type,
    the bytes of a row, and that it can be told from them. *)
Class Row (R : Type) := {
  row_type : Z;
  row_image : R -> list byte;
  row_parse : list byte -> R;
  row_ok : R -> Prop;
  row_col : tdb -> Z -> option R;
  row_is_tatp : is_tatp row_type;
  row_parse_image r : row_ok r -> row_parse (row_image r) = r;
  row_entry D k : entry D (row_type, k) = row_image <$> row_col D k;
  row_db σ k : row_col (db_of σ) k = row_parse <$> σ row_type k
}.

#[export] Program Instance sub_row : Row tatp_sub_val_t := {|
  row_type := RPC_SUBSCRIBER_REQ; row_image := sub_bytes; row_parse := sub_of; row_ok := sub_ok; row_col := d_sub |}.
Next Obligation. by left. Qed.
Next Obligation. intros r Hr. by apply sub_of_bytes. Qed.
Next Obligation. done. Qed.
Next Obligation. done. Qed.
#[export] Program Instance sec_row : Row tatp_sec_sub_val_t := {|
  row_type := RPC_SEC_SUBSCRIBER_REQ; row_image := sec_bytes; row_parse := sec_of; row_ok := sec_ok; row_col := d_sec |}.
Next Obligation. unfold is_tatp. auto. Qed.
Next Obligation. intros r Hr. by apply sec_of_bytes. Qed.
Next Obligation. done. Qed.
Next Obligation. done. Qed.
#[export] Program Instance fac_row : Row tatp_specfac_val_t := {|
  row_type := RPC_SPECIAL_FACILITY_REQ; row_image := specfac_bytes; row_parse := fac_of; row_ok := fac_ok; row_col := d_fac |}.
Next Obligation. unfold is_tatp. auto. Qed.
Next Obligation. intros r Hr. by apply fac_of_bytes. Qed.
Next Obligation. done. Qed.
Next Obligation. done. Qed.
#[export] Program Instance acc_row : Row tatp_accinf_val_t := {|
  row_type := RPC_ACCESS_INFO_REQ; row_image := accinf_bytes; row_parse := acc_of; row_ok := acc_ok; row_col := d_acc |}.
Next Obligation. unfold is_tatp. auto. Qed.
Next Obligation. intros r Hr. by apply acc_of_bytes. Qed.
Next Obligation. done. Qed.
Next Obligation. done. Qed.
#[export] Program Instance fwd_row : Row tatp_callfwd_val_t := {|
  row_type := RPC_CALL_FORWARDING_REQ; row_image := callfwd_bytes; row_parse := fwd_of; row_ok := fwd_ok; row_col := d_fwd |}.
Next Obligation. unfold is_tatp. auto 6. Qed.
Next Obligation. intros r Hr. by apply fwd_of_bytes. Qed.
Next Obligation. done. Qed.
Next Obligation. done. Qed.

Section Rows.
Context {R : Type} `{Row R}.

(** A table whose entries are rows in order. *)
Lemma table_rows σ : (forall k x, σ row_type k = Some x -> exists r, x = row_image r /\ row_ok r) ->
  (forall k r, row_col (db_of σ) k = Some r -> row_ok r) /\ forall k, σ row_type k = entry (db_of σ) (row_type, k).
Proof.
  intros Hx. split.
  - intros k r E. rewrite row_db in E. apply fmap_Some in E as (x & E & ->). destruct (Hx k x E) as (r & -> & Hr). by rewrite row_parse_image.
  - intros k. rewrite row_entry, row_db. destruct (σ row_type k) as [x|] eqn:E; [|done]. destruct (Hx k x E) as (r & -> & Hr).
    cbn [fmap option_fmap option_map]. by rewrite row_parse_image.
Qed.

(** The row of an entry. *)
Lemma table_row D k : (forall k r, row_col D k = Some r -> row_ok r) -> row_parse <$> entry D (row_type, k) = row_col D k.
Proof.
  intros Hok. rewrite row_entry. destruct (row_col D k) as [r|] eqn:E; [|done]. cbn [fmap option_fmap option_map]. f_equal. apply row_parse_image. by apply (Hok k).
Qed.
End Rows.

Lemma entry_rows D k : db_ok D ->
  sub_of <$> entry D (RPC_SUBSCRIBER_REQ, k) = d_sub D k /\ sec_of <$> entry D (RPC_SEC_SUBSCRIBER_REQ, k) = d_sec D k /\
  fac_of <$> entry D (RPC_SPECIAL_FACILITY_REQ, k) = d_fac D k /\ acc_of <$> entry D (RPC_ACCESS_INFO_REQ, k) = d_acc D k /\
  fwd_of <$> entry D (RPC_CALL_FORWARDING_REQ, k) = d_fwd D k.
Proof.
  intros [H1 H2 H3 H4 H5]. split_and!; [exact (table_row (R := tatp_sub_val_t) D k H1)|exact (table_row (R := tatp_sec_sub_val_t) D k H2)|
    exact (table_row (R := tatp_specfac_val_t) D k H3)|exact (table_row (R := tatp_accinf_val_t) D k H4)|exact (table_row (R := tatp_callfwd_val_t) D k H5)].
Qed.

Lemma same_entry D B tk : db_ok D -> db_ok B -> entry D tk = entry B tk -> same_row D B tk.
Proof.
  destruct tk as [ty k]. intros HD HB E. destruct (entry_rows D k HD) as (D1 & D2 & D3 & D4 & D5).
  destruct (entry_rows B k HB) as (B1 & B2 & B3 & B4 & B5). split_and!; intros ->; congruence.
Qed.

Lemma same_row_entry D B tk : is_tatp tk.1 -> same_row D B tk -> entry D tk = entry B tk.
Proof.
  destruct tk as [ty k]. intros Hty (H1 & H2 & H3 & H4 & H5). unfold entry.
  destruct Hty as [E|[E|[E|[E|E]]]]; cbn [fst] in E; subst ty; cbn; [rewrite H1|rewrite H2|rewrite H3|rewrite H4|rewrite H5]; done.
Qed.

Lemma represents_db σ D : represents σ D -> forall tk, same_row (db_of σ) D tk.
Proof.
  intros [HD Hr] [ty k]. destruct (entry_rows D k HD) as (D1 & D2 & D3 & D4 & D5).
  split_and!; intros ->; cbn [db_of d_sub d_sec d_fac d_acc d_fwd]; rewrite Hr by (unfold is_tatp; auto 6); done.
Qed.

(** The rows of a database after a change of one of them. *)
Lemma row_sub D k v tk : same_row D (set_sub k v D) tk \/ tk = (RPC_SUBSCRIBER_REQ, k).
Proof.
  destruct tk as [ty k']. destruct (decide ((ty, k') = (RPC_SUBSCRIBER_REQ, k))) as [E|Hne]; [by right|left].
  split_and!; intros ->; cbn [set_sub d_sub d_sec d_fac d_acc d_fwd]; try done. rewrite fn_lookup_insert_ne; [done|congruence].
Qed.
Lemma row_fac D k v tk : same_row D (set_fac k v D) tk \/ tk = (RPC_SPECIAL_FACILITY_REQ, k).
Proof.
  destruct tk as [ty k']. destruct (decide ((ty, k') = (RPC_SPECIAL_FACILITY_REQ, k))) as [E|Hne]; [by right|left].
  split_and!; intros ->; cbn [set_fac d_sub d_sec d_fac d_acc d_fwd]; try done. rewrite fn_lookup_insert_ne; [done|congruence].
Qed.
Lemma row_fwd D k v tk : same_row D (set_fwd k v D) tk \/ tk = (RPC_CALL_FORWARDING_REQ, k).
Proof.
  destruct tk as [ty k']. destruct (decide ((ty, k') = (RPC_CALL_FORWARDING_REQ, k))) as [E|Hne]; [by right|left].
  split_and!; intros ->; cbn [set_fwd d_sub d_sec d_fac d_acc d_fwd]; try done. rewrite fn_lookup_insert_ne; [done|congruence].
Qed.

Lemma same_row_refl D tk : same_row D D tk.
Proof. by destruct tk. Qed.
Lemma same_row_trans D B E tk : same_row D B tk -> same_row B E tk -> same_row D E tk.
Proof. destruct tk as [ty k]. intros (H1 & H2 & H3 & H4 & H5) (K1 & K2 & K3 & K4 & K5). split_and!; intros ->; [rewrite H1|rewrite H2|rewrite H3|rewrite H4|rewrite H5]; auto. Qed.

Lemma same_sub D B k : same_row D B (RPC_SUBSCRIBER_REQ, k) -> d_sub D k = d_sub B k.
Proof. intros H. by apply H. Qed.
Lemma same_sec D B k : same_row D B (RPC_SEC_SUBSCRIBER_REQ, k) -> d_sec D k = d_sec B k.
Proof. intros (_ & H & _). by apply H. Qed.
Lemma same_fac D B k : same_row D B (RPC_SPECIAL_FACILITY_REQ, k) -> d_fac D k = d_fac B k.
Proof. intros (_ & _ & H & _). by apply H. Qed.
Lemma same_acc D B k : same_row D B (RPC_ACCESS_INFO_REQ, k) -> d_acc D k = d_acc B k.
Proof. intros (_ & _ & _ & H & _). by apply H. Qed.
Lemma same_fwd D B k : same_row D B (RPC_CALL_FORWARDING_REQ, k) -> d_fwd D k = d_fwd B k.
Proof. intros (_ & _ & _ & _ & H). by apply H. Qed.

(** The ways in which [run_op] succeeds. *)
Ltac op_cases H := cbn [run_op] in H;
  repeat first [apply bind_Some in H as (? & ? & H) | case_in H; try discriminate H]; injection H as <-.

(** What [run_op] changes. *)
Lemma run_op_writes op D D' : run_op op D = Some D' -> forall tk, tk ∉ op_writes op -> same_row D D' tk.
Proof.
  intros H tk Hn. destruct op; op_cases H; cbn [op_writes] in Hn; try apply same_row_refl.
  - edestruct row_sub as [Hs|Hs]; [|exfalso; apply Hn; rewrite Hs; by left]. eapply same_row_trans; [exact Hs|].
    edestruct row_fac as [Hf|Hf]; [exact Hf|exfalso; apply Hn; rewrite Hf; right; by left].
  - edestruct row_sub as [Hs|Hs]; [exact Hs|exfalso; apply Hn; rewrite Hs; by left].
  - edestruct row_fwd as [Hs|Hs]; [exact Hs|exfalso; apply Hn; rewrite Hs; by left].
  - edestruct row_fwd as [Hs|Hs]; [exact Hs|exfalso; apply Hn; rewrite Hs; by left].
Qed.

(** Rows that have just been set. *)
Ltac rows_set :=
  repeat (apply Forall_cons; split); try apply Forall_nil_2; split_and!;
  first [discriminate|intros _; cbn [set_sub set_fac set_fwd d_sub d_fac d_fwd]; by rewrite ?fn_lookup_insert].

(** A transaction whose rows are known. *)
Ltac rerun :=
  repeat match goal with
  | E : ?t = Some _ |- context [?t] => rewrite E; cbn [mbind option_bind]
  | E : ?t = None |- context [?t] => rewrite E
  | E : ?b = false |- context [if ?b then _ else _] => rewrite E
  end; reflexivity.

(** A transaction depends only on the rows it reads or writes. *)
Lemma run_op_same op D B D' :
  run_op op D = Some D' -> Forall (same_row D B) (op_reads op ++ op_writes op) ->
  exists B', run_op op B = Some B' /\ Forall (same_row D' B') (op_writes op).
Proof.
  intros H Hs. destruct op as [s|s sf st e|s ai|s sf b a|s l|s sf st v|s sf st]; cbn [op_reads op_writes app] in Hs; rewrite ?app_nil_r, ?Forall_cons in Hs; cbn [op_writes].
  - destruct Hs as [E1%same_sub _]. op_cases H. cbn [run_op]. rewrite <- E1. eexists. split; [rerun|]. apply Forall_nil_2.
  - destruct Hs as [E1%same_fac Hf]. cbn [run_op] in *. rewrite <- E1.
    replace (existsb (forwards B s sf st e) (seqZ 0 (st / 8 + 1))) with (existsb (forwards D s sf st e) (seqZ 0 (st / 8 + 1))).
    2: { rewrite Forall_map in Hf. clear H. induction Hf as [|i l Hi%same_fwd _ IH]; [done|]. cbn [existsb]. f_equal; [unfold forwards; by rewrite Hi|exact IH]. }
    apply bind_Some in H as (fac & Ef & H). rewrite Ef. cbn [mbind option_bind]. case_in H; [|done]. eexists. split; [done|]. apply Forall_nil_2.
  - destruct Hs as [E1%same_acc _]. op_cases H. cbn [run_op]. rewrite <- E1. eexists. split; [rerun|]. apply Forall_nil_2.
  - destruct Hs as (E1%same_sub & E2%same_fac & _). op_cases H. cbn [run_op]. rewrite <- E1, <- E2. eexists. split; [rerun|]. rows_set.
  - destruct Hs as (E1%same_sec & E2%same_sub & _). op_cases H. cbn [run_op]. rewrite <- E1, <- E2. eexists. split; [rerun|]. rows_set.
  - destruct Hs as (E1%same_sec & E2%same_fac & E3%same_fwd & _). op_cases H. cbn [run_op]. rewrite <- E1, <- E2, <- E3.
    eexists. split; [rerun|]. rows_set.
  - destruct Hs as (E1%same_sec & E2%same_fwd & _). op_cases H. cbn [run_op]. rewrite <- E1, <- E2. eexists. split; [rerun|]. rows_set.
Qed.

Lemma with_ok :
  (forall b v, u 16 b -> sub_ok v -> sub_ok (with_bits b v)) /\ (forall l v, u 32 l -> sub_ok v -> sub_ok (with_vlr l v)) /\
  (forall a v, u 8 a -> fac_ok v -> fac_ok (with_data_a a v)).
Proof. split_and!; intros x v Hx []; split; try done. cbn [with_data_a is_active error_cntl data_a]. split_and!; by destruct_and?. Qed.

(** Transactions keep the rows in order. *)
Lemma run_op_ok N op D D' : op_ok N op -> db_ok D -> run_op op D = Some D' -> db_ok D'.
Proof.
  intros Hop HD H. destruct with_ok as (W1 & W2 & W3). destruct op as [s|s sf st e|s ai|s sf b a|s l|s sf st v|s sf st]; cbn [op_ok] in Hop; op_cases H; try done.
  all: split; cbn [set_sub set_fac set_fwd d_sub d_sec d_fac d_acc d_fwd]; try apply HD; intros k w; unfold insert, fn_insert; case_decide; try apply HD;
    let Ew := fresh in intros Ew; apply (inj Some) in Ew as <- || discriminate Ew || subst w.
  all: first [apply W1|apply W2|apply W3|idtac]; try (by apply Hop); by eapply HD.
Qed.

Lemma op_tables op : Forall (fun tk => is_tatp tk.1) (op_reads op ++ op_writes op) /\ NoDup (op_writes op).
Proof.
  unfold is_tatp. split.
  - destruct op; cbn [op_reads op_writes app]; rewrite ?app_nil_r; repeat (apply Forall_cons; split); try apply Forall_nil_2; cbn [fst]; auto 6.
    apply Forall_map, Forall_true. cbn. auto 6.
  - destruct op; cbn [op_writes]; try apply NoDup_nil_2; try apply NoDup_singleton.
    apply NoDup_cons. split; [|apply NoDup_singleton]. rewrite list_elem_of_singleton. by intros [= ?].
Qed.

(** The tables after a transaction are those of the database after it. *)
Lemma tatp_op_refines N op D D' σ B :
  op_ok N op -> db_ok D -> run_op op D = Some D' -> represents σ B -> enabled (op_txn op D D') σ ->
  exists B', run_op op B = Some B' /\ represents (apply_txn (op_txn op D D') σ) B'.
Proof.
  intros Hop HD Hrun [HB Hrep] Hen%spec_enabled. destruct (op_tables op) as [Hin _].
  assert (Forall (same_row D B) (op_reads op ++ op_writes op)) as Heq.
  { apply Forall_forall. intros [ty k] Hel. rewrite Forall_forall in Hin. rewrite Forall_forall in Hen. specialize (Hin _ Hel). specialize (Hen _ Hel).
    cbn [fst snd] in *. apply same_entry; [done|done|]. by rewrite <- Hen, Hrep. }
  destruct (run_op_same op D B D' Hrun Heq) as (B' & Hrun' & Hsame). exists B'. split; [done|].
  pose proof (run_op_ok N op B B' Hop HB Hrun') as HB'. split; [done|]. intros ty k Hty. unfold op_txn. rewrite spec_apply. case_decide as Hel.
  - rewrite Forall_forall in Hsame. apply same_row_entry; [done|]. by apply Hsame.
  - rewrite Hrep by done. apply same_row_entry; [done|]. by eapply run_op_writes.
Qed.

(** Transactions on the tables, one after another, are transactions on the database. *)
Lemma tatp_ops_refine N ts ops : Forall2 (does_op N) ts ops -> forall σ B,
  valid σ ts -> represents σ B -> exists B', run_ops ops B = Some B' /\ represents (final σ ts) B'.
Proof.
  induction 1 as [|t op ts ops (Hop & D & D' & HD & Hrun & ->) _ IH]; intros σ B Hv Hrep; [by exists B|].
  destruct Hv as [Hen Hv]. destruct (tatp_op_refines N op D D' σ B Hop HD Hrun Hrep Hen) as (B1 & E1 & Hrep1).
  destruct (IH _ B1 Hv Hrep1) as (B' & E' & Hrep'). exists B'. split; [|done]. cbn [run_ops]. by rewrite E1.
Qed.

(** ** Integrity *)

Lemma fwd_key_inj N s sf st s' sf' st' :
  N <= TATP_MAX_SUBSCRIBERS -> 0 <= s < N -> sf_ok sf -> start_ok st -> 0 <= s' < N -> sf_ok sf' -> start_ok st' ->
  tatp_callfwd_key s sf st = tatp_callfwd_key s' sf' st' -> s = s' /\ sf = sf' /\ st = st'.
Proof.
  unfold sf_ok, start_ok. change TATP_MAX_SUBSCRIBERS with 1000000000. intros HN Hs Hf Ht Hs' Hf' Ht'.
  destruct (keys_ok s sf st) as (_ & _ & _ & ->); [unfold u; lia..|]. destruct (keys_ok s' sf' st') as (_ & _ & _ & ->); [unfold u; lia..|]. lia.
Qed.

Lemma run_op_sound N op D D' :
  N <= TATP_MAX_SUBSCRIBERS -> op_ok N op -> run_op op D = Some D' -> sound N D -> sound N D'.
Proof.
  intros HN Hop H [[S1 S2] S3]. destruct op as [s|s sf st e|s ai|s sf b a|s l|s sf st v|s sf st]; cbn [op_ok] in Hop; op_cases H; try done; (split; [split|]);
    cbn [set_sub set_fac set_fwd d_sub d_sec d_fac d_acc d_fwd]; try done; unfold insert, fn_insert.
  - intros s' Hs'. destruct (S1 s' Hs') as (w & Ew & En). case_decide as Ek; [|by exists w]. eexists. split; [done|]. rewrite <- Ek in Ew. cbn [with_bits sub_nbr]. congruence.
  - intros s' sf' st' w Hs' Hsf' Hst' Hw. destruct (S3 s' sf' st' w Hs' Hsf' Hst' Hw) as (fac & Ef). case_decide; by eexists.
  - intros s' Hs'. destruct (S1 s' Hs') as (w & Ew & En). case_decide as Ek; [|by exists w]. eexists. split; [done|]. rewrite <- Ek in Ew. cbn [with_vlr sub_nbr]. congruence.
  - intros s' sf' st' w Hs' Hsf' Hst'. case_decide as Ek; [|by apply S3]. intros _. destruct Hop as (Hs & Hsf & Hst & _).
    apply (fwd_key_inj N) in Ek as (-> & -> & _); try done. by eexists.
  - intros s' sf' st' w Hs' Hsf' Hst'. case_decide as Ek; [done|]. by apply S3.
Qed.

Lemma run_ops_sound N ops : N <= TATP_MAX_SUBSCRIBERS -> Forall (op_ok N) ops -> forall D D', run_ops ops D = Some D' -> sound N D -> sound N D'.
Proof.
  intros HN. induction 1 as [|op ops Hop _ IH]; intros D D' H Hs; cbn [run_ops] in H; [by injection H as <-|].
  apply bind_Some in H as (D1 & E1 & H). eapply IH; [exact H|]. by eapply run_op_sound.
Qed.

(** ** Theorems *)

(** C18: subscriber numbers.  For every subscriber that TATP allows, the routine that looks
    up three digits at a time and the one that computes one after another return the same
    number, from which the subscriber can be told; so the test that compares them for all
    subscribers passes. *)
Theorem sub_numbers nm wpm nr tp s :
  0 < nm -> make nm wpm nr = Ok tp -> 0 <= s < TATP_MAX_SUBSCRIBERS ->
  (exists n, tatp_sub_nbr_from_sid s = Ok n /\ tatp_sub_nbr_from_sid_fast tp s = Ok n /\ u 36 n /\
     forall s', 0 <= s' < TATP_MAX_SUBSCRIBERS -> tatp_sub_nbr_from_sid s' = Ok n -> s' = s) /\
  test_sids tp (seqZ 0 TATP_MAX_SUBSCRIBERS) = Ok tt.
Proof.
  intros Hn H Hs. destruct (tatp_make_ok _ _ _ _ Hn H) as [[_ _ Hm] _]. split.
  - exists (nbr_of s). rewrite from_sid_ok, from_sid_fast_ok by done. split; [done|]. split; [done|]. split; [apply nbr_range|].
    intros s' Hs'. rewrite from_sid_ok by done. intros E. injection E as E. by apply (dec_word_inj 9).
  - apply test_sids_ok; [done|]. apply Forall_forall. intros x Hx%elem_of_seqZ. lia.
Qed.

(** The random choices of TATP end and are in range.  Whatever the seed and the order
    in which the compiler evaluates its two draws, [get_nurand_subscriber] returns a
    subscriber that exists; and [select_between_n_and_m_from], whose loop draws until it
    finds a value it has not used, ends and returns between one and four different ones
    of the four values. *)
Theorem tatp_draws lr nm wpm nr tp seed :
  0 < nm -> make nm wpm nr = Ok tp ->
  (exists s seed', get_nurand_subscriber lr tp seed = Ok (s, seed') /\ 0 <= s < subscriber_size tp) /\
  (exists vs seed', select_between_n_and_m_from seed sf_type_values 1 4 = Ok (vs, seed') /\
     NoDup vs /\ Forall sf_ok vs /\ (1 <= length vs <= 4)%nat).
Proof.
  intros Hn H. destruct (tatp_make_ok _ _ _ _ Hn H) as [Ht _]. split; [by apply nurand_ok|].
  destruct (select_ok sf_type_values eq_refl) with (N := 1) (seed := seed) as (vs & seed' & E & H1 & H2 & H3).
  - unfold sf_type_values. repeat (apply NoDup_cons; split); try apply NoDup_nil_2; set_solver.
  - by repeat constructor.
  - lia.
  - exists vs, seed'. split; [done|]. split; [done|]. split; [|lia]. eapply Forall_impl; [exact H2|]. unfold sf_type_values, sf_ok. intros v Hv. set_unfold in Hv. lia.
Qed.

End TatpSpec.
