(* ===== verification/TatpTx.v ===== *)
(** * TATP: the transactions

    Each transaction of the application runs without a failed assertion, and when it
    commits it is a transaction of the database; so a coroutine that runs any number of
    them does what its ledger says. *)

From S2P Require Import Prelude Util Random Hots Mappings FixedTable FixedTableInv FixedTableOps FixedTableSteps Datastore.
From S2P Require Import DatastoreSpec RpcDefs RpcBatch Logger Tx TxWorld TxMem TxSpec TxExec TxUpdate TxStage.
From S2P Require Import TxSerial TxTransaction TxSession TxCluster TxApp Tatp TatpSpec.
From Stdlib Require Import ZArith Lia Bool.
From stdpp Require Import base functions numbers sets list gmap relations.
#[local] Open Scope Z_scope.
Import FixedTable FixedTableOps DatastoreSpec RpcDefs RpcBatch Tx TxWorld TxMem TxSpec TxExec TxUpdate TxStage.
Import TxSerial TxTransaction TxSession TxCluster TxApp Tatp TatpSpec.

Module TatpTx.

#[local] Opaque hrd_fastrand.

(** ** Definitions *)

(** Every subscriber has a row and an entry of the secondary index, and all rows are in
    order. *)
Definition value_ok (N ty k : Z) (v : option (list byte)) : Prop :=
  if ty =? RPC_SUBSCRIBER_REQ then
    (0 <= k < N -> exists r, v = Some (sub_bytes r) /\ sub_nbr r = nbr_of k) /\
    forall x, v = Some x -> exists r, x = sub_bytes r /\ sub_ok r /\ (0 <= k < N -> sub_nbr r = nbr_of k)
  else if ty =? RPC_SEC_SUBSCRIBER_REQ then
    (forall s, 0 <= s < N -> k = nbr_of s -> exists r, v = Some (sec_bytes r) /\ sec_ok r /\ sec_s_id r = s) /\
    forall x, v = Some x -> exists r, x = sec_bytes r /\ sec_ok r
  else if ty =? RPC_SPECIAL_FACILITY_REQ then forall x, v = Some x -> exists r, x = specfac_bytes r /\ fac_ok r
  else if ty =? RPC_ACCESS_INFO_REQ then forall x, v = Some x -> exists r, x = accinf_bytes r /\ acc_ok r
  else forall x, v = Some x -> exists r, x = callfwd_bytes r /\ fwd_ok r.

Definition tatp_vsz (ty : Z) : Z :=
  let t := ty / RPC_PRIMARY_DS_REQ_SPACING in
  if t =? 2 then sizeof_sub_val else if t =? 3 then sizeof_sec_sub_val else if t =? 4 then sizeof_specfac_val
  else if t =? 5 then sizeof_accinf_val else sizeof_callfwd_val.

(** The tables, of which the secondary index and the access information are only read. *)
Definition tatp_types (N : Z) : types :=
  mk_types
    (fun ty => (ty =? RPC_SUBSCRIBER_REQ) || (ty =? RPC_SEC_SUBSCRIBER_REQ) || (ty =? RPC_SPECIAL_FACILITY_REQ) ||
               (ty =? RPC_ACCESS_INFO_REQ) || (ty =? RPC_CALL_FORWARDING_REQ))
    (fun ty => (ty =? RPC_SEC_SUBSCRIBER_REQ) || (ty =? RPC_ACCESS_INFO_REQ)) tatp_vsz (value_ok N).

(** What a call finds: four objects of its own in memory. *)
Record frame_ok (m : list byte) (f : frame) : Prop := {
  fo_objs : layout m [fr_obj f 0; fr_obj f 1; fr_obj f 2; fr_obj f 3];
  fo_room i : (i < 4)%nat -> fr_obj f i + 72 <= Z.of_nat (length m);
  fo_un i : uninit_ok (fr_un f i)
}.

(** ** Types *)

Lemma prim_tatp N ty : ty_prim (tatp_types N) ty = true <-> is_tatp ty.
Proof. unfold is_tatp. cbn [ty_prim tatp_types]. rewrite !orb_true_iff, !Z.eqb_eq. tauto. Qed.

Lemma tatp_types_ok N nback : nback <= HOTS_MAX_BACKUPS -> types_ok (tatp_types N) nback.
Proof.
  change HOTS_MAX_BACKUPS with 2. intros Hn.
  assert (forall ty, ty_prim (tatp_types N) ty = true -> ty = 20 \/ ty = 30 \/ ty = 40 \/ ty = 50 \/ ty = 60) as Hp.
  { intros ty H%prim_tatp. exact H. }
  split.
  - intros ty H%Hp. change RPC_MICA_REQ_BASE with 20. change HOTS_MAX_BACKUPS with 2. change RPC_MAX_REQ_TYPE with 255. lia.
  - intros ty [-> | [-> | [-> | [-> | ->]]]]%Hp; done.
  - intros ty k v [-> | [-> | [-> | [-> | ->]]]]%Hp Hv.
    + destruct Hv as [_ Hv]. destruct (Hv v eq_refl) as (r & -> & Hr & _). by rewrite (proj2 (sub_of_bytes r Hr)).
    + destruct Hv as [_ Hv]. destruct (Hv v eq_refl) as (r & -> & Hr). by rewrite (proj2 (sec_of_bytes r Hr)).
    + destruct (Hv v eq_refl) as (r & -> & Hr). by rewrite (proj2 (fac_of_bytes r Hr)).
    + destruct (Hv v eq_refl) as (r & -> & Hr). by rewrite (proj2 (acc_of_bytes r Hr)).
    + destruct (Hv v eq_refl) as (r & -> & Hr). by rewrite (proj2 (fwd_of_bytes r Hr)).
  - intros ty r Hty%Hp Hr. assert (r = 1 \/ r = 2) as Hr' by lia.
    destruct Hty as [-> | [-> | [-> | [-> | ->]]]], Hr' as [-> | ->]; done.
  - intros ty ty' r r' H1%Hp H2%Hp Hr Hr' E. lia.
Qed.

(** ** Objects *)

Lemma row_size m o bs : row_at m o bs -> get_val_size o m = Ok (Z.of_nat (length bs)).
Proof.
  intros (_ & [_ Hs] & Hl). unfold get_val_size, load_le. unfold obj_sized in Hs. rewrite Hs, bind_Ok. f_equal. apply le_val_bytes.
  change HOTS_MAX_VALUE with 40 in Hl. unfold u. lia.
Qed.

Lemma row_exists m o bs : row_at m o bs -> (0 < length bs)%nat -> assert_exists o m = Ok tt.
Proof. intros H Hl. unfold assert_exists. rewrite (row_size m o bs H), bind_Ok, (proj2 (Z.ltb_lt _ _)) by lia. reflexivity. Qed.

Lemma no_row_size m o : obj_sized m o 0 -> get_val_size o m = Ok 0.
Proof. intros H. unfold get_val_size, load_le. unfold obj_sized in H. by rewrite H. Qed.

(** ** Members of rows *)

Lemma sub_msc m o r : row_at m o (sub_bytes r) -> sub_ok r -> assert_is (get_msc_location o m) tatp_sub_msc_location_magic = Ok tt.
Proof.
  intros H [_ (L1 & L2 & L3) _ Hm _]. unfold get_msc_location.
  assert (sub_bytes r = (le_bytes 8 (sub_nbr r) ++ sub_nbr_unused r ++ hex r ++ bytes r ++ le_bytes 2 (bits r)) ++ le_bytes 4 (msc_location r) ++ le_bytes 4 (vlr_location r)) as E.
  { unfold sub_bytes. by rewrite <- !app_assoc. }
  rewrite E in H. apply (load_row 4) in H; [|by rewrite length_le_bytes]. rewrite !length_app, !length_le_bytes, L1, L2, L3 in H.
  change (Z.of_nat (8 + (7 + (5 + (10 + 2))))) with 32 in H. rewrite H, Hm. reflexivity.
Qed.

Lemma sub_set_bits m o r v : row_at m o (sub_bytes r) -> sub_ok r ->
  exists m', set_bits o v m = Ok m' /\ keeps [o] m m' /\ row_at m' o (sub_bytes (with_bits (wrap 16 v) r)).
Proof.
  intros H [_ (L1 & L2 & L3) _ Hm _]. unfold set_bits.
  assert (forall b, sub_bytes (with_bits b r) = (le_bytes 8 (sub_nbr r) ++ sub_nbr_unused r ++ hex r ++ bytes r) ++ le_bytes 2 b ++ le_bytes 4 (msc_location r) ++ le_bytes 4 (vlr_location r)) as E.
  { intros b. unfold sub_bytes. cbn [with_bits sub_nbr sub_nbr_unused hex bytes bits msc_location vlr_location]. by rewrite <- !app_assoc. }
  replace r with (with_bits (bits r) r) in H by (by destruct r). rewrite E in H.
  destruct (store_row 2 m o _ _ _ v H) as (m' & Es & Hk & Hr); [by rewrite length_le_bytes|]. rewrite !length_app, !length_le_bytes, L1, L2, L3 in Es.
  change (Z.of_nat (8 + (7 + (5 + 10)))) with 30 in Es. exists m'. split; [done|]. split; [done|]. by rewrite E, (le_bytes_wrap 2 v) in *.
Qed.

Lemma sub_set_vlr m o r v : row_at m o (sub_bytes r) -> sub_ok r ->
  exists m', set_vlr_location o v m = Ok m' /\ keeps [o] m m' /\ row_at m' o (sub_bytes (with_vlr v r)).
Proof.
  intros H [_ (L1 & L2 & L3) _ Hm _]. unfold set_vlr_location.
  assert (forall l, sub_bytes (with_vlr l r) = (le_bytes 8 (sub_nbr r) ++ sub_nbr_unused r ++ hex r ++ bytes r ++ le_bytes 2 (bits r) ++ le_bytes 4 (msc_location r)) ++ le_bytes 4 l ++ []) as E.
  { intros l. unfold sub_bytes. cbn [with_vlr sub_nbr sub_nbr_unused hex bytes bits msc_location vlr_location]. by rewrite <- !app_assoc, app_nil_r. }
  replace r with (with_vlr (vlr_location r) r) in H by (by destruct r). rewrite E in H.
  destruct (store_row 4 m o _ _ _ v H) as (m' & Es & Hk & Hr); [by rewrite length_le_bytes|]. rewrite !length_app, !length_le_bytes, L1, L2, L3 in Es.
  change (Z.of_nat (8 + (7 + (5 + (10 + (2 + 4)))))) with 36 in Es. exists m'. split; [done|]. split; [done|]. by rewrite E.
Qed.

Lemma sec_members m o r : row_at m o (sec_bytes r) -> sec_ok r ->
  assert_exists o m = Ok tt /\ assert_is (get_sec_magic o m) tatp_sec_sub_magic = Ok tt /\ get_sec_s_id o m = Ok (sec_s_id r).
Proof.
  intros H Hr. pose proof Hr as [Hs Hm L]. destruct (sec_of_bytes r Hr) as [_ Hl]. split_and!.
  - apply (row_exists m o _ H). lia.
  - unfold get_sec_magic. unfold sec_bytes in H. apply (load_row 1) in H; [|by rewrite length_le_bytes]. rewrite length_le_bytes in H.
    change (Z.of_nat 4) with 4 in H. rewrite H, Hm. reflexivity.
  - unfold get_sec_s_id. unfold sec_bytes in H. apply (load_row 4 m o []) in H; [|by rewrite length_le_bytes]. cbn [length] in H.
    rewrite Z.add_0_r in H. rewrite H. f_equal. by apply le_val_bytes.
Qed.

Lemma acc_data1 m o r : row_at m o (accinf_bytes r) -> acc_ok r ->
  get_val_size o m = Ok 16 /\ assert_is (get_data1 o m) tatp_accinf_data1_magic = Ok tt.
Proof.
  intros H Hr. pose proof Hr as [Hm _ _]. destruct (acc_of_bytes r Hr) as [_ Hl]. split; [by rewrite (row_size m o _ H), Hl|].
  unfold get_data1. unfold accinf_bytes in H. apply (load_row 1 m o []) in H; [|by rewrite length_le_bytes]. cbn [length] in H.
  rewrite Z.add_0_r in H. rewrite H, Hm. reflexivity.
Qed.

Lemma fac_members m o r : row_at m o (specfac_bytes r) -> fac_ok r ->
  get_val_size o m = Ok 8 /\ assert_is (get_data_b0 o m) tatp_specfac_data_b0_magic = Ok tt /\ get_is_active o m = Ok (is_active r).
Proof.
  intros H Hr. pose proof Hr as [(H1 & H2 & H3) L Hm]. destruct (fac_of_bytes r Hr) as [_ Hl]. split_and!.
  - by rewrite (row_size m o _ H), Hl.
  - unfold get_data_b0. destruct (data_b r) as [|b bs] eqn:Eb; [done|]. cbn in Hm. injection Hm as ->.
    assert (specfac_bytes r = (le_bytes 1 (is_active r) ++ le_bytes 1 (error_cntl r) ++ le_bytes 1 (data_a r)) ++ [tatp_specfac_data_b0_magic] ++ bs) as E.
    { unfold specfac_bytes. by rewrite Eb, <- !app_assoc. }
    rewrite E in H. apply (load_row 1) in H; [|done]. rewrite !length_app, !length_le_bytes in H. change (Z.of_nat (1 + (1 + 1))) with 3 in H. rewrite H. reflexivity.
  - unfold get_is_active. unfold specfac_bytes in H. apply (load_row 1 m o []) in H; [|by rewrite length_le_bytes]. cbn [length] in H.
    rewrite Z.add_0_r in H. rewrite H. f_equal. by apply le_val_bytes.
Qed.

Lemma fac_set_data_a m o r v : row_at m o (specfac_bytes r) -> fac_ok r ->
  exists m', set_data_a o v m = Ok m' /\ keeps [o] m m' /\ row_at m' o (specfac_bytes (with_data_a (wrap 8 v) r)).
Proof.
  intros H _. unfold set_data_a.
  assert (forall a, specfac_bytes (with_data_a a r) = (le_bytes 1 (is_active r) ++ le_bytes 1 (error_cntl r)) ++ le_bytes 1 a ++ data_b r) as E.
  { intros a. unfold specfac_bytes. cbn [with_data_a is_active error_cntl data_a data_b]. by rewrite <- !app_assoc. }
  replace r with (with_data_a (data_a r) r) in H by (by destruct r). rewrite E in H.
  destruct (store_row 1 m o _ _ _ v H) as (m' & Es & Hk & Hr); [by rewrite length_le_bytes|]. rewrite !length_app, !length_le_bytes in Es.
  change (Z.of_nat (1 + 1)) with 2 in Es. exists m'. split; [done|]. split; [done|]. by rewrite E, (le_bytes_wrap 1 v) in *.
Qed.

Lemma fwd_members m o r : row_at m o (callfwd_bytes r) -> fwd_ok r ->
  get_val_size o m = Ok 16 /\ assert_is (get_numberx0 o m) tatp_callfwd_numberx0_magic = Ok tt /\ get_end_time o m = Ok (end_time r).
Proof.
  intros H Hr. pose proof Hr as [He L Hm]. destruct (fwd_of_bytes r Hr) as [_ Hl]. split_and!.
  - by rewrite (row_size m o _ H), Hl.
  - unfold get_numberx0. unfold callfwd_bytes in H. destruct (numberx r) as [|b bs] eqn:Eb; [done|]. cbn in Hm. injection Hm as ->.
    apply (load_row 1 m o (le_bytes 1 (end_time r)) [tatp_callfwd_numberx0_magic] bs) in H; [|done].
    rewrite !length_le_bytes in H. change (Z.of_nat 1) with 1 in H. rewrite H. reflexivity.
  - unfold get_end_time. unfold callfwd_bytes in H. apply (load_row 1 m o []) in H; [|by rewrite length_le_bytes]. cbn [length] in H.
    rewrite Z.add_0_r in H. rewrite H. f_equal. by apply le_val_bytes.
Qed.

(** The row that is constructed in an object for an insertion. *)
Lemma new_callfwd m o e :
  obj_at m o -> u 8 e ->
  exists m1 m2 m3, set_val_size o sizeof_callfwd_val m = Ok m1 /\ set_numberx0 o tatp_callfwd_numberx0_magic m1 = Ok m2 /\ set_end_time o e m2 = Ok m3 /\
    length m3 = length m /\ row_at m3 o (callfwd_bytes (get_callfwd o m3)) /\ fwd_ok (get_callfwd o m3).
Proof.
  intros Hat He. pose proof Hat as [H0 H1]. change sizeof_hots_obj_t with 56 in H1. unfold set_val_size, store_le.
  destruct (write_at_some (Z.to_nat o) (le_bytes 8 sizeof_callfwd_val) m) as (m1 & E1 & L1); [rewrite length_le_bytes; lia|]. exists m1.
  set (bs := take 16 (drop (Z.to_nat (o + 16)) m1)). assert (length bs = 16%nat) as Lb by (unfold bs; rewrite length_take, length_drop; lia).
  assert (row_at m1 o bs) as Hr1.
  { split; [unfold obj_at; by rewrite L1|]. split; [|rewrite Lb; done]. split.
    - rewrite Lb. unfold read_at. rewrite (proj2 (Nat.leb_le _ _)) by lia. done.
    - unfold obj_sized. rewrite Lb. change (Z.of_nat 16) with sizeof_callfwd_val.
      pose proof (read_write_at _ _ _ _ E1) as Er. by rewrite length_le_bytes in Er. }
  destruct bs as [|b0 [|b1 rest]]; [done|done|]. change (b0 :: b1 :: rest) with ([b0] ++ [b1] ++ rest) in Hr1.
  destruct (store_row 1 m1 o [b0] [b1] rest tatp_callfwd_numberx0_magic Hr1) as (m2 & E2 & [L2 _] & Hr2); [done|]. exists m2.
  destruct (store_row 1 m2 o [] [b0] ([tatp_callfwd_numberx0_magic] ++ rest) e Hr2) as (m3 & E3 & [L3 _] & Hr3); [done|]. exists m3.
  cbn [length] in E2, E3. rewrite Z.add_0_r in E3. change (Z.of_nat 1) with 1 in E2. split; [done|]. split; [done|]. split; [done|]. split; [lia|].
  cbn [length] in Lb. pose proof Hr3 as (_ & Hh & _). apply obj_has_take in Hh. cbn [app] in Hh.
  assert (get_callfwd o m3 = mk_callfwd e (tatp_callfwd_numberx0_magic :: rest)) as ->.
  { unfold get_callfwd. replace (Z.to_nat sizeof_callfwd_val) with (length (le_bytes 1 e ++ tatp_callfwd_numberx0_magic :: rest))
      by (change (Z.to_nat sizeof_callfwd_val) with 16%nat; rewrite length_app, length_le_bytes; cbn [length]; lia).
    rewrite Hh. rewrite take_app_length', drop_app_length' by (by rewrite length_le_bytes). by rewrite le_val_bytes. }
  split; [exact Hr3|]. split; cbn; [done|lia|done].
Qed.

(** ** Stages of a transaction *)

Lemma frame_layout m f n : frame_ok m f -> layout m (take n [fr_obj f 0; fr_obj f 1; fr_obj f 2; fr_obj f 3]).
Proof. intros [H _ _]. rewrite <- (take_drop n [fr_obj f 0; fr_obj f 1; fr_obj f 2; fr_obj f 3]) in H. by apply layout_prefix in H. Qed.

Lemma objs_ext m m' f : length m' = length m -> frame_ok m f -> frame_ok m' f.
Proof. intros E [H1 H2 H3]. split; [by apply (layout_ext m)|by rewrite E|done]. Qed.

Lemma frame_at m f i : frame_ok m f -> (i < 4)%nat -> obj_at m (fr_obj f i).
Proof. intros [(H0 & _ & H1 & _ & H2 & _ & H3 & _) _ _] Hi. do 4 (destruct i as [|i]; [done|]). lia. Qed.

Lemma objs_apart m f : frame_ok m f -> apart (fr_obj f 0) (fr_obj f 1).
Proof. intros [(_ & A0 & _) _ _]. by apply Forall_cons in A0 as [A01 _]. Qed.

Lemma tatp_aborts : assert_executed must_abort = Ok tt.
Proof. reflexivity. Qed.
Lemma tatp_goes_on : assert_executed in_progress = Ok tt.
Proof. reflexivity. Qed.

Lemma tatp_in_progress : assert_ (bool_decide (in_progress = in_progress)) = Ok tt.
Proof. reflexivity. Qed.

(** The parameters that are drawn. *)
Lemma sf_draw r : sf_ok (r mod 4 + 1).
Proof. unfold sf_ok. pose proof (Z.mod_pos_bound r 4 ltac:(lia)). lia. Qed.
Lemma ai_draw r : sf_ok (Z.land r 3 + 1).
Proof. change 3 with (Z.ones 2). rewrite Z.land_ones by lia. apply (sf_draw r). Qed.
Lemma start_draw r : start_ok (r mod 3 * 8).
Proof. unfold start_ok. pose proof (Z.mod_pos_bound r 3 ltac:(lia)). lia. Qed.
Lemma end_draw r : 0 <= r mod 24 * 1 < 24.
Proof. pose proof (Z.mod_pos_bound r 24 ltac:(lia)). lia. Qed.

Section Transactions.
Context (lr : bool) (mp : Mappings.t) (tp : tatp) (idx : Z -> Z -> Z -> nat) (coros self pkt : Z).
Context (HM : Mappings.replicated mp) (Ht : tatp_ok tp) (Hpkt : tatp_max_pkt_size <= pkt).
Notation N := (subscriber_size tp).
Notation T := (tatp_types N).
Notation C := (cluster_of mp T idx coros).
Notation tx_base := (tx_base mp coros self).
Notation executed := (executed mp T idx coros self pkt).
Notation read_done := (read_done mp T idx coros self pkt).
Notation slot_read := (slot_read mp T idx coros).
Notation slot_write := (slot_write mp T idx coros).
Notation slot_ready := (slot_ready mp T idx coros).

Lemma tatp_T_ok : types_ok T (Mappings.num_backups mp).
Proof. apply tatp_types_ok. destruct HM as [Hwf _]. apply (Mappings.wf_backups mp Hwf). Qed.

Lemma key_ok s : 0 <= s < N ->
  (u 64 (tatp_sub_key s) /\ tatp_sub_key s <> kFtInvalidKey) /\ (u 64 (tatp_sec_sub_key (nbr_of s)) /\ tatp_sec_sub_key (nbr_of s) <> kFtInvalidKey) /\
  (forall t, sf_ok t -> (u 64 (tatp_specfac_key s t) /\ tatp_specfac_key s t <> kFtInvalidKey) /\ (u 64 (tatp_accinf_key s t) /\ tatp_accinf_key s t <> kFtInvalidKey) /\
     forall st, 0 <= st <= 16 -> u 64 (tatp_callfwd_key s t st) /\ tatp_callfwd_key s t st <> kFtInvalidKey).
Proof.
  intros Hs. destruct Ht as [HN _ _]. change TATP_MAX_SUBSCRIBERS with 1000000000 in HN. change kFtInvalidKey with (2 ^ 64 - 1). unfold sf_ok.
  destruct (keys_ok s 0 0) as (-> & _); [unfold u; lia..|]. pose proof (nbr_range s) as Hn. unfold tatp_sec_sub_key, u in *. split; [lia|]. split; [lia|].
  intros t Hsf. destruct (keys_ok s t 0) as (_ & -> & -> & _); [unfold u; lia..|]. split; [lia|]. split; [lia|]. intros st Hst.
  destruct (keys_ok s t st) as (_ & _ & _ & ->); [unfold u; lia..|]. lia.
Qed.

(** Keys and objects that fit. *)
Lemma fit m f ops :
  frame_ok m f -> Forall (add_ok T) ops -> (length ops <= 4)%nat -> NoDup (write_keys ops) ->
  read_objs ops ++ write_objs ops = take (length ops) [fr_obj f 0; fr_obj f 1; fr_obj f 2; fr_obj f 3] -> ops_bulk T ops <= 104 -> ops_fit T pkt m ops.
Proof.
  intros Hf Ha Hl Hk Ho Hb. change tatp_max_pkt_size with 136 in Hpkt. split; try done.
  - change RPC_MAX_MSG_CORO with 16. lia.
  - rewrite Ho. by apply frame_layout.
  - lia.
Qed.

Notation made op ops D := (TxApp.made (op_reads op) (op_writes op) ops (entry D)).

(** [commit] of a transaction whose objects hold the rows of the database after it. *)
Lemma tatp_commit w op ops x0 x m s1 m2 vr vw D D' :
  tx_base x0 -> op_ok N op -> executed w ops x0 x m vr vw s1 -> made op ops D vr vw -> db_ok D -> run_op op D = Some D' -> length m2 = length m ->
  Forall (fun sl => slot_ready m2 sl /\ slot_new T m2 sl = entry D' sl.1.1) (wslots ops) ->
  wp C self pkt (commit false x m2) (fun '(st, x', m') s' =>
    kin x0 x' /\ length m' = length m /\ good C self s'.1 /\ owns C self [] s'.1 /\
    ((st = committed /\ exists t, does_op N t op /\ acts C self [t] w s'.2) \/
     (st = aborted /\ ~ Forall (fun sl => ty_ro T sl.1.1 = true) (rslots ops) /\ acts C self [] w s'.2))) s1.
Proof.
  intros Hb Hop Hex Hm HD Hrun Hl Hsl. eapply wp_mono; [by apply (commit_made mp T idx coros HM tatp_T_ok self pkt w _ _ ops x0 x m s1 m2 vr vw _ _ Hb Hex Hm Hl Hsl)|].
  intros [[st x'] m'] s' (H1 & H2 & H3 & H4 & H5). split; [done|]. split; [done|]. split; [done|]. split; [done|].
  destruct H5 as [(-> & _ & Ha)|(-> & Hne & Ha)]; [left|by right]. split; [done|]. exists (op_txn op D D'). split; [split; [done|]; by exists D, D'|done].
Qed.

(** ** The ends of a transaction *)

Notation txn_does := (TxApp.txn_does (does_op N) option_list).
Notation ends := (TxApp.ends mp T idx coros self (does_op N) option_list).

(** A read of one key. *)
Lemma ends_single w op ops x0 m0 x m s1 v D :
  op_ok N op -> executed w ops x0 x m [v] [] s1 -> made op ops D [v] [] -> db_ok D -> run_op op D = Some D -> length m = length m0 -> wslots ops = [] ->
  ends w x0 m0 (Some op, commit_single_read x, m) s1.
Proof.
  intros Hop Hex Hm HD Hrun Hl Hw. destruct (single_read_app mp T idx coros self pkt w ops x0 x m v s1 Hex Hw) as (G1 & G2 & G3).
  pose proof Hex as [_ _ _ Hk]. apply (ends_one mp T idx coros self _ _ w op _ x0 m0 _ m s1 (op_txn op D D)); try done; [split; [done|]; by exists D, D|].
  unfold op_txn. rewrite <- (made_txn T _ _ ops _ (entry D) [v] [] m Hm); [done|]. rewrite Hw. apply Forall_nil_2.
Qed.

(** [commit], where the result is returned. *)
Lemma ends_commit w op ops x0 m0 x m s1 m2 vr vw D D' :
  tx_base x0 -> op_ok N op -> executed w ops x0 x m vr vw s1 -> made op ops D vr vw -> db_ok D -> run_op op D = Some D' ->
  length m2 = length m -> length m = length m0 ->
  Forall (fun sl => slot_ready m2 sl /\ slot_new T m2 sl = entry D' sl.1.1) (wslots ops) ->
  wp C self pkt ('(st, x, m) ← commit false x m2; Done (if decide (st = committed) then Some op else None, x, m)) (ends w x0 m0) s1.
Proof.
  intros Hb Hop Hex Hm HD Hrun Hl Hl0 Hsl. apply wp_bind. eapply wp_mono; [by apply (tatp_commit w op ops x0 x m s1 m2 vr vw D D')|].
  intros [[st x'] m'] s' (H1 & H2 & H3 & H4 & [(-> & t & Hd & Ha)|(-> & _ & Ha)]).
  - rewrite decide_True by done. apply (ends_one mp T idx coros self _ _ w op _ x0 m0 x' m' s' t); try done. lia.
  - rewrite decide_False by done. apply ends_none; try done. lia.
Qed.

(** [commit], where it must succeed: all reads are of tables that are only read. *)
Lemma ends_must_commit w op ops x0 m0 x m s1 m2 vr vw D D' :
  tx_base x0 -> op_ok N op -> executed w ops x0 x m vr vw s1 -> made op ops D vr vw -> db_ok D -> run_op op D = Some D' ->
  length m2 = length m -> length m = length m0 ->
  Forall (fun sl => slot_ready m2 sl /\ slot_new T m2 sl = entry D' sl.1.1) (wslots ops) ->
  Forall (fun sl => ty_ro T sl.1.1 = true) (rslots ops) ->
  wp C self pkt ('(st, x, m) ← commit false x m2; _ ← lift (assert_ (bool_decide (st = committed))); Done (Some op, x, m)) (ends w x0 m0) s1.
Proof.
  intros Hb Hop Hex Hm HD Hrun Hl Hl0 Hsl Hro. apply wp_bind. eapply wp_mono; [by apply (tatp_commit w op ops x0 x m s1 m2 vr vw D D')|].
  intros [[st x'] m'] s' (H1 & H2 & H3 & H4 & [(-> & t & Hd & Ha)|(_ & Hne & _)]); [|done].
  apply (ends_one mp T idx coros self _ _ w op _ x0 m0 x' m' s' t); try done. lia.
Qed.

(** ** Slots and rows *)

(** A database with given rows, the same for all keys except for the call forwardings. *)
Definition rows (sub : option tatp_sub_val_t) (sec : option tatp_sec_sub_val_t) (fac : option tatp_specfac_val_t) (acc : option tatp_accinf_val_t)
    (fwd : Z -> option tatp_callfwd_val_t) : tdb := mk_tdb (fun _ => sub) (fun _ => sec) (fun _ => fac) (fun _ => acc) fwd.

Definition each_ok {R} (ok : R -> Prop) (r : option R) : Prop := match r with Some r => ok r | None => True end.
Lemma rows_ok sub sec fac acc fwd :
  each_ok sub_ok sub -> each_ok sec_ok sec -> each_ok fac_ok fac -> each_ok acc_ok acc -> (forall k, each_ok fwd_ok (fwd k)) -> db_ok (rows sub sec fac acc fwd).
Proof. intros H1 H2 H3 H4 H5. split; intros k v; cbn; [intros ->..|intros E]; try done. specialize (H5 k). by rewrite E in H5. Qed.

(** A row that a slot holds, if there is one. *)
Definition has_row {R} (image : R -> list byte) (ok : R -> Prop) (m : list byte) (o : Z) (v : option (list byte)) (r : option R) : Prop :=
  v = image <$> r /\ match r with Some r => ok r /\ row_at m o (image r) | None => obj_sized m o 0 end.

Lemma slot_row {R} (image : R -> list byte) (ok : R -> Prop) m ty k o v :
  (forall x, v = Some x -> exists r, x = image r /\ ok r) -> is_tatp ty -> obj_at m o -> slot_read m (ty, k, o) v -> exists r, has_row image ok m o v r.
Proof.
  intros Hv Hty Hat [Hm Hok]. destruct v as [x|]; [|by exists None]. destruct (Hv x eq_refl) as (r & -> & Hr). exists (Some r). split; [done|]. split; [done|].
  split; [done|]. split; [done|]. pose proof (tk_ok T _ tatp_T_ok ty k _ (proj2 (prim_tatp N ty) Hty) Hok) as Hl.
  pose proof (tk_vsz T _ tatp_T_ok ty (proj2 (prim_tatp N ty) Hty)). lia.
Qed.

Lemma read_sub m s o v : 0 <= s < N -> obj_at m o -> slot_read m (RPC_SUBSCRIBER_REQ, tatp_sub_key s, o) v ->
  exists r, v = Some (sub_bytes r) /\ sub_ok r /\ row_at m o (sub_bytes r) /\ sub_nbr r = nbr_of s.
Proof.
  intros Hs Hat H. destruct Ht as [HN _ _]. change TATP_MAX_SUBSCRIBERS with 1000000000 in HN.
  pose proof H as [_ [Hex Hall]]. destruct (keys_ok s 0 0) as (Ek & _); [unfold u; lia..|]. rewrite Ek in Hex, Hall. destruct (Hex Hs) as (r0 & E0 & _).
  destruct (slot_row sub_bytes (fun r => sub_ok r /\ sub_nbr r = nbr_of s) m RPC_SUBSCRIBER_REQ (tatp_sub_key s) o v) as ([r|] & E & Hr); try done.
  - intros x Hx. destruct (Hall x Hx) as (r & E & Hr & Hn). exists r. split; [done|]. split; [done|by apply Hn].
  - by left.
  - destruct Hr as [[H1 H2] H3]. by exists r.
  - by rewrite E0 in E.
Qed.

Lemma read_sec m s o v : 0 <= s < N -> obj_at m o -> slot_read m (RPC_SEC_SUBSCRIBER_REQ, tatp_sec_sub_key (nbr_of s), o) v ->
  exists r, v = Some (sec_bytes r) /\ sec_ok r /\ row_at m o (sec_bytes r) /\ sec_s_id r = s.
Proof.
  intros Hs Hat H. pose proof H as [_ [Hex Hall]]. destruct (Hex s Hs eq_refl) as (r0 & E0 & Hr0 & Es).
  destruct (slot_row sec_bytes sec_ok m RPC_SEC_SUBSCRIBER_REQ (tatp_sec_sub_key (nbr_of s)) o v) as ([r|] & E & Hr); try done; [right; by left| |by rewrite E0 in E].
  destruct Hr as [H1 H2]. exists r. split; [done|]. split; [done|]. split; [done|]. rewrite E0 in E. cbn [fmap option_fmap option_map] in E. apply (inj Some) in E.
  destruct (sec_of_bytes r H1) as [Er _]. destruct (sec_of_bytes r0 Hr0) as [Er0 _]. congruence.
Qed.

Lemma read_fac m k o v : obj_at m o -> slot_read m (RPC_SPECIAL_FACILITY_REQ, k, o) v -> exists r, has_row specfac_bytes fac_ok m o v r.
Proof. intros Hat H. pose proof H as [_ Hok]. apply (slot_row specfac_bytes fac_ok m RPC_SPECIAL_FACILITY_REQ k o v Hok); [unfold is_tatp; auto 6|done|done]. Qed.
Lemma read_acc m k o v : obj_at m o -> slot_read m (RPC_ACCESS_INFO_REQ, k, o) v -> exists r, has_row accinf_bytes acc_ok m o v r.
Proof. intros Hat H. pose proof H as [_ Hok]. apply (slot_row accinf_bytes acc_ok m RPC_ACCESS_INFO_REQ k o v Hok); [unfold is_tatp; auto 6|done|done]. Qed.
Lemma read_fwd m k o v : obj_at m o -> slot_read m (RPC_CALL_FORWARDING_REQ, k, o) v -> exists r, has_row callfwd_bytes fwd_ok m o v r.
Proof. intros Hat H. pose proof H as [_ Hok]. apply (slot_row callfwd_bytes fwd_ok m RPC_CALL_FORWARDING_REQ k o v Hok); [unfold is_tatp; auto 6|done|done]. Qed.

(** Rows that are ready to be written. *)
Lemma ready_row D m ty k o mode bs :
  is_tatp ty -> row_at m o bs -> mode <> wm_del -> o + 72 <= Z.of_nat (length m) -> value_ok N ty k (Some bs) -> entry D (ty, k) = Some bs ->
  slot_ready m (ty, k, o, mode) /\ slot_new T m (ty, k, o, mode) = entry D (ty, k).
Proof.
  intros Hty (Hat & Hh & Hl) Hmode Hroom Hok ->. pose proof (tk_ok T _ tatp_T_ok ty k bs (proj2 (prim_tatp N ty) Hty) Hok) as Hlen.
  assert (slot_new T m (ty, k, o, mode) = Some bs) as En.
  { unfold slot_new. rewrite decide_True by done. f_equal. rewrite <- Hlen, Nat2Z.id. by apply obj_has_take. }
  split; [|done]. split; [apply Hat|]. split; [change HOTS_MAX_VALUE with 40 in Hl; lia|]. split; [|by rewrite En].
  rewrite <- Hlen. apply Hh.
Qed.

Lemma ready_sub D m s o r :
  0 <= s < N -> row_at m o (sub_bytes r) -> sub_ok r -> sub_nbr r = nbr_of s -> o + 72 <= Z.of_nat (length m) -> d_sub D (tatp_sub_key s) = Some r ->
  slot_ready m (RPC_SUBSCRIBER_REQ, tatp_sub_key s, o, wm_update) /\
  slot_new T m (RPC_SUBSCRIBER_REQ, tatp_sub_key s, o, wm_update) = entry D (RPC_SUBSCRIBER_REQ, tatp_sub_key s).
Proof.
  intros Hs Hrow Hr Hn Hroom E. destruct Ht as [HN _ _]. change TATP_MAX_SUBSCRIBERS with 1000000000 in HN.
  apply (ready_row D m _ _ o wm_update (sub_bytes r)); try done; [by left| |cbn; by rewrite E].
  destruct (keys_ok s 0 0) as (-> & _); [unfold u; lia..|]. split; [intros _; by exists r|]. intros y [= <-]. by exists r.
Qed.

Lemma ready_fac D m k o r :
  row_at m o (specfac_bytes r) -> fac_ok r -> o + 72 <= Z.of_nat (length m) -> d_fac D k = Some r ->
  slot_ready m (RPC_SPECIAL_FACILITY_REQ, k, o, wm_update) /\ slot_new T m (RPC_SPECIAL_FACILITY_REQ, k, o, wm_update) = entry D (RPC_SPECIAL_FACILITY_REQ, k).
Proof.
  intros Hrow Hr Hroom E. apply (ready_row D m _ _ o wm_update (specfac_bytes r)); try done; [unfold is_tatp; auto 6| |cbn; by rewrite E].
  intros y [= <-]. by exists r.
Qed.

Lemma ready_insert D m k o r :
  row_at m o (callfwd_bytes r) -> fwd_ok r -> o + 72 <= Z.of_nat (length m) -> d_fwd D k = Some r ->
  slot_ready m (RPC_CALL_FORWARDING_REQ, k, o, wm_insert) /\ slot_new T m (RPC_CALL_FORWARDING_REQ, k, o, wm_insert) = entry D (RPC_CALL_FORWARDING_REQ, k).
Proof.
  intros Hrow Hr Hroom E. apply (ready_row D m _ _ o wm_insert (callfwd_bytes r)); try done; [unfold is_tatp; auto 6| |cbn; by rewrite E].
  intros y [= <-]. by exists r.
Qed.

Lemma ready_del D m k o r :
  row_at m o (callfwd_bytes r) -> fwd_ok r -> o + 72 <= Z.of_nat (length m) -> d_fwd D k = None ->
  slot_ready m (RPC_CALL_FORWARDING_REQ, k, o, wm_del) /\ slot_new T m (RPC_CALL_FORWARDING_REQ, k, o, wm_del) = entry D (RPC_CALL_FORWARDING_REQ, k).
Proof.
  intros (Hat & Hh & Hl) Hr Hroom E. split; [|cbn; by rewrite E]. split; [apply Hat|]. destruct (fwd_of_bytes r Hr) as [_ Hlen]. destruct Hh as [_ Hs].
  rewrite Hlen in Hs. change (ty_vsz T RPC_CALL_FORWARDING_REQ) with 16. split; [lia|]. split; [exact Hs|]. by intros y.
Qed.

(** ** The transactions *)

(** The read of the secondary index with which three of them begin. *)
Definition sec_add (f : frame) (s : Z) : add_op := add_read RPC_SEC_SUBSCRIBER_REQ (tatp_sec_sub_key (nbr_of s)) (fr_obj f 0) (fr_un f 0).

Ltac filled := filled_with ltac:(fun E => unfold sec_add in E).

Lemma get_subscriber_data_behaves f x m : tx_base x -> frame_ok m f -> behaves C pkt self (txn_get_subscriber_data lr tp f x m) (txn_does x m).
Proof.
  intros Hb Hf w Hg Ho. unfold txn_get_subscriber_data. destruct (nurand_ok lr tp (fr_seed f) Ht) as (s & sd & -> & Hs). rewrite lift_Ok.
  destruct (key_ok s Hs) as ((K1 & K2) & _). set (ops := [add_read RPC_SUBSCRIBER_REQ (tatp_sub_key s) (fr_obj f 0) (fr_un f 0)]).
  eapply (first_runs mp T idx coros HM tatp_T_ok self pkt w ops x m); [done| |done|done|filled|].
  { apply (fit m f); try done; [each; split_and!; try done; apply Hf|cbn; lia|apply NoDup_nil_2]. }
  intros [[st x'] m'] s1 (Hk & Hl & Hpe & Hsh & Hres). cbn beta iota. destruct Hres as [[-> _]|(-> & vr & vw & _ & Hex)].
  { rewrite decide_True by done. by apply (ends_rdonly mp T idx coros self pkt _ _ w None ops). }
  rewrite decide_False by (by intros []). destruct (executed_slots mp T idx coros self pkt w ops x x' m' vr vw s1 Hex) as [Sr Sw].
  apply Forall2_nil_inv_l in Sw as ->. apply Forall2_cons_inv_l in Sr as (v & vr' & Sv & Sr & ->). apply Forall2_nil_inv_l in Sr as ->.
  destruct (read_sub m' s _ v Hs (frame_at m' f 0 (objs_ext m m' f Hl Hf) ltac:(lia)) Sv) as (r & -> & Hr & Hrow & _).
  rewrite (row_exists m' _ _ Hrow) by (rewrite (proj2 (sub_of_bytes r Hr)); lia). rewrite lift_Ok, (sub_msc m' _ r Hrow Hr), lift_Ok.
  apply (ends_single w (Get_subscriber_data s) ops x m x' m' s1 (Some (sub_bytes r)) (rows (Some r) None None None (fun _ => None))); try done.
  by apply rows_ok.
Qed.

Lemma get_access_data_behaves f x m : tx_base x -> frame_ok m f -> behaves C pkt self (txn_get_access_data lr tp f x m) (txn_does x m).
Proof.
  intros Hb Hf w Hg Ho. unfold txn_get_access_data. destruct (nurand_ok lr tp (fr_seed f) Ht) as (s & sd & -> & Hs). rewrite lift_Ok.
  destruct (hrd_fastrand sd) as [r0 sd']. set (ai := Z.land r0 3 + 1).
  pose proof (ai_draw r0 : sf_ok ai) as Hai.
  destruct (key_ok s Hs) as (_ & _ & Hks). destruct (Hks ai Hai) as (_ & (K1 & K2) & _).
  set (ops := [add_read RPC_ACCESS_INFO_REQ (tatp_accinf_key s ai) (fr_obj f 0) (fr_un f 0)]).
  eapply (first_runs mp T idx coros HM tatp_T_ok self pkt w ops x m); [done| |done|done|filled|].
  { apply (fit m f); try done; [each; split_and!; try done; apply Hf|cbn; lia|apply NoDup_nil_2]. }
  intros [[st x'] m'] s1 (Hk & Hl & Hpe & Hsh & Hres). cbn beta iota. destruct Hres as [[-> Hno]|(-> & vr & vw & _ & Hex)].
  { exfalso. apply Hno. by each. }
  rewrite tatp_in_progress, lift_Ok. destruct (executed_slots mp T idx coros self pkt w ops x x' m' vr vw s1 Hex) as [Sr Sw].
  apply Forall2_nil_inv_l in Sw as ->. apply Forall2_cons_inv_l in Sr as (v & vr' & Sv & Sr & ->). apply Forall2_nil_inv_l in Sr as ->.
  destruct (read_acc m' _ _ v (frame_at m' f 0 (objs_ext m m' f Hl Hf) ltac:(lia)) Sv) as ([r|] & -> & Hr).
  - destruct Hr as [Hr Hrow]. destruct (acc_data1 m' _ r Hrow Hr) as [-> Hd]. rewrite lift_Ok. cbn [Z.ltb Z.compare]. rewrite Hd, lift_Ok.
    apply (ends_single w (Get_access_data s ai) ops x m x' m' s1 (Some (accinf_bytes r)) (rows None None None (Some r) (fun _ => None))); try done.
    by apply rows_ok.
  - rewrite (no_row_size m' _ Hr), lift_Ok. by apply (ends_rdonly mp T idx coros self pkt _ _ w None ops).
Qed.

Lemma update_subscriber_data_behaves f x m : tx_base x -> frame_ok m f -> behaves C pkt self (txn_update_subscriber_data lr tp f x m) (txn_does x m).
Proof.
  intros Hb Hf w Hg Ho. unfold txn_update_subscriber_data. destruct (nurand_ok lr tp (fr_seed f) Ht) as (s & sd & -> & Hs). rewrite lift_Ok.
  destruct (hrd_fastrand sd) as [r0 sd']. set (sf := r0 mod 4 + 1).
  pose proof (sf_draw r0 : sf_ok sf) as Hsf.
  destruct (key_ok s Hs) as ((K1 & K2) & _ & Hks). destruct (Hks sf Hsf) as ((K3 & K4) & _).
  set (ops := [add_write RPC_SUBSCRIBER_REQ (tatp_sub_key s) (fr_obj f 0) wm_update (fr_un f 0);
               add_write RPC_SPECIAL_FACILITY_REQ (tatp_specfac_key s sf) (fr_obj f 1) wm_update (fr_un f 1)]).
  eapply (first_runs mp T idx coros HM tatp_T_ok self pkt w ops x m); [done| |done|done|filled|].
  { apply (fit m f); try done; [each; split_and!; try done; apply Hf|cbn; lia|].
    apply NoDup_cons. split; [|apply NoDup_singleton]. rewrite list_elem_of_singleton. by intros [= ?]. }
  intros [[st x'] m'] s1 (Hk & Hl & Hpe & Hsh & Hres). cbn beta iota. destruct Hres as [[-> _]|(-> & vr & vw & _ & Hex)].
  { rewrite tatp_aborts, lift_Ok, decide_True by done. by apply (ends_abort mp T idx coros HM tatp_T_ok). }
  rewrite tatp_goes_on, lift_Ok, decide_False by done. destruct (executed_slots mp T idx coros self pkt w ops x x' m' vr vw s1 Hex) as [Sr Sw].
  apply Forall2_nil_inv_l in Sr as ->. apply Forall2_cons_inv_l in Sw as (v1 & vw1 & S1 & Sw & ->). apply Forall2_cons_inv_l in Sw as (v2 & vw2 & S2 & Sw & ->).
  apply Forall2_nil_inv_l in Sw as ->. pose proof (objs_ext m m' f Hl Hf) as Hf'.
  apply write_read in S1 as [S1 _]; [|done]. apply write_read in S2 as [S2 Hv2]; [|done].
  destruct (read_sub m' s _ v1 Hs (frame_at m' f 0 Hf' ltac:(lia)) S1) as (sub & -> & Hsub & Hrow1 & Hnbr).
  destruct (read_fac m' _ _ v2 (frame_at m' f 1 Hf' ltac:(lia)) S2) as ([fac|] & -> & Hr2); [|done]. destruct Hr2 as [Hfac Hrow2].
  rewrite (sub_msc m' _ sub Hrow1 Hsub), lift_Ok. destruct (hrd_fastrand (fr_resume f)) as [r1 sd1].
  destruct (sub_set_bits m' _ sub r1 Hrow1 Hsub) as (m1 & -> & Kp1 & Hrow1'). rewrite lift_Ok.
  apply (row_keeps m' m1 (fr_obj f 0)) in Hrow2; [|done|apply apart_sym; by apply (objs_apart m')].
  destruct (fac_members m1 _ fac Hrow2 Hfac) as (_ & -> & _). rewrite lift_Ok. destruct (hrd_fastrand sd1) as [r2 sd2].
  destruct (fac_set_data_a m1 _ fac r2 Hrow2 Hfac) as (m2 & -> & Kp2 & Hrow2'). rewrite lift_Ok.
  apply (row_keeps m1 m2 (fr_obj f 1)) in Hrow1'; [|done|by apply (objs_apart m')].
  destruct with_ok as (W1 & _ & W3). pose proof (wrap_u 16 r1 ltac:(lia)) as Hb1. pose proof (wrap_u 8 r2 ltac:(lia)) as Hb2.
  assert (length m2 = length m') as Hl2 by (destruct Kp1, Kp2; lia).
  eapply (ends_must_commit w (Update_subscriber_data s sf (wrap 16 r1) (wrap 8 r2)) ops x m x' m' s1 m2 _ _ (rows (Some sub) None (Some fac) None (fun _ => None)));
    try done; [by apply rows_ok|].
  pose proof (fo_room m2 f (objs_ext m' m2 f Hl2 Hf')) as Hroom. each; cbn [fst].
  - apply (ready_sub _ m2 s _ (with_bits (wrap 16 r1) sub)); try done; [by apply W1|apply Hroom; lia|]. cbn. by rewrite fn_lookup_insert.
  - apply (ready_fac _ m2 _ _ (with_data_a (wrap 8 r2) fac)); try done; [by apply W3|apply Hroom; lia|]. cbn. by rewrite fn_lookup_insert.
Qed.

(** The transactions that begin with a read of the secondary index: the table is only
    read, so that this succeeds. *)
Lemma sec_add_ok f m s : 0 <= s < N -> frame_ok m f -> add_ok T (sec_add f s).
Proof. intros Hs Hf. destruct (key_ok s Hs) as (_ & (K1 & K2) & _). split_and!; try done; apply Hf. Qed.

Lemma sec_runs {A} w s f x m (p : prog A) (k : tx_status_t * tx * list byte -> prog A) (Q : A -> state -> Prop) :
  tx_base x -> frame_ok m f -> 0 <= s < N -> good C self w -> owns C self [] w ->
  (forall x1, run_adds [sec_add f s] (start x) = Ok x1 -> p = do_read false x1 m ≫= k) ->
  (forall x' m' s1 sec, length m' = length m -> pending C self pkt x' m' s1 -> shaped [sec_add f s] x' -> executed w [sec_add f s] x x' m' [Some (sec_bytes sec)] [] s1 ->
     row_at m' (fr_obj f 0) (sec_bytes sec) -> sec_ok sec -> sec_s_id sec = s -> wp C self pkt (k (in_progress, x', m')) Q s1) ->
  wp C self pkt p Q (w, []).
Proof.
  intros Hb Hf Hs Hg Ho Hp Hk. eapply (first_runs mp T idx coros HM tatp_T_ok self pkt w [sec_add f s] x m p k Q); [done| |done|done|done|].
  { apply (fit m f); try done; [each; by apply (sec_add_ok f m)|cbn; lia|apply NoDup_nil_2]. }
  intros [[st x'] m'] s1 (Hkin & Hl & Hpe & Hsh & Hres). destruct Hres as [[-> Hno]|(-> & vr & vw & _ & Hex)]; [exfalso; apply Hno; by each|].
  destruct (executed_slots mp T idx coros self pkt w _ x x' m' vr vw s1 Hex) as [Sr Sw].
  apply Forall2_nil_inv_l in Sw as ->. apply Forall2_cons_inv_l in Sr as (v & vr' & Sv & Sr & ->). apply Forall2_nil_inv_l in Sr as ->.
  destruct (read_sec m' s _ v Hs (frame_at m' f 0 (objs_ext m m' f Hl Hf) ltac:(lia)) Sv) as (sec & -> & Hsec & Hrow & Es). by eapply Hk.
Qed.

(** The assertions on the row of the secondary index. *)
Lemma sec_asserts {A} m s o sec (k : prog A) :
  row_at m o (sec_bytes sec) -> sec_ok sec -> sec_s_id sec = s ->
  (_ ← lift (assert_exists o m); _ ← lift (assert_is (get_sec_magic o m) tatp_sec_sub_magic); _ ← lift (assert_is (get_sec_s_id o m) s); k) = k.
Proof.
  intros Hrow Hsec Es. destruct (sec_members m o sec Hrow Hsec) as (-> & -> & Eg). rewrite !lift_Ok. unfold assert_is. rewrite Eg, Es, bind_Ok, Z.eqb_refl.
  reflexivity.
Qed.

Lemma update_location_behaves f x m : tx_base x -> frame_ok m f -> behaves C pkt self (txn_update_location lr tp f x m) (txn_does x m).
Proof.
  intros Hb Hf w Hg Ho. unfold txn_update_location. destruct (nurand_ok lr tp (fr_seed f) Ht) as (s & sd & -> & Hs). rewrite lift_Ok.
  destruct (hrd_fastrand sd) as [vlr sd'] eqn:Evlr. assert (u 32 vlr) as Hvlr by (pose proof (Random.draw_range sd) as H; by rewrite Evlr in H).
  rewrite (from_sid_fast_ok tp s (tk_map tp Ht)), lift_Ok. eapply (sec_runs w s f x m); [done..|filled|].
  intros x1 m1 s1 sec Hl1 Hpe1 Hsh1 Hex1 Hrow Hsec Es. cbn beta iota. rewrite tatp_in_progress, lift_Ok, (sec_asserts m1 s (fr_obj f 0) sec) by done.
  destruct (sec_members m1 _ sec Hrow Hsec) as (_ & _ & ->). rewrite Es, lift_Ok. pose proof (objs_ext m m1 f Hl1 Hf) as Hf1.
  destruct (key_ok s Hs) as ((K1 & K2) & _). set (new := [add_write RPC_SUBSCRIBER_REQ (tatp_sub_key s) (fr_obj f 1) wm_update (fr_un f 1)]).
  eapply (next_runs mp T idx coros HM tatp_T_ok self pkt w [sec_add f s] new x x1 m1); [done|exact Hex1| |filled|].
  { apply (fit m1 f); try done; [each; [by apply (sec_add_ok f m1)|split_and!; try done; apply Hf1]|cbn; lia|apply NoDup_singleton]. }
  intros [[st x2] m2] s2 (Hk2 & Hl2 & Hpe2 & Hsh2 & Hres). cbn beta iota. destruct Hres as [[-> _]|(-> & vr & vw & (nr & nw & -> & ->) & Hex)].
  { rewrite tatp_aborts, lift_Ok, decide_False by done. apply (ends_abort mp T idx coros HM tatp_T_ok); try done. lia. }
  rewrite tatp_goes_on, lift_Ok, decide_True by done. cbn [app] in Hex. destruct (executed_slots mp T idx coros self pkt w _ x x2 m2 _ _ s2 Hex) as [Sr Sw].
  apply Forall2_cons in Sr as [_ Sr]. apply Forall2_nil_inv_l in Sr as ->. apply Forall2_cons_inv_l in Sw as (v1 & vw1 & S1 & Sw & ->). apply Forall2_nil_inv_l in Sw as ->.
  pose proof (objs_ext m1 m2 f Hl2 Hf1) as Hf2. apply write_read in S1 as [S1 _]; [|done].
  destruct (read_sub m2 s _ v1 Hs (frame_at m2 f 1 Hf2 ltac:(lia)) S1) as (sub & -> & Hsub & Hrow1 & Hnbr).
  rewrite (sub_msc m2 _ sub Hrow1 Hsub), lift_Ok. destruct (sub_set_vlr m2 _ sub vlr Hrow1 Hsub) as (m3 & -> & [Hl3 _] & Hrow3). rewrite lift_Ok.
  destruct with_ok as (_ & W2 & _). eapply (ends_must_commit w (Update_location s vlr) _ x m x2 m2 s2 m3 _ _ (rows (Some sub) (Some sec) None None (fun _ => None))); try done.
  - by apply rows_ok.
  - cbn. rewrite Es, Z.eqb_refl. reflexivity.
  - lia.
  - each. apply (ready_sub _ m3 s _ (with_vlr vlr sub)); try done; [by apply W2|apply (fo_room m3 f (objs_ext m2 m3 f Hl3 Hf2)); lia|].
    cbn. by rewrite fn_lookup_insert.
  - by each.
Qed.

Lemma start_range st : start_ok st -> 0 <= st <= 16.
Proof. unfold start_ok. lia. Qed.

Lemma delete_call_forwarding_behaves f x m : tx_base x -> frame_ok m f -> behaves C pkt self (txn_delete_call_forwarding lr tp f x m) (txn_does x m).
Proof.
  intros Hb Hf w Hg Ho. unfold txn_delete_call_forwarding. destruct (nurand_ok lr tp (fr_seed f) Ht) as (s & sd & -> & Hs). rewrite lift_Ok.
  destruct (hrd_fastrand sd) as [ra sda]. set (sf := ra mod 4 + 1). pose proof (sf_draw ra : sf_ok sf) as Hsf.
  destruct (hrd_fastrand sda) as [rb sdb]. set (st := rb mod 3 * 8). pose proof (start_draw rb : start_ok st) as Hst.
  rewrite (from_sid_fast_ok tp s (tk_map tp Ht)), lift_Ok. eapply (sec_runs w s f x m); [done..|filled|].
  intros x1 m1 s1 sec Hl1 Hpe1 Hsh1 Hex1 Hrow Hsec Es. cbn beta iota. rewrite decide_False by (by intros []). rewrite (sec_asserts m1 s (fr_obj f 0) sec) by done.
  pose proof (objs_ext m m1 f Hl1 Hf) as Hf1. destruct (key_ok s Hs) as (_ & _ & Hks). destruct (Hks sf Hsf) as (_ & _ & Hkf).
  destruct (Hkf st (start_range st Hst)) as [K1 K2].
  set (new := [add_write RPC_CALL_FORWARDING_REQ (tatp_callfwd_key s sf st) (fr_obj f 1) wm_del (fr_un f 1)]).
  eapply (next_runs mp T idx coros HM tatp_T_ok self pkt w [sec_add f s] new x x1 m1); [done|exact Hex1| |filled|].
  { apply (fit m1 f); try done; [each; [by apply (sec_add_ok f m1)|split_and!; try done; apply Hf1]|cbn; lia|apply NoDup_singleton]. }
  intros [[ex x2] m2] s2 (Hk2 & Hl2 & Hpe2 & Hsh2 & Hres). cbn beta iota. destruct Hres as [[-> _]|(-> & vr & vw & (nr & nw & -> & ->) & Hex)].
  { rewrite tatp_aborts, lift_Ok, decide_False by done. apply (ends_abort mp T idx coros HM tatp_T_ok); try done. lia. }
  rewrite tatp_goes_on, lift_Ok, decide_True by done. cbn [app] in Hex. destruct (executed_slots mp T idx coros self pkt w _ x x2 m2 _ _ s2 Hex) as [Sr Sw].
  apply Forall2_cons in Sr as [_ Sr]. apply Forall2_nil_inv_l in Sr as ->. apply Forall2_cons_inv_l in Sw as (v1 & vw1 & S1 & Sw & ->). apply Forall2_nil_inv_l in Sw as ->.
  pose proof (objs_ext m1 m2 f Hl2 Hf1) as Hf2. apply write_read in S1 as [S1 Hv1]; [|done].
  destruct (read_fwd m2 _ _ v1 (frame_at m2 f 1 Hf2 ltac:(lia)) S1) as ([fwd|] & -> & Hr1); [|done]. destruct Hr1 as [Hfwd Hrow1].
  destruct (fwd_members m2 _ fwd Hrow1 Hfwd) as (_ & -> & _). rewrite lift_Ok.
  eapply (ends_commit w (Delete_call_forwarding s sf st) _ x m x2 m2 s2 m2 _ _ (rows None (Some sec) None None (fun _ => Some fwd))); try done.
  - by apply rows_ok.
  - lia.
  - each. apply (ready_del _ m2 _ _ fwd); try done; [apply (fo_room m2 f Hf2); lia|]. cbn. by rewrite fn_lookup_insert.
Qed.

Lemma insert_call_forwarding_behaves f x m : tx_base x -> frame_ok m f -> behaves C pkt self (txn_insert_call_forwarding lr tp f x m) (txn_does x m).
Proof.
  intros Hb Hf w Hg Ho. unfold txn_insert_call_forwarding. destruct (nurand_ok lr tp (fr_seed f) Ht) as (s & sd & -> & Hs). rewrite lift_Ok.
  destruct (hrd_fastrand sd) as [ra sda]. set (sf := ra mod 4 + 1). pose proof (sf_draw ra : sf_ok sf) as Hsf.
  destruct (hrd_fastrand sda) as [rb sdb]. set (st := rb mod 3 * 8). pose proof (start_draw rb : start_ok st) as Hst.
  destruct (hrd_fastrand sdb) as [rc sdc]. set (en := rc mod 24 * 1). pose proof (end_draw rc : 0 <= en < 24) as Hen.
  rewrite (from_sid_fast_ok tp s (tk_map tp Ht)), lift_Ok. eapply (sec_runs w s f x m); [done..|filled|].
  intros x1 m1 s1 sec Hl1 Hpe1 Hsh1 Hex1 Hrow Hsec Es. cbn beta iota. rewrite tatp_in_progress, lift_Ok. rewrite (sec_asserts m1 s (fr_obj f 0) sec) by done.
  pose proof (objs_ext m m1 f Hl1 Hf) as Hf1. destruct (key_ok s Hs) as (_ & _ & Hks). destruct (Hks sf Hsf) as ((K1 & K2) & _ & Hkf).
  destruct (Hkf st (start_range st Hst)) as [K3 K4].
  set (new := [add_read RPC_SPECIAL_FACILITY_REQ (tatp_specfac_key s sf) (fr_obj f 1) (fr_un f 1)]).
  eapply (next_runs mp T idx coros HM tatp_T_ok self pkt w [sec_add f s] new x x1 m1); [done|exact Hex1| |filled|].
  { apply (fit m1 f); try done; [each; [by apply (sec_add_ok f m1)|split_and!; try done; apply Hf1]|cbn; lia|apply NoDup_nil_2]. }
  intros [[ex x2] m2] s2 (Hk2 & Hl2 & Hpe2 & Hsh2 & Hres). cbn beta iota. destruct Hres as [[-> _]|(-> & vr & vw & (nr & nw & -> & ->) & Hex)].
  { unfold not_found. rewrite decide_True, lift_Ok by done. apply (ends_rdonly mp T idx coros self pkt _ _ w None ([sec_add f s] ++ new)); try done. lia. }
  unfold not_found. rewrite decide_False by (by intros []). cbn [app] in Hex. destruct (executed_slots mp T idx coros self pkt w _ x x2 m2 _ _ s2 Hex) as [Sr Sw].
  apply Forall2_nil_inv_l in Sw as ->. apply Forall2_cons in Sr as [_ Sr]. apply Forall2_cons_inv_l in Sr as (v1 & vr1 & S1 & Sr & ->). apply Forall2_nil_inv_l in Sr as ->.
  pose proof (objs_ext m1 m2 f Hl2 Hf1) as Hf2. destruct (read_fac m2 _ _ v1 (frame_at m2 f 1 Hf2 ltac:(lia)) S1) as ([fac|] & -> & Hr1).
  2: { rewrite (no_row_size m2 _ Hr1), bind_Ok, lift_Ok. apply (ends_rdonly mp T idx coros self pkt _ _ w None ([sec_add f s] ++ new)); try done. lia. }
  destruct Hr1 as [Hfac Hrow1]. destruct (fac_members m2 _ fac Hrow1 Hfac) as (-> & -> & _). rewrite bind_Ok, !lift_Ok. cbn beta iota.
  set (new2 := [add_write RPC_CALL_FORWARDING_REQ (tatp_callfwd_key s sf st) (fr_obj f 2) wm_insert (fr_un f 2)]).
  eapply (next_runs mp T idx coros HM tatp_T_ok self pkt w (sec_add f s :: new) new2 x x2 m2); [done|exact Hex| |filled|].
  { apply (fit m2 f); try done; [each; [by apply (sec_add_ok f m2)|split_and!; try done; apply Hf2..]|cbn; lia|apply NoDup_singleton]. }
  clear Hpe2 Hsh2. intros [[ex x3] m3] s3 (Hk3 & Hl3 & Hpe3 & Hsh3 & Hres). cbn beta iota. destruct Hres as [[-> _]|(-> & vr & vw & (nr & nw & -> & ->) & Hex3)].
  { rewrite tatp_aborts, lift_Ok, decide_False by done. apply (ends_abort mp T idx coros HM tatp_T_ok); try done. lia. }
  rewrite tatp_goes_on, lift_Ok, decide_True by done. cbn [app] in Hex3. destruct (executed_slots mp T idx coros self pkt w _ x x3 m3 _ _ s3 Hex3) as [Sr Sw].
  apply Forall2_cons in Sr as [_ Sr]. apply Forall2_cons in Sr as [_ Sr]. apply Forall2_nil_inv_l in Sr as ->. apply Forall2_cons_inv_l in Sw as (v2 & vw2 & S2 & Sw & ->).
  apply Forall2_nil_inv_l in Sw as ->. assert (v2 = None) as -> by exact S2.
  pose proof (objs_ext m2 m3 f Hl3 Hf2) as Hf3. destruct (new_callfwd m3 (fr_obj f 2) en (frame_at m3 f 2 Hf3 ltac:(lia))) as (ma & mb & mc & -> & E2 & E3 & Hlc & Hrowc & Hfwd); [unfold u; lia|].
  rewrite lift_Ok, E2, lift_Ok, E3, lift_Ok. cbn beta zeta.
  eapply (ends_commit w (Insert_call_forwarding s sf st (get_callfwd (fr_obj f 2) mc)) _ x m x3 m3 s3 mc _ _ (rows None (Some sec) (Some fac) None (fun _ => None))); try done.
  - by apply rows_ok.
  - lia.
  - each. apply (ready_insert _ mc _ _ (get_callfwd (fr_obj f 2) mc)); try done; [apply (fo_room mc f (objs_ext m3 mc f Hlc Hf3)); lia|].
    cbn. by rewrite fn_lookup_insert.
Qed.

(** The reads of the call forwardings of a facility. *)
Definition fwd_adds (f : frame) (s sf : Z) (ks : list Z) : list add_op :=
  map (fun i => add_read RPC_CALL_FORWARDING_REQ (tatp_callfwd_key s sf (i * 8)) (fr_obj f (Z.to_nat (i + 1))) (fr_un f (Z.to_nat (i + 1)))) ks.

Lemma add_callfwds_adds f s sf ks : forall x, add_callfwds f s sf ks x = run_adds (fwd_adds f s sf ks) x.
Proof. induction ks as [|i ks IH]; intros x; [done|]. cbn [add_callfwds fwd_adds map run_adds run_add]. destruct (add_to_read_set _ _ _ _ x) as [[? ?]|]; [|done]. apply IH. Qed.

Lemma fwd_adds_slots f s sf ks :
  rslots (fwd_adds f s sf ks) = map (fun i => (RPC_CALL_FORWARDING_REQ, tatp_callfwd_key s sf (i * 8), fr_obj f (Z.to_nat (i + 1)))) ks /\ wslots (fwd_adds f s sf ks) = [].
Proof. induction ks as [|i ks [IH1 IH2]]; [done|]. split; [unfold rslots; cbn [fwd_adds map omap list_omap]; f_equal; exact IH1|exact IH2]. Qed.

(** What the object of a call forwarding holds after the reads. *)
Definition fwd_in (f : frame) (m : list byte) (s sf : Z) (fw : Z -> option tatp_callfwd_val_t) (i : Z) : Prop :=
  let o := fr_obj f (Z.to_nat (i + 1)) in
  match fw (tatp_callfwd_key s sf (i * 8)) with Some r => fwd_ok r /\ row_at m o (callfwd_bytes r) | None => obj_sized m o 0 end.

(** The table of call forwardings that has the rows which were read. *)
Lemma fwd_rows f s sf m ks vs :
  NoDup (map (fun i => tatp_callfwd_key s sf (i * 8)) ks) -> Forall (fun i => 0 <= i < 3) ks -> frame_ok m f ->
  Forall2 (slot_read m) (rslots (fwd_adds f s sf ks)) vs ->
  exists fw, vs = map (fun i => callfwd_bytes <$> fw (tatp_callfwd_key s sf (i * 8))) ks /\ Forall (fwd_in f m s sf fw) ks /\ forall k, each_ok fwd_ok (fw k).
Proof.
  intros Hnd Hks Hf. rewrite (proj1 (fwd_adds_slots f s sf ks)). revert vs. induction ks as [|i ks IH]; intros vs H.
  { apply Forall2_nil_inv_l in H as ->. by exists (fun _ => None). }
  cbn [map] in Hnd, H. apply NoDup_cons in Hnd as [Hni Hnd]. apply Forall_cons in Hks as [Hi Hks]. apply Forall2_cons_inv_l in H as (v & vs' & Hv & H & ->).
  destruct (IH Hnd Hks vs' H) as (fw & -> & Hin & Hok).
  destruct (read_fwd m _ _ v (frame_at m f (Z.to_nat (i + 1)) Hf ltac:(lia)) Hv) as (r & -> & Hr). set (ki := tatp_callfwd_key s sf (i * 8)) in *.
  assert (forall j, j ∈ ks -> tatp_callfwd_key s sf (j * 8) <> ki) as Hne.
  { intros j Hj E. apply Hni. rewrite <- E. by apply (list_elem_of_fmap_2 (fun i => tatp_callfwd_key s sf (i * 8))). }
  exists (<[ki := r]> fw). split; [|split].
  - cbn [map]. f_equal; [by rewrite fn_lookup_insert|]. apply map_ext_in. intros j Hj%list_elem_of_In. by rewrite fn_lookup_insert_ne by (symmetry; by apply Hne).
  - constructor.
    + unfold fwd_in. fold ki. rewrite fn_lookup_insert. by destruct r.
    + rewrite Forall_forall in Hin. apply Forall_forall. intros j Hj. unfold fwd_in. rewrite fn_lookup_insert_ne by (symmetry; by apply Hne). by apply Hin.
  - intros k. unfold insert, fn_insert. case_decide; [|apply Hok]. destruct r as [r|]; [by destruct Hr|done].
Qed.

Lemma check_callfwds_ok D f s sf st e m ks : Forall (fwd_in f m s sf (d_fwd D)) ks -> forall b,
  check_callfwds f st e ks b m = Ok (b || existsb (forwards D s sf st e) ks).
Proof.
  induction 1 as [|i ks Hi _ IH]; intros b; [by rewrite orb_false_r|]. cbn [check_callfwds existsb]. unfold fwd_in in Hi. unfold forwards at 1.
  destruct (d_fwd D (tatp_callfwd_key s sf (i * 8))) as [r|].
  - destruct Hi as [Hr Hrow]. destruct (fwd_members m _ r Hrow Hr) as (-> & -> & ->). rewrite !bind_Ok. cbn [Z.eqb]. rewrite IH. f_equal.
    destruct ((i * 8 <=? st) && (e <? end_time r)), b; done.
  - rewrite (no_row_size m _ Hi), bind_Ok. cbn [Z.eqb]. by rewrite IH.
Qed.

Lemma new_destination_fit f m s sf n :
  0 <= s < N -> sf_ok sf -> 1 <= n <= 3 -> frame_ok m f ->
  ops_fit T pkt m (add_read RPC_SPECIAL_FACILITY_REQ (tatp_specfac_key s sf) (fr_obj f 0) (fr_un f 0) :: fwd_adds f s sf (seqZ 0 n)) /\
  NoDup (map (fun i => tatp_callfwd_key s sf (i * 8)) (seqZ 0 n)).
Proof.
  intros Hs Hsf Hn Hf. destruct (key_ok s Hs) as (_ & _ & Hks). destruct (Hks sf Hsf) as ((K1 & K2) & _ & Hkf). split.
  - apply (fit m f); [done| | | | |].
    + constructor; [split_and!; try done; apply Hf|]. apply Forall_map, Forall_forall. intros i Hi%elem_of_seqZ. destruct (Hkf (i * 8) ltac:(lia)) as [K3 K4].
      split_and!; try done; apply Hf.
    + cbn [length]. unfold fwd_adds. rewrite length_map, length_seqZ. lia.
    + assert (n = 1 \/ n = 2 \/ n = 3) as [-> | [-> | ->]] by lia; apply NoDup_nil_2.
    + assert (n = 1 \/ n = 2 \/ n = 3) as [-> | [-> | ->]] by lia; reflexivity.
    + assert (n = 1 \/ n = 2 \/ n = 3) as [-> | [-> | ->]] by lia; done.
  - apply NoDup_fmap_2_strong; [|apply NoDup_seqZ]. intros i j Hi%elem_of_seqZ Hj%elem_of_seqZ E. destruct Ht as [HN _ _].
    apply (fwd_key_inj N) in E as (_ & _ & E); try done; [lia|lia|unfold start_ok; lia..].
Qed.

Lemma new_destination_made f s sf st en fac fw :
  made (Get_new_destination s sf st en)
    (add_read RPC_SPECIAL_FACILITY_REQ (tatp_specfac_key s sf) (fr_obj f 0) (fr_un f 0) :: fwd_adds f s sf (seqZ 0 (st / 8 + 1)))
    (rows None None (Some fac) None fw)
    (Some (specfac_bytes fac) :: map (fun i => callfwd_bytes <$> fw (tatp_callfwd_key s sf (i * 8))) (seqZ 0 (st / 8 + 1))) [].
Proof.
  destruct (fwd_adds_slots f s sf (seqZ 0 (st / 8 + 1))) as [Er Ew]. split.
  - transitivity ((RPC_SPECIAL_FACILITY_REQ, tatp_specfac_key s sf) :: map fst (rslots (fwd_adds f s sf (seqZ 0 (st / 8 + 1))))); [done|].
    rewrite Er, map_map. reflexivity.
  - transitivity (map (fun sl : wslot => sl.1.1) (wslots (fwd_adds f s sf (seqZ 0 (st / 8 + 1))))); [done|]. by rewrite Ew.
  - cbn [op_reads map]. f_equal. rewrite map_map. reflexivity.
  - done.
Qed.

Lemma get_new_destination_behaves f x m : tx_base x -> frame_ok m f -> behaves C pkt self (txn_get_new_destination lr tp f x m) (txn_does x m).
Proof.
  intros Hb Hf w Hg Ho. unfold txn_get_new_destination. destruct (nurand_ok lr tp (fr_seed f) Ht) as (s & sd & -> & Hs). rewrite lift_Ok.
  destruct (hrd_fastrand sd) as [ra sda]. set (sf := ra mod 4 + 1). pose proof (sf_draw ra : sf_ok sf) as Hsf.
  destruct (hrd_fastrand sda) as [rb sdb]. set (st := rb mod 3 * 8). pose proof (start_draw rb : start_ok st) as Hst.
  destruct (hrd_fastrand sdb) as [rc sdc]. set (en := rc mod 24 * 1). pose proof (end_draw rc : 0 <= en < 24) as Hen.
  set (n := st / 8 + 1). assert (1 <= n <= 3) as Hn by (unfold n; destruct Hst as [-> | [-> | ->]]; by vm_compute).
  rewrite (proj2 (Z.leb_le 1 n)), (proj2 (Z.leb_le n 3)) by lia. cbn [andb assert_]. rewrite lift_Ok.
  destruct (new_destination_fit f m s sf n Hs Hsf Hn Hf) as [Hfit Hnd].
  set (ops := [add_read RPC_SPECIAL_FACILITY_REQ (tatp_specfac_key s sf) (fr_obj f 0) (fr_un f 0)]).
  eapply (first_runs mp T idx coros HM tatp_T_ok self pkt w ops x m); [done| |done|done|filled|].
  { apply (fit m f); try done; [destruct Hfit as [Ha _ _ _ _]; apply Forall_cons in Ha as [Ha _]; by each|cbn; lia|apply NoDup_nil_2]. }
  intros [[ex x1] m1] s1 (Hk1 & Hl1 & Hpe1 & Hsh1 & Hres). cbn beta iota. destruct Hres as [[-> _]|(-> & vr & vw & _ & Hex1)].
  { unfold not_found. rewrite decide_True, lift_Ok by done. by apply (ends_rdonly mp T idx coros self pkt _ _ w None ops). }
  unfold not_found. rewrite decide_False by (by intros []). destruct (executed_slots mp T idx coros self pkt w ops x x1 m1 vr vw s1 Hex1) as [Sr Sw].
  apply Forall2_nil_inv_l in Sw as ->. apply Forall2_cons_inv_l in Sr as (v & vr' & Sv & Sr & ->). apply Forall2_nil_inv_l in Sr as ->.
  pose proof (objs_ext m m1 f Hl1 Hf) as Hf1. destruct (read_fac m1 _ _ v (frame_at m1 f 0 Hf1 ltac:(lia)) Sv) as ([fac|] & -> & Hr).
  2: { rewrite (no_row_size m1 _ Hr), bind_Ok, lift_Ok. by apply (ends_rdonly mp T idx coros self pkt _ _ w None ops). }
  destruct Hr as [Hfac Hrow]. destruct (fac_members m1 _ fac Hrow Hfac) as (-> & -> & ->). rewrite bind_Ok, !lift_Ok. cbn beta iota.
  destruct (Z.eqb_spec (is_active fac) 0) as [E0|E0]; [by apply (ends_rdonly mp T idx coros self pkt _ _ w None ops)|].
  destruct (new_destination_fit f m1 s sf n Hs Hsf Hn Hf1) as [Hfit1 _].
  eapply (next_runs mp T idx coros HM tatp_T_ok self pkt w ops (fwd_adds f s sf (seqZ 0 n)) x x1 m1); [done|exact Hex1|exact Hfit1| |].
  { intros x' E. rewrite add_callfwds_adds, E, lift_Ok. reflexivity. }
  intros [[ex x2] m2] s2 (Hk2 & Hl2 & Hpe2 & Hsh2 & Hres). cbn beta iota.
  assert (wslots (ops ++ fwd_adds f s sf (seqZ 0 n)) = []) as Hw by apply (proj2 (fwd_adds_slots f s sf (seqZ 0 n))).
  destruct Hres as [[-> _]|(-> & vr & vw & (nr & nw & -> & ->) & Hex)].
  { rewrite decide_True by done. apply (ends_rdonly mp T idx coros self pkt _ _ w None (ops ++ fwd_adds f s sf (seqZ 0 n))); try done. lia. }
  rewrite decide_False by (by intros []). destruct (executed_slots mp T idx coros self pkt w _ x x2 m2 _ _ s2 Hex) as [Sr Sw].
  rewrite Hw in Sw. apply Forall2_nil_inv_l in Sw. cbn [app] in Sw. subst nw. apply Forall2_cons in Sr as [_ Sr].
  pose proof (objs_ext m1 m2 f Hl2 Hf1) as Hf2. destruct (fwd_rows f s sf m2 (seqZ 0 n) nr Hnd) as (fw & -> & Hin & Hok); [|done|exact Sr|].
  { apply Forall_forall. intros i Hi%elem_of_seqZ. lia. }
  set (D := rows None None (Some fac) None fw). rewrite (check_callfwds_ok D f s sf st en m2 (seqZ 0 n)), lift_Ok by exact Hin. cbn [orb].
  destruct (existsb (forwards D s sf st en) (seqZ 0 n)) eqn:Ef.
  2: { apply (ends_rdonly mp T idx coros self pkt _ _ w None (ops ++ fwd_adds f s sf (seqZ 0 n))); try done. lia. }
  eapply (ends_commit w (Get_new_destination s sf st en) _ x m x2 m2 s2 m2 _ _ D D); [done|done|exact Hex| | | |done|lia|by rewrite Hw].
  - apply new_destination_made.
  - by apply rows_ok.
  - cbn [run_op]. fold n. rewrite Ef. cbn. by destruct (Z.eqb_spec (is_active fac) 0).
Qed.

Lemma run_txn_does ty f x m : tx_base x -> frame_ok m f -> behaves C pkt self (run_txn lr tp ty f x m) (txn_does x m).
Proof.
  destruct ty; [apply get_subscriber_data_behaves|apply get_access_data_behaves|apply get_new_destination_behaves|apply update_subscriber_data_behaves|
    apply update_location_behaves|apply insert_call_forwarding_behaves|apply delete_call_forwarding_behaves].
Qed.

(** ** The coroutine *)

Lemma tatp_workgen_length : match create_workgen_array with Ok arr => length arr = 100%nat | Err _ => False end.
Proof. reflexivity. Qed.

(** The transactions of a coroutine are those it counts as committed. *)
Lemma slave_loop_does arr fs : length arr = 100%nat -> forall x m sofar,
  tx_base x -> Forall (frame_ok m) fs ->
  behaves C pkt self (slave_loop lr tp arr fs x m sofar)
    (fun l ts => exists l', l = sofar ++ l' /\ length l' = length fs /\ Forall2 (does_op N) ts (done_ops l')).
Proof.
  intros Harr. induction fs as [|f fs IH]; intros x m sofar Hb Hfs; cbn [slave_loop].
  { apply behaves_done. exists []. by rewrite app_nil_r. }
  apply Forall_cons in Hfs as [Hf Hfs]. destruct (hrd_fastrand (fr_seed f)) as [r seed].
  assert (exists ty, at_ arr (r mod 100) = Ok ty) as (ty & ->).
  { pose proof (Z.mod_pos_bound r 100 ltac:(lia)) as Hr. destruct (lookup_lt_is_Some_2 arr (Z.to_nat (r mod 100))) as [ty Hty]; [lia|].
    exists ty. rewrite at_nonneg by lia. by rewrite Hty. }
  rewrite lift_Ok. eapply behaves_bind; [apply run_txn_does; [done|by destruct Hf]|].
  intros [[op x'] m'] t1 (Hk & Hl & Hts). eapply behaves_mono.
  { apply IH; [by eapply base_kin|]. eapply Forall_impl; [exact Hfs|]. intros f'. by apply objs_ext. }
  intros l t2 (l' & -> & El & Ht2). exists ((ty, op) :: l'). rewrite <- app_assoc. split; [done|]. split; [simpl; by rewrite El|].
  replace (done_ops ((ty, op) :: l')) with (option_list op ++ done_ops l') by (by destruct op). by apply Forall2_app.
Qed.

Lemma slave_func_does coro_id rec arr fs m :
  create_workgen_array = Ok arr -> Mappings.use_lock_server mp = false -> Mappings.num_machines mp <= HOTS_MAX_MACHINES ->
  1 <= coro_id < coros -> coros <= RPC_MAX_CORO -> Logger.sizeof_log_record_t <= Z.of_nat (length rec) ->
  self = int_rep (mk_crid coro_id (Mappings.wrkr_gid mp)) -> Forall (frame_ok m) fs ->
  behaves C pkt self (slave_func lr tp coro_id mp rec arr fs m)
    (fun l ts => length l = length fs /\ Forall2 (does_op N) ts (done_ops l)).
Proof.
  intros Harr Hls Hnm Hco Hcs Hrec Hself Hfs. unfold slave_func.
  assert (assert_ (negb (coro_id =? RPC_MASTER_CORO_ID)) = Ok tt) as ->.
  { change RPC_MASTER_CORO_ID with 0. by destruct (Z.eqb_spec coro_id 0); [lia|]. }
  rewrite lift_Ok. destruct (coro_base mp coros HM coro_id rec Hls Hnm Hco Hcs Hrec) as (x0 & -> & Hb).
  rewrite lift_Ok. rewrite <- Hself in Hb. pose proof tatp_workgen_length as Hw. rewrite Harr in Hw.
  eapply behaves_mono; [by apply (slave_loop_does arr fs Hw x0 m [])|]. intros l ts (l' & -> & H1 & H2). done.
Qed.

End Transactions.
End TatpTx.
