(* ===== verification/TatpStore.v ===== *)
(** * TATP on the cluster

    Coroutines that run TATP on the tables of a cluster: what they have done to the
    tables is what the specification does to a database, one transaction after another. *)

From S2P Require Import Prelude Util Random Hots Mappings FixedTable FixedTableInv FixedTableOps FixedTableSteps Datastore.
From S2P Require Import DatastoreSpec RpcDefs RpcBatch Logger Tx TxWorld TxMem TxSpec TxSystem TxSerial.
From S2P Require Import TxTransaction TxSession TxCluster TxApp TxStore TxClients Tatp TatpSpec TatpTx.
From Stdlib Require Import ZArith Lia Bool.
From stdpp Require Import base functions numbers sets list gmap relations.
#[local] Open Scope Z_scope.
Import FixedTable FixedTableInv FixedTableOps DatastoreSpec RpcDefs RpcBatch Tx TxWorld TxMem TxSpec TxSystem.
Import TxSerial TxTransaction TxSession TxCluster TxApp TxStore TxClients Tatp TatpSpec TatpTx.

Module TatpStore.

(** ** Definitions *)

Notation ledger := (list (tatp_txn_type_t * option tatp_op)).

(** The program of a coroutine. *)
Definition slave_prog (lr : bool) (tp : tatp) (ct : client frame) : prog ledger :=
  arr ← lift create_workgen_array;
  slave_func lr tp (ct_coro ct) (ct_mp ct) (ct_rec ct) arr (ct_frames ct) (ct_mem ct).

Section Deployment.
Context (lr : bool) (mp : Mappings.t) (tp : tatp) (idx : Z -> Z -> Z -> nat) (coros pkt : Z) (lid : nat -> Z).
Notation N := (subscriber_size tp).
Notation C := (cluster_of mp (tatp_types N) idx coros).

Definition slave_coro (ct : client frame) : coro ledger := client_coro (slave_prog lr tp) done_ops all_run (does_op N) ct.

Record running (cts : list (client frame)) (st : stores) : Prop := {
  rn_tatp : tatp_ok tp;
  rn_pkt : tatp_max_pkt_size <= pkt;
  rn_deployed : deployed mp (tatp_types N) idx coros frame_ok cts st
}.

(** ** Lemmas *)

Lemma slave_honest :
  tatp_ok tp -> tatp_max_pkt_size <= pkt -> honest (tatp_types N) idx coros pkt (slave_prog lr tp) done_ops all_run (does_op N) frame_ok.
Proof.
  intros Ht Hpkt ct HM Hls Hnm Hco Hcs Hrec Hfr. unfold slave_prog. destruct create_workgen_array as [arr|] eqn:Ea; [|done].
  rewrite lift_Ok. by apply slave_func_does.
Qed.

(** Tables whose rows are in order hold a database. *)
Lemma tables_hold w : tatp_ok tp -> peaceful C w -> represents (db C w) (db_of (db C w)) /\ complete N (db_of (db C w)).
Proof.
  intros [HN _ _] (_ & Hp & _). change TATP_MAX_SUBSCRIBERS with 1000000000 in HN.
  assert (forall ty k, is_tatp ty -> value_ok N ty k (db C w ty k)) as Hv by (intros ty k Hty; by apply Hp, prim_tatp).
  destruct (table_rows (R := tatp_sub_val_t) (db C w)) as [S1 E1].
  { intros k x E. destruct (Hv RPC_SUBSCRIBER_REQ k (@row_is_tatp _ sub_row)) as [_ H]. destruct (H x E) as (r & -> & Hr & _). by exists r. }
  destruct (table_rows (R := tatp_sec_sub_val_t) (db C w)) as [S2 E2].
  { intros k x E. destruct (Hv RPC_SEC_SUBSCRIBER_REQ k (@row_is_tatp _ sec_row)) as [_ H]. exact (H x E). }
  destruct (table_rows (R := tatp_specfac_val_t) (db C w)) as [S3 E3]; [intros k; exact (Hv _ k (@row_is_tatp _ fac_row))|].
  destruct (table_rows (R := tatp_accinf_val_t) (db C w)) as [S4 E4]; [intros k; exact (Hv _ k (@row_is_tatp _ acc_row))|].
  destruct (table_rows (R := tatp_callfwd_val_t) (db C w)) as [S5 E5]; [intros k; exact (Hv _ k (@row_is_tatp _ fwd_row))|].
  split; [split; [by split|]|split].
  - intros ty k [-> | [-> | [-> | [-> | ->]]]]; [apply E1|apply E2|apply E3|apply E4|apply E5].
  - intros s Hs. destruct (Hv RPC_SUBSCRIBER_REQ s (@row_is_tatp _ sub_row)) as [H H']. destruct (keys_ok s 0 0) as (-> & _); [unfold u; lia..|].
    destruct (H Hs) as (r0 & E0 & _). destruct (H' _ E0) as (r & E & Hr & Hn). exists r. cbn [db_of d_sub]. rewrite E0, E. cbn [fmap option_fmap option_map].
    rewrite (proj1 (sub_of_bytes r Hr)). auto.
  - intros s Hs. destruct (Hv RPC_SEC_SUBSCRIBER_REQ (nbr_of s) (@row_is_tatp _ sec_row)) as [H _]. destruct (H s Hs eq_refl) as (r & E & Hr & Es).
    exists r. cbn [db_of d_sec]. unfold tatp_sec_sub_key. rewrite E. cbn [fmap option_fmap option_map]. by rewrite (proj1 (sec_of_bytes r Hr)).
Qed.

(** ** Theorems *)

Notation csys := (csys C pkt ledger lid).
Notation begun cts := (begins C pkt ledger (map slave_coro cts)).

(** C7: TATP is a database.  Any number of coroutines of any workers run any number of
    TATP transactions, of random types with random parameters, on replicated tables.
    When all have ended there is an order of the transactions they count as committed,
    which keeps the order of those of each coroutine, in which the database that the
    tables held at the beginning can run them one after another, each as its
    specification says: so a lookup or an insertion counts as committed only if the
    database at its place in the order allows it.  The tables hold the database that
    results; and if at the beginning every call forwarding was for a special facility
    that the subscriber has, then so it is at the end. *)
Theorem tatp_serializable cts st s0 st' ths tr :
  running cts st -> begun cts st s0 -> rtc csys s0 (st', ths, tr) ->
  Forall (fun th => exists l w1 tr1, th = T_end _ l w1 tr1) ths ->
  exists (order : list (nat * tatp_op)) D',
    (forall i ct th, cts !! i = Some ct -> ths !! i = Some th ->
       exists l w1 tr1, th = T_end _ l w1 tr1 /\ length l = length (ct_frames ct) /\ of_coro i order = done_ops l) /\
    Forall (fun x => x.1 < length cts)%nat order /\
    run_ops order.*2 (db_of (db C (contents C st))) = Some D' /\ represents (db C (contents C st')) D' /\
    (sound N (db_of (db C (contents C st))) -> sound N D').
Proof.
  intros [Ht Hpkt Hdp] Hb Hrun Hend.
  destruct (clients_serializable mp (tatp_types N) idx coros pkt lid _ _ _ _ _ (slave_honest Ht Hpkt) cts st s0 st' ths tr Hdp Hb Hrun Hend)
    as (ts & order & Hled & Hlt & Hops & Hv & Hf).
  destruct (tatp_ops_refine N _ _ Hops (db C (contents C st)) (db_of (db C (contents C st))) Hv) as (D' & Hrun' & [HD Hrep]).
  { apply tables_hold; [done|]. apply (dp_rest _ _ _ _ _ cts st Hdp). }
  exists order, D'. split; [done|]. split; [done|]. split; [done|]. split.
  - split; [done|]. intros ty k Hty. rewrite <- Hrep by done. symmetry. by apply Hf, prim_tatp.
  - apply (run_ops_sound N order.*2); [apply Ht| |done]. clear -Hops. induction Hops as [|t op ts ops [H _] _ IH]; by constructor.
Qed.

(** C8: TATP never fails an assertion.  In every state that its coroutines can reach,
    none has failed an assertion, of the transaction library or on the magic numbers and
    results that the application checks: so a read of the secondary index or of the
    access information never aborts, and an update of a subscriber that has been locked
    commits.  Requests are answered unless a table has no free buckets; and at every
    moment the tables hold a database in which every subscriber has a row with its number
    and an entry of the secondary index that leads to it, and the backups of what is not
    locked hold what the primaries hold. *)
Theorem tatp_safe cts st s0 st' ths tr :
  running cts st -> begun cts st s0 -> rtc csys s0 (st', ths, tr) ->
  (forall i e, ths !! i <> Some (T_fault _ e)) /\
  (forall i ps k n q, ths !! i = Some (T_wait _ ps k) -> ps !! n = Some (q, None) ->
     (exists r st'', handles C (lid i) st' q r st'') \/ full st' q) /\
  represents (db C (contents C st')) (db_of (db C (contents C st'))) /\ complete N (db_of (db C (contents C st'))) /\
  synced C (contents C st').
Proof.
  intros [Ht Hpkt Hdp] Hb Hrun.
  destruct (clients_safe mp (tatp_types N) idx coros pkt lid _ _ _ _ _ (slave_honest Ht Hpkt) cts st s0 st' ths tr Hdp Hb Hrun) as (H1 & H2 & H3 & H4).
  destruct (tables_hold _ Ht H3) as [H5 H6]. done.
Qed.


End Deployment.
End TatpStore.
