(* ===== verification/TatpPopulate.v ===== *)
(** * TATP: population

    The workers insert the rows of all subscribers into the tables of their machines, with
    random members and random choices of facilities that are the same for all workers.
    However their insertions interleave, the tables then hold a database that is sound and
    replicated, and transactions can begin. *)

From S2P Require Import Prelude Util City Random Hots Mappings FixedTable FixedTableInv FixedTableOps FixedTableInit FixedTableSteps.
From S2P Require Import Datastore DatastoreSpec RpcDefs Tx TxWorld TxSpec TxSerial TxSession TxCluster TxStore TxPopulate.
From S2P Require Import Tatp TatpSpec TatpTx TatpStore.
From Stdlib Require Import ZArith Lia Bool.
From stdpp Require Import base functions numbers sets list gmap relations.
#[local] Open Scope Z_scope.
Import FixedTable FixedTableInv FixedTableOps FixedTableInit DatastoreSpec RpcDefs Tx TxWorld TxSpec TxSerial TxSession TxCluster TxStore.
Import TxPopulate Tatp TatpSpec TatpTx TatpStore.

Module TatpPopulate.

#[local] Opaque hrd_fastrand select_between_n_and_m_from.

(** ** Definitions *)

(** The tables of a machine. *)
Definition tables_of (nr mn : Z) (st : stores) : tables :=
  mk_tables (replicas_of nr mn RPC_SUBSCRIBER_REQ st) (replicas_of nr mn RPC_SEC_SUBSCRIBER_REQ st) (replicas_of nr mn RPC_SPECIAL_FACILITY_REQ st)
    (replicas_of nr mn RPC_ACCESS_INFO_REQ st) (replicas_of nr mn RPC_CALL_FORWARDING_REQ st).

(** The rows that the loops of the population go over, in their order. *)
Section Entries.
Context (raw : Z -> Z -> list byte).

Fixpoint sub_entries (s_ids : list Z) (seed : Z) : list tab_entry :=
  match s_ids with
  | [] => []
  | s :: s_ids =>
      match new_sub_val raw s seed with
      | Ok (v, seed) => (RPC_SUBSCRIBER_REQ, tatp_sub_key s, sub_bytes v) :: sub_entries s_ids seed
      | Err _ => []
      end
  end.

Definition sec_entry (s : Z) : tab_entry :=
  let key := tatp_sec_sub_key (nbr_of s) in (RPC_SEC_SUBSCRIBER_REQ, key, sec_bytes (new_sec_val raw key s)).

Definition acc_entry (s ai : Z) : tab_entry :=
  let key := tatp_accinf_key s ai in (RPC_ACCESS_INFO_REQ, key, accinf_bytes (new_accinf_val raw key)).
Fixpoint acc_entries (s_ids : list Z) (seed : Z) : list tab_entry :=
  match s_ids with
  | [] => []
  | s :: s_ids =>
      match select_between_n_and_m_from seed ai_type_values 1 4 with
      | Ok (vec, seed) => map (acc_entry s) vec ++ acc_entries s_ids seed
      | Err _ => []
      end
  end.

Fixpoint fwd_entries (s sf : Z) (starts : list Z) (seed : Z) : list tab_entry * Z :=
  match starts with
  | [] => ([], seed)
  | st :: starts =>
      let '(r, seed) := hrd_fastrand seed in
      if r mod 2 =? 0 then fwd_entries s sf starts seed
      else
        let key := tatp_callfwd_key s sf st in
        let '(r, seed) := hrd_fastrand seed in
        let '(es, seed) := fwd_entries s sf starts seed in
        ((RPC_CALL_FORWARDING_REQ, key, callfwd_bytes (new_callfwd_val raw key r)) :: es, seed)
  end.
Fixpoint fac_entries (s : Z) (vec : list Z) (seed : Z) : list tab_entry * Z :=
  match vec with
  | [] => ([], seed)
  | sf :: vec =>
      let key := tatp_specfac_key s sf in
      let '(r, seed) := hrd_fastrand seed in
      let '(fwds, seed) := fwd_entries s sf [0; 8; 16] seed in
      let '(es, seed) := fac_entries s vec seed in
      ((RPC_SPECIAL_FACILITY_REQ, key, specfac_bytes (new_specfac_val raw key r)) :: fwds ++ es, seed)
  end.
Fixpoint facs_entries (s_ids : list Z) (seed : Z) : list tab_entry :=
  match s_ids with
  | [] => []
  | s :: s_ids =>
      match select_between_n_and_m_from seed sf_type_values 1 4 with
      | Ok (vec, seed) => let '(es, seed) := fac_entries s vec seed in es ++ facs_entries s_ids seed
      | Err _ => []
      end
  end.

Definition tatp_entries (N : Z) : list tab_entry :=
  let s_ids := seqZ 0 N in
  sub_entries s_ids initial_seed ++ map sec_entry s_ids ++ acc_entries s_ids initial_seed ++ facs_entries s_ids initial_seed.

(** The loads of a worker, in its order: the replicas of a row one after another. *)
Definition worker_loads (nr N : Z) : list load := flat_map (entry_loads nr) (tatp_entries N).
End Entries.

(** Memory that the population does not initialise holds some bytes. *)
Definition raw_ok (raw : Z -> Z -> list byte) : Prop :=
  forall ty k, is_tatp ty -> Z.of_nat (length (raw ty k)) = tatp_vsz ty /\ Forall (u 8) (raw ty k).

(** ** A worker's program *)

Section Worker.
Context (raw : Z -> Z -> list byte) (mp : Mappings.t) (nr : Z) (Hnr : 0 <= nr <= 10) (Hmp : Mappings.num_replicas mp = nr).
Notation mn := (Mappings.machine_id mp).

(** Loads change the tables of their types only. *)
Notation typed P := (Forall (fun e : tab_entry => P e.1.1)).

Lemma run_others ty' es st st' :
  typed is_tatp es -> is_tatp ty' -> typed (fun ty => ty <> ty') es -> run_worker true mp (flat_map (entry_loads nr) es) st = Ok st' ->
  replicas_of nr mn ty' st' = replicas_of nr mn ty' st.
Proof.
  intros Hes Hty' Hne. revert st. induction es as [|[[ty k] v] es IH]; intros st H; [by injection H as <-|].
  apply Forall_cons_1 in Hes as [Hty Hes]. apply Forall_cons_1 in Hne as [Hne' Hne]. cbn [fst] in Hty, Hne'.
  cbn [flat_map] in H. rewrite run_worker_app in H. apply bind_ok in H as (st1 & H1 & H). rewrite (IH Hes Hne st1 H). unfold entry_loads in H1. cbn [fst snd] in H1.
  assert (Forall (fun r => 0 <= r < nr) (seqZ 0 nr)) as Hr by (apply Forall_forall; intros r Hr%elem_of_seqZ; lia). revert H1. clear -Hty Hty' Hne' Hr Hnr. revert st.
  induction Hr as [|r rs Hr _ IH]; intros st H; [by injection H as <-|]. cbn [map run_worker] in H. apply bind_ok in H as (st2 & H2 & H).
  rewrite (IH st2 H). apply (load_others true mp nr ty ty' r k v); [|done|done].
  unfold is_tatp, RPC_SUBSCRIBER_REQ, RPC_SEC_SUBSCRIBER_REQ, RPC_SPECIAL_FACILITY_REQ, RPC_ACCESS_INFO_REQ, RPC_CALL_FORWARDING_REQ in *. lia.
Qed.

Lemma part_others ty ty' es st st' :
  is_tatp ty -> is_tatp ty' -> ty' <> ty -> typed (fun ty0 => ty0 = ty) es -> run_worker true mp (flat_map (entry_loads nr) es) st = Ok st' ->
  replicas_of nr mn ty' st' = replicas_of nr mn ty' st.
Proof.
  intros Hty Hty' Hne Hes. apply run_others; [|done|]; apply (Forall_impl _ _ _ Hes); intros e E; rewrite E; [done|congruence].
Qed.

(** The loops, as loads of their rows. *)
Notation sids_ok := (Forall (fun s => 0 <= s < TATP_MAX_SUBSCRIBERS)).

Lemma new_sub_ok s seed : 0 <= s < TATP_MAX_SUBSCRIBERS -> exists v seed', new_sub_val raw s seed = Ok (v, seed').
Proof.
  intros Hs. unfold new_sub_val. rewrite from_sid_ok, bind_Ok by done. repeat (destruct (draw_bytes _ _) as [? ?]; cbn beta iota).
  repeat (destruct (hrd_fastrand _) as [? ?]; cbn beta iota). by do 2 eexists.
Qed.

Lemma populate_subscribers_rows s_ids : sids_ok s_ids -> forall seed tbl,
  populate_subscribers raw mp s_ids seed tbl = load_rows true mp (sub_entries raw s_ids seed) tbl.
Proof.
  induction 1 as [|s s_ids Hs _ IH]; intros seed tbl; [done|]. cbn [populate_subscribers sub_entries].
  destruct (new_sub_ok s seed Hs) as (v & seed' & E). rewrite E, bind_Ok. cbn [load_rows].
  change (Tatp.load_all mp) with (TxPopulate.load_all true mp). destruct (TxPopulate.load_all true mp (tatp_sub_key s) (sub_bytes v) tbl); [|done]. rewrite !bind_Ok. apply IH.
Qed.

Lemma populate_secondaries_rows s_ids : sids_ok s_ids -> forall tbl,
  populate_secondaries raw mp s_ids tbl = load_rows true mp (map (sec_entry raw) s_ids) tbl.
Proof.
  induction 1 as [|s s_ids Hs _ IH]; intros tbl; [done|]. cbn [populate_secondaries map sec_entry load_rows]. rewrite from_sid_ok, bind_Ok by done.
  change (Tatp.load_all mp) with (TxPopulate.load_all true mp). destruct (TxPopulate.load_all true mp _ _ tbl); [|done]. rewrite !bind_Ok. apply IH.
Qed.

Lemma load_accinfs_rows s vec tbl : load_accinfs raw mp s vec tbl = load_rows true mp (map (acc_entry raw s) vec) tbl.
Proof.
  revert tbl. induction vec as [|ai vec IH]; intros tbl; [done|]. cbn [load_accinfs map acc_entry load_rows].
  change (Tatp.load_all mp) with (TxPopulate.load_all true mp). destruct (TxPopulate.load_all true mp _ _ tbl); [|done]. rewrite !bind_Ok. apply IH.
Qed.

(** The facilities drawn for a subscriber. *)
Lemma types_drawn seed : exists vec seed', select_between_n_and_m_from seed [1; 2; 3; 4] 1 4 = Ok (vec, seed') /\
  NoDup vec /\ Forall sf_ok vec /\ (1 <= length vec <= 4)%nat.
Proof.
  destruct (select_ok [1; 2; 3; 4]) with (N := 1) (seed := seed) as (vec & seed' & E & Hnd & Hin & Hl); [done|..|lia|].
  - by apply (bool_decide_unpack _).
  - repeat constructor; lia.
  - exists vec, seed'. split; [done|]. split; [done|]. split; [|lia]. apply (Forall_impl _ _ _ Hin). intros v Hv. unfold sf_ok.
    rewrite !elem_of_cons, elem_of_nil in Hv. lia.
Qed.

Lemma populate_accinfs_rows s_ids : forall seed tbl,
  populate_accinfs raw mp s_ids seed tbl = load_rows true mp (acc_entries raw s_ids seed) tbl.
Proof.
  induction s_ids as [|s s_ids IH]; intros seed tbl; [done|]. cbn [populate_accinfs acc_entries]. unfold ai_type_values.
  destruct (types_drawn seed) as (vec & seed' & -> & _). rewrite bind_Ok, load_accinfs_rows, load_rows_app.
  destruct (load_rows true mp (map _ vec) tbl); [|done]. rewrite !bind_Ok. apply IH.
Qed.

Lemma load_callfwds_rows s sf starts seed tbl :
  load_callfwds raw mp s sf starts seed tbl =
    tbl ← load_rows true mp (fwd_entries raw s sf starts seed).1 tbl; Ok ((fwd_entries raw s sf starts seed).2, tbl).
Proof.
  revert seed tbl. induction starts as [|st starts IH]; intros seed tbl; [done|]. cbn [load_callfwds fwd_entries].
  destruct (hrd_fastrand seed) as [r seed1]. destruct (r mod 2 =? 0); [apply IH|]. destruct (hrd_fastrand seed1) as [r' seed2].
  destruct (fwd_entries raw s sf starts seed2) as [es seed3] eqn:E. cbn [fst snd load_rows].
  change (Tatp.load_all mp) with (TxPopulate.load_all true mp). destruct (TxPopulate.load_all true mp _ _ tbl) as [tbl'|]; [|done]. rewrite !bind_Ok, IH, E. done.
Qed.

Lemma fwd_entries_type s sf starts seed : typed (fun ty => ty = RPC_CALL_FORWARDING_REQ) (fwd_entries raw s sf starts seed).1.
Proof.
  revert seed. induction starts as [|st starts IH]; intros seed; cbn [fwd_entries]; [apply Forall_nil_2|].
  destruct (hrd_fastrand seed) as [r seed1]. destruct (r mod 2 =? 0); [apply IH|]. destruct (hrd_fastrand seed1) as [r' seed2].
  specialize (IH seed2). destruct (fwd_entries raw s sf starts seed2) as [es seed3]. by constructor.
Qed.

Notation fac_tab st := (replicas_of nr mn RPC_SPECIAL_FACILITY_REQ st).
Notation fwd_tab st := (replicas_of nr mn RPC_CALL_FORWARDING_REQ st).

Lemma load_specfacs_runs s vec seed st :
  load_specfacs raw mp s vec seed (fac_tab st) (fwd_tab st) =
    st' ← run_worker true mp (flat_map (entry_loads nr) (fac_entries raw s vec seed).1) st; Ok ((fac_entries raw s vec seed).2, fac_tab st', fwd_tab st').
Proof.
  revert seed st. induction vec as [|sf vec IH]; intros seed st; [done|]. cbn [load_specfacs fac_entries].
  destruct (hrd_fastrand seed) as [r seed1]. pose proof (fwd_entries_type s sf [0; 8; 16] seed1) as Hty.
  pose proof (load_callfwds_rows s sf [0; 8; 16] seed1) as Efwd. destruct (fwd_entries raw s sf [0; 8; 16] seed1) as [fwds seed2]. cbn [fst snd] in Hty, Efwd.
  specialize (IH seed2). destruct (fac_entries raw s vec seed2) as [es seed3]. cbn [fst snd] in IH |- *.
  change (Tatp.load_all mp) with (TxPopulate.load_all true mp). rewrite (load_all_runs true mp nr) by done. cbn [flat_map]. rewrite flat_map_app, !run_worker_app.
  set (e := (RPC_SPECIAL_FACILITY_REQ, tatp_specfac_key s sf, specfac_bytes (new_specfac_val raw (tatp_specfac_key s sf) r))).
  destruct (run_worker true mp (entry_loads nr e) st) as [st1|] eqn:E1; [|done]. rewrite !bind_Ok.
  assert (fwd_tab st1 = fwd_tab st) as <-.
  { apply (part_others RPC_SPECIAL_FACILITY_REQ _ [e]); [apply (@row_is_tatp _ fac_row)|apply (@row_is_tatp _ fwd_row)|done|by repeat constructor|].
    cbn [flat_map]. by rewrite app_nil_r. }
  rewrite Efwd, (load_rows_runs true mp nr RPC_CALL_FORWARDING_REQ) by done. rewrite run_worker_app. destruct (run_worker true mp (flat_map (entry_loads nr) fwds) st1) as [st2|] eqn:E2; [|done].
  rewrite !bind_Ok. rewrite <- (part_others RPC_CALL_FORWARDING_REQ RPC_SPECIAL_FACILITY_REQ fwds st1 st2); [apply IH|..|done]; try done; [apply (@row_is_tatp _ fwd_row)|apply (@row_is_tatp _ fac_row)].
Qed.

Lemma facs_entries_type s_ids seed :
  typed (fun ty => ty = RPC_SPECIAL_FACILITY_REQ \/ ty = RPC_CALL_FORWARDING_REQ) (facs_entries raw s_ids seed).
Proof.
  revert seed. induction s_ids as [|s s_ids IH]; intros seed; cbn [facs_entries]; [apply Forall_nil_2|].
  destruct (select_between_n_and_m_from seed sf_type_values 1 4) as [[vec seed']|]; [|apply Forall_nil_2].
  assert (forall seed, typed (fun ty => ty = RPC_SPECIAL_FACILITY_REQ \/ ty = RPC_CALL_FORWARDING_REQ) (fac_entries raw s vec seed).1) as H.
  { clear. induction vec as [|sf vec IH]; intros seed; cbn [fac_entries]; [apply Forall_nil_2|]. destruct (hrd_fastrand seed) as [r seed1].
    pose proof (fwd_entries_type s sf [0; 8; 16] seed1) as Hf. destruct (fwd_entries raw s sf [0; 8; 16] seed1) as [fwds seed2].
    specialize (IH seed2). destruct (fac_entries raw s vec seed2) as [es seed3]. constructor; [by left|]. apply Forall_app_2; [|done].
    apply (Forall_impl _ _ _ Hf). by right. }
  specialize (H seed'). destruct (fac_entries raw s vec seed') as [es seed2]. by apply Forall_app_2.
Qed.

Lemma populate_specfacs_runs s_ids : forall seed st,
  populate_specfacs raw mp s_ids seed (fac_tab st) (fwd_tab st) =
    st' ← run_worker true mp (flat_map (entry_loads nr) (facs_entries raw s_ids seed)) st; Ok (fac_tab st', fwd_tab st').
Proof.
  induction s_ids as [|s s_ids IH]; intros seed st; [done|]. cbn [populate_specfacs facs_entries]. unfold sf_type_values.
  destruct (types_drawn seed) as (vec & seed' & -> & _). rewrite bind_Ok, load_specfacs_runs.
  destruct (fac_entries raw s vec seed') as [es seed2]. cbn [fst snd]. rewrite flat_map_app, run_worker_app.
  destruct (run_worker true mp _ st) as [st1|]; [|done]. rewrite !bind_Ok. apply IH.
Qed.

(** The rows of a part have its type. *)
Lemma part_types N :
  typed (fun ty => ty = RPC_SUBSCRIBER_REQ) (sub_entries raw (seqZ 0 N) initial_seed) /\
  typed (fun ty => ty = RPC_SEC_SUBSCRIBER_REQ) (map (sec_entry raw) (seqZ 0 N)) /\
  typed (fun ty => ty = RPC_ACCESS_INFO_REQ) (acc_entries raw (seqZ 0 N) initial_seed).
Proof.
  generalize (seqZ 0 N) as l, initial_seed as seed. intros l seed. split_and!; revert seed; induction l as [|s l IH]; intros seed; try apply Forall_nil_2.
  - cbn [sub_entries]. destruct (new_sub_val raw s seed) as [[v seed']|]; [|apply Forall_nil_2]. by constructor.
  - cbn [map]. constructor; [done|]. by apply IH.
  - cbn [acc_entries]. destruct (select_between_n_and_m_from seed ai_type_values 1 4) as [[vec seed']|]; [|apply Forall_nil_2].
    apply Forall_app_2; [|apply IH]. apply Forall_forall. intros e (ai & -> & _)%list_elem_of_fmap. done.
Qed.

(** The program of a worker runs its loads one after another. *)
Lemma populate_all_runs tp st :
  tatp_ok tp -> populate_all_tables raw mp tp (tables_of nr mn st) =
    st' ← run_worker true mp (worker_loads raw nr (subscriber_size tp)) st; Ok (tables_of nr mn st').
Proof.
  intros [HN _ _]. assert (sids_ok (seqZ 0 (subscriber_size tp))) as Hs by (apply Forall_forall; intros s Hs%elem_of_seqZ; lia).
  destruct (part_types (subscriber_size tp)) as (T1 & T2 & T3). unfold populate_all_tables, worker_loads, tatp_entries. cbv zeta. rewrite !flat_map_app, !run_worker_app.
  unfold tables_of. cbn [subscriber_table sec_subscriber_table access_info_table special_facility_table call_forwarding_table].
  unfold populate_subscriber_table. rewrite populate_subscribers_rows, (load_rows_runs true mp nr RPC_SUBSCRIBER_REQ) by done.
  destruct (run_worker true mp _ st) as [st1|] eqn:E1; [|done]. rewrite !bind_Ok, run_worker_app.
  pose proof (fun ty' H H' => part_others _ ty' _ _ _ (@row_is_tatp _ sub_row) H H' T1 E1) as O1.
  rewrite <- !O1 by (done || unfold is_tatp; auto 6).
  unfold populate_secondary_subscriber_table. rewrite populate_secondaries_rows, (load_rows_runs true mp nr RPC_SEC_SUBSCRIBER_REQ) by done.
  destruct (run_worker true mp _ st1) as [st2|] eqn:E2; [|done]. rewrite !bind_Ok, run_worker_app.
  pose proof (fun ty' H H' => part_others _ ty' _ _ _ (@row_is_tatp _ sec_row) H H' T2 E2) as O2.
  rewrite <- !O2 by (done || unfold is_tatp; auto 6).
  unfold populate_access_info_table. rewrite populate_accinfs_rows, (load_rows_runs true mp nr RPC_ACCESS_INFO_REQ) by done.
  destruct (run_worker true mp _ st2) as [st3|] eqn:E3; [|done]. rewrite !bind_Ok.
  pose proof (fun ty' H H' => part_others _ ty' _ _ _ (@row_is_tatp _ acc_row) H H' T3 E3) as O3.
  rewrite <- !O3 by (done || unfold is_tatp; auto 6).
  unfold populate_specfac_and_callfwd_table. rewrite populate_specfacs_runs.
  destruct (run_worker true mp _ st3) as [st4|] eqn:E4; [|done]. rewrite !bind_Ok.
  pose proof (facs_entries_type (seqZ 0 (subscriber_size tp)) initial_seed) as T4.
  assert (forall ty, is_tatp ty -> ty <> RPC_SPECIAL_FACILITY_REQ -> ty <> RPC_CALL_FORWARDING_REQ -> replicas_of nr mn ty st4 = replicas_of nr mn ty st3) as O4.
  { intros ty Hty H1 H2. apply (run_others ty) in E4; [done|..|done|]; apply (Forall_impl _ _ _ T4); intros e He; unfold is_tatp; naive_solver. }
  rewrite <- !O4 by (done || unfold is_tatp; auto 6). done.
Qed.
End Worker.

Lemma worker_all_loads raw nr N : worker_loads raw nr N ≡ₚ all_loads nr (tatp_entries raw N).
Proof. apply entries_all_loads. Qed.

(** ** The rows *)

(** A row of subscriber [s]. *)
Inductive row_for (s : Z) : tab_entry -> Prop :=
| F_sub v : sub_ok v -> sub_nbr v = nbr_of s -> row_for s (RPC_SUBSCRIBER_REQ, tatp_sub_key s, sub_bytes v)
| F_sec v : sec_ok v -> sec_s_id v = s -> row_for s (RPC_SEC_SUBSCRIBER_REQ, tatp_sec_sub_key (nbr_of s), sec_bytes v)
| F_acc ai v : sf_ok ai -> acc_ok v -> row_for s (RPC_ACCESS_INFO_REQ, tatp_accinf_key s ai, accinf_bytes v)
| F_fac sf v : sf_ok sf -> fac_ok v -> row_for s (RPC_SPECIAL_FACILITY_REQ, tatp_specfac_key s sf, specfac_bytes v)
| F_fwd sf st v : sf_ok sf -> start_ok st -> fwd_ok v -> row_for s (RPC_CALL_FORWARDING_REQ, tatp_callfwd_key s sf st, callfwd_bytes v).

Notation sid_ok s := (0 <= s < TATP_MAX_SUBSCRIBERS).

Lemma acc_key_inj s t s' t' :
  sid_ok s -> sf_ok t -> sid_ok s' -> sf_ok t' -> tatp_accinf_key s t = tatp_accinf_key s' t' -> s = s' /\ t = t'.
Proof.
  unfold sf_ok. change TATP_MAX_SUBSCRIBERS with 1000000000. intros Hs Ht Hs' Ht'.
  destruct (keys_ok s t 0) as (_ & -> & _); [unfold u; lia..|]. destruct (keys_ok s' t' 0) as (_ & -> & _); [unfold u; lia..|]. lia.
Qed.

Lemma fac_key_inj s t s' t' :
  sid_ok s -> sf_ok t -> sid_ok s' -> sf_ok t' -> tatp_specfac_key s t = tatp_specfac_key s' t' -> s = s' /\ t = t'.
Proof. exact (acc_key_inj s t s' t'). Qed.

(** The key of a row tells the subscriber. *)
Lemma row_for_inj s s' e e' : sid_ok s -> sid_ok s' -> row_for s e -> row_for s' e' -> e.1 = e'.1 -> s = s'.
Proof.
  intros Hs Hs' He He'. destruct He, He'; cbn [fst]; intros E; try discriminate E; injection E as E.
  - destruct (keys_ok s 0 0) as (E1 & _); [unfold u; change TATP_MAX_SUBSCRIBERS with 1000000000 in *; lia..|].
    destruct (keys_ok s' 0 0) as (E2 & _); [unfold u; change TATP_MAX_SUBSCRIBERS with 1000000000 in *; lia..|]. congruence.
  - by apply (dec_word_inj 9).
  - by apply acc_key_inj in E as [? _].
  - by apply fac_key_inj in E as [? _].
  - by apply (fwd_key_inj TATP_MAX_SUBSCRIBERS) in E as [? _].
Qed.

(** What the length of a row is, and the range of its key. *)
Lemma row_for_ok s e :
  sid_ok s -> row_for s e -> is_tatp e.1.1 /\ 0 <= e.1.2 < kFtInvalidKey /\ Z.of_nat (length e.2) = tatp_vsz e.1.1.
Proof.
  change kFtInvalidKey with (2 ^ 64 - 1). change TATP_MAX_SUBSCRIBERS with 1000000000. intros Hs He. destruct He as [v H _|v H _|ai v Ha H|sf v Hf H|sf st v Hf Ht H]; cbn [fst snd].
  - destruct (keys_ok s 0 0) as (-> & _); [unfold u; lia..|]. split; [apply (@row_is_tatp _ sub_row)|]. split; [lia|]. by rewrite (proj2 (sub_of_bytes v H)).
  - split; [apply (@row_is_tatp _ sec_row)|]. split; [|by rewrite (proj2 (sec_of_bytes v H))]. pose proof (nbr_range s). unfold u, tatp_sec_sub_key in *. lia.
  - unfold sf_ok in Ha. destruct (keys_ok s ai 0) as (_ & -> & _); [unfold u; lia..|]. split; [apply (@row_is_tatp _ acc_row)|]. split; [lia|]. by rewrite (proj2 (acc_of_bytes v H)).
  - unfold sf_ok in Hf. destruct (keys_ok s sf 0) as (_ & _ & -> & _); [unfold u; lia..|]. split; [apply (@row_is_tatp _ fac_row)|]. split; [lia|]. by rewrite (proj2 (fac_of_bytes v H)).
  - unfold sf_ok, start_ok in *. destruct (keys_ok s sf st) as (_ & _ & _ & ->); [unfold u; lia..|]. split; [apply (@row_is_tatp _ fwd_row)|]. split; [lia|]. by rewrite (proj2 (fwd_of_bytes v H)).
Qed.

(** Rows of some subscribers, each under a key of its own. *)
Record rows_for (s_ids : list Z) (es : list tab_entry) : Prop := {
  rf_nodup : NoDup es.*1;
  rf_row e : e ∈ es -> exists s, s ∈ s_ids /\ row_for s e;
  rf_count : (length es <= 16 * length s_ids)%nat
}.

Lemma rows_for_nil : rows_for [] [].
Proof. split; [apply NoDup_nil_2|by intros e ?%elem_of_nil|done]. Qed.

Lemma rows_for_cons s s_ids b es :
  NoDup (s :: s_ids) -> Forall (fun s => sid_ok s) (s :: s_ids) -> NoDup b.*1 -> Forall (row_for s) b -> (length b <= 16)%nat ->
  rows_for s_ids es -> rows_for (s :: s_ids) (b ++ es).
Proof.
  intros [Hn Hnd]%NoDup_cons [Hs Hss]%Forall_cons Hb Hrow Hlen [H1 H2 H3]. rewrite Forall_forall in Hss. rewrite Forall_forall in Hrow. split.
  - rewrite fmap_app. apply NoDup_app. split; [done|]. split; [|done]. intros tk (e & -> & He)%list_elem_of_fmap (e' & E & He')%list_elem_of_fmap.
    destruct (H2 e' He') as (s' & Hs' & Hr'). apply Hn. by rewrite (row_for_inj s s' e e' Hs (Hss s' Hs') (Hrow e He) Hr' E).
  - intros e [He|He]%elem_of_app; [exists s; split; [by left|by apply Hrow]|]. destruct (H2 e He) as (s' & Hs' & Hr). exists s'. split; [by right|done].
  - rewrite length_app. cbn [length]. lia.
Qed.

Section Rows.
Context (raw : Z -> Z -> list byte) (Hraw : raw_ok raw).

Lemma raw_part_length ty k off n : is_tatp ty -> Z.of_nat off + Z.of_nat n <= tatp_vsz ty -> length (raw_part raw ty k off n) = n.
Proof. intros Hty Hn. destruct (Hraw ty k Hty) as [Hl _]. unfold raw_part. rewrite length_take, length_drop. unfold byte in *. lia. Qed.

Lemma raw_byte ty k off : is_tatp ty -> Z.of_nat off < tatp_vsz ty -> u 8 (le_val (raw_part raw ty k off 1)).
Proof.
  intros Hty Hn. pose proof (raw_part_length ty k off 1 Hty ltac:(lia)) as Hl. destruct (Hraw ty k Hty) as [_ Hu].
  assert (Forall (u 8) (raw_part raw ty k off 1)) as Hp by (by apply Forall_take, Forall_drop).
  destruct (raw_part raw ty k off 1) as [|b [|? ?]]; [done| |done]. apply Forall_cons_1 in Hp as [Hp _].
  replace (le_val [b]) with b; [done|]. unfold le_val. cbn [map pack]. rewrite wrap_id by done. lia.
Qed.

Lemma draw_bytes_length n seed : length (draw_bytes n seed).1 = n.
Proof.
  revert seed. induction n as [|n IH]; intros seed; [done|]. cbn [draw_bytes]. destruct (hrd_fastrand seed) as [r seed1].
  specialize (IH seed1). destruct (draw_bytes n seed1) as [bs seed2]. cbn [fst length] in *. by rewrite IH.
Qed.

Lemma new_sub_row s seed : sid_ok s -> exists v seed', new_sub_val raw s seed = Ok (v, seed') /\ sub_ok v /\ sub_nbr v = nbr_of s.
Proof.
  intros Hs. unfold new_sub_val. rewrite from_sid_ok, bind_Ok by done.
  pose proof (draw_bytes_length 5 seed) as L1. destruct (draw_bytes 5 seed) as [h seed1].
  pose proof (draw_bytes_length 10 seed1) as L2. destruct (draw_bytes 10 seed1) as [b seed2]. destruct (hrd_fastrand seed2) as [r seed3].
  pose proof (Random.draw_range seed3) as Hv. destruct (hrd_fastrand seed3) as [vlr seed4]. do 2 eexists. split; [done|]. split; [|done].
  split; cbn [sub_nbr sub_nbr_unused hex bytes bits msc_location vlr_location]; [|split; [|done]|by apply wrap_u|done|exact Hv].
  - pose proof (nbr_range s). unfold u in *. lia.
  - apply raw_part_length; [apply (@row_is_tatp _ sub_row)|done].
Qed.

Lemma sec_entry_row s : sid_ok s -> row_for s (sec_entry raw s).
Proof.
  change TATP_MAX_SUBSCRIBERS with 1000000000. intros Hs. apply F_sec; [|done].
  split; cbn; [unfold u; lia|done|]. by apply raw_part_length; [apply (@row_is_tatp _ sec_row)|].
Qed.

Lemma acc_entry_row s ai : sf_ok ai -> row_for s (acc_entry raw s ai).
Proof.
  intros Ha. apply F_acc; [done|]. split; [done|apply raw_byte; [apply (@row_is_tatp _ acc_row)|done]|].
  split_and!; (apply raw_part_length; [apply (@row_is_tatp _ acc_row)|done]).
Qed.

Lemma fac_entry_row s sf r :
  sf_ok sf -> row_for s (RPC_SPECIAL_FACILITY_REQ, tatp_specfac_key s sf, specfac_bytes (new_specfac_val raw (tatp_specfac_key s sf) r)).
Proof.
  intros Hf. apply F_fac; [done|]. split; [split_and!|..]; [|apply raw_byte; [apply (@row_is_tatp _ fac_row)|done]..| |done].
  - cbn [new_specfac_val is_active]. by case_match.
  - cbn [new_specfac_val data_b length]. by rewrite raw_part_length; [|apply (@row_is_tatp _ fac_row)|].
Qed.

Lemma fwd_entry_row s sf st r :
  sf_ok sf -> start_ok st ->
  row_for s (RPC_CALL_FORWARDING_REQ, tatp_callfwd_key s sf st, callfwd_bytes (new_callfwd_val raw (tatp_callfwd_key s sf st) r)).
Proof.
  intros Hf Ht. apply F_fwd; [done..|]. split; [| |done].
  - cbn [new_callfwd_val end_time]. pose proof (Z.mod_pos_bound r 24 ltac:(lia)). unfold u. lia.
  - cbn [new_callfwd_val numberx length]. by rewrite raw_part_length; [|apply (@row_is_tatp _ fwd_row)|].
Qed.

Notation sids s_ids := (NoDup s_ids /\ Forall (fun s => sid_ok s) s_ids).

Lemma sids_tail s s_ids : sids (s :: s_ids) -> sid_ok s /\ sids s_ids.
Proof. by intros [[_ H]%NoDup_cons [H1 H2]%Forall_cons]. Qed.

Lemma sub_rows s_ids : sids s_ids -> forall seed,
  rows_for s_ids (sub_entries raw s_ids seed) /\
  forall s, s ∈ s_ids -> (RPC_SUBSCRIBER_REQ, tatp_sub_key s) ∈ (sub_entries raw s_ids seed).*1.
Proof.
  induction s_ids as [|s s_ids IH]; intros Hsi seed; [split; [apply rows_for_nil|by intros s ?%elem_of_nil]|].
  destruct (sids_tail _ _ Hsi) as [Hs Hss]. destruct (new_sub_row s seed Hs) as (v & seed' & E & Hv & Hn). cbn [sub_entries]. rewrite E.
  destruct (IH Hss seed') as [IH1 IH2]. split.
  - apply (rows_for_cons s s_ids [_]); [apply Hsi|apply Hsi|apply NoDup_singleton|apply Forall_singleton; by apply F_sub|cbn; lia|done].
  - intros s' [->|Hs']%elem_of_cons; [by left|right; by apply IH2].
Qed.

Lemma sec_rows s_ids : sids s_ids -> rows_for s_ids (map (sec_entry raw) s_ids).
Proof.
  induction s_ids as [|s s_ids IH]; intros Hsi; [apply rows_for_nil|]. destruct (sids_tail _ _ Hsi) as [Hs Hss].
  apply (rows_for_cons s s_ids [_]); [apply Hsi|apply Hsi|apply NoDup_singleton|apply Forall_singleton; by apply sec_entry_row|cbn; lia|by apply IH].
Qed.

Lemma acc_rows s_ids : sids s_ids -> forall seed,
  rows_for s_ids (acc_entries raw s_ids seed) /\
  forall s, s ∈ s_ids -> exists ai, sf_ok ai /\ (RPC_ACCESS_INFO_REQ, tatp_accinf_key s ai) ∈ (acc_entries raw s_ids seed).*1.
Proof.
  induction s_ids as [|s s_ids IH]; intros Hsi seed; [split; [apply rows_for_nil|by intros s ?%elem_of_nil]|].
  destruct (sids_tail _ _ Hsi) as [Hs Hss]. cbn [acc_entries]. unfold ai_type_values. destruct (types_drawn seed) as (vec & seed' & -> & Hnd & Hok & Hl).
  destruct (IH Hss seed') as [IH1 IH2]. pose proof (proj1 (Forall_forall _ _) Hok) as Hin. split.
  - apply rows_for_cons; [apply Hsi|apply Hsi| | | |done].
    + change (map (acc_entry raw s) vec) with (acc_entry raw s <$> vec). rewrite <- list_fmap_compose.
      apply NoDup_fmap_2_strong; [|done]. intros t t' Ht Ht' E. injection E as E. by apply acc_key_inj in E as [_ ?]; [| |apply Hin| |apply Hin].
    + apply Forall_forall. intros e (ai & -> & Ha)%list_elem_of_fmap. by apply acc_entry_row, Hin.
    + rewrite length_map. lia.
  - rewrite fmap_app. setoid_rewrite elem_of_app. intros s' [->|Hs']%elem_of_cons.
    + destruct vec as [|ai vec]; [cbn in Hl; lia|]. exists ai. split; [apply Hin; by left|]. left. by left.
    + destruct (IH2 s' Hs') as (ai & Ha & H). exists ai. auto.
Qed.

Notation fac_at s sf := (RPC_SPECIAL_FACILITY_REQ, tatp_specfac_key s sf).
Notation fwd_at s sf st := (RPC_CALL_FORWARDING_REQ, tatp_callfwd_key s sf st).

(** The call forwardings of a facility. *)
Lemma fwd_block s sf starts : sid_ok s -> sf_ok sf -> NoDup starts -> Forall start_ok starts -> forall seed,
  let es := (fwd_entries raw s sf starts seed).1 in
  NoDup es.*1 /\ Forall (row_for s) es /\ (forall tk, tk ∈ es.*1 -> exists st, st ∈ starts /\ tk = fwd_at s sf st) /\ (length es <= length starts)%nat.
Proof.
  intros Hs Hf. induction starts as [|st starts IH]; intros Hnd Hok seed; cbn [fwd_entries].
  { split; [apply NoDup_nil_2|]. split; [apply Forall_nil_2|]. split; [by intros tk ?%elem_of_nil|done]. }
  apply NoDup_cons in Hnd as [Hn Hnd]. pose proof Hok as [Ht Hok']%Forall_cons. rewrite Forall_forall in Hok. destruct (hrd_fastrand seed) as [r seed1]. destruct (r mod 2 =? 0).
  - destruct (IH Hnd Hok' seed1) as (H1 & H2 & H3 & H4). split; [done|]. split; [done|]. split; [|cbn [length]; lia].
    intros tk Htk. destruct (H3 tk Htk) as (st' & Hin & E). exists st'. split; [by right|done].
  - destruct (hrd_fastrand seed1) as [r' seed2]. destruct (IH Hnd Hok' seed2) as (H1 & H2 & H3 & H4).
    destruct (fwd_entries raw s sf starts seed2) as [es seed3]. cbn [fst snd fmap list_fmap] in *. split; [|split; [|split]].
    + apply NoDup_cons. split; [|done]. intros Hin. destruct (H3 _ Hin) as (st' & Hst' & E). injection E as E.
      apply (fwd_key_inj TATP_MAX_SUBSCRIBERS) in E as (_ & _ & ->); [done..|by apply Hok; right].
    + constructor; [by apply fwd_entry_row|done].
    + intros tk [->|Htk]%elem_of_cons; [exists st; split; [by left|done]|]. destruct (H3 tk Htk) as (st' & Hin & E). exists st'. split; [by right|done].
    + cbn [length]. lia.
Qed.

(** The facilities of a subscriber, each with its call forwardings. *)
Lemma fac_block s vec : sid_ok s -> NoDup vec -> Forall sf_ok vec -> forall seed,
  let es := (fac_entries raw s vec seed).1 in
  NoDup es.*1 /\ Forall (row_for s) es /\ (length es <= 4 * length vec)%nat /\
  (forall tk, tk ∈ es.*1 -> exists sf, sf ∈ vec /\ (tk = fac_at s sf \/ exists st, start_ok st /\ tk = fwd_at s sf st)) /\
  forall sf, sf ∈ vec -> fac_at s sf ∈ es.*1.
Proof.
  intros Hs. induction vec as [|sf vec IH]; intros Hnd Hok seed; cbn [fac_entries].
  { split; [apply NoDup_nil_2|]. split; [apply Forall_nil_2|]. split; [done|]. split; [by intros tk ?%elem_of_nil|by intros sf ?%elem_of_nil]. }
  apply NoDup_cons in Hnd as [Hn Hnd]. pose proof Hok as [Hf Hok']%Forall_cons. rewrite Forall_forall in Hok. destruct (hrd_fastrand seed) as [r seed1].
  destruct (fwd_block s sf [0; 8; 16] Hs Hf) with (seed := seed1) as (F1 & F2 & F3 & F4).
  { by apply (bool_decide_unpack _). } { unfold start_ok. repeat constructor; lia. }
  destruct (fwd_entries raw s sf [0; 8; 16] seed1) as [fwds seed2]. destruct (IH Hnd Hok' seed2) as (H1 & H2 & H3 & H4 & H5).
  destruct (fac_entries raw s vec seed2) as [es seed3]. cbn [fst snd fmap list_fmap] in *. rewrite fmap_app.
  assert (forall st, st ∈ [0; 8; 16] -> start_ok st) as Hst by (intros st; rewrite !elem_of_cons, elem_of_nil; unfold start_ok; lia).
  assert (forall sf', sf' ∈ vec -> sf_ok sf' /\ sf' <> sf) as Hsf by (intros sf' Hin; split; [apply Hok; by right|congruence]).
  split_and!.
  - apply NoDup_cons. split; [|apply NoDup_app; split; [done|split; [|done]]].
    + intros [(st & _ & E)%F3|(sf' & Hin & [E|(st & _ & E)])%H4]%elem_of_app; [done| |done]. injection E as E. destruct (Hsf sf' Hin) as [Hf' Hne].
      apply fac_key_inj in E as [_ E]; congruence.
    + intros tk (st & Hin & ->)%F3 (sf' & Hin' & [E|(st' & Hst' & E)])%H4; [done|]. injection E as E. destruct (Hsf sf' Hin') as [Hf' Hne].
      apply (fwd_key_inj TATP_MAX_SUBSCRIBERS) in E as (_ & E & _); [congruence|done..|by apply Hst|done|done|done].
  - constructor; [by apply fac_entry_row|by apply Forall_app_2].
  - cbn [length] in *. rewrite length_app. lia.
  - intros tk [->|[(st & Hin & ->)%F3|(sf' & Hin & E)%H4]%elem_of_app]%elem_of_cons.
    + exists sf. split; [by left|by left].
    + exists sf. split; [by left|right]. exists st. auto.
    + exists sf'. split; [by right|done].
  - intros sf' [->|Hin]%elem_of_cons; [by left|right]. apply elem_of_app. right. by apply H5.
Qed.

Lemma facs_rows s_ids : sids s_ids -> forall seed,
  let es := facs_entries raw s_ids seed in
  rows_for s_ids es /\
  (forall s, s ∈ s_ids -> exists sf, sf_ok sf /\ fac_at s sf ∈ es.*1) /\
  forall k, (RPC_CALL_FORWARDING_REQ, k) ∈ es.*1 -> exists s sf st,
    sid_ok s /\ sf_ok sf /\ start_ok st /\ k = tatp_callfwd_key s sf st /\ fac_at s sf ∈ es.*1.
Proof.
  induction s_ids as [|s s_ids IH]; intros Hsi seed; [split; [apply rows_for_nil|split; [by intros s ?%elem_of_nil|by intros k ?%elem_of_nil]]|].
  destruct (sids_tail _ _ Hsi) as [Hs Hss]. cbn [facs_entries]. unfold sf_type_values. destruct (types_drawn seed) as (vec & seed' & -> & Hnd & Hok & Hl).
  destruct (fac_block s vec Hs Hnd Hok seed') as (F1 & F2 & F3 & F4 & F5). destruct (fac_entries raw s vec seed') as [b seed2]. cbn [fst] in *.
  destruct (IH Hss seed2) as (H1 & H2 & H3). pose proof (proj1 (Forall_forall _ _) Hok) as Hin. rewrite fmap_app. split; [|split].
  - apply rows_for_cons; [apply Hsi|apply Hsi|done|done|lia|done].
  - setoid_rewrite elem_of_app. intros s' [->|Hs']%elem_of_cons.
    + destruct vec as [|sf vec]; [cbn in Hl; lia|]. exists sf. split; [apply Hin; by left|]. left. apply F5. by left.
    + destruct (H2 s' Hs') as (sf & Hf & H). exists sf. auto.
  - setoid_rewrite elem_of_app. intros k [(sf & Hsf & [E|(st & Ht & E)])%F4|(s' & sf & st & H')%H3].
    + done.
    + injection E as ->. exists s, sf, st. split; [done|]. split; [by apply Hin|]. auto.
    + exists s', sf, st. naive_solver.
Qed.

(** The rows of all subscribers. *)
Record initial (N : Z) (es : list tab_entry) : Prop := {
  it_nodup : NoDup es.*1;
  it_row e : e ∈ es -> exists s, 0 <= s < N /\ row_for s e;
  it_count : (length es <= 64 * Z.to_nat N)%nat;
  it_sub s : 0 <= s < N -> (RPC_SUBSCRIBER_REQ, tatp_sub_key s) ∈ es.*1;
  it_sec s : 0 <= s < N -> (RPC_SEC_SUBSCRIBER_REQ, tatp_sec_sub_key (nbr_of s)) ∈ es.*1;
  it_acc s : 0 <= s < N -> exists ai, sf_ok ai /\ (RPC_ACCESS_INFO_REQ, tatp_accinf_key s ai) ∈ es.*1;
  it_fac s : 0 <= s < N -> exists sf, sf_ok sf /\ fac_at s sf ∈ es.*1;
  it_fwd k : (RPC_CALL_FORWARDING_REQ, k) ∈ es.*1 -> exists s sf st,
    sid_ok s /\ sf_ok sf /\ start_ok st /\ k = tatp_callfwd_key s sf st /\ fac_at s sf ∈ es.*1
}.

Lemma typed_keys (P : Z -> Prop) (es : list tab_entry) : Forall (fun e => P e.1.1) es -> forall ty k, (ty, k) ∈ es.*1 -> P ty.
Proof. intros H ty k (e & E & He)%list_elem_of_fmap. rewrite Forall_forall in H. specialize (H e He). by rewrite <- E in H. Qed.

Lemma tatp_entries_initial N : 0 <= N <= TATP_MAX_SUBSCRIBERS -> initial N (tatp_entries raw N).
Proof.
  intros HN. assert (sids (seqZ 0 N)) as Hsi by (split; [apply NoDup_seqZ|apply Forall_forall; intros s Hs%elem_of_seqZ; lia]).
  assert (forall s, 0 <= s < N <-> s ∈ seqZ 0 N) as Hin by (intros s; rewrite elem_of_seqZ; lia).
  pose proof (part_types raw N) as (T1 & T2 & T3). pose proof (facs_entries_type raw (seqZ 0 N) initial_seed) as T4.
  destruct (sub_rows _ Hsi initial_seed) as [R1 S1]. pose proof (sec_rows _ Hsi) as R2. destruct (acc_rows _ Hsi initial_seed) as [R3 S3].
  destruct (facs_rows _ Hsi initial_seed) as (R4 & S4 & S5). unfold tatp_entries. cbv zeta.
  pose proof (typed_keys (fun ty => ty = RPC_SUBSCRIBER_REQ) _ T1) as K1. pose proof (typed_keys (fun ty => ty = RPC_SEC_SUBSCRIBER_REQ) _ T2) as K2.
  pose proof (typed_keys (fun ty => ty = RPC_ACCESS_INFO_REQ) _ T3) as K3.
  pose proof (typed_keys (fun ty => ty = RPC_SPECIAL_FACILITY_REQ \/ ty = RPC_CALL_FORWARDING_REQ) _ T4) as K4.
  assert (forall s, s ∈ seqZ 0 N -> (RPC_SEC_SUBSCRIBER_REQ, tatp_sec_sub_key (nbr_of s)) ∈ (map (sec_entry raw) (seqZ 0 N)).*1) as S2.
  { intros s Hs. apply list_elem_of_fmap. exists (sec_entry raw s). split; [done|]. by apply list_elem_of_fmap_2. }
  set (e1 := sub_entries raw (seqZ 0 N) initial_seed) in *. set (e2 := map (sec_entry raw) (seqZ 0 N)) in *.
  set (e3 := acc_entries raw (seqZ 0 N) initial_seed) in *. set (e4 := facs_entries raw (seqZ 0 N) initial_seed) in *.
  split.
  - rewrite !fmap_app. apply NoDup_app. split; [apply R1|]. split; [|apply NoDup_app; split; [apply R2|split; [|apply NoDup_app; split; [apply R3|split; [|apply R4]]]]];
      intros [ty k] H; rewrite ?elem_of_app; intros H'.
    + apply K1 in H as ->. destruct H' as [H'%K2|[H'%K3|H'%K4]]; naive_solver.
    + apply K2 in H as ->. destruct H' as [H'%K3|H'%K4]; naive_solver.
    + apply K3 in H as ->. apply K4 in H'. naive_solver.
  - intros e. rewrite !elem_of_app. setoid_rewrite Hin. intros [H|[H|[H|H]]]; [apply R1|apply R2|apply R3|apply R4]; done.
  - pose proof (rf_count _ _ R1). pose proof (rf_count _ _ R2). pose proof (rf_count _ _ R3). pose proof (rf_count _ _ R4).
    rewrite !length_app. rewrite length_seqZ in *. lia.
  - intros s Hs%Hin. rewrite !fmap_app, !elem_of_app. left. by apply S1.
  - intros s Hs%Hin. rewrite !fmap_app, !elem_of_app. right; left. by apply S2.
  - intros s Hs%Hin. destruct (S3 s Hs) as (ai & Ha & H). exists ai. rewrite !fmap_app, !elem_of_app. auto.
  - intros s Hs%Hin. destruct (S4 s Hs) as (sf & Hf & H). exists sf. rewrite !fmap_app, !elem_of_app. auto.
  - intros k H. rewrite !fmap_app, !elem_of_app in H. destruct H as [H|[H|[H|H]]]; [by apply K1 in H|by apply K2 in H|by apply K3 in H|].
    destruct (S5 k H) as (s & sf & st & H1 & H2 & H3 & H4 & H5). exists s, sf, st. rewrite !fmap_app, !elem_of_app. auto 9.
Qed.

(** ** The tables that hold the rows *)

Section Contents.
Context (N : Z) (HN : N <= TATP_MAX_SUBSCRIBERS) (es : list tab_entry) (Hes : initial N es).

Definition rows_map : gmap (Z * Z) (list byte) := list_to_map es.
Definition row_val (ty k : Z) : list byte := default [] (rows_map !! (ty, k)).

Lemma rows_map_elem ty k v : rows_map !! (ty, k) = Some v <-> (ty, k, v) ∈ es.
Proof. symmetry. apply elem_of_list_to_map, Hes. Qed.

Lemma row_contents ty k : contents_of row_val es ty k = rows_map !! (ty, k).
Proof.
  unfold contents_of, row_val. case_decide as Hd.
  - apply list_elem_of_fmap in Hd as ([[ty' k'] v] & E & He). injection E as -> ->. apply rows_map_elem in He. by rewrite He.
  - symmetry. by apply not_elem_of_list_to_map.
Qed.

Lemma row_there ty k : (ty, k) ∈ es.*1 -> exists v s, rows_map !! (ty, k) = Some v /\ 0 <= s < N /\ row_for s (ty, k, v).
Proof.
  intros ([[ty' k'] v] & E & He)%list_elem_of_fmap. injection E as -> ->. destruct (it_row N es Hes _ He) as (s & Hs & Hr).
  exists v, s. by rewrite rows_map_elem.
Qed.

(** A row is what its table may hold under its key. *)
Lemma row_for_value s e : 0 <= s < N -> row_for s e -> value_ok N e.1.1 e.1.2 (Some e.2).
Proof.
  change TATP_MAX_SUBSCRIBERS with 1000000000 in HN. intros Hs He.
  destruct He as [v H E|v H E|ai v Ha H|sf v Hf H|sf st v Hf Ht H]; cbn [fst snd]; unfold value_ok; cbn [Z.eqb Pos.eqb].
  - destruct (keys_ok s 0 0) as (-> & _); [unfold u; lia..|]. split; [intros _; by exists v|]. intros x Ex. injection Ex as <-. by exists v.
  - split.
    + intros s' Hs' Ek. apply (dec_word_inj 9) in Ek; [|change (10 ^ Z.of_nat 9) with 1000000000; lia..]. subst s'. by exists v.
    + intros x Ex. injection Ex as <-. by exists v.
  - intros x Ex. injection Ex as <-. by exists v.
  - intros x Ex. injection Ex as <-. by exists v.
  - intros x Ex. injection Ex as <-. by exists v.
Qed.

Lemma rows_value ty k : is_tatp ty -> value_ok N ty k (rows_map !! (ty, k)).
Proof.
  change TATP_MAX_SUBSCRIBERS with 1000000000 in HN. intros Hty. destruct (rows_map !! (ty, k)) as [v|] eqn:E.
  { apply rows_map_elem in E. destruct (it_row N es Hes _ E) as (s & Hs & Hr). exact (row_for_value s _ Hs Hr). }
  destruct Hty as [-> | [-> | [-> | [-> | ->]]]]; unfold value_ok; cbn [Z.eqb Pos.eqb]; [| |done..].
  - split; [|done]. intros Hk. pose proof (it_sub N es Hes k Hk) as Hin. destruct (keys_ok k 0 0) as (Ek & _); [unfold u; lia..|]. rewrite Ek in Hin.
    destruct (row_there _ _ Hin) as (v & s & E' & _). congruence.
  - split; [|done]. intros s Hs ->. destruct (row_there _ _ (it_sec N es Hes s Hs)) as (v & s' & E' & _). unfold tatp_sec_sub_key in E'. congruence.
Qed.

(** The database is sound, and every subscriber has access information and a facility. *)
Lemma rows_sound σ :
  (forall ty k, is_tatp ty -> σ ty k = rows_map !! (ty, k)) -> complete N (db_of σ) ->
  sound N (db_of σ) /\
  forall s, 0 <= s < N -> (exists ai, sf_ok ai /\ is_Some (d_acc (db_of σ) (tatp_accinf_key s ai))) /\
    exists sf, sf_ok sf /\ is_Some (d_fac (db_of σ) (tatp_specfac_key s sf)).
Proof.
  intros Hσ Hc.
  assert (forall k, (RPC_SPECIAL_FACILITY_REQ, k) ∈ es.*1 -> is_Some (d_fac (db_of σ) k)) as Hfac.
  { intros k Hin. destruct (row_there _ _ Hin) as (v & s & E & _). cbn [db_of d_fac]. rewrite (Hσ RPC_SPECIAL_FACILITY_REQ k (@row_is_tatp _ fac_row)), E. by eexists. }
  split; [split; [done|]|].
  - intros s sf st v Hs Hf Ht E. cbn [db_of d_fwd] in E. rewrite (Hσ RPC_CALL_FORWARDING_REQ _ (@row_is_tatp _ fwd_row)) in E. apply fmap_Some in E as (x & E & _).
    apply rows_map_elem in E. destruct (it_fwd N es Hes (tatp_callfwd_key s sf st)) as (s' & sf' & st' & Hs' & Hf' & Ht' & Ek & Hin).
    { apply list_elem_of_fmap. by exists (RPC_CALL_FORWARDING_REQ, tatp_callfwd_key s sf st, x). }
    apply (fwd_key_inj TATP_MAX_SUBSCRIBERS) in Ek as (-> & -> & _); [by apply Hfac|done|lia|done..].
  - intros s Hs. split.
    + destruct (it_acc N es Hes s Hs) as (ai & Ha & Hin). exists ai. split; [done|]. destruct (row_there _ _ Hin) as (v & s' & E & _).
      cbn [db_of d_acc]. rewrite (Hσ RPC_ACCESS_INFO_REQ _ (@row_is_tatp _ acc_row)), E. by eexists.
    + destruct (it_fac N es Hes s Hs) as (sf & Hf & Hin). exists sf. split; [done|]. by apply Hfac.
Qed.
End Contents.
End Rows.

(** ** All workers *)

Section Workers.
Context (raw : Z -> Z -> list byte) (mp : Mappings.t) (tp : tatp) (idx : Z -> Z -> Z -> nat) (coros : Z) (mps : nat -> Mappings.t) (W : nat).
Notation N := (subscriber_size tp).
Notation nr := (Mappings.num_replicas mp).
Notation C := (cluster_of mp (tatp_types N) idx coros).

(** The insertions of all workers, in any order. *)
Lemma tatp_workers order st :
  raw_ok raw -> tatp_ok tp -> staff mp mps W -> stores_ok C st -> fresh_stores C st ->
  (forall j, (j < W)%nat -> of_coro j order = worker_loads raw nr N) -> Forall (fun x => x.1 < W)%nat order ->
  (exists st', run_loads true mps order st = Ok st' /\ stores_ok C st' /\ at_rest C (contents C st') /\
     forall ty k, is_tatp ty -> db C (contents C st') ty k = rows_map (tatp_entries raw N) !! (ty, k)) \/
  (run_loads true mps order st = Err ExitFail /\
   exists pre st1 mn ty, pre `prefix_of` order /\ run_loads true mps pre st = Ok st1 /\ cl_has C mn ty = true /\ fl_head (st_table st1 mn ty) = 0).
Proof.
  intros Hraw [HN _ _] [[HM Hls] HW Hmps] Hst Hf Hord Hlt. pose proof (tatp_entries_initial raw Hraw N ltac:(lia)) as Hes.
  pose proof HM as [Hwf _]. pose proof (Mappings.wf_backups mp Hwf) as Hb.
  destruct (population true mp (tatp_types N) idx coros HM (tatp_types_ok N _ (proj2 Hb)) Hls mps W HW Hmps (row_val (tatp_entries raw N)) (tatp_entries raw N))
    with (order := order) (st := st) as [(st' & E & Hst' & Hrest & Hdb)|H]; try done; [..|left|by right].
  - apply Forall_forall. intros [[ty k] v] He. destruct (it_row N _ Hes _ He) as (s & Hs & Hr).
    destruct (row_for_ok s _ ltac:(lia) Hr) as (Hty & Hk & Hl). split; [by apply prim_tatp|]. split; [done|]. split; [|done].
    unfold row_val. apply (rows_map_elem N _ Hes) in He. by rewrite He.
  - pose proof (it_count N _ Hes). change TATP_MAX_SUBSCRIBERS with 1000000000 in HN. lia.
  - intros ty k Hty%prim_tatp. rewrite (row_contents N _ Hes). apply (rows_value N); [lia|done..].
  - intros j Hj. rewrite (Hord j Hj). apply worker_all_loads.
  - exists st'. split; [done|]. split; [done|]. split; [done|]. intros ty k Hty. rewrite Hdb by (by apply prim_tatp). by apply (row_contents N).
Qed.


End Workers.
End TatpPopulate.
