(* ===== verification/TatpDemo.v ===== *)
(** * Running TATP

    A cluster of two machines with one worker each and a database of two subscribers: it
    is populated, and two coroutines run transactions on it.  The instances at which the
    theorems on TATP are applied. *)

From S2P Require Import Prelude Util City Hots Mappings FixedTable FixedTableInv FixedTableOps FixedTableInit FixedTableSteps.
From S2P Require Import Datastore DatastoreSpec RpcDefs RpcBatch Logger Tx TxWorld TxMem TxSpec TxSystem TxSerial.
From S2P Require Import TxSession TxCluster TxStore TxClients TxDemo TxPopulate Tatp TatpSpec TatpTx TatpStore TatpPopulate.
From Stdlib Require Import ZArith Lia Bool.
From stdpp Require Import base numbers sets list gmap relations.
#[local] Open Scope Z_scope.
Import RpcDefs RpcBatch Tx TxWorld TxMem TxSpec TxSystem TxSerial TxSession TxCluster TxStore TxClients TxDemo TxPopulate.
Import FixedTable FixedTableInv FixedTableOps FixedTableInit DatastoreSpec Tatp TatpSpec TatpTx TatpStore TatpPopulate.

Module TatpDemo.

(** ** The constructor and the generators *)

Definition tp1 : tatp := match Tatp.make 1 1 2 with Ok tp => tp | Err _ => mk_tatp 0 0 0 0 0 [] end.

Lemma tp1_made : Tatp.make 1 1 2 = Ok tp1.
Proof. vm_compute. reflexivity. Qed.

Lemma sub_numbers_witness :
  exists n, tatp_sub_nbr_from_sid 123456789 = Ok n /\ tatp_sub_nbr_from_sid_fast tp1 123456789 = Ok n /\ u 36 n.
Proof.
  destruct (sub_numbers 1 1 2 tp1 123456789) as [(n & H1 & H2 & H3 & _) _].
  - lia.
  - exact tp1_made.
  - change TATP_MAX_SUBSCRIBERS with 1000000000. lia.
  - exists n. split; [exact H1|]. split; [exact H2|exact H3].
Defined.

Lemma tatp_draws_witness : exists s seed', get_nurand_subscriber true tp1 7 = Ok (s, seed') /\ 0 <= s < subscriber_size tp1.
Proof. apply (tatp_draws true 1 1 2 tp1 7); [lia|exact tp1_made]. Defined.

(** ** The database *)

Definition tp5 : tatp := mk_tatp 2 1 2 2 65535 make_map_1000.
Definition mps5 (j : nat) : Mappings.t := mp (Z.of_nat j).
Notation idx5 := (made_idx (tatp_types (subscriber_size tp5))).
Definition C5 : cluster := cluster_of (mp 0) (tatp_types (subscriber_size tp5)) idx5 3.
Definition st5 : stores := made_stores (tatp_types (subscriber_size tp5)).
Definition raw5 (ty k : Z) : list byte := replicate (Z.to_nat (tatp_vsz ty)) 0.

Lemma tp5_ok : tatp_ok tp5.
Proof. by repeat split. Qed.

Lemma raw5_ok : raw_ok raw5.
Proof.
  intros ty k Hty. unfold raw5. split; [|by apply Forall_replicate]. rewrite length_replicate.
  by destruct Hty as [-> | [-> | [-> | [-> | ->]]]].
Qed.

Lemma st5_ok : stores_ok C5 st5 /\ fresh_stores C5 st5.
Proof. apply made_ok. intros ty. cbn [ty_vsz tatp_types]. unfold tatp_vsz. repeat case_match; by vm_compute; auto. Qed.

(** ** Population: first all of worker 0, then all of worker 1 *)

Definition loads5 : list load := worker_loads raw5 2 2.
Definition order5 : list (nat * load) := map (pair 0%nat) loads5 ++ map (pair 1%nat) loads5.
Definition st6 : stores := match run_loads true mps5 order5 st5 with Ok st => st | Err _ => st5 end.

Lemma staff5 : staff (mp 0) mps5 2.
Proof.
  split; [split; [by apply mp_replicated|done]|done|].
  intros j Hj. assert (j = 0 \/ j = 1)%nat as [-> | ->] by lia; reflexivity.
Qed.

Lemma order5_workers j : (j < 2)%nat -> of_coro j order5 = worker_loads raw5 (Mappings.num_replicas (mp 0)) (subscriber_size tp5).
Proof. intros Hj. assert (j = 0 \/ j = 1)%nat as [-> | ->] by lia; vm_compute; reflexivity. Qed.

Lemma order5_range : Forall (fun x => x.1 < 2)%nat order5.
Proof. apply Forall_app. split; apply Forall_forall; intros x (ld & -> & _)%list_elem_of_fmap; cbn; lia. Qed.

Lemma st6_loaded : is_ok (run_loads true mps5 order5 st5) = true.
Proof. vm_compute. reflexivity. Qed.

Lemma st6_ok : stores_ok C5 st6 /\ at_rest C5 (contents C5 st6).
Proof.
  pose proof (tatp_workers raw5 (mp 0) tp5 idx5 3 mps5 2 order5 st5 raw5_ok tp5_ok staff5 (proj1 st5_ok) (proj2 st5_ok) order5_workers order5_range) as H.
  pose proof st6_loaded as Hr. unfold st6. destruct (run_loads true mps5 order5 st5) as [st|]; [|discriminate Hr].
  destruct H as [(st' & E & H1 & H2 & _)|(E & _)]; [|discriminate E]. injection E as <-. split; [exact H1|exact H2].
Qed.


(** ** Two coroutines

    The seeds are such that the first updates a subscriber, inserts a call forwarding and
    looks for a destination, and the second deletes a call forwarding, updates a location
    and reads access information and a subscriber. *)

Definition mem5 : list byte := replicate 512 0.
Definition frame5 (seed : Z) : frame := mk_frame seed 0 (fun i => 128 * Z.of_nat i) (fun _ => un0).
Definition slave_a : client frame := mk_client (mp 0) 1 rec0 (map frame5 [45077; 112077; 63504190589]) mem5.
Definition slave_b : client frame := mk_client (mp 1) 2 rec0 (map frame5 [55225165752; 81000320; 144000509; 77]) mem5.

Lemma frame5_ok seed : frame_ok mem5 (frame5 seed).
Proof.
  split; [| |intros i; apply un0_ok]; cbn [frame5 fr_obj].
  - unfold layout, obj_at, apart, mem5. change sizeof_hots_obj_t with 56.
    repeat (split || apply Forall_cons || apply Forall_nil_2); unfold apart; change sizeof_hots_obj_t with 56; rewrite ?length_replicate; lia.
  - intros i Hi. unfold mem5. rewrite length_replicate. lia.
Qed.

Lemma running5 : running (mp 0) tp5 idx5 3 400 [slave_a; slave_b] st6.
Proof.
  split; [apply tp5_ok|done|]. split.
  - split; [by apply mp_replicated|]. by vm_compute.
  - by vm_compute.
  - repeat (apply Forall_cons; split); try apply Forall_nil_2; (split; [reflexivity|done|by vm_compute|]); cbn [slave_a slave_b ct_frames ct_mem];
      apply Forall_forall; intros f (seed & -> & _)%list_elem_of_fmap; apply frame5_ok.
  - repeat (apply NoDup_cons; split); [|by apply not_elem_of_nil|apply NoDup_nil_2]. rewrite list_elem_of_singleton. done.
  - apply st6_ok.
  - apply st6_ok.
Qed.

(** ** The run *)

Definition ths5 : list (tstate ledger) :=
  [settle ledger (advance 400 (slave_prog true tp5 slave_a)) (contents C5 st6) [];
   settle ledger (advance 400 (slave_prog true tp5 slave_b)) (contents C5 st6) []].
Definition s5 : stores * list (tstate ledger) * list event := (st6, ths5, []).

Lemma demo5_begins : begins C5 400 ledger (map (slave_coro true tp5) [slave_a; slave_b]) st6 s5.
Proof.
  split; [reflexivity|]. exists ths5. split; [reflexivity|]. unfold ths5. cbn [map].
  repeat (constructor; [eexists; split; [apply advance_starts|reflexivity]|]). constructor.
Qed.

Lemma st6_range : in_range C5 (contents C5 st6).
Proof. destruct st6_ok as [_ [[Hc _] _]]. intros mn ty i Hty. by destruct (Hc mn ty i Hty) as (_ & _ & H). Qed.

(** Both coroutines run to their ends, one after the other, and commit everything. *)
Lemma demo5_run :
  exists a b st w1 w2 tr1 tr2 tr,
    rtc (csys C5 400 ledger lid0) s5 (st, [T_end _ a w1 tr1; T_end _ b w2 tr2], tr) /\
    length (done_ops a) = 3%nat /\ length (done_ops b) = 4%nat.
Proof.
  assert (match drive C5 400 (lid0 0) (slave_prog true tp5 slave_a) st6 with
          | Some (a, st) =>
              match drive C5 400 (lid0 1) (slave_prog true tp5 slave_b) st with
              | Some (b, _) => (length (done_ops a), length (done_ops b))
              | None => (0, 0)%nat
              end
          | None => (0, 0)%nat
          end = (3, 4)%nat) as Hc by (vm_compute; reflexivity).
  destruct (drive C5 400 (lid0 0) (slave_prog true tp5 slave_a) st6) as [[a st4]|] eqn:E1; [|discriminate].
  destruct (drive C5 400 (lid0 1) (slave_prog true tp5 slave_b) st4) as [[b st]|] eqn:E2; [|discriminate]. injection Hc as Ha Hb.
  destruct (drive_two C5 400 lid0 _ _ st6 a st4 b st (contents C5 st6) E1 E2 st6_range) as (w1 & w2 & tr1 & tr2 & tr & R).
  exists a, b, st, w1, w2, tr1, tr2, tr. split; [exact R|split; [exact Ha|exact Hb]].
Qed.

Lemma tatp_serializable_witness :
  exists st order D', (length (of_coro 0 order) = 3 /\ length (of_coro 1 order) = 4)%nat /\
    run_ops order.*2 (db_of (db C5 (contents C5 st6))) = Some D' /\ represents (db C5 (contents C5 st)) D'.
Proof.
  destruct demo5_run as (a & b & st & w1 & w2 & tr1 & tr2 & tr & Hrun & Ha & Hb).
  destruct (tatp_serializable true (mp 0) tp5 idx5 3 400 lid0 [slave_a; slave_b] st6 s5 st _ tr running5 demo5_begins Hrun)
    as (order & D' & Hres & _ & Hr & Hrep & _).
  - repeat constructor; eauto.
  - exists st, order, D'.
    destruct (Hres 0%nat _ _ eq_refl eq_refl) as (l1 & v1 & r1 & E1 & _ & R1). injection E1 as -> _ _.
    destruct (Hres 1%nat _ _ eq_refl eq_refl) as (l2 & v2 & r2 & E2 & _ & R2). injection E2 as -> _ _.
    rewrite R1, R2. split; [split; assumption|]. split; [exact Hr|exact Hrep].
Defined.

Lemma tatp_safe_witness :
  exists s, rtc (csys C5 400 ledger lid0) s5 s /\ complete 2 (db_of (db C5 (contents C5 s.1.1))) /\ synced C5 (contents C5 s.1.1).
Proof.
  destruct demo5_run as (a & b & st & w1 & w2 & tr1 & tr2 & tr & Hrun & _).
  destruct (tatp_safe true (mp 0) tp5 idx5 3 400 lid0 [slave_a; slave_b] st6 s5 st _ tr running5 demo5_begins Hrun) as (_ & _ & _ & H1 & H2).
  eexists. split; [exact Hrun|]. split; [exact H1|exact H2].
Defined.

End TatpDemo.
