(* ===== verification/Stress.v ===== *)
(** * The stress test

    The application of [src/app/stress]: a table of rows that transactions read, delete and
    insert [N] neighbours at a time, so that whoever finds only some of the neighbours, or
    different values, has found an error of the transactions; the coroutines that run
    them, and the population of the table. *)

From S2P Require Import Prelude Util Random Hots Mappings FixedTable Datastore RpcDefs RpcBatch Tx.
From Stdlib Require Import ZArith Lia Bool.
From stdpp Require Import base numbers list.
#[local] Open Scope Z_scope.
Import Random FixedTable RpcDefs RpcBatch Tx.

Module Stress.

(** ** [stress_defs.h] *)

Definition FREQUENCY_GET_N : Z := 30.
Definition FREQUENCY_DEL_N : Z := 35.
Definition FREQUENCY_INS_N : Z := 35.

Definition ROWS_PER_MACHINE : Z := 100.
Definition TABLE_BASE_SHM_KEY : Z := 2000.

(** The key of a row, by the union of [key] and [hots_key]; the bytes of [stress_val_t]. *)
Definition stress_key (key : Z) : Z := key.
Definition sizeof_stress_val : Z := 8.
Definition stress_val (val : Z) : list byte := le_bytes 8 val.

Inductive stress_txn_type_t : Type := get_N | del_N | ins_N.

#[global] Instance stress_txn_type_eq_dec : EqDecision stress_txn_type_t.
Proof. solve_decision. Defined.

(** ** [stress.h] *)

Record stress := mk_stress { num_machines : Z; workers_per_machine : Z; num_replicas : Z; num_rows_total : Z }.

(** The constructor without the table; the product is an [int]. *)
Definition make (num_machines workers_per_machine num_replicas : Z) : res stress :=
  rows ← chk_int (num_machines * ROWS_PER_MACHINE);
  Ok (mk_stress num_machines workers_per_machine num_replicas (wrap 32 rows)).

(** The loops fill the array from the index that the one before has left. *)
Definition create_workgen_array : res (list stress_txn_type_t) :=
  let fill n (ty : stress_txn_type_t) arr := arr ++ replicate (Z.to_nat n) ty in
  let arr := fill FREQUENCY_GET_N get_N [] in
  let arr := fill FREQUENCY_DEL_N del_N arr in
  let arr := fill FREQUENCY_INS_N ins_N arr in
  _ ← assert_ (Z.of_nat (length arr) =? 100);
  Ok arr.

(** ** [worker.cc] *)

(** The number of keys of a transaction. *)
Definition N : Z := 2.

(** What a call of a transaction finds: the seed of the thread, which all its coroutines
    advance, when it begins and when it goes on after its read; the addresses of its local
    objects, on the stack of the coroutine; and what the items that are added to the
    transaction leave uninitialised. *)
Record frame := mk_frame { fr_seed : Z; fr_resume : Z; fr_obj : nat -> Z; fr_un : nat -> uninit }.

(** A transaction that has committed: its first key, the values that it has seen, and the
    value that it has stored. *)
Inductive stress_op : Type :=
| Get_N (base_key : Z) (vals : list (option Z))
| Del_N (base_key : Z)
| Ins_N (base_key new_val : Z).

(** The end of a transaction: it gives up, or it commits, or it commits, reports that what
    it has seen is wrong and ends the process. *)
Inductive outcome : Type := gave_up | did (op : stress_op) | exits (op : stress_op).

Notation stress_result := (outcome * tx * list byte)%type.

Definition obj_i (f : frame) (i : Z) : Z := fr_obj f (Z.to_nat i).
Definition get_val (o : Z) (m : list byte) : res Z := load_le 8 (o + 16) m.
Definition set_val (o v : Z) (m : list byte) : res (list byte) := store_le 8 (o + 16) v m.

Section Transactions.
Context (s : stress).

(** One step of the loop that draws the first key.  [num_rows_total] is a [uint32_t], and
    so is its difference with [N]. *)
Definition draw_base (tg_seed : Z) : Z + res (Z * Z) :=
  if num_rows_total s =? 0 then inr (Err DivByZero)
  else
    let '(r, tg_seed) := hrd_fastrand tg_seed in
    let ret := r mod num_rows_total s in
    if negb (ret mod N =? 0) || (wrap 32 (num_rows_total s - N) <=? ret) then inl tg_seed
    else inr (Ok (ret, tg_seed)).

(** The generator draws every number within [2^64] steps. *)
Definition get_base_key (tg_seed : Z) : res (Z * Z) :=
  match loop (2 ^ 64) draw_base (inl tg_seed) with
  | inr r => r
  | inl _ => Err Diverge
  end.

(** The loops that fill the sets, over the indices [ixs]. *)
Fixpoint add_reads (f : frame) (base_key : Z) (ixs : list Z) (x : tx) (m : list byte) : res (tx * list byte) :=
  match ixs with
  | [] => Ok (x, m)
  | i :: ixs =>
      m ← write_at (Z.to_nat (obj_i f i)) (replicate 16 0) m;
      '(_, x) ← add_to_read_set RPC_STRESS_TABLE_REQ (stress_key (wrap 64 (base_key + i))) (obj_i f i) (fr_un f (Z.to_nat i)) x;
      add_reads f base_key ixs x m
  end.

Fixpoint add_writes (f : frame) (base_key : Z) (mode : tx_write_mode_t) (ixs : list Z) (x : tx) : res tx :=
  match ixs with
  | [] => Ok x
  | i :: ixs =>
      '(_, x) ← add_to_write_set RPC_STRESS_TABLE_REQ (stress_key (wrap 64 (base_key + i))) (obj_i f i) mode (fr_un f (Z.to_nat i)) x;
      add_writes f base_key mode ixs x
  end.

(** The sizes of the objects after the execute phase, and how many of them exist. *)
Fixpoint exec_sizes (f : frame) (ixs : list Z) (m : list byte) : res (list Z) :=
  match ixs with
  | [] => Ok []
  | i :: ixs => n ← obj_val_size m (obj_i f i); ns ← exec_sizes f ixs m; Ok (n :: ns)
  end.
Definition count_exists (sizes : list Z) : Z := foldr (fun n c => if 0 <? n then c + 1 else c) 0 sizes.

(** The comparison of the values with the first one. *)
Fixpoint compare_vals (f : frame) (val_0 : Z) (ixs : list Z) (value_mismatch : bool) (m : list byte) : res bool :=
  match ixs with
  | [] => Ok value_mismatch
  | i :: ixs =>
      val_i ← get_val (obj_i f i) m;
      compare_vals f val_0 ixs (if negb (val_0 =? val_i) then true else value_mismatch) m
  end.

(** The values of the objects that exist, for the record of what was seen. *)
Fixpoint seen_vals (f : frame) (ixs sizes : list Z) (m : list byte) : res (list (option Z)) :=
  match ixs, sizes with
  | i :: ixs, n :: ns =>
      v ← (if 0 <? n then v ← get_val (obj_i f i) m; Ok (Some v) else Ok None);
      vs ← seen_vals f ixs ns m; Ok (v :: vs)
  | _, _ => Ok []
  end.

Definition txn_get_N (f : frame) (x : tx) (m : list byte) : prog stress_result :=
  let x := start x in
  '(base_key, _) ← lift (get_base_key (fr_seed f));
  '(x, m) ← lift (add_reads f base_key (seqZ 0 N) x m);
  '(ex_result, x, m) ← do_read false x m;
  if decide (ex_result <> in_progress) then Done (gave_up, abort_rdonly x, m)
  else
    sizes ← lift (exec_sizes f (seqZ 0 N) m);
    let num_exists := count_exists sizes in
    '(commit_result, x, m) ← commit false x m;
    if decide (commit_result = committed) then
      let partial_objects := negb (num_exists =? N) && negb (num_exists =? 0) in
      value_mismatch ← lift (if num_exists =? N
                             then val_0 ← get_val (obj_i f 0) m; compare_vals f val_0 (seqZ 1 (N - 1)) false m
                             else Ok false);
      vals ← lift (seen_vals f (seqZ 0 N) sizes m);
      Done ((if partial_objects || value_mismatch then exits else did) (Get_N base_key vals), x, m)
    else Done (gave_up, x, m).

Definition txn_del_N (f : frame) (x : tx) (m : list byte) : prog stress_result :=
  let x := start x in
  '(base_key, _) ← lift (get_base_key (fr_seed f));
  x ← lift (add_writes f base_key wm_del (seqZ 0 N) x);
  '(ex_result, x, m) ← do_read false x m;
  if decide (ex_result <> in_progress) then '(x, m) ← abort false x m; Done (gave_up, x, m)
  else
    '(commit_result, x, m) ← commit false x m;
    Done (if decide (commit_result = committed) then did (Del_N base_key) else gave_up, x, m).

(** The loop that constructs the objects to insert. *)
Fixpoint format_objs (f : frame) (new_val : Z) (ixs : list Z) (m : list byte) : res (list byte) :=
  match ixs with
  | [] => Ok m
  | i :: ixs =>
      m ← set_val_size sizeof_stress_val (obj_i f i) m;
      m ← set_val (obj_i f i) new_val m;
      format_objs f new_val ixs m
  end.

Definition txn_ins_N (f : frame) (x : tx) (m : list byte) : prog stress_result :=
  let x := start x in
  '(base_key, _) ← lift (get_base_key (fr_seed f));
  x ← lift (add_writes f base_key wm_insert (seqZ 0 N) x);
  '(ex_result, x, m) ← do_read false x m;
  if decide (ex_result <> in_progress) then '(x, m) ← abort false x m; Done (gave_up, x, m)
  else
    let '(new_val, _) := hrd_fastrand (fr_resume f) in
    m ← lift (format_objs f new_val (seqZ 0 N) m);
    '(commit_result, x, m) ← commit false x m;
    Done (if decide (commit_result = committed) then did (Ins_N base_key new_val) else gave_up, x, m).

Definition run_txn (ty : stress_txn_type_t) (f : frame) (x : tx) (m : list byte) : prog stress_result :=
  match ty with
  | get_N => txn_get_N f x m
  | del_N => txn_del_N f x m
  | ins_N => txn_ins_N f x m
  end.

(** The loop of [slave_func], for as many transactions as there are frames: it chooses a
    type with the seed it finds, and the transaction goes on with the next one.  A
    transaction that ends the process is the last one. *)
Fixpoint slave_loop (workgen_arr : list stress_txn_type_t) (fs : list frame) (x : tx) (m : list byte)
    (sofar : list (stress_txn_type_t * outcome)) : prog (list (stress_txn_type_t * outcome)) :=
  match fs with
  | [] => Done sofar
  | f :: fs =>
      let '(r, tg_seed) := hrd_fastrand (fr_seed f) in
      txn_type ← lift (at_ workgen_arr (r mod 100));
      '(o, x, m) ← run_txn txn_type (mk_frame tg_seed (fr_resume f) (fr_obj f) (fr_un f)) x m;
      match o with
      | exits _ => Done (sofar ++ [(txn_type, o)])
      | gave_up | did _ => slave_loop workgen_arr fs x m (sofar ++ [(txn_type, o)])
      end
  end.

(** [rec] is the log record of the coroutine and [m] its memory. *)
Definition slave_func (coro_id : Z) (mp : Mappings.t) (rec : list byte) (workgen_arr : list stress_txn_type_t)
    (fs : list frame) (m : list byte) : prog (list (stress_txn_type_t * outcome)) :=
  _ ← lift (assert_ (negb (coro_id =? RPC_MASTER_CORO_ID)));
  x ← lift (Tx.make false coro_id true mp rec);
  slave_loop workgen_arr fs x m [].

End Transactions.

(** The largest packet, of [run_thread]. *)
Definition stress_max_pkt_size : res Z := max_pkt_size N sizeof_stress_val.

(** ** [stress_utils.cc] *)

Fixpoint init_replicas (cr cw : bool) (item_count : Z) (repls : list Z) : res (list table) :=
  match repls with
  | [] => Ok []
  | repl_i :: repls =>
      t ← ds_fixedtable_init cr cw item_count sizeof_stress_val (TABLE_BASE_SHM_KEY + repl_i) (repl_i =? 0);
      ts ← init_replicas cr cw item_count repls;
      Ok (t :: ts)
  end.

(** The two flags and the number of items come from the configuration. *)
Definition init_all_tables (cr cw : bool) (item_count num_replicas : Z) : res (list table) :=
  init_replicas cr cw item_count (seqZ 0 num_replicas).

Definition load_into_table (mp : Mappings.t) (t : table) (repl_i hots_key : Z) (val : list byte) : res (Z * table) :=
  let val_size := Z.of_nat (length val) in
  _ ← assert_ (val_size <=? HOTS_MAX_VALUE);
  keyhash ← ds_keyhash hots_key;
  if negb (Mappings.should_i_populate mp keyhash repl_i) then Ok (0, t)
  else
    '(out_result, t) ← set_spinlock (Mappings.wrkr_gid mp) keyhash hots_key val t;
    if decide (out_result = kSuccess) then Ok (1, t) else Err ExitFail.

(** The loop over the replicas of a row. *)
Fixpoint load_row (mp : Mappings.t) (repls : list Z) (key : Z) (val : list byte) (tbl : list table) : res (list table) :=
  match repls with
  | [] => Ok tbl
  | repl_i :: repls =>
      t ← at_ tbl repl_i;
      '(_, t) ← load_into_table mp t repl_i key val;
      load_row mp repls key val (<[Z.to_nat repl_i := t]> tbl)
  end.

Fixpoint populate_rows (mp : Mappings.t) (keys : list Z) (tbl : list table) : res (list table) :=
  match keys with
  | [] => Ok tbl
  | key :: keys =>
      tbl ← load_row mp (seqZ 0 (Mappings.num_replicas mp)) (stress_key key) (stress_val 0) tbl;
      populate_rows mp keys tbl
  end.

(** [populate_all_tables_barrier] up to the barrier. *)
Definition populate_table (mp : Mappings.t) (s : stress) (tbl : list table) : res (list table) :=
  populate_rows mp (seqZ 0 (num_rows_total s)) tbl.

End Stress.
