(* ===== verification/StressSpec.v ===== *)
(** * The stress test: its table of rows

    The choice of the keys ends and is in range; and the specification of the
    transactions: what each does to a table of rows, and that all keep neighbours equal,
    so that no reader has anything to report. *)

From S2P Require Import Prelude Util Random Hots FixedTable RpcDefs Tx TxSerial Stress.
From Stdlib Require Import ZArith Lia Bool.
From stdpp Require Import base numbers sets list.
#[local] Open Scope Z_scope.
Import Random FixedTable RpcDefs TxSerial Stress.

Module StressSpec.

#[local] Opaque hrd_fastrand.

(** ** Definitions *)

(** What the constructor promises. *)
Record stress_ok (s : stress) : Prop := {
  sk_rows : N < num_rows_total s < 2 ^ 31;
  sk_even : num_rows_total s mod N = 0
}.

(** The values of the rows, by key. *)
Notation srows := (Z -> option Z).

(** The keys of a transaction. *)
Definition keys_of (base_key : Z) : list Z := map (Z.add base_key) (seqZ 0 N).

(** The table in which the keys [ks] have a value [v], or none. *)
Definition set_rows (ks : list Z) (v : option Z) (D : srows) : srows := fun k => if decide (k ∈ ks) then v else D k.

(** What a transaction does to the rows, if it commits at all. *)
Definition run_op (op : stress_op) (D : srows) : option srows :=
  match op with
  | Get_N b vals => if decide (vals = map D (keys_of b)) then Some D else None
  | Del_N b => if decide (Forall (fun k => is_Some (D k)) (keys_of b)) then Some (set_rows (keys_of b) None D) else None
  | Ins_N b v => if decide (Forall (fun k => D k = None) (keys_of b)) then Some (set_rows (keys_of b) (Some v) D) else None
  end.

Fixpoint run_ops (ops : list stress_op) (D : srows) : option srows :=
  match ops with
  | [] => Some D
  | op :: ops => D ← run_op op D; run_ops ops D
  end.

(** The keys of a transaction are rows, from a multiple of [N] on. *)
Definition base_of (op : stress_op) : Z := match op with Get_N b _ | Del_N b | Ins_N b _ => b end.
Definition op_ok (R : Z) (op : stress_op) : Prop :=
  base_of op mod N = 0 /\ 0 <= base_of op < R - N /\ match op with Ins_N _ v => u 64 v | _ => True end.

(** Neighbours have the same value. *)
Definition uniform (D : srows) : Prop := forall b, b mod N = 0 -> exists v, forall k, k ∈ keys_of b -> D k = v.

(** A reader has nothing to report. *)
Definition clean (op : stress_op) : Prop :=
  match op with Get_N _ vals => exists v, vals = replicate (Z.to_nat N) v | _ => True end.

(** The entries of the table that a transaction reads and writes. *)
Definition at_table (ks : list Z) : list (Z * Z) := map (pair RPC_STRESS_TABLE_REQ) ks.
Definition op_reads (op : stress_op) : list (Z * Z) := match op with Get_N b _ => at_table (keys_of b) | _ => [] end.
Definition op_writes (op : stress_op) : list (Z * Z) := match op with Get_N _ _ => [] | Del_N b | Ins_N b _ => at_table (keys_of b) end.
Definition entry (D : srows) (tk : Z * Z) : option (list byte) := if tk.1 =? RPC_STRESS_TABLE_REQ then stress_val <$> D tk.2 else None.
Definition op_txn (op : stress_op) (D D' : srows) : txn := spec_txn (op_reads op) (op_writes op) (entry D) (entry D').

Definition rows_ok (D : srows) : Prop := forall k v, D k = Some v -> u 64 v.

(** The table holds the rows. *)
Definition represents (σ : Z -> Z -> option (list byte)) (D : srows) : Prop :=
  rows_ok D /\ forall k, σ RPC_STRESS_TABLE_REQ k = entry D (RPC_STRESS_TABLE_REQ, k).
Definition rows_of (σ : Z -> Z -> option (list byte)) : srows := fun k => le_val <$> σ RPC_STRESS_TABLE_REQ k.

(** A transaction on the table that is [op] on some rows. *)
Definition does_op (R : Z) (t : txn) (op : stress_op) : Prop :=
  op_ok R op /\ exists D D', rows_ok D /\ run_op op D = Some D' /\ t = op_txn op D D'.

(** The transactions of a ledger that have committed. *)
Notation ledger := (list (stress_txn_type_t * outcome)).
Definition out_op (o : outcome) : option stress_op := match o with gave_up => None | did op | exits op => Some op end.
Definition done_ops (l : ledger) : list stress_op := omap (fun e => out_op e.2) l.

(** The same with what was reported: only a reader that finds different neighbours ends
    the process. *)
Definition is_exit (o : outcome) : bool := match o with exits _ => true | gave_up | did _ => false end.
Definition out_tag (o : outcome) : option (stress_op * bool) := op ← out_op o; Some (op, is_exit o).
Definition done_outs (l : ledger) : list (stress_op * bool) := omap (fun e => out_tag e.2) l.
Definition does_out (R : Z) (t : txn) (ob : stress_op * bool) : Prop := does_op R t ob.1 /\ (ob.2 = true <-> ~ clean ob.1).

(** The process has not been ended. *)
Definition no_exit (l : ledger) : Prop := Forall (fun e => is_exit e.2 = false) l.

(** ** The choice of the keys *)

Lemma stress_make_ok nm wpm nr s : 0 < nm -> make nm wpm nr = Ok s -> stress_ok s /\ num_rows_total s = nm * ROWS_PER_MACHINE.
Proof.
  intros Hn H. unfold make in H. apply bind_ok in H as (rows & Hs & H). apply chk_int_ok in Hs as [-> Hi].
  change ROWS_PER_MACHINE with 100 in *. rewrite (wrap_id 32) in H by (unfold u; lia). injection H as <-. split; [|done]. split; cbn [num_rows_total].
  - change N with 2. lia.
  - change N with 2. replace (nm * 100) with (nm * 50 * 2) by lia. apply Z.mod_mul. lia.
Qed.

Lemma draw_base_step s seed : stress_ok s -> draw_base s seed =
  let ret := (hrd_fastrand seed).1 mod num_rows_total s in
  if decide (ret mod N = 0 /\ ret < num_rows_total s - N) then inr (Ok (ret, next seed)) else inl (next seed).
Proof.
  intros [Hr _]. change N with 2 in *. unfold draw_base, next. destruct (Z.eqb_spec (num_rows_total s) 0); [lia|].
  destruct (hrd_fastrand seed) as [r seed']. cbn [fst snd]. change N with 2. rewrite wrap_id by (unfold u; lia). cbv zeta.
  generalize (r mod num_rows_total s) as ret. intros ret.
  destruct (Z.eqb_spec (ret mod 2) 0), (Z.leb_spec (num_rows_total s - 2) ret); cbn [negb orb]; case_decide; try done; lia.
Qed.

(** The loop ends, with the key of a row from which [N] rows and one more follow. *)
Lemma base_key_ok s seed : stress_ok s -> exists b seed', get_base_key s seed = Ok (b, seed') /\ b mod N = 0 /\ 0 <= b < num_rows_total s - N.
Proof.
  intros Hs. pose proof (sk_rows s Hs) as Hr. change N with 2 in Hr. unfold get_base_key.
  destruct (loop_draws (draw_base s) 0 seed) as (sd & b & -> & E).
  - done.
  - intros sd. rewrite draw_base_step by done. cbv zeta. case_decide; [right; by eexists|by left].
  - intros sd E. rewrite draw_base_step, E by done. cbv zeta. rewrite (Z.mod_0_l (num_rows_total s)) by lia. rewrite decide_True; [by eexists|].
    change N with 2. split; [done|lia].
  - rewrite draw_base_step in E by done. cbv zeta in E. case_decide as Hd; [|done]. injection E as <-. do 2 eexists. split; [done|].
    split; [apply Hd|]. split; [apply Z.mod_pos_bound; lia|apply Hd].
Qed.

(** ** The rows behind the table *)

Lemma keys_elem b k : k ∈ keys_of b <-> b <= k < b + N.
Proof.
  unfold keys_of. rewrite list_elem_of_fmap. setoid_rewrite elem_of_seqZ. split; [intros (i & -> & Hi); lia|].
  intros Hk. exists (k - b). lia.
Qed.

Lemma keys_nodup b : NoDup (keys_of b).
Proof. unfold keys_of. apply NoDup_fmap_2; [intros i j; lia|apply NoDup_seqZ]. Qed.

Lemma stress_val_length v : length (stress_val v) = 8%nat.
Proof. apply length_le_bytes. Qed.

Lemma entry_row D D' k :
  rows_ok D -> rows_ok D' -> entry D (RPC_STRESS_TABLE_REQ, k) = entry D' (RPC_STRESS_TABLE_REQ, k) -> D k = D' k.
Proof.
  intros H H'. unfold entry. cbn [fst snd]. rewrite Z.eqb_refl. destruct (D k) as [v|] eqn:E, (D' k) as [v'|] eqn:E'; try done. cbn [fmap option_fmap option_map].
  intros Ev. apply (inj Some) in Ev. f_equal. apply (f_equal le_val) in Ev. unfold stress_val in Ev.
  rewrite (le_val_bytes 8 v (H _ _ E)), (le_val_bytes 8 v' (H' _ _ E')) in Ev. done.
Qed.

(** What is in the table when it holds numbers of 8 bytes. *)
Lemma table_represents σ :
  (forall k x, σ RPC_STRESS_TABLE_REQ k = Some x -> exists v, u 64 v /\ x = stress_val v) -> represents σ (rows_of σ).
Proof.
  intros H. split.
  - intros k v E. unfold rows_of in E. apply fmap_Some in E as (x & Ex & ->). destruct (H k x Ex) as (v & Hv & ->). unfold stress_val. by rewrite le_val_bytes.
  - intros k. unfold entry, rows_of. cbn [fst snd]. rewrite Z.eqb_refl. destruct (σ RPC_STRESS_TABLE_REQ k) as [x|] eqn:E; [|done].
    destruct (H k x E) as (v & Hv & ->). cbn [fmap option_fmap option_map]. unfold stress_val. by rewrite le_val_bytes.
Qed.

(** There is only one table of rows that it holds. *)
Lemma represents_rows σ D k : represents σ D -> rows_of σ k = D k.
Proof.
  intros [HD H]. unfold rows_of. rewrite H. unfold entry. cbn [fst snd]. rewrite Z.eqb_refl. destruct (D k) as [v|] eqn:E; [|done].
  cbn [fmap option_fmap option_map]. f_equal. apply (le_val_bytes 8), (HD _ _ E).
Qed.

Lemma represents_uniform σ D : represents σ D -> uniform D -> uniform (rows_of σ).
Proof. intros Hr Hu b Hb. destruct (Hu b Hb) as (v & Hv). exists v. intros k Hk. rewrite (represents_rows σ D k Hr). by apply Hv. Qed.

(** A transaction depends on its own keys only, and changes only those. *)
Lemma stress_run_op_same op D B D' :
  run_op op D = Some D' -> (forall k, k ∈ keys_of (base_of op) -> D k = B k) ->
  exists B', run_op op B = Some B' /\ (forall k, k ∈ keys_of (base_of op) -> D' k = B' k) /\
    forall k, (RPC_STRESS_TABLE_REQ, k) ∉ op_writes op -> B' k = B k.
Proof.
  intros H Hs. assert (forall k, (RPC_STRESS_TABLE_REQ, k) ∉ at_table (keys_of (base_of op)) -> k ∉ keys_of (base_of op)) as Hn.
  { intros k Hk Hin. apply Hk. by apply (list_elem_of_fmap_2 (pair RPC_STRESS_TABLE_REQ)). }
  destruct op as [b vals|b|b v]; cbn [run_op base_of op_writes] in *; case_decide as Hd; try done; apply (inj Some) in H as <-; eexists; (split; [|split]).
  - rewrite decide_True; [done|]. rewrite Hd. apply map_ext_in. intros k Hk%list_elem_of_In. by apply Hs.
  - done.
  - done.
  - rewrite decide_True; [done|]. rewrite Forall_forall in Hd. apply Forall_forall. intros k Hk. rewrite <- Hs by done. by apply Hd.
  - intros k Hk. unfold set_rows. by rewrite !decide_True.
  - intros k Hk%Hn. unfold set_rows. by rewrite decide_False.
  - rewrite decide_True; [done|]. rewrite Forall_forall in Hd. apply Forall_forall. intros k Hk. rewrite <- Hs by done. by apply Hd.
  - intros k Hk. unfold set_rows. by rewrite !decide_True.
  - intros k Hk%Hn. unfold set_rows. by rewrite decide_False.
Qed.

Lemma stress_run_op_ok R op D D' : op_ok R op -> rows_ok D -> run_op op D = Some D' -> rows_ok D'.
Proof.
  intros (_ & _ & Hop) HD H. destruct op as [b vals|b|b v]; cbn [run_op] in H; case_decide; try done; apply (inj Some) in H as <-; try done;
    intros k w; unfold set_rows; case_decide; try apply HD; [done|]. by intros [= <-].
Qed.

(** The table after a transaction is that of the rows after it. *)
Lemma stress_op_refines R op D D' σ B :
  op_ok R op -> rows_ok D -> run_op op D = Some D' -> represents σ B -> enabled (op_txn op D D') σ ->
  exists B', run_op op B = Some B' /\ represents (apply_txn (op_txn op D D') σ) B'.
Proof.
  intros Hop HD Hrun [HB Hrep] Hen%spec_enabled.
  assert (op_reads op ++ op_writes op = at_table (keys_of (base_of op))) as Eks by (destruct op; cbn [op_reads op_writes base_of app]; by rewrite ?app_nil_r).
  rewrite Eks, Forall_forall in Hen. assert (forall k, k ∈ keys_of (base_of op) -> D k = B k) as Heq.
  { intros k Hk. apply entry_row; [done|done|]. rewrite <- Hrep. symmetry. apply (Hen (RPC_STRESS_TABLE_REQ, k)).
    by apply (list_elem_of_fmap_2 (pair RPC_STRESS_TABLE_REQ)). }
  destruct (stress_run_op_same op D B D' Hrun Heq) as (B' & Hrun' & Hsame & Hrest). exists B'. split; [done|].
  split; [by apply (stress_run_op_ok R op B)|]. intros k. unfold op_txn. rewrite spec_apply. unfold entry. cbn [fst snd]. rewrite Z.eqb_refl.
  case_decide as Hel; [|rewrite Hrest by done; by rewrite Hrep]. rewrite Hsame; [done|].
  assert ((RPC_STRESS_TABLE_REQ, k) ∈ at_table (keys_of (base_of op))) as Hin by (rewrite <- Eks; apply elem_of_app; by right).
  apply list_elem_of_fmap in Hin as (k' & [= <-] & Hk). done.
Qed.

(** Transactions on the table, one after another, are transactions on the rows. *)
Lemma stress_ops_refine R ts ops : Forall2 (does_op R) ts ops -> forall σ B,
  valid σ ts -> represents σ B -> exists B', run_ops ops B = Some B' /\ represents (final σ ts) B'.
Proof.
  induction 1 as [|t op ts ops (Hop & D & D' & HD & Hrun & ->) _ IH]; intros σ B Hv Hrep; [by exists B|].
  destruct Hv as [Hen Hv]. destruct (stress_op_refines R op D D' σ B Hop HD Hrun Hrep Hen) as (B1 & E1 & Hrep1).
  destruct (IH _ B1 Hv Hrep1) as (B' & E' & Hrep'). exists B'. split; [|done]. cbn [run_ops]. by rewrite E1.
Qed.

(** ** Neighbours *)

(** Blocks of keys are the same or disjoint. *)
Lemma keys_blocks b b' k : b mod N = 0 -> b' mod N = 0 -> k ∈ keys_of b -> k ∈ keys_of b' -> b = b'.
Proof.
  rewrite !keys_elem. change N with 2. intros H H'. apply Z.div_exact in H; [|lia]. apply Z.div_exact in H'; [|lia]. lia.
Qed.

Lemma set_rows_uniform b v D : b mod N = 0 -> uniform D -> uniform (set_rows (keys_of b) v D).
Proof.
  intros Hb HD b' Hb'. destruct (decide (b' = b)) as [->|Hne].
  - exists v. intros k Hk. unfold set_rows. by rewrite decide_True.
  - destruct (HD b' Hb') as (v' & Hv). exists v'. intros k Hk. unfold set_rows. rewrite decide_False; [by apply Hv|].
    intros Hk'. apply Hne. by apply (keys_blocks b' b k).
Qed.

(** Transactions keep neighbours equal, and a reader finds them so. *)
Lemma run_op_uniform R op D D' : op_ok R op -> uniform D -> run_op op D = Some D' -> uniform D' /\ clean op.
Proof.
  intros (Hb & _) HD H. destruct op as [b vals|b|b v]; cbn [run_op base_of] in *; case_decide as Hd; try done; apply (inj Some) in H as <-.
  - split; [done|]. destruct (HD b Hb) as (v & Hv). exists v. rewrite Hd. symmetry. apply replicate_as_Forall_2.
    + unfold keys_of. rewrite !length_map, length_seqZ. done.
    + apply Forall_map, Forall_forall. intros k Hk. by rewrite Hv.
  - split; [|done]. by apply set_rows_uniform.
  - split; [|done]. by apply set_rows_uniform.
Qed.

Lemma run_ops_uniform R ops : Forall (op_ok R) ops -> forall D D', uniform D -> run_ops ops D = Some D' -> uniform D' /\ Forall clean ops.
Proof.
  induction 1 as [|op ops Hop _ IH]; intros D D' HD H; [by injection H as <-|]. cbn [run_ops] in H. apply bind_Some in H as (D1 & E1 & H).
  destruct (run_op_uniform R op D D1 Hop HD E1) as [H1 Hc]. destruct (IH D1 D' H1 H) as [H2 Hcs]. split; [done|]. by constructor.
Qed.

End StressSpec.
