(* ===== verification/StressTx.v ===== *)
(** * The stress test: the transactions

    Each transaction of the application runs without a failed assertion, and when it
    commits it is a transaction on the rows, which ends the process only if the rows that
    it has read are different; so a coroutine that runs any number of them does what its
    ledger says. *)

From S2P Require Import Prelude Util Random Hots Mappings FixedTable FixedTableInv FixedTableOps FixedTableSteps Datastore.
From S2P Require Import DatastoreSpec RpcDefs RpcBatch Logger Tx TxWorld TxMem TxSpec TxExec TxUpdate TxStage.
From S2P Require Import TxSerial TxTransaction TxSession TxCluster TxApp Stress StressSpec.
From Stdlib Require Import ZArith Lia Bool.
From stdpp Require Import base numbers sets list gmap relations.
#[local] Open Scope Z_scope.
Import FixedTable FixedTableOps DatastoreSpec RpcDefs RpcBatch Tx TxWorld TxMem TxSpec TxExec TxUpdate TxStage.
Import TxSerial TxTransaction TxSession TxCluster TxApp Stress StressSpec.

Module StressTx.

#[local] Opaque hrd_fastrand get_base_key.

(** ** Definitions *)

Definition stress_types : types :=
  mk_types (fun ty => ty =? RPC_STRESS_TABLE_REQ) (fun _ => false) (fun _ => sizeof_stress_val)
    (fun _ _ v => forall x, v = Some x -> exists z, u 64 z /\ x = stress_val z).

(** What a call finds: an object of its own for each key. *)
Record frame_ok (m : list byte) (f : frame) : Prop := {
  fo_objs : layout m (map (obj_i f) (seqZ 0 N));
  fo_un i : uninit_ok (fr_un f i)
}.

(** The keys that are added. *)
Definition read_add (f : frame) (b i : Z) : add_op := add_read RPC_STRESS_TABLE_REQ (b + i) (obj_i f i) (fr_un f (Z.to_nat i)).
Definition write_add (f : frame) (b : Z) (mode : tx_write_mode_t) (i : Z) : add_op :=
  add_write RPC_STRESS_TABLE_REQ (b + i) (obj_i f i) mode (fr_un f (Z.to_nat i)).

(** ** Types *)

Lemma prim_stress ty : ty_prim stress_types ty = true <-> ty = RPC_STRESS_TABLE_REQ.
Proof. apply Z.eqb_eq. Qed.

Lemma stress_types_ok nback : nback <= HOTS_MAX_BACKUPS -> types_ok stress_types nback.
Proof.
  change HOTS_MAX_BACKUPS with 2. intros Hn. split.
  - intros ty ->%prim_stress. by vm_compute.
  - intros ty ->%prim_stress. by vm_compute.
  - intros ty k v ->%prim_stress Hv. destruct (Hv v eq_refl) as (z & _ & ->). by rewrite stress_val_length.
  - intros ty r ->%prim_stress Hr. assert (r = 1 \/ r = 2) as [-> | ->] by lia; done.
  - intros ty ty' r r' ->%prim_stress ->%prim_stress. done.
Qed.

(** ** Objects *)

Lemma stress_frame_ext m m' f : length m' = length m -> frame_ok m f -> frame_ok m' f.
Proof. intros E [H1 H2]. split; [by apply (layout_ext m)|done]. Qed.

Lemma frame_objs m f : frame_ok m f -> obj_at m (obj_i f 0) /\ obj_at m (obj_i f 1) /\ apart (obj_i f 0) (obj_i f 1).
Proof. intros [(H0 & A0 & H1 & _) _]. by apply Forall_cons in A0 as [A0 _]. Qed.

(** The value of a row that an object may hold. *)
Definition row_in (m : list byte) (o : Z) (z : option Z) : Prop :=
  match z with Some v => u 64 v /\ obj_has m o (stress_val v) | None => obj_sized m o 0 end.

Definition size_of (z : option Z) : Z := match z with Some _ => 8 | None => 0 end.

Lemma row_in_size m o z : row_in m o z -> obj_val_size m o = Ok (size_of z).
Proof.
  unfold row_in, obj_val_size. intros H. destruct z as [v|].
  - destruct H as [_ [_ H]]. unfold obj_sized in H. rewrite stress_val_length in H. by rewrite H.
  - unfold obj_sized in H. by rewrite H.
Qed.

(** The objects of a row that is to be inserted. *)
Lemma format_obj m o v :
  obj_at m o -> u 64 v -> exists m1 m2, set_val_size sizeof_stress_val o m = Ok m1 /\ set_val o v m1 = Ok m2 /\ keeps [o] m m2 /\
    row_at m2 o (stress_val v).
Proof.
  intros [H0 H1] Hv. change sizeof_hots_obj_t with 56 in H1. unfold set_val_size, set_val, store_le.
  destruct (write_at_some (Z.to_nat o) (le_bytes 8 sizeof_stress_val) m) as (m1 & E1 & L1); [rewrite length_le_bytes; lia|].
  destruct (write_at_some (Z.to_nat (o + 16)) (le_bytes 8 v) m1) as (m2 & E2 & L2); [rewrite length_le_bytes; lia|].
  exists m1, m2. split; [done|]. split; [done|]. split.
  - split; [lia|]. intros off n Ho. apply Forall_cons in Ho as [Ho _]. change sizeof_hots_obj_t with 56 in Ho.
    rewrite (read_write_at_ne _ _ _ _ off n E2) by (rewrite length_le_bytes; lia). by rewrite (read_write_at_ne _ _ _ _ off n E1) by (rewrite length_le_bytes; lia).
  - split; [split; [done|]; change sizeof_hots_obj_t with 56; lia|]. split; [|by rewrite stress_val_length].
    pose proof (read_write_at _ _ _ _ E2) as R2. pose proof (read_write_at _ _ _ _ E1) as R1. rewrite length_le_bytes in R1, R2.
    split; [by rewrite stress_val_length|]. unfold obj_sized. rewrite stress_val_length, (read_write_at_ne _ _ _ _ _ 8 E2) by (rewrite length_le_bytes; lia). exact R1.
Qed.

Section Transactions.
Context (mp : Mappings.t) (s : stress) (idx : Z -> Z -> Z -> nat) (coros self pkt : Z).
Context (HM : Mappings.replicated mp) (Hs : stress_ok s) (Hpkt : 92 <= pkt).
Notation R := (num_rows_total s).
Notation T := stress_types.
Notation C := (cluster_of mp T idx coros).
Notation tx_base := (tx_base mp coros self).
Notation executed := (executed mp T idx coros self pkt).
Notation slot_read := (slot_read mp T idx coros).
Notation slot_write := (slot_write mp T idx coros).
Notation slot_ready := (slot_ready mp T idx coros).

Lemma stress_T_ok : types_ok T (Mappings.num_backups mp).
Proof. apply stress_types_ok. destruct HM as [Hwf _]. apply (Mappings.wf_backups mp Hwf). Qed.

(** ** The sets *)

Lemma key_wrap b i : 0 <= b < R - N -> 0 <= i < N -> stress_key (wrap 64 (b + i)) = b + i.
Proof. pose proof (sk_rows s Hs). unfold stress_key. change N with 2 in *. intros Hb Hi. apply wrap_id. unfold u. lia. Qed.

Lemma add_writes_run f b mode x : 0 <= b < R - N -> add_writes f b mode (seqZ 0 N) x = run_adds (map (write_add f b mode) (seqZ 0 N)) x.
Proof.
  intros Hb. assert (Forall (fun i => 0 <= i < N) (seqZ 0 N)) as Hi by (apply Forall_forall; intros i Hi%elem_of_seqZ; lia). revert x.
  induction Hi as [|i ixs Hi _ IH]; intros x; [done|]. cbn [add_writes map run_adds run_add write_add]. rewrite key_wrap by done.
  destruct (add_to_write_set _ _ _ _ _ x) as [[? x']|]; [|done]. apply IH.
Qed.

Lemma add_reads_run f b x m : 0 <= b < R - N -> frame_ok m f -> exists m', length m' = length m /\
  add_reads f b (seqZ 0 N) x m = x ← run_adds (map (read_add f b) (seqZ 0 N)) x; Ok (x, m').
Proof.
  intros Hb [Hly _]. assert (Forall (fun i => 0 <= i < N) (seqZ 0 N)) as Hi by (apply Forall_forall; intros i Hi%elem_of_seqZ; lia). revert x m Hly.
  induction Hi as [|i ixs Hi _ IH]; intros x m Hly; [by exists m|]. cbn [add_reads map run_adds run_add read_add]. rewrite key_wrap by done.
  destruct Hly as ([H0 H1] & _ & Hly). change sizeof_hots_obj_t with 56 in H1.
  destruct (write_at_some (Z.to_nat (obj_i f i)) (replicate 16 0) m) as (m1 & -> & L1); [rewrite length_replicate; unfold byte in *; lia|]. rewrite bind_Ok.
  destruct (add_to_read_set _ _ _ _ x) as [[? x']|]; [|by exists m1].
  destruct (IH x' m1) as (m' & L & E); [by apply (layout_ext m)|]. exists m'. split; [unfold byte in *; lia|]. exact E.
Qed.

Lemma base_key_fits b i : 0 <= b < R - N -> 0 <= i < N -> u 64 (b + i) /\ b + i <> kFtInvalidKey.
Proof. pose proof (sk_rows s Hs). change kFtInvalidKey with (2 ^ 64 - 1). change N with 2 in *. unfold u. lia. Qed.

Lemma read_fits m f b : 0 <= b < R - N -> frame_ok m f -> ops_fit T pkt m (map (read_add f b) (seqZ 0 N)).
Proof.
  intros Hb Hf. pose proof (base_key_fits b 0 Hb ltac:(done)) as [K0 K0']. pose proof (base_key_fits b 1 Hb ltac:(done)) as [K1 K1'].
  split; [each; split_and!; try done; apply Hf|done|apply NoDup_nil_2|exact (fo_objs m f Hf)|]. change (56 <= pkt /\ 16 <= pkt). lia.
Qed.

Lemma write_fits m f b mode : 0 <= b < R - N -> frame_ok m f -> ops_fit T pkt m (map (write_add f b mode) (seqZ 0 N)).
Proof.
  intros Hb Hf. pose proof (base_key_fits b 0 Hb ltac:(done)) as [K0 K0']. pose proof (base_key_fits b 1 Hb ltac:(done)) as [K1 K1'].
  split; [each; split_and!; try done; apply Hf|done| |exact (fo_objs m f Hf)|change (56 <= pkt /\ 88 <= pkt); lia].
  change (NoDup (at_table (keys_of b))). apply NoDup_fmap_2; [|apply keys_nodup]. by intros i j [= ?].
Qed.


(** ** Slots and rows *)

Notation txn_does := (TxApp.txn_does (does_out R) (fun o => option_list (out_tag o))).
Notation ends := (TxApp.ends mp T idx coros self (does_out R) (fun o => option_list (out_tag o))).

(** Rows with given values for the keys of a transaction. *)
Definition two (b : Z) (z0 z1 : option Z) : srows := fun k => if k =? b + 0 then z0 else if k =? b + 1 then z1 else None.

Lemma two_keys b z0 z1 : map (two b z0 z1) (keys_of b) = [z0; z1].
Proof. change (map (two b z0 z1) (keys_of b)) with [two b z0 z1 (b + 0); two b z0 z1 (b + 1)]. unfold two. rewrite !Z.eqb_refl. by destruct (Z.eqb_spec (b + 1) (b + 0)); [lia|]. Qed.

Lemma two_entries b z0 z1 : map (entry (two b z0 z1)) (at_table (keys_of b)) = [stress_val <$> z0; stress_val <$> z1].
Proof.
  transitivity (map (fun z => stress_val <$> z) (map (two b z0 z1) (keys_of b))); [|by rewrite two_keys]. unfold at_table. rewrite !map_map. reflexivity.
Qed.

Lemma two_ok b z0 z1 : (forall v, z0 = Some v -> u 64 v) -> (forall v, z1 = Some v -> u 64 v) -> rows_ok (two b z0 z1).
Proof. intros H0 H1 k v. unfold two. case_match; [apply H0|]. case_match; [apply H1|done]. Qed.

Lemma clean_two b z0 z1 : clean (Get_N b [z0; z1]) <-> z0 = z1.
Proof. cbn [clean]. change (replicate (Z.to_nat N)) with (@replicate (option Z) 2). split; [by intros (v & [= -> ->])|]. intros ->. by exists z1. Qed.

(** What the object of a slot holds. *)
Lemma stress_slot_row m k o v : slot_read m (RPC_STRESS_TABLE_REQ, k, o) v -> exists z, v = stress_val <$> z /\ row_in m o z.
Proof.
  intros [Hm Hok]. destruct v as [x|]; [|by exists None]. destruct (Hok x eq_refl) as (z & Hz & ->). by exists (Some z).
Qed.

Lemma row_in_u m o z v : row_in m o z -> z = Some v -> u 64 v.
Proof. by intros H ->; destruct H. Qed.

Lemma del_row m k o v : slot_write m (RPC_STRESS_TABLE_REQ, k, o, wm_del) v -> exists z, v = stress_val <$> Some z /\ row_in m o (Some z).
Proof.
  intros H. apply (write_read mp T idx coros) in H as [H Hn]; [|done]. destruct (stress_slot_row m k o v H) as ([z|] & -> & Hr); [by exists z|done].
Qed.

Lemma back_val m k o v : slot_back m (RPC_STRESS_TABLE_REQ, k, o) (stress_val <$> Some v) -> u 64 v -> get_val o m = Ok v.
Proof.
  intros H Hv. specialize (H _ eq_refl). cbn [snd] in H. rewrite stress_val_length in H. unfold get_val, load_le. rewrite H, bind_Ok.
  f_equal. by apply (le_val_bytes 8).
Qed.

(** ** The transactions *)

(** What a reader does with the values it has seen. *)
Lemma get_report f b z0 z1 k0 k1 (x : tx) (m : list byte) :
  slot_back m (RPC_STRESS_TABLE_REQ, k0, obj_i f 0) (stress_val <$> z0) -> slot_back m (RPC_STRESS_TABLE_REQ, k1, obj_i f 1) (stress_val <$> z1) ->
  (forall v, z0 = Some v -> u 64 v) -> (forall v, z1 = Some v -> u 64 v) ->
  let num_exists := count_exists [size_of z0; size_of z1] in
  (value_mismatch ← lift (if num_exists =? N then val_0 ← get_val (obj_i f 0) m; compare_vals f val_0 (seqZ 1 (N - 1)) false m else Ok false);
   vals ← lift (seen_vals f (seqZ 0 N) [size_of z0; size_of z1] m);
   Done ((if (negb (num_exists =? N) && negb (num_exists =? 0)) || value_mismatch then exits else did) (Get_N b vals), x, m)) =
  Done ((if decide (z0 = z1) then did else exits) (Get_N b [z0; z1]), x, m).
Proof.
  intros B0 B1 U0 U1. change (seqZ 0 N) with [0; 1]. change (seqZ 1 (N - 1)) with [1]. change N with 2.
  destruct z0 as [v0|], z1 as [v1|]; cbn [size_of count_exists foldr]; cbn.
  - rewrite (back_val m _ _ _ B0 (U0 _ eq_refl)), (back_val m _ _ _ B1 (U1 _ eq_refl)). cbn. destruct (Z.eqb_spec v0 v1) as [->|Hne]; [by rewrite decide_True|].
    by rewrite decide_False by congruence.
  - by rewrite (back_val m _ _ _ B0 (U0 _ eq_refl)).
  - by rewrite (back_val m _ _ _ B1 (U1 _ eq_refl)).
  - done.
Qed.

Lemma get_N_behaves f x m : tx_base x -> frame_ok m f -> behaves C pkt self (txn_get_N s f x m) (txn_does x m).
Proof.
  intros Hb Hf w Hg Ho. unfold txn_get_N. destruct (base_key_ok s (fr_seed f) Hs) as (b & sd & -> & Hbm & Hbr). rewrite lift_Ok.
  destruct (add_reads_run f b (start x) m Hbr Hf) as (m1 & Hl1 & Eadd). pose proof (stress_frame_ext m m1 f Hl1 Hf) as Hf1.
  set (ops := map (read_add f b) (seqZ 0 N)) in *.
  eapply (first_runs mp T idx coros HM stress_T_ok self pkt w ops x m1); [done|by apply read_fits|done|done| |].
  { intros x' E. rewrite Eadd, E, bind_Ok, lift_Ok. reflexivity. }
  intros [[st x'] m'] s1 (Hk & Hl & Hpe & Hsh & Hres). cbn beta iota. destruct Hres as [[-> _]|(-> & vr & vw & _ & Hex)].
  { rewrite decide_True by done. apply (ends_rdonly mp T idx coros self pkt _ _ w gave_up ops); try done. congruence. }
  rewrite decide_False by (by intros []). destruct (executed_slots mp T idx coros self pkt w ops x x' m' vr vw s1 Hex) as [Sr Sw].
  apply Forall2_nil_inv_l in Sw as ->. apply Forall2_cons_inv_l in Sr as (v0 & vr0 & S0 & Sr & ->). apply Forall2_cons_inv_l in Sr as (v1 & vr1 & S1 & Sr & ->).
  apply Forall2_nil_inv_l in Sr as ->. destruct (stress_slot_row m' (b + 0) (obj_i f 0) _ S0) as (z0 & -> & R0). destruct (stress_slot_row m' (b + 1) (obj_i f 1) _ S1) as (z1 & -> & R1).
  assert (exec_sizes f (seqZ 0 N) m' = Ok [size_of z0; size_of z1]) as ->.
  { change (seqZ 0 N) with [0; 1]. cbn [exec_sizes]. by rewrite (row_in_size m' _ _ R0), (row_in_size m' _ _ R1). }
  pose proof (fun v => row_in_u m' _ z0 v R0) as U0. pose proof (fun v => row_in_u m' _ z1 v R1) as U1.
  rewrite lift_Ok. apply wp_bind. set (op := Get_N b [z0; z1]). set (D := two b z0 z1).
  assert (does_op R (op_txn op D D) op) as Hdo.
  { split; [done|]. exists D, D. split; [by apply two_ok|]. split; [|done]. cbn [run_op op]. unfold D. by rewrite two_keys, decide_True. }
  eapply wp_mono.
  { apply (commit_made mp T idx coros HM stress_T_ok self pkt w (op_reads op) (op_writes op) ops x x' m' s1 m' [stress_val <$> z0; stress_val <$> z1] [] (entry D) (entry D)); [done|exact Hex| |done|by each].
    split; [done|done| |done]. symmetry. apply two_entries. }
  intros [[st x2] m2] s2 (H1 & H2 & H3 & H4 & [(-> & Hbk & Ha)|(-> & _ & Ha)]).
  2: { rewrite decide_False by done. apply ends_none; try done. congruence. }
  rewrite decide_True by done. apply Forall2_cons in Hbk as [B0 Hbk]. apply Forall2_cons in Hbk as [B1 _]. rewrite (get_report f b z0 z1 _ _ x2 m2 B0 B1 U0 U1).
  apply (ends_one mp T idx coros self _ _ w (op, negb (bool_decide (z0 = z1))) _ x m x2 m2 s2 (op_txn op D D)); try done.
  - rewrite bool_decide_decide. by destruct (decide (z0 = z1)).
  - congruence.
  - split; [done|]. cbn [fst snd]. rewrite negb_true_iff, bool_decide_eq_false. unfold op. by rewrite clean_two.
Qed.

(** The transactions that write: nothing of theirs is reported. *)
Lemma ends_write w op ops x0 m0 x m s1 m2 D D' vw :
  tx_base x0 -> op_ok R op -> match op with Get_N _ _ => False | _ => True end -> executed w ops x0 x m [] vw s1 ->
  made (op_reads op) (op_writes op) ops (entry D) [] vw -> rows_ok D -> run_op op D = Some D' -> length m2 = length m -> length m = length m0 ->
  Forall (fun sl => slot_ready m2 sl /\ slot_new T m2 sl = entry D' sl.1.1) (wslots ops) ->
  wp C self pkt ('(st, x, m) ← commit false x m2; Done (if decide (st = committed) then did op else gave_up, x, m)) (ends w x0 m0) s1.
Proof.
  intros Hb Hop Hw Hex Hm HD Hrun Hl Hl0 Hsl. apply wp_bind.
  eapply wp_mono; [by apply (commit_made mp T idx coros HM stress_T_ok self pkt w _ _ ops x0 x m s1 m2 _ _ _ _ Hb Hex Hm Hl Hsl)|].
  intros [[st x'] m'] s' (H1 & H2 & H3 & H4 & [(-> & _ & Ha)|(-> & _ & Ha)]).
  - rewrite decide_True by done. apply (ends_one mp T idx coros self _ _ w (op, false) _ x0 m0 x' m' s' (op_txn op D D')); try done; [lia|].
    split; [split; [done|]; by exists D, D'|]. cbn [fst snd]. split; [done|]. destruct op; [done|..]; intros Hn; by destruct Hn.
  - rewrite decide_False by done. apply ends_none; try done. lia.
Qed.

(** The rows of a transaction after it, for its keys. *)
Lemma set_entry b v D i : 0 <= i < N -> entry (set_rows (keys_of b) v D) (RPC_STRESS_TABLE_REQ, b + i) = stress_val <$> v.
Proof. intros Hi. unfold entry, set_rows. cbn [fst snd]. rewrite Z.eqb_refl, decide_True; [done|]. apply keys_elem. lia. Qed.

Lemma del_N_behaves f x m : tx_base x -> frame_ok m f -> behaves C pkt self (txn_del_N s f x m) (txn_does x m).
Proof.
  intros Hb Hf w Hg Ho. unfold txn_del_N. destruct (base_key_ok s (fr_seed f) Hs) as (b & sd & -> & Hbm & Hbr). rewrite lift_Ok.
  rewrite add_writes_run by done. set (ops := map (write_add f b wm_del) (seqZ 0 N)).
  eapply (first_runs mp T idx coros HM stress_T_ok self pkt w ops x m); [done|by apply write_fits|done|done| |].
  { intros x' E. rewrite E, lift_Ok. reflexivity. }
  intros [[st x'] m'] s1 (Hk & Hl & Hpe & Hsh & Hres). cbn beta iota. destruct Hres as [[-> _]|(-> & vr & vw & _ & Hex)].
  { rewrite decide_True by done. by apply (ends_abort mp T idx coros HM stress_T_ok). }
  rewrite decide_False by (by intros []). destruct (executed_slots mp T idx coros self pkt w ops x x' m' vr vw s1 Hex) as [Sr Sw].
  apply Forall2_nil_inv_l in Sr as ->. apply Forall2_cons_inv_l in Sw as (v0 & vw0 & S0 & Sw & ->). apply Forall2_cons_inv_l in Sw as (v1 & vw1 & S1 & Sw & ->).
  apply Forall2_nil_inv_l in Sw as ->. destruct (del_row m' (b + 0) (obj_i f 0) _ S0) as (z0 & -> & R0). destruct (del_row m' (b + 1) (obj_i f 1) _ S1) as (z1 & -> & R1).
  destruct (frame_objs m' f (stress_frame_ext m m' f Hl Hf)) as ([O0 O0'] & [O1 O1'] & _). change sizeof_hots_obj_t with 56 in O0', O1'.
  set (D := two b (Some z0) (Some z1)).
  apply (ends_write w (Del_N b) ops x m x' m' s1 m' D (set_rows (keys_of b) None D) [stress_val <$> Some z0; stress_val <$> Some z1]); try done.
  - split; [done|done|done|]. symmetry. apply two_entries.
  - apply two_ok; intros v; [by apply (row_in_u m' (obj_i f 0))|by apply (row_in_u m' (obj_i f 1))].
  - cbn [run_op]. rewrite decide_True; [done|]. apply (Forall_map (two b (Some z0) (Some z1)) is_Some). rewrite two_keys. each; by eexists.
  - pose proof (proj2 (proj2 R0)) as Z0. pose proof (proj2 (proj2 R1)) as Z1. unfold obj_sized in Z0, Z1. rewrite stress_val_length in Z0, Z1.
    change (wslots ops) with [(RPC_STRESS_TABLE_REQ, b + 0, obj_i f 0, wm_del); (RPC_STRESS_TABLE_REQ, b + 1, obj_i f 1, wm_del)].
    each; (split; [split; [done|]; split; [change (ty_vsz T _) with 8; lia|]; split; [done|by intros y]|]); symmetry; [apply (set_entry b None D 0)|apply (set_entry b None D 1)]; done.
Qed.

(** The objects of the rows to be inserted. *)
Lemma format_objs_ok m f v :
  frame_ok m f -> u 64 v -> exists m', format_objs f v (seqZ 0 N) m = Ok m' /\ length m' = length m /\
    row_at m' (obj_i f 0) (stress_val v) /\ row_at m' (obj_i f 1) (stress_val v).
Proof.
  intros Hf Hv. destruct (frame_objs m f Hf) as (O0 & O1 & Ha). change (seqZ 0 N) with [0; 1]. cbn [format_objs].
  destruct (format_obj m (obj_i f 0) v O0 Hv) as (ma & mb & -> & E1 & K1 & W0). rewrite bind_Ok, E1, bind_Ok.
  destruct (format_obj mb (obj_i f 1) v) as (mc & md & -> & E2 & K2 & W1); [unfold obj_at; by rewrite (proj1 K1)|done|]. rewrite bind_Ok, E2, bind_Ok.
  exists md. split; [done|]. split; [destruct K1, K2; lia|]. split; [by apply (row_keeps mb md (obj_i f 1))|done].
Qed.

Lemma stress_ready_row m k o v D :
  row_at m o (stress_val v) -> u 64 v -> entry D (RPC_STRESS_TABLE_REQ, k) = Some (stress_val v) ->
  slot_ready m (RPC_STRESS_TABLE_REQ, k, o, wm_insert) /\ slot_new T m (RPC_STRESS_TABLE_REQ, k, o, wm_insert) = entry D (RPC_STRESS_TABLE_REQ, k).
Proof.
  intros ([H0 H1] & Hh & _) Hv E. change sizeof_hots_obj_t with 56 in H1.
  assert (slot_new T m (RPC_STRESS_TABLE_REQ, k, o, wm_insert) = Some (stress_val v)) as En.
  { pose proof (obj_has_take _ _ _ Hh) as Et. rewrite stress_val_length in Et. unfold slot_new. rewrite decide_True by done. f_equal. exact Et. }
  split; [|by rewrite E]. split; [done|]. split; [change (ty_vsz T _) with 8; lia|]. split.
  - destruct Hh as [_ Hsz]. unfold obj_sized in Hsz. by rewrite stress_val_length in Hsz.
  - rewrite En. intros y [= <-]. by exists v.
Qed.

Lemma ins_N_behaves f x m : tx_base x -> frame_ok m f -> behaves C pkt self (txn_ins_N s f x m) (txn_does x m).
Proof.
  intros Hb Hf w Hg Ho. unfold txn_ins_N. destruct (base_key_ok s (fr_seed f) Hs) as (b & sd & -> & Hbm & Hbr). rewrite lift_Ok.
  rewrite add_writes_run by done. set (ops := map (write_add f b wm_insert) (seqZ 0 N)).
  eapply (first_runs mp T idx coros HM stress_T_ok self pkt w ops x m); [done|by apply write_fits|done|done| |].
  { intros x' E. rewrite E, lift_Ok. reflexivity. }
  intros [[st x'] m'] s1 (Hk & Hl & Hpe & Hsh & Hres). cbn beta iota. destruct Hres as [[-> _]|(-> & vr & vw & _ & Hex)].
  { rewrite decide_True by done. by apply (ends_abort mp T idx coros HM stress_T_ok). }
  rewrite decide_False by (by intros []). destruct (executed_slots mp T idx coros self pkt w ops x x' m' vr vw s1 Hex) as [Sr Sw].
  apply Forall2_nil_inv_l in Sr as ->. apply Forall2_cons_inv_l in Sw as (v0 & vw0 & S0 & Sw & ->). apply Forall2_cons_inv_l in Sw as (v1 & vw1 & S1 & Sw & ->).
  apply Forall2_nil_inv_l in Sw as ->. assert (v0 = None) as -> by exact S0. assert (v1 = None) as -> by exact S1.
  pose proof (Random.draw_range (fr_resume f)) as Hv. destruct (hrd_fastrand (fr_resume f)) as [v sd']. cbn [fst] in Hv.
  assert (u 64 v) as Hv' by (unfold u in *; lia). destruct (format_objs_ok m' f v (stress_frame_ext m m' f Hl Hf) Hv') as (m2 & -> & Hl2 & W0 & W1). rewrite lift_Ok.
  set (D := two b None None).
  apply (ends_write w (Ins_N b v) ops x m x' m' s1 m2 D (set_rows (keys_of b) (Some v) D) [None; None]); try done.
  - split; [done|done|done|]. symmetry. apply two_entries.
  - by apply two_ok.
  - cbn [run_op]. rewrite decide_True; [done|]. apply (Forall_map (two b None None) (fun z => z = None)). rewrite two_keys. by each.
  - change (wslots ops) with [(RPC_STRESS_TABLE_REQ, b + 0, obj_i f 0, wm_insert); (RPC_STRESS_TABLE_REQ, b + 1, obj_i f 1, wm_insert)].
    each; [apply (stress_ready_row m2 (b + 0) (obj_i f 0) v)|apply (stress_ready_row m2 (b + 1) (obj_i f 1) v)]; try done;
      [apply (set_entry b (Some v) D 0)|apply (set_entry b (Some v) D 1)]; done.
Qed.

Lemma stress_run_txn_does ty f x m : tx_base x -> frame_ok m f -> behaves C pkt self (run_txn s ty f x m) (txn_does x m).
Proof. destruct ty; [apply get_N_behaves|apply del_N_behaves|apply ins_N_behaves]. Qed.

(** ** The coroutine *)

Lemma stress_workgen_length : match create_workgen_array with Ok arr => length arr = 100%nat | Err _ => False end.
Proof. reflexivity. Qed.

(** A coroutine runs all its transactions unless it ends the process. *)
Lemma stress_slave_loop_does arr fs : length arr = 100%nat -> forall x m sofar,
  tx_base x -> Forall (frame_ok m) fs ->
  behaves C pkt self (slave_loop s arr fs x m sofar)
    (fun l ts => exists l', l = sofar ++ l' /\ (no_exit l' -> length l' = length fs) /\ Forall2 (does_out R) ts (done_outs l')).
Proof.
  intros Harr. induction fs as [|f fs IH]; intros x m sofar Hb Hfs; cbn [slave_loop].
  { apply behaves_done. exists []. by rewrite app_nil_r. }
  apply Forall_cons in Hfs as [Hf Hfs]. destruct (hrd_fastrand (fr_seed f)) as [r seed].
  assert (exists ty, at_ arr (r mod 100) = Ok ty) as (ty & ->).
  { pose proof (Z.mod_pos_bound r 100 ltac:(lia)) as Hr. destruct (lookup_lt_is_Some_2 arr (Z.to_nat (r mod 100))) as [ty Hty]; [lia|].
    exists ty. rewrite at_nonneg by lia. by rewrite Hty. }
  rewrite lift_Ok. eapply behaves_bind; [apply stress_run_txn_does; [done|by destruct Hf]|].
  intros [[o x'] m'] t1 (Hk & Hl & Hts).
  assert (behaves C pkt self (slave_loop s arr fs x' m' (sofar ++ [(ty, o)])) (fun l t2 => exists l', l = sofar ++ (ty, o) :: l' /\
    (no_exit l' -> length l' = length fs) /\ Forall2 (does_out R) t2 (done_outs l'))) as Hrest.
  { eapply behaves_mono; [apply IH; [by eapply base_kin|eapply Forall_impl; [exact Hfs|]; intros f'; by apply stress_frame_ext]|].
    intros l t2 (l' & -> & H1 & H2). exists l'. by rewrite <- app_assoc. }
  assert (forall l', done_outs ((ty, o) :: l') = option_list (out_tag o) ++ done_outs l') as Ed by (intros l'; by destruct o).
  destruct o as [|op|op].
  3: { apply behaves_done. exists [(ty, exits op)]. split; [done|]. split; [intros Hn; by apply Forall_cons_1 in Hn as [Hn _]|]. rewrite Ed, app_nil_r. by rewrite app_nil_r. }
  all: eapply behaves_mono; [exact Hrest|]; intros l t2 (l' & -> & H1 & H2); eexists; split; [done|]; rewrite Ed; split; [|by apply Forall2_app];
    intros [_ Hn]%Forall_cons; cbn [length]; by rewrite H1.
Qed.

Lemma stress_slave_func_does coro_id rec arr fs m :
  create_workgen_array = Ok arr -> Mappings.use_lock_server mp = false -> Mappings.num_machines mp <= HOTS_MAX_MACHINES ->
  1 <= coro_id < coros -> coros <= RPC_MAX_CORO -> Logger.sizeof_log_record_t <= Z.of_nat (length rec) ->
  self = int_rep (mk_crid coro_id (Mappings.wrkr_gid mp)) -> Forall (frame_ok m) fs ->
  behaves C pkt self (slave_func s coro_id mp rec arr fs m)
    (fun l ts => (no_exit l -> length l = length fs) /\ Forall2 (does_out R) ts (done_outs l)).
Proof.
  intros Harr Hls Hnm Hco Hcs Hrec Hself Hfs. unfold slave_func.
  assert (assert_ (negb (coro_id =? RPC_MASTER_CORO_ID)) = Ok tt) as ->.
  { change RPC_MASTER_CORO_ID with 0. by destruct (Z.eqb_spec coro_id 0); [lia|]. }
  rewrite lift_Ok. destruct (coro_base mp coros HM coro_id rec Hls Hnm Hco Hcs Hrec) as (x0 & -> & Hb).
  rewrite lift_Ok. rewrite <- Hself in Hb. pose proof stress_workgen_length as Hw. rewrite Harr in Hw.
  eapply behaves_mono; [by apply (stress_slave_loop_does arr fs Hw x0 m [])|]. intros l ts (l' & -> & H1 & H2). done.
Qed.

End Transactions.
End StressTx.
