(* ===== verification/StressStore.v ===== *)
(** * The stress test on the cluster

    Coroutines that run the stress test on the tables of a cluster: what they have done to
    the table is what the specification does to rows, one transaction after another, and
    none of them has anything to report. *)

From S2P Require Import Prelude Util Random Hots Mappings FixedTable FixedTableInv FixedTableOps FixedTableSteps Datastore.
From S2P Require Import DatastoreSpec RpcDefs RpcBatch Logger Tx TxWorld TxMem TxSpec TxSystem TxSerial.
From S2P Require Import TxTransaction TxSession TxCluster TxApp TxStore TxClients Stress StressSpec StressTx.
From Stdlib Require Import ZArith Lia Bool.
From stdpp Require Import base numbers sets list gmap relations.
#[local] Open Scope Z_scope.
Import FixedTable FixedTableInv FixedTableOps DatastoreSpec RpcDefs RpcBatch Tx TxWorld TxMem TxSpec TxSystem.
Import TxSerial TxTransaction TxSession TxCluster TxApp TxStore TxClients Stress StressSpec StressTx.

Module StressStore.

(** ** Definitions *)

(** The program of a coroutine, and its ledger when it has ended. *)
Definition slave_prog (s : stress) (ct : client frame) : prog ledger :=
  arr ← lift create_workgen_array;
  slave_func s (ct_coro ct) (ct_mp ct) (ct_rec ct) arr (ct_frames ct) (ct_mem ct).
Definition finished (ct : client frame) (l : ledger) : Prop := no_exit l -> length l = length (ct_frames ct).

Section Deployment.
Context (mp : Mappings.t) (s : stress) (idx : Z -> Z -> Z -> nat) (coros pkt : Z) (lid : nat -> Z).
Notation R := (num_rows_total s).
Notation C := (cluster_of mp stress_types idx coros).

Definition slave_coro (ct : client frame) : coro ledger := client_coro (slave_prog s) done_outs finished (does_out R) ct.

Record running (cts : list (client frame)) (st : stores) : Prop := {
  rn_stress : stress_ok s;
  rn_pkt : exists P, stress_max_pkt_size = Ok P /\ P + 16 <= pkt;
  rn_deployed : deployed mp stress_types idx coros frame_ok cts st
}.

(** ** Lemmas *)

Notation csys := (csys C pkt ledger lid).
Notation begun cts := (begins C pkt ledger (map slave_coro cts)).

Lemma stress_slave_honest :
  stress_ok s -> (exists P, stress_max_pkt_size = Ok P /\ P + 16 <= pkt) ->
  honest stress_types idx coros pkt (slave_prog s) done_outs finished (does_out R) frame_ok.
Proof.
  intros Hs (P & EP & HP) ct HM Hls Hnm Hco Hcs Hrec Hfr. unfold slave_prog. destruct create_workgen_array as [arr|] eqn:Ea; [|done].
  injection EP as <-. rewrite lift_Ok. by apply stress_slave_func_does.
Qed.

(** The table holds rows. *)
Lemma table_holds w : peaceful C w -> represents (db C w) (rows_of (db C w)).
Proof. intros (_ & Hp & _). apply table_represents. intros k x E. by apply (Hp RPC_STRESS_TABLE_REQ k eq_refl x). Qed.

Lemma outs_ops (l : ledger) : done_ops l = (done_outs l).*1.
Proof.
  induction l as [|[ty o] l IH]; [done|]. unfold done_ops, done_outs in *. cbn [omap list_omap snd]. rewrite IH. by destruct o.
Qed.

Lemma outs_no_exit (l : ledger) : Forall (fun ob => ob.2 = false) (done_outs l) -> no_exit l.
Proof.
  induction l as [|[ty o] l IH]; intros H; [apply Forall_nil_2|]. destruct o as [|op|op].
  - constructor; [done|]. by apply IH.
  - apply Forall_cons_1 in H as [_ H]. constructor; [done|]. by apply IH.
  - by apply Forall_cons_1 in H as [H _].
Qed.

Lemma of_coro_fmap {A B} (g : A -> B) i (order : list (nat * A)) :
  of_coro i (map (fun x => (x.1, g x.2)) order) = g <$> of_coro i order.
Proof.
  unfold of_coro. induction order as [|[j a] order IH]; [done|]. cbn [map fst snd]. rewrite !filter_cons. cbn [fst].
  case_decide; [cbn [fmap list_fmap snd]; f_equal|]; exact IH.
Qed.

Lemma of_coro_elem {A} i (order : list (nat * A)) a : a ∈ of_coro i order -> a ∈ order.*2.
Proof. intros ([j b] & -> & [_ H]%list_elem_of_filter)%list_elem_of_fmap. by apply (list_elem_of_fmap_2 snd _ (j, b)). Qed.

(** When all coroutines have ended. *)
Lemma stress_runs cts st s0 st' ths tr :
  running cts st -> uniform (rows_of (db C (contents C st))) -> begun cts st s0 -> rtc csys s0 (st', ths, tr) ->
  Forall (fun th => exists l w1 tr1, th = T_end _ l w1 tr1) ths ->
  exists (order : list (nat * stress_op)) D',
    (forall i ct th, cts !! i = Some ct -> ths !! i = Some th ->
       exists l w1 tr1, th = T_end _ l w1 tr1 /\ no_exit l /\ length l = length (ct_frames ct) /\ of_coro i order = done_ops l) /\
    Forall (fun x => x.1 < length cts)%nat order /\
    run_ops order.*2 (rows_of (db C (contents C st))) = Some D' /\ represents (db C (contents C st')) D' /\
    uniform D' /\ Forall clean order.*2.
Proof.
  intros [Hs Hpkt Hdp] Hu Hb Hrun Hend.
  destruct (clients_serializable mp stress_types idx coros pkt lid _ _ _ _ _ (stress_slave_honest Hs Hpkt) cts st s0 st' ths tr Hdp Hb Hrun Hend)
    as (ts & order & Hled & Hlt & Hops & Hv & Hf).
  assert (Forall2 (does_op R) ts order.*2.*1) as Hdo.
  { apply Forall2_fmap_r. eapply Forall2_impl; [exact Hops|]. by intros t ob [? _]. }
  destruct (stress_ops_refine R _ _ Hdo (db C (contents C st)) (rows_of (db C (contents C st))) Hv) as (D' & Hrun' & [HD Hrep]).
  { apply table_holds. apply (dp_rest _ _ _ _ _ cts st Hdp). }
  destruct (run_ops_uniform R order.*2.*1) with (D := rows_of (db C (contents C st))) (D' := D') as [Hu' Hcl]; [|done|done|].
  { clear -Hdo. induction Hdo as [|t op ts ops [H _] _ IH]; by constructor. }
  assert (Forall (fun ob => ob.2 = false) order.*2) as Hno.
  { clear -Hops Hcl. induction Hops as [|t [op e] ts ops [_ He] _ IH]; [constructor|]. cbn [fmap list_fmap fst] in Hcl. apply Forall_cons in Hcl as [Hc Hcl].
    constructor; [|by apply IH]. cbn [fst snd] in *. destruct e; [|done]. by destruct (proj1 He eq_refl). }
  set (order' := map (fun x => (x.1, x.2.1)) order). assert (order'.*2 = order.*2.*1) as E2.
  { unfold order'. clear. induction order as [|x o IH]; [done|]. cbn [map fmap list_fmap snd]. f_equal. exact IH. }
  exists order', D'. rewrite E2. split; [|split; [|split; [done|split; [|done]]]].
  - intros i ct th Hi Hth. destruct (Hled i ct th Hi Hth) as (l & w1 & tr1 & -> & Hfin & Hof). exists l, w1, tr1. split; [done|].
    assert (no_exit l) as Hn.
    { apply outs_no_exit. rewrite <- Hof. rewrite Forall_forall in Hno. apply Forall_forall. intros ob Hob. by apply Hno, (of_coro_elem i). }
    split; [done|]. split; [by apply Hfin|]. unfold order'. rewrite (of_coro_fmap fst), Hof. symmetry. apply outs_ops.
  - unfold order'. by apply Forall_map.
  - split; [done|]. intros k. rewrite <- Hrep. symmetry. by apply Hf.
Qed.

(** ** Theorems *)

(** C10: The stress test finds nothing.  Any number of coroutines of any workers read,
    delete and insert neighbouring rows of a replicated table, at random, and the table
    begins with equal neighbours.  When all have ended, every coroutine has run all its
    transactions: none has found only some of its rows or rows with different values,
    which would have ended the process.  There is an order of the transactions that have
    committed, which keeps the order of those of each coroutine, in which the rows of the
    table can run them one after another, every reader seeing the rows as they are then;
    the table holds the rows that result, with equal neighbours. *)
Theorem stress_consistent cts st s0 st' ths tr :
  running cts st -> uniform (rows_of (db C (contents C st))) -> begun cts st s0 -> rtc csys s0 (st', ths, tr) ->
  Forall (fun th => exists l w1 tr1, th = T_end _ l w1 tr1) ths ->
  exists (order : list (nat * stress_op)) D',
    (forall i ct th, cts !! i = Some ct -> ths !! i = Some th ->
       exists l w1 tr1, th = T_end _ l w1 tr1 /\ no_exit l /\ length l = length (ct_frames ct) /\ of_coro i order = done_ops l) /\
    Forall (fun x => x.1 < length cts)%nat order /\
    run_ops order.*2 (rows_of (db C (contents C st))) = Some D' /\ represents (db C (contents C st')) D' /\
    uniform D' /\ Forall clean order.*2.
Proof. apply stress_runs. Qed.



End Deployment.
End StressStore.
