(* ===== verification/StressPopulate.v ===== *)
(** * The stress test: population

    The workers insert the rows into the tables of their machines.  However their
    insertions interleave, the table then holds all rows with the same value, replicated,
    and transactions can begin. *)

From S2P Require Import Prelude Util City Hots Mappings FixedTable FixedTableInv FixedTableOps FixedTableInit FixedTableSteps.
From S2P Require Import Datastore DatastoreSpec RpcDefs Tx TxWorld TxSpec TxSerial TxSession TxCluster TxStore TxPopulate.
From S2P Require Import Stress StressSpec StressTx StressStore.
From Stdlib Require Import ZArith Lia Bool.
From stdpp Require Import base numbers sets list gmap relations.
#[local] Open Scope Z_scope.
Import FixedTable FixedTableInv FixedTableOps FixedTableInit DatastoreSpec RpcDefs Tx TxWorld TxSpec TxSerial TxSession TxCluster TxStore.
Import TxPopulate Stress StressSpec StressTx StressStore.

Module StressPopulate.

(** ** Definitions *)

(** The rows that the loop goes over, and the insertions of a worker in its order. *)
Definition stress_entries (R : Z) : list tab_entry := map (fun k => (RPC_STRESS_TABLE_REQ, k, stress_val 0)) (seqZ 0 R).
Definition worker_loads (nr R : Z) : list load := flat_map (entry_loads nr) (stress_entries R).

(** The rows after the population. *)
Definition rows0 (R : Z) : srows := fun k => if decide (0 <= k < R) then Some 0 else None.

(** ** A worker's program *)

Lemma load_same mp t repl_i key val : load_into_table mp t repl_i key val = load_key false mp t repl_i key val.
Proof.
  unfold load_into_table, load_key. cbn [negb orb]. change (assert_ true) with (@Ok unit tt).
  destruct (assert_ (Z.of_nat (length val) <=? HOTS_MAX_VALUE)) as [[]|]; [by rewrite !bind_Ok|]. cbn [mbind res_bind]. reflexivity.
Qed.

Lemma load_row_same mp repls key val tbl : load_row mp repls key val tbl = load_replicas false mp repls key val tbl.
Proof.
  revert tbl. induction repls as [|r repls IH]; intros tbl; [done|]. cbn [load_row load_replicas]. destruct (at_ tbl r) as [t|]; [|cbn [mbind res_bind]; reflexivity].
  rewrite !bind_Ok, load_same. destruct (load_key false mp t r key val) as [[n t']|]; [|cbn [mbind res_bind]; reflexivity]. rewrite !bind_Ok. apply IH.
Qed.

Lemma populate_rows_same mp keys tbl :
  populate_rows mp keys tbl = load_rows false mp (map (fun k => (RPC_STRESS_TABLE_REQ, k, stress_val 0)) keys) tbl.
Proof.
  revert tbl. induction keys as [|k keys IH]; intros tbl; [done|]. cbn [populate_rows map load_rows]. rewrite load_row_same.
  fold (load_all false mp (stress_key k) (stress_val 0) tbl). unfold stress_key.
  destruct (TxPopulate.load_all false mp k (stress_val 0) tbl); [|done]. rewrite !bind_Ok. apply IH.
Qed.

(** The program of a worker runs its loads one after another. *)
Lemma stress_populate_runs mp nr s st :
  Mappings.num_replicas mp = nr ->
  populate_table mp s (replicas_of nr (Mappings.machine_id mp) RPC_STRESS_TABLE_REQ st) =
    st' ← run_worker false mp (worker_loads nr (num_rows_total s)) st; Ok (replicas_of nr (Mappings.machine_id mp) RPC_STRESS_TABLE_REQ st').
Proof.
  intros Hmp. unfold populate_table. rewrite populate_rows_same. apply load_rows_runs; [done|]. apply Forall_map, Forall_true. done.
Qed.

(** ** The rows *)

Lemma rows0_uniform R : R mod N = 0 -> uniform (rows0 R).
Proof.
  change N with 2. intros HR b Hb. exists (rows0 R b). intros k Hk%keys_elem. unfold rows0. apply Z.div_exact in HR; [|lia].
  change N with 2 in *. apply Z.div_exact in Hb; [|lia]. repeat case_decide; try done; lia.
Qed.

Lemma rows0_contents R ty k :
  contents_of (fun _ _ => stress_val 0) (stress_entries R) ty k = entry (rows0 R) (ty, k).
Proof.
  unfold contents_of, entry, rows0. cbn [fst snd].
  assert ((ty, k) ∈ (stress_entries R).*1 <-> ty = RPC_STRESS_TABLE_REQ /\ 0 <= k < R) as H.
  { unfold stress_entries. change (@map Z tab_entry) with (@fmap list _ Z tab_entry). rewrite <- list_fmap_compose, list_elem_of_fmap.
    setoid_rewrite elem_of_seqZ. split; [intros (k' & [= -> ->] & Hk); lia|]. intros [-> Hk]. exists k. split; [done|lia]. }
  destruct (Z.eqb_spec ty RPC_STRESS_TABLE_REQ) as [->|Hne]; [|rewrite decide_False; [done|]; rewrite H; by intros [? _]].
  destruct (decide (0 <= k < R)) as [Hk|Hk]; [by rewrite decide_True by (by apply H)|]. rewrite decide_False; [done|]. rewrite H. by intros [_ ?].
Qed.

Lemma rows0_ok R : rows_ok (rows0 R).
Proof. intros k v. unfold rows0. case_decide; [|done]. by intros [= <-]. Qed.

(** ** All workers *)

Section Workers.
Context (mp : Mappings.t) (s : stress) (idx : Z -> Z -> Z -> nat) (coros : Z) (mps : nat -> Mappings.t) (W : nat).
Notation R := (num_rows_total s).
Notation nr := (Mappings.num_replicas mp).
Notation C := (cluster_of mp stress_types idx coros).

(** The insertions of all workers, in any order. *)
Lemma stress_workers order st :
  stress_ok s -> staff mp mps W -> stores_ok C st -> fresh_stores C st ->
  (forall j, (j < W)%nat -> of_coro j order = worker_loads nr R) -> Forall (fun x => x.1 < W)%nat order ->
  (exists st', run_loads false mps order st = Ok st' /\ stores_ok C st' /\ at_rest C (contents C st') /\
     represents (db C (contents C st')) (rows0 R)) \/
  (run_loads false mps order st = Err ExitFail /\
   exists pre st1 mn ty, pre `prefix_of` order /\ run_loads false mps pre st = Ok st1 /\ cl_has C mn ty = true /\ fl_head (st_table st1 mn ty) = 0).
Proof.
  intros [HR _] [[HM Hls] HW Hmps] Hst Hf Hord Hlt. pose proof HM as [Hwf _]. pose proof (Mappings.wf_backups mp Hwf) as Hb. change N with 2 in HR.
  destruct (population false mp stress_types idx coros HM (stress_types_ok _ (proj2 Hb)) Hls mps W HW Hmps (fun _ _ => stress_val 0) (stress_entries R))
    with (order := order) (st := st) as [(st' & E & Hst' & Hrest & Hdb)|H]; try done; [| | | |left|by right].
  - apply Forall_forall. intros e (k & -> & Hk%elem_of_seqZ)%list_elem_of_fmap. split; [done|]. change kFtInvalidKey with (2 ^ 64 - 1). split; [lia|done].
  - unfold stress_entries. rewrite length_map, length_seqZ. lia.
  - intros ty k ->%prim_stress x. rewrite rows0_contents. unfold entry, rows0. cbn [fst snd]. rewrite Z.eqb_refl. case_decide; [|done].
    intros [= <-]. by exists 0.
  - intros j Hj. rewrite (Hord j Hj). apply entries_all_loads.
  - exists st'. split; [done|]. split; [done|]. split; [done|]. split; [apply rows0_ok|]. intros k. by rewrite Hdb, rows0_contents.
Qed.

(** C15: The population of the stress test.  The program of a worker makes its insertions one
    after another; and when those of all workers of the cluster are made, interleaved in
    any order, on new tables, then every table satisfies its invariant, nothing is locked,
    every backup holds what its primary holds, and the table holds exactly the rows of the
    application, all with the value 0, so that neighbours are equal: the state from which
    the stress test may begin.  The process ends only when a table has run out of extra
    buckets. *)
Theorem stress_populated order st :
  stress_ok s -> staff mp mps W -> stores_ok C st -> fresh_stores C st ->
  (forall j, (j < W)%nat -> of_coro j order = worker_loads nr R) -> Forall (fun x => x.1 < W)%nat order ->
  (forall j st1, (j < W)%nat ->
     populate_table (mps j) s (replicas_of nr (Mappings.machine_id (mps j)) RPC_STRESS_TABLE_REQ st1) =
       st2 ← run_worker false (mps j) (worker_loads nr R) st1; Ok (replicas_of nr (Mappings.machine_id (mps j)) RPC_STRESS_TABLE_REQ st2)) /\
  ((exists st', run_loads false mps order st = Ok st' /\ stores_ok C st' /\ at_rest C (contents C st') /\
      represents (db C (contents C st')) (rows0 R) /\ uniform (rows_of (db C (contents C st')))) \/
   (run_loads false mps order st = Err ExitFail /\
    exists pre st1 mn ty, pre `prefix_of` order /\ run_loads false mps pre st = Ok st1 /\ cl_has C mn ty = true /\ fl_head (st_table st1 mn ty) = 0)).
Proof.
  intros Hs Hsf Hst Hf Hord Hlt. split; [intros j st1 Hj; destruct (staff_replicas mp mps W j Hsf Hj); by apply stress_populate_runs|].
  destruct (stress_workers order st Hs Hsf Hst Hf Hord Hlt) as [(st' & E & Hst' & Hrest & Hrep)|H]; [left|by right].
  exists st'. split; [done|]. split; [done|]. split; [done|]. split; [done|].
  apply (represents_uniform _ _ Hrep), rows0_uniform, (sk_even s Hs).
Qed.

End Workers.
End StressPopulate.
