(* ===== verification/StressDemo.v ===== *)
(** * Running the stress test

    A cluster of two machines with one worker each and a table of six rows: it is
    populated, and two coroutines run transactions on it.  The instances at which the
    theorems on the stress test are applied. *)

From S2P Require Import Prelude Util City Hots Mappings FixedTable FixedTableInv FixedTableOps FixedTableInit FixedTableSteps.
From S2P Require Import Datastore DatastoreSpec RpcDefs RpcBatch Logger Tx TxWorld TxMem TxSpec TxSystem TxSerial.
From S2P Require Import TxSession TxCluster TxStore TxClients TxDemo TxPopulate Stress StressSpec StressTx StressStore StressPopulate.
From Stdlib Require Import ZArith Lia Bool.
From stdpp Require Import base numbers sets list gmap relations.
#[local] Open Scope Z_scope.
Import RpcDefs RpcBatch Tx TxWorld TxMem TxSpec TxSystem TxSerial TxSession TxCluster TxStore TxClients TxDemo TxPopulate.
Import FixedTable FixedTableInv FixedTableOps FixedTableInit DatastoreSpec Stress StressSpec StressTx StressStore StressPopulate.

Module StressDemo.

(** ** The table *)

Definition stress6 : stress := mk_stress 2 1 2 6.
Definition mps (j : nat) : Mappings.t := mp (Z.of_nat j).
Notation idx6 := (made_idx stress_types).
Definition C6 : cluster := cluster_of (mp 0) stress_types idx6 3.
Definition st6 : stores := made_stores stress_types.

Lemma stress6_ok : stress_ok stress6.
Proof. by repeat split. Qed.

Lemma stress_st6_ok : stores_ok C6 st6 /\ fresh_stores C6 st6.
Proof. apply made_ok. by left. Qed.

(** ** Population: first all of worker 0, then all of worker 1 *)

Definition loads6 : list load := worker_loads 2 6.
Definition order6 : list (nat * load) := map (pair 0%nat) loads6 ++ map (pair 1%nat) loads6.
Definition st7 : stores := match run_loads false mps order6 st6 with Ok st => st | Err _ => st6 end.

Lemma staff6 : staff (mp 0) mps 2.
Proof.
  split; [split; [by apply mp_replicated|done]|done|].
  intros j Hj. assert (j = 0 \/ j = 1)%nat as [-> | ->] by lia; reflexivity.
Qed.

Lemma order6_workers j : (j < 2)%nat -> of_coro j order6 = worker_loads (Mappings.num_replicas (mp 0)) (num_rows_total stress6).
Proof. intros Hj. assert (j = 0 \/ j = 1)%nat as [-> | ->] by lia; reflexivity. Qed.

Lemma order6_range : Forall (fun x => x.1 < 2)%nat order6.
Proof. unfold order6. apply Forall_app. split; apply Forall_map, Forall_true; intros; cbn; lia. Qed.

Lemma st7_ok : stores_ok C6 st7 /\ at_rest C6 (contents C6 st7) /\ uniform (rows_of (db C6 (contents C6 st7))).
Proof.
  assert (is_ok (run_loads false mps order6 st6) = true) as Hr by (vm_compute; reflexivity).
  pose proof (stress_workers (mp 0) stress6 idx6 3 mps 2 order6 st6 stress6_ok staff6 (proj1 stress_st6_ok) (proj2 stress_st6_ok) order6_workers order6_range) as H.
  unfold st7. destruct (run_loads false mps order6 st6) as [st|] eqn:E; [|discriminate Hr].
  destruct H as [(st' & E' & H1 & H2 & H3)|(E' & _)]; [|discriminate E']. injection E' as <-. split; [exact H1|]. split; [exact H2|].
  apply (represents_uniform _ _ H3). by apply rows0_uniform.
Qed.

Lemma stress_populated_witness :
  run_loads false mps order6 st6 = Ok st7 /\ stores_ok C6 st7 /\ at_rest C6 (contents C6 st7) /\
  represents (db C6 (contents C6 st7)) (rows0 6) /\ uniform (rows_of (db C6 (contents C6 st7))).
Proof.
  assert (is_ok (run_loads false mps order6 st6) = true) as Hr by (vm_compute; reflexivity).
  destruct (stress_populated (mp 0) stress6 idx6 3 mps 2 order6 st6 stress6_ok staff6 (proj1 stress_st6_ok) (proj2 stress_st6_ok) order6_workers order6_range) as [_ H].
  unfold st7. destruct (run_loads false mps order6 st6) as [st|] eqn:E; [|discriminate Hr].
  destruct H as [(st' & E' & H)|(E' & _)]; [|discriminate E']. injection E' as <-. split; [reflexivity|exact H].
Defined.

(** ** Two coroutines *)

Definition frame6 (k : Z) : frame := mk_frame (k * 12345678901) (k * 98765432109) (fun i => 64 * Z.of_nat i) (fun _ => un0).
Definition client_a : client frame := mk_client (mp 0) 1 rec0 [frame6 4; frame6 1; frame6 9] mem0.
Definition client_b : client frame := mk_client (mp 1) 2 rec0 [frame6 1; frame6 7; frame6 8; frame6 10] mem0.
Definition clients6 : list (client frame) := [client_a; client_b].

Lemma frame6_ok k : frame_ok mem0 (frame6 k).
Proof.
  split; [|intros i; apply un0_ok]. change (map (obj_i (frame6 k)) (seqZ 0 N)) with [0; 64]. unfold mem0.
  repeat (split || apply Forall_cons || apply Forall_nil_2); unfold apart, obj_at; change sizeof_hots_obj_t with 56; rewrite ?length_replicate; lia.
Qed.

Lemma running6 : running (mp 0) stress6 idx6 3 100 clients6 st7.
Proof.
  split; [apply stress6_ok|by exists 76|]. split.
  - split; [by apply mp_replicated|]. by vm_compute.
  - by vm_compute.
  - repeat (apply Forall_cons; split); try apply Forall_nil_2; (split; [reflexivity|done|by vm_compute|]); cbn [client_a client_b ct_frames ct_mem];
      repeat (apply Forall_cons; split); try apply Forall_nil_2; apply frame6_ok.
  - repeat (apply NoDup_cons; split); [|by apply not_elem_of_nil|apply NoDup_nil_2]. rewrite list_elem_of_singleton. done.
  - apply st7_ok.
  - apply st7_ok.
Qed.

(** ** The run *)

Definition prog_a : prog ledger := slave_prog stress6 client_a.
Definition prog_b : prog ledger := slave_prog stress6 client_b.
Definition ths6 : list (tstate ledger) :=
  [settle ledger (advance 100 prog_a) (contents C6 st7) []; settle ledger (advance 100 prog_b) (contents C6 st7) []].
Definition s6 : stores * list (tstate ledger) * list event := (st7, ths6, []).

Lemma demo6_begins : begins C6 100 ledger (map (slave_coro stress6) clients6) st7 s6.
Proof.
  split; [reflexivity|]. exists ths6. split; [reflexivity|]. unfold ths6, clients6. cbn [map].
  repeat (constructor; [eexists; split; [apply advance_starts|reflexivity]|]). constructor.
Qed.

Lemma st7_range : in_range C6 (contents C6 st7).
Proof. destruct st7_ok as (_ & [[Hc _] _] & _). intros mn ty i Hty. by destruct (Hc mn ty i Hty) as (_ & _ & H). Qed.

(** The first coroutine deletes two rows, finds them gone and inserts them; then the second
    one reads them, deletes two others and inserts them, and cannot insert them again. *)
Lemma demo6_run :
  exists a b st w1 w2 tr1 tr2 tr,
    rtc (csys C6 100 ledger lid0) s6 (st, [T_end _ a w1 tr1; T_end _ b w2 tr2], tr) /\
    done_ops a = [Del_N 0; Get_N 0 [None; None]; Ins_N 0 750879802] /\
    length b = 4%nat /\ done_ops b = [Get_N 0 [Some 750879802; Some 750879802]; Del_N 2; Ins_N 2 1144667301].
Proof.
  assert (match drive C6 100 (lid0 0) prog_a st7 with
          | Some (a, st) =>
              match drive C6 100 (lid0 1) prog_b st with Some (b, _) => (done_ops a, length b, done_ops b) | None => ([], 0%nat, []) end
          | None => ([], 0%nat, [])
          end = ([Del_N 0; Get_N 0 [None; None]; Ins_N 0 750879802], 4%nat,
                 [Get_N 0 [Some 750879802; Some 750879802]; Del_N 2; Ins_N 2 1144667301])) as Hc by (vm_compute; reflexivity).
  destruct (drive C6 100 (lid0 0) prog_a st7) as [[a st8]|] eqn:E1; [|discriminate].
  destruct (drive C6 100 (lid0 1) prog_b st8) as [[b st]|] eqn:E2; [|discriminate]. injection Hc as Ha Hl Hb.
  destruct (drive_two C6 100 lid0 prog_a prog_b st7 a st8 b st (contents C6 st7) E1 E2 st7_range) as (w1 & w2 & tr1 & tr2 & tr & R).
  exists a, b, st, w1, w2, tr1, tr2, tr. split; [exact R|]. split; [exact Ha|]. split; [exact Hl|exact Hb].
Qed.

Lemma stress_consistent_witness :
  exists st order D', of_coro 0 order = [Del_N 0; Get_N 0 [None; None]; Ins_N 0 750879802] /\
    run_ops order.*2 (rows_of (db C6 (contents C6 st7))) = Some D' /\ represents (db C6 (contents C6 st)) D' /\ uniform D' /\ Forall clean order.*2.
Proof.
  destruct demo6_run as (a & b & st & w1 & w2 & tr1 & tr2 & tr & Hrun & Ha & _ & _).
  destruct (stress_consistent (mp 0) stress6 idx6 3 100 lid0 clients6 st7 s6 st _ tr running6 (proj2 (proj2 st7_ok)) demo6_begins Hrun)
    as (order & D' & Hres & _ & Hr & Hrep & Hu & Hc).
  - repeat constructor; eauto.
  - exists st, order, D'.
    destruct (Hres 0%nat _ _ eq_refl eq_refl) as (l1 & v1 & r1 & E1 & _ & _ & R1). injection E1 as -> _ _.
    rewrite R1. split; [exact Ha|]. split; [exact Hr|]. split; [exact Hrep|]. split; [exact Hu|exact Hc].
Defined.


End StressDemo.
