(* ===== verification/LTable.v ===== *)
(** * The MICA table with items of any size: data and operations
    ([src/mica2/src/mica/table/ltable.h], [ltable_impl/], [mica/util/memcpy.h])

    [LTable] is the template instance of [datastore/ltable/ds_ltable.h], with
    [BasicLosslessLTableConfig]: no eviction, buckets of seven slots and a pool that
    allocates items ([SegregatedFit]).  The branches for the other pool are not part of this
    instance.  A bucket holds item words, a tag and the offset of the item in the pool; the
    item holds its lengths, the hash, the key and the value.

    The pool is not part of the sources: [PoolOps] are the operations that the table calls.
    Items are in the memory of the pool, [mem_], which the pool and the table write; a
    pointer is a position in it.  Pointers of callers are positions in memory of theirs.  A
    table operation is one step, so that a wait for another thread is [Diverge]. *)

From S2P Require Import Prelude Util FixedTable.
From Stdlib Require Import ZArith Lia Bool SpecFloat.
From stdpp Require Import base numbers list.
#[local] Open Scope Z_scope.

(** ** [mica/util/memcpy.h] *)

Module Memcpy.

(** The cases of the switches: [k] words, the last one first. *)
Fixpoint copy_words (k : nat) (dst : list byte) (d : Z) (src : list byte) (s : Z) : res (list byte) :=
  match k with
  | O => Ok dst
  | S k =>
      w ← read_at (Z.to_nat (s + 8 * Z.of_nat k)) 8 src;
      dst ← write_at (Z.to_nat (d + 8 * Z.of_nat k)) w dst;
      copy_words k dst d src s
  end.

Fixpoint equal_words (k : nat) (a : list byte) (pa : Z) (b : list byte) (pb : Z) : res bool :=
  match k with
  | O => Ok true
  | S k =>
      wa ← read_at (Z.to_nat (pa + 8 * Z.of_nat k)) 8 a;
      wb ← read_at (Z.to_nat (pb + 8 * Z.of_nat k)) 8 b;
      if bool_decide (wa = wb) then equal_words k a pa b pb else Ok false
  end.

(** [memcpy<8>(dst + d, src + s, n)] *)
Definition memcpy8 (dst : list byte) (d : Z) (src : list byte) (s n : Z) : res (list byte) :=
  _ ← assert_ (n =? roundup 8 n);
  _ ← assert_ (d mod 8 =? 0);
  _ ← assert_ (s mod 8 =? 0);
  let k := Z.shiftr n 3 in
  if k <=? 4 then copy_words (Z.to_nat k) dst d src s
  else
    w ← read_at (Z.to_nat s) (Z.to_nat n) src;
    write_at (Z.to_nat d) w dst.

(** [memcmp_equal<8>(a + pa, b + pb, n)] *)
Definition memcmp_equal8 (a : list byte) (pa : Z) (b : list byte) (pb n : Z) : res bool :=
  _ ← assert_ (n =? roundup 8 n);
  _ ← assert_ (pa mod 8 =? 0);
  _ ← assert_ (pb mod 8 =? 0);
  let k := Z.shiftr n 3 in
  if k <=? 4 then equal_words (Z.to_nat k) a pa b pb
  else
    wa ← read_at (Z.to_nat pa) (Z.to_nat n) a;
    wb ← read_at (Z.to_nat pb) (Z.to_nat n) b;
    Ok (bool_decide (wa = wb)).

End Memcpy.
Import Memcpy.

(** ** The pool *)

(** [P] is the pool object without the memory of the items, which operations may also
    write.  [pool_get_item] gives the position and the size of an item;
    [pool_allocate] is [None] when it returns [kInsufficientSpace]. *)
Class PoolOps (P : Type) := {
  pool_get_item : P -> list byte -> Z -> Z * Z;
  pool_allocate : Z -> P -> list byte -> option Z * P * list byte;
  pool_release : Z -> P -> list byte -> P * list byte;
  pool_reset : P -> list byte -> P * list byte;
  pool_lock : P -> P;
  pool_unlock : P -> P
}.

Module LTable.

Definition kBucketSize : nat := 7.
Definition kMaxKeyLength : Z := 255.
Definition kMaxValueLength : Z := 1048575.
Definition sizeof_Item : Z := 16.
Definition kKeyMask : Z := Z.shiftl 1 8 - 1.
Definition kValueMask : Z := Z.shiftl 1 24 - 1.
Definition kTagMask : Z := Z.shiftl 1 16 - 1.
Definition kItemOffsetMask : Z := Z.shiftl 1 48 - 1.

Record Bucket := mkBucket {
  version : Z;                   (* uint32_t *)
  next_extra_bucket_index : Z;   (* uint32_t, 1-based; 0 = no extra bucket *)
  item_vec : list Z              (* uint64_t [kBucketSize] *)
}.

(** A pointer into memory of the caller. *)
Record ptr := mk_ptr { p_mem : list byte; p_pos : Z }.

Definition with_version (v : Z) (b : Bucket) : Bucket := mkBucket v (next_extra_bucket_index b) (item_vec b).
Definition with_next (e : Z) (b : Bucket) : Bucket := mkBucket (version b) e (item_vec b).
Definition with_item (j : nat) (v : Z) (b : Bucket) : Bucket :=
  mkBucket (version b) (next_extra_bucket_index b) (<[j := v]> (item_vec b)).

(** ** [ltable_impl/item.h] and the words of [ltable_impl/bucket.h] *)

Definition get_key_length (kv_length_vec : Z) : Z := Z.shiftr kv_length_vec 24.
Definition get_value_length (kv_length_vec : Z) : Z := Z.land kv_length_vec kValueMask.
Definition make_kv_length_vec (key_length value_length : Z) : Z :=
  Z.lor (wrap 32 (Z.shiftl key_length 24)) value_length.
Definition calc_tag (key_hash : Z) : Z :=
  let tag := Z.land key_hash kTagMask in if tag =? 0 then 1 else tag.

Definition get_tag (item_vec : Z) : Z := wrap 16 (Z.shiftr item_vec 48).
Definition get_item_offset (item_vec : Z) : Z := Z.land item_vec kItemOffsetMask.
Definition make_item_vec (tag item_offset : Z) : Z := Z.lor (wrap 64 (Z.shiftl tag 48)) item_offset.

(** The fields of the item at [a]: the lengths at 0, the hash at 8, the data at 16. *)
Definition item_kv_length_vec (a : Z) (m : list byte) : res Z := load_le 4 a m.
Definition item_key_hash (a : Z) (m : list byte) : res Z := load_le 8 (a + 8) m.
Definition item_data (a : Z) : Z := a + 16.

Definition set_item (a key_hash : Z) (key : ptr) (key_length : Z) (value : ptr) (value_length : Z) (m : list byte) :
    res (list byte) :=
  _ ← assert_ (key_length <=? kKeyMask);
  _ ← assert_ (value_length <=? kValueMask);
  m ← store_le 4 a (make_kv_length_vec key_length value_length) m;
  m ← store_le 8 (a + 8) key_hash m;
  m ← memcpy8 m (item_data a) (p_mem key) (p_pos key) key_length;
  memcpy8 m (item_data a + roundup 8 key_length) (p_mem value) (p_pos value) value_length.

Definition set_item_value (a : Z) (value : ptr) (value_length : Z) (m : list byte) : res (list byte) :=
  _ ← assert_ (value_length <=? kValueMask);
  kv ← item_kv_length_vec a m;
  let key_length := get_key_length kv in
  m ← store_le 4 a (make_kv_length_vec key_length value_length) m;
  memcpy8 m (item_data a + roundup 8 key_length) (p_mem value) (p_pos value) value_length.

Definition compare_keys (m : list byte) (key1 key1_len : Z) (key2 : ptr) (key2_len : Z) : res bool :=
  if key1_len =? key2_len then memcmp_equal8 m key1 (p_mem key2) (p_pos key2) (roundup 8 key1_len) else Ok false.

(** The numbers of buckets that the constructor computes from the number of items, and of
    extra buckets, in binary64. *)
Definition buckets_for (item_count : Z) : Z :=
  let item_count := wrap 64 (item_count * 11) / 10 in
  wrap 64 (item_count + Z.of_nat kBucketSize - 1) / Z.of_nat kBucketSize.
Definition extra_for (num_buckets : Z) (extra_collision_avoidance : spec_float) : Z :=
  FixedTable.Z_of_double (SFmul 53 1024 (FixedTable.double_of_Z num_buckets) extra_collision_avoidance).

Section Table.
Context {P : Type} `{PoolOps P}.

Record table := mkTable {
  concurrent_access_mode_ : Z;
  rshift_ : Z;
  num_buckets_ : Z;
  num_buckets_mask_ : Z;
  num_extra_buckets_ : Z;
  fl_lock : Z;                   (* extra_bucket_free_list_.lock *)
  fl_head : Z;                   (* extra_bucket_free_list_.head *)
  buckets_ : list Bucket;
  pool_ : P;
  mem_ : list byte               (* the memory of the pool *)
}.

Definition with_buckets (t : table) (bs : list Bucket) : table :=
  mkTable (concurrent_access_mode_ t) (rshift_ t) (num_buckets_ t) (num_buckets_mask_ t) (num_extra_buckets_ t)
    (fl_lock t) (fl_head t) bs (pool_ t) (mem_ t).
Definition with_fl (t : table) (l h : Z) : table :=
  mkTable (concurrent_access_mode_ t) (rshift_ t) (num_buckets_ t) (num_buckets_mask_ t) (num_extra_buckets_ t)
    l h (buckets_ t) (pool_ t) (mem_ t).
Definition with_pool (t : table) (p : P) (m : list byte) : table :=
  mkTable (concurrent_access_mode_ t) (rshift_ t) (num_buckets_ t) (num_buckets_mask_ t) (num_extra_buckets_ t)
    (fl_lock t) (fl_head t) (buckets_ t) p m.

(** Reading and writing through a bucket pointer. *)
Definition bkt (t : table) (p : nat) : res Bucket := of_option OutOfBounds (buckets_ t !! p).
Definition upd (p : nat) (f : Bucket -> Bucket) (t : table) : table := with_buckets t (alter f p (buckets_ t)).

(** ** [ltable_impl/lock.h] *)

Definition lock_bucket (p : nat) (t : table) : res table :=
  if concurrent_access_mode_ t =? 1 then
    b ← bkt t p;
    _ ← assert_ (Z.land (version b) 1 =? 0);
    Ok (upd p (with_version (wrap 32 (version b + 1))) t)
  else if concurrent_access_mode_ t =? 2 then
    b ← bkt t p;
    let v := Z.ldiff (version b) 1 in
    let new_v := Z.lor v 1 in
    if version b =? v then Ok (upd p (with_version new_v) t) else Err Diverge
  else Ok t.

Definition unlock_bucket (p : nat) (t : table) : res table :=
  if negb (concurrent_access_mode_ t =? 0) then
    b ← bkt t p;
    _ ← assert_ (Z.land (version b) 1 =? 1);
    Ok (upd p (with_version (wrap 32 (version b + 1))) t)
  else Ok t.

Definition lock_extra_bucket_free_list (t : table) : res table :=
  if concurrent_access_mode_ t =? 2 then
    if fl_lock t =? 0 then Ok (with_fl t 1 (fl_head t)) else Err Diverge
  else Ok t.

Definition unlock_extra_bucket_free_list (t : table) : res table :=
  if concurrent_access_mode_ t =? 2 then
    _ ← assert_ (Z.land (fl_lock t) 1 =? 1);
    Ok (with_fl t 0 (fl_head t))
  else Ok t.

Definition read_version_begin (t : table) (p : nat) : res Z :=
  if negb (concurrent_access_mode_ t =? 0) then
    b ← bkt t p;
    if negb (Z.land (version b) 1 =? 0) then Err Diverge else Ok (version b)
  else Ok 0.

Definition read_version_end (t : table) (p : nat) : res Z :=
  if negb (concurrent_access_mode_ t =? 0) then b ← bkt t p; Ok (version b) else Ok 0.

(** ** [ltable_impl/bucket.h] *)

Definition calc_bucket_index (t : table) (key_hash : Z) : Z :=
  Z.land (wrap 32 (Z.shiftr key_hash 16)) (num_buckets_mask_ t).

(** [kEviction] is false. *)
Definition has_extra_bucket (b : Bucket) : bool := negb (next_extra_bucket_index b =? 0).

(** [extra_buckets_] points one bucket before the first extra bucket. *)
Definition get_extra_bucket (t : table) (extra_bucket_index : Z) : res nat :=
  _ ← assert_ (negb (extra_bucket_index =? 0));
  _ ← assert_ (extra_bucket_index <? wrap 32 (1 + num_extra_buckets_ t));
  Ok (Z.to_nat (num_buckets_ t - 1 + extra_bucket_index)).

Definition alloc_extra_bucket (p : nat) (t : table) : res (bool * table) :=
  b ← bkt t p;
  _ ← assert_ (negb (has_extra_bucket b));
  t ← lock_extra_bucket_free_list t;
  if fl_head t =? 0 then
    t ← unlock_extra_bucket_free_list t;
    Ok (false, t)
  else
    let extra_bucket_index := fl_head t in
    q ← get_extra_bucket t extra_bucket_index;
    e ← bkt t q;
    let t := with_fl t (fl_lock t) (next_extra_bucket_index e) in
    let t := upd q (with_next 0) t in
    let t := upd p (with_next extra_bucket_index) t in
    t ← unlock_extra_bucket_free_list t;
    Ok (true, t).

Definition free_extra_bucket (p : nat) (t : table) : res table :=
  b ← bkt t p;
  _ ← assert_ (has_extra_bucket b);
  let extra_bucket_index := next_extra_bucket_index b in
  q ← get_extra_bucket t extra_bucket_index;
  e ← bkt t q;
  _ ← assert_ (next_extra_bucket_index e =? 0);
  _ ← assert_ (forallb (fun v => v =? 0) (item_vec e));
  let t := upd p (with_next 0) t in
  t ← lock_extra_bucket_free_list t;
  let t := upd q (with_next (fl_head t)) t in
  let t := with_fl t (fl_lock t) extra_bucket_index in
  unlock_extra_bucket_free_list t.

(** The [do ... while] of [fill_hole]: the last two buckets of a chain. *)
Fixpoint last_two (fuel : nat) (t : table) (cur : nat) : res (nat * nat) :=
  match fuel with
  | O => Err Diverge
  | S fuel =>
      b ← bkt t cur;
      nxt ← get_extra_bucket t (next_extra_bucket_index b);
      n ← bkt t nxt;
      if has_extra_bucket n then last_two fuel t nxt else Ok (cur, nxt)
  end.

(** The [for] loop of [fill_hole]: the first used slot of the last bucket, and
    whether it is the only one. *)
Fixpoint scan_last (vs : list Z) (item_index : nat) (moved : option nat) : option nat * bool :=
  match vs with
  | [] => (moved, true)
  | v :: vs =>
      if negb (v =? 0) then
        match moved with
        | None => scan_last vs (S item_index) (Some item_index)
        | Some _ => (moved, false)
        end
      else scan_last vs (S item_index) moved
  end.

Fixpoint fill_hole_loop (fuel : nat) (p unused_item_index : nat) (t : table) : res table :=
  match fuel with
  | O => Err Diverge
  | S fuel =>
      b ← bkt t p;
      if negb (has_extra_bucket b) then Ok t else
      '(prev, cur) ← last_two (length (buckets_ t)) t p;
      c ← bkt t cur;
      match scan_last (item_vec c) 0 None with
      | (None, _) =>
          t ← free_extra_bucket prev t;
          fill_hole_loop fuel p unused_item_index t
      | (Some moved_item_index, last_item) =>
          v ← of_option OutOfBounds (item_vec c !! moved_item_index);
          let t := upd p (with_item unused_item_index v) t in
          let t := upd cur (with_item moved_item_index 0) t in
          if last_item then free_extra_bucket prev t else Ok t
      end
  end.

Definition fill_hole (p unused_item_index : nat) (t : table) : res table :=
  fill_hole_loop (S (length (buckets_ t))) p unused_item_index t.

(** The first empty slot of a bucket. *)
Definition empty_slot (b : Bucket) : option nat := fst <$> list_find (fun v => v = 0) (item_vec b).

(** The loop of [get_empty]: the first empty slot, or the last bucket. *)
Fixpoint empty_loop (fuel : nat) (t : table) (p : nat) : res (nat * option nat) :=
  match fuel with
  | O => Err Diverge
  | S fuel =>
      b ← bkt t p;
      match empty_slot b with
      | Some j => Ok (p, Some j)
      | None =>
          if negb (has_extra_bucket b) then Ok (p, None) else
          q ← get_extra_bucket t (next_extra_bucket_index b);
          empty_loop fuel t q
      end
  end.

(** A located slot is (bucket, item index); [None] stands for the null bucket and the
    index [kBucketSize]. *)
Definition get_empty (p : nat) (t : table) : res (option (nat * nat) * table) :=
  '(q, oj) ← empty_loop (length (buckets_ t)) t p;
  match oj with
  | Some j => Ok (Some (q, j), t)
  | None =>
      '(ok, t) ← alloc_extra_bucket q t;
      if (ok : bool) then
        b ← bkt t q;
        e ← get_extra_bucket t (next_extra_bucket_index b);
        Ok (Some (e, 0%nat), t)
      else Ok (None, t)
  end.

(** The tests of [find_item_index] on an item word. *)
Definition item_matches (t : table) (key_hash tag : Z) (key : ptr) (key_length v : Z) : res bool :=
  if negb (get_tag v =? tag) then Ok false else
  let '(a, _) := pool_get_item (pool_ t) (mem_ t) (get_item_offset v) in
  h ← item_key_hash a (mem_ t);
  if negb (h =? key_hash) then Ok false else
  kv ← item_kv_length_vec a (mem_ t);
  compare_keys (mem_ t) (item_data a) (get_key_length kv) key key_length.

(** The [for] loop of [find_item_index] from slot [item_index] on. *)
Fixpoint find_slot (t : table) (key_hash tag : Z) (key : ptr) (key_length : Z) (vs : list Z) (item_index : nat) :
    res (option nat) :=
  match vs with
  | [] => Ok None
  | v :: vs =>
      found ← item_matches t key_hash tag key key_length v;
      if (found : bool) then Ok (Some item_index)
      else find_slot t key_hash tag key key_length vs (S item_index)
  end.

Fixpoint find_loop (fuel : nat) (t : table) (key_hash tag : Z) (key : ptr) (key_length : Z) (p : nat) :
    res (option (nat * nat)) :=
  match fuel with
  | O => Err Diverge
  | S fuel =>
      b ← bkt t p;
      oj ← find_slot t key_hash tag key key_length (item_vec b) 0;
      match oj with
      | Some j => Ok (Some (p, j))
      | None =>
          if negb (has_extra_bucket b) then Ok None else
          q ← get_extra_bucket t (next_extra_bucket_index b);
          find_loop fuel t key_hash tag key key_length q
      end
  end.

Definition find_item_index (t : table) (p : nat) (key_hash tag : Z) (key : ptr) (key_length : Z) :
    res (option (nat * nat)) :=
  find_loop (length (buckets_ t)) t key_hash tag key key_length p.

(** The word of a located slot. *)
Definition slot_vec (t : table) (q j : nat) : res Z :=
  b ← bkt t q; of_option OutOfBounds (item_vec b !! j).

(** ** [ltable_impl/set.h] *)

(** The slot that [set] writes: the slot of the key, which it overwrites, or an empty one. *)
Definition set_slot (p : nat) (key_hash tag : Z) (key : ptr) (key_length : Z) (overwrite : bool) (t : table) :
    res ((Result + (nat * nat * bool)) * table) :=
  loc ← find_item_index t p key_hash tag key key_length;
  match loc with
  | Some (q, j) => if negb overwrite then Ok (inl kExists, t) else Ok (inr (q, j, true), t)
  | None =>
      '(loc, t) ← get_empty p t;
      match loc with
      | None => Ok (inl kInsufficientSpaceIndex, t)
      | Some (q, j) => Ok (inr (q, j, false), t)
      end
  end.

(** The rest of [set], when the value cannot be written in place.  [is_valid] is true for
    this pool. *)
Definition set_new (p q j : nat) (overwriting : bool) (item_offset new_item_size key_hash tag : Z)
    (key : ptr) (key_length : Z) (value : ptr) (value_length : Z) (t : table) : res (Result * table) :=
  let '(o, pl, m) := pool_allocate new_item_size (pool_ t) (mem_ t) in
  let t := with_pool t pl m in
  match o with
  | None =>
      t ← unlock_bucket p t;
      Ok (kInsufficientSpacePool, t)
  | Some new_item_offset =>
      let '(a, _) := pool_get_item (pool_ t) (mem_ t) new_item_offset in
      m ← set_item a key_hash key (wrap 32 key_length) value (wrap 32 value_length) (mem_ t);
      let t := with_pool t (pool_ t) m in
      let t := upd q (with_item j (make_item_vec tag new_item_offset)) t in
      t ← unlock_bucket p t;
      if overwriting then
        let '(pl, m) := pool_release item_offset (pool_lock (pool_ t)) (mem_ t) in
        Ok (kSuccess, with_pool t (pool_unlock pl) m)
      else Ok (kSuccess, t)
  end.

Definition set (key_hash : Z) (key : ptr) (key_length : Z) (value : ptr) (value_length : Z) (overwrite : bool) (t : table) :
    res (Result * table) :=
  _ ← assert_ (key_length <=? kMaxKeyLength);
  _ ← assert_ (value_length <=? kMaxValueLength);
  let p := Z.to_nat (calc_bucket_index t key_hash) in
  let tag := calc_tag key_hash in
  t ← lock_bucket p t;
  '(r, t) ← set_slot p key_hash tag key key_length overwrite t;
  match r with
  | inl r =>
      t ← unlock_bucket p t;
      Ok (r, t)
  | inr (q, j, overwriting) =>
      let new_item_size := wrap 32 (sizeof_Item + roundup 8 key_length + roundup 8 value_length) in
      if (overwriting : bool) then
        v ← slot_vec t q j;
        let item_offset := get_item_offset v in
        let '(a, old_item_size) := pool_get_item (pool_ t) (mem_ t) item_offset in
        if old_item_size >=? new_item_size then
          m ← set_item_value a value (wrap 32 value_length) (mem_ t);
          t ← unlock_bucket p (with_pool t (pool_ t) m);
          Ok (kSuccess, t)
        else set_new p q j true item_offset new_item_size key_hash tag key key_length value value_length t
      else set_new p q j false 0 new_item_size key_hash tag key key_length value value_length t
  end.

(** ** [ltable_impl/get.h], [ltable_impl/test.h]

    The versions that [get] and [test] compare are equal when no other thread runs during
    the call; a difference would be there at every attempt. *)
Definition check_version (version_start : Z) (t : table) (p : nat) : res unit :=
  version_end ← read_version_end t p;
  if negb (version_start =? version_end) then Err Diverge else Ok tt.

(** The removal of a stale item by [get]. *)
Definition remove_stale (p q j : nat) (t : table) : res table :=
  t ← lock_bucket p t;
  v ← slot_vec t q j;
  let t := if negb (v =? 0) then upd q (with_item j 0) t else t in
  unlock_bucket p t.

(** The result is the return value, and [*out_value_length] and the memory of [out_value]
    where they were written.  [is_valid] is true and [move_to_head] does nothing with this
    pool. *)
Definition get (key_hash : Z) (key : ptr) (key_length : Z) (out_value : ptr) (in_value_length : Z) (allow_mutation : bool)
    (t : table) : res (Result * option (Z * list byte) * table) :=
  _ ← assert_ (key_length <=? kMaxKeyLength);
  let p := Z.to_nat (calc_bucket_index t key_hash) in
  let tag := calc_tag key_hash in
  version_start ← read_version_begin t p;
  loc ← find_item_index t p key_hash tag key key_length;
  match loc with
  | None =>
      _ ← check_version version_start t p;
      Ok (kNotFound, None, t)
  | Some (q, j) =>
      v ← slot_vec t q j;
      let '(a, _) := pool_get_item (pool_ t) (mem_ t) (get_item_offset v) in
      kv ← item_kv_length_vec a (mem_ t);
      let value_length := get_value_length kv in
      if value_length <=? kMaxValueLength then
        let out_value_length := Z.min value_length in_value_length in
        let partial_value := negb (value_length =? out_value_length) in
        out ← memcpy8 (p_mem out_value) (p_pos out_value) (mem_ t) (item_data a + roundup 8 key_length) out_value_length;
        _ ← check_version version_start t p;
        Ok (if partial_value then kPartialValue else kSuccess, Some (out_value_length, out), t)
      else
        _ ← check_version version_start t p;
        t ← (if allow_mutation then remove_stale p q j t else Ok t);
        Ok (kNotFound, None, t)
  end.

Definition test (key_hash : Z) (key : ptr) (key_length : Z) (t : table) : res Result :=
  _ ← assert_ (key_length <=? kMaxKeyLength);
  let p := Z.to_nat (calc_bucket_index t key_hash) in
  version_start ← read_version_begin t p;
  loc ← find_item_index t p key_hash (calc_tag key_hash) key key_length;
  _ ← check_version version_start t p;
  Ok (match loc with Some _ => kSuccess | None => kNotFound end).

(** ** [ltable_impl/del.h] *)

Definition del (key_hash : Z) (key : ptr) (key_length : Z) (t : table) : res (Result * table) :=
  _ ← assert_ (key_length <=? kMaxKeyLength);
  let p := Z.to_nat (calc_bucket_index t key_hash) in
  t ← lock_bucket p t;
  loc ← find_item_index t p key_hash (calc_tag key_hash) key key_length;
  match loc with
  | None =>
      t ← unlock_bucket p t;
      Ok (kNotFound, t)
  | Some (q, j) =>
      v ← slot_vec t q j;
      let '(pl, m) := pool_release (get_item_offset v) (pool_ t) (mem_ t) in
      let t := upd q (with_item j 0) (with_pool t pl m) in
      t ← fill_hole q j t;
      t ← unlock_bucket p t;
      Ok (kSuccess, t)
  end.

(** ** [ltable_impl/increment.h]

    The result is the return value and [*out_value], where it was written. *)
Definition increment (key_hash : Z) (key : ptr) (key_length increment : Z) (t : table) :
    res (Result * option Z * table) :=
  _ ← assert_ (key_length <=? kMaxKeyLength);
  let p := Z.to_nat (calc_bucket_index t key_hash) in
  t ← lock_bucket p t;
  loc ← find_item_index t p key_hash (calc_tag key_hash) key key_length;
  match loc with
  | None =>
      t ← unlock_bucket p t;
      Ok (kNotFound, None, t)
  | Some (q, j) =>
      v ← slot_vec t q j;
      let '(a, _) := pool_get_item (pool_ t) (mem_ t) (get_item_offset v) in
      let d := item_data a + roundup 8 key_length in
      old ← memcpy8 (replicate 8 0) 0 (mem_ t) d 8;
      let new_value := wrap 64 (le_val old + increment) in
      m ← memcpy8 (mem_ t) d (le_bytes 8 new_value) 0 8;
      t ← unlock_bucket p (with_pool t (pool_ t) m);
      Ok (kSuccess, Some new_value, t)
  end.

(** ** [ltable_impl/init.h] *)

(** The loops of [reset] that release the items of the primary buckets. *)
Definition release_item (pm : P * list byte) (v : Z) : P * list byte :=
  if negb (v =? 0) then pool_release (get_item_offset v) pm.1 pm.2 else pm.
Definition release_bucket (pm : P * list byte) (b : Bucket) : P * list byte :=
  foldl release_item pm (item_vec b).

(** The bytes that [memset] leaves, as a bucket. *)
Definition zero_bucket : Bucket := mkBucket 0 0 (replicate kBucketSize 0).

(** The loop that links the extra buckets [e, e + 1, ...], [n] of them. *)
Fixpoint link_extra (n : nat) (e : Z) (t : table) : res table :=
  match n with
  | O => Ok t
  | S n =>
      let q := Z.to_nat (num_buckets_ t - 1 + e) in
      _ ← bkt t q;
      link_extra n (e + 1) (upd q (with_next (e + 1)) t)
  end.

Definition reset (t : table) : res table :=
  let '(pl, m) := foldl release_bucket (pool_lock (pool_ t), mem_ t) (take (Z.to_nat (num_buckets_ t)) (buckets_ t)) in
  let t := with_pool t (pool_unlock pl) m in
  let t := with_buckets t (map (fun _ => zero_bucket) (buckets_ t)) in
  let t := with_fl t 0 (fl_head t) in
  t ← (if num_extra_buckets_ t =? 0 then Ok (with_fl t (fl_lock t) 0)
       else
         t ← link_extra (Z.to_nat (num_extra_buckets_ t - 1)) 1 t;
         let q := Z.to_nat (num_buckets_ t - 1 + num_extra_buckets_ t) in
         _ ← bkt t q;
         Ok (with_fl (upd q (with_next 0) t) (fl_lock t) 1));
  let '(pl, m) := pool_reset (pool_lock (pool_ t)) (mem_ t) in
  Ok (with_pool t (pool_unlock pl) m).

(** The loop that computes [rshift_]. *)
Fixpoint rshift_loop (fuel : nat) (num_buckets r : Z) : res Z :=
  match fuel with
  | O => Err Diverge
  | S fuel =>
      if num_buckets <? Z.shiftr (Z.shiftr (kItemOffsetMask + 1) 1) r then rshift_loop fuel num_buckets (r + 1) else Ok r
  end.

(** The constructor.  The arguments are what it reads of the configuration, and the pool; a
    failing allocation ends the process inside the allocator.  [mth_threshold_] is read by
    [move_to_head] only. *)
Definition make (item_count bkt_shm_key : Z) (extra_collision_avoidance : spec_float) (concurrent_read concurrent_write : bool)
    (pool : P) (mem : list byte) : res table :=
  _ ← assert_ ((0 <? bkt_shm_key) && (bkt_shm_key <? 1024 * 1024));
  let num_buckets := buckets_for item_count in
  let num_extra_buckets := extra_for num_buckets extra_collision_avoidance in
  _ ← assert_ (0 <? num_buckets);
  l ← FixedTable.log_num_buckets 64 num_buckets 0;
  let num_buckets := Z.shiftl 1 l in
  _ ← assert_ (l <=? 32);
  nb ← FixedTable.safe_cast_u32 num_buckets;
  mask ← FixedTable.safe_cast_u32 (num_buckets - 1);
  ne ← FixedTable.safe_cast_u32 num_extra_buckets;
  let mode := if negb concurrent_read then 0 else if negb concurrent_write then 1 else 2 in
  r ← rshift_loop 48 nb 0;
  reset (mkTable mode r nb mask ne 0 0 (replicate (Z.to_nat (wrap 32 (nb + ne))) zero_bucket) pool mem).

End Table.
Arguments table : clear implicits.

End LTable.
