(* ===== verification/LTableSim.v ===== *)
(** * The MICA table with items of any size: its index is that of the fixed-size table

    The chains of buckets, the free list and the movement of slots are those of
    [FixedTable], with item words in the place of keys.  The relation [tab_rel] takes the
    slots of an [LTable] to the slots of a [FixedTable] whose values are the item words; the
    operations on the index simulate each other, so that the proofs of [FixedTableInv] and
    [FixedTableOps] apply. *)

From S2P Require Import Prelude Util FixedTable FixedTableInv FixedTableOps LTable.
From Stdlib Require Import ZArith Lia Bool.
From stdpp Require Import base numbers list gmap.
#[local] Open Scope Z_scope.
Import LTable.

Module LTableSim.
Module FT := FixedTable.
Notation kInvalid := FixedTable.kFtInvalidKey.

Section Sim.
Context {P : Type} `{PoolOps P}.
Notation table := (LTable.table P).
Implicit Types (t : table) (ft : FT.table) (b : Bucket) (fb : FT.Bucket).

(** ** The relation *)

Definition used_rel (v k : Z) : Prop := v = 0 <-> k = kInvalid.
Definition word_rel (v : Z) (bs : list byte) : Prop := u 64 v /\ (v <> 0 -> bs = le_bytes 8 v).

Record bkt_rel (b : Bucket) (fb : FT.Bucket) : Prop := {
  br_next : next_extra_bucket_index b = FT.next_extra_bucket_index fb;
  br_used : Forall2 used_rel (item_vec b) (FT.key_arr fb);
  br_word : Forall2 word_rel (item_vec b) (FT.val_arr fb)
}.

Record tab_rel (t : table) (ft : FT.table) : Prop := {
  tr_nb : num_buckets_ t = FT.num_buckets_ ft;
  tr_mask : num_buckets_mask_ t = FT.num_buckets_mask_ ft;
  tr_ne : num_extra_buckets_ t = FT.num_extra_buckets_ ft;
  tr_lock : fl_lock t = 0;
  tr_head : fl_head t = FT.fl_head ft;
  tr_val : FT.val_size ft = 8;
  tr_bkts : Forall2 bkt_rel (buckets_ t) (FT.buckets_ ft)
}.

(** What the operations on the index leave alone. *)
Definition frame (t : table) : Z * Z * list Z * P * list byte :=
  (concurrent_access_mode_ t, rshift_ t, version <$> buckets_ t, pool_ t, mem_ t).

Lemma frame_parts t t' :
  frame t' = frame t ->
  concurrent_access_mode_ t' = concurrent_access_mode_ t /\ version <$> buckets_ t' = version <$> buckets_ t /\ pool_ t' = pool_ t /\ mem_ t' = mem_ t.
Proof. unfold frame. intros E. by injection E. Qed.

(** ** Buckets *)

Lemma bkt_sim t ft p fb : tab_rel t ft -> FT.bkt ft p = Ok fb -> exists b, bkt t p = Ok b /\ bkt_rel b fb.
Proof.
  intros R E. unfold FT.bkt, of_option in E. destruct (FT.buckets_ ft !! p) as [fb'|] eqn:Ep; [|done]. injection E as ->.
  destruct (Forall2_lookup_r _ _ _ _ _ (tr_bkts t ft R) Ep) as (b & Eb & Hb). exists b. unfold bkt. by rewrite Eb.
Qed.

Lemma extra_sim t ft e : tab_rel t ft -> get_extra_bucket t e = FT.get_extra_bucket ft e.
Proof. intros R. unfold get_extra_bucket, FT.get_extra_bucket. by rewrite (tr_nb t ft R), (tr_ne t ft R). Qed.

Lemma has_extra_sim b fb : bkt_rel b fb -> has_extra_bucket b = FT.has_extra_bucket fb.
Proof. intros R. unfold has_extra_bucket, FT.has_extra_bucket. by rewrite (br_next b fb R). Qed.

Lemma length_sim t ft : tab_rel t ft -> length (buckets_ t) = length (FT.buckets_ ft).
Proof. intros R. by eapply Forall2_length, R. Qed.

Lemma upd_sim p f g t ft :
  tab_rel t ft -> (forall b fb, bkt_rel b fb -> bkt_rel (f b) (g fb)) -> tab_rel (upd p f t) (FT.upd p g ft).
Proof. intros [] Hf. constructor; try done. cbn. apply Forall2_alter; [done|]. intros b fb _ _. apply Hf. Qed.

Lemma upd_frame p f t : (forall b, version (f b) = version b) -> frame (upd p f t) = frame t.
Proof.
  intros Hf. unfold frame. enough (version <$> buckets_ (upd p f t) = version <$> buckets_ t) as -> by done.
  cbn. apply list_eq. intros q. rewrite !list_lookup_fmap.
  destruct (decide (q = p)) as [->|Hne]; [rewrite list_lookup_alter_eq|by rewrite list_lookup_alter_ne].
  destruct (buckets_ t !! p); [|done]. cbn. by rewrite Hf.
Qed.

Lemma next_sim e b fb : bkt_rel b fb -> bkt_rel (with_next e b) (FT.with_next e fb).
Proof. by intros []. Qed.

(** A slot is emptied; the fixed-size table keeps the value. *)
Lemma clear_sim j b fb : bkt_rel b fb -> bkt_rel (with_item j 0 b) (FT.with_key j kInvalid fb).
Proof.
  intros [R1 R2 R3]. constructor; [done|by apply Forall2_insert|]. cbn.
  apply Forall2_same_length_lookup_2; [rewrite length_insert; by eapply Forall2_length|].
  intros i v bs Hv Hbs. destruct (decide (i = j)) as [->|Hne].
  - rewrite list_lookup_insert_eq in Hv; [|apply lookup_lt_Some in Hbs; by rewrite (Forall2_length _ _ _ R3)]. by injection Hv as <-.
  - rewrite list_lookup_insert_ne in Hv by done. by eapply Forall2_lookup_lr.
Qed.

(** A slot is filled. *)
Lemma fill_sim j v k b fb :
  u 64 v -> v <> 0 -> k <> kInvalid -> bkt_rel b fb -> bkt_rel (with_item j v b) (FT.with_val j (le_bytes 8 v) (FT.with_key j k fb)).
Proof. intros Hu Hv Hk [R1 R2 R3]. constructor; [done|..]; cbn; apply Forall2_insert; try done. Qed.

(** ** The free list *)

(** The lock of the free list, which only one of the modes takes. *)
Lemma fl_locking t :
  fl_lock t = 0 ->
  exists l, lock_extra_bucket_free_list t = Ok (with_fl t l (fl_head t)) /\
    forall t', concurrent_access_mode_ t' = concurrent_access_mode_ t -> fl_lock t' = l ->
      unlock_extra_bucket_free_list t' = Ok (with_fl t' 0 (fl_head t')).
Proof.
  intros El. unfold lock_extra_bucket_free_list, unlock_extra_bucket_free_list. destruct (concurrent_access_mode_ t =? 2) eqn:Em.
  - exists 1. rewrite El. split; [done|]. intros t' Hm Hl. by rewrite Hm, Em, Hl.
  - exists 0. split; [by destruct t; cbn in *; subst|]. intros t' Hm Hl. rewrite Hm, Em. by destruct t'; cbn in *; subst.
Qed.

Lemma fl_sim t ft l h l' : tab_rel t ft -> l = 0 -> tab_rel (with_fl t l h) (FT.with_fl ft l' h).
Proof. by intros [] ->. Qed.

Lemma alloc_sim p t ft ok ft' :
  tab_rel t ft -> FT.alloc_extra_bucket p ft = Ok (ok, ft') ->
  exists t', alloc_extra_bucket p t = Ok (ok, t') /\ tab_rel t' ft' /\ frame t' = frame t.
Proof.
  intros R E. unfold FT.alloc_extra_bucket in E. apply bind_ok in E as (fb & Eb & E). apply assert_then in E as [Ea E].
  destruct (bkt_sim t ft p fb R Eb) as (b & Eb' & Rb). apply bind_ok in E as (ft1 & El & E).
  unfold FT.lock_extra_bucket_free_list in El. case_in El; [|done]. injection El as <-. bool_prop.
  unfold alloc_extra_bucket. rewrite Eb', bind_Ok, (has_extra_sim b fb Rb), Ea. cbn [assert_ mbind res_bind].
  destruct (fl_locking t (tr_lock t ft R)) as (l & -> & Hu). rewrite bind_Ok. cbn [fl_head with_fl FT.fl_head FT.with_fl] in *.
  rewrite (tr_head t ft R). destruct (FT.fl_head ft =? 0) eqn:Eh.
  - injection E as <- <-. rewrite Hu by done. eexists. split; [done|]. split; [|done].
    by apply (fl_sim t ft).
  - apply bind_ok in E as (q & Eq & E). apply bind_ok in E as (e & Ee & E). injection E as <- <-.
    change (get_extra_bucket (with_fl t l _) ?x) with (get_extra_bucket t x). rewrite (extra_sim t ft) by done.
    change (FT.get_extra_bucket (FT.with_fl ft 1 _) ?x) with (FT.get_extra_bucket ft x) in Eq. rewrite Eq, bind_Ok.
    destruct (bkt_sim t ft q e R Ee) as (e' & Ee' & Re). change (bkt (with_fl t l _) q) with (bkt t q). rewrite Ee', bind_Ok.
    rewrite Hu by done. eexists. split; [done|]. rewrite (br_next e' e Re). split; [|].
    + apply (upd_sim p _ _ (upd q (with_next 0) (with_fl t 0 _)) (FT.upd q (FT.with_next 0) (FT.with_fl ft 0 _))); [|apply next_sim].
      apply upd_sim; [by apply fl_sim|apply next_sim].
    + etrans; [apply (upd_frame p (with_next (FT.fl_head ft)) (upd q (with_next 0) (with_fl t 0 _))); done|]. by rewrite upd_frame.
Qed.

Lemma free_sim p t ft ft' :
  tab_rel t ft -> FT.free_extra_bucket p ft = Ok ft' ->
  exists t', free_extra_bucket p t = Ok t' /\ tab_rel t' ft' /\ frame t' = frame t.
Proof.
  intros R E. unfold FT.free_extra_bucket in E. apply bind_ok in E as (fb & Eb & E). apply assert_then in E as [Ea E].
  destruct (bkt_sim t ft p fb R Eb) as (b & Eb' & Rb). apply bind_ok in E as (q & Eq & E). apply bind_ok in E as (e & Ee & E).
  destruct (bkt_sim t ft q e R Ee) as (e' & Ee' & Re). apply assert_then in E as [Ez E]. apply assert_then in E as [Ek E].
  apply bind_ok in E as (ft1 & El & E). unfold FT.lock_extra_bucket_free_list in El. case_in El; [|done]. injection El as <-. bool_prop.
  injection E as <-. unfold free_extra_bucket. rewrite Eb', bind_Ok, (has_extra_sim b fb Rb), Ea. cbn [assert_]. rewrite bind_Ok.
  rewrite (br_next b fb Rb), (extra_sim t ft), Eq, bind_Ok, Ee', bind_Ok by done. rewrite (br_next e' e Re), Ez, Z.eqb_refl. cbn [assert_]. rewrite bind_Ok.
  assert (forallb (fun v => v =? 0) (item_vec e') = true) as ->.
  { clear -Re Ek. destruct Re as [_ Hu _]. induction Hu as [|v k vs ks Hr _ IH]; [done|]. cbn in *. apply andb_true_iff in Ek as [H1 H2].
    apply andb_true_iff. split; [|by apply IH]. apply Z.eqb_eq, Hr. by apply Z.eqb_eq. }
  cbn [assert_]. rewrite bind_Ok.
  destruct (fl_locking (upd p (with_next 0) t) (tr_lock t ft R)) as (l & -> & Hu). rewrite bind_Ok, Hu by done. eexists. split; [done|].
  cbn [fl_head with_fl upd with_buckets]. rewrite (tr_head t ft R). split.
  - eapply (fl_sim (upd q _ (upd p (with_next 0) t)) (FT.upd q _ (FT.upd p (FT.with_next 0) ft)) 0 _ 0); [|done].
    apply upd_sim; [|apply next_sim]. apply upd_sim; [done|apply next_sim].
  - change (frame (upd q (with_next (FT.fl_head ft)) (upd p (with_next 0) t)) = frame t). by rewrite !upd_frame.
Qed.

(** ** The loops *)

Lemma last_two_sim fuel t ft cur r : tab_rel t ft -> FT.last_two fuel ft cur = Ok r -> last_two fuel t cur = Ok r.
Proof.
  intros R. revert cur. induction fuel as [|fuel IH]; intros cur E; [done|]. cbn in *.
  apply bind_ok in E as (fb & Eb & E). destruct (bkt_sim t ft cur fb R Eb) as (b & -> & Rb). rewrite bind_Ok, (br_next b fb Rb), (extra_sim t ft) by done.
  apply bind_ok in E as (nxt & -> & E). rewrite bind_Ok. apply bind_ok in E as (n & En & E).
  destruct (bkt_sim t ft nxt n R En) as (n' & -> & Rn). rewrite bind_Ok, (has_extra_sim n' n Rn). case_in E; [by apply IH|done].
Qed.

Lemma scan_sim vs ks i mv : Forall2 used_rel vs ks -> scan_last vs i mv = FT.scan_last ks i mv.
Proof.
  intros Hr. revert i mv. induction Hr as [|v k vs ks Hr _ IH]; intros i mv; [done|]. cbn.
  destruct (Z.eqb_spec v 0) as [->|Hv]; [rewrite (proj2 (Z.eqb_eq k kInvalid)) by by apply Hr|rewrite (proj2 (Z.eqb_neq k kInvalid)) by (intros Hk; by apply Hv, Hr)]; cbn; [apply IH|].
  destruct mv; [done|apply IH].
Qed.

Lemma empty_slot_sim b fb : bkt_rel b fb -> empty_slot b = FT.slot_of kInvalid fb.
Proof.
  intros [_ Hu _]. unfold empty_slot, FT.slot_of. induction Hu as [|v k vs ks Hr _ IH]; [done|]. cbn.
  destruct (decide (v = 0)) as [Hv|Hv], (decide (k = kInvalid)) as [Hk|Hk]; try (exfalso; tauto || (by apply Hk, Hr) || (by apply Hv, Hr)); [done|].
  destruct (list_find _ vs) as [[]|], (list_find _ ks) as [[]|]; cbn in *; congruence.
Qed.

Lemma empty_loop_sim fuel t ft p r : tab_rel t ft -> FT.empty_loop fuel ft p = Ok r -> empty_loop fuel t p = Ok r.
Proof.
  intros R. revert p. induction fuel as [|fuel IH]; intros p E; [done|]. cbn in *.
  apply bind_ok in E as (fb & Eb & E). destruct (bkt_sim t ft p fb R Eb) as (b & -> & Rb). rewrite bind_Ok, (empty_slot_sim b fb Rb).
  destruct (FT.slot_of kInvalid fb); [done|]. rewrite (has_extra_sim b fb Rb). case_in E; [done|].
  rewrite (br_next b fb Rb), (extra_sim t ft) by done. apply bind_ok in E as (q & -> & E). rewrite bind_Ok. by apply IH.
Qed.

Lemma get_empty_sim p t ft loc ft' :
  tab_rel t ft -> FT.get_empty p ft = Ok (loc, ft') ->
  exists t', get_empty p t = Ok (loc, t') /\ tab_rel t' ft' /\ frame t' = frame t.
Proof.
  intros R E. unfold FT.get_empty in E. apply bind_ok in E as ([q oj] & El & E). unfold get_empty.
  rewrite (length_sim t ft R), (empty_loop_sim _ t ft p _ R El), bind_Ok. destruct oj as [j|]; [injection E as <- <-; by exists t|].
  apply bind_ok in E as ([ok ft1] & Ea & E). destruct (alloc_sim q t ft ok ft1 R Ea) as (t1 & -> & R1 & F1). rewrite bind_Ok.
  destruct ok; [|injection E as <- <-; by exists t1]. apply bind_ok in E as (fb & Eb & E).
  destruct (bkt_sim t1 ft1 q fb R1 Eb) as (b & -> & Rb). rewrite bind_Ok, (br_next b fb Rb), (extra_sim t1 ft1) by done.
  apply bind_ok in E as (e & -> & E). injection E as <- <-. by exists t1.
Qed.

(** The slot that [fill_hole] moves. *)
Lemma move_sim p j cur i t ft v k :
  tab_rel t ft -> u 64 v -> v <> 0 -> k <> kInvalid ->
  tab_rel (upd cur (with_item i 0) (upd p (with_item j v) t))
    (FT.upd cur (FT.with_key i kInvalid) (FT.upd p (FT.with_val j (le_bytes 8 v)) (FT.upd p (FT.with_key j k) ft))).
Proof.
  intros R Hu Hv Hk. apply upd_sim; [|apply clear_sim]. rewrite FixedTableInv.upd_upd. apply upd_sim; [done|]. intros b fb. by apply fill_sim.
Qed.

Lemma fill_hole_sim fuel p j t ft ft' :
  tab_rel t ft -> FT.fill_hole_loop fuel p j ft = Ok ft' ->
  exists t', fill_hole_loop fuel p j t = Ok t' /\ tab_rel t' ft' /\ frame t' = frame t.
Proof.
  revert t ft. induction fuel as [|fuel IH]; intros t ft R E; [done|]. cbn [FT.fill_hole_loop fill_hole_loop] in *.
  apply bind_ok in E as (fb & Eb & E). destruct (bkt_sim t ft p fb R Eb) as (b & -> & Rb). rewrite bind_Ok, (has_extra_sim b fb Rb).
  case_in E; [injection E as <-; by exists t|]. apply bind_ok in E as ([prev cur] & El & E).
  rewrite (length_sim t ft R), (last_two_sim _ t ft p _ R El), bind_Ok. apply bind_ok in E as (c & Ec & E).
  destruct (bkt_sim t ft cur c R Ec) as (c' & -> & Rc). rewrite bind_Ok, (scan_sim _ _ 0 None (br_used c' c Rc)).
  destruct (FT.scan_last (FT.key_arr c) 0 None) as [[m|] last] eqn:Es.
  - apply bind_ok in E as (k & Ek & E). apply bind_ok in E as (v & Ev & E). apply bind_ok in E as ([] & _ & E).
    unfold of_option in Ek, Ev. destruct (FT.key_arr c !! m) as [k'|] eqn:Ek'; [injection Ek as ->|done].
    destruct (FT.val_arr c !! m) as [v'|] eqn:Ev'; [injection Ev as ->|done].
    assert (k <> kInvalid) as Hk.
    { pose proof (FixedTableOps.scan_last_spec (FT.key_arr c) 0) as Hs. rewrite Es in Hs. destruct Hs as (ks1 & k2 & ks2 & Ec2 & -> & _ & Hk & _).
      rewrite Ec2 in Ek'. cbn in Ek'. rewrite list_lookup_middle in Ek' by done. congruence. }
    destruct (Forall2_lookup_r _ _ _ _ _ (br_word c' c Rc) Ev') as (w & Ew & Hwu & Hw).
    pose proof (Forall2_lookup_lr _ _ _ _ _ _ (br_used c' c Rc) Ew Ek') as Hu. rewrite Ew. cbn [of_option]. rewrite bind_Ok.
    assert (w <> 0) as Hw0 by (intros ->; by apply Hk, Hu). rewrite (Hw Hw0) in E.
    pose proof (move_sim p j cur m t ft w k R Hwu Hw0 Hk) as R1. assert (frame (upd cur (with_item m 0) (upd p (with_item j w) t)) = frame t) as F1 by by rewrite !upd_frame.
    destruct last; [|injection E as <-; by eexists]. destruct (free_sim prev _ _ ft' R1 E) as (t' & -> & R' & F'). exists t'. by rewrite F'.
  - apply bind_ok in E as (ft1 & Ef & E). destruct (free_sim prev t ft ft1 R Ef) as (t1 & -> & R1 & F1). rewrite bind_Ok.
    destruct (IH t1 ft1 R1 E) as (t' & -> & R' & F'). exists t'. by rewrite F'.
Qed.

End Sim.
End LTableSim.
