(* ===== verification/LTableItem.v ===== *)
(** * The MICA table with items of any size: items and the pool

    Copies and comparisons word by word are copies and comparisons of bytes; item words and
    length words give back what they were made of; an item that has been written is read
    back.  [PoolLaws] states what the table relies on in the pool. *)

From S2P Require Import Prelude Util FixedTable LTable.
From Stdlib Require Import ZArith Lia Bool.
From stdpp Require Import base numbers list gmap countable.
#[local] Open Scope Z_scope.
Import Memcpy LTable.

Module LTableItem.

(** ** Copies and comparisons *)

Lemma roundup8 n : 0 <= n < 2 ^ 63 -> n mod 8 = 0 -> roundup 8 n = n.
Proof.
  intros Hn Hm. change 8 with (2 ^ 3) at 1. rewrite roundup_div by lia. change (2 ^ 3) with 8.
  pose proof (Z.div_mod n 8). assert ((n + (8 - 1)) / 8 = n / 8) as ->; [|lia].
  symmetry. apply (Z.div_unique _ 8 _ 7); lia.
Qed.

(** A read in two parts. *)
Lemma read_at_split {A} off n k (m : list A) z :
  read_at off (n + k) m = Ok z -> read_at off n m = Ok (take n z) /\ read_at (off + n) k m = Ok (drop n z).
Proof.
  intros Hz. pose proof (read_at_bound _ _ _ _ Hz). rewrite read_at_ok in * by lia. injection Hz as <-.
  rewrite !read_at_ok by lia. rewrite take_take, Nat.min_l, skipn_firstn_comm, drop_drop by lia. split; [done|]. do 2 f_equal; lia.
Qed.

Lemma read_at_length {A} off n (m : list A) x : read_at off n m = Ok x -> length x = n.
Proof. intros Hx. pose proof (read_at_bound _ _ _ _ Hx). rewrite read_at_ok in Hx by lia. injection Hx as <-. rewrite length_take, length_drop. lia. Qed.

(** Two adjacent writes. *)
Lemma write_at_app {A} off (x y m : list A) :
  (off + length x + length y <= length m)%nat ->
  (m' ← write_at (off + length x) y m; write_at off x m') = write_at off (x ++ y) m.
Proof.
  intros Hl. rewrite write_at_ok, bind_Ok by lia. rewrite !write_at_ok by (rewrite ?length_app, ?length_take, ?length_drop; lia). f_equal.
  rewrite length_app, <- app_assoc. rewrite take_app_le, take_take, Nat.min_l by (rewrite ?length_take; lia). do 2 f_equal.
  rewrite drop_app_length' by (rewrite length_take; lia). by rewrite Nat.add_assoc.
Qed.

Lemma copy_words_ok k dst d src s x :
  0 <= d -> 0 <= s -> read_at (Z.to_nat s) (8 * k) src = Ok x -> (Z.to_nat d + 8 * k <= length dst)%nat ->
  copy_words k dst d src s = write_at (Z.to_nat d) x dst.
Proof.
  intros Hd Hs. revert x dst. induction k as [|k IH]; intros x dst Hx Hl.
  - apply read_at_length in Hx. destruct x; [|done]. cbn. rewrite write_at_ok by (cbn; lia). cbn. by rewrite Nat.add_0_r, take_drop.
  - replace (8 * S k)%nat with (8 * k + 8)%nat in Hx by lia. apply read_at_split in Hx as [Hx1 Hx2].
    cbn [copy_words]. replace (Z.to_nat (s + 8 * Z.of_nat k)) with (Z.to_nat s + 8 * k)%nat by lia. rewrite Hx2, bind_Ok.
    pose proof (read_at_length _ _ _ _ Hx1) as L1. pose proof (read_at_length _ _ _ _ Hx2) as L2.
    replace (Z.to_nat (d + 8 * Z.of_nat k)) with (Z.to_nat d + length (take (8 * k) x))%nat by lia.
    rewrite <- (take_drop (8 * k) x) at 3. rewrite <- write_at_app by lia.
    destruct (write_at_some (Z.to_nat d + length (take (8 * k) x)) (drop (8 * k) x) dst) as (dst' & -> & Hl'); [lia|]. rewrite !bind_Ok.
    apply IH; [done|lia].
Qed.

Lemma equal_words_ok k a pa b pb x y :
  0 <= pa -> 0 <= pb -> read_at (Z.to_nat pa) (8 * k) a = Ok x -> read_at (Z.to_nat pb) (8 * k) b = Ok y ->
  equal_words k a pa b pb = Ok (bool_decide (x = y)).
Proof.
  intros Ha Hb. revert x y. induction k as [|k IH]; intros x y Hx Hy.
  - apply read_at_length in Hx, Hy. by destruct x, y.
  - replace (8 * S k)%nat with (8 * k + 8)%nat in Hx, Hy by lia. apply read_at_split in Hx as [Hx1 Hx2], Hy as [Hy1 Hy2].
    cbn [equal_words]. replace (Z.to_nat (pa + 8 * Z.of_nat k)) with (Z.to_nat pa + 8 * k)%nat by lia.
    replace (Z.to_nat (pb + 8 * Z.of_nat k)) with (Z.to_nat pb + 8 * k)%nat by lia. rewrite Hx2, bind_Ok, Hy2, bind_Ok.
    case_bool_decide as Hd.
    + rewrite (IH _ _ Hx1 Hy1). f_equal. apply bool_decide_ext. split; [|by intros ->].
      intros Ht. rewrite <- (take_drop (8 * k) x), <- (take_drop (8 * k) y). by rewrite Hd, Ht.
    + f_equal. symmetry. apply bool_decide_eq_false. by intros ->.
Qed.

Lemma words_of n : 0 <= n -> n mod 8 = 0 -> Z.to_nat n = (8 * Z.to_nat (Z.shiftr n 3))%nat.
Proof. intros Hn Hm. rewrite Z.shiftr_div_pow2 by lia. change (2 ^ 3) with 8. pose proof (Z.div_mod n 8). pose proof (Z.div_pos n 8). lia. Qed.

Lemma memcpy8_ok dst d src s n x :
  0 <= n < 2 ^ 63 -> n mod 8 = 0 -> 0 <= d -> d mod 8 = 0 -> 0 <= s -> s mod 8 = 0 ->
  read_at (Z.to_nat s) (Z.to_nat n) src = Ok x -> (Z.to_nat d + Z.to_nat n <= length dst)%nat ->
  memcpy8 dst d src s n = write_at (Z.to_nat d) x dst.
Proof.
  intros Hn Hm Hd Hd8 Hs Hs8 Hx Hl. unfold memcpy8. rewrite (roundup8 n Hn Hm), Hd8, Hs8, !Z.eqb_refl. cbn [assert_]. rewrite !bind_Ok.
  case_goal; [|by rewrite Hx, bind_Ok]. apply copy_words_ok; [done|done|..]; rewrite <- words_of by lia; [done|lia].
Qed.

Lemma memcmp_equal8_ok a pa b pb n x y :
  0 <= n < 2 ^ 63 -> n mod 8 = 0 -> 0 <= pa -> pa mod 8 = 0 -> 0 <= pb -> pb mod 8 = 0 ->
  read_at (Z.to_nat pa) (Z.to_nat n) a = Ok x -> read_at (Z.to_nat pb) (Z.to_nat n) b = Ok y ->
  memcmp_equal8 a pa b pb n = Ok (bool_decide (x = y)).
Proof.
  intros Hn Hm Ha Ha8 Hb Hb8 Hx Hy. unfold memcmp_equal8. rewrite (roundup8 n Hn Hm), Ha8, Hb8, !Z.eqb_refl. cbn [assert_]. rewrite !bind_Ok.
  case_goal; [|by rewrite Hx, bind_Ok, Hy]. apply equal_words_ok; [done|done|..]; by rewrite <- words_of by lia.
Qed.

(** ** Words *)

(** A word of an upper part and a lower part of [w] bits. *)
Lemma lor_join w hi lo : 0 <= w -> 0 <= hi -> u w lo -> Z.lor (Z.shiftl hi w) lo = hi * 2 ^ w + lo.
Proof.
  intros Hw Hhi Hlo. rewrite <- Z.shiftl_mul_pow2 by done. symmetry. rewrite Z.add_nocarry_lxor, <- Z.lxor_lor; [done|..];
    (apply Z.bits_inj'; intros i Hi; rewrite Z.land_spec, Z.bits_0; destruct (Z.ltb_spec i w) as [Hl|Hl];
     [by rewrite Z.shiftl_spec_low|rewrite andb_false_iff; right; rewrite <- (Z.mod_small lo (2 ^ w)) by done; by apply Z.mod_pow2_bits_high]).
Qed.

Lemma join_split w hi lo : 0 <= w -> u w lo -> (hi * 2 ^ w + lo) / 2 ^ w = hi /\ (hi * 2 ^ w + lo) mod 2 ^ w = lo.
Proof.
  intros Hw Hlo. pose proof (pow2_pos w Hw). rewrite Z.add_comm, Z.div_add, Z.mod_add by lia. rewrite Z.div_small, Z.mod_small by done. by rewrite Z.add_0_l.
Qed.

Lemma calc_tag_range h : 1 <= calc_tag h < 2 ^ 16.
Proof.
  unfold calc_tag. change kTagMask with (Z.ones 16). rewrite Z.land_ones by lia. pose proof (Z.mod_pos_bound h (2 ^ 16)). case_goal; bool_prop; lia.
Qed.

Lemma item_vec_value tag off : u 16 tag -> u 48 off -> make_item_vec tag off = tag * 2 ^ 48 + off.
Proof.
  intros Ht Ho. unfold make_item_vec. rewrite wrap_id, lor_join by (done || (unfold u in *; rewrite ?Z.shiftl_mul_pow2; lia)). done.
Qed.

Lemma item_vec_parts tag off :
  1 <= tag < 2 ^ 16 -> u 48 off ->
  get_tag (make_item_vec tag off) = tag /\ get_item_offset (make_item_vec tag off) = off /\
  u 64 (make_item_vec tag off) /\ make_item_vec tag off <> 0.
Proof.
  intros Ht Ho. rewrite item_vec_value by (done || unfold u; lia). unfold get_tag, get_item_offset.
  change kItemOffsetMask with (Z.ones 48). rewrite Z.shiftr_div_pow2, Z.land_ones by lia. destruct (join_split 48 tag off) as [-> ->]; [lia|done|].
  rewrite wrap_id by (unfold u; lia). unfold u in *. split_and!; lia.
Qed.

Lemma kv_parts kl vl :
  0 <= kl <= 255 -> 0 <= vl <= kMaxValueLength ->
  get_key_length (make_kv_length_vec kl vl) = kl /\ get_value_length (make_kv_length_vec kl vl) = vl /\ u 32 (make_kv_length_vec kl vl).
Proof.
  intros Hk Hv. change kMaxValueLength with 1048575 in Hv. unfold get_key_length, get_value_length, make_kv_length_vec.
  rewrite wrap_id by (unfold u; rewrite Z.shiftl_mul_pow2; lia). rewrite lor_join by (unfold u; lia).
  change kValueMask with (Z.ones 24). rewrite Z.shiftr_div_pow2, Z.land_ones by lia. destruct (join_split 24 kl vl) as [-> ->]; [lia|unfold u; lia|].
  unfold u. split_and!; lia.
Qed.

(** ** Items *)

Record item := mk_item { i_hash : Z; i_key : list byte; i_value : list byte }.

Definition lenZ (l : list byte) : Z := Z.of_nat (length l).
Definition key_wf (k : list byte) : Prop := lenZ k <= kMaxKeyLength /\ lenZ k mod 8 = 0.
Definition value_wf (v : list byte) : Prop := lenZ v <= kMaxValueLength /\ lenZ v mod 8 = 0.
Definition item_wf (it : item) : Prop := u 64 (i_hash it) /\ key_wf (i_key it) /\ value_wf (i_value it).

Definition item_size (it : item) : Z := sizeof_Item + lenZ (i_key it) + lenZ (i_value it).
Definition item_kv (it : item) : Z := make_kv_length_vec (lenZ (i_key it)) (lenZ (i_value it)).

(** The bytes of an item at [a]. *)
Definition item_bytes (m : list byte) (a : Z) (it : item) : Prop :=
  read_at (Z.to_nat a) 4 m = Ok (le_bytes 4 (item_kv it)) /\
  read_at (Z.to_nat (a + 8)) 8 m = Ok (le_bytes 8 (i_hash it)) /\
  read_at (Z.to_nat (a + 16)) (length (i_key it)) m = Ok (i_key it) /\
  read_at (Z.to_nat (a + 16 + lenZ (i_key it))) (length (i_value it)) m = Ok (i_value it).

(** Memory that has only been written in [a, a + n). *)
Definition only_in (a n : Z) (m m' : list byte) : Prop :=
  length m' = length m /\ forall o k, (Z.of_nat (o + k) <= a \/ a + n <= Z.of_nat o) -> read_at o k m' = read_at o k m.

Lemma only_in_refl a n m : only_in a n m m.
Proof. by split. Qed.

Lemma only_in_trans a n m1 m2 m3 : only_in a n m1 m2 -> only_in a n m2 m3 -> only_in a n m1 m3.
Proof. intros [L1 H1] [L2 H2]. split; [congruence|]. intros o k Ho. by rewrite H2, H1. Qed.

Lemma write_only_in a n m m' d src :
  0 <= a <= d -> d + lenZ src <= a + n -> write_at (Z.to_nat d) src m = Ok m' -> only_in a n m m'.
Proof. unfold lenZ. intros Ha Hd E. split; [by eapply write_at_length|]. intros o k Ho. apply (read_write_at_ne _ _ _ _ o k E). lia. Qed.

(** A store at [d], as one step of the writes to an item. *)
Lemma store_step a n m d src :
  0 <= a <= d -> d + lenZ src <= a + n -> a + n <= lenZ m ->
  exists m', write_at (Z.to_nat d) src m = Ok m' /\ only_in a n m m' /\ read_at (Z.to_nat d) (length src) m' = Ok src /\
    forall o k, 0 <= o -> (o + Z.of_nat k <= d \/ d + lenZ src <= o) -> read_at (Z.to_nat o) k m' = read_at (Z.to_nat o) k m.
Proof.
  unfold lenZ. intros Ha Hd Hm. destruct (write_at_some (Z.to_nat d) src m) as (m' & E & _); [lia|]. exists m'. split; [done|].
  split; [by apply (write_only_in a n m m' d src)|]. split; [by apply (read_write_at _ _ m)|]. intros o k Ho Hne. apply (read_write_at_ne _ _ _ _ _ k E). lia.
Qed.

(** A readable buffer of the caller. *)
Definition ptr_has (p : ptr) (bs : list byte) : Prop :=
  0 <= p_pos p /\ p_pos p mod 8 = 0 /\ read_at (Z.to_nat (p_pos p)) (length bs) (p_mem p) = Ok bs.

Lemma copy_step a n m d p bs :
  0 <= a <= d -> d mod 8 = 0 -> d + lenZ bs <= a + n -> a + n <= lenZ m -> lenZ bs mod 8 = 0 -> lenZ bs <= 2 ^ 32 -> ptr_has p bs ->
  exists m', memcpy8 m d (p_mem p) (p_pos p) (lenZ bs) = Ok m' /\ only_in a n m m' /\ read_at (Z.to_nat d) (length bs) m' = Ok bs /\
    forall o k, 0 <= o -> (o + Z.of_nat k <= d \/ d + lenZ bs <= o) -> read_at (Z.to_nat o) k m' = read_at (Z.to_nat o) k m.
Proof.
  intros Ha Hd8 Hd Hm Hb Hb32 (Hp & Hp8 & Hr). destruct (store_step a n m d bs Ha Hd Hm) as (m' & E & Hrest). exists m'. split; [|done].
  unfold lenZ in *. rewrite (memcpy8_ok m d _ _ _ bs); [done|..]; try lia. by rewrite Nat2Z.id.
Qed.

(** [set_item] writes the item. *)
Lemma lt_set_item_ok a n m h k v kp vp :
  item_wf (mk_item h k v) -> 0 <= a -> a mod 8 = 0 -> item_size (mk_item h k v) <= n -> a + n <= lenZ m -> ptr_has kp k -> ptr_has vp v ->
  exists m', set_item a h kp (lenZ k) vp (lenZ v) m = Ok m' /\ only_in a n m m' /\ item_bytes m' a (mk_item h k v).
Proof.
  intros (Hh & [Hk Hk8] & [Hv Hv8]) Ha Ha8 Hsz Hm Hkp Hvp. cbn [i_hash i_key i_value] in *. unfold item_size in Hsz. cbn [i_key i_value] in Hsz.
  change sizeof_Item with 16 in Hsz. change kMaxKeyLength with 255 in Hk. change kMaxValueLength with 1048575 in Hv.
  assert (0 <= lenZ k /\ 0 <= lenZ v) as [Hk0 Hv0] by (unfold lenZ; lia).
  unfold set_item, store_le, item_data. change kKeyMask with 255. change kValueMask with 16777215. guards. rewrite (roundup8 (lenZ k)) by lia.
  destruct (store_step a n m a (le_bytes 4 (make_kv_length_vec (lenZ k) (lenZ v)))) as (m1 & -> & O1 & R1 & N1); [lia|unfold lenZ; rewrite length_le_bytes; lia|lia|].
  rewrite bind_Ok. pose proof (proj1 O1) as L1.
  destruct (store_step a n m1 (a + 8) (le_bytes 8 h)) as (m2 & -> & O2 & R2 & N2); [lia|unfold lenZ; rewrite length_le_bytes; lia|unfold lenZ in *; lia|].
  rewrite bind_Ok. pose proof (proj1 O2) as L2.
  destruct (copy_step a n m2 (a + 16) kp k) as (m3 & -> & O3 & R3 & N3); [lia|rewrite <- Z.add_mod_idemp_l, Ha8 by lia; done|lia|unfold lenZ in *; lia|done|lia|done|].
  rewrite bind_Ok. pose proof (proj1 O3) as L3.
  destruct (copy_step a n m3 (a + 16 + lenZ k) vp v) as (m4 & E4 & O4 & R4 & N4); [lia| |lia|unfold lenZ in *; lia|done|lia|done|].
  { rewrite <- Z.add_mod_idemp_r, Hk8, Z.add_0_r, <- Z.add_mod_idemp_l, Ha8 by lia. done. }
  exists m4. split; [done|]. split; [by do 3 (eapply only_in_trans; [eassumption|])|].
  unfold lenZ in N1, N2, N3, N4. rewrite ?length_le_bytes in *. unfold item_bytes. cbn [i_hash i_key i_value].
  split_and!; [|..|exact R4].
  - by rewrite N4, N3, N2 by lia.
  - by rewrite N4, N3 by lia.
  - rewrite N4; [done|lia|unfold lenZ; lia].
Qed.

(** An item depends on its own bytes. *)
Lemma item_bytes_same m m' a n it :
  0 <= a -> item_size it <= n -> read_at (Z.to_nat a) (Z.to_nat n) m' = read_at (Z.to_nat a) (Z.to_nat n) m -> a + n <= lenZ m ->
  item_bytes m a it -> item_bytes m' a it.
Proof.
  intros Ha Hn E Hm (H1 & H2 & H3 & H4). unfold item_size, lenZ in *. change sizeof_Item with 16 in Hn.
  assert (forall o k x, a <= o -> o + Z.of_nat k <= a + n -> read_at (Z.to_nat o) k m = Ok x -> read_at (Z.to_nat o) k m' = Ok x) as Hsub.
  { intros o k x Ho Hk <-. replace (Z.to_nat o) with (Z.to_nat a + (Z.to_nat (o - a)))%nat by lia.
    destruct (read_at (Z.to_nat a) (Z.to_nat n) m) as [z|] eqn:Ez; [|rewrite read_at_ok in Ez by lia; done].
    by rewrite (read_at_sub _ _ _ _ _ _ E), (read_at_sub _ _ _ _ _ _ Ez) by lia. }
  unfold item_bytes, lenZ. split_and!; apply Hsub; (done || lia).
Qed.

Lemma item_bytes_only m m' a n b k it :
  0 <= a -> item_size it <= n -> a + n <= b \/ b + k <= a -> a + n <= lenZ m -> only_in b k m m' -> item_bytes m a it -> item_bytes m' a it.
Proof.
  intros Ha Hn Hd Hm [_ Ho]. assert (0 <= n) by (unfold item_size, lenZ in Hn; change sizeof_Item with 16 in Hn; lia).
  apply (item_bytes_same m m' a n it Ha Hn); [|done]. apply Ho. lia.
Qed.

(** The fields of an item. *)
Lemma item_fields m a it :
  item_wf it -> item_bytes m a it ->
  item_kv_length_vec a m = Ok (item_kv it) /\ get_key_length (item_kv it) = lenZ (i_key it) /\ get_value_length (item_kv it) = lenZ (i_value it) /\
  item_key_hash a m = Ok (i_hash it).
Proof.
  intros (Hh & [Hk _] & [Hv _]) (H1 & H2 & _ & _). unfold item_kv_length_vec, item_key_hash, load_le. rewrite H1, H2, !bind_Ok.
  destruct (kv_parts (lenZ (i_key it)) (lenZ (i_value it))) as (E1 & E2 & E3); [unfold lenZ in *; by change kMaxKeyLength with 255 in Hk; lia|unfold lenZ in *; lia|].
  rewrite !le_val_bytes by done. done.
Qed.

(** [set_item_value] replaces the value. *)
Lemma set_item_value_ok a n m h k v0 v vp :
  item_wf (mk_item h k v0) -> item_wf (mk_item h k v) -> item_bytes m a (mk_item h k v0) ->
  0 <= a -> a mod 8 = 0 -> item_size (mk_item h k v) <= n -> a + n <= lenZ m -> ptr_has vp v ->
  exists m', set_item_value a vp (lenZ v) m = Ok m' /\ only_in a n m m' /\ item_bytes m' a (mk_item h k v).
Proof.
  intros Hw0 (Hh & [Hk Hk8] & [Hv Hv8]) Hb Ha Ha8 Hsz Hm Hvp. destruct (item_fields m a _ Hw0 Hb) as (E1 & E2 & _ & _).
  destruct Hb as (_ & H2 & H3 & _). cbn [i_hash i_key i_value] in *. unfold item_size in Hsz. cbn [i_key i_value] in Hsz.
  change sizeof_Item with 16 in Hsz. change kMaxKeyLength with 255 in Hk. change kMaxValueLength with 1048575 in Hv.
  assert (0 <= lenZ k /\ 0 <= lenZ v) as [Hk0 Hv0] by (unfold lenZ; lia).
  unfold set_item_value, store_le, item_data. change kValueMask with 16777215. guards. rewrite E1, bind_Ok, E2, (roundup8 (lenZ k)) by lia.
  destruct (store_step a n m a (le_bytes 4 (make_kv_length_vec (lenZ k) (lenZ v)))) as (m1 & -> & O1 & R1 & N1); [lia|unfold lenZ; rewrite length_le_bytes; lia|lia|].
  rewrite bind_Ok. pose proof (proj1 O1) as L1.
  destruct (copy_step a n m1 (a + 16 + lenZ k) vp v) as (m2 & E4 & O2 & R2 & N2); [lia| |lia|unfold lenZ in *; lia|done|lia|done|].
  { rewrite <- Z.add_mod_idemp_r, Hk8, Z.add_0_r, <- Z.add_mod_idemp_l, Ha8 by lia. done. }
  exists m2. split; [done|]. split; [by eapply only_in_trans|]. unfold lenZ in N1, N2. rewrite ?length_le_bytes in *. unfold item_bytes. cbn [i_hash i_key i_value].
  split_and!; [|..|exact R2].
  - by rewrite N2 by lia.
  - by rewrite N2, N1 by lia.
  - rewrite N2, N1; [done|lia|lia|lia|unfold lenZ; lia].
Qed.

(** ** The identity of an item *)

(** A key of the fixed-size table that stands for a hash and a key. *)
Definition kid (h : Z) (k : list byte) : Z := 2 ^ 64 + Zpos (encode (h, k)).

Lemma kid_inj h k h' k' : kid h k = kid h' k' -> h = h' /\ k = k'.
Proof. unfold kid. intros E. assert (encode (h, k) = encode (h', k')) as E' by lia. apply (inj encode) in E'. by injection E'. Qed.

Lemma kid_valid h k : kid h k <> FixedTable.kFtInvalidKey.
Proof. unfold kid. change FixedTable.kFtInvalidKey with (2 ^ 64 - 1). lia. Qed.

#[global] Opaque kid.

(** ** The pool *)

(** The items of [S] are where they were and hold what they held. *)
Definition pool_keeps {P} `{PoolOps P} (S : gset Z) (p : P) (m : list byte) (p' : P) (m' : list byte) : Prop :=
  forall off, off ∈ S ->
    pool_get_item p' m' off = pool_get_item p m off /\
    let '(a, n) := pool_get_item p m off in read_at (Z.to_nat a) (Z.to_nat n) m' = read_at (Z.to_nat a) (Z.to_nat n) m.

(** What the table relies on.  [pool_ok locked] says that the pool is in order, and whether
    its lock is held.  The pool knows which items are allocated; they are in memory, aligned
    to words, do not overlap, and have offsets of 48 bits.  The pool never touches an
    allocated item, and a store inside an allocated item does not affect the pool. *)
Class PoolLaws (P : Type) `{PoolOps P} := {
  pool_ok : bool -> P -> list byte -> Prop;
  pool_live : P -> gset Z;
  pool_item l p m off : pool_ok l p m -> off ∈ pool_live p ->
    u 48 off /\ let '(a, n) := pool_get_item p m off in 0 <= a /\ a mod 8 = 0 /\ 0 <= n /\ a + n <= lenZ m;
  pool_apart l p m off off' : pool_ok l p m -> off ∈ pool_live p -> off' ∈ pool_live p -> off <> off' ->
    let '(a, n) := pool_get_item p m off in let '(a', n') := pool_get_item p m off' in a + n <= a' \/ a' + n' <= a;
  pool_stored l p m off m' : pool_ok l p m -> off ∈ pool_live p ->
    (let '(a, n) := pool_get_item p m off in only_in a n m m') ->
    pool_ok l p m' /\ forall off', off' ∈ pool_live p -> pool_get_item p m' off' = pool_get_item p m off';
  pool_allocated l n p m o p' m' : pool_ok l p m -> u 32 n -> pool_allocate n p m = (o, p', m') ->
    pool_ok l p' m' /\ pool_keeps (pool_live p) p m p' m' /\
    match o with
    | Some off => (off ∉ pool_live p) /\ pool_live p' = {[off]} ∪ pool_live p /\ n <= (pool_get_item p' m' off).2
    | None => pool_live p' = pool_live p
    end;
  pool_released l off p m p' m' : pool_ok l p m -> off ∈ pool_live p -> pool_release off p m = (p', m') ->
    pool_ok l p' m' /\ pool_live p' = pool_live p ∖ {[off]} /\ pool_keeps (pool_live p ∖ {[off]}) p m p' m';
  pool_was_reset l p m p' m' : pool_ok l p m -> pool_reset p m = (p', m') -> pool_ok l p' m' /\ pool_live p' = ∅;
  pool_locked p m : pool_ok false p m ->
    pool_ok true (pool_lock p) m /\ pool_live (pool_lock p) = pool_live p /\ pool_keeps (pool_live p) p m (pool_lock p) m;
  pool_unlocked p m : pool_ok true p m ->
    pool_ok false (pool_unlock p) m /\ pool_live (pool_unlock p) = pool_live p /\ pool_keeps (pool_live p) p m (pool_unlock p) m
}.

End LTableItem.
