(* ===== verification/LTableInv.v ===== *)
(** * The MICA table with items of any size: invariant and abstract map

    The invariant [holds] ties the index, by [LTableSim], to a fixed-size table, and every
    item word to an allocated item of the pool; the pool holds no other items.  [represents]
    abstracts a table to a finite map from a hash and a key to a value. *)

From S2P Require Import Prelude Util FixedTable FixedTableInv FixedTableOps LTable LTableSim LTableItem.
From Stdlib Require Import ZArith Lia Bool.
From stdpp Require Import base numbers list gmap sets.
#[local] Open Scope Z_scope.
Import Memcpy LTable LTableSim LTableItem.

Module LTableInv.
Module FI := FixedTableInv.
Module FO := FixedTableOps.

Section Ops.
Context {P : Type} `{PoolLaws P}.
Notation table := (LTable.table P).
Implicit Types (t : table) (ft : FT.table) (own : gmap Z item) (L : gset Z).

(** ** The invariant *)

Definition ibidx (ft : FT.table) (h : Z) : nat := FO.bidx ft (Z.shiftr h 16).
Definition vec (off : Z) (it : item) : Z := make_item_vec (calc_tag (i_hash it)) off.

(** The item at an offset. *)
Definition item_at (p : P) (m : list byte) (off : Z) (it : item) : Prop :=
  item_wf it /\ let '(a, n) := pool_get_item p m off in item_size it <= n /\ item_bytes m a it.

(** The pool has the items [L], which are those of the table but in the course of an operation. *)
Record holds (L : gset Z) (t : table) (ft : FT.table) (own : gmap Z item) : Prop := {
  h_rel : tab_rel t ft;
  h_inv : FI.Inv ft;
  h_pool : pool_ok false (pool_ t) (mem_ t);
  h_live : pool_live (pool_ t) = L;
  h_own : dom own ⊆ L;
  h_item : forall off it, own !! off = Some it -> item_at (pool_ t) (mem_ t) off it;
  h_abs : forall i k bs, (i < Z.to_nat (FT.num_buckets_ ft))%nat ->
    FI.abs ft i !! k = Some bs <->
    exists off it, own !! off = Some it /\ i = ibidx ft (i_hash it) /\ k = kid (i_hash it) (i_key it) /\ bs = le_bytes 8 (vec off it)
}.

(** No bucket is locked. *)
Definition unlocked (t : table) : Prop :=
  (concurrent_access_mode_ t = 0 \/ concurrent_access_mode_ t = 1 \/ concurrent_access_mode_ t = 2) /\
  Forall (fun v => u 32 v /\ Z.even v = true) (version <$> buckets_ t).

Definition represents (t : table) (M : gmap (Z * list byte) (list byte)) : Prop :=
  unlocked t /\ exists ft own, holds (dom own) t ft own /\
  forall h k v, M !! (h, k) = Some v <-> exists off, own !! off = Some (mk_item h k v).

(** ** Versions *)

(** A table without the versions of its buckets. *)
Definition core (t : table) : Z * Z * Z * Z * Z * list (Z * list Z) * P * list byte :=
  (num_buckets_ t, num_buckets_mask_ t, num_extra_buckets_ t, fl_lock t, fl_head t,
   (fun b => (next_extra_bucket_index b, item_vec b)) <$> buckets_ t, pool_ t, mem_ t).

Lemma holds_core L t t' ft own : core t' = core t -> holds L t ft own -> holds L t' ft own.
Proof.
  unfold core. intros [= E1 E2 E3 E4 E5 E6 E7 E8] [[R1 R2 R3 R4 R5 R6 R7] H2 H3 H4 H5 H6 H7]. constructor; try (rewrite ?E7, ?E8; done).
  constructor; try congruence. apply Forall2_same_length_lookup_2.
  - rewrite <- (Forall2_length _ _ _ R7), <- (length_fmap (fun b => (next_extra_bucket_index b, item_vec b))), E6. by rewrite length_fmap.
  - intros i b fb Hb Hfb. apply (f_equal (lookup i)) in E6. rewrite !list_lookup_fmap, Hb in E6.
    destruct (Forall2_lookup_r _ _ _ _ _ R7 Hfb) as (b0 & Hb0 & [B1 B2 B3]). rewrite Hb0 in E6. injection E6 as Ea Eb. by constructor; rewrite ?Ea, ?Eb.
Qed.

Lemma version_core p v t : core (upd p (with_version v) t) = core t.
Proof.
  unfold core. enough ((fun b => (next_extra_bucket_index b, item_vec b)) <$> buckets_ (upd p (with_version v) t)
    = (fun b => (next_extra_bucket_index b, item_vec b)) <$> buckets_ t) as -> by done.
  cbn. apply list_eq. intros q. rewrite !list_lookup_fmap. destruct (decide (q = p)) as [->|Hne]; [rewrite list_lookup_alter_eq|by rewrite list_lookup_alter_ne].
  by destruct (buckets_ t !! p).
Qed.

Lemma even_land v : Z.even v = true -> Z.land v 1 = 0.
Proof. intros E. change 1 with (Z.ones 1). rewrite Z.land_ones by lia. change (2 ^ 1) with 2. by rewrite Zmod_even, E. Qed.
Lemma odd_land v : Z.even v = false -> Z.land v 1 = 1.
Proof. intros E. change 1 with (Z.ones 1) at 1. rewrite Z.land_ones by lia. change (2 ^ 1) with 2. by rewrite Zmod_even, E. Qed.

Lemma even_next v : u 32 v -> Z.even v = true -> u 32 (v + 1) /\ Z.even (v + 1) = false.
Proof.
  intros Hu He. rewrite Z.even_add, He. split; [|done]. unfold u in *. assert (v <> 2 ^ 32 - 1) by (intros ->; done). lia.
Qed.
Lemma odd_next v : u 32 v -> Z.even v = false -> u 32 (wrap 32 (v + 1)) /\ Z.even (wrap 32 (v + 1)) = true.
Proof.
  intros Hu He. split; [by apply wrap_u|]. assert (Z.even (v + 1) = true) as E by (by rewrite Z.even_add, He).
  unfold wrap. destruct (decide (v = 2 ^ 32 - 1)) as [->|Hne]; [done|]. unfold u in Hu. by rewrite Z.mod_small by lia.
Qed.

Lemma version_upd p v t : version <$> buckets_ (upd p (with_version v) t) = <[p := v]> (version <$> buckets_ t).
Proof.
  cbn. apply list_eq. intros q. rewrite list_lookup_fmap. destruct (decide (q = p)) as [->|Hne].
  - rewrite list_lookup_alter_eq. destruct (buckets_ t !! p) as [b|] eqn:E; cbn.
    + rewrite list_lookup_insert_eq; [done|]. rewrite length_fmap. by eapply lookup_lt_Some.
    + symmetry. rewrite list_insert_ge, list_lookup_fmap, E; [done|]. rewrite length_fmap. by apply lookup_ge_None.
  - by rewrite list_lookup_alter_ne, list_lookup_insert_ne, list_lookup_fmap.
Qed.

(** Taking the lock of a free bucket adds one to its version, in the modes that have locks. *)
Lemma lt_lock_ok p b t :
  unlocked t -> buckets_ t !! p = Some b ->
  lock_bucket p t = Ok (if concurrent_access_mode_ t =? 0 then t else upd p (with_version (version b + 1)) t).
Proof.
  intros [Hm Hv] Hb. rewrite Forall_fmap, Forall_lookup in Hv. destruct (Hv p b Hb) as [Hu He]. destruct (even_next _ Hu He) as [Hu' _].
  unfold lock_bucket, bkt. rewrite Hb. destruct Hm as [->|[->| ->]]; cbn.
  - done.
  - by rewrite (even_land _ He), (wrap_id 32).
  - assert (Z.odd (version b) = false) as Ho by (by rewrite <- Z.negb_even, He).
    by rewrite FO.ldiff_1, Ho, FO.even_lor_1.
Qed.

(** A bucket is locked, the table becomes [t2], and the bucket is unlocked. *)
Lemma locking p b t :
  unlocked t -> buckets_ t !! p = Some b ->
  exists t1, lock_bucket p t = Ok t1 /\ core t1 = core t /\
    forall t2, concurrent_access_mode_ t2 = concurrent_access_mode_ t1 -> version <$> buckets_ t2 = version <$> buckets_ t1 ->
      exists t3, unlock_bucket p t2 = Ok t3 /\ core t3 = core t2 /\ unlocked t3.
Proof.
  intros Hun Hb. rewrite (lt_lock_ok p b t Hun Hb). destruct Hun as [Hm Hv]. eexists. split; [done|].
  pose proof Hv as Hv'. rewrite Forall_fmap, Forall_lookup in Hv'. destruct (Hv' p b Hb) as [Hu He]. destruct (even_next _ Hu He) as [Hu1 He1].
  unfold unlock_bucket. destruct (concurrent_access_mode_ t =? 0) eqn:Em; bool_prop; [split; [done|]|split; [by rewrite version_core|]]; intros t2 Hm2 Hv2.
  - rewrite Hm2, Em. exists t2. split; [done|]. split; [done|]. split; [rewrite Hm2; by left|by rewrite Hv2].
  - cbn in Hm2. rewrite Hm2, (proj2 (Z.eqb_neq _ _) Em). cbn [negb]. rewrite version_upd in Hv2.
    assert (version <$> (buckets_ t2 !! p) = Some (version b + 1)) as Hp.
    { rewrite <- list_lookup_fmap, Hv2, list_lookup_insert_eq; [done|]. rewrite length_fmap. by eapply lookup_lt_Some. }
    destruct (buckets_ t2 !! p) as [b2|] eqn:Eb2; [|done]. injection Hp as Hp. unfold bkt. rewrite Eb2. cbn [of_option]. rewrite bind_Ok, Hp, (odd_land _ He1).
    eexists. split; [done|]. split; [by rewrite version_core|]. split; [cbn; by rewrite Hm2|].
    rewrite version_upd, Hv2, list_insert_insert_eq. apply Forall_insert; [done|by apply odd_next].
Qed.

(** ** Searching *)

Lemma holds_bucket L t ft own h :
  holds L t ft own ->
  Z.to_nat (calc_bucket_index t h) = ibidx ft h /\ (ibidx ft h < Z.to_nat (FT.num_buckets_ ft))%nat /\
  exists sh ps b, FI.wf ft sh /\ FI.chains sh !! ibidx ft h = Some ps /\ buckets_ t !! ibidx ft h = Some b.
Proof.
  intros Hh. destruct (FO.Inv_bucket ft (Z.shiftr h 16) (h_inv _ _ _ _ Hh)) as (_ & Hlt & sh & ps & fb & Hw & Hps & Hfb & _).
  split; [|split; [done|]].
  - unfold calc_bucket_index. by rewrite (tr_mask _ _ (h_rel _ _ _ _ Hh)).
  - destruct (Forall2_lookup_r _ _ _ _ _ (tr_bkts _ _ (h_rel _ _ _ _ Hh)) Hfb) as (b & Hb & _). by exists sh, ps, b.
Qed.

Lemma own_live L t ft own off it :
  holds L t ft own -> own !! off = Some it ->
  off ∈ pool_live (pool_ t) /\ u 48 off /\ get_tag (vec off it) = calc_tag (i_hash it) /\ get_item_offset (vec off it) = off /\
  u 64 (vec off it) /\ vec off it <> 0.
Proof.
  intros Hh Ho. assert (off ∈ pool_live (pool_ t)) as Hl by (rewrite (h_live _ _ _ _ Hh); eapply (h_own _ _ _ _ Hh), elem_of_dom_2, Ho).
  destruct (pool_item _ _ _ _ (h_pool _ _ _ _ Hh) Hl) as [Hu _]. split; [done|]. split; [done|]. by apply item_vec_parts; [apply calc_tag_range|].
Qed.

Lemma chain_index ft sh i ps : FI.wf ft sh -> FI.chains sh !! i = Some ps -> (i < Z.to_nat (FT.num_buckets_ ft))%nat.
Proof. intros (_ & Hl & _) Hi. apply lookup_lt_Some in Hi. pose proof (FI.lk_len ft sh Hl). lia. Qed.

(** The item of a used slot. *)
Lemma slot_own L t ft own sh i ps q b j v :
  holds L t ft own -> FI.wf ft sh -> FI.chains sh !! i = Some ps -> q ∈ ps -> buckets_ t !! q = Some b -> item_vec b !! j = Some v -> v <> 0 ->
  exists off it fb, own !! off = Some it /\ i = ibidx ft (i_hash it) /\ v = vec off it /\
    FT.buckets_ ft !! q = Some fb /\ FT.key_arr fb !! j = Some (kid (i_hash it) (i_key it)).
Proof.
  intros Hh Hw Hi Hq Hb Hj Hv. destruct (Forall2_lookup_l _ _ _ _ _ (tr_bkts _ _ (h_rel _ _ _ _ Hh)) Hb) as (fb & Hfb & [_ Hu Hr]).
  destruct (Forall2_lookup_l _ _ _ _ _ Hu Hj) as (k & Hk & Huse). destruct (Forall2_lookup_l _ _ _ _ _ Hr Hj) as (bs & Hbs & Hu64 & Hword).
  pose proof Hw as (_ & Hlk & Hct & _).
  assert (FI.abs ft i !! k = Some bs) as Ha.
  { rewrite (FI.abs_shape ft sh Hlk i ps Hi). apply elem_of_list_to_map_1; [by eapply FI.ct_keys|]. apply FI.items_elem.
    split; [intros Ek; by apply Hv, Huse|]. by exists q, fb, j. }
  apply (h_abs _ _ _ _ Hh i k bs) in Ha as (off & it & Ho & -> & -> & Ebs); [|by eapply chain_index]. exists off, it, fb. split_and!; try done.
  destruct (own_live L t ft own off it Hh Ho) as (_ & _ & _ & _ & Hu64' & _). rewrite (Hword Hv) in Ebs.
  rewrite <- (le_val_bytes 8 v), <- (le_val_bytes 8 (vec off it)) by done. by rewrite Ebs.
Qed.

(** The tests on an item word recognise the hash and the key. *)
Lemma item_matches_ok L t ft own off it h key kp :
  holds L t ft own -> own !! off = Some it -> ptr_has kp key ->
  item_matches t h (calc_tag h) kp (lenZ key) (vec off it) = Ok (bool_decide (kid (i_hash it) (i_key it) = kid h key)).
Proof.
  intros Hh Ho (Hk0 & Hk8 & Hkr). destruct (own_live L t ft own off it Hh Ho) as (Hl & _ & Et & Eo & _). unfold item_matches. rewrite Et, Eo.
  assert (forall x, ~ (i_hash it = h /\ i_key it = key) -> x = false -> Ok x = Ok (bool_decide (kid (i_hash it) (i_key it) = kid h key))) as Hno.
  { intros x Hne ->. f_equal. symmetry. apply bool_decide_eq_false. intros E. by apply Hne, kid_inj. }
  destruct (Z.eqb_spec (calc_tag (i_hash it)) (calc_tag h)) as [_|Hne]; [|apply Hno; [|done]; intros [E _]; by rewrite E in Hne]. cbn [negb].
  destruct (h_item _ _ _ _ Hh off it Ho) as [Hwf Hit]. destruct (pool_item _ _ _ _ (h_pool _ _ _ _ Hh) Hl) as [_ Hp].
  destruct (pool_get_item (pool_ t) (mem_ t) off) as [a n]. destruct Hp as (Ha & Ha8 & _), Hit as [Hsz Hby].
  destruct (item_fields _ _ _ Hwf Hby) as (Ekv & Ekl & _ & Eh). rewrite Eh, bind_Ok.
  destruct (Z.eqb_spec (i_hash it) h) as [<-|Hne]; [|apply Hno; [|done]; intros [E _]; by rewrite E in Hne]. cbn [negb].
  rewrite Ekv, bind_Ok, Ekl. unfold compare_keys. destruct (Z.eqb_spec (lenZ (i_key it)) (lenZ key)) as [El|Hne]; [|apply Hno; [|done]; intros [_ E]; by rewrite E in Hne].
  destruct Hwf as (_ & [Hk Hkm] & _), Hby as (_ & _ & Hkb & _). change kMaxKeyLength with 255 in Hk. assert (0 <= lenZ (i_key it)) by (unfold lenZ; lia).
  rewrite roundup8 by lia. rewrite (memcmp_equal8_ok _ _ _ _ _ (i_key it) key); try lia.
  - f_equal. apply bool_decide_ext. split; [by intros ->|intros E; by apply kid_inj in E as [_ E]].
  - unfold item_data. lia.
  - unfold item_data. by rewrite <- Z.add_mod_idemp_l, Ha8 by lia.
  - unfold item_data, lenZ. by rewrite Nat2Z.id.
  - rewrite El. unfold lenZ. by rewrite Nat2Z.id.
Qed.

Lemma find_slot_ok t h tag kp kl (kd : Z) vs (ks : list Z) n :
  Forall2 (fun v k => item_matches t h tag kp kl v = Ok (bool_decide (k = kd))) vs ks ->
  find_slot t h tag kp kl vs n = Ok ((fun j => n + j)%nat <$> (fst <$> list_find (fun k => k = kd) ks)).
Proof.
  intros Hf. revert n. induction Hf as [|v k vs ks Hm _ IH]; intros n; [done|]. cbn [find_slot]. rewrite Hm, bind_Ok. cbn [list_find].
  case_bool_decide as Hk; [rewrite decide_True by done; cbn; by rewrite Nat.add_0_r|]. rewrite decide_False, IH by done. f_equal.
  destruct (list_find _ ks) as [[]|]; [|done]. cbn. f_equal. lia.
Qed.

Lemma find_loop_ok t ft h tag kp kl (kd : Z) fuel p l :
  tab_rel t ft -> FI.cfg_wf ft -> FI.path ft (p :: l) ->
  (forall q b fb, q ∈ p :: l -> buckets_ t !! q = Some b -> FT.buckets_ ft !! q = Some fb ->
     Forall2 (fun v k => item_matches t h tag kp kl v = Ok (bool_decide (k = kd))) (item_vec b) (FT.key_arr fb)) ->
  (S (length l) <= fuel)%nat -> find_loop fuel t h tag kp kl p = Ok (FI.find_in ft kd (p :: l)).
Proof.
  intros R Hc. revert p l. induction fuel as [|fuel IH]; intros p l Hp Hm Hf; [lia|]. cbn [find_loop FI.find_in].
  destruct (FI.path_step ft p l Hc Hp) as (fb & Hfb & Hfk & Hr). destruct (bkt_sim t ft p fb R Hfk) as (b & Hb & Rb). rewrite Hb, bind_Ok, Hfb. cbn [mbind option_bind].
  assert (buckets_ t !! p = Some b) as Hb' by (unfold bkt, of_option in Hb; by destruct (buckets_ t !! p); simplify_eq).
  rewrite (find_slot_ok t h tag kp kl kd _ _ 0 (Hm p b fb ltac:(set_solver) Hb' Hfb)), bind_Ok. unfold FT.slot_of.
  destruct (list_find _ (FT.key_arr fb)) as [[j k]|]; [done|]. cbn [fmap option_fmap option_map]. rewrite (has_extra_sim b fb Rb). destruct l as [|q l].
  - destruct Hr as [-> _]. done.
  - destruct Hr as (-> & Hg & _ & _ & Hp'). cbn [negb]. rewrite (br_next b fb Rb), (extra_sim t ft), Hg, bind_Ok by done.
    apply IH; [done| |cbn in *; lia]. intros q' b' fb' Hq'. apply Hm. set_solver.
Qed.

Lemma find_ok L t ft own sh ps h key kp :
  holds L t ft own -> FI.wf ft sh -> FI.chains sh !! ibidx ft h = Some ps -> ptr_has kp key ->
  find_item_index t (ibidx ft h) h (calc_tag h) kp (lenZ key) = Ok (FI.find_in ft (kid h key) ps).
Proof.
  intros Hh Hw Hi Hkp. pose proof Hw as (Hc & Hlk & _). pose proof (FI.chain_length ft sh Hlk _ ps Hi) as Hlen.
  destruct (FI.chain_cons ft sh Hlk _ ps Hi) as (l & -> & Hp). unfold find_item_index. rewrite (length_sim t ft (h_rel _ _ _ _ Hh)).
  apply find_loop_ok; [apply Hh|done|done| |done]. intros q b fb Hq Hb Hfb.
  pose proof (Forall2_lookup_lr _ _ _ _ _ _ (tr_bkts _ _ (h_rel _ _ _ _ Hh)) Hb Hfb) as [_ Hu _].
  apply Forall2_same_length_lookup_2; [by eapply Forall2_length|]. intros j v k Hv Hk.
  pose proof (Forall2_lookup_lr _ _ _ _ _ _ Hu Hv Hk) as Huse. destruct (decide (v = 0)) as [->|Hne].
  - rewrite (proj1 Huse eq_refl) in *. unfold item_matches. change (get_tag 0) with 0. pose proof (calc_tag_range h).
    rewrite (proj2 (Z.eqb_neq 0 (calc_tag h))) by lia. cbn [negb]. f_equal. symmetry. apply bool_decide_eq_false. intros E. by eapply kid_valid.
  - destruct (slot_own L t ft own sh _ _ q b j v Hh Hw Hi Hq Hb Hv Hne) as (off & it & fb' & Ho & _ & -> & Hfb' & Hk'). simplify_eq.
    by apply (item_matches_ok L t ft own).
Qed.

(** The slot of a key, if the table has it. *)
Lemma lookup_ok L t ft own sh ps h key kp :
  holds L t ft own -> FI.wf ft sh -> FI.chains sh !! ibidx ft h = Some ps -> ptr_has kp key ->
  (exists q j fb off v, find_item_index t (ibidx ft h) h (calc_tag h) kp (lenZ key) = Ok (Some (q, j)) /\
     slot_vec t q j = Ok (vec off (mk_item h key v)) /\ own !! off = Some (mk_item h key v) /\
     q ∈ ps /\ FT.buckets_ ft !! q = Some fb /\ FT.key_arr fb !! j = Some (kid h key)) \/
  (find_item_index t (ibidx ft h) h (calc_tag h) kp (lenZ key) = Ok None /\
     (forall off v, own !! off <> Some (mk_item h key v)) /\ kid h key ∉ (FI.items ft ps).*1).
Proof.
  intros Hh Hw Hi Hkp. rewrite (find_ok L t ft own sh ps h key kp Hh Hw Hi Hkp).
  pose proof (FO.find_abs ft sh _ ps (kid h key) Hw Hi (kid_valid h key)) as Hf. destruct (FI.find_in ft (kid h key) ps) as [[q j]|].
  - left. destruct Hf as (fb & bs & Hq & Hfb & Hk & Hbs & _ & _).
    destruct (Forall2_lookup_r _ _ _ _ _ (tr_bkts _ _ (h_rel _ _ _ _ Hh)) Hfb) as (b & Hb & [_ Hu _]).
    destruct (Forall2_lookup_r _ _ _ _ _ Hu Hk) as (v & Hv & Huse).
    assert (v <> 0) as Hv0 by (intros Ev; by apply (kid_valid h key), Huse).
    destruct (slot_own L t ft own sh _ ps q b j v Hh Hw Hi Hq Hb Hv Hv0) as (off & [h' k' v'] & fb' & Ho & _ & -> & Hfb' & Hk').
    rewrite Hfb in Hfb'. injection Hfb' as <-. rewrite Hk in Hk'. apply (inj Some), kid_inj in Hk' as [Eh Ek]. cbn in Eh, Ek. subst h' k'.
    exists q, j, fb, off, v'. split; [reflexivity|]. split; [|by repeat (split; [assumption|])]. unfold slot_vec, bkt. rewrite Hb. cbn [of_option]. rewrite bind_Ok, Hv. reflexivity.
  - right. destruct Hf as [Ha Hnot]. split; [done|]. split; [|done]. intros off v Ho.
    assert (FI.abs ft (ibidx ft h) !! kid h key = Some (le_bytes 8 (vec off (mk_item h key v)))) as Hs; [|by rewrite Ha in Hs].
    apply (h_abs _ _ _ _ Hh); [by eapply chain_index|]. by exists off, (mk_item h key v).
Qed.

(** A hash and a key have one item. *)
Lemma own_unique L t ft own o1 o2 h k v1 v2 :
  holds L t ft own -> own !! o1 = Some (mk_item h k v1) -> own !! o2 = Some (mk_item h k v2) -> o1 = o2 /\ v1 = v2.
Proof.
  intros Hh H1 H2. destruct (holds_bucket L t ft own h Hh) as (_ & Hlt & _).
  assert (forall o v, own !! o = Some (mk_item h k v) -> FI.abs ft (ibidx ft h) !! kid h k = Some (le_bytes 8 (vec o (mk_item h k v)))) as Ha.
  { intros o v Ho. apply (h_abs _ _ _ _ Hh); [done|]. by exists o, (mk_item h k v). }
  pose proof (Ha _ _ H1) as E1. rewrite (Ha _ _ H2) in E1. apply (inj Some) in E1.
  destruct (own_live L t ft own o1 _ Hh H1) as (_ & _ & _ & Eo1 & U1 & _). destruct (own_live L t ft own o2 _ Hh H2) as (_ & _ & _ & Eo2 & U2 & _).
  apply (f_equal le_val) in E1. rewrite !le_val_bytes in E1 by done. rewrite E1, Eo1 in Eo2. subst o2. split; [done|]. rewrite H1 in H2. by injection H2.
Qed.

(** ** The index of the fixed-size table *)

Lemma abs_evolves i ft sh ft' sh' ps ps' :
  FI.wf ft sh -> FI.evolves i ft sh ft' sh' -> FI.chains sh !! i = Some ps -> FI.chains sh' !! i = Some ps' ->
  forall p, (p < Z.to_nat (FT.num_buckets_ ft))%nat ->
    FI.abs ft' p = if decide (p = i) then list_to_map (FI.items ft' ps') else FI.abs ft p.
Proof.
  intros Hw Hev Hi Hi' p Hp. pose proof Hw as (_ & Hl & _). destruct (FI.ev_wf _ _ _ _ _ Hev) as (_ & Hl' & _). case_decide as Hpi.
  - subst p. by rewrite (FI.abs_shape ft' sh' Hl' i ps' Hi').
  - destruct (lookup_lt_is_Some_2 (FI.chains sh) p) as [qs Hqs]; [pose proof (FI.lk_len ft sh Hl); lia|].
    destruct (FI.ev_other _ _ _ _ _ Hev p qs Hpi Hqs) as [Hqs' Eq]. by rewrite (FI.abs_shape ft' sh' Hl' p qs Hqs'), (FI.abs_shape ft sh Hl p qs Hqs), Eq.
Qed.

(** A word is stored in a slot that is empty, or in the slot of its key. *)
Lemma ft_put ft sh i ps q fb j k0 k bs :
  FI.wf ft sh -> FI.chains sh !! i = Some ps -> q ∈ ps -> FT.buckets_ ft !! q = Some fb -> FT.key_arr fb !! j = Some k0 ->
  k <> kInvalid -> (k0 = kInvalid /\ k ∉ (FI.items ft ps).*1 \/ k0 = k) -> Z.of_nat (length bs) = FT.val_size ft ->
  let ft' := FI.set_slot q j k bs ft in
  FI.Inv ft' /\ FI.cfg ft' = FI.cfg ft /\
  forall p, (p < Z.to_nat (FT.num_buckets_ ft))%nat -> FI.abs ft' p = if decide (p = i) then <[k := bs]> (FI.abs ft i) else FI.abs ft p.
Proof.
  intros Hw Hi Hq Hfb Hk Hne Hcase Hlen ft'. pose proof Hw as (_ & Hl & Hct & _).
  enough (FI.evolves i ft sh ft' sh /\ list_to_map (FI.items ft' ps) = <[k := bs]> (FI.abs ft i)) as [Hev Hm].
  { split; [exists sh; apply Hev|]. split; [apply Hev|]. intros p Hp. rewrite (abs_evolves i ft sh ft' sh ps ps Hw Hev Hi Hi p Hp). by case_decide. }
  rewrite (FI.abs_shape ft sh Hl i ps Hi). destruct Hcase as [[-> Hnew]| ->].
  - destruct (FO.put_slot ft sh i ps q fb j k bs) as [Hev Hp]; try done. split; [done|]. apply FO.list_to_map_perm_cons; [|done].
    eapply (FI.ct_keys _ sh); [apply Hev|done].
  - destruct (FI.val_at _ _ _ _ (FI.bkt_at ft sh q fb Hw Hfb) Hk) as (v0 & Hv0 & _).
    destruct (FO.replace_slot ft sh i ps q fb j k v0 bs) as (Hev & R & Hp1 & Hp2); try done. split; [done|].
    pose proof (FI.ct_keys ft sh Hct i ps Hi) as Hnd. pose proof (FI.ct_keys _ sh (proj1 (proj2 (proj2 (FI.ev_wf _ _ _ _ _ Hev)))) i ps Hi) as Hnd'.
    unfold ft'. rewrite (FO.list_to_map_perm_cons _ _ _ _ Hnd' Hp2), (FO.list_to_map_perm_cons _ _ _ _ Hnd Hp1). by rewrite insert_insert_eq.
Qed.

Lemma ibidx_cfg ft ft' h : FI.cfg ft' = FI.cfg ft -> ibidx ft' h = ibidx ft h.
Proof. apply FO.cfg_bidx. Qed.

(** The items of a table after one has been stored at [off]. *)
Lemma abs_put L t ft own ft' own' h k v off :
  holds L t ft own -> FI.cfg ft' = FI.cfg ft ->
  (forall it, own !! off = Some it -> i_hash it = h /\ i_key it = k) ->
  (forall p, (p < Z.to_nat (FT.num_buckets_ ft))%nat ->
     FI.abs ft' p = if decide (p = ibidx ft h) then <[kid h k := le_bytes 8 (vec off (mk_item h k v))]> (FI.abs ft (ibidx ft h)) else FI.abs ft p) ->
  (forall o it, own' !! o = Some it <->
     o = off /\ it = mk_item h k v \/ o <> off /\ own !! o = Some it /\ ~ (i_hash it = h /\ i_key it = k)) ->
  forall i kd bs, (i < Z.to_nat (FT.num_buckets_ ft'))%nat ->
    FI.abs ft' i !! kd = Some bs <->
    exists o it, own' !! o = Some it /\ i = ibidx ft' (i_hash it) /\ kd = kid (i_hash it) (i_key it) /\ bs = le_bytes 8 (vec o it).
Proof.
  intros Hh Hcfg Hfresh Habs Hown i kd bs Hi. rewrite (FO.cfg_nb_eq ft ft' Hcfg) in Hi. rewrite (Habs i Hi).
  assert (forall it, ibidx ft' (i_hash it) = ibidx ft (i_hash it)) as Hb by (intros; by apply ibidx_cfg).
  destruct (decide (i = ibidx ft h /\ kd = kid h k)) as [[-> ->]|Hne].
  - rewrite decide_True, lookup_insert_eq by done. split.
    + intros [= <-]. exists off, (mk_item h k v). rewrite Hown, Hb. split_and!; try done. by left.
    + intros (o & it & Ho & _ & Ek & ->). apply Hown in Ho as [[-> ->]|(_ & _ & Hn)]; [done|]. apply kid_inj in Ek as [E1 E2]. by destruct Hn.
  - assert ((if decide (i = ibidx ft h) then <[kid h k := le_bytes 8 (vec off (mk_item h k v))]> (FI.abs ft (ibidx ft h)) else FI.abs ft i) !! kd
      = FI.abs ft i !! kd) as ->.
    { case_decide as E; [|done]. subst i. rewrite lookup_insert_ne; [done|]. intros <-. by apply Hne. }
    rewrite (h_abs _ _ _ _ Hh i kd bs Hi). split.
    + intros (o & it & Ho & -> & -> & ->). exists o, it. rewrite Hown, Hb. split_and!; try done. right.
      assert (~ (i_hash it = h /\ i_key it = k)) as Hn by (intros [<- <-]; by apply Hne). split_and!; try done. intros ->. by destruct Hn, (Hfresh it Ho).
    + intros (o & it & Ho & Ei & -> & ->). rewrite Hb in Ei. apply Hown in Ho as [[-> ->]|(_ & Ho & _)]; [by destruct Hne|]. by exists o, it.
Qed.

(** The items of a table after one has been removed. *)
Lemma abs_del L t ft own ft' h k v off :
  holds L t ft own -> FI.cfg ft' = FI.cfg ft -> own !! off = Some (mk_item h k v) ->
  (forall p, (p < Z.to_nat (FT.num_buckets_ ft))%nat ->
     FI.abs ft' p = if decide (p = ibidx ft h) then delete (kid h k) (FI.abs ft p) else FI.abs ft p) ->
  forall i kd bs, (i < Z.to_nat (FT.num_buckets_ ft'))%nat ->
    FI.abs ft' i !! kd = Some bs <->
    exists o it, delete off own !! o = Some it /\ i = ibidx ft' (i_hash it) /\ kd = kid (i_hash it) (i_key it) /\ bs = le_bytes 8 (vec o it).
Proof.
  intros Hh Hcfg Hoff Habs i kd bs Hi. rewrite (FO.cfg_nb_eq ft ft' Hcfg) in Hi. rewrite (Habs i Hi).
  assert (forall it, ibidx ft' (i_hash it) = ibidx ft (i_hash it)) as Hb by (intros; by apply ibidx_cfg).
  destruct (decide (i = ibidx ft h /\ kd = kid h k)) as [[-> ->]|Hne].
  - rewrite decide_True, lookup_delete_eq by done. split; [done|]. intros (o & [h' k' v'] & Ho & _ & Ek & _). apply lookup_delete_Some in Ho as [Hne Ho].
    apply kid_inj in Ek as [E1 E2]. cbn in E1, E2. subst h' k'. by destruct (own_unique L t ft own off o h k v v' Hh Hoff Ho).
  - assert ((if decide (i = ibidx ft h) then delete (kid h k) (FI.abs ft i) else FI.abs ft i) !! kd = FI.abs ft i !! kd) as ->.
    { case_decide as E; [|done]. rewrite lookup_delete_ne; [done|]. intros <-. by apply Hne. }
    rewrite (h_abs _ _ _ _ Hh i kd bs Hi). split.
    + intros (o & it & Ho & -> & -> & ->). exists o, it. rewrite Hb, lookup_delete_ne; [by split_and!|]. intros <-. rewrite Hoff in Ho. injection Ho as <-. by apply Hne.
    + intros (o & it & Ho & Ei & -> & ->). rewrite Hb in Ei. apply lookup_delete_Some in Ho as [_ Ho]. by exists o, it.
Qed.

End Ops.
End LTableInv.
