(* ===== verification/LTableOps.v ===== *)
(** * The MICA table with items of any size: the operations implement a finite map

    The steps of the operations on a table that [holds] its items: allocation and release,
    stores into items, filling and emptying slots.  The theorems state what each operation
    does to the finite map that the table [represents]. *)

From S2P Require Import Prelude Util FixedTable FixedTableInv FixedTableOps LTable LTableSim LTableItem LTableInv.
From Stdlib Require Import ZArith Lia Bool.
From stdpp Require Import base numbers list gmap sets.
#[local] Open Scope Z_scope.
Import Memcpy LTable LTableSim LTableItem LTableInv.

Module LTableOps.

Section Ops.
Context {P : Type} `{PoolLaws P}.
Notation table := (LTable.table P).
Implicit Types (t : table) (ft : FT.table) (own : gmap Z item) (L : gset Z).

(** ** The pool *)

Lemma items_kept p m p' m' S own :
  pool_keeps S p m p' m' -> pool_ok false p m -> S ⊆ pool_live p -> dom own ⊆ S ->
  (forall off it, own !! off = Some it -> item_at p m off it) -> forall off it, own !! off = Some it -> item_at p' m' off it.
Proof.
  intros Hk Hok HS Hd Hi off it Ho. assert (off ∈ S) as HoS by (by apply Hd; eapply elem_of_dom_2).
  destruct (Hk off HoS) as [E Hr]. destruct (Hi off it Ho) as [Hw Hit]. split; [done|]. rewrite E.
  destruct (pool_item _ _ _ off Hok (HS _ HoS)) as [_ Hp]. destruct (pool_get_item p m off) as [a n]. destruct Hit as [Hsz Hby], Hp as (Ha & _ & _ & Hn).
  split; [done|]. by apply (item_bytes_same m m' a n).
Qed.

(** The pool changes, and keeps the items of the table. *)
Lemma pool_step L L' t ft own p' m' :
  holds L t ft own -> pool_ok false p' m' -> pool_live p' = L' -> dom own ⊆ L' ->
  pool_keeps (dom own) (pool_ t) (mem_ t) p' m' -> holds L' (with_pool t p' m') ft own.
Proof.
  intros Hh Hok Hl Hd Hk. destruct Hh as [R Hi Hp Hlv Hown Hit Hab]. constructor; try done; [by destruct R|].
  cbn. apply (items_kept (pool_ t) (mem_ t) p' m' (dom own) own Hk Hp); [by rewrite Hlv|done|done].
Qed.

Lemma keeps_sub (S S' : gset Z) (p : P) m p' m' : S' ⊆ S -> pool_keeps S p m p' m' -> pool_keeps S' p m p' m'.
Proof. intros Hs Hk off Ho. by apply Hk, Hs. Qed.

Lemma lt_keeps_trans (S : gset Z) (p1 : P) m1 p2 m2 p3 m3 :
  pool_keeps S p1 m1 p2 m2 -> pool_keeps S p2 m2 p3 m3 -> pool_keeps S p1 m1 p3 m3.
Proof.
  intros H1 H2 off Ho. destruct (H1 off Ho) as [E1 R1]. destruct (H2 off Ho) as [E2 R2]. rewrite E1 in R2. split; [congruence|].
  destruct (pool_get_item p1 m1 off). congruence.
Qed.

Lemma allocate_step L t ft own n o p' m' :
  holds L t ft own -> u 32 n -> pool_allocate n (pool_ t) (mem_ t) = (o, p', m') ->
  match o with
  | None => holds L (with_pool t p' m') ft own
  | Some off => (off ∉ L) /\ n <= (pool_get_item p' m' off).2 /\ holds ({[off]} ∪ L) (with_pool t p' m') ft own
  end.
Proof.
  intros Hh Hn E. destruct (pool_allocated _ _ _ _ _ _ _ (h_pool _ _ _ _ Hh) Hn E) as (Hok & Hk & Ho). rewrite (h_live _ _ _ _ Hh) in *.
  pose proof (h_own _ _ _ _ Hh) as Hd. pose proof (keeps_sub _ _ _ _ _ _ Hd Hk) as Hk'. destruct o as [off|].
  - destruct Ho as (Hnew & Hl & Hsz). split; [done|]. split; [done|]. apply (pool_step L); [done|done|done|set_solver|done].
  - by apply (pool_step L).
Qed.

Lemma release_step L t ft own off p' m' :
  holds L t ft own -> off ∈ L -> off ∉ dom own -> pool_release off (pool_ t) (mem_ t) = (p', m') ->
  holds (L ∖ {[off]}) (with_pool t p' m') ft own.
Proof.
  intros Hh Hin Hno E. rewrite <- (h_live _ _ _ _ Hh) in Hin. destruct (pool_released _ _ _ _ _ _ (h_pool _ _ _ _ Hh) Hin E) as (Hok & Hl & Hk).
  rewrite (h_live _ _ _ _ Hh) in *. pose proof (h_own _ _ _ _ Hh) as Hd. assert (dom own ⊆ L ∖ {[off]}) as Hd' by set_solver.
  apply (pool_step L); [done|done|done|done|by eapply keeps_sub].
Qed.

(** The release of [set], which takes the lock of the pool. *)
Lemma locked_release_step L t ft own off p' m' :
  holds L t ft own -> off ∈ L -> off ∉ dom own -> pool_release off (pool_lock (pool_ t)) (mem_ t) = (p', m') ->
  holds (L ∖ {[off]}) (with_pool t (pool_unlock p') m') ft own.
Proof.
  intros Hh Hin Hno E. destruct (pool_locked _ _ (h_pool _ _ _ _ Hh)) as (Hok1 & Hl1 & Hk1). rewrite (h_live _ _ _ _ Hh) in Hl1, Hk1.
  rewrite <- Hl1 in Hin. destruct (pool_released _ _ _ _ _ _ Hok1 Hin E) as (Hok2 & Hl2 & Hk2). destruct (pool_unlocked _ _ Hok2) as (Hok3 & Hl3 & Hk3).
  rewrite Hl1 in *. rewrite Hl2 in *. pose proof (h_own _ _ _ _ Hh) as Hd. assert (dom own ⊆ L ∖ {[off]}) as Hd' by set_solver.
  apply (pool_step L); [done|done|done|done|]. eapply lt_keeps_trans; [exact (keeps_sub _ _ _ _ _ _ Hd Hk1)|].
  eapply lt_keeps_trans; [exact (keeps_sub _ _ _ _ _ _ Hd' Hk2)|exact (keeps_sub _ _ _ _ _ _ Hd' Hk3)].
Qed.

(** A store inside an allocated item. *)
Lemma store_item L t ft own off a n m' :
  holds L t ft own -> off ∈ L -> pool_get_item (pool_ t) (mem_ t) off = (a, n) -> only_in a n (mem_ t) m' ->
  pool_ok false (pool_ t) m' /\ pool_get_item (pool_ t) m' off = (a, n) /\
  forall off' it, off' <> off -> own !! off' = Some it -> item_at (pool_ t) m' off' it.
Proof.
  intros Hh Hin Ea Ho. rewrite <- (h_live _ _ _ _ Hh) in Hin.
  destruct (pool_stored _ _ _ off m' (h_pool _ _ _ _ Hh) Hin) as [Hok Hg]; [by rewrite Ea|]. split; [done|]. split; [by rewrite Hg|].
  intros off' it Hne Hit. destruct (own_live L t ft own off' it Hh Hit) as (Hl & _). destruct (h_item _ _ _ _ Hh off' it Hit) as [Hw Hi]. split; [done|].
  rewrite (Hg off' Hl). pose proof (pool_apart _ _ _ off' off (h_pool _ _ _ _ Hh) Hl Hin Hne) as Hap. destruct (pool_item _ _ _ off' (h_pool _ _ _ _ Hh) Hl) as [_ Hp].
  destruct (pool_get_item (pool_ t) (mem_ t) off') as [a' n']. rewrite Ea in Hap. destruct Hi as [Hsz Hby]. split; [done|].
  apply (item_bytes_only (mem_ t) m' a' n' a n); try done; apply Hp.
Qed.

(** A store into an item that the table does not have yet. *)
Lemma store_fresh L t ft own off a n m' :
  holds L t ft own -> off ∈ L -> own !! off = None -> pool_get_item (pool_ t) (mem_ t) off = (a, n) -> only_in a n (mem_ t) m' ->
  holds L (with_pool t (pool_ t) m') ft own.
Proof.
  intros Hh Hin Hn Ea Ho. destruct (store_item L t ft own off a n m' Hh Hin Ea Ho) as (Hok & _ & Hoth). destruct Hh as [R Hi Hp Hlv Hown Hit Hab].
  constructor; try done; [by destruct R|]. intros off' it Hit'. apply Hoth; [congruence|done].
Qed.

(** A store that replaces the value of an item. *)
Lemma store_value L t ft own off a n m' h k v0 v :
  holds L t ft own -> own !! off = Some (mk_item h k v0) -> pool_get_item (pool_ t) (mem_ t) off = (a, n) -> only_in a n (mem_ t) m' ->
  item_wf (mk_item h k v) -> item_size (mk_item h k v) <= n -> item_bytes m' a (mk_item h k v) ->
  holds L (with_pool t (pool_ t) m') ft (<[off := mk_item h k v]> own).
Proof.
  intros Hh Ho Ea Honly Hw Hsz Hby. assert (off ∈ L) as Hin by (eapply (h_own _ _ _ _ Hh), elem_of_dom_2, Ho).
  destruct (store_item L t ft own off a n m' Hh Hin Ea Honly) as (Hok & Eg & Hoth). destruct Hh as [R Hi Hp Hlv Hown Hit Hab].
  constructor; try done; [by destruct R|rewrite dom_insert_lookup_L by (by eexists); done|..].
  - intros off' it. rewrite lookup_insert. case_decide as E; [|by apply Hoth]. intros [= <-]. subst off'. split; [done|]. cbn. by rewrite Eg.
  - intros i kd bs Hlt. rewrite (Hab i kd bs Hlt). split; intros (o & it & Hoit & Ei & Ek & Eb).
    + destruct (decide (o = off)) as [->|Hne].
      * rewrite Ho in Hoit. injection Hoit as <-. exists off, (mk_item h k v). rewrite lookup_insert_eq. by split_and!.
      * exists o, it. by rewrite lookup_insert_ne.
    + rewrite lookup_insert in Hoit. case_decide as E.
      * injection Hoit as <-. subst o. by exists off, (mk_item h k v0).
      * by exists o, it.
Qed.

(** ** The index *)

(** The index is rearranged, with the same contents. *)
Lemma index_step L t ft own t' ft' :
  holds L t ft own -> tab_rel t' ft' -> frame t' = frame t -> FI.Inv ft' -> FI.cfg ft' = FI.cfg ft ->
  (forall i, (i < Z.to_nat (FT.num_buckets_ ft))%nat -> FI.abs ft' i = FI.abs ft i) -> holds L t' ft' own.
Proof.
  intros [R Hi Hp Hlv Hown Hit Hab] R' F Hi' Hcfg Ha. unfold frame in F. injection F as _ _ _ Ep Em.
  constructor; try done; rewrite ?Ep, ?Em; try done. intros i kd bs Hlt. rewrite (FO.cfg_nb_eq ft ft' Hcfg) in Hlt. rewrite (Ha i Hlt), (Hab i kd bs Hlt).
  split; intros (o & it & Ho & Ei & Hr); exists o, it; [rewrite (ibidx_cfg ft ft')|rewrite (ibidx_cfg ft ft') in Ei]; done.
Qed.

Lemma empty_step L t ft own sh ps h key :
  holds L t ft own -> FI.wf ft sh -> FI.chains sh !! ibidx ft h = Some ps -> kid h key ∉ (FI.items ft ps).*1 ->
  (exists q j t' ft' sh' ps' fb, get_empty (ibidx ft h) t = Ok (Some (q, j), t') /\ holds L t' ft' own /\ frame t' = frame t /\
     ibidx ft' h = ibidx ft h /\ FI.wf ft' sh' /\ FI.chains sh' !! ibidx ft h = Some ps' /\ q ∈ ps' /\
     FT.buckets_ ft' !! q = Some fb /\ FT.key_arr fb !! j = Some kInvalid /\ kid h key ∉ (FI.items ft' ps').*1) \/
  (exists t', get_empty (ibidx ft h) t = Ok (None, t') /\ holds L t' ft own /\ frame t' = frame t /\ fl_head t = 0).
Proof.
  intros Hh Hw Hi Hnew. pose proof Hw as (_ & Hl & _).
  destruct (FO.get_empty_ok ft sh _ ps Hw Hi) as [(q & j & ft' & sh' & ps' & E & Hev & Hi' & Hq & Hit & fb & Hfb & Hk)|[E Hfree]].
  - left. destruct (get_empty_sim _ t ft _ ft' (h_rel _ _ _ _ Hh) E) as (t' & E' & R' & F'). exists q, j, t', ft', sh', ps', fb.
    pose proof (FI.ev_wf _ _ _ _ _ Hev) as Hw'. pose proof (FI.ev_cfg _ _ _ _ _ Hev) as Hcfg. split; [done|]. split.
    + apply (index_step L t ft own); try done; [by exists sh'|]. intros i Hlt. rewrite (abs_evolves _ ft sh ft' sh' ps ps' Hw Hev Hi Hi' i Hlt).
      case_decide as Ei; [|done]. subst i. by rewrite (FI.abs_shape ft sh Hl _ ps Hi), Hit.
    + rewrite (ibidx_cfg ft ft'), Hit by done. done.
  - right. destruct (get_empty_sim _ t ft _ ft (h_rel _ _ _ _ Hh) E) as (t' & E' & R' & F').
    exists t'. split; [done|]. split; [by apply (index_step L t ft own); try apply Hh|]. split; [done|].
    rewrite (tr_head _ _ (h_rel _ _ _ _ Hh)). by eapply FO.fl_head_nil.
Qed.

(** A slot is filled with the word of an item. *)
Lemma word_step L t ft own own' sh ps q fb j k0 h k v off :
  holds L t ft own -> FI.wf ft sh -> FI.chains sh !! ibidx ft h = Some ps -> q ∈ ps -> FT.buckets_ ft !! q = Some fb -> FT.key_arr fb !! j = Some k0 ->
  (k0 = kInvalid /\ kid h k ∉ (FI.items ft ps).*1 \/ k0 = kid h k) ->
  off ∈ L -> own !! off = None -> item_at (pool_ t) (mem_ t) off (mk_item h k v) ->
  (forall o it, own' !! o = Some it <->
     o = off /\ it = mk_item h k v \/ o <> off /\ own !! o = Some it /\ ~ (i_hash it = h /\ i_key it = k)) ->
  exists ft', holds L (upd q (with_item j (vec off (mk_item h k v))) t) ft' own'.
Proof.
  intros Hh Hw Hi Hq Hfb Hk Hcase Hin Hno Hat Hown'. set (it := mk_item h k v) in *. set (bs := le_bytes 8 (vec off it)).
  pose proof (h_rel _ _ _ _ Hh) as R. assert (u 48 off) as Hu by (apply (pool_item _ _ _ off (h_pool _ _ _ _ Hh)); by rewrite (h_live _ _ _ _ Hh)).
  destruct (item_vec_parts (calc_tag h) off (calc_tag_range h) Hu) as (_ & _ & Hu64 & Hv0).
  destruct (ft_put ft sh _ ps q fb j k0 (kid h k) bs Hw Hi Hq Hfb Hk (kid_valid h k) Hcase) as (HI & Hcfg & Habs).
  { unfold bs. by rewrite length_le_bytes, (tr_val _ _ R). }
  set (ft' := FI.set_slot q j (kid h k) bs ft) in *. exists ft'. constructor.
  - unfold ft', FI.set_slot. rewrite FI.upd_upd. apply upd_sim; [done|]. intros b fb'. apply fill_sim; [done|done|apply kid_valid].
  - done.
  - apply Hh.
  - apply Hh.
  - intros o Ho. apply elem_of_dom in Ho as [it' Ho]. apply Hown' in Ho as [[-> _]|(_ & Ho & _)]; [done|]. eapply (h_own _ _ _ _ Hh), elem_of_dom_2, Ho.
  - intros o it' Ho. apply Hown' in Ho as [[-> ->]|(_ & Ho & _)]; [done|]. by apply Hh.
  - apply (abs_put L t ft own ft' own' h k v off Hh Hcfg); [|done|done]. intros it' Ho. congruence.
Qed.

(** The slot of an item is emptied. *)
Lemma unword_step L t ft own sh ps q fb j h k v off :
  holds L t ft own -> FI.wf ft sh -> FI.chains sh !! ibidx ft h = Some ps -> q ∈ ps -> FT.buckets_ ft !! q = Some fb -> FT.key_arr fb !! j = Some (kid h k) ->
  own !! off = Some (mk_item h k v) ->
  exists ft' fb', holds L (upd q (with_item j 0) t) ft' (delete off own) /\ FI.wf ft' sh /\ FI.cfg ft' = FI.cfg ft /\
    FT.buckets_ ft' !! q = Some fb' /\ FT.key_arr fb' !! j = Some kInvalid.
Proof.
  intros Hh Hw Hi Hq Hfb Hk Ho. pose proof (h_rel _ _ _ _ Hh) as R. pose proof Hw as (_ & Hl & Hct & _).
  destruct (FI.val_at _ _ _ _ (FI.bkt_at ft sh q fb Hw Hfb) Hk) as (bs & Hbs & Hlen).
  destruct (FO.clear_slot ft sh _ ps q fb j (kid h k) bs Hw Hi Hq Hfb Hk Hbs (kid_valid h k) Hlen) as [Hev Hperm].
  rewrite <- (FI.upd_key_slot q j kInvalid bs ft fb Hfb Hbs) in Hev, Hperm. set (ft' := FT.upd q (FT.with_key j kInvalid) ft) in *.
  pose proof (FI.ev_wf _ _ _ _ _ Hev) as Hw'. exists ft', (FT.with_key j kInvalid fb). split; [|split; [done|]; split; [apply Hev|]; split; [by apply FI.upd_lookup|]].
  2:{ cbn. apply list_lookup_insert_eq. by eapply lookup_lt_Some. }
  assert (forall p, (p < Z.to_nat (FT.num_buckets_ ft))%nat -> FI.abs ft' p = if decide (p = ibidx ft h) then delete (kid h k) (FI.abs ft p) else FI.abs ft p) as Habs.
  { intros p Hp. rewrite (abs_evolves _ ft sh ft' sh ps ps Hw Hev Hi Hi p Hp). case_decide as E; [|done]. subst p. rewrite (FI.abs_shape ft sh Hl _ ps Hi).
    pose proof (FI.ct_keys ft sh Hct _ ps Hi) as Hnd. rewrite (FO.list_to_map_perm_cons _ _ _ _ Hnd Hperm). rewrite Hperm in Hnd. apply NoDup_cons in Hnd as [Hnk _].
    by rewrite delete_insert_id by (by apply not_elem_of_list_to_map_1). }
  constructor; try apply Hh.
  - apply upd_sim; [done|]. apply clear_sim.
  - by exists sh.
  - etrans; [apply subseteq_dom, delete_subseteq|apply Hh].
  - intros o it Hoit. apply lookup_delete_Some in Hoit as [_ Hoit]. by apply Hh.
  - by apply (abs_del L t ft own ft' h k v off Hh (FI.ev_cfg _ _ _ _ _ Hev)).
Qed.

Lemma fill_step L t ft own sh h ps q fb j :
  holds L t ft own -> FI.wf ft sh -> FI.chains sh !! ibidx ft h = Some ps -> q ∈ ps -> FT.buckets_ ft !! q = Some fb -> FT.key_arr fb !! j = Some kInvalid ->
  exists t' ft', fill_hole q j t = Ok t' /\ holds L t' ft' own /\ frame t' = frame t.
Proof.
  intros Hh Hw Hi Hq Hfb Hk. pose proof Hw as (_ & Hl & _). pose proof (h_rel _ _ _ _ Hh) as R. pose proof (FI.chain_length ft sh Hl _ ps Hi) as Hlen.
  destruct (FO.fill_hole_ok (S (length (FT.buckets_ ft))) ft sh _ ps q fb j Hw Hi Hq Hfb Hk) as (ft' & sh' & ps' & E & Hev & Hi' & Hperm); [lia|].
  destruct (fill_hole_sim _ q j t ft ft' R E) as (t' & E' & R' & F'). exists t', ft'. unfold fill_hole. rewrite (length_sim t ft R). split; [done|]. split; [|done].
  pose proof (FI.ev_wf _ _ _ _ _ Hev) as Hw'. apply (index_step L t ft own); try done; [by exists sh'|apply Hev|]. intros i Hlt.
  rewrite (abs_evolves _ ft sh ft' sh' ps ps' Hw Hev Hi Hi' i Hlt). case_decide as Ei; [|done]. subst i. rewrite (FI.abs_shape ft sh Hl _ ps Hi).
  apply list_to_map_proper; [|done]. destruct Hw' as (_ & _ & Hct' & _). by eapply FI.ct_keys.
Qed.

(** ** Finite maps *)

Definition models (own : gmap Z item) (M : gmap (Z * list byte) (list byte)) : Prop :=
  forall h k v, M !! (h, k) = Some v <-> exists off, own !! off = Some (mk_item h k v).

Lemma fresh_in (off : Z) (X : gset Z) : off ∈ {[off]} ∪ X.
Proof. set_solver. Qed.

Lemma dom_replace own off old it :
  old <> off -> old ∈ dom own -> dom (<[off := it]> (delete old own)) = ({[off]} ∪ dom own) ∖ {[old]} /\ old ∈ {[off]} ∪ dom own /\
  old ∉ ({[off]} ∪ dom own) ∖ {[old]}.
Proof. intros Hne Hin. rewrite dom_insert_L, dom_delete_L. set_solver. Qed.

(** The item at [off] replaces that of the same key, at [old], if there is one. *)
Lemma own_replace own h k v off old :
  (old = off \/ own !! off = None) -> (forall o it, own !! o = Some it -> i_hash it = h /\ i_key it = k -> o = old) ->
  (forall it, own !! old = Some it -> i_hash it = h /\ i_key it = k) ->
  forall o it, <[off := mk_item h k v]> (delete old own) !! o = Some it <->
    o = off /\ it = mk_item h k v \/ o <> off /\ own !! o = Some it /\ ~ (i_hash it = h /\ i_key it = k).
Proof.
  intros Hoff Huniq Hold o it. rewrite lookup_insert_Some, lookup_delete_Some. split.
  - intros [[<- <-]|(Hne & Hne' & Ho)]; [by left|]. right. split; [done|]. split; [done|]. intros Hk. by apply Hne', eq_sym, (Huniq o it).
  - intros [[-> ->]|(Hne & Ho & Hk)]; [by left|]. right. split; [done|]. split; [|done]. intros <-. by apply Hk, Hold.
Qed.

Lemma models_put own own' M h k v off :
  models own M ->
  (forall o it, own' !! o = Some it <->
     o = off /\ it = mk_item h k v \/ o <> off /\ own !! o = Some it /\ ~ (i_hash it = h /\ i_key it = k)) ->
  own !! off = None \/ (exists v0, own !! off = Some (mk_item h k v0)) -> models own' (<[(h, k) := v]> M).
Proof.
  intros HM Hown Hoff h' k' v'. destruct (decide ((h, k) = (h', k'))) as [[= <- <-]|Hne].
  - rewrite lookup_insert_eq. split; [intros [= <-]; exists off; apply Hown; by left|].
    intros (o & Ho). apply Hown in Ho as [[_ [= <-]]|(_ & _ & Hk)]; [done|by destruct Hk].
  - rewrite lookup_insert_ne by done. rewrite (HM h' k' v'). split; intros (o & Ho); exists o.
    + apply Hown. right. assert (o <> off) by (intros ->; destruct Hoff as [Hn|[v0 Hv0]]; congruence). split; [done|]. split; [done|]. cbn. intros [-> ->]. done.
    + apply Hown in Ho as [[-> [= -> -> ->]]|(_ & Ho & _)]; done.
Qed.

Lemma models_del L t ft own M h k v off :
  holds L t ft own -> models own M -> own !! off = Some (mk_item h k v) -> models (delete off own) (delete (h, k) M).
Proof.
  intros Hh HM Hoff h' k' v'. destruct (decide ((h, k) = (h', k'))) as [[= <- <-]|Hne].
  - rewrite lookup_delete_eq. split; [done|]. intros (o & Ho). apply lookup_delete_Some in Ho as [Hne Ho]. by destruct (own_unique L t ft own off o h k v v' Hh Hoff Ho).
  - rewrite lookup_delete_ne by done. rewrite (HM h' k' v'). split; intros (o & Ho); exists o.
    + rewrite lookup_delete_ne; [done|]. intros <-. congruence.
    + by apply lookup_delete_Some in Ho as [_ ?].
Qed.

(** ** Locks *)

Definition same_locks t t' : Prop := concurrent_access_mode_ t' = concurrent_access_mode_ t /\ version <$> buckets_ t' = version <$> buckets_ t.

Lemma frame_locks t t' : frame t' = frame t -> same_locks t t'.
Proof. intros E. destruct (frame_parts _ _ E) as (E1 & E2 & _). done. Qed.

Lemma locks_trans t1 t2 t3 : same_locks t1 t2 -> same_locks t2 t3 -> same_locks t1 t3.
Proof. intros [E1 E2] [F1 F2]. split; congruence. Qed.

Lemma item_locks q j v t : same_locks t (upd q (with_item j v) t).
Proof. by apply frame_locks, upd_frame. Qed.

(** The caller holds the lock of bucket [p]. *)
Definition held (p : nat) (t1 : table) : Prop :=
  forall t2, same_locks t1 t2 -> exists t3, unlock_bucket p t2 = Ok t3 /\ core t3 = core t2 /\ unlocked t3.

Lemma held_same p t t' : held p t -> same_locks t t' -> held p t'.
Proof. intros Hl Hs t2 H2. apply Hl. by eapply locks_trans. Qed.

Lemma finish p t L ft own :
  held p t -> holds L t ft own -> exists t', unlock_bucket p t = Ok t' /\ unlocked t' /\ holds L t' ft own.
Proof. intros Hl Hh. destruct (Hl t) as (t' & E & Ec & Hu); [done|]. exists t'. split; [done|]. split; [done|]. by eapply holds_core. Qed.

Lemma represents_intro t ft own M : unlocked t -> holds (dom own) t ft own -> models own M -> represents t M.
Proof. intros Hu Hh HM. split; [done|]. by exists ft, own. Qed.

(** The start of an operation on the bucket of a hash. *)
Lemma begin_op t M h :
  represents t M ->
  exists ft own sh ps t1, lock_bucket (Z.to_nat (calc_bucket_index t h)) t = Ok t1 /\ Z.to_nat (calc_bucket_index t h) = ibidx ft h /\
    core t1 = core t /\ held (ibidx ft h) t1 /\ holds (dom own) t1 ft own /\ models own M /\ FI.wf ft sh /\ FI.chains sh !! ibidx ft h = Some ps.
Proof.
  intros (Hu & ft & own & Hh & HM). destruct (holds_bucket _ t ft own h Hh) as (Ei & _ & sh & ps & b & Hw & Hps & Hb). rewrite Ei.
  destruct (locking _ b t Hu Hb) as (t1 & E & Ec & Hun). exists ft, own, sh, ps, t1. split; [done|]. split; [done|]. split; [done|].
  split; [intros t2 [H1 H2]; by apply Hun|]. split; [by eapply holds_core|]. done.
Qed.

(** ** Operations *)

Lemma lens_ok h key v :
  item_wf (mk_item h key v) ->
  wrap 32 (lenZ key) = lenZ key /\ wrap 32 (lenZ v) = lenZ v /\ roundup 8 (lenZ key) = lenZ key /\ u 32 (item_size (mk_item h key v)) /\
  wrap 32 (sizeof_Item + roundup 8 (lenZ key) + roundup 8 (lenZ v)) = item_size (mk_item h key v).
Proof.
  intros (_ & [Hk Hk8] & [Hv Hv8]). cbn [i_key i_value] in *. change kMaxKeyLength with 255 in Hk. change kMaxValueLength with 1048575 in Hv.
  assert (0 <= lenZ key /\ 0 <= lenZ v) as [? ?] by (unfold lenZ; lia). unfold item_size. cbn [i_key i_value]. change sizeof_Item with 16.
  rewrite !roundup8, !wrap_id by (unfold u; lia). split_and!; try done; unfold u; lia.
Qed.

(** A new item is allocated and written. *)
Lemma new_item L t ft own h key v kp vp off p' m' :
  holds L t ft own -> item_wf (mk_item h key v) -> ptr_has kp key -> ptr_has vp v ->
  pool_allocate (item_size (mk_item h key v)) (pool_ t) (mem_ t) = (Some off, p', m') ->
  exists a n m2, pool_get_item p' m' off = (a, n) /\ set_item a h kp (lenZ key) vp (lenZ v) m' = Ok m2 /\ (off ∉ L) /\
    holds ({[off]} ∪ L) (with_pool t p' m2) ft own /\ item_at p' m2 off (mk_item h key v).
Proof.
  intros Hh Hwf Hkp Hvp Ea. destruct (lens_ok h key v Hwf) as (_ & _ & _ & Hu32 & _).
  destruct (allocate_step _ t ft own _ _ p' m' Hh Hu32 Ea) as (Hnew & Hsz & Hh1). set (t1 := with_pool t p' m') in *.
  destruct (pool_get_item p' m' off) as [a n] eqn:Eg. cbn [snd] in Hsz.
  pose proof (fresh_in off L) as Hin. pose proof Hin as Hlive. rewrite <- (h_live _ _ _ _ Hh1) in Hlive.
  destruct (pool_item _ _ _ off (h_pool _ _ _ _ Hh1) Hlive) as [_ Hp]. change (pool_ t1) with p' in Hp. change (mem_ t1) with m' in Hp. rewrite Eg in Hp.
  destruct Hp as (Ha & Ha8 & _ & Hm). destruct (lt_set_item_ok a n m' h key v kp vp Hwf Ha Ha8 Hsz Hm Hkp Hvp) as (m2 & E & Honly & Hby).
  exists a, n, m2. split; [done|]. split; [done|]. split; [done|].
  assert (own !! off = None) as Hno by (apply not_elem_of_dom; intros Hd; by apply Hnew, (h_own _ _ _ _ Hh)).
  split; [exact (store_fresh _ t1 ft own off a n m2 Hh1 Hin Hno Eg Honly)|]. destruct (store_item _ t1 ft own off a n m2 Hh1 Hin Eg Honly) as (_ & Eg2 & _).
  split; [done|]. change (pool_ t1) with p' in Eg2. by rewrite Eg2.
Qed.

Lemma set_new_ok p t ft own sh ps q fb j k0 h key v kp vp (overwriting : bool) old M :
  held p t -> holds (dom own) t ft own -> models own M ->
  FI.wf ft sh -> FI.chains sh !! ibidx ft h = Some ps -> q ∈ ps -> FT.buckets_ ft !! q = Some fb -> FT.key_arr fb !! j = Some k0 ->
  (k0 = kInvalid /\ kid h key ∉ (FI.items ft ps).*1 \/ k0 = kid h key) ->
  item_wf (mk_item h key v) -> ptr_has kp key -> ptr_has vp v ->
  (if overwriting then exists v0, own !! old = Some (mk_item h key v0) else forall o v0, own !! o <> Some (mk_item h key v0)) ->
  exists r t', set_new p q j overwriting old (item_size (mk_item h key v)) h (calc_tag h) kp (lenZ key) vp (lenZ v) t = Ok (r, t') /\
    (r = kSuccess /\ represents t' (<[(h, key) := v]> M) \/
     r = kInsufficientSpacePool /\ (pool_allocate (item_size (mk_item h key v)) (pool_ t) (mem_ t)).1.1 = None /\ represents t' M).
Proof.
  intros Hl Hh HM Hw Hi Hq Hfb Hk Hcase Hwf Hkp Hvp Hold. destruct (lens_ok h key v Hwf) as (Ek & Ev & _ & Hu32 & _). unfold set_new. rewrite Ek, Ev.
  set (it := mk_item h key v) in *. destruct (pool_allocate _ (pool_ t) (mem_ t)) as [[[off|] p'] m'] eqn:Ea.
  2:{ pose proof (allocate_step _ t ft own _ _ p' m' Hh Hu32 Ea) as Hst. destruct (finish p (with_pool t p' m') _ ft own Hl Hst) as (t' & -> & Hu' & Hh').
      rewrite bind_Ok. exists kInsufficientSpacePool, t'. split; [done|]. right. split; [done|]. split; [done|]. by eapply represents_intro. }
  destruct (new_item _ t ft own h key v kp vp off p' m' Hh Hwf Hkp Hvp Ea) as (a & n & m2 & Eg & Es & Hnew & Hh2 & Hat).
  cbn [pool_ mem_ with_pool]. rewrite Eg, Es, bind_Ok. cbn [pool_ mem_ with_pool].
  change (upd q _ _) with (upd q (with_item j (vec off it)) (with_pool t p' m2)). set (t2 := with_pool t p' m2) in *.
  set (old' := if overwriting then old else off). assert (own !! off = None) as Hno by (by apply not_elem_of_dom).
  assert (forall o it', own !! o = Some it' -> i_hash it' = h /\ i_key it' = key -> o = old') as Huniq.
  { intros o [h' k' v'] Ho [E1 E2]. cbn in E1, E2. subst h' k'. unfold old'. destruct overwriting; [|by destruct (Hold o v')].
    destruct Hold as [v0 Hv0]. by destruct (own_unique _ t ft own o old h key v' v0 Hh Ho Hv0). }
  assert (forall it', own !! old' = Some it' -> i_hash it' = h /\ i_key it' = key) as Hsame.
  { intros it' Ho. unfold old' in Ho. destruct overwriting; [|congruence]. destruct Hold as [v0 Hv0]. rewrite Hv0 in Ho. by injection Ho as <-. }
  pose proof (own_replace own h key v off old' (or_intror Hno) Huniq Hsame) as Hown.
  destruct (word_step _ t2 ft own _ sh ps q fb j k0 h key v off Hh2 Hw Hi Hq Hfb Hk Hcase (fresh_in off _) Hno Hat Hown) as (ft' & Hh3).
  pose proof (models_put own _ M h key v off HM Hown (or_introl Hno)) as HM'. set (own' := <[off := _]> _) in *.
  destruct (finish p (upd q (with_item j (vec off it)) t2) ({[off]} ∪ dom own) ft' own') as (t3 & -> & Hu3 & Hh4); [eapply held_same; [exact Hl|by apply (item_locks q j (vec off it) t2)]|done|].
  rewrite bind_Ok. unfold old' in *. destruct overwriting.
  - destruct Hold as [v0 Hv0]. assert (old <> off) as Hne by congruence. assert (old ∈ dom own) as Hold by (by eapply elem_of_dom_2).
    destruct (pool_release old (pool_lock (pool_ t3)) (mem_ t3)) as [p4 m4] eqn:Er.
    destruct (dom_replace own off old it Hne Hold) as (Ed & Hin & Hout). change (dom own' = ({[off]} ∪ dom own) ∖ {[old]}) in Ed. rewrite <- Ed in Hout.
    pose proof (locked_release_step _ t3 ft' own' old p4 m4 Hh4 Hin Hout Er) as Hh5. rewrite <- Ed in Hh5.
    eexists _, _. split; [reflexivity|]. left. split; [done|]. by apply (represents_intro _ ft' own').
  - eexists _, _. split; [reflexivity|]. left. split; [done|]. apply (represents_intro _ ft' own'); [done| |done].
    assert (dom own' = {[off]} ∪ dom own) as -> by (unfold own'; rewrite insert_delete_eq, dom_insert_L; done). done.
Qed.

(** The slot of a key is found, or the key is not in the map. *)
Lemma find_step L t ft own sh ps M h key kp :
  holds L t ft own -> models own M -> FI.wf ft sh -> FI.chains sh !! ibidx ft h = Some ps -> ptr_has kp key ->
  match M !! (h, key) with
  | Some v => exists q j fb off, find_item_index t (ibidx ft h) h (calc_tag h) kp (lenZ key) = Ok (Some (q, j)) /\
      slot_vec t q j = Ok (vec off (mk_item h key v)) /\ own !! off = Some (mk_item h key v) /\
      get_item_offset (vec off (mk_item h key v)) = off /\
      q ∈ ps /\ FT.buckets_ ft !! q = Some fb /\ FT.key_arr fb !! j = Some (kid h key)
  | None => find_item_index t (ibidx ft h) h (calc_tag h) kp (lenZ key) = Ok None /\
      (forall off v, own !! off <> Some (mk_item h key v)) /\ kid h key ∉ (FI.items ft ps).*1
  end.
Proof.
  intros Hh HM Hw Hi Hkp. destruct (lookup_ok L t ft own sh ps h key kp Hh Hw Hi Hkp) as [(q & j & fb & off & v & E & Es & Ho & Hq & Hfb & Hk)|(E & Hno & Hnew)].
  - rewrite (proj2 (HM h key v)) by (by exists off). exists q, j, fb, off. destruct (own_live L t ft own off _ Hh Ho) as (_ & _ & _ & Eo & _). done.
  - destruct (M !! (h, key)) as [v|] eqn:Em; [|done]. apply HM in Em as [off Ho]. by destruct (Hno off v).
Qed.

(** What [set] does to the map. *)
Definition set_spec (M : gmap (Z * list byte) (list byte)) (h : Z) (key v : list byte) (overwrite : bool) (t t' : table) (r : Result) : Prop :=
  match r with
  | kSuccess => (overwrite = true \/ M !! (h, key) = None) /\ represents t' (<[(h, key) := v]> M)
  | kExists => overwrite = false /\ is_Some (M !! (h, key)) /\ represents t' M
  | kInsufficientSpaceIndex => M !! (h, key) = None /\ fl_head t = 0 /\ represents t' M
  | kInsufficientSpacePool => (pool_allocate (item_size (mk_item h key v)) (pool_ t) (mem_ t)).1.1 = None /\ represents t' M
  | _ => False
  end.

Lemma set_spec_new M h key v overwrite t t' r :
  (overwrite = true \/ M !! (h, key) = None) ->
  (r = kSuccess /\ represents t' (<[(h, key) := v]> M) \/
   r = kInsufficientSpacePool /\ (pool_allocate (item_size (mk_item h key v)) (pool_ t) (mem_ t)).1.1 = None /\ represents t' M) ->
  set_spec M h key v overwrite t t' r.
Proof. intros Hc [[-> Hr]|(-> & Hr)]; done. Qed.

(** The slot of an absent key. *)
Lemma set_absent t t1 ft own sh ps M h key v kp vp :
  core t1 = core t -> held (ibidx ft h) t1 -> holds (dom own) t1 ft own -> models own M -> FI.wf ft sh -> FI.chains sh !! ibidx ft h = Some ps ->
  item_wf (mk_item h key v) -> ptr_has kp key -> ptr_has vp v -> M !! (h, key) = None ->
  exists loc t2, get_empty (ibidx ft h) t1 = Ok (loc, t2) /\
  match loc with
  | None => exists t', unlock_bucket (ibidx ft h) t2 = Ok t' /\ fl_head t = 0 /\ represents t' M
  | Some (q, j) => exists r t', set_new (ibidx ft h) q j false 0 (item_size (mk_item h key v)) h (calc_tag h) kp (lenZ key) vp (lenZ v) t2 = Ok (r, t') /\
      forall overwrite, set_spec M h key v overwrite t t' r
  end.
Proof.
  intros Ec Hl Hh HM Hw Hi Hwf Hkp Hvp Em. pose proof (find_step _ t1 ft own sh ps M h key kp Hh HM Hw Hi Hkp) as Hf. rewrite Em in Hf. destruct Hf as (_ & Hno & Hnew).
  destruct (empty_step _ t1 ft own sh ps h key Hh Hw Hi Hnew) as [(q & j & t2 & ft2 & sh2 & ps2 & fb & E & Hh2 & F & Ei & Hw2 & Hi2 & Hq & Hfb & Hk & Hnew2)|(t2 & E & Hh2 & F & Efl)].
  - exists (Some (q, j)), t2. split; [done|]. pose proof (held_same _ _ _ Hl (frame_locks _ _ F)) as Hl2. rewrite <- Ei in Hi2.
    destruct (set_new_ok (ibidx ft h) t2 ft2 own sh2 ps2 q fb j kInvalid h key v kp vp false 0 M) as (r & t' & Es & Hr); try done; [by left|].
    exists r, t'. split; [done|]. intros overwrite. apply set_spec_new; [by right|].
    assert (pool_ t2 = pool_ t /\ mem_ t2 = mem_ t) as [Ep Emem] by (unfold frame in F; unfold core in Ec; injection F as _ _ _ -> ->; by injection Ec).
    by rewrite Ep, Emem in Hr.
  - exists None, t2. split; [done|]. pose proof (held_same _ _ _ Hl (frame_locks _ _ F)) as Hl2.
    destruct (finish _ t2 _ ft own Hl2 Hh2) as (t' & Eu & Hu & Hh'). exists t'. split; [done|]. split; [unfold core in Ec; by injection Ec as _ _ _ _ <- _ _ _|]. by eapply represents_intro.
Qed.

(** A value is replaced in place, and the lock released. *)
Lemma replace_value p t ft own M off a n m' h k v0 v :
  held p t -> holds (dom own) t ft own -> models own M -> own !! off = Some (mk_item h k v0) ->
  pool_get_item (pool_ t) (mem_ t) off = (a, n) -> only_in a n (mem_ t) m' ->
  item_wf (mk_item h k v) -> item_size (mk_item h k v) <= n -> item_bytes m' a (mk_item h k v) ->
  exists t', unlock_bucket p (with_pool t (pool_ t) m') = Ok t' /\ represents t' (<[(h, k) := v]> M).
Proof.
  intros Hl Hh HM Ho Eg Honly Hwf Hsz Hby. pose proof (store_value _ t ft own off a n m' h k v0 v Hh Ho Eg Honly Hwf Hsz Hby) as Hh2.
  destruct (finish _ (with_pool t (pool_ t) m') _ ft _ Hl Hh2) as (t' & -> & Hu & Hh'). exists t'. split; [done|].
  assert (forall o it', own !! o = Some it' -> i_hash it' = h /\ i_key it' = k -> o = off) as Huniq.
  { intros o [h' k' v'] Ho' [E1 E2]. cbn in E1, E2. subst h' k'. by destruct (own_unique _ t ft own o off h k v' v0 Hh Ho' Ho). }
  assert (forall it', own !! off = Some it' -> i_hash it' = h /\ i_key it' = k) as Hsame by (intros it' Ho'; rewrite Ho in Ho'; by injection Ho' as <-).
  pose proof (own_replace own h k v off off (or_introl eq_refl) Huniq Hsame) as Hown. rewrite insert_delete_eq in Hown.
  apply (represents_intro _ ft (<[off := mk_item h k v]> own)); [done|by rewrite dom_insert_lookup_L by (by eexists)|].
  apply (models_put own _ M h k v off HM Hown). right. by exists v0.
Qed.

(** The value of a key is replaced, in place if it fits. *)
Lemma set_present t t1 ft own sh ps q fb j M h key v0 v kp vp off :
  core t1 = core t -> held (ibidx ft h) t1 -> holds (dom own) t1 ft own -> models own M -> FI.wf ft sh -> FI.chains sh !! ibidx ft h = Some ps ->
  q ∈ ps -> FT.buckets_ ft !! q = Some fb -> FT.key_arr fb !! j = Some (kid h key) -> own !! off = Some (mk_item h key v0) ->
  item_wf (mk_item h key v) -> ptr_has kp key -> ptr_has vp v ->
  exists r t', (let '(a, old_item_size) := pool_get_item (pool_ t1) (mem_ t1) off in
    if old_item_size >=? item_size (mk_item h key v) then
      m ← set_item_value a vp (lenZ v) (mem_ t1);
      t ← unlock_bucket (ibidx ft h) (with_pool t1 (pool_ t1) m);
      Ok (kSuccess, t)
    else set_new (ibidx ft h) q j true off (item_size (mk_item h key v)) h (calc_tag h) kp (lenZ key) vp (lenZ v) t1) = Ok (r, t') /\
    set_spec M h key v true t t' r.
Proof.
  intros Ec Hl Hh HM Hw Hi Hq Hfb Hk Ho Hwf Hkp Hvp. destruct (own_live _ t1 ft own off _ Hh Ho) as (Hlive & _).
  destruct (pool_item _ _ _ off (h_pool _ _ _ _ Hh) Hlive) as [_ Hp]. destruct (h_item _ _ _ _ Hh off _ Ho) as [Hwf0 Hit].
  destruct (pool_get_item (pool_ t1) (mem_ t1) off) as [a n] eqn:Eg. destruct Hp as (Ha & Ha8 & _ & Hm), Hit as [Hsz0 Hby0]. case_goal; bool_prop.
  - destruct (set_item_value_ok a n (mem_ t1) h key v0 v vp) as (m' & -> & Honly & Hby); try done. rewrite bind_Ok.
    destruct (replace_value _ t1 ft own M off a n m' h key v0 v Hl Hh HM Ho Eg Honly Hwf ltac:(lia) Hby) as (t' & -> & Hr). rewrite bind_Ok. exists kSuccess, t'.
    split; [done|]. split; [by left|done].
  - destruct (set_new_ok (ibidx ft h) t1 ft own sh ps q fb j (kid h key) h key v kp vp true off M) as (r & t' & Es & Hr); try done; [by right|by exists v0|].
    exists r, t'. split; [done|]. apply set_spec_new; [by left|]. by replace (pool_ t) with (pool_ t1) by (unfold core in Ec; by injection Ec); replace (mem_ t) with (mem_ t1) by (unfold core in Ec; by injection Ec).
Qed.

(** [set] on a table that represents a map inserts the key, or leaves the map as it is and
    says why. *)
Lemma set_ok t M h key v kp vp overwrite :
  represents t M -> item_wf (mk_item h key v) -> ptr_has kp key -> ptr_has vp v ->
  exists r t', set h kp (lenZ key) vp (lenZ v) overwrite t = Ok (r, t') /\ set_spec M h key v overwrite t t' r.
Proof.
  intros Hr Hwf Hkp Hvp. destruct (lens_ok h key v Hwf) as (_ & Ev & _ & _ & Esz). pose proof Hwf as (_ & [Hk _] & [Hv _]). cbn [i_key i_value] in Hk, Hv.
  destruct (begin_op t M h Hr) as (ft & own & sh & ps & t1 & El & Ei & Ec & Hl & Hh & HM & Hw & Hi).
  unfold set. rewrite (proj2 (Z.leb_le _ _) Hk), (proj2 (Z.leb_le _ _) Hv). cbn [assert_]. rewrite !bind_Ok, El, bind_Ok, Ei, Esz, Ev. unfold set_slot.
  pose proof (find_step _ t1 ft own sh ps M h key kp Hh HM Hw Hi Hkp) as Hf. destruct (M !! (h, key)) as [v0|] eqn:Em.
  - destruct Hf as (q & j & fb & off & -> & Es & Ho & Eo & Hq & Hfb & Hkq). rewrite bind_Ok. destruct overwrite; cbn [negb]; rewrite bind_Ok.
    + rewrite Es, bind_Ok, Eo. by apply (set_present t t1 ft own sh ps q fb j M h key v0 v kp vp off).
    + destruct (finish _ t1 _ ft own Hl Hh) as (t' & -> & Hu & Hh'). rewrite bind_Ok. exists kExists, t'. split; [done|]. cbn. rewrite Em.
      split; [done|]. split; [by eexists|]. by eapply represents_intro.
  - destruct Hf as (-> & _). rewrite bind_Ok.
    destruct (set_absent t t1 ft own sh ps M h key v kp vp Ec Hl Hh HM Hw Hi Hwf Hkp Hvp Em) as ([[q j]|] & t2 & -> & Hrest); rewrite !bind_Ok.
    + destruct Hrest as (r & t' & E & Hs). by exists r, t'.
    + destruct Hrest as (t' & -> & Efl & Hr'). rewrite bind_Ok. by exists kInsufficientSpaceIndex, t'.
Qed.

(** The versions that a reader compares. *)
Lemma versions_ok t p b :
  unlocked t -> buckets_ t !! p = Some b -> exists v, read_version_begin t p = Ok v /\ check_version v t p = Ok tt.
Proof.
  intros [_ Hv] Hb. rewrite Forall_fmap, Forall_lookup in Hv. destruct (Hv p b Hb) as [_ He]. unfold check_version, read_version_begin, read_version_end, bkt. rewrite Hb.
  destruct (concurrent_access_mode_ t =? 0); cbn; [by exists 0|]. rewrite (even_land _ He). cbn. exists (version b). by rewrite Z.eqb_refl.
Qed.

(** The start of an operation that takes no lock. *)
Lemma begin_read t M h :
  represents t M ->
  exists ft own sh ps ver, Z.to_nat (calc_bucket_index t h) = ibidx ft h /\ holds (dom own) t ft own /\ models own M /\
    FI.wf ft sh /\ FI.chains sh !! ibidx ft h = Some ps /\ read_version_begin t (ibidx ft h) = Ok ver /\ check_version ver t (ibidx ft h) = Ok tt.
Proof.
  intros (Hu & ft & own & Hh & HM). destruct (holds_bucket _ t ft own h Hh) as (Ei & _ & sh & ps & b & Hw & Hps & Hb).
  destruct (versions_ok t _ b Hu Hb) as (ver & E1 & E2). by exists ft, own, sh, ps, ver.
Qed.

(** A buffer of the caller with room for [n] bytes. *)
Definition buffer (p : ptr) (n : Z) : Prop :=
  0 <= p_pos p /\ p_pos p mod 8 = 0 /\ 0 <= n < 2 ^ 63 /\ n mod 8 = 0 /\ p_pos p + n <= lenZ (p_mem p).

Lemma copy_out m d v out n :
  0 <= d -> d mod 8 = 0 -> value_wf v -> read_at (Z.to_nat d) (length v) m = Ok v -> buffer out n ->
  exists m', memcpy8 (p_mem out) (p_pos out) m d (Z.min (lenZ v) n) = Ok m' /\ write_at (Z.to_nat (p_pos out)) (take (Z.to_nat n) v) (p_mem out) = Ok m'.
Proof.
  intros Hd Hd8 [Hv Hv8] Hr (Hp & Hp8 & Hn & Hn8 & Hroom). change kMaxValueLength with 1048575 in Hv.
  assert (read_at (Z.to_nat d) (Z.to_nat (Z.min (lenZ v) n)) m = Ok (take (Z.to_nat n) v)) as Hr'.
  { unfold lenZ in *. pose proof (read_at_sub _ _ _ _ 0 (Z.to_nat (Z.min (Z.of_nat (length v)) n)) Hr ltac:(lia)) as Hs. rewrite Nat.add_0_r, drop_0 in Hs. rewrite Hs. f_equal.
    destruct (Z.min_spec (Z.of_nat (length v)) n) as [[Hm ->]|[_ ->]]; [|done]. rewrite !take_ge; [done|lia|lia]. }
  pose proof (read_at_length _ _ _ _ Hr') as Hl. unfold lenZ in *. destruct (write_at_some (Z.to_nat (p_pos out)) (take (Z.to_nat n) v) (p_mem out)) as (m' & E & _); [lia|].
  exists m'. split; [|done]. rewrite (memcpy8_ok _ _ _ _ _ (take (Z.to_nat n) v)); try done; try lia.
  by destruct (Z.min_spec (Z.of_nat (length v)) n) as [[_ ->]|[_ ->]].
Qed.

(** What [get] gives of a value. *)
Definition get_spec (o : option (list byte)) (out : ptr) (n : Z) (r : Result) (w : option (Z * list byte)) : Prop :=
  match o with
  | None => r = kNotFound /\ w = None
  | Some v => r = (if lenZ v <=? n then kSuccess else kPartialValue) /\
      exists m', w = Some (Z.min (lenZ v) n, m') /\ write_at (Z.to_nat (p_pos out)) (take (Z.to_nat n) v) (p_mem out) = Ok m'
  end.

Lemma lt_get_ok t M h key kp out n allow_mutation :
  represents t M -> key_wf key -> ptr_has kp key -> buffer out n ->
  exists r w, get h kp (lenZ key) out n allow_mutation t = Ok (r, w, t) /\ get_spec (M !! (h, key)) out n r w.
Proof.
  intros Hr [Hk Hk8] Hkp Hbuf. destruct (begin_read t M h Hr) as (ft & own & sh & ps & ver & Ei & Hh & HM & Hw & Hi & Ev1 & Ev2).
  unfold get. rewrite (proj2 (Z.leb_le _ _) Hk). cbn [assert_]. rewrite bind_Ok, Ei, Ev1, bind_Ok.
  pose proof (find_step _ t ft own sh ps M h key kp Hh HM Hw Hi Hkp) as Hf. destruct (M !! (h, key)) as [v|].
  - destruct Hf as (q & j & fb & off & -> & Es & Ho & Eo & _). rewrite bind_Ok, Es, bind_Ok, Eo. destruct (own_live _ t ft own off _ Hh Ho) as (Hlive & _).
    destruct (pool_item _ _ _ off (h_pool _ _ _ _ Hh) Hlive) as [_ Hp]. destruct (h_item _ _ _ _ Hh off _ Ho) as [Hwf Hit].
    destruct (pool_get_item (pool_ t) (mem_ t) off) as [a sz]. destruct Hp as (Ha & Ha8 & _), Hit as [_ Hby].
    destruct (item_fields _ _ _ Hwf Hby) as (-> & _ & Evl & _). rewrite bind_Ok, Evl. pose proof Hwf as (_ & _ & Hv). cbn [i_value] in *.
    rewrite (proj2 (Z.leb_le _ _) (proj1 Hv)). change kMaxKeyLength with 255 in Hk. assert (0 <= lenZ key) by (unfold lenZ; lia). rewrite (roundup8 (lenZ key)) by lia.
    destruct Hby as (_ & _ & _ & Hvr). cbn [i_key i_value] in Hvr. unfold item_data.
    destruct (copy_out (mem_ t) (a + 16 + lenZ key) v out n ltac:(lia)) as (m' & -> & Ew); [|done|done|done|].
    { rewrite <- Z.add_mod_idemp_r, Hk8, Z.add_0_r, <- Z.add_mod_idemp_l, Ha8 by lia. done. }
    rewrite bind_Ok, Ev2, bind_Ok. eexists _, _. split; [reflexivity|]. split; [|by exists m'].
    destruct (Z.leb_spec (lenZ v) n); [rewrite Z.min_l by lia; by rewrite Z.eqb_refl|]. rewrite Z.min_r by lia. by rewrite (proj2 (Z.eqb_neq _ _)) by lia.
  - destruct Hf as (-> & _). rewrite bind_Ok, Ev2, bind_Ok. by eexists _, _.
Qed.

Lemma test_ok t M h key kp :
  represents t M -> key_wf key -> ptr_has kp key ->
  test h kp (lenZ key) t = Ok (if bool_decide (is_Some (M !! (h, key))) then kSuccess else kNotFound).
Proof.
  intros Hr [Hk Hk8] Hkp. destruct (begin_read t M h Hr) as (ft & own & sh & ps & ver & Ei & Hh & HM & Hw & Hi & Ev1 & Ev2).
  unfold test. rewrite (proj2 (Z.leb_le _ _) Hk). cbn [assert_]. rewrite bind_Ok, Ei, Ev1, bind_Ok.
  pose proof (find_step _ t ft own sh ps M h key kp Hh HM Hw Hi Hkp) as Hf. destruct (M !! (h, key)) as [v|].
  - destruct Hf as (q & j & fb & off & -> & _). by rewrite bind_Ok, Ev2, bind_Ok.
  - destruct Hf as (-> & _). by rewrite bind_Ok, Ev2, bind_Ok.
Qed.

Lemma del_ok t M h key kp :
  represents t M -> key_wf key -> ptr_has kp key ->
  exists t', del h kp (lenZ key) t = Ok (if bool_decide (is_Some (M !! (h, key))) then kSuccess else kNotFound, t') /\
    represents t' (delete (h, key) M).
Proof.
  intros Hr [Hk _] Hkp. destruct (begin_op t M h Hr) as (ft & own & sh & ps & t1 & El & Ei & Ec & Hl & Hh & HM & Hw & Hi).
  unfold del. rewrite (proj2 (Z.leb_le _ _) Hk). cbn [assert_]. rewrite bind_Ok, El, bind_Ok, Ei.
  pose proof (find_step _ t1 ft own sh ps M h key kp Hh HM Hw Hi Hkp) as Hf. destruct (M !! (h, key)) as [v|] eqn:Em.
  - destruct Hf as (q & j & fb & off & -> & Es & Ho & Eo & Hq & Hfb & Hkq). rewrite bind_Ok, Es, bind_Ok, Eo.
    destruct (pool_release off (pool_ t1) (mem_ t1)) as [p' m'] eqn:Er.
    destruct (unword_step _ t1 ft own sh ps q fb j h key v off Hh Hw Hi Hq Hfb Hkq Ho) as (ft2 & fb2 & Hh2 & Hw2 & Hcfg & Hfb2 & Hk2).
    assert (off ∈ dom own) as Hin by (by eapply elem_of_dom_2). assert (off ∉ dom (delete off own)) as Hout by (rewrite not_elem_of_dom; apply lookup_delete_eq).
    pose proof (release_step _ (upd q (with_item j 0) t1) ft2 _ off p' m' Hh2 Hin Hout Er) as Hh3. rewrite <- dom_delete_L in Hh3.
    change (upd q (with_item j 0) (with_pool t1 p' m')) with (with_pool (upd q (with_item j 0) t1) p' m'). set (t2 := with_pool _ p' m') in *.
    rewrite <- (ibidx_cfg ft ft2 h Hcfg) in Hi. destruct (fill_step _ t2 ft2 _ sh h ps q fb2 j Hh3 Hw2 Hi Hq Hfb2 Hk2) as (t3 & ft3 & -> & Hh4 & F3). rewrite bind_Ok.
    assert (held (ibidx ft h) t3) as Hl3 by (eapply held_same; [exact Hl|]; eapply locks_trans; [apply (item_locks q j 0 t1)|]; by apply (frame_locks t2 t3)).
    destruct (finish _ t3 _ ft3 _ Hl3 Hh4) as (t4 & -> & Hu & Hh5). rewrite bind_Ok. exists t4. split; [done|].
    apply (represents_intro _ ft3 (delete off own)); [done|done|by apply (models_del (dom own) t1 ft own M h key v off)].
  - destruct Hf as (-> & _). rewrite bind_Ok. destruct (finish _ t1 _ ft own Hl Hh) as (t' & -> & Hu & Hh'). rewrite bind_Ok. exists t'. split; [done|].
    rewrite delete_id by done. by eapply represents_intro.
Qed.

(** The first eight bytes of a value are overwritten. *)
Lemma store_head a n m h k v x :
  item_wf (mk_item h k v) -> item_bytes m a (mk_item h k v) -> 0 <= a -> item_size (mk_item h k v) <= n -> a + n <= lenZ m ->
  (8 <= length v)%nat -> length x = 8%nat ->
  exists m', write_at (Z.to_nat (a + 16 + lenZ k)) x m = Ok m' /\ only_in a n m m' /\ item_bytes m' a (mk_item h k (x ++ drop 8 v)).
Proof.
  intros _ (H1 & H2 & H3 & H4) Ha Hsz Hm Hv Hx. unfold item_size in Hsz. cbn [i_hash i_key i_value] in *. change sizeof_Item with 16 in Hsz.
  assert (0 <= lenZ k /\ lenZ x = 8 /\ 8 <= lenZ v) as (Hk0 & Hx8 & Hv8) by (unfold lenZ; lia).
  destruct (store_step a n m (a + 16 + lenZ k) x) as (m' & E & Honly & _ & Hne); [lia|lia|lia|]. exists m'. split; [done|]. split; [done|].
  assert (length (x ++ drop 8 v) = length v) as Hl by (rewrite length_app, length_drop; lia).
  unfold item_bytes, item_kv, lenZ. cbn [i_hash i_key i_value]. rewrite Hl. unfold item_kv, lenZ in *. cbn [i_key i_value] in *. split_and!.
  - by rewrite Hne by lia.
  - by rewrite Hne by lia.
  - by rewrite Hne by lia.
  - rewrite <- (Nat.add_0_r (Z.to_nat _)) in E. rewrite (read_write_at_in _ 0 x m m' (length v) v H4 E) by lia. by rewrite Hx.
Qed.

(** [increment] adds to the first eight bytes of the value, modulo 2^64. *)
Lemma increment_ok t M h key kp inc :
  represents t M -> key_wf key -> ptr_has kp key -> (forall v, M !! (h, key) = Some v -> 8 <= lenZ v) ->
  exists t', match M !! (h, key) with
  | None => increment h kp (lenZ key) inc t = Ok (kNotFound, None, t') /\ represents t' M
  | Some v => let new := wrap 64 (le_val (take 8 v) + inc) in
      increment h kp (lenZ key) inc t = Ok (kSuccess, Some new, t') /\ represents t' (<[(h, key) := le_bytes 8 new ++ drop 8 v]> M)
  end.
Proof.
  intros Hr [Hk Hk8] Hkp H8. destruct (begin_op t M h Hr) as (ft & own & sh & ps & t1 & El & Ei & Ec & Hl & Hh & HM & Hw & Hi).
  unfold increment. rewrite (proj2 (Z.leb_le _ _) Hk). cbn [assert_]. rewrite bind_Ok, El, bind_Ok, Ei.
  pose proof (find_step _ t1 ft own sh ps M h key kp Hh HM Hw Hi Hkp) as Hf. destruct (M !! (h, key)) as [v|] eqn:Em.
  2:{ destruct Hf as (-> & _). rewrite bind_Ok. destruct (finish _ t1 _ ft own Hl Hh) as (t' & -> & Hu & Hh'). rewrite bind_Ok. exists t'. split; [done|]. by eapply represents_intro. }
  destruct Hf as (q & j & fb & off & -> & Es & Ho & Eo & _). rewrite bind_Ok, Es, bind_Ok, Eo. specialize (H8 v eq_refl). set (new := wrap 64 _).
  destruct (own_live _ t1 ft own off _ Hh Ho) as (Hlive & _). destruct (pool_item _ _ _ off (h_pool _ _ _ _ Hh) Hlive) as [_ Hp].
  destruct (h_item _ _ _ _ Hh off _ Ho) as [Hwf Hit]. destruct (pool_get_item (pool_ t1) (mem_ t1) off) as [a n] eqn:Eg. destruct Hp as (Ha & Ha8 & _ & Hm), Hit as [Hsz Hby].
  change kMaxKeyLength with 255 in Hk. assert (0 <= lenZ key) by (unfold lenZ; lia). rewrite (roundup8 (lenZ key)) by lia. unfold item_data.
  assert ((a + 16 + lenZ key) mod 8 = 0) as Hd8 by (rewrite <- Z.add_mod_idemp_r, Hk8, Z.add_0_r, <- Z.add_mod_idemp_l, Ha8 by lia; done).
  pose proof Hby as (_ & _ & _ & Hvr). cbn [i_key i_value] in Hvr. unfold lenZ in H8. pose proof (read_at_sub _ _ _ _ 0 8 Hvr ltac:(lia)) as Hr8. rewrite Nat.add_0_r, drop_0 in Hr8.
  assert (length (take 8 v) = 8%nat) as Ht8 by (rewrite length_take; lia).
  rewrite (memcpy8_ok (replicate 8 0) 0 _ _ 8 (take 8 v)), write_at_ok by (done || lia || (cbn; lia)). rewrite bind_Ok.
  replace (take (Z.to_nat 0) _ ++ _) with (take 8 v) by (rewrite Ht8; cbn; by rewrite app_nil_r). fold new.
  destruct (store_head a n (mem_ t1) h key v (le_bytes 8 new) Hwf Hby Ha Hsz Hm ltac:(lia) (length_le_bytes 8 new)) as (m' & E & Honly & Hby').
  pose proof (write_at_length _ _ _ _ E) as Hlen.
  rewrite (memcpy8_ok _ _ _ _ 8 (le_bytes 8 new)), E, bind_Ok; try lia; try done.
  2:{ unfold item_size in Hsz. cbn in Hsz. unfold lenZ in *. change sizeof_Item with 16 in Hsz. lia. }
  assert (lenZ (le_bytes 8 new ++ drop 8 v) = lenZ v) as Hlv by (unfold lenZ; rewrite length_app, length_le_bytes, length_drop; lia).
  destruct (replace_value _ t1 ft own M off a n m' h key v (le_bytes 8 new ++ drop 8 v) Hl Hh HM Ho Eg Honly) as (t' & -> & Hr'); [..|done|].
  - destruct Hwf as (Hu & Hkw & Hvw). split; [done|]. split; [done|]. unfold value_wf in *. cbn [i_value] in *. by rewrite Hlv.
  - unfold item_size in *. cbn [i_key i_value] in *. by rewrite Hlv.
  - rewrite bind_Ok. by exists t'.
Qed.

End Ops.
End LTableOps.
