(* ===== verification/LTableInit.v ===== *)
(** * The MICA table with items of any size: constructor and [reset]
    ([src/mica2/src/mica/table/ltable_impl/init.h])

    [reset] releases the items of the primary buckets, clears all buckets, links the free
    list anew and resets the pool; the constructor applies it to zeroed memory.  Both leave
    a table that represents the empty map. *)

From S2P Require Import Prelude Util FixedTable FixedTableInv FixedTableOps FixedTableInit LTable LTableSim LTableItem LTableInv LTableOps.
From Stdlib Require Import ZArith Lia Bool SpecFloat.
From stdpp Require Import base numbers list gmap sets.
#[local] Open Scope Z_scope.
Import LTable LTableSim LTableItem LTableInv LTableOps.

Module LTableInit.

Section Init.
Context {P : Type} `{PoolLaws P}.
Notation table := (LTable.table P).
Implicit Types (t : table) (ft : FT.table) (own : gmap Z item).

(** ** The free list *)

(** The fields that the constructor computes. *)
Definition cfg_ok t : Prop :=
  (exists l, 0 <= l < 32 /\ num_buckets_ t = 2 ^ l) /\ num_buckets_mask_ t = num_buckets_ t - 1 /\ 0 <= num_extra_buckets_ t /\
  num_buckets_ t + num_extra_buckets_ t < 2 ^ 32 /\ Z.of_nat (length (buckets_ t)) = num_buckets_ t + num_extra_buckets_ t.

Lemma link_sim n e t ft ft' :
  tab_rel t ft -> FI.cfg_wf ft -> 1 <= e -> e + Z.of_nat n <= num_extra_buckets_ t -> FT.link_extra n e ft = Ok ft' ->
  exists t', link_extra n e t = Ok t' /\ tab_rel t' ft' /\ frame t' = frame t.
Proof.
  revert e t ft. induction n as [|n IH]; intros e t ft R Hc He Hn E; cbn [FT.link_extra link_extra] in *; [injection E as <-; by exists t|].
  pose proof (tr_ne t ft R) as Ene. pose proof (tr_nb t ft R) as Enb. rewrite (FI.get_extra_bucket_ok ft e Hc) in E by lia. rewrite bind_Ok in E.
  replace (Z.to_nat (num_buckets_ t - 1 + e)) with (FI.epos ft e) by (unfold FI.epos; by rewrite Enb). set (q := FI.epos ft e) in *.
  assert (q < length (buckets_ t))%nat as Hq.
  { rewrite (length_sim t ft R). pose proof (FI.cfg_len ft Hc). pose proof (FI.cfg_ne ft Hc). destruct (FI.cfg_nb ft Hc) as (l & Hl & E2).
    pose proof (pow2_pos l ltac:(lia)). unfold q, FI.epos. lia. }
  destruct (lookup_lt_is_Some_2 _ _ Hq) as [b Hb]. unfold bkt. rewrite Hb. cbn [of_option]. rewrite bind_Ok.
  destruct (IH (e + 1) (upd q (with_next (e + 1)) t) (FT.upd q (FT.with_next (e + 1)) ft)) as (t' & E' & R' & F'); [apply upd_sim; [done|apply next_sim]| |lia|cbn; lia|done|].
  - apply (FI.cfg_wf_ext ft); [done|apply FI.upd_length|done].
  - exists t'. split; [done|]. split; [done|]. by rewrite F', upd_frame.
Qed.

(** The part of [reset] that links the free list. *)
Definition link_all (t : table) : res table :=
  if num_extra_buckets_ t =? 0 then Ok (with_fl t (fl_lock t) 0)
  else
    t ← link_extra (Z.to_nat (num_extra_buckets_ t - 1)) 1 t;
    let q := Z.to_nat (num_buckets_ t - 1 + num_extra_buckets_ t) in
    _ ← bkt t q;
    Ok (with_fl (upd q (with_next 0) t) (fl_lock t) 1).

Lemma link_all_sim t ft ft' :
  tab_rel t (FT.with_fl (FT.with_buckets ft (map FT.reset_bucket (FT.buckets_ ft))) 0 (FT.fl_head ft)) -> FI.cfg_wf ft -> FT.reset ft = Ok ft' ->
  exists t', link_all t = Ok t' /\ tab_rel t' ft' /\ frame t' = frame t.
Proof.
  unfold FT.reset. cbn zeta. set (ft1 := FT.with_fl _ 0 _). intros R Hc E. unfold link_all. rewrite (tr_ne t ft1 R).
  assert (FI.cfg_wf ft1) as Hc1 by (apply (FI.cfg_wf_ext ft); [done|apply length_map|done]).
  destruct (FT.num_extra_buckets_ ft1 =? 0) eqn:E0.
  { injection E as <-. eexists. split; [done|]. split; [|done]. apply (fl_sim t ft1); [done|apply (tr_lock _ _ R)]. }
  bool_prop. pose proof (FI.cfg_ne ft1 Hc1) as Hne. apply bind_ok in E as (ft2 & E2 & E). apply bind_ok in E as (q & Eq & E). injection E as <-.
  destruct (link_sim (Z.to_nat (FT.num_extra_buckets_ ft1 - 1)) 1 t ft1 ft2 R Hc1 ltac:(lia) ltac:(rewrite (tr_ne _ _ R); lia) E2) as (t2 & -> & R2 & F2). rewrite bind_Ok.
  rewrite <- (extra_sim t2 ft2), <- (tr_ne t2 ft2 R2) in Eq by done. unfold get_extra_bucket in Eq. apply assert_then in Eq as [_ Eq]. apply assert_then in Eq as [_ Eq]. injection Eq as Eq.
  rewrite Eq. assert (exists b, bkt t2 q = Ok b) as [b ->].
  { assert (q < length (buckets_ t2))%nat as Hq; [|destruct (lookup_lt_is_Some_2 _ _ Hq) as [b Hb]; exists b; unfold bkt; by rewrite Hb].
    pose proof (FixedTableInit.link_extra_cfg _ _ _ _ E2) as Hcfg. pose proof (FO.cfg_nb_eq _ _ Hcfg) as Enb. assert (FT.num_extra_buckets_ ft2 = FT.num_extra_buckets_ ft1) as Ene by (unfold FI.cfg in Hcfg; congruence).
    assert (length (buckets_ t2) = length (buckets_ t)) as -> by (unfold frame in F2; injection F2 as _ _ Hv _ _; apply (f_equal length) in Hv; by rewrite !length_fmap in Hv).
    rewrite (length_sim t ft1 R). pose proof (FI.cfg_len ft1 Hc1). destruct (FI.cfg_nb ft1 Hc1) as (l & Hl & E3). pose proof (pow2_pos l ltac:(lia)).
    rewrite (tr_nb _ _ R2), (tr_ne _ _ R2) in Eq. lia. }
  rewrite bind_Ok. eexists. split; [done|]. split; [|change (frame (upd q (with_next 0) t2) = frame t); by rewrite upd_frame].
  apply (fl_sim (upd q (with_next 0) t2) (FT.upd q (FT.with_next 0) ft2)); [|apply (tr_lock _ _ R2)]. apply upd_sim; [done|apply next_sim].
Qed.

(** A cleared bucket of the fixed-size table. *)
Lemma zero_rel : bkt_rel zero_bucket (FT.reset_bucket (FT.zero_bucket 8)).
Proof. constructor; [done|..]; cbn; repeat constructor; done. Qed.

(** The buckets are cleared and the free list linked. *)
Definition relink (t : table) : res table :=
  link_all (with_fl (with_buckets t (map (fun _ => zero_bucket) (buckets_ t))) 0 (fl_head t)).

Lemma relink_ok t :
  cfg_ok t ->
  exists t' ft, relink t = Ok t' /\ tab_rel t' ft /\ FI.Inv ft /\ (forall i, (i < Z.to_nat (FT.num_buckets_ ft))%nat -> FI.abs ft i = ∅) /\
    concurrent_access_mode_ t' = concurrent_access_mode_ t /\ pool_ t' = pool_ t /\ mem_ t' = mem_ t /\ Forall (fun v => v = 0) (version <$> buckets_ t').
Proof.
  intros ((l & Hl & Enb) & Emask & Hne & Hsum & Hlen). pose proof (pow2_pos l ltac:(lia)). rewrite Enb in *. set (ne := num_extra_buckets_ t) in *.
  set (ft0 := FT.mkTable true 8 (2 ^ l) (2 ^ l - 1) ne 0 (fl_head t) (replicate (Z.to_nat (wrap 32 (2 ^ l + ne))) (FT.zero_bucket 8))).
  assert (FixedTableInit.fresh ft0) as Hfr.
  { assert (u 64 8) as Hu8 by (unfold u; lia). destruct (FixedTableInit.zero_fresh true 8 l ne Hl Hne Hsum Hu8 eq_refl) as [[? ? ? ? ? ?] ? ?].
    constructor; [constructor|..]; done. }
  pose proof Hfr as [Hc _ _]. destruct (FixedTableInit.reset_ok ft0 Hfr) as (ft & Er & Hcfg & [sh Hw] & Hview). unfold relink. set (t1 := with_fl (with_buckets t _) 0 _).
  assert (version <$> buckets_ t1 = (fun _ => 0) <$> buckets_ t) as Hv1 by (cbn; by rewrite <- list_fmap_compose).
  destruct (link_all_sim t1 ft0 ft) as (t' & E & R & F); [|done|done|].
  { constructor; try done. unfold t1, ft0. cbn [FT.buckets_ FT.with_fl FT.with_buckets buckets_ with_fl with_buckets].
    change (@map FT.Bucket FT.Bucket) with (@fmap list _ FT.Bucket FT.Bucket). rewrite fmap_replicate. rewrite wrap_id by (unfold u; lia).
    apply Forall2_same_length_lookup_2; [rewrite length_map, length_replicate; lia|]. intros i b fb Hb Hfb. apply lookup_replicate in Hfb as [-> _].
    change (@map Bucket Bucket) with (@fmap list _ Bucket Bucket) in Hb. rewrite list_lookup_fmap in Hb. destruct (buckets_ t !! i); [|done]. injection Hb as <-. apply zero_rel. }
  exists t', ft. split; [exact E|]. destruct (frame_parts _ _ F) as (F1 & F2 & F3 & F4). split; [done|]. split; [by exists sh|]. split.
  - intros i Hi. specialize (Hview i Hi). destruct (FO.bucket_at ft sh i Hw Hi) as (b & _ & _ & _ & Hv). rewrite Hv in Hview. by injection Hview.
  - rewrite F1, F3, F4, F2, Hv1. repeat (split; [done|]). rewrite Forall_fmap. by apply Forall_true.
Qed.

(** ** The release of the items *)

Definition offsets (vs : list Z) : list Z := get_item_offset <$> filter (fun v => v <> 0) vs.

Lemma release_items vs l (p : P) m :
  pool_ok l p m -> NoDup (offsets vs) -> (forall off, off ∈ offsets vs -> off ∈ pool_live p) ->
  pool_ok l (foldl release_item (p, m) vs).1 (foldl release_item (p, m) vs).2.
Proof.
  revert p m. induction vs as [|v vs IH]; intros p m Hok Hnd Hin; [done|]. cbn [foldl]. unfold release_item at 2 4. unfold offsets in Hnd, Hin. rewrite filter_cons in Hnd, Hin.
  destruct (Z.eqb_spec v 0) as [->|Hv]; cbn [negb fst snd].
  - rewrite decide_False in Hnd, Hin by (intros Hn; by apply Hn). by apply IH.
  - rewrite decide_True in Hnd, Hin by done. cbn [fmap list_fmap] in Hnd, Hin. apply NoDup_cons in Hnd as [Hnot Hnd].
    destruct (pool_release (get_item_offset v) p m) as [p' m'] eqn:E.
    destruct (pool_released _ _ _ _ _ _ Hok (Hin _ (list_elem_of_here _ _)) E) as (Hok' & Hl & _). apply IH; [done|done|].
    intros off Hoff. rewrite Hl. apply elem_of_difference. split; [by apply Hin, list_elem_of_further|]. intros Hs. apply elem_of_singleton in Hs as ->. by apply Hnot.
Qed.

Lemma release_buckets bs (pm : P * list byte) : foldl release_bucket pm bs = foldl release_item pm (bs ≫= item_vec).
Proof. revert pm. induction bs as [|b bs IH]; intros pm; [done|]. cbn [foldl]. by rewrite IH, bind_cons, foldl_app. Qed.

(** A filtered list has no duplicates exactly when an element is at one place. *)
Lemma filter_nodup {A} (Q : A -> Prop) `{forall x, Decision (Q x)} (l : list A) :
  NoDup (filter Q l) <-> forall i j x, l !! i = Some x -> l !! j = Some x -> Q x -> i = j.
Proof.
  induction l as [|y l IH]; [split; [by intros _ [] ? ?|constructor]|]. rewrite filter_cons. split.
  - intros Hnd i j x Hi Hj Hx. assert (NoDup (filter Q l)) as Hnd' by (case_decide; [by apply NoDup_cons in Hnd as [_ ?]|done]).
    assert (forall n, l !! n = Some y -> Q y -> False) as Hno.
    { intros n Hn Hy. rewrite decide_True in Hnd by done. apply NoDup_cons in Hnd as [Hnd _]. apply Hnd, list_elem_of_filter. split; [done|]. by eapply list_elem_of_lookup_2. }
    destruct i as [|i], j as [|j]; cbn in Hi, Hj; simplify_eq; try done; [by destruct (Hno j Hj Hx)|by destruct (Hno i Hi Hx)|].
    f_equal. by eapply (proj1 IH Hnd').
  - intros Hu. assert (NoDup (filter Q l)) as Hnd by (apply IH; intros i j x Hi Hj Hx; specialize (Hu (S i) (S j) x Hi Hj Hx); lia).
    case_decide as Hy; [|done]. apply NoDup_cons. split; [|done]. intros Hin. apply list_elem_of_filter in Hin as [_ Hin]. apply list_elem_of_lookup in Hin as [n Hn].
    by specialize (Hu 0%nat (S n) y eq_refl Hn Hy).
Qed.

(** The used keys of a bucket of a chain are different. *)
Lemma bucket_keys ft sh i ps fb :
  FI.wf ft sh -> FI.chains sh !! i = Some ps -> FT.buckets_ ft !! i = Some fb -> NoDup (filter (fun k => k <> kInvalid) (FT.key_arr fb)).
Proof.
  intros Hw Hi Hfb. pose proof Hw as (_ & Hl & Hct & _). destruct (FI.chain_cons ft sh Hl i ps Hi) as (l & -> & _).
  pose proof (FI.ct_keys ft sh Hct i _ Hi) as Hnd. unfold FI.items in Hnd. rewrite bind_cons, fmap_app in Hnd. apply NoDup_app in Hnd as [Hnd _].
  unfold FI.items_at in Hnd. rewrite Hfb in Hnd. destruct (FI.bkt_at ft sh i fb Hw Hfb) as (Hk & Hv & _). rewrite <- Hk in Hv.
  enough ((FI.bkt_items fb).*1 = filter (fun k => k <> kInvalid) (FT.key_arr fb)) as <- by done. unfold FI.bkt_items. clear -Hv. revert Hv. generalize (FT.val_arr fb).
  induction (FT.key_arr fb) as [|k ks IH]; intros [|v vs] Hlen; try done. cbn [zip zip_with]. rewrite bind_cons, fmap_app, IH by (cbn in Hlen; lia). rewrite filter_cons.
  unfold FI.slot_items. cbn [fst snd]. destruct (Z.eqb_spec k kInvalid) as [->|Hne]; [by rewrite decide_False by (intros Hn; by apply Hn)|]. by rewrite decide_True.
Qed.

Lemma nodup_bind {A B} (f : A -> list B) (l : list A) :
  (forall i j x y z, l !! i = Some x -> l !! j = Some y -> z ∈ f x -> z ∈ f y -> i = j) -> (forall i x, l !! i = Some x -> NoDup (f x)) -> NoDup (l ≫= f).
Proof.
  induction l as [|x l IH]; intros Hd Hn; [constructor|]. rewrite bind_cons. apply NoDup_app. split; [by apply (Hn 0%nat)|]. split.
  - intros z Hz Hz'. apply list_elem_of_bind in Hz' as (y & Hzy & Hy). apply list_elem_of_lookup in Hy as [j Hj]. by specialize (Hd 0%nat (S j) x y z eq_refl Hj Hz Hzy).
  - apply IH; [|intros i y Hy; by apply (Hn (S i))]. intros i j y y' z Hi Hj Hz Hz'. specialize (Hd (S i) (S j) y y' z Hi Hj Hz Hz'). lia.
Qed.

Lemma filter_bind {A B} (Q : B -> Prop) `{forall x, Decision (Q x)} (f : A -> list B) (l : list A) : filter Q (l ≫= f) = l ≫= (fun x => filter Q (f x)).
Proof. induction l as [|x l IH]; [done|]. by rewrite !bind_cons, filter_app, IH. Qed.

(** The words of the primary buckets name different items. *)
Lemma primary_offsets L t ft own :
  holds L t ft own -> let vs := take (Z.to_nat (num_buckets_ t)) (buckets_ t) ≫= item_vec in
  NoDup (offsets vs) /\ forall off, off ∈ offsets vs -> off ∈ pool_live (pool_ t).
Proof.
  intros Hh vs. destruct (h_inv _ _ _ _ Hh) as [sh Hw]. pose proof Hw as (_ & Hl & _). pose proof (h_rel _ _ _ _ Hh) as R.
  assert (forall i b, take (Z.to_nat (num_buckets_ t)) (buckets_ t) !! i = Some b -> exists ps, buckets_ t !! i = Some b /\ FI.chains sh !! i = Some ps /\ i ∈ ps) as Hprim.
  { intros i b Hb. rewrite lookup_take_Some in Hb. destruct Hb as [Hb Hi]. rewrite (tr_nb _ _ R) in Hi.
    destruct (lookup_lt_is_Some_2 (FI.chains sh) i) as [ps Hps]; [pose proof (FI.lk_len ft sh Hl); lia|]. exists ps. split; [done|]. split; [done|].
    destruct (FI.chain_cons ft sh Hl i ps Hps) as (l & -> & _). apply list_elem_of_here. }
  assert (forall i b j v, take (Z.to_nat (num_buckets_ t)) (buckets_ t) !! i = Some b -> item_vec b !! j = Some v -> v <> 0 ->
    exists off it fb, own !! off = Some it /\ i = ibidx ft (i_hash it) /\ v = vec off it /\ FT.buckets_ ft !! i = Some fb /\ FT.key_arr fb !! j = Some (kid (i_hash it) (i_key it))) as Hslot.
  { intros i b j v Hb Hj Hv. destruct (Hprim i b Hb) as (ps & Hb' & Hps & Hin). by apply (slot_own L t ft own sh i ps i b j v). }
  assert (forall v, v ∈ filter (fun v => v <> 0) vs -> exists off it, own !! off = Some it /\ v = vec off it) as Hown.
  { intros v Hv. apply list_elem_of_filter in Hv as [Hv0 Hv]. apply list_elem_of_bind in Hv as (b & Hj & Hb). apply list_elem_of_lookup in Hb as [i Hb], Hj as [j Hj].
    destruct (Hslot i b j v Hb Hj Hv0) as (off & it & fb & Ho & _ & -> & _). by exists off, it. }
  assert (forall o o' it it', own !! o = Some it -> own !! o' = Some it' -> get_item_offset (vec o it) = get_item_offset (vec o' it') -> o = o' /\ it = it') as Hinj.
  { intros o o' it it' Ho Ho' E. destruct (own_live L t ft own o it Hh Ho) as (_ & _ & _ & E1 & _), (own_live L t ft own o' it' Hh Ho') as (_ & _ & _ & E2 & _).
    rewrite E1, E2 in E. subst o'. split; [done|]. congruence. }
  split.
  - unfold offsets. apply NoDup_fmap_2_strong.
    { intros x y Hx Hy E. destruct (Hown x Hx) as (o & it & Ho & ->), (Hown y Hy) as (o' & it' & Ho' & ->). by destruct (Hinj o o' it it' Ho Ho' E) as [-> ->]. }
    unfold vs. rewrite filter_bind. apply nodup_bind.
    + intros i i' b b' v Hi Hi' Hv Hv'. apply list_elem_of_filter in Hv as [Hv0 Hv], Hv' as [_ Hv']. apply list_elem_of_lookup in Hv as [j Hj], Hv' as [j' Hj'].
      destruct (Hslot i b j v Hi Hj Hv0) as (o & it & _ & Ho & -> & Ev & _), (Hslot i' b' j' v Hi' Hj' Hv0) as (o' & it' & _ & Ho' & -> & Ev' & _).
      destruct (Hinj o o' it it' Ho Ho') as [_ ->]; [congruence|done].
    + intros i b Hb. apply filter_nodup. intros j j' v Hj Hj' Hv. destruct (Hprim i b Hb) as (ps & _ & Hps & _).
      destruct (Hslot i b j v Hb Hj Hv) as (o & it & fb & Ho & _ & Ev & Hfb & Hk), (Hslot i b j' v Hb Hj' Hv) as (o' & it' & fb' & Ho' & _ & Ev' & Hfb' & Hk').
      rewrite Hfb in Hfb'. apply (inj Some) in Hfb' as <-. destruct (Hinj o o' it it' Ho Ho') as [_ <-]; [congruence|].
      exact (proj1 (filter_nodup _ _) (bucket_keys ft sh i ps fb Hw Hps Hfb) j j' _ Hk Hk' (kid_valid _ _)).
  - intros off Hoff. unfold offsets in Hoff. apply list_elem_of_fmap in Hoff as (v & -> & Hv). destruct (Hown v Hv) as (o & it & Ho & ->).
    destruct (own_live L t ft own o it Hh Ho) as (Hlive & _ & _ & -> & _). done.
Qed.

(** ** [reset] and the constructor *)

Definition mode_ok t : Prop := concurrent_access_mode_ t = 0 \/ concurrent_access_mode_ t = 1 \/ concurrent_access_mode_ t = 2.

Lemma reset_empty t :
  cfg_ok t -> mode_ok t -> pool_ok false (pool_ t) (mem_ t) ->
  (let vs := take (Z.to_nat (num_buckets_ t)) (buckets_ t) ≫= item_vec in
   NoDup (offsets vs) /\ forall off, off ∈ offsets vs -> off ∈ pool_live (pool_ t)) ->
  exists t', reset t = Ok t' /\ represents t' ∅.
Proof.
  intros Hc Hm Hok Hvs. unfold reset. rewrite release_buckets. set (vs := _ ≫= item_vec) in *. destruct Hvs as [Hnd Hin].
  destruct (pool_locked _ _ Hok) as (Hok1 & Hl1 & _). rewrite <- Hl1 in Hin.
  pose proof (release_items vs true (pool_lock (pool_ t)) (mem_ t) Hok1 Hnd Hin) as Hok2. destruct (foldl release_item _ vs) as [p2 m2]. cbn [fst snd] in Hok2.
  destruct (pool_unlocked _ _ Hok2) as (Hok3 & _). set (t1 := with_pool t (pool_unlock p2) m2).
  destruct (relink_ok t1 Hc) as (t2 & ft & E & R & HI & Habs & Em & Ep & Emem & Hv). 
  change (exists t', (relink t1 ≫= (fun t => let '(pl, m) := pool_reset (pool_lock (pool_ t)) (mem_ t) in Ok (with_pool t (pool_unlock pl) m))) = Ok t' /\ represents t' ∅).
  rewrite E, bind_Ok, Ep, Emem.
  destruct (pool_locked _ _ Hok3) as (Hok4 & _). cbn [pool_ mem_ t1 with_pool]. destruct (pool_reset (pool_lock (pool_unlock p2)) m2) as [p5 m5] eqn:E5.
  destruct (pool_was_reset _ _ _ _ _ Hok4 E5) as (Hok6 & Hl6). destruct (pool_unlocked _ _ Hok6) as (Hok7 & Hl7 & _).
  eexists. split; [reflexivity|]. apply (represents_intro _ ft ∅).
  - split; [cbn; by rewrite Em|]. eapply Forall_impl; [exact Hv|]. by intros v ->.
  - constructor; try done; [by destruct R|cbn; by rewrite Hl7, Hl6, dom_empty_L|]. intros i k bs Hi. rewrite (Habs i Hi), lookup_empty.
    split; [done|]. by intros (o & it & Ho & _).
  - intros h k v. rewrite lookup_empty. split; [done|]. by intros [off Ho].
Qed.

(** [reset] empties any table in use. *)
Lemma reset_represents t M : represents t M -> exists t', reset t = Ok t' /\ represents t' ∅.
Proof.
  intros ((Hm & _) & ft & own & Hh & _). pose proof (h_rel _ _ _ _ Hh) as R. destruct (h_inv _ _ _ _ Hh) as [sh (Hc & _)].
  apply reset_empty; [|done|apply Hh|by eapply primary_offsets]. destruct Hc as [[l Hl] Emask Hne Hsum Hlen _].
  unfold cfg_ok. rewrite (tr_nb _ _ R), (tr_ne _ _ R), (tr_mask _ _ R), (length_sim _ _ R). split; [by exists l|]. done.
Qed.

(** The loop that computes [rshift_] ends. *)
Lemma rshift_ends nb : 1 <= nb -> exists r, rshift_loop 48 nb 0 = Ok r.
Proof.
  intros Hnb. assert (forall fuel r, 0 <= r -> r + Z.of_nat fuel = 48 -> (0 < fuel)%nat -> exists r', rshift_loop fuel nb r = Ok r') as Hl; [|by apply Hl; lia].
  induction fuel as [|fuel IH]; intros r Hr Hf Hpos; [lia|]. cbn [rshift_loop]. case_goal; [|by eexists]. bool_prop.
  destruct fuel as [|fuel]; [|apply IH; lia]. assert (r = 47) as -> by lia. change (nb < 1) in E. lia.
Qed.

(** The loop that computes the logarithm of the number of buckets ends. *)
Lemma log_ends fuel nb l k :
  0 <= l <= k -> nb <= 2 ^ k -> k - l < Z.of_nat fuel -> exists r, FT.log_num_buckets fuel nb l = Ok r /\ l <= r <= k.
Proof.
  revert l. induction fuel as [|fuel IH]; intros l Hl Hnb Hf; [lia|]. cbn [FT.log_num_buckets]. rewrite Z.shiftl_1_l. case_goal; bool_prop; [|exists l; split; [done|lia]].
  assert (l <> k) by (intros ->; lia). destruct (IH (l + 1)) as (r & Er & Hr); [lia|done|lia|]. exists r. split; [done|lia].
Qed.

Lemma buckets_for_bounds item_count : 1 <= item_count <= 2 ^ 32 -> 1 <= buckets_for item_count <= 2 ^ 30.
Proof.
  intros Hi. unfold buckets_for. change (Z.of_nat kBucketSize) with 7. rewrite (wrap_id 64 (item_count * 11)) by (unfold u; lia).
  assert (1 <= item_count * 11 / 10 <= 2 ^ 32 * 11 / 10) as H1.
  { split; [apply Z.div_le_lower_bound; lia|apply Z.div_le_mono; lia]. }
  change (2 ^ 32 * 11 / 10) with 4724464025 in H1. rewrite wrap_id by (unfold u; lia). split; [apply Z.div_le_lower_bound; lia|].
  apply Z.div_le_upper_bound; [lia|]. lia.
Qed.

(** The constructor. *)
Lemma lt_make_ok item_count shm extra cr cw (pool : P) mem :
  pool_ok false pool mem -> 0 < shm < 1024 * 1024 -> 1 <= item_count <= 2 ^ 32 -> 0 <= extra_for (buckets_for item_count) extra < 2 ^ 31 ->
  exists t, make item_count shm extra cr cw pool mem = Ok t /\ represents t ∅.
Proof.
  intros Hok Hshm Hic Hex. destruct (buckets_for_bounds item_count Hic) as [Hb1 Hb2]. unfold make. cbv zeta. set (ne := extra_for _ _) in *.
  rewrite (proj2 (Z.ltb_lt 0 shm)), (proj2 (Z.ltb_lt shm (1024 * 1024))), (proj2 (Z.ltb_lt 0 (buckets_for item_count))) by lia. cbn [andb assert_]. rewrite !bind_Ok.
  destruct (log_ends 64 (buckets_for item_count) 0 30) as (l & -> & Hl); [lia|lia|lia|]. rewrite bind_Ok, Z.shiftl_1_l, (proj2 (Z.leb_le l 32)) by lia. cbn [assert_]. rewrite bind_Ok.
  pose proof (pow2_pos l ltac:(lia)). assert (2 ^ l <= 2 ^ 30) by (apply Z.pow_le_mono_r; lia). assert (forall x, 0 <= x < 2 ^ 32 -> FT.safe_cast_u32 x = Ok x) as Hcast by (intros x Hx; unfold FT.safe_cast_u32; by guards).
  rewrite !Hcast, !bind_Ok by lia. destruct (rshift_ends (2 ^ l)) as (r & ->); [lia|]. rewrite bind_Ok.
  rewrite (wrap_id 32 (2 ^ l + ne)) by (unfold u; lia). set (t0 := mkTable _ r _ _ ne 0 0 _ pool mem). apply (reset_empty t0).
  - unfold cfg_ok, t0. cbn [num_buckets_ num_extra_buckets_ num_buckets_mask_ buckets_]. rewrite length_replicate. split; [exists l; split; [lia|done]|]. split_and!; lia.
  - unfold mode_ok, t0. cbn [concurrent_access_mode_]. destruct cr, cw; cbn; tauto.
  - done.
  - enough (offsets (take (Z.to_nat (num_buckets_ t0)) (buckets_ t0) ≫= item_vec) = []) as E0 by (cbn zeta; rewrite E0; split; [constructor|by intros off ?%elem_of_nil]).
    unfold t0. cbn [num_buckets_ buckets_]. rewrite take_replicate. induction (_ `min` _)%nat as [|n IH]; [done|]. cbn [replicate]. rewrite bind_cons.
    unfold offsets in *. by rewrite filter_app.
Qed.

End Init.
End LTableInit.
