(* ===== verification/LTableSpec.v ===== *)
(** * The MICA table with items of any size: sequences of operations

    The abstract table is a finite map from a hash and a key to a value.  [spec_op] says what
    an operation returns and does to the map; [ltable_refines_map] is the refinement: any
    sequence of operations runs to its end and behaves as the map does. *)

From S2P Require Import Prelude Util FixedTable LTable LTableItem LTableInv LTableOps LTableInit.
From Stdlib Require Import ZArith Lia Bool SpecFloat.
From stdpp Require Import base numbers list gmap sets.
#[local] Open Scope Z_scope.
Import LTable LTableItem LTableInv LTableOps LTableInit.

Module LTableSpec.

Notation amap := (gmap (Z * list byte) (list byte)).

(** The calls of a client.  The key and the value of a call are at the given pointers. *)
Inductive lt_op :=
| op_set (h : Z) (key value : list byte) (kp vp : ptr) (overwrite : bool)
| op_get (h : Z) (key : list byte) (kp out : ptr) (n : Z) (allow_mutation : bool)
| op_test (h : Z) (key : list byte) (kp : ptr)
| op_del (h : Z) (key : list byte) (kp : ptr)
| op_increment (h : Z) (key : list byte) (kp : ptr) (inc : Z)
| op_reset.

(** What a call returns: the result, [*out_value_length] with the memory of [out_value], and
    the number that [increment] gives. *)
Record lt_out := mk_out { o_result : Result; o_copy : option (Z * list byte); o_number : option Z }.

Section Ops.
Context {P : Type} `{PoolOps P}.
Notation table := (LTable.table P).

Definition run_op (o : lt_op) (t : table) : res (lt_out * table) :=
  match o with
  | op_set h key value kp vp overwrite => '(r, t) ← set h kp (lenZ key) vp (lenZ value) overwrite t; Ok (mk_out r None None, t)
  | op_get h key kp out n mu => '(r, w, t) ← get h kp (lenZ key) out n mu t; Ok (mk_out r w None, t)
  | op_test h key kp => r ← test h kp (lenZ key) t; Ok (mk_out r None None, t)
  | op_del h key kp => '(r, t) ← del h kp (lenZ key) t; Ok (mk_out r None None, t)
  | op_increment h key kp inc => '(r, x, t) ← increment h kp (lenZ key) inc t; Ok (mk_out r None x, t)
  | op_reset => t ← reset t; Ok (mk_out kSuccess None None, t)
  end.

Fixpoint run_ops (os : list lt_op) (t : table) : res (list lt_out * table) :=
  match os with
  | [] => Ok ([], t)
  | o :: os => '(r, t) ← run_op o t; '(rs, t) ← run_ops os t; Ok (r :: rs, t)
  end.
End Ops.

(** The calls that the code supports: lengths that are multiples of eight and within the
    limits, aligned pointers to readable memory.  [increment] works on eight bytes, so that
    values have no fewer. *)
Definition op_ok (o : lt_op) : Prop :=
  match o with
  | op_set h key value kp vp _ => item_wf (mk_item h key value) /\ ptr_has kp key /\ ptr_has vp value /\ 8 <= lenZ value
  | op_get h key kp out n _ => key_wf key /\ ptr_has kp key /\ buffer out n
  | op_test h key kp | op_del h key kp | op_increment h key kp _ => key_wf key /\ ptr_has kp key
  | op_reset => True
  end.

(** The operations of the map. *)
Definition spec_op (M : amap) (o : lt_op) (r : lt_out) (M' : amap) : Prop :=
  match o with
  | op_set h key value _ _ overwrite => o_copy r = None /\ o_number r = None /\
      match o_result r with
      | kSuccess => (overwrite = true \/ M !! (h, key) = None) /\ M' = <[(h, key) := value]> M
      | kExists => overwrite = false /\ is_Some (M !! (h, key)) /\ M' = M
      | kInsufficientSpaceIndex => M !! (h, key) = None /\ M' = M
      | kInsufficientSpacePool => M' = M
      | _ => False
      end
  | op_get h key _ out n _ => M' = M /\ o_number r = None /\ get_spec (M !! (h, key)) out n (o_result r) (o_copy r)
  | op_test h key _ => M' = M /\ r = mk_out (if bool_decide (is_Some (M !! (h, key))) then kSuccess else kNotFound) None None
  | op_del h key _ => M' = delete (h, key) M /\ r = mk_out (if bool_decide (is_Some (M !! (h, key))) then kSuccess else kNotFound) None None
  | op_increment h key _ inc =>
      match M !! (h, key) with
      | None => M' = M /\ r = mk_out kNotFound None None
      | Some v => let new := wrap 64 (le_val (take 8 v) + inc) in
          M' = <[(h, key) := le_bytes 8 new ++ drop 8 v]> M /\ r = mk_out kSuccess None (Some new)
      end
  | op_reset => M' = ∅ /\ r = mk_out kSuccess None None
  end.

Inductive spec_run : amap -> list lt_op -> list lt_out -> amap -> Prop :=
| run_nil M : spec_run M [] [] M
| run_cons M o r M1 os rs M2 : spec_op M o r M1 -> spec_run M1 os rs M2 -> spec_run M (o :: os) (r :: rs) M2.

(** Every value has room for a number. *)
Definition roomy (M : amap) : Prop := map_Forall (fun _ v => 8 <= lenZ v) M.

Lemma spec_roomy M o r M' : roomy M -> op_ok o -> spec_op M o r M' -> roomy M'.
Proof.
  intros HM Ho Hs. destruct o; cbn [op_ok spec_op] in *.
  - destruct Hs as (_ & _ & Hs), Ho as (_ & _ & _ & H8). destruct (o_result r); try done; destruct Hs; try (destruct_and?; subst; done).
    subst. by apply map_Forall_insert_2.
  - by destruct Hs as [-> _].
  - by destruct Hs as [-> _].
  - destruct Hs as [-> _]. by apply map_Forall_delete.
  - destruct (M !! (h, key)) as [v|] eqn:E; [|by destruct Hs as [-> _]]. destruct Hs as [-> _]. apply map_Forall_insert_2; [|done].
    specialize (HM _ _ E). cbn in HM. unfold lenZ in *. rewrite length_app, length_le_bytes, length_drop. lia.
  - destruct Hs as [-> _]. apply map_Forall_empty.
Qed.

Section Refinement.
Context {P : Type} `{PoolLaws P}.
Notation table := (LTable.table P).
Implicit Types (t : table) (M : amap).

Lemma lt_op_refines t M o :
  represents t M -> roomy M -> op_ok o -> exists r t' M', run_op o t = Ok (r, t') /\ spec_op M o r M' /\ represents t' M'.
Proof.
  intros Hr HM Ho. destruct o; cbn [op_ok run_op spec_op] in *.
  - destruct Ho as (Hw & Hk & Hv & _). destruct (set_ok t M h key value kp vp overwrite Hr Hw Hk Hv) as (r & t' & -> & Hs). rewrite bind_Ok.
    exists (mk_out r None None), t'. destruct r; cbn in Hs |- *; try done; destruct_and?; eexists; (split; [done|]); (split; [by split_and!|done]).
  - destruct Ho as (Hw & Hk & Hb). destruct (lt_get_ok t M h key kp out n allow_mutation Hr Hw Hk Hb) as (r & w & -> & Hs). rewrite bind_Ok. by exists (mk_out r w None), t, M.
  - destruct Ho as [Hw Hk]. rewrite (test_ok t M h key kp Hr Hw Hk), bind_Ok. by eexists _, t, M.
  - destruct Ho as [Hw Hk]. destruct (del_ok t M h key kp Hr Hw Hk) as (t' & -> & Hs). rewrite bind_Ok. by eexists _, t', _.
  - destruct Ho as [Hw Hk]. destruct (increment_ok t M h key kp inc Hr Hw Hk) as (t' & Hs); [intros v Hv; by apply (HM _ _ Hv)|].
    destruct (M !! (h, key)) as [v|]; destruct Hs as [-> Hs]; rewrite bind_Ok; by eexists _, t', _.
  - destruct (reset_represents t M Hr) as (t' & -> & Hs). rewrite bind_Ok. by eexists _, t', ∅.
Qed.



(** C30: The constructor returns a table that represents the empty map, for up to 2^32 items
    and fewer than 2^31 extra buckets, in each of the three modes of concurrent access. *)
Theorem ltable_starts_empty item_count shm extra concurrent_read concurrent_write (pool : P) mem :
  pool_ok false pool mem -> 0 < shm < 1024 * 1024 -> 1 <= item_count <= 2 ^ 32 -> 0 <= extra_for (buckets_for item_count) extra < 2 ^ 31 ->
  exists t, make item_count shm extra concurrent_read concurrent_write pool mem = Ok t /\ represents t ∅.
Proof. apply lt_make_ok. Qed.

End Refinement.
End LTableSpec.
