(* ===== verification/LTableDemo.v ===== *)
(** * The MICA table with items of any size: an instance

    A pool that gives out memory from the front satisfies [PoolLaws]; tables on it witness
    the theorems of [LTableSpec]. *)

From S2P Require Import Prelude Util FixedTable LTable LTableItem LTableInv LTableOps LTableInit LTableSpec.
From Stdlib Require Import ZArith Lia Bool SpecFloat.
From stdpp Require Import base numbers list gmap sets.
#[local] Open Scope Z_scope.
Import LTable LTableItem LTableInv LTableOps LTableInit LTableSpec.

Module LTableDemo.

(** The sizes of the allocated items, the first free position, and the lock. *)
Record bump := mk_bump { b_sizes : gmap Z Z; b_next : Z; b_locked : bool }.

Definition room (n : Z) : Z := 8 * (n / 8 + 1).

#[global] Instance bump_ops : PoolOps bump := {
  pool_get_item p m off := (off, default 0 (b_sizes p !! off));
  pool_allocate n p m :=
    if b_next p + room n <=? lenZ m
    then (Some (b_next p), mk_bump (<[b_next p := room n]> (b_sizes p)) (b_next p + room n) (b_locked p), m)
    else (None, p, m);
  pool_release off p m := (mk_bump (delete off (b_sizes p)) (b_next p) (b_locked p), m);
  pool_reset p m := (mk_bump ∅ 0 (b_locked p), m);
  pool_lock p := mk_bump (b_sizes p) (b_next p) true;
  pool_unlock p := mk_bump (b_sizes p) (b_next p) false
}.

(** The items lie before the first free position and do not overlap. *)
Record bump_ok (l : bool) (p : bump) (m : list byte) : Prop := {
  bo_lock : b_locked p = l;
  bo_next : 0 <= b_next p <= lenZ m /\ b_next p mod 8 = 0;
  bo_mem : lenZ m <= 2 ^ 48;
  bo_item : forall off s, b_sizes p !! off = Some s -> 0 <= off /\ off mod 8 = 0 /\ 0 < s /\ off + s <= b_next p;
  bo_apart : forall o o' s s', b_sizes p !! o = Some s -> b_sizes p !! o' = Some s' -> o <> o' -> o + s <= o' \/ o' + s' <= o
}.

Definition bump_live (p : bump) : gset Z := dom (b_sizes p).

Lemma live_size p off : off ∈ bump_live p -> exists s, b_sizes p !! off = Some s /\ pool_get_item p [] off = (off, s).
Proof. unfold bump_live. intros [s Hs]%elem_of_dom. exists s. cbn. by rewrite Hs. Qed.

Lemma room_spec n : 0 <= n -> n <= room n /\ 0 < room n /\ room n mod 8 = 0.
Proof.
  intros Hn. unfold room. pose proof (Z.div_mod n 8 ltac:(lia)). pose proof (Z.mod_pos_bound n 8 ltac:(lia)). pose proof (Z.div_pos n 8).
  split_and!; [lia|lia|]. rewrite Z.mul_comm. by apply Z.mod_mul.
Qed.

Lemma bump_alloc l p m n :
  bump_ok l p m -> 0 <= n -> b_next p + room n <= lenZ m ->
  bump_ok l (mk_bump (<[b_next p := room n]> (b_sizes p)) (b_next p + room n) (b_locked p)) m /\ b_sizes p !! b_next p = None.
Proof.
  intros [Hl [Hx Hx8] Hm Hi Ha] Hn Hr. destruct (room_spec n Hn) as (H1 & H2 & H3). split.
  - constructor; cbn; [done| |done| |].
    + split; [lia|]. by rewrite Z.add_mod, Hx8, H3 by lia.
    + intros off s. rewrite lookup_insert_Some. intros [[<- <-]|[_ Hs]]; [lia|]. specialize (Hi off s Hs). lia.
    + intros o o' s s'. rewrite !lookup_insert_Some. intros [[<- <-]|[Hne Hs]] [[<- <-]|[Hne' Hs']] Hoo; try done.
      * specialize (Hi o' s' Hs'). lia.
      * specialize (Hi o s Hs). lia.
      * by apply Ha.
  - destruct (b_sizes p !! b_next p) as [s|] eqn:E; [|done]. specialize (Hi _ _ E). lia.
Qed.

Lemma bump_sub l p m sizes :
  bump_ok l p m -> sizes ⊆ b_sizes p -> forall l', bump_ok l' (mk_bump sizes (b_next p) l') m.
Proof.
  intros [Hl Hx Hm Hi Ha] Hs l'. constructor; cbn; [done|done|done|..].
  - intros off s Ho. by apply Hi, (lookup_weaken _ _ _ _ Ho).
  - intros o o' s s' Ho Ho'. apply Ha; by eapply lookup_weaken.
Qed.

Lemma bump_keeps (X : gset Z) p p' m : (forall off, off ∈ X -> b_sizes p' !! off = b_sizes p !! off) -> pool_keeps X p m p' m.
Proof. intros HX off Ho. cbn. by rewrite HX. Qed.

#[global, refine] Instance bump_laws : PoolLaws bump := {
  pool_ok := bump_ok;
  pool_live := bump_live
}.
Proof.
  - intros l p m off [Hl Hx Hm Hi Ha] (s & Es & _)%live_size. cbn. rewrite Es. cbn. specialize (Hi off s Es). unfold u. split_and!; lia.
  - intros l p m off off' [Hl Hx Hm Hi Ha] (s & Es & _)%live_size (s' & Es' & _)%live_size Hne. cbn. rewrite Es, Es'. cbn. by apply Ha.
  - intros l p m off m' [Hl Hx Hm Hi Ha] Ho [Hlen _]. split; [|done]. constructor; unfold lenZ in *; rewrite ?Hlen; done.
  - intros l n p m o p' m' Hok [Hn _] E. cbn in E. destruct (Z.leb_spec (b_next p + room n) (lenZ m)); injection E as <- <- <-.
    + destruct (bump_alloc l p m n Hok Hn) as [Hok' Hno]; [done|]. split; [done|]. split; [|split_and!].
      * apply bump_keeps. intros off Hoff. cbn. rewrite lookup_insert_ne; [done|]. intros <-. apply live_size in Hoff as (s & Hs & _). congruence.
      * unfold bump_live. by rewrite not_elem_of_dom.
      * unfold bump_live. cbn. apply dom_insert_L.
      * cbn. rewrite lookup_insert_eq. cbn. by apply room_spec.
    + split; [done|]. split; [|done]. by apply bump_keeps.
  - intros l off p m p' m' Hok Ho E. injection E as <- <-. pose proof (bo_lock l p m Hok) as Hl. rewrite Hl. split; [|split].
    + eapply bump_sub; [done|]. apply delete_subseteq.
    + unfold bump_live. cbn. apply dom_delete_L.
    + apply bump_keeps. intros off' Hoff'. cbn. rewrite lookup_delete_ne; [done|]. set_solver.
  - intros l p m p' m' Hok E. injection E as <- <-. pose proof (bo_lock l p m Hok) as Hl. rewrite Hl. split; [|unfold bump_live; cbn; apply dom_empty_L].
    destruct Hok as [_ Hx Hm _ _]. constructor; cbn; [done|split; [lia|done]|done|by intros ? ? ?|by intros ? ? ? ? ?].
  - intros p m Hok. split; [by eapply bump_sub|]. split; [done|]. by apply bump_keeps.
  - intros p m Hok. split; [by eapply bump_sub|]. split; [done|]. by apply bump_keeps.
Defined.

(** ** A table of 32 buckets *)

Definition pool0 : bump := mk_bump ∅ 0 false.
Definition mem0 : list byte := replicate 512 0.

Lemma pool0_ok : pool_ok false pool0 mem0.
Proof. constructor; [done|by split_and!|done|by intros ? ? ?|by intros ? ? ? ? ?]. Qed.

Definition key0 : list byte := le_bytes 8 7.
Definition value0 : list byte := le_bytes 8 41.
Definition p_key : ptr := mk_ptr key0 0.
Definition p_value : ptr := mk_ptr value0 0.
Definition p_out : ptr := mk_ptr (replicate 8 0) 0.

Lemma item0_ok : item_wf (mk_item 99 key0 value0).
Proof. split; [done|]. by split. Qed.

Lemma ptrs_ok : ptr_has p_key key0 /\ ptr_has p_value value0.
Proof. by split. Qed.

Definition demo_ops : list lt_op :=
  [op_set 99 key0 value0 p_key p_value false; op_set 99 key0 value0 p_key p_value true; op_increment 99 key0 p_key 1;
   op_get 99 key0 p_key p_out 8 false; op_del 99 key0 p_key; op_test 99 key0 p_key; op_reset].

Lemma demo_ops_ok : Forall op_ok demo_ops.
Proof. repeat constructor; done. Qed.

Lemma demo_extra : 0 <= extra_for (buckets_for 200) FixedTable.double_tenth < 2 ^ 31.
Proof. vm_compute. by split. Qed.

Lemma lt_demo_table cr cw : exists t, make 200 1 FixedTable.double_tenth cr cw pool0 mem0 = Ok t /\ represents t ∅.
Proof. apply lt_make_ok; [apply pool0_ok|lia|lia|apply demo_extra]. Qed.

(** ** Witnesses *)

Lemma ltable_starts_empty_witness :
  exists t, make 200 1 FixedTable.double_tenth true true pool0 mem0 = Ok t /\ represents t ∅.
Proof. apply ltable_starts_empty; [apply pool0_ok|lia|lia|apply demo_extra]. Defined.



(** The results of the calls above, with the numbers that come out. *)
Definition demo_run : res (list (Result * option Z)) :=
  t ← make 200 1 FixedTable.double_tenth false false pool0 mem0;
  '(rs, _) ← run_ops demo_ops t;
  Ok (map (fun r => (o_result r, o_number r)) rs).

Example demo_results :
  demo_run = Ok [(kSuccess, None); (kSuccess, None); (kSuccess, Some 42); (kSuccess, None); (kSuccess, None); (kNotFound, None); (kSuccess, None)].
Proof. vm_compute. reflexivity. Qed.

End LTableDemo.
